(* ===== verification/_CoqProject ===== *)
-Q . S2P
Prelude.v
Bytes.v
Text.v
BTree.v
Instances.v
NetAddr.v
Json.v
Http.v
Core.v
Availability.v
Wire.v
WireFacts.v
Traffic.v
Research.v
ResearchFacts.v
Swarm.v
Frame.v
Net.v
Relay.v
Overlay.v
OverlayFacts.v
Bootstrap.v
Bencode.v
Torrent.v
Magnet.v
Resume.v
Transfer.v
Download.v
NodeConfig.v
NodeStore.v
Paths.v
NodeStoreFacts.v
NodeImport.v
ApiRecords.v
NodeRuntime.v
NodeApi.v
NodeRuntimeFacts.v
NodeDaemon.v
NodeThreads.v
NodeThreadsFacts.v
NodeTypes.v
NodeClient.v
ClientStatus.v
Desktop.v
DesktopFacts.v
DesktopView.v
DesktopViewFacts.v
Entry.v
EntryFacts.v
Engine.v
Workers.v
WorkersFacts.v
Sources.v
CliMain.v
CliFacts.v
UnitTests.v
NodeTests.v
Digests.v
Conformance.v
DigestTests.v
