(* ===== verification/Prelude.v ===== *)
(** * TripTorrent: a verification development for the reference implementation

    TripTorrent is a peer-to-peer file transfer protocol.  A file is a list of
    32 KiB chunks described by a manifest of BLAKE3 digests; a receiver asks a
    bootstrap registry for providers of a content identifier, meets each provider at a
    relay on a single-use route, runs a Noise session through the relay, and schedules
    verified chunks over the sessions into a resumable partial file.  The development
    translates the Rust sources of the workspace (src/crates/) into executable
    definitions and proves what those components promise to each other.

    ** Files and what they model

    - Prelude.v (this file): Rust's [Result] with the [?] operator ([rbind]), the
      state-and-error monad [st] of code that mutates and fails, indexing and updating
      of vectors by machine integers, machine-width arithmetic, and the tactics, hints
      and list lemmas the other files share.
    - Bytes.v: octets, big-endian integers, UTF-8, [slice::chunks], the identifier
      alphabet; the classes of the [blake3] and [hex] crates.  Instances.v: concrete
      instances of these classes, on which witnesses evaluate.
    - Text.v: the standard library's operations on strings.  BTree.v: [BTreeMap] as a list
      of entries in key order (its iteration order is observable).  NetAddr.v:
      [str::parse::<SocketAddr>] and its [Display].
    - Core.v: triptorrent-core.  [ContentId], [Manifest], [Chunk]; [from_bytes],
      [verify_chunk], [reconstruct], [validate_shape].
    - Availability.v: [PieceAvailability] of triptorrent-protocol.
    - Wire.v: the messages, validators, reader, writer, encoders and decoders of
      triptorrent-protocol.  WireFacts.v: the grammar of spec/testnet-v1.md and the
      proofs that the codec implements it.
    - Traffic.v: traffic_analysis.rs of triptorrent-overlay.  What a relay observes of a
      transfer, and the fixed experiment on it.  Research.v, ResearchFacts.v: research.rs, the
      simulation of discovery under four policies with its lookups and metrics.
    - Swarm.v: triptorrent-swarm.  [Scheduler] with [assign], [accept], [reject], and
      [RateSchedule].
    - Frame.v: the length-prefixed framing that the net, relay and overlay crates
      share, and the copy loop of the relay.
    - Net.v: triptorrent-net.  Relay registration, Noise handshakes and
      [EncryptedSession].
    - Relay.v: triptorrent-relay.  Registration parsing, [RelayState], and the threads
      of [serve_with_limits] as a step relation.
    - Overlay.v: the [Registry] of triptorrent-overlay, the request handler, one
      connection of the service and the client.  OverlayFacts.v: its theorems.  Bootstrap.v:
      the service with its connection threads as a step relation, and the methods of its
      client.
    - Bencode.v, Torrent.v, Magnet.v: triptorrent-interop.  The strict bencoding
      parser, torrent identities with the BEP 52 Merkle construction, magnet links and
      path components.
    - Resume.v, Transfer.v, Download.v: crates/triptorrent-cli/src/lib.rs.  The
      resumable partial file over a failing file system, the conversations of sender,
      receiver, provider and worker, and [receive_swarm] with its download loop.
    - Json.v, Http.v: the documents and the HTTP exchange of the local API, both sides
      ([read_request], [write_response], [LocalApiClient::request]).
    - NodeConfig.v: the configuration of crates/triptorrent-node.  NodeStore.v: its [Store],
      an SQLite index beside managed files, every statement and file operation of which may
      fail.  NodeStoreFacts.v, NodeImport.v: the theorems on verification, import, removal
      and migration.
    - NodeRuntime.v: [NodeRuntime] with its counters, provider flags, download controls and
      threads.  NodeApi.v: the handlers and routes of the API, the daemon as a step relation
      ([step]) and its accept loop ([server_step]), while requests do not overlap.
      NodeThreads.v: the same operations as programs of atomic actions, and the daemon with the
      actions of all its threads interleaved ([perform], [daemon_run]).  NodeRuntimeFacts.v,
      NodeDaemon.v: invariants over runs without overlap.  NodeThreadsFacts.v, NodeTypes.v:
      invariants over every interleaving.
    - ApiRecords.v, NodeClient.v, ClientStatus.v: crates/triptorrent-node-api.  The records
      with their documents, the typed client, and its composition with the daemon.
    - Desktop.v, DesktopFacts.v: the controller of crates/triptorrent-desktop, which creates the
      configuration, starts and watches the node, runs the user's commands and refreshes
      the snapshot.  DesktopView.v, DesktopViewFacts.v: a frame of the window as the commands
      it sends for the input it gets, and the texts it shows.
    - Paths.v: the standard library's operations on paths.  Entry.v, EntryFacts.v: the
      public operations of crates/triptorrent-cli, which register, poll, discover, connect and
      hand over to Transfer.v and Download.v, and the statistics of the node's engine.
      Engine.v: the [TransferEngine] the node hands a download to, as an interface, and the
      engine of the program as its instance.
    - Workers.v, WorkersFacts.v, Sources.v: the worker threads of a swarm download with their
      channels, the loop that hands them chunks and joins them, as a step relation over
      interleavings and as an executable scheduler.
    - CliMain.v, CliFacts.v: the commands of crates/triptorrent-cli/src/main.rs with their
      files, output and requests, and the heartbeat thread of a relay.
    - UnitTests.v, NodeTests.v: the unit tests of the crates as boolean definitions that evaluate
      to true.  Digests.v: SHA-1, SHA-256 and BLAKE3 written out, on which DigestTests.v evaluates
      the tests that compare digests and a published result of the discovery simulation, and
      Conformance.v the vectors of test-vectors/m9-testnet-v1.json.

    Definitions keep the names of the source.  An operation on [&mut self] returns the
    new state beside its result, also when it fails.  Machine integers are [Z] with
    their ranges and checked or saturating operations written out; a Rust string is the
    list of its UTF-8 bytes.

    ** What the theorems show

    - Integrity.  A manifest describes exactly the file it was made of; a list of
      chunks is accepted only when complete, ordered and verified; a file accepted for
      an honest manifest is the honest file or exhibits a collision of the hash (Core).
      The same holds at the end of both transfer paths: [receive_content] and
      [receive_swarm] succeed only with bytes of the requested identifier, whatever the
      other side sends, and a file whose manifest fits a message is delivered (Transfer,
      Download).
    - Wire format.  The encoders write the specified grammar and the decoders accept
      exactly the encodings of valid messages, in both directions, with version, network
      and domain checked first; framing is exact (WireFacts, Frame).
    - Sessions.  Matching keys complete a handshake, and what one side sends the other
      receives unchanged and in order, through the relay's copy loop (Net, Frame).
    - Services.  The relay's pairing table and counters are bounded, a route pairs
      exactly two opposite roles and is not reused before eviction (Relay).  The
      registry keeps its invariant under every request, a call through the wire returns
      exactly the registry's answer, and discovery and polling meet their contracts
      (OverlayFacts).  The service keeps both under any interleaving of its connections, each
      method of the client returns what the registry decides (Bootstrap), and a relay that
      sends its heartbeats stays listed (CliFacts).
    - Scheduling.  One request per provider, rarest chunk first, freedom from deadlock,
      a bound on the number of requests, and the rate bound (Swarm); the download loop
      ends within as many rounds as chunks and providers (Download).  With its threads, every
      interleaving of a download is a run of that loop, ends within a stated number of steps
      and joins every thread (WorkersFacts), and one provider that answers for every missing
      chunk is enough, whatever the others do (Sources).
    - Durability.  Whatever input or output fails, the resume state never claims a chunk
      that the partial file does not hold, as long as chunks have the lengths of their places
      (which the code does not check), a reopened download continues where it
      stopped, and the output is replaced only by verified bytes (Resume); the case of
      two failed renames, in which the code loses the destination, is stated as it is.
    - Interoperation.  The bencoding parser accepts exactly canonical encodings within its
      bounds, identities hash the canonical [info] value, the layered Merkle loop is the
      complete binary tree, magnet links and path components are accepted exactly when
      well formed (Bencode, Torrent, Magnet).

    - The node.  An import is indexed only with a verified copy, a removal touches nothing
      else, a listing tells the truth about the files, a finished download counts only when
      its bytes hash to the identifier (NodeImport, NodeStoreFacts, NodeDaemon).  However its
      threads interleave, the counters of the daemon count connections, workers and uploads,
      a transfer never has two workers that fetch it, the map of downloads names exactly the
      transfers at work, and every row is one the daemon can read (NodeThreadsFacts,
      NodeTypes).  While requests do not overlap, the map also holds exactly the controls that
      are polled and a content has at most one unfinished transfer (NodeDaemon); two runs show
      what is lost when they do ([race_of_resumes], [race_beyond_limit]).  Nothing changes without the token, and the typed client and
      the routes agree on every call and every reply (NodeDaemon, NodeClient, ClientStatus).
      The migration of an old index is not atomic, and the theorem says so (NodeImport).
    - Metadata.  A relay sees directions and sizes that are a function of the content length
      and the numbers of providers and retries (Traffic).  A simulated lookup ends, sees only
      what it asked, and counts as a success only with an honest replica; an experiment has a
      result exactly when its nodes exist and one is honest and live, and its metrics are
      consistent and fit their integers (ResearchFacts).
    - Whole operations.  A fetch through the overlay or over a given relay puts only verified
      bytes into its output, whatever the bootstrap service, the relays and the providers do;
      a sharer serves the file it announced and reports only relays it could not reach; the
      list of offered chunks is read exactly; statistics add up (EntryFacts).  A command that
      asks the node performs the operation it names there and prints its result, and the
      fetch command says "verified" only of verified bytes (CliFacts).  What a lawful engine
      finishes the node stores, lists and counts, and the program's engine is lawful when its
      sessions deliver what the wire decoder accepts (Engine).
    - The desktop.  A snapshot says "connected" only with the replies of the node, counts the
      starts that succeeded, starts of the node are a back-off apart, a stopped node stays
      stopped and is shown as stopped exactly when it accepted, waiting ends (DesktopFacts); a
      managed copy is deleted only after a confirmation, every command has its cause in the
      input (DesktopViewFacts).

    ** Interfaces

    Code outside the repository is a class with the documented laws: [Blake3], [Hex]
    (Bytes), [Snow] and [SnowLaws] (Net), SHA-1 and SHA-256 (Torrent), Unicode
    normalisation (Magnet), the postcard codec of the resume state (Resume), the JSON and
    TOML text codecs (Json, NodeConfig), and the codecs of the store (NodeStore).  Every
    theorem with such a hypothesis has a witness on a concrete instance, and the BLAKE3 of
    Digests.v satisfies the laws of its class.  Collision freedom
    of a hash is never assumed in general: it appears as the alternative "or here is a
    collision", or as a hypothesis about the finitely many inputs of one run.  Inside the
    repository, [TransferEngine] with [TransferEngineLaws] (Engine) is what the node relies
    on; the laws of [CliTransferEngine] are proved from the theorems on whole operations.

    ** Fuel and bounds

    Recursion that is not structural runs on fuel computed from the input.  The bencoding
    parser gets twice the input length plus two, and every call consumes input
    ([parse_node_fuel]); the Merkle loop halves its layer and gets its length; the frame
    readers, copy loops and conversations get the length of what will arrive plus one.
    Each exactness theorem covers these fuels: exhausted fuel would be a
    failure of the theorem, not an excluded case.  The download loop recurses over the rounds its
    environment supplies, and [download_complete] proves that chunks plus providers many
    rounds suffice; these rounds are the observations of a real run, since the threads refine
    the loop, and [step_bound] bounds the steps of the threads themselves.  The loops of the desktop that wait for a process or the node get the rounds
    their sleeps need to pass the timeout, and [waiting_ends] proves that more would change
    nothing.  Polls, discovery attempts and turns of a sharer are lists of what happened; where
    such a list ends first, the operation is still running ([None], [Waiting]).  The services
    run forever: their theorems quantify over every finite sequence of steps.

    ** What is not modelled

    Socket options and timeouts, log and metric lines, the wall clock (every operation takes
    the time as an argument), poisoned locks, and random number generation (identifiers,
    tokens and routes are arguments).  A Noise session in the model has nonces without end.
    The atomic actions of the node's threads are calls on the store and sections under a lock;
    a verification of stored files counts as one.  Argument parsing ([clap]), the layout and drawing of the window ([egui]), the Python
    receiver, the tests that open sockets, the fuzz targets and deployment files have no model.
    The timeouts of the channels are an event that may happen at any wait.  What remains in the
    modelled files is imports, documentation, trait declarations and constructors that only
    wrap a value. *)
From stdpp Require Import base tactics list numbers option gmap.
From Stdlib Require Import ZArith Lia.
From Stdlib Require String Ascii.
Export Stdlib.Strings.String.StringSyntax.

Local Open Scope Z_scope.

(** * Results: Rust's [Result<A, E>] and the [?] operator *)

Inductive result (E A : Type) : Type :=
| Ok (a : A)
| Err (e : E).
Arguments Ok {E A} a.
Arguments Err {E A} e.

#[export] Instance result_ret {E} : MRet (result E) := fun A a => Ok a.
#[export] Instance result_bind {E} : MBind (result E) :=
  fun A B f r => match r with Ok a => f a | Err e => Err e end.
#[export] Instance result_fmap {E} : FMap (result E) :=
  fun A B f r => match r with Ok a => Ok (f a) | Err e => Err e end.

#[export] Instance result_eq_dec {E A} `{EqDecision E} `{EqDecision A} :
  EqDecision (result E A).
Proof. solve_decision. Defined.

(** [Result::is_ok] *)
Definition is_ok {E A} (r : result E A) : bool :=
  match r with Ok _ => true | Err _ => false end.

(** [Result::map_err] *)
Definition map_err {E F A} (f : E -> F) (r : result E A) : result F A :=
  match r with Ok a => Ok a | Err e => Err (f e) end.

(** [Option::ok_or] *)
Definition ok_or {E A} (o : option A) (e : E) : result E A :=
  match o with Some a => Ok a | None => Err e end.

(** An early return: [if b { return Err(e) }]. *)
Definition guard_err {E} (b : bool) (e : E) : result E unit :=
  if b then Err e else Ok tt.

Lemma Ok_inj {E A} (a b : A) : @Ok E A a = Ok b -> a = b.
Proof. congruence. Qed.

Lemma bind_Ok {E A B} (r : result E A) (f : A -> result E B) (b : B) :
  (r ≫= f) = Ok b <-> exists a, r = Ok a /\ f a = Ok b.
Proof. destruct r; simpl; naive_solver. Qed.

Lemma fmap_Ok {E A B} (r : result E A) (f : A -> B) (b : B) :
  (f <$> r) = Ok b <-> exists a, r = Ok a /\ b = f a.
Proof. destruct r; simpl; naive_solver. Qed.

Lemma map_err_Ok {E F A} (f : E -> F) (r : result E A) a :
  map_err f r = Ok a <-> r = Ok a.
Proof. destruct r; simpl; naive_solver. Qed.

Lemma ok_or_Ok {E A} (o : option A) (e : E) a :
  ok_or o e = Ok a <-> o = Some a.
Proof. destruct o; simpl; naive_solver. Qed.

Lemma guard_err_Ok {E} b (e : E) u : guard_err b e = Ok u <-> b = false.
Proof. destruct b, u; simpl; naive_solver. Qed.

(** [invert_ok]: take apart a hypothesis saying that a chain of [?] returned
    [Ok], one binding at a time. *)
Ltac invert_ok :=
  repeat match goal with
  | H : Ok _ = Ok _ |- _ => injection H as H; try subst
  | H : Err _ = Ok _ |- _ => discriminate H
  | H : Ok _ = Err _ |- _ => discriminate H
  | H : (_ ≫= _) = Ok _ |- _ =>
      let a := fresh "a" in let Ha := fresh "Ha" in
      apply bind_Ok in H; destruct H as (a & Ha & H); simpl in H
  | H : (_ <$> _) = Ok _ |- _ =>
      let a := fresh "a" in let Ha := fresh "Ha" in
      apply fmap_Ok in H; destruct H as (a & Ha & H); simpl in H
  | H : map_err _ _ = Ok _ |- _ => apply map_err_Ok in H
  | H : ok_or _ _ = Ok _ |- _ => apply ok_or_Ok in H
  | H : guard_err _ _ = Ok _ |- _ => apply guard_err_Ok in H
  end.

(** * Lengths and indices: Rust's [usize] as [Z] *)

(** [slice.len()] *)
Definition len {A} (l : list A) : Z := Z.of_nat (length l).

(** Maximum values of the machine integers (a 64-bit [usize]). *)
Definition U8_MAX : Z := 255.
Definition U16_MAX : Z := 65535.
Definition U32_MAX : Z := 4294967295.
Definition U64_MAX : Z := 18446744073709551615.
Definition USIZE_MAX : Z := U64_MAX.
Definition U128_MAX : Z := 340282366920938463463374607431768211455.
Definition I64_MAX : Z := 9223372036854775807.

(** [uN::try_from(v).ok()] for a non-negative [v]. *)
Definition try_from (max v : Z) : option Z :=
  if (0 <=? v) && (v <=? max) then Some v else None.

(** [a.checked_add(b)], [a.checked_mul(b)], [a.checked_sub(b)] *)
Definition checked_add (max a b : Z) : option Z := try_from max (a + b).
Definition checked_mul (max a b : Z) : option Z := try_from max (a * b).
Definition checked_sub (max a b : Z) : option Z := try_from max (a - b).

(** [a.saturating_add(b)], [a.saturating_mul(b)], [a.saturating_sub(b)] *)
Definition sat_add (max a b : Z) : Z := Z.min max (a + b).
Definition sat_mul (max a b : Z) : Z := Z.min max (a * b).
Definition sat_sub (a b : Z) : Z := Z.max 0 (a - b).

(** [a.div_ceil(b)] for [b > 0] *)
Definition div_ceil (a b : Z) : Z := (a + b - 1) / b.

Lemma len_nonneg {A} (l : list A) : 0 <= len l.
Proof. unfold len; lia. Qed.

Lemma len_nil {A} : len (@nil A) = 0.
Proof. done. Qed.

Lemma len_cons {A} (x : A) l : len (x :: l) = 1 + len l.
Proof. unfold len; simpl; lia. Qed.

Lemma len_app {A} (l k : list A) : len (l ++ k) = len l + len k.
Proof. unfold len; rewrite length_app; lia. Qed.

Lemma len_replicate {A} n (x : A) : len (replicate n x) = Z.of_nat n.
Proof. unfold len; by rewrite length_replicate. Qed.

Lemma len_fmap {A B} (f : A -> B) l : len (f <$> l) = len l.
Proof. unfold len; by rewrite length_fmap. Qed.

Lemma len_map {A B} (f : A -> B) l : len (map f l) = len l.
Proof. unfold len; by rewrite length_map. Qed.

Lemma len_drop {A} n (l : list A) : len (drop n l) = Z.max 0 (len l - Z.of_nat n).
Proof. unfold len; rewrite length_drop; lia. Qed.

Lemma len_take {A} n (l : list A) : len (take n l) = Z.min (Z.of_nat n) (len l).
Proof. unfold len; rewrite length_take; lia. Qed.

Lemma len_zero_inv {A} (l : list A) : len l = 0 -> l = [].
Proof. destruct l; [done|]. rewrite len_cons. pose proof (len_nonneg l); lia. Qed.

Lemma len_insert {A} i (x : A) l : len (<[i:=x]> l) = len l.
Proof. unfold len; by rewrite length_insert. Qed.

Create HintDb triptorrent.
Create Rewrite HintDb len.
#[export] Hint Rewrite @len_nil @len_cons @len_app @len_replicate @len_fmap
  @len_map @len_drop @len_take @len_insert : len.
#[export] Hint Resolve len_nonneg : triptorrent.

(** [len_lia]: arithmetic over the lengths of lists. *)
Ltac pose_lens :=
  repeat match goal with
  | |- context [len ?l] =>
      lazymatch goal with H : 0 <= len l |- _ => fail | _ => pose proof (len_nonneg l) end
  | _ : context [len ?l] |- _ =>
      lazymatch goal with H : 0 <= len l |- _ => fail | _ => pose proof (len_nonneg l) end
  end.
Ltac len_lia := autorewrite with len in *; pose_lens; lia.

Lemma try_from_Some max v w : try_from max v = Some w <-> v = w /\ 0 <= v <= max.
Proof.
  unfold try_from. destruct (Z.leb_spec 0 v), (Z.leb_spec v max); simpl; naive_solver lia.
Qed.

Lemma try_from_None max v : try_from max v = None <-> v < 0 \/ max < v.
Proof.
  unfold try_from. destruct (Z.leb_spec 0 v), (Z.leb_spec v max); simpl; naive_solver lia.
Qed.

Lemma div_ceil_spec a b :
  0 <= a -> 0 < b -> (div_ceil a b - 1) * b < a <= div_ceil a b * b.
Proof.
  intros Ha Hb. unfold div_ceil.
  pose proof (Z.div_mod (a + b - 1) b). pose proof (Z.mod_pos_bound (a + b - 1) b).
  nia.
Qed.

Lemma div_ceil_unique a b q :
  0 < b -> (q - 1) * b < a <= q * b -> div_ceil a b = q.
Proof.
  intros Hb Hq. unfold div_ceil.
  symmetry. apply (Z.div_unique _ _ _ (a - 1 - (q - 1) * b)); nia.
Qed.

Lemma div_ceil_nonneg a b : 0 <= a -> 0 < b -> 0 <= div_ceil a b.
Proof. intros. unfold div_ceil. apply Z.div_pos; lia. Qed.

(** [slice.get(i..j)] *)
Definition slice {A} (l : list A) (i j : Z) : option (list A) :=
  if (0 <=? i) && (i <=? j) && (j <=? len l)
  then Some (take (Z.to_nat (j - i)) (drop (Z.to_nat i) l)) else None.

(** [slice.get(i)] *)
Definition get {A} (l : list A) (i : Z) : option A :=
  if 0 <=? i then l !! Z.to_nat i else None.

Lemma get_Some_range {A} (l : list A) i x : get l i = Some x -> 0 <= i < len l.
Proof.
  unfold get, len. destruct (Z.leb_spec 0 i); [|done].
  intros H'%lookup_lt_Some. lia.
Qed.

Lemma get_is_Some {A} (l : list A) i : is_Some (get l i) <-> 0 <= i < len l.
Proof.
  unfold get, len. destruct (Z.leb_spec 0 i).
  - rewrite lookup_lt_is_Some. lia.
  - split; [intros [? ?]; done | lia].
Qed.

Lemma slice_Some {A} (l : list A) i j s :
  slice l i j = Some s ->
  0 <= i /\ i <= j /\ j <= len l /\ s = take (Z.to_nat (j - i)) (drop (Z.to_nat i) l)
  /\ len s = j - i.
Proof.
  unfold slice. destruct (Z.leb_spec 0 i), (Z.leb_spec i j), (Z.leb_spec j (len l)); simpl;
    try done.
  intros [= <-]. repeat split; try done. len_lia.
Qed.

(** The slice [i..i+|m|] of [p ++ m ++ s] is [m] when [p] has length [i]. *)
Lemma slice_middle {A} (p m s : list A) i j :
  i = len p -> j = len p + len m -> slice (p ++ m ++ s) i j = Some m.
Proof.
  intros -> ->. unfold slice.
  rewrite (proj2 (Z.leb_le 0 (len p))) by len_lia.
  rewrite (proj2 (Z.leb_le (len p) _)) by len_lia.
  rewrite (proj2 (Z.leb_le _ (len (p ++ m ++ s)))) by len_lia. simpl.
  f_equal. unfold len. rewrite Nat2Z.id, drop_app_length.
  replace (Z.to_nat _) with (length m) by lia. apply take_app_length.
Qed.

(** * Loops over slices *)

(** [iter().try_for_each(f)]: a [for] loop whose body may return early. *)
Fixpoint try_for_each {E A} (f : A -> result E unit) (l : list A) : result E unit :=
  match l with
  | [] => Ok tt
  | x :: l => _ ← f x; try_for_each f l
  end.

Lemma try_for_each_Ok {E A} (f : A -> result E unit) l :
  try_for_each f l = Ok tt <-> Forall (fun x => f x = Ok tt) l.
Proof.
  induction l as [|x l IH]; simpl; [split; auto|].
  rewrite Forall_cons_iff, <- IH. destruct (f x) as [[]|]; simpl; naive_solver.
Qed.

(** [iter().map(f).collect::<Result<_, _>>()] *)
Fixpoint map_result {E A B} (f : A -> result E B) (l : list A) : result E (list B) :=
  match l with
  | [] => Ok []
  | x :: l => y ← f x; ys ← map_result f l; Ok (y :: ys)
  end.

(** [iter().try_fold(a, f)] over [Option] *)
Fixpoint try_fold {A B} (f : B -> A -> option B) (acc : B) (l : list A) : option B :=
  match l with
  | [] => Some acc
  | x :: l => match f acc x with Some acc => try_fold f acc l | None => None end
  end.

(** [iter().all(p)] and [iter().any(p)] *)
Abbreviation all := forallb.
Abbreviation any := existsb.

Lemma all_true {A} (p : A -> bool) l : all p l = true <-> Forall (fun x => p x = true) l.
Proof.
  induction l as [|x l IH]; simpl; [split; auto|].
  by rewrite andb_true_iff, Forall_cons_iff, IH.
Qed.

Lemma any_true {A} (p : A -> bool) l : any p l = true <-> Exists (fun x => p x = true) l.
Proof.
  induction l as [|x l IH]; simpl; [split; [done|by intros ?%Exists_nil]|].
  by rewrite orb_true_iff, Exists_cons, IH.
Qed.

(** [iter().filter(p).count()] *)
Definition count {A} (p : A -> bool) (l : list A) : Z := len (List.filter p l).

Lemma count_nonneg {A} (p : A -> bool) l : 0 <= count p l.
Proof. apply len_nonneg. Qed.

Lemma count_cons {A} (p : A -> bool) x l :
  count p (x :: l) = (if p x then 1 else 0) + count p l.
Proof. unfold count; simpl. destruct (p x); autorewrite with len; lia. Qed.

Lemma count_app {A} (p : A -> bool) l k : count p (l ++ k) = count p l + count p k.
Proof. unfold count. rewrite List.filter_app. len_lia. Qed.

Lemma count_le_len {A} (p : A -> bool) l : count p l <= len l.
Proof. induction l; [done|]. rewrite count_cons. destruct (p a); len_lia. Qed.

Lemma count_pos {A} (p : A -> bool) l : 0 < count p l <-> Exists (fun x => p x = true) l.
Proof.
  induction l as [|x l IH]; [split; [done|by intros ?%Exists_nil]|].
  rewrite count_cons, Exists_cons, <- IH. pose proof (count_nonneg p l).
  destruct (p x); naive_solver lia.
Qed.

Lemma count_all {A} (p : A -> bool) l : count p l = len l <-> Forall (fun x => p x = true) l.
Proof.
  induction l as [|x l IH]; [split; auto|].
  rewrite count_cons, Forall_cons_iff, <- IH. pose proof (count_le_len p l).
  destruct (p x); autorewrite with len; naive_solver lia.
Qed.

(** The update of one element of a list changes a count by one element's worth. *)
Lemma count_insert {A} (p : A -> bool) l i x y :
  l !! i = Some x ->
  count p (<[i:=y]> l) = count p l - (if p x then 1 else 0) + (if p y then 1 else 0).
Proof.
  revert i. induction l as [|z l IH]; intros [|i] H; simplify_eq/=.
  - rewrite !count_cons. lia.
  - rewrite !count_cons, (IH _ H). lia.
Qed.

(** [v[i] = x] for an index in range *)
Definition set_at {A} (l : list A) (i : Z) (x : A) : list A := <[Z.to_nat i := x]> l.

Lemma len_set_at {A} (l : list A) i x : len (set_at l i x) = len l.
Proof. apply len_insert. Qed.
#[export] Hint Rewrite @len_set_at : len.

Lemma get_set_at {A} (l : list A) i x y j :
  get l i = Some y -> get (set_at l i x) j = if j =? i then Some x else get l j.
Proof.
  intros Hi%get_Some_range. unfold get, set_at, len in *.
  destruct (Z.eqb_spec j i) as [->|Hne].
  - rewrite (proj2 (Z.leb_le 0 i)), list_lookup_insert_eq by lia. done.
  - destruct (Z.leb_spec 0 j); [|done]. apply list_lookup_insert_ne. lia.
Qed.

Lemma get_lookup {A} (l : list A) i x : get l i = Some x -> l !! Z.to_nat i = Some x.
Proof. unfold get. by destruct (0 <=? i). Qed.

Lemma get_of_nat {A} (l : list A) (n : nat) : get l (Z.of_nat n) = l !! n.
Proof. unfold get. rewrite (proj2 (Z.leb_le 0 _)) by lia. by rewrite Nat2Z.id. Qed.

Lemma get_elem {A} (l : list A) i x : get l i = Some x -> x ∈ l.
Proof. intros H%get_lookup. by eapply list_elem_of_lookup_2. Qed.

Lemma elem_get {A} (l : list A) x : x ∈ l -> exists i, get l i = Some x.
Proof. intros [n Hn]%list_elem_of_lookup. exists (Z.of_nat n). by rewrite get_of_nat. Qed.

Lemma count_set_at {A} (p : A -> bool) l i x y :
  get l i = Some x ->
  count p (set_at l i y) = count p l - (if p x then 1 else 0) + (if p y then 1 else 0).
Proof. intros Hi. apply count_insert, get_lookup, Hi. Qed.

Lemma Forall_set_at {A} (P : A -> Prop) l i x : Forall P l -> P x -> Forall P (set_at l i x).
Proof. intros. by apply Forall_insert. Qed.

Lemma count_ext {A} (p q : A -> bool) l :
  Forall (fun x => p x = q x) l -> count p l = count q l.
Proof. induction 1 as [|x l Hx _ IH]; [done|]. by rewrite !count_cons, Hx, IH. Qed.

(** The sum of an attribute over a list. *)
Definition sum {A} (f : A -> Z) (l : list A) : Z := foldr (fun x a => f x + a) 0 l.

Lemma sum_nil {A} (f : A -> Z) : sum f [] = 0.
Proof. reflexivity. Qed.

Lemma sum_cons {A} (f : A -> Z) x l : sum f (x :: l) = f x + sum f l.
Proof. reflexivity. Qed.

Lemma sum_nonneg {A} (f : A -> Z) l : (forall x, 0 <= f x) -> 0 <= sum f l.
Proof. intros Hf. induction l as [|x l IH]; [done|]. rewrite sum_cons. specialize (Hf x). lia. Qed.

Lemma sum_insert {A} (f : A -> Z) l i x y :
  l !! i = Some x -> sum f (<[i:=y]> l) = sum f l - f x + f y.
Proof.
  unfold sum. revert i. induction l as [|z l IH]; intros [|i] H; simplify_eq/=; [lia|].
  rewrite (IH _ H). lia.
Qed.

Lemma sum_set_at {A} (f : A -> Z) l i x y :
  get l i = Some x -> sum f (set_at l i y) = sum f l - f x + f y.
Proof. intros Hi. apply sum_insert, get_lookup, Hi. Qed.

(** * Hash maps *)

(** [HashMap::len] *)
Definition map_len {K V} `{Countable K} (m : gmap K V) : Z := Z.of_nat (size m).

(** * Boolean tests *)

(** [to_prop]: turn boolean tests on integers into propositions. *)
Ltac to_prop :=
  repeat match goal with
  | H : _ && _ = true |- _ => apply andb_true_iff in H; destruct H
  | H : _ || _ = false |- _ => apply orb_false_iff in H; destruct H
  | H : negb _ = true |- _ => apply negb_true_iff in H
  | H : negb _ = false |- _ => apply negb_false_iff in H
  | H : (_ <=? _)%Z = true |- _ => apply Z.leb_le in H
  | H : (_ <=? _)%Z = false |- _ => apply Z.leb_gt in H
  | H : (_ <? _)%Z = true |- _ => apply Z.ltb_lt in H
  | H : (_ <? _)%Z = false |- _ => apply Z.ltb_ge in H
  | H : (_ =? _)%Z = true |- _ => apply Z.eqb_eq in H
  | H : (_ =? _)%Z = false |- _ => apply Z.eqb_neq in H
  | H : bool_decide _ = true |- _ => apply bool_decide_eq_true in H
  | H : bool_decide _ = false |- _ => apply bool_decide_eq_false in H
  end.

#[export] Instance string_eq_dec : EqDecision String.string := String.string_dec.

(** The bytes of a Rust string literal. *)
Definition str (s : String.string) : list Z :=
  map (fun c => Z.of_N (Ascii.N_of_ascii c)) (String.list_ascii_of_string s).
Arguments str s%_string_scope.

(** [iter().enumerate()], counting from [i] *)
Fixpoint enumerate_from {A} (i : Z) (l : list A) : list (Z * A) :=
  match l with
  | [] => []
  | x :: l => (i, x) :: enumerate_from (i + 1) l
  end.
Definition enumerate {A} (l : list A) : list (Z * A) := enumerate_from 0 l.

(** [Vec::dedup] *)
Fixpoint dedup (l : list Z) : list Z :=
  match l with
  | [] => []
  | x :: rest =>
      match rest with
      | [] => [x]
      | y :: _ => if x =? y then dedup rest else x :: dedup rest
      end
  end.

Lemma enumerate_from_lookup {A} i (l : list A) n :
  enumerate_from i l !! n = (fun x => (i + Z.of_nat n, x)) <$> (l !! n).
Proof.
  revert i n. induction l as [|x l IH]; intros i [|n]; simpl; try done.
  - do 2 f_equal. lia.
  - rewrite IH. destruct (l !! n); simpl; [|done]. do 2 f_equal. lia.
Qed.

Lemma len_enumerate_from {A} i (l : list A) : len (enumerate_from i l) = len l.
Proof. revert i. induction l; intros; simpl; [done|]. by rewrite !len_cons, IHl. Qed.
#[export] Hint Rewrite @len_enumerate_from : len.

Lemma enumerate_from_elem {A} i (l : list A) j x :
  (j, x) ∈ enumerate_from i l -> exists n : nat, l !! n = Some x /\ j = i + Z.of_nat n.
Proof.
  intros (n & Hn)%list_elem_of_lookup. rewrite enumerate_from_lookup in Hn.
  destruct (l !! n) eqn:E; simplify_eq/=. eauto.
Qed.

Lemma map_result_pure {E A B} (f : A -> result E B) (g : A -> B) l :
  Forall (fun x => f x = Ok (g x)) l -> map_result f l = Ok (map g l).
Proof. induction 1 as [|x l Hx _ IH]; simpl; [done|]. rewrite Hx. simpl. by rewrite IH. Qed.

Lemma get_enumerate {A} (l : list A) j x : (j, x) ∈ enumerate l -> get l j = Some x /\ 0 <= j < len l.
Proof.
  intros (n & Hn & ->)%enumerate_from_elem. pose proof (lookup_lt_Some _ _ _ Hn).
  unfold get, len. rewrite Z.add_0_l, Nat2Z.id.
  rewrite (proj2 (Z.leb_le 0 (Z.of_nat n))) by lia. split; [done|lia].
Qed.

Lemma elem_enumerate {A} (l : list A) i x : get l i = Some x -> (i, x) ∈ enumerate l.
Proof.
  intros Hi. pose proof (get_Some_range _ _ _ Hi). apply get_lookup in Hi.
  apply list_elem_of_lookup. exists (Z.to_nat i). unfold enumerate.
  rewrite enumerate_from_lookup, Hi. simpl. do 2 f_equal. lia.
Qed.

Lemma map_snd_enumerate_from {A} i (l : list A) : map snd (enumerate_from i l) = l.
Proof. revert i. induction l; intros; simpl; [done|]. by rewrite IHl. Qed.

(** Two different lists of the same length differ at some position. *)
Lemma list_differ {A} `{EqDecision A} (l k : list A) :
  length l = length k -> l <> k ->
  exists i x y, l !! i = Some x /\ k !! i = Some y /\ x <> y.
Proof.
  revert k. induction l as [|x l IH]; intros [|y k] Hlen Hne; simplify_eq/=.
  destruct (decide (x = y)) as [->|Hxy].
  - destruct (IH k Hlen) as (i & a & b & ? & ? & ?); [congruence|].
    exists (S i), a, b. done.
  - exists 0%nat, x, y. done.
Qed.

(** * Effects: a state and early returns *)

(** A computation that changes a state and may fail; the state reached before an
    error is kept. *)
Definition st (S E A : Type) : Type := S -> S * result E A.

#[export] Instance st_ret {S E} : MRet (st S E) := fun A a s => (s, Ok a).
#[export] Instance st_bind {S E} : MBind (st S E) := fun A B f c s =>
  match c s with
  | (s, Ok a) => f a s
  | (s, Err e) => (s, Err e)
  end.

Definition throw {S E A} (e : E) : st S E A := fun s => (s, Err e).
Definition lift {S E A} (r : result E A) : st S E A := fun s => (s, r).

(** Take apart a computation that returned, and one that returned [Ok]. *)
Lemma st_bind_inv {S E A B} (c : st S E A) (f : A -> st S E B) s s' r :
  (c ≫= f) s = (s', r) ->
  (exists s1 a, c s = (s1, Ok a) /\ f a s1 = (s', r)) \/ (exists e, c s = (s', Err e) /\ r = Err e).
Proof. unfold mbind, st_bind. destruct (c s) as [s1 [a|e]]; [eauto|]. intros [= <- <-]. eauto. Qed.

Lemma st_ok_inv {S E A B} (c : st S E A) (f : A -> st S E B) s s' b :
  (c ≫= f) s = (s', Ok b) -> exists s1 a, c s = (s1, Ok a) /\ f a s1 = (s', Ok b).
Proof. intros [(s1 & a & Hc & Hf)|(e & _ & ?)]%st_bind_inv; [eauto|done]. Qed.

Lemma st_bind_Ok {S E A B} (c : st S E A) (f : A -> st S E B) s s1 a : c s = (s1, Ok a) -> (c ≫= f) s = f a s1.
Proof. intros Hc. unfold mbind, st_bind. by rewrite Hc. Qed.
