(* ===== verification/Bytes.v ===== *)
(** * Bytes: octets, big-endian integers, UTF-8 and slice chunking

    What the sources use of the Rust standard library on byte strings:
    [to_be_bytes]/[from_be_bytes], [str::from_utf8], [slice::chunks], the
    restricted identifier alphabet shared by the wire codec, the relay and the
    registry, and the two third-party codecs the sources call ([blake3::hash],
    [hex::encode]/[hex::decode]) as type classes with the documented laws. *)
From stdpp Require Import base tactics list numbers option.
From Stdlib Require Import ZArith Lia.
From S2P Require Import Prelude.
Import stdpp.list.

Local Open Scope Z_scope.

(** ** Octets *)

Definition is_byte (b : Z) : Prop := 0 <= b < 256.
Definition bytes_ok (l : list Z) : Prop := Forall is_byte l.
Definition bytes_okb (l : list Z) : bool := all (fun b => (0 <=? b) && (b <? 256)) l.

Lemma bytes_okb_true l : bytes_okb l = true <-> bytes_ok l.
Proof.
  unfold bytes_okb, bytes_ok, is_byte. rewrite all_true.
  apply Forall_iff. intros b. rewrite andb_true_iff, Z.leb_le, Z.ltb_lt. done.
Qed.

Lemma bytes_ok_cons b l : bytes_ok (b :: l) <-> is_byte b /\ bytes_ok l.
Proof. apply Forall_cons_iff. Qed.

Lemma bytes_ok_app l k : bytes_ok (l ++ k) <-> bytes_ok l /\ bytes_ok k.
Proof. apply Forall_app. Qed.

Lemma bytes_ok_take n l : bytes_ok l -> bytes_ok (take n l).
Proof. apply Forall_take. Qed.

Lemma bytes_ok_drop n l : bytes_ok l -> bytes_ok (drop n l).
Proof. apply Forall_drop. Qed.

Lemma bytes_ok_replicate n b : is_byte b -> bytes_ok (replicate n b).
Proof. apply Forall_replicate. Qed.

Lemma bytes_ok_str s : bytes_ok (str s).
Proof.
  unfold str, bytes_ok. apply Forall_forall. intros x Hx.
  apply list_elem_of_In, in_map_iff in Hx as (c & <- & _).
  unfold is_byte. pose proof (Ascii.N_ascii_bounded c). lia.
Qed.
#[export] Hint Resolve bytes_ok_take bytes_ok_drop bytes_ok_str bytes_ok_replicate : triptorrent.

(** ** Big-endian integers: [to_be_bytes] and [from_be_bytes] *)

Fixpoint to_be (n : nat) (v : Z) : list Z :=
  match n with
  | O => []
  | S n => to_be n (v / 256) ++ [v mod 256]
  end.

Definition from_be (l : list Z) : Z := foldl (fun acc b => acc * 256 + b) 0 l.

Lemma from_be_snoc l b : from_be (l ++ [b]) = from_be l * 256 + b.
Proof. unfold from_be. by rewrite foldl_app. Qed.

Lemma length_to_be n v : length (to_be n v) = n.
Proof. revert v. induction n; intros; simpl; [done|]. rewrite length_app, IHn. simpl. lia. Qed.

Lemma len_to_be n v : len (to_be n v) = Z.of_nat n.
Proof. unfold len. by rewrite length_to_be. Qed.
#[export] Hint Rewrite len_to_be : len.

Lemma bytes_ok_to_be n v : bytes_ok (to_be n v).
Proof.
  revert v. induction n; intros; simpl; [constructor|].
  apply bytes_ok_app. split; [apply IHn|].
  repeat constructor; apply Z.mod_pos_bound; lia.
Qed.
#[export] Hint Resolve bytes_ok_to_be : triptorrent.

Lemma from_be_to_be n v : 0 <= v < 256 ^ Z.of_nat n -> from_be (to_be n v) = v.
Proof.
  revert v. induction n as [|n IH]; intros v Hv.
  - simpl in *. unfold from_be; simpl. lia.
  - simpl to_be. rewrite from_be_snoc, IH.
    + pose proof (Z.div_mod v 256). lia.
    + rewrite Nat2Z.inj_succ, Z.pow_succ_r in Hv by apply Nat2Z.is_nonneg.
      split; [apply Z.div_pos; lia | apply Z.div_lt_upper_bound; [lia|]]. apply Hv.
Qed.

Lemma from_be_range l : bytes_ok l -> 0 <= from_be l < 256 ^ len l.
Proof.
  induction l as [|b l IH] using rev_ind; intros Hl.
  - unfold from_be, len; simpl. lia.
  - apply bytes_ok_app in Hl as [Hl Hb]. apply bytes_ok_cons in Hb as [Hb _]. unfold is_byte in Hb.
    rewrite from_be_snoc, len_app.
    replace (len [b]) with 1 by done. rewrite Z.pow_add_r by len_lia.
    specialize (IH Hl). rewrite Z.pow_1_r.
    generalize dependent (256 ^ len l). intros. lia.
Qed.

Lemma to_be_from_be l : bytes_ok l -> to_be (length l) (from_be l) = l.
Proof.
  induction l as [|b l IH] using rev_ind; intros Hl; [done|].
  apply bytes_ok_app in Hl as [Hl Hb]. apply bytes_ok_cons in Hb as [Hb _]. unfold is_byte in Hb.
  rewrite length_app, Nat.add_comm. simpl. rewrite from_be_snoc.
  rewrite Z.add_comm, Z.mod_add, Z.mod_small by lia.
  rewrite Z.div_add, Z.div_small, Z.add_0_l by lia. by rewrite IH.
Qed.

(** ** UTF-8: the well-formed byte sequences accepted by [str::from_utf8] *)

Definition in_range (lo hi b : Z) : bool := (lo <=? b) && (b <=? hi).
Definition is_cont (b : Z) : bool := in_range 128 191 b.

Fixpoint utf8_valid (l : list Z) : bool :=
  match l with
  | [] => true
  | b0 :: r0 =>
      if in_range 0 127 b0 then utf8_valid r0
      else match r0 with
      | [] => false
      | b1 :: r1 =>
          if in_range 194 223 b0 then is_cont b1 && utf8_valid r1
          else match r1 with
          | [] => false
          | b2 :: r2 =>
              if in_range 224 239 b0 then
                in_range (if b0 =? 224 then 160 else 128) (if b0 =? 237 then 159 else 191) b1
                && is_cont b2 && utf8_valid r2
              else match r2 with
              | [] => false
              | b3 :: r3 =>
                  in_range 240 244 b0
                  && in_range (if b0 =? 240 then 144 else 128) (if b0 =? 244 then 143 else 191) b1
                  && is_cont b2 && is_cont b3 && utf8_valid r3
              end
          end
      end
  end.

Lemma utf8_valid_ascii l : Forall (fun b => 0 <= b < 128) l -> utf8_valid l = true.
Proof.
  induction 1 as [|b l Hb _ IH]; [done|]. simpl. unfold in_range.
  rewrite (proj2 (Z.leb_le 0 b)), (proj2 (Z.leb_le b 127)) by lia. done.
Qed.

(** ** [slice::chunks(n)]: consecutive runs of [n] elements, the last one shorter *)

Fixpoint chunks_fuel {A} (fuel : nat) (n : nat) (l : list A) : list (list A) :=
  match fuel, l with
  | _, [] => []
  | O, _ => []
  | S fuel, _ => take n l :: chunks_fuel fuel n (drop n l)
  end.

Definition chunks {A} (n : nat) (l : list A) : list (list A) := chunks_fuel (length l) n l.

Section Chunks.
Context {A : Type} (n : nat) (Hn : (0 < n)%nat).

Lemma chunks_fuel_enough fuel (l : list A) :
  (length l <= fuel)%nat -> chunks_fuel fuel n l = chunks n l.
Proof using Hn.
  unfold chunks. revert l. induction fuel as [|fuel IH]; intros l Hl.
  - destruct l; simpl in *; [done|lia].
  - destruct l as [|x l]; [done|]. simpl length.
    change (chunks_fuel (S fuel) n (x :: l))
      with (take n (x :: l) :: chunks_fuel fuel n (drop n (x :: l))).
    change (chunks_fuel (S (length l)) n (x :: l))
      with (take n (x :: l) :: chunks_fuel (length l) n (drop n (x :: l))).
    f_equal.
    assert (length (drop n (x :: l)) <= length l)%nat
      by (rewrite length_drop; simpl; lia).
    rewrite IH by (simpl in Hl; lia).
    clear IH Hl. revert H. generalize (drop n (x :: l)). intros k Hk.
    (* the remaining fuel is also enough *)
    remember (length l) as m eqn:E. clear E. revert m Hk.
    induction k as [k IHk] using (induction_ltof1 _ (@length A)). unfold ltof in IHk.
    intros m Hk. destruct k as [|y k]; [by destruct m|].
    destruct m as [|m]; [simpl in Hk; lia|]. simpl length.
    change (take n (y :: k) :: chunks_fuel (length k) n (drop n (y :: k)) =
      take n (y :: k) :: chunks_fuel m n (drop n (y :: k))). f_equal.
    assert (length (drop n (y :: k)) <= length k)%nat
      by (rewrite length_drop; simpl; lia).
    simpl in Hk.
    rewrite <- (IHk (drop n (y :: k))) by (simpl; lia).
    apply (IHk (drop n (y :: k))); simpl; lia.
Qed.

(** The defining equation of [chunks]. *)
Lemma chunks_unfold (l : list A) :
  l <> [] -> chunks n l = take n l :: chunks n (drop n l).
Proof using Hn.
  destruct l as [|x l]; [done|]. intros _.
  rewrite <- (chunks_fuel_enough (length l) (drop n (x :: l)))
    by (rewrite length_drop; simpl; lia).
  done.
Qed.

Lemma chunks_nil : chunks n (@nil A) = [].
Proof. done. Qed.

(** Induction along the chunks of a list. *)
Lemma chunks_ind (P : list A -> Prop) :
  P [] -> (forall l, l <> [] -> P (drop n l) -> P l) -> forall l, P l.
Proof using Hn.
  intros H0 HS l. induction l as [l IH] using (induction_ltof1 _ (@length A)).
  unfold ltof in IH. destruct l as [|x l]; [done|].
  apply HS; [done|]. apply IH. rewrite length_drop. simpl. lia.
Qed.

Lemma concat_chunks (l : list A) : concat (chunks n l) = l.
Proof using Hn.
  induction l as [|l Hl IH] using chunks_ind; [done|].
  rewrite chunks_unfold by done. simpl. rewrite IH. apply take_drop.
Qed.

(** The number of chunks is the length divided by [n], rounded up. *)
Lemma len_chunks (l : list A) : len (chunks n l) = div_ceil (len l) (Z.of_nat n).
Proof using Hn.
  induction l as [|l Hl IH] using chunks_ind.
  - symmetry. apply div_ceil_unique; [lia|]. unfold len. simpl. lia.
  - rewrite chunks_unfold by done. rewrite len_cons, IH.
    assert (0 < len l) by (destruct l; [done|len_lia]).
    rewrite len_drop.
    pose proof (div_ceil_spec (Z.max 0 (len l - Z.of_nat n)) (Z.of_nat n)
      ltac:(lia) ltac:(lia)).
    symmetry. apply div_ceil_unique; [lia|].
    destruct (Z.le_gt_cases (len l) (Z.of_nat n)).
    + rewrite Z.max_l in * by lia.
      replace (div_ceil 0 (Z.of_nat n)) with 0 by (symmetry; apply div_ceil_unique; lia). lia.
    + rewrite Z.max_r in * by lia. nia.
Qed.

(** Every chunk is non-empty and has at most [n] elements. *)
Lemma chunks_size (l : list A) :
  Forall (fun c => 0 < len c <= Z.of_nat n) (chunks n l).
Proof using Hn.
  induction l as [|l Hl IH] using chunks_ind; [constructor|].
  rewrite chunks_unfold by done. constructor; [|done].
  destruct l; [done|]. rewrite len_take, len_cons. len_lia.
Qed.

Lemma chunks_Forall (P : A -> Prop) (l : list A) :
  Forall P l -> Forall (Forall P) (chunks n l).
Proof using Hn.
  induction l as [|l Hl IH] using chunks_ind; [constructor|]. intros HP.
  rewrite chunks_unfold by done. constructor; [by apply Forall_take|].
  apply IH. by apply Forall_drop.
Qed.

(** Chunk [i] covers the bytes from [i*n]. *)
Lemma chunks_lookup (l : list A) i c :
  chunks n l !! i = Some c -> c = take n (drop (i * n) l).
Proof using Hn.
  revert i. induction l as [|l Hl IH] using chunks_ind; [done|].
  intros i. rewrite chunks_unfold by done. destruct i as [|i]; simpl.
  - intros [= <-]. by rewrite drop_0.
  - intros H. rewrite (IH _ H), drop_drop. done.
Qed.
End Chunks.

(** ** The restricted identifier alphabet *)

(** [u8::is_ascii_alphanumeric] *)
Definition is_ascii_alphanumeric (b : Z) : bool :=
  in_range 48 57 b || in_range 65 90 b || in_range 97 122 b.

(** [byte.is_ascii_alphanumeric() || matches!(byte, b'-' | b'_')] *)
Definition is_ident_byte (b : Z) : bool :=
  is_ascii_alphanumeric b || (b =? 45) || (b =? 95).

Lemma is_ident_byte_ascii b : is_ident_byte b = true -> 0 <= b < 128.
Proof. unfold is_ident_byte, is_ascii_alphanumeric, in_range. lia. Qed.

Lemma ident_utf8 l : all is_ident_byte l = true -> utf8_valid l = true.
Proof.
  rewrite all_true. intros H. apply utf8_valid_ascii.
  eapply Forall_impl; [exact H|]. intros b. apply is_ident_byte_ascii.
Qed.

Lemma ident_bytes_ok l : all is_ident_byte l = true -> bytes_ok l.
Proof.
  rewrite all_true. intros H. eapply Forall_impl; [exact H|].
  intros b Hb%is_ident_byte_ascii. unfold is_byte. lia.
Qed.

(** ** Third-party codecs *)

(** [blake3::hash(bytes).as_bytes()]: a function from byte strings to 32-byte
    digests. *)
Class Blake3 := blake3_hash : list Z -> list Z.

Class Blake3Laws `{Blake3} : Prop := {
  blake3_len : forall l, len (blake3_hash l) = 32;
  blake3_bytes : forall l, bytes_ok (blake3_hash l)
}.
#[export] Hint Resolve blake3_bytes : triptorrent.

(** [hex::encode] and [hex::decode]. The error of the crate is not inspected by
    the sources. *)
Class Hex := {
  hex_encode : list Z -> list Z;
  hex_decode : list Z -> option (list Z)
}.

Class HexLaws `{Hex} : Prop := {
  (** encoding then decoding gives the bytes back *)
  hex_decode_encode : forall l, bytes_ok l -> hex_decode (hex_encode l) = Some l;
  (** two lowercase hexadecimal digits per byte *)
  hex_encode_len : forall l, len (hex_encode l) = 2 * len l;
  hex_encode_digits : forall l, bytes_ok l ->
    all (fun c => in_range 48 57 c || in_range 97 102 c) (hex_encode l) = true;
  (** a decoded string has two digits per byte *)
  hex_decode_len : forall s l, hex_decode s = Some l -> len s = 2 * len l;
  hex_decode_bytes : forall s l, hex_decode s = Some l -> bytes_ok l
}.
