(* ===== verification/Text.v ===== *)
(** * Text: operations of the standard library on strings

    A [str] is the list of its UTF-8 bytes.  Decimal numbers with their printing and
    parsing, splitting on a character, on a string and on white space, trimming, and the
    ASCII case operations: what the interoperation, configuration and HTTP code use. *)
From stdpp Require Import base tactics list numbers option.
From Stdlib Require Import ZArith Lia.
From S2P Require Import Prelude Bytes.
Import stdpp.list.

Local Open Scope Z_scope.

(** ** Decimal numbers *)

Definition is_ascii_digit (b : Z) : bool := in_range 48 57 b.

(** The value of a string of digits. *)
Definition digits_value (l : list Z) : Z := foldl (fun a d => 10 * a + (d - 48)) 0 l.

(** Decimal digits without leading zeroes. *)
Fixpoint decimal_fuel (fuel : nat) (n : Z) : list Z :=
  match fuel with
  | O => []
  | S fuel => if n <? 10 then [48 + n] else decimal_fuel fuel (n / 10) ++ [48 + n mod 10]
  end.
Definition decimal (n : Z) : list Z := decimal_fuel (S (Z.to_nat (Z.log2 n))) n.
Definition signed_decimal (n : Z) : list Z := if n <? 0 then 45 :: decimal (- n) else decimal n.

(** Non-empty digits without a leading zero. *)
Definition canonical (l : list Z) : Prop :=
  l <> [] /\ Forall (fun b => is_ascii_digit b = true) l /\ ~ (head l = Some 48 /\ 1 < len l).

Lemma is_digit_range b : is_ascii_digit b = true <-> 48 <= b <= 57.
Proof. unfold is_ascii_digit, in_range. lia. Qed.

Lemma decimal_fuel_enough f n :
  0 <= n -> Z.log2 n < Z.of_nat f -> decimal_fuel f n = decimal n.
Proof.
  unfold decimal. generalize (eq_refl : S (Z.to_nat (Z.log2 n)) = S (Z.to_nat (Z.log2 n))).
  generalize (S (Z.to_nat (Z.log2 n))) at 2 3 as g. intros g Hg Hn Hf.
  assert (Z.log2 n < Z.of_nat g) as Hg' by (pose proof (Z.log2_nonneg n); lia). clear Hg.
  revert g n Hn Hf Hg'. induction f as [|f IH]; intros [|g] n Hn Hf Hg; pose proof (Z.log2_nonneg n); try lia.
  simpl. destruct (Z.ltb_spec n 10); [done|]. f_equal.
  assert (Z.log2 (n / 10) < Z.log2 n).
  { apply Z.log2_lt_pow2; [apply Z.div_str_pos; lia|].
    apply Z.div_lt_upper_bound; [lia|]. pose proof (Z.log2_spec n ltac:(lia)) as [_ Hs].
    rewrite Z.pow_succ_r in Hs by lia. lia. }
  apply IH; [apply Z.div_pos; lia|lia|lia].
Qed.

Lemma decimal_small n : 0 <= n < 10 -> decimal n = [48 + n].
Proof. intros Hn. unfold decimal. simpl. by rewrite (proj2 (Z.ltb_lt n 10)) by lia. Qed.

Lemma decimal_step n : 10 <= n -> decimal n = decimal (n / 10) ++ [48 + n mod 10].
Proof.
  intros Hn. unfold decimal at 1. cbn [decimal_fuel]. rewrite (proj2 (Z.ltb_ge n 10)) by lia. f_equal.
  apply decimal_fuel_enough; [apply Z.div_pos; lia|].
  assert (Z.log2 (n / 10) < Z.log2 n).
  { apply Z.log2_lt_pow2; [apply Z.div_str_pos; lia|].
    apply Z.div_lt_upper_bound; [lia|]. pose proof (Z.log2_spec n ltac:(lia)) as [_ Hs].
    rewrite Z.pow_succ_r in Hs by (apply Z.log2_nonneg). lia. }
  pose proof (Z.log2_nonneg n). lia.
Qed.

Lemma digits_value_snoc l d : digits_value (l ++ [d]) = 10 * digits_value l + (d - 48).
Proof. unfold digits_value. by rewrite foldl_app. Qed.

Lemma digits_value_nonneg l : Forall (fun b => is_ascii_digit b = true) l -> 0 <= digits_value l.
Proof.
  induction l as [|d l IH] using rev_ind; [done|]. rewrite Forall_app, digits_value_snoc.
  intros [Hl Hd]. apply Forall_cons_iff in Hd as [Hd _]. apply is_digit_range in Hd.
  specialize (IH Hl). lia.
Qed.

Lemma head_app_ne {A} (l k : list A) : l <> [] -> head (l ++ k) = head l.
Proof. by destruct l. Qed.

(** A leading digit other than zero makes the value positive. *)
Lemma digits_value_pos l : canonical l -> head l <> Some 48 -> 0 < digits_value l.
Proof.
  induction l as [|d l IH] using rev_ind; intros (Hne & Hd & Hz) Hh; [done|].
  apply Forall_app in Hd as [Hl Hd]. apply Forall_cons_iff in Hd as [Hd _]. apply is_digit_range in Hd.
  rewrite digits_value_snoc. destruct l as [|x l].
  - simpl in *. change (digits_value []) with 0. assert (d <> 48) by congruence. lia.
  - assert (0 < digits_value (x :: l)); [|lia]. apply IH; [|done].
    split_and!; [done|done|]. intros [He _]. by apply Hh.
Qed.

Lemma decimal_value n : 0 <= n -> canonical (decimal n) /\ digits_value (decimal n) = n.
Proof.
  intros Hn. revert Hn. induction (Z.lt_wf 0 n) as [n _ IH]. intros Hn.
  destruct (Z.lt_ge_cases n 10) as [Hlt|Hge].
  - rewrite decimal_small by lia. split.
    + split_and!; [done| |]; [repeat constructor; apply is_digit_range; lia|].
      intros [_ Hl]. change (len [48 + n]) with 1 in Hl. lia.
    + unfold digits_value. simpl. lia.
  - rewrite decimal_step by lia.
    destruct (IH (n / 10)) as [(Hne & Hd & Hz) Hv];
      [split; [apply Z.div_pos; lia|apply Z.div_lt; lia]|apply Z.div_pos; lia|].
    pose proof (Z.mod_pos_bound n 10 ltac:(lia)). split.
    + split_and!.
      * by intros [? _]%app_nil.
      * apply Forall_app. split; [done|]. repeat constructor. apply is_digit_range. lia.
      * rewrite head_app_ne by done. intros [Hh _]. destruct (decimal (n / 10)) as [|x l] eqn:E; [done|].
        simpl in Hh. injection Hh as ->. destruct l as [|y l].
        { unfold digits_value in Hv. simpl in Hv. assert (1 <= n / 10) by (apply Z.div_le_lower_bound; lia). lia. }
        apply Hz. split; [done|]. len_lia.
    + rewrite digits_value_snoc, Hv. pose proof (Z.div_mod n 10 ltac:(lia)). lia.
Qed.

(** Canonical digits are the decimal form of their value. *)
Lemma canonical_decimal l : canonical l -> decimal (digits_value l) = l.
Proof.
  induction l as [|d l IH] using rev_ind; intros (Hne & Hd & Hz); [done|].
  apply Forall_app in Hd as [Hl Hd]. apply Forall_cons_iff in Hd as [Hd _]. apply is_digit_range in Hd.
  rewrite digits_value_snoc. destruct l as [|x l].
  - change (digits_value []) with 0. rewrite decimal_small by lia. simpl. f_equal. lia.
  - assert (head (x :: l) <> Some 48) as Hh.
    { intros He. apply Hz. split; [done|]. rewrite len_app, len_cons. change (len [d]) with 1. len_lia. }
    assert (canonical (x :: l)) as Hc by (split_and!; [done|done|by intros [? _]]).
    pose proof (digits_value_pos _ Hc Hh). rewrite decimal_step by lia.
    assert ((10 * digits_value (x :: l) + (d - 48)) / 10 = digits_value (x :: l)) as ->
      by (symmetry; apply (Z.div_unique _ 10 _ (d - 48)); lia).
    assert ((10 * digits_value (x :: l) + (d - 48)) mod 10 = d - 48) as ->
      by (symmetry; apply (Z.mod_unique _ 10 (digits_value (x :: l))); lia).
    rewrite IH by done. do 2 f_equal. lia.
Qed.

(** ** Splitting and case *)

(** [str::strip_prefix] *)
Fixpoint strip_prefix (prefix l : list Z) : option (list Z) :=
  match prefix, l with
  | [], _ => Some l
  | p :: prefix, b :: l => if p =? b then strip_prefix prefix l else None
  | _ :: _, [] => None
  end.

(** [str::split] on an ASCII character *)
Fixpoint split (separator : Z) (l : list Z) : list (list Z) :=
  match l with
  | [] => [[]]
  | b :: l =>
      if b =? separator then [] :: split separator l
      else match split separator l with
           | part :: parts => (b :: part) :: parts
           | [] => [[b]]
           end
  end.

(** [str::split_once] on an ASCII character *)
Fixpoint split_once (separator : Z) (l : list Z) : option (list Z * list Z) :=
  match l with
  | [] => None
  | b :: l =>
      if b =? separator then Some ([], l)
      else match split_once separator l with Some (x, y) => Some (b :: x, y) | None => None end
  end.

Definition to_ascii_lowercase (l : list Z) : list Z := map (fun b => if in_range 65 90 b then b + 32 else b) l.
Definition to_ascii_uppercase (l : list Z) : list Z := map (fun b => if in_range 97 122 b then b - 32 else b) l.

(** [str::split("\r\n")] *)
Fixpoint split_crlf (l : list Z) : list (list Z) :=
  match l with
  | [] => [[]]
  | b :: l' =>
      match b, l' with
      | 13, 10 :: rest => [] :: split_crlf rest
      | _, _ => match split_crlf l' with
                | part :: parts => (b :: part) :: parts
                | [] => [[b]]
                end
      end
  end.

Definition eq_ignore_ascii_case (l k : list Z) : bool :=
  bool_decide (to_ascii_lowercase l = to_ascii_lowercase k).

(** [str::starts_with] and [str::ends_with] *)
Definition starts_with (prefix l : list Z) : bool := bool_decide (take (length prefix) l = prefix).
Definition ends_with (suffix l : list Z) : bool :=
  bool_decide (drop (length l - length suffix) l = suffix).

(** [str::trim_start_matches] and [str::trim_end_matches] on a non-empty string, at most
    [fuel] times; the length of the text is enough. *)
Fixpoint trim_prefixes (fuel : nat) (prefix l : list Z) : list Z :=
  match fuel with
  | O => l
  | S fuel => match strip_prefix prefix l with Some l => trim_prefixes fuel prefix l | None => l end
  end.
Definition trim_start_matches (prefix l : list Z) : list Z := trim_prefixes (length l) prefix l.
Definition trim_end_matches (suffix l : list Z) : list Z :=
  reverse (trim_prefixes (length l) (reverse suffix) (reverse l)).

(** [haystack.windows(needle.len()).position(..)], counting from [index], for a non-empty
    needle *)
Fixpoint find_subslice_from (index : Z) (haystack needle : list Z) : option Z :=
  if bool_decide (take (length needle) haystack = needle) then Some index
  else match haystack with
       | [] => None
       | _ :: haystack => find_subslice_from (index + 1) haystack needle
       end.

(** ** Numbers: [str::parse] *)

(** The digits after an optional plus sign, which alone is not a number. *)
Definition unsigned_digits (l : list Z) : list Z :=
  match l with 43 :: b :: l => b :: l | _ => l end.

(** [text.parse::<uN>()] *)
Definition parse_unsigned (max : Z) (l : list Z) : option Z :=
  let digits := unsigned_digits l in
  if bool_decide (digits = []) || negb (all is_ascii_digit digits) then None
  else try_from max (digits_value digits).

(** [text.parse::<i64>()] *)
Definition parse_signed (l : list Z) : option Z :=
  match l with
  | 45 :: b :: l =>
      if all is_ascii_digit (b :: l) && (digits_value (b :: l) <=? I64_MAX + 1)
      then Some (- digits_value (b :: l)) else None
  | _ => parse_unsigned I64_MAX l
  end.

(** [text.parse::<bool>()] *)
Definition parse_bool (l : list Z) : option bool :=
  if bool_decide (l = str "true") then Some true
  else if bool_decide (l = str "false") then Some false else None.

(** ** Characters and white space *)

(** The characters of valid UTF-8, each as its bytes. *)
Fixpoint chars (l : list Z) : list (list Z) :=
  match l with
  | [] => []
  | b0 :: r0 =>
      if b0 <? 128 then [b0] :: chars r0
      else match r0 with
      | [] => [[b0]]
      | b1 :: r1 =>
          if b0 <? 224 then [b0; b1] :: chars r1
          else match r1 with
          | [] => [[b0; b1]]
          | b2 :: r2 =>
              if b0 <? 240 then [b0; b1; b2] :: chars r2
              else match r2 with
              | [] => [[b0; b1; b2]]
              | b3 :: r3 => [b0; b1; b2; b3] :: chars r3
              end
          end
      end
  end.

(** [char::is_whitespace]: the Unicode property White_Space *)
Definition is_whitespace (c : list Z) : bool :=
  match c with
  | [b] => in_range 9 13 b || (b =? 32)
  | [b0; b] => (b0 =? 194) && ((b =? 133) || (b =? 160))
  | [b0; b1; b] =>
      ((b0 =? 225) && (b1 =? 154) && (b =? 128))
      || ((b0 =? 226) && (b1 =? 128) && (in_range 128 138 b || (b =? 168) || (b =? 169) || (b =? 175)))
      || ((b0 =? 226) && (b1 =? 129) && (b =? 159))
      || ((b0 =? 227) && (b1 =? 128) && (b =? 128))
  | _ => false
  end.

Fixpoint split_chars (cs : list (list Z)) : list (list Z) :=
  match cs with
  | [] => [[]]
  | c :: cs =>
      if is_whitespace c then [] :: split_chars cs
      else match split_chars cs with
           | part :: parts => (c ++ part) :: parts
           | [] => [c]
           end
  end.

Definition nonempty (l : list Z) : bool := negb (bool_decide (l = [])).

(** [str::split_whitespace] *)
Definition split_whitespace (l : list Z) : list (list Z) := List.filter nonempty (split_chars (chars l)).

Fixpoint drop_whitespace (cs : list (list Z)) : list (list Z) :=
  match cs with
  | c :: cs' => if is_whitespace c then drop_whitespace cs' else cs
  | [] => []
  end.

(** [str::trim] *)
Definition trim (l : list Z) : list Z :=
  concat (reverse (drop_whitespace (reverse (drop_whitespace (chars l))))).

(** ** Visible ASCII *)

(** Printable ASCII without the space: no white space, no line break, one byte per
    character. *)
Definition visible (b : Z) : bool := in_range 33 126 b.

Lemma chars_ascii l k : Forall (fun b => b < 128) l -> chars (l ++ k) = map (fun b => [b]) l ++ chars k.
Proof.
  induction 1 as [|b l Hb _ IH]; [done|]. cbn [app map chars]. rewrite (proj2 (Z.ltb_lt b 128)) by done.
  by rewrite IH.
Qed.

Lemma chars_ascii_all l : Forall (fun b => b < 128) l -> chars l = map (fun b => [b]) l.
Proof. intros H. pose proof (chars_ascii l [] H) as Hc. rewrite !app_nil_r in Hc. done. Qed.

Lemma visible_range b : visible b = true <-> 33 <= b <= 126.
Proof. unfold visible, in_range. lia. Qed.

Lemma visible_ascii l : all visible l = true -> Forall (fun b => b < 128) l.
Proof. rewrite all_true. intros H. eapply Forall_impl; [exact H|]. intros b ?%visible_range. lia. Qed.

Lemma visible_not_white b : visible b = true -> is_whitespace [b] = false.
Proof. intros ?%visible_range. simpl. unfold in_range. lia. Qed.

(** A visible word before the next character. *)
Lemma split_chars_word w cs :
  all visible w = true ->
  split_chars (map (fun b => [b]) w ++ cs) =
  match split_chars cs with part :: parts => (w ++ part) :: parts | [] => [w] end.
Proof.
  induction w as [|b w IH]; cbn [map app all forallb split_chars].
  - intros _. destruct (split_chars cs) eqn:E; [|done]. destruct cs as [|c cs]; [done|].
    simpl in E. destruct (is_whitespace c); [done|]. by destruct (split_chars cs).
  - intros [Hb Hw]%andb_true_iff. rewrite visible_not_white, IH by done. by destruct (split_chars cs).
Qed.

Lemma nonempty_true l : nonempty l = true <-> l <> [].
Proof. unfold nonempty. rewrite negb_true_iff, bool_decide_eq_false. done. Qed.

(** White space separates visible words. *)
Lemma split_whitespace_cons w r :
  all visible w = true -> w <> [] -> split_whitespace (w ++ 32 :: r) = w :: split_whitespace r.
Proof.
  intros Hw Hne. unfold split_whitespace. rewrite chars_ascii by (by apply visible_ascii).
  rewrite split_chars_word by done. cbn [chars Z.ltb Z.compare Pos.compare Pos.compare_cont].
  cbn [split_chars is_whitespace in_range andb orb Z.leb Z.eqb Z.compare Pos.compare Pos.compare_cont Pos.eqb].
  rewrite app_nil_r. cbn [List.filter]. by rewrite (proj2 (nonempty_true w)) by done.
Qed.

Lemma split_whitespace_word w : all visible w = true -> w <> [] -> split_whitespace w = [w].
Proof.
  intros Hw Hne. unfold split_whitespace. rewrite chars_ascii_all by (by apply visible_ascii).
  pose proof (split_chars_word w [] Hw) as Hs. rewrite app_nil_r in Hs. rewrite Hs. cbn [split_chars].
  rewrite app_nil_r. cbn [List.filter]. by rewrite (proj2 (nonempty_true w)) by done.
Qed.

(** Text that starts and ends with a visible character, between spaces, is what trimming
    leaves of it. *)
Lemma trim_padded b w :
  Forall (fun c => c < 128) w -> visible b = true -> (forall c, last (b :: w) = Some c -> visible c = true) ->
  trim (32 :: b :: w) = b :: w.
Proof.
  intros Hw Hb Hl. unfold trim. assert (Forall (fun c => c < 128) (b :: w)) as Hbw.
  { constructor; [|done]. apply visible_range in Hb. lia. }
  change (32 :: b :: w) with ([32] ++ (b :: w)).
  rewrite chars_ascii by (repeat constructor; lia). rewrite chars_ascii_all by done.
  cbn [map app drop_whitespace]. change (is_whitespace [32]) with true. cbv iota.
  rewrite visible_not_white by done.
  change ([b] :: map (fun b => [b]) w) with (map (fun b => [b]) (b :: w)).
  destruct (b :: w) as [|c l _] using rev_ind; [done|]. rewrite map_app, reverse_app. cbn [map reverse rev_append app].
  change (reverse [[c]]) with [[c]]. cbn [app drop_whitespace].
  rewrite visible_not_white by (apply Hl; by rewrite last_snoc).
  rewrite <- reverse_snoc, reverse_involutive, concat_app. cbn [concat]. rewrite app_nil_r. f_equal.
  clear. induction l as [|x l IH]; [done|]. cbn [map concat app]. by rewrite IH.
Qed.

(** Lines without a carriage return. *)
Lemma split_crlf_line l r : Forall (fun b => b <> 13) l -> split_crlf (l ++ 13 :: 10 :: r) = l :: split_crlf r.
Proof.
  induction 1 as [|b l Hb _ IH]; [done|]. cbn [app split_crlf]. rewrite IH.
  destruct b as [|p|]; [done| |done]. do 4 (try destruct p as [p|p|]; try done).
Qed.

Lemma split_once_first c l r : Forall (fun b => b <> c) l -> split_once c (l ++ c :: r) = Some (l, r).
Proof.
  induction 1 as [|b l Hb _ IH]; cbn [app split_once]; [by rewrite Z.eqb_refl|].
  rewrite (proj2 (Z.eqb_neq b c)) by done. by rewrite IH.
Qed.

(** ** Numbers *)

Lemma all_digits_Forall l : all is_ascii_digit l = true <-> Forall (fun b => is_ascii_digit b = true) l.
Proof. apply all_true. Qed.

Lemma parse_unsigned_decimal max n : 0 <= n <= max -> parse_unsigned max (decimal n) = Some n.
Proof.
  intros Hn. destruct (decimal_value n ltac:(lia)) as [(Hne & Hd & _) Hv]. unfold parse_unsigned.
  assert (unsigned_digits (decimal n) = decimal n) as ->.
  { destruct (decimal n) as [|x l]; [done|]. apply Forall_cons_iff in Hd as [Hx _].
    apply is_digit_range in Hx. unfold unsigned_digits. destruct x as [|p|]; [done| |done].
    do 6 (try destruct p as [p|p|]; try done). lia. }
  rewrite bool_decide_eq_false_2 by done. rewrite (proj2 (all_digits_Forall _)) by done. cbn [negb orb].
  rewrite Hv. by apply try_from_Some.
Qed.

(** ** Searching *)

Section Find.
Context (needle : list Z).

Lemma find_subslice_Some i h j :
  find_subslice_from i h needle = Some j -> exists a b, h = a ++ needle ++ b /\ j = i + len a.
Proof.
  revert i. induction h as [|x h IH]; intros i; cbn [find_subslice_from].
  all: match goal with |- context [bool_decide ?P] => destruct (bool_decide_reflect P) as [Ht|] end;
    [intros [= <-]|try done].
  - exists [], []. rewrite <- Ht. rewrite take_nil. split; [done|len_lia].
  - exists [], (drop (length needle) (x :: h)). split; [|len_lia]. cbn [app]. rewrite <- Ht at 1.
    by rewrite take_drop.
  - intros (a & b & -> & ->)%IH. exists (x :: a), b. split; [done|len_lia].
Qed.

(** Searching a longer text finds the same place, and a place inside the shorter text is
    found there. *)
Lemma find_subslice_app i h k j :
  needle <> [] ->
  find_subslice_from i h needle = Some j <->
  find_subslice_from i (h ++ k) needle = Some j /\ j + len needle <= i + len h.
Proof.
  intros Hne. revert i. induction h as [|x h IH]; intros i.
  - cbn [app]. split.
    + intros (a & b & Hab & _)%find_subslice_Some. destruct a, needle; done.
    + intros [(a & b & _ & ->)%find_subslice_Some Hle]. destruct needle; [done|]. len_lia.
  - cbn [app find_subslice_from].
    destruct (bool_decide_reflect (take (length needle) (x :: h) = needle)) as [Ht|Ht].
    + assert (length needle <= length (x :: h))%nat as Hl.
      { rewrite <- Ht, length_take. lia. }
      rewrite bool_decide_eq_true_2.
      * split; [|tauto]. intros [= <-]. split; [done|]. unfold len. lia.
      * change (x :: h ++ k) with ((x :: h) ++ k). by rewrite take_app_le.
    + rewrite IH. destruct (bool_decide_reflect (take (length needle) (x :: h ++ k) = needle)) as [Hk|Hk].
      * split.
        -- intros [(a & b & _ & ->)%find_subslice_Some Hle]. exfalso. apply Ht.
           change (x :: h ++ k) with ((x :: h) ++ k) in Hk. rewrite take_app_le in Hk; [done|].
           unfold len in Hle. simpl. lia.
        -- intros [[= <-] Hle]. exfalso. apply Ht. change (x :: h ++ k) with ((x :: h) ++ k) in Hk.
           rewrite take_app_le in Hk; [done|]. unfold len in Hle. lia.
      * rewrite len_cons. split; intros [? ?]; (split; [done|lia]).
Qed.
End Find.

(** ** Splitting at a separator *)

Lemma strip_prefix_app p l : strip_prefix p (p ++ l) = Some l.
Proof. induction p as [|b p IH]; [done|]. cbn [app strip_prefix]. by rewrite Z.eqb_refl. Qed.

Lemma split_none c l : Forall (fun b => b <> c) l -> split c l = [l].
Proof.
  induction 1 as [|b l Hb _ IH]; [done|]. cbn [split]. rewrite (proj2 (Z.eqb_neq b c) Hb). by rewrite IH.
Qed.

Lemma split_first c l r : Forall (fun b => b <> c) l -> split c (l ++ c :: r) = l :: split c r.
Proof.
  induction 1 as [|b l Hb _ IH]; cbn [app split]; [by rewrite Z.eqb_refl|].
  rewrite (proj2 (Z.eqb_neq b c) Hb). by rewrite IH.
Qed.
