(* ===== verification/BTree.v ===== *)
(** * BTree: [std::collections::BTreeMap] with byte-string keys

    The registry keeps its peers and relays in [BTreeMap]s keyed by a 32-byte
    identifier and by a [String]; both orders are the lexicographic order of the
    bytes, and the iteration order is observable (the first matching provider and
    the first relay are chosen).  A map is the list of its entries in key order;
    [bt_ok] is the representation invariant. *)
From stdpp Require Import base tactics list numbers option.
From Stdlib Require Import ZArith Lia Sorting.Sorted.
From S2P Require Import Prelude.

Local Open Scope Z_scope.

(** ** The key order *)

Fixpoint lex_ltb (a b : list Z) : bool :=
  match a, b with
  | _, [] => false
  | [], _ :: _ => true
  | x :: a, y :: b => (x <? y) || ((x =? y) && lex_ltb a b)
  end.

Lemma lex_irrefl a : lex_ltb a a = false.
Proof. induction a as [|x a IH]; [done|]. simpl. rewrite IH, Z.ltb_irrefl. lia. Qed.

Lemma lex_trans a b c : lex_ltb a b = true -> lex_ltb b c = true -> lex_ltb a c = true.
Proof.
  revert b c. induction a as [|x a IH]; intros [|y b] [|z c]; simpl; try done.
  rewrite !orb_true_iff, !andb_true_iff, !Z.ltb_lt, !Z.eqb_eq.
  intros [?|[-> ?]] [?|[-> ?]]; [left; lia|left; lia|left; lia|right; eauto].
Qed.

Lemma lex_total a b : lex_ltb a b = false -> a <> b -> lex_ltb b a = true.
Proof.
  revert b. induction a as [|x a IH]; intros [|y b]; simpl; try done.
  rewrite orb_false_iff, andb_false_iff, orb_true_iff, andb_true_iff, Z.ltb_ge, Z.ltb_lt, Z.eqb_neq, Z.eqb_eq.
  intros [? Hor] Hne. destruct (decide (x = y)) as [->|]; [|left; lia].
  right. split; [done|]. apply IH; [destruct Hor; done|congruence].
Qed.

(** ** Maps *)

Section BTreeMap.
Context {V : Type}.
Implicit Types (m : list (list Z * V)) (k : list Z) (v : V).

Definition key_lt (a b : list Z * V) : Prop := lex_ltb a.1 b.1 = true.

(** The representation invariant: keys strictly increasing. *)
Definition bt_ok m : Prop := StronglySorted key_lt m.

(** [BTreeMap::get] *)
Fixpoint bt_get k m : option V :=
  match m with
  | [] => None
  | (k', v) :: m => if decide (k = k') then Some v else bt_get k m
  end.

(** [BTreeMap::contains_key] *)
Definition bt_contains k m : bool :=
  match bt_get k m with Some _ => true | None => false end.

(** [BTreeMap::insert] *)
Fixpoint bt_insert k v m : list (list Z * V) :=
  match m with
  | [] => [(k, v)]
  | (k', v') :: m' =>
      if lex_ltb k k' then (k, v) :: m
      else if decide (k = k') then (k, v) :: m'
      else (k', v') :: bt_insert k v m'
  end.

(** [BTreeMap::remove] *)
Definition bt_remove k m : list (list Z * V) :=
  List.filter (fun e => negb (bool_decide (e.1 = k))) m.

(** [BTreeMap::retain] *)
Definition bt_retain (p : list Z -> V -> bool) m : list (list Z * V) :=
  List.filter (fun e => p e.1 e.2) m.

(** [BTreeMap::values] *)
Definition bt_values m : list V := map snd m.

Lemma bt_ok_nil : bt_ok [].
Proof. constructor. Qed.

Lemma bt_ok_filter p m : bt_ok m -> bt_ok (List.filter p m).
Proof.
  induction 1 as [|e m Hm IH He]; [constructor|]. simpl. destruct (p e); [|done].
  constructor; [done|]. rewrite List.Forall_forall in *. intros x Hx%filter_In.
  apply He, Hx.
Qed.

Lemma bt_ok_retain p m : bt_ok m -> bt_ok (bt_retain p m).
Proof. apply bt_ok_filter. Qed.

Lemma bt_ok_remove k m : bt_ok m -> bt_ok (bt_remove k m).
Proof. apply bt_ok_filter. Qed.

Lemma bt_insert_Forall (P : list Z * V -> Prop) k v m :
  P (k, v) -> Forall P m -> Forall P (bt_insert k v m).
Proof.
  intros Hkv. induction 1 as [|[k' v'] m He Hm IH]; simpl; [auto|].
  destruct (lex_ltb k k'); [auto|]. destruct (decide (k = k')); auto.
Qed.

Lemma bt_ok_insert k v m : bt_ok m -> bt_ok (bt_insert k v m).
Proof.
  induction 1 as [|[k' v'] m Hm IH He]; simpl; [repeat constructor|].
  destruct (lex_ltb k k') eqn:Hlt.
  - constructor; [by constructor|]. constructor; [done|].
    eapply List.Forall_impl; [|exact He]. intros e. unfold key_lt. simpl.
    apply lex_trans. done.
  - destruct (decide (k = k')) as [->|Hne]; [by constructor|].
    constructor; [done|]. apply bt_insert_Forall; [|done].
    unfold key_lt. simpl. apply lex_total; congruence.
Qed.

Lemma bt_get_insert_eq k v m : bt_get k (bt_insert k v m) = Some v.
Proof.
  induction m as [|[k' v'] m IH]; simpl; [by rewrite decide_True|].
  destruct (lex_ltb k k'); simpl; [by rewrite decide_True|].
  destruct (decide (k = k')); simpl; [by rewrite decide_True|].
  by rewrite decide_False.
Qed.

Lemma bt_get_insert_ne k k' v m : k' <> k -> bt_get k' (bt_insert k v m) = bt_get k' m.
Proof.
  intros Hne. induction m as [|[k0 v0] m IH]; simpl; [by rewrite decide_False|].
  destruct (lex_ltb k k0); simpl; [by rewrite decide_False|].
  destruct (decide (k = k0)) as [->|]; simpl; [by rewrite !decide_False by done|].
  by rewrite IH.
Qed.

Lemma bt_get_elem k v m : bt_get k m = Some v -> (k, v) ∈ m.
Proof.
  induction m as [|[k' v'] m IH]; simpl; [done|].
  destruct (decide (k = k')) as [->|]; intros H; simplify_eq; [left|right; auto].
Qed.

Lemma bt_elem_get k v m : bt_ok m -> (k, v) ∈ m -> bt_get k m = Some v.
Proof.
  induction 1 as [|[k' v'] m Hm IH He]; [by intros ?%elem_of_nil|].
  rewrite elem_of_cons. intros [[= -> ->]|Hin]; simpl; [by rewrite decide_True|].
  rewrite List.Forall_forall in He. specialize (He (k, v)).
  rewrite <- list_elem_of_In in He. specialize (He Hin). unfold key_lt in He. simpl in He.
  rewrite decide_False; [auto|]. intros ->. by rewrite lex_irrefl in He.
Qed.

Lemma bt_get_filter_Some p k v m :
  bt_ok m -> bt_get k (List.filter p m) = Some v <-> bt_get k m = Some v /\ p (k, v) = true.
Proof.
  intros Hm. split.
  - intros H%bt_get_elem. rewrite list_elem_of_In, filter_In, <- list_elem_of_In in H.
    destruct H as [H Hp]. split; [by apply bt_elem_get|done].
  - intros [H%bt_get_elem Hp]. apply bt_elem_get; [by apply bt_ok_filter|].
    by rewrite list_elem_of_In, filter_In, <- list_elem_of_In.
Qed.

Lemma bt_get_retain_Some p k v m :
  bt_ok m -> bt_get k (bt_retain p m) = Some v <-> bt_get k m = Some v /\ p k v = true.
Proof. intros Hm. unfold bt_retain. rewrite bt_get_filter_Some by done. done. Qed.

Lemma bt_get_remove_eq k m : bt_get k (bt_remove k m) = None.
Proof.
  unfold bt_remove. induction m as [|[k' v'] m IH]; simpl; [done|].
  destruct (bool_decide_reflect (k' = k)) as [->|Hne]; simpl; [done|].
  rewrite decide_False by congruence. done.
Qed.

Lemma bt_get_remove_ne k k' m : k' <> k -> bt_get k' (bt_remove k m) = bt_get k' m.
Proof.
  intros Hne. unfold bt_remove. induction m as [|[k0 v0] m IH]; simpl; [done|].
  destruct (bool_decide_reflect (k0 = k)) as [->|]; simpl.
  - by rewrite decide_False by done.
  - by rewrite IH.
Qed.

Lemma bt_contains_true k m : bt_contains k m = true <-> is_Some (bt_get k m).
Proof. unfold bt_contains. destruct (bt_get k m); split; naive_solver. Qed.

Lemma bt_contains_false k m : bt_contains k m = false <-> bt_get k m = None.
Proof. unfold bt_contains. destruct (bt_get k m); split; naive_solver. Qed.

(** [insert] replaces an existing entry and otherwise adds one. *)
Lemma len_bt_insert k v m :
  bt_ok m -> len (bt_insert k v m) = len m + (if bt_contains k m then 0 else 1).
Proof.
  unfold bt_contains. induction 1 as [|[k' v'] m Hm IH He]; simpl; [done|].
  destruct (lex_ltb k k') eqn:Hlt.
  - destruct (decide (k = k')) as [->|]; [by rewrite lex_irrefl in Hlt|].
    destruct (bt_get k m) eqn:Hget; [|len_lia].
    apply bt_get_elem in Hget. rewrite List.Forall_forall in He.
    rewrite list_elem_of_In in Hget. specialize (He _ Hget). unfold key_lt in He. simpl in He.
    pose proof (lex_trans _ _ _ Hlt He) as Hc. by rewrite lex_irrefl in Hc.
  - destruct (decide (k = k')); [len_lia|]. rewrite !len_cons, IH. lia.
Qed.

Lemma len_filter_le {A} (p : A -> bool) (l : list A) : len (List.filter p l) <= len l.
Proof. apply count_le_len. Qed.

Lemma bt_NoDup_keys m : bt_ok m -> NoDup (map fst m).
Proof.
  induction 1 as [|[k v] m Hm IH He]; simpl; [constructor|].
  constructor; [|done]. rewrite list_elem_of_In, in_map_iff.
  intros ([k' v'] & Heq & Hin). simpl in Heq. subst k'.
  rewrite List.Forall_forall in He. specialize (He _ Hin).
  unfold key_lt in He. simpl in He. by rewrite lex_irrefl in He.
Qed.
End BTreeMap.

#[export] Hint Resolve bt_ok_nil bt_ok_insert bt_ok_retain bt_ok_remove : triptorrent.
