(* ===== verification/Instances.v ===== *)
(** * Instances: concrete models of the third-party codecs

    The laws stated for [blake3] and [hex] are satisfiable: a 32-byte checksum
    and the hexadecimal codec written out.  The witnesses of the development
    evaluate on these instances; no theorem is proved about them alone. *)
From stdpp Require Import base tactics list numbers option.
From Stdlib Require Import ZArith Lia.
From S2P Require Import Prelude Bytes.
Import stdpp.list.

Local Open Scope Z_scope.

Module Toy.

(** A 32-byte digest: two checksums padded with zeroes. *)
Definition checksum (l : list Z) : list Z :=
  replicate 29 0
  ++ [len l mod 256;
      foldl (fun a b => (a + b) mod 256) 0 l mod 256;
      foldl (fun a b => (a * 31 + b + 1) mod 251) 7 l mod 256].

#[export] Instance toy_blake3 : Blake3 := checksum.

#[export] Instance toy_blake3_laws : Blake3Laws.
Proof.
  split; intros l; unfold blake3_hash, toy_blake3, checksum.
  - reflexivity.
  - apply bytes_ok_app. split; [apply bytes_ok_replicate; unfold is_byte; lia|].
    repeat (apply bytes_ok_cons; split; [apply Z.mod_pos_bound; lia|]). constructor.
Qed.

Definition hex_char (n : Z) : Z := if n <? 10 then 48 + n else 87 + n.
Definition hex_val (c : Z) : option Z :=
  if in_range 48 57 c then Some (c - 48)
  else if in_range 97 102 c then Some (c - 87)
  else if in_range 65 70 c then Some (c - 55)
  else None.

Fixpoint encode (l : list Z) : list Z :=
  match l with
  | [] => []
  | b :: l => hex_char (b / 16) :: hex_char (b mod 16) :: encode l
  end.

Fixpoint decode (s : list Z) : option (list Z) :=
  match s with
  | [] => Some []
  | h :: l :: s =>
      match hex_val h, hex_val l, decode s with
      | Some h, Some l, Some r => Some (16 * h + l :: r)
      | _, _, _ => None
      end
  | _ => None
  end.

#[export] Instance toy_hex : Hex := {| hex_encode := encode; hex_decode := decode |}.

Lemma hex_val_char n : 0 <= n < 16 -> hex_val (hex_char n) = Some n.
Proof.
  intros Hn. unfold hex_char, hex_val, in_range.
  destruct (Z.ltb_spec n 10).
  - rewrite (proj2 (Z.leb_le 48 _)), (proj2 (Z.leb_le _ 57)) by lia. simpl. f_equal; lia.
  - destruct (Z.leb_spec 48 (87 + n)), (Z.leb_spec (87 + n) 57); simpl; try lia;
    rewrite (proj2 (Z.leb_le 97 _)), (proj2 (Z.leb_le _ 102)) by lia; simpl; f_equal; lia.
Qed.

Lemma hex_val_range c n : hex_val c = Some n -> 0 <= n < 16.
Proof.
  unfold hex_val, in_range.
  destruct (Z.leb_spec 48 c), (Z.leb_spec c 57), (Z.leb_spec 97 c), (Z.leb_spec c 102),
    (Z.leb_spec 65 c), (Z.leb_spec c 70); simpl; intros [= <-]; lia.
Qed.

Lemma decode_props : forall s l, decode s = Some l -> len s = 2 * len l /\ bytes_ok l.
Proof.
  fix IH 1. intros [|h [|c s]] l; simpl; intros Hd; simplify_eq.
  - split; [done|constructor].
  - destruct (hex_val h) eqn:Eh, (hex_val c) eqn:Ec, (decode s) as [r|] eqn:Er; simplify_eq.
    destruct (IH s r Er) as [Hl Hb]. apply hex_val_range in Eh, Ec. split; [len_lia|].
    apply bytes_ok_cons. unfold is_byte. split; [lia|done].
Qed.

#[export] Instance toy_hex_laws : HexLaws.
Proof.
  split; simpl.
  - induction 1 as [|b l Hb _ IH]; simpl; [done|]. unfold is_byte in Hb.
    pose proof (Z.mod_pos_bound b 16 ltac:(lia)).
    assert (0 <= b / 16 < 16) by (split; [apply Z.div_pos|apply Z.div_lt_upper_bound]; lia).
    rewrite (hex_val_char (b / 16)), (hex_val_char (b mod 16)), IH by lia.
    do 2 f_equal. symmetry. apply Z.div_mod. lia.
  - induction l; simpl; [done|]. len_lia.
  - induction 1 as [|b l Hb _ IH]; simpl; [done|]. unfold is_byte in Hb.
    pose proof (Z.mod_pos_bound b 16 ltac:(lia)).
    assert (0 <= b / 16 < 16) by (split; [apply Z.div_pos|apply Z.div_lt_upper_bound]; lia).
    assert (forall n, 0 <= n < 16 -> in_range 48 57 (hex_char n) || in_range 97 102 (hex_char n) = true) as Hc.
    { intros n Hn. unfold hex_char, in_range. destruct (Z.ltb_spec n 10); lia. }
    rewrite (Hc (b / 16)), (Hc (b mod 16)) by lia. exact IH.
  - intros. by apply decode_props.
  - intros s l Hd. apply (proj2 (decode_props _ _ Hd)).
Qed.

End Toy.
