(* ===== verification/NetAddr.v ===== *)
(** * NetAddr: [str::parse::<SocketAddr>] and its [Display]

    The standard library's parser of numeric socket addresses, which the wire
    codec, the registry, the transfer code and the node configuration use to accept
    or reject addresses, and their printed form, which the API client sends.  A parser step takes the remaining input and returns the value
    read and the input left; [None] leaves the input where it was
    ([read_atomically]). *)
From stdpp Require Import base tactics list numbers option.
From Stdlib Require Import ZArith Lia.
Import stdpp.list.
From S2P Require Import Prelude Bytes Text.

Local Open Scope Z_scope.

Inductive IpAddr :=
| V4 (octets : list Z)
| V6 (groups : list Z).

Record SocketAddr := mkSocketAddr {
  sa_ip : IpAddr;
  sa_scope : Z;
  sa_port : Z
}.

#[export] Instance IpAddr_eq_dec : EqDecision IpAddr.
Proof. solve_decision. Defined.
#[export] Instance SocketAddr_eq_dec : EqDecision SocketAddr.
Proof. solve_decision. Defined.

(** [char::to_digit(radix)] *)
Definition to_digit (radix c : Z) : option Z :=
  let d := if in_range 48 57 c then c - 48
           else if in_range 97 122 c then c - 87
           else if in_range 65 90 c then c - 55
           else 36 in
  if d <? radix then Some d else None.

(** Digits while they last; [None] when there are more than [max]. *)
Fixpoint read_digits_max (radix max acc cnt : Z) (l : list Z) : option (Z * Z * list Z) :=
  match l with
  | c :: l' =>
      match to_digit radix c with
      | Some d => if cnt + 1 >? max then None
                  else read_digits_max radix max (acc * radix + d) (cnt + 1) l'
      | None => Some (acc, cnt, l)
      end
  | [] => Some (acc, cnt, [])
  end.

(** Digits while they last; [None] when the value overflows [tmax]. *)
Fixpoint read_digits_checked (radix tmax acc cnt : Z) (l : list Z) : option (Z * Z * list Z) :=
  match l with
  | c :: l' =>
      match to_digit radix c with
      | Some d =>
          match checked_mul tmax acc radix with
          | None => None
          | Some acc => match checked_add tmax acc d with
                        | None => None
                        | Some acc => read_digits_checked radix tmax acc (cnt + 1) l'
                        end
          end
      | None => Some (acc, cnt, l)
      end
  | [] => Some (acc, cnt, [])
  end.

(** [Parser::read_number] *)
Definition read_number (radix tmax : Z) (max_digits : option Z) (allow_zero_prefix : bool)
  (l : list Z) : option (Z * list Z) :=
  let has_leading_zero := bool_decide (head l = Some 48) in
  match match max_digits with
        | Some max => read_digits_max radix max 0 0 l
        | None => read_digits_checked radix tmax 0 0 l
        end with
  | None => None
  | Some (v, cnt, rest) =>
      if cnt =? 0 then None
      else if negb allow_zero_prefix && has_leading_zero && (cnt >? 1) then None
      else if v >? tmax then None
      else Some (v, rest)
  end.

(** [Parser::read_given_char] *)
Definition read_given_char (c : Z) (l : list Z) : option (list Z) :=
  match l with
  | x :: l => if x =? c then Some l else None
  | [] => None
  end.

(** [Parser::read_separator]: the separator precedes every item but the first. *)
Definition read_separator {A} (sep : Z) (index : nat) (inner : list Z -> option (A * list Z))
  (l : list Z) : option (A * list Z) :=
  match index with
  | O => inner l
  | _ => match read_given_char sep l with Some l => inner l | None => None end
  end.

(** [Parser::read_ipv4_addr], from octet [index] on *)
Fixpoint read_octets (n index : nat) (l : list Z) : option (list Z * list Z) :=
  match n with
  | O => Some ([], l)
  | S n => match read_separator 46 index (read_number 10 U8_MAX (Some 3) false) l with
           | None => None
           | Some (o, l) => match read_octets n (S index) l with
                            | None => None
                            | Some (os, l) => Some (o :: os, l)
                            end
           end
  end.
Definition read_ipv4_addr : list Z -> option (list Z * list Z) := read_octets 4 0.

(** [read_groups]: the groups read, whether they end in an embedded IPv4
    address, and the input left; [n] groups remain and [index] were read. *)
Fixpoint read_groups (n index : nat) (l : list Z) : list Z * bool * list Z :=
  match n with
  | O => ([], false, l)
  | S n' =>
      match (if (1 <=? n')%nat then read_separator 58 index read_ipv4_addr l else None) with
      | Some ([a; b; c; d], rest) => ([a * 256 + b; c * 256 + d], true, rest)
      | _ =>
          match read_separator 58 index (read_number 16 U16_MAX (Some 4) true) l with
          | None => ([], false, l)
          | Some (g, rest) =>
              let '(gs, v4, rest) := read_groups n' (S index) rest in (g :: gs, v4, rest)
          end
      end
  end.

(** [Parser::read_ipv6_addr] *)
Definition read_ipv6_addr (l : list Z) : option (list Z * list Z) :=
  let '(head, head_ipv4, l) := read_groups 8 0 l in
  if (length head =? 8)%nat then Some (head, l)
  else if head_ipv4 then None
  else match read_given_char 58 l ≫= read_given_char 58 with
       | None => None
       | Some l =>
           let limit := (8 - (length head + 1))%nat in
           let '(tail, _, l) := read_groups limit 0 l in
           Some (head ++ replicate (8 - length head - length tail) 0 ++ tail, l)
       end.

(** [Parser::read_port] and [Parser::read_scope_id] *)
Definition read_port (l : list Z) : option (Z * list Z) :=
  read_given_char 58 l ≫= read_number 10 U16_MAX None true.
Definition read_scope_id (l : list Z) : option (Z * list Z) :=
  read_given_char 37 l ≫= read_number 10 U32_MAX None true.

Definition read_socket_addr_v4 (l : list Z) : option (SocketAddr * list Z) :=
  match read_ipv4_addr l with
  | None => None
  | Some (ip, l) => match read_port l with
                    | None => None
                    | Some (port, l) => Some (mkSocketAddr (V4 ip) 0 port, l)
                    end
  end.

Definition read_socket_addr_v6 (l : list Z) : option (SocketAddr * list Z) :=
  match read_given_char 91 l ≫= read_ipv6_addr with
  | None => None
  | Some (ip, l) =>
      let '(scope, l) := match read_scope_id l with Some (s, l) => (s, l) | None => (0, l) end in
      match read_given_char 93 l ≫= read_port with
      | None => None
      | Some (port, l) => Some (mkSocketAddr (V6 ip) scope port, l)
      end
  end.

(** [value.parse::<SocketAddr>().ok()]: the whole input is one address. *)
Definition parse_socket_addr (value : list Z) : option SocketAddr :=
  match match read_socket_addr_v4 value with
        | Some r => Some r
        | None => read_socket_addr_v6 value
        end with
  | Some (addr, []) => Some addr
  | _ => None
  end.

(** [IpAddr::is_loopback] *)
Definition is_loopback (ip : IpAddr) : bool :=
  match ip with
  | V4 octets => bool_decide (head octets = Some 127)
  | V6 groups => bool_decide (groups = [0; 0; 0; 0; 0; 0; 0; 1])
  end.

(** ** [Display] *)

(** An address the machine can hold. *)
Definition socket_addr_ok (a : SocketAddr) : Prop :=
  0 <= sa_scope a <= U32_MAX /\ 0 <= sa_port a <= U16_MAX
  /\ match sa_ip a with
     | V4 octets => length octets = 4%nat /\ Forall (fun b => 0 <= b <= U8_MAX) octets
     | V6 groups => length groups = 8%nat /\ Forall (fun g => 0 <= g <= U16_MAX) groups
     end.

Definition lower_hex_digit (d : Z) : Z := if d <? 10 then 48 + d else 87 + d.

(** [{:x}] of a [u16] *)
Definition hex_group (g : Z) : list Z :=
  let digits := map (fun k => lower_hex_digit (g / 16 ^ k mod 16)) [3; 2; 1; 0] in
  if g <? 16 then drop 3 digits else if g <? 256 then drop 2 digits
  else if g <? 4096 then drop 1 digits else digits.

Fixpoint join (separator : list Z) (parts : list (list Z)) : list Z :=
  match parts with
  | [] => []
  | [part] => part
  | part :: parts => part ++ separator ++ join separator parts
  end.

Definition display_ipv4 (octets : list Z) : list Z := join (str ".") (map decimal octets).
Definition display_groups (groups : list Z) : list Z := join (str ":") (map hex_group groups).

(** The first longest run of zeroes: its start and length; [start] and [run] describe
    the run that ends before [index]. *)
Fixpoint longest_zeroes (groups : list Z) (index start run best_start best_run : Z) : Z * Z :=
  match groups with
  | [] => (best_start, best_run)
  | g :: groups =>
      if g =? 0 then
        let start := if run =? 0 then index else start in
        let run := run + 1 in
        if run >? best_run then longest_zeroes groups (index + 1) start run start run
        else longest_zeroes groups (index + 1) start run best_start best_run
      else longest_zeroes groups (index + 1) 0 0 best_start best_run
  end.

Definition display_compressed (groups : list Z) : list Z :=
  let '(start, run) := longest_zeroes groups 0 0 0 0 0 in
  if run >? 1 then
    display_groups (take (Z.to_nat start) groups) ++ str "::"
    ++ display_groups (drop (Z.to_nat (start + run)) groups)
  else display_groups groups.

(** An IPv4-mapped address ends in dotted decimals. *)
Definition display_ipv6 (groups : list Z) : list Z :=
  if bool_decide (take 6 groups = [0; 0; 0; 0; 0; 65535])
  then str "::ffff:" ++ display_ipv4 (concat (map (fun g => [g / 256; g mod 256]) (drop 6 groups)))
  else display_compressed groups.

Definition display_socket_addr (a : SocketAddr) : list Z :=
  match sa_ip a with
  | V4 octets => display_ipv4 octets ++ str ":" ++ decimal (sa_port a)
  | V6 groups =>
      str "[" ++ display_ipv6 groups
      ++ (if sa_scope a =? 0 then [] else str "%" ++ decimal (sa_scope a))
      ++ str "]:" ++ decimal (sa_port a)
  end.

Lemma decimal_visible n : 0 <= n -> all visible (decimal n) = true.
Proof.
  intros Hn. destruct (decimal_value n Hn) as [(_ & Hd & _) _]. apply all_true.
  eapply Forall_impl; [exact Hd|]. intros b Hb%is_digit_range. apply visible_range. lia.
Qed.

Lemma all_app {A} (p : A -> bool) l k : all p (l ++ k) = all p l && all p k.
Proof. apply forallb_app. Qed.

Lemma join_visible sep parts :
  all visible sep = true -> Forall (fun p => all visible p = true) parts -> all visible (join sep parts) = true.
Proof.
  intros Hs. induction 1 as [|p [|q parts] Hp Hf IH]; [done|done|]. cbn [join].
  rewrite !all_app, Hp, Hs. done.
Qed.

Lemma display_ipv4_visible octets : Forall (fun b => 0 <= b) octets -> all visible (display_ipv4 octets) = true.
Proof.
  intros Hb. apply join_visible; [done|]. apply Forall_map. eapply Forall_impl; [exact Hb|].
  apply decimal_visible.
Qed.

Lemma hex_group_visible g : all visible (hex_group g) = true.
Proof.
  assert (forall d, 0 <= d < 16 -> visible (lower_hex_digit d) = true) as Hd.
  { intros d Hd. apply visible_range. unfold lower_hex_digit. destruct (Z.ltb_spec d 10); lia. }
  assert (all visible (map (fun k => lower_hex_digit (g / 16 ^ k mod 16)) [3; 2; 1; 0]) = true) as Ha.
  { apply all_true, Forall_map. repeat constructor; apply Hd, Z.mod_pos_bound; lia. }
  revert Ha. unfold hex_group. generalize (map (fun k => lower_hex_digit (g / 16 ^ k mod 16)) [3; 2; 1; 0]).
  intros l Ha. assert (forall n, all visible (drop n l) = true).
  { intros n. apply all_true, Forall_drop, all_true, Ha. }
  by repeat case_match.
Qed.

Lemma display_groups_visible groups : all visible (display_groups groups) = true.
Proof. apply join_visible; [done|]. apply Forall_map, Forall_true. apply hex_group_visible. Qed.

Lemma display_ipv6_visible groups : Forall (fun g => 0 <= g) groups -> all visible (display_ipv6 groups) = true.
Proof.
  intros Hg. unfold display_ipv6, display_compressed. case_bool_decide.
  - rewrite all_app, display_ipv4_visible; [done|]. apply (Forall_drop _ 6) in Hg.
    induction Hg as [|g l Hg _ IH]; [constructor|]. cbn [map concat app].
    repeat constructor; [apply Z.div_pos; lia|apply Z.mod_pos_bound; lia|done].
  - destruct (longest_zeroes _ _ _ _ _ _) as [start run]. destruct (run >? 1).
    + by rewrite !all_app, !display_groups_visible.
    + apply display_groups_visible.
Qed.

Lemma display_visible a : socket_addr_ok a -> all visible (display_socket_addr a) = true.
Proof.
  intros (Hs & Hp & Ha). unfold display_socket_addr. destruct (sa_ip a) as [octets|groups], Ha as [_ Ha].
  - rewrite !all_app, display_ipv4_visible, decimal_visible by (lia || (eapply Forall_impl; [exact Ha|]; simpl; lia)).
    done.
  - rewrite !all_app, display_ipv6_visible, (decimal_visible (sa_port a))
      by (lia || (eapply Forall_impl; [exact Ha|]; simpl; lia)).
    destruct (sa_scope a =? 0); [done|]. by rewrite all_app, decimal_visible by lia.
Qed.

Example display_examples :
  map display_socket_addr
    [mkSocketAddr (V4 [127; 0; 0; 1]) 0 7331; mkSocketAddr (V6 [0; 0; 0; 0; 0; 0; 0; 1]) 0 80;
     mkSocketAddr (V6 [8193; 3512; 0; 0; 1; 0; 0; 0]) 3 1; mkSocketAddr (V6 [0; 0; 0; 0; 0; 65535; 2560; 1]) 0 1]
  = [str "127.0.0.1:7331"; str "[::1]:80"; str "[2001:db8:0:0:1::%3]:1"; str "[::ffff:10.0.0.1]:1"].
Proof. reflexivity. Qed.

Example parse_v4 :
  parse_socket_addr (str "127.0.0.1:7000") = Some (mkSocketAddr (V4 [127; 0; 0; 1]) 0 7000).
Proof. reflexivity. Qed.
Example parse_v6 :
  parse_socket_addr (str "[2001:db8::1]:80")
  = Some (mkSocketAddr (V6 [8193; 3512; 0; 0; 0; 0; 0; 1]) 0 80).
Proof. reflexivity. Qed.
Example parse_v6_mapped :
  parse_socket_addr (str "[::ffff:10.0.0.1%3]:1")
  = Some (mkSocketAddr (V6 [0; 0; 0; 0; 0; 65535; 2560; 1]) 3 1).
Proof. reflexivity. Qed.
Example parse_rejects :
  map parse_socket_addr
    [str "localhost:80"; str "127.0.0.1"; str "127.0.0.01:1"; str "256.0.0.1:1";
     str "1.2.3.4:65536"; str "[1:2:3:4:5:6:7]:1"; str "1.2.3.4:1 "]
  = replicate 7 None.
Proof. reflexivity. Qed.

(** ** Reading what was printed *)

(** The rest of the input does not continue a number. *)
Definition ends_number (rest : list Z) : Prop := forall c l, rest = c :: l -> to_digit 10 c = None.

Lemma to_digit_10 c : is_ascii_digit c = true -> to_digit 10 c = Some (c - 48).
Proof.
  rewrite is_digit_range. intros Hc. unfold to_digit, in_range. rewrite (proj2 (Z.leb_le 48 c)), (proj2 (Z.leb_le c 57)) by lia.
  cbn [andb]. by rewrite (proj2 (Z.ltb_lt _ _)) by lia.
Qed.

Lemma foldl_digits_ge ds acc :
  0 <= acc -> Forall (fun b => is_ascii_digit b = true) ds -> acc <= foldl (fun a d => 10 * a + (d - 48)) acc ds.
Proof.
  intros Ha Hd. revert acc Ha. induction Hd as [|d ds Hd _ IH]; intros acc Ha; [cbn; lia|]. apply is_digit_range in Hd.
  cbn [foldl]. specialize (IH (10 * acc + (d - 48)) ltac:(lia)). lia.
Qed.

Lemma read_digits_checked_app ds rest tmax acc cnt :
  Forall (fun b => is_ascii_digit b = true) ds -> ends_number rest -> 0 <= acc ->
  foldl (fun a d => 10 * a + (d - 48)) acc ds <= tmax ->
  read_digits_checked 10 tmax acc cnt (ds ++ rest) = Some (foldl (fun a d => 10 * a + (d - 48)) acc ds, cnt + len ds, rest).
Proof.
  intros Hd Hr. revert acc cnt. induction Hd as [|d ds Hd Hds IH]; intros acc cnt Ha Hm.
  - cbn [app foldl]. rewrite len_nil, Z.add_0_r. destruct rest as [|c l]; [done|]. cbn [read_digits_checked]. by rewrite (Hr c l).
  - cbn [app foldl read_digits_checked] in *. pose proof (proj1 (is_digit_range d) Hd) as Hrange. rewrite to_digit_10 by done.
    pose proof (foldl_digits_ge ds (10 * acc + (d - 48)) ltac:(lia) Hds) as Hge. unfold checked_mul, checked_add.
    rewrite (proj2 (try_from_Some tmax (acc * 10) (acc * 10))) by lia.
    rewrite (proj2 (try_from_Some tmax (acc * 10 + (d - 48)) (acc * 10 + (d - 48)))) by lia.
    replace (acc * 10 + (d - 48)) with (10 * acc + (d - 48)) by lia. rewrite IH by (done || lia). rewrite len_cons. do 3 f_equal. lia.
Qed.

Lemma read_digits_max_app ds rest max acc cnt :
  Forall (fun b => is_ascii_digit b = true) ds -> ends_number rest -> cnt + len ds <= max ->
  read_digits_max 10 max acc cnt (ds ++ rest) = Some (foldl (fun a d => 10 * a + (d - 48)) acc ds, cnt + len ds, rest).
Proof.
  intros Hd Hr. revert acc cnt. induction Hd as [|d ds Hd Hds IH]; intros acc cnt Hm.
  - cbn [app foldl]. rewrite len_nil, Z.add_0_r. destruct rest as [|c l]; [done|]. cbn [read_digits_max]. by rewrite (Hr c l).
  - cbn [app foldl read_digits_max] in *. rewrite len_cons in *. pose proof (len_nonneg ds). rewrite to_digit_10 by done.
    destruct (Z.gtb_spec (cnt + 1) max); [lia|]. replace (acc * 10 + (d - 48)) with (10 * acc + (d - 48)) by lia.
    rewrite IH by lia. do 2 f_equal. f_equal. lia.
Qed.

Lemma decimal_len n : 0 <= n -> n < 1000 -> len (decimal n) <= 3.
Proof.
  intros H0 H1. destruct (Z.lt_ge_cases n 10); [by rewrite decimal_small by lia|].
  rewrite decimal_step by lia. destruct (Z.lt_ge_cases n 100).
  - rewrite decimal_small by (split; [apply Z.div_pos; lia|apply Z.div_lt_upper_bound; lia]). done.
  - assert (10 <= n / 10 < 100) by (split; [apply Z.div_le_lower_bound; lia|apply Z.div_lt_upper_bound; lia]).
    rewrite decimal_step by lia. rewrite decimal_small by (split; [apply Z.div_pos; lia|apply Z.div_lt_upper_bound; lia]). done.
Qed.

Lemma read_number_decimal n tmax digits zeroes rest :
  0 <= n <= tmax -> ends_number rest -> match digits with Some max => len (decimal n) <= max | None => True end ->
  read_number 10 tmax digits zeroes (decimal n ++ rest) = Some (n, rest).
Proof.
  intros Hn Hr Hm. destruct (decimal_value n ltac:(lia)) as [(Hne & Hd & Hz) Hv]. unfold read_number.
  rewrite head_app_ne by done. unfold digits_value in Hv.
  assert (match digits with Some max => read_digits_max 10 max 0 0 (decimal n ++ rest)
          | None => read_digits_checked 10 tmax 0 0 (decimal n ++ rest) end = Some (n, len (decimal n), rest)) as ->.
  { destruct digits; [rewrite read_digits_max_app|rewrite read_digits_checked_app]; rewrite ?Hv; done || lia. }
  assert (0 < len (decimal n)) by (destruct (decimal n); [done|len_lia]).
  rewrite (proj2 (Z.eqb_neq _ 0)) by lia.
  assert (bool_decide (head (decimal n) = Some 48) && (len (decimal n) >? 1) = false) as Hlead.
  { case_bool_decide as Hh; [|done]. destruct (Z.gtb_spec (len (decimal n)) 1); [|done]. exfalso. apply Hz. split; [done|lia]. }
  rewrite <- andb_assoc, Hlead, andb_false_r. destruct (Z.gtb_spec n tmax); [lia|done].
Qed.

(** The text of an IPv4 socket address reads back. *)
Lemma parse_display_v4 octets port :
  length octets = 4%nat -> Forall (fun b => 0 <= b <= U8_MAX) octets -> 0 <= port <= U16_MAX ->
  parse_socket_addr (display_socket_addr (mkSocketAddr (V4 octets) 0 port)) = Some (mkSocketAddr (V4 octets) 0 port).
Proof.
  intros Hl Ho Hp. destruct octets as [|a [|b [|c [|d [|]]]]]; try done.
  repeat (apply Forall_cons_iff in Ho as [? Ho]). unfold U8_MAX in *.
  assert (forall c rest, to_digit 10 c = None -> ends_number (c :: rest)) as He by (intros c0 rest Hc c' l [= <- <-]; done).
  unfold parse_socket_addr, read_socket_addr_v4, read_ipv4_addr, display_socket_addr, display_ipv4.
  cbn [sa_ip sa_port map join]. rewrite <- !app_assoc. change (str ".") with [46]. change (str ":") with [58]. cbn [app].
  assert (forall n rest, 0 <= n <= 255 -> ends_number rest -> read_number 10 255 (Some 3) false (decimal n ++ rest) = Some (n, rest)) as Hnum.
  { intros n rest Hn Hr. apply read_number_decimal; [done|done|apply decimal_len; lia]. }
  cbn [read_octets read_separator]. unfold U8_MAX. rewrite Hnum by (done || by apply He).
  cbn [read_octets read_separator read_given_char]. rewrite !Z.eqb_refl, Hnum by (done || by apply He).
  cbn [read_octets read_separator read_given_char]. rewrite !Z.eqb_refl, Hnum by (done || by apply He).
  cbn [read_octets read_separator read_given_char]. rewrite !Z.eqb_refl, Hnum by (done || by apply He).
  unfold read_port. cbn [read_given_char]. rewrite Z.eqb_refl. cbn [mbind option_bind].
  rewrite <- (app_nil_r (decimal port)), read_number_decimal; done.
Qed.
