(* ===== verification/Json.v ===== *)
(** * Json: [serde_json::Value] and its codec

    The local API exchanges JSON documents.  A [Value] has the constructors of the crate's
    type; an object lists its entries in key order, as the crate's map does.  The text
    codec and the derived decoders of request bodies are third-party code: parameters
    with the documented round trips. *)
From stdpp Require Import base tactics list numbers option countable.
From Stdlib Require Import ZArith Lia.
Import stdpp.list.
From S2P Require Import Prelude Bytes Text BTree.

Local Open Scope Z_scope.

Inductive Value :=
| Null
| Bool (b : bool)
| Number (n : Z)
| Text (s : list Z)
| Array (items : list Value)
| Object (entries : list (list Z * Value)).

(** Documents the format can carry: 64-bit numbers, UTF-8 strings, keys in order. *)
Fixpoint value_ok (v : Value) : Prop :=
  match v with
  | Null | Bool _ => True
  | Number n => - (I64_MAX + 1) <= n <= U64_MAX
  | Text s => utf8_valid s = true
  | Array l => foldr (fun v P => value_ok v /\ P) True l
  | Object l =>
      bt_ok l /\ foldr (fun e P => utf8_valid e.1 = true /\ value_ok e.2 /\ P) True l
  end.

(** [Value::get] of an object *)
Definition field (key : list Z) (v : Value) : option Value :=
  match v with Object l => bt_get key l | _ => None end.

(** [Value::as_str] *)
Definition as_str (v : Value) : option (list Z) := match v with Text s => Some s | _ => None end.

(** [serde_json::to_vec] and [from_slice], and [from_slice] at the derived request types:
    a path or an identifier, and the flag [shared] *)
Class Json := {
  to_vec : Value -> list Z;
  from_slice : list Z -> option Value;
  decode_add : list Z -> option (list Z * bool);
  decode_fetch : list Z -> option (list Z * bool)
}.

Definition add_body (path : list Z) (shared : bool) : Value :=
  Object [(str "path", Text path); (str "shared", Bool shared)].
Definition fetch_body (content_id : list Z) (shared : bool) : Value :=
  Object [(str "content_id", Text content_id); (str "shared", Bool shared)].

Class JsonLaws `{Json} : Prop := {
  from_to_vec : forall v, value_ok v -> from_slice (to_vec v) = Some v;
  decode_add_body : forall path shared,
    utf8_valid path = true -> decode_add (to_vec (add_body path shared)) = Some (path, shared);
  decode_fetch_body : forall id shared,
    utf8_valid id = true -> decode_fetch (to_vec (fetch_body id shared)) = Some (id, shared)
}.

(** ** A concrete codec *)

Module ToyJson.

Definition leaf : Type := (bool + Z) + list Z.

Fixpoint tree (v : Value) : gen_tree leaf :=
  match v with
  | Null => GenNode 0 []
  | Bool b => GenLeaf (inl (inl b))
  | Number n => GenLeaf (inl (inr n))
  | Text s => GenLeaf (inr s)
  | Array l => GenNode 1 (map tree l)
  | Object l => GenNode 2 (map (fun e => GenNode 3 [GenLeaf (inr e.1); tree e.2]) l)
  end.

Fixpoint value (t : gen_tree leaf) : Value :=
  match t with
  | GenLeaf (inl (inl b)) => Bool b
  | GenLeaf (inl (inr n)) => Number n
  | GenLeaf (inr s) => Text s
  | GenNode 1 l => Array (map value l)
  | GenNode 2 l =>
      Object (map (fun t => match t with GenNode _ [GenLeaf (inr k); t] => (k, value t) | _ => ([], Null) end) l)
  | GenNode _ _ => Null
  end.

Lemma value_tree v : value (tree v) = v.
Proof.
  revert v. fix IH 1. intros [| | | |l|l]; [reflexivity..| |]; cbn [tree value]; f_equal.
  - induction l as [|v l IHl]; [reflexivity|]. cbn [map]. rewrite IH, IHl. reflexivity.
  - induction l as [|[k v] l IHl]; [reflexivity|]. cbn [map fst snd]. rewrite IH, IHl. reflexivity.
Qed.

(** A document as the decimal digits of the number of its tree. *)
Definition toy_to_vec (v : Value) : list Z := decimal (Z.pos (encode (tree v))).
Definition toy_from_slice (l : list Z) : option Value := value <$> decode (Z.to_pos (digits_value l)).

Lemma toy_roundtrip v : toy_from_slice (toy_to_vec v) = Some v.
Proof.
  unfold toy_from_slice, toy_to_vec. destruct (decimal_value (Z.pos (encode (tree v))) ltac:(lia)) as [_ ->].
  cbn [Z.to_pos]. rewrite decode_encode. cbn. by rewrite value_tree.
Qed.

Definition flagged (key : list Z) (v : Value) : option (list Z * bool) :=
  match field key v, field (str "shared") v with
  | Some (Text s), Some (Bool b) => Some (s, b)
  | Some (Text s), None => Some (s, true)
  | _, _ => None
  end.

#[export] Instance toy_json : Json := {
  to_vec := toy_to_vec;
  from_slice := toy_from_slice;
  decode_add := fun l => toy_from_slice l ≫= flagged (str "path");
  decode_fetch := fun l => toy_from_slice l ≫= flagged (str "content_id")
}.

#[export] Instance toy_json_laws : JsonLaws.
Proof.
  constructor; intros; cbn [to_vec from_slice decode_add decode_fetch toy_json]; by rewrite toy_roundtrip.
Qed.

End ToyJson.
