(* ===== verification/Http.v ===== *)
(** * Http: the loopback HTTP exchange (crates/triptorrent-node and triptorrent-node-api)

    [read_request] and [write_response] are the daemon's side of a connection,
    [request_bytes] and [parse_response] the two halves of [LocalApiClient::request].  A
    connection delivers a list of reads, however the bytes were cut; an empty read is the
    end of the stream and [read_error] is the text of the failure after the last read.
    Errors are their messages.  Theorems: [read_request] returns a request exactly when
    the reads up to some point are one well-formed request, whatever the cuts; the
    daemon reads back what the client writes, and the client reads back what the daemon
    writes; an error text is a prefix of the message, cut at a character. *)
From stdpp Require Import base tactics list numbers option.
From Stdlib Require Import ZArith Lia.
Import stdpp.list.
From S2P Require Import Prelude Bytes Text BTree NetAddr Json.

Local Open Scope Z_scope.

Definition API_MAX_REQUEST : Z := 1024 * 1024.
Definition API_MAX_TARGET : Z := 2048.
Definition API_MAX_ERROR : Z := 1024.

Record HttpRequest := mkHttpRequest {
  method : list Z;
  target : list Z;
  authorization : option (list Z);
  body : list Z
}.

Record Incoming := mkIncoming {
  reads : list (list Z);
  read_error : list Z
}.

Definition CRLF : list Z := [13; 10].
Definition BLANK : list Z := [13; 10; 13; 10].

Definition find_subslice (haystack needle : list Z) : option Z := find_subslice_from 0 haystack needle.

(** ** Reading a request *)

(** The loop that reads up to the end of the headers: the bytes read, the end of the
    headers and the reads left. *)
Fixpoint read_head (failure : list Z) (reads : list (list Z)) (bytes : list Z)
  : result (list Z) (list Z * Z * list (list Z)) :=
  match reads with
  | [] => Err failure
  | buffer :: reads =>
      if bool_decide (buffer = []) then Err (str "client closed before sending headers")
      else
        let bytes := bytes ++ buffer in
        if len bytes >? API_MAX_REQUEST then Err (str "API request is too large")
        else match find_subslice bytes BLANK with
             | Some index => Ok (bytes, index + 4, reads)
             | None => read_head failure reads bytes
             end
  end.

(** The fields the header loop collects. *)
Record Headers := mkHeaders {
  content_length : Z;
  saw_content_length : bool;
  h_authorization : option (list Z)
}.

Definition apply_header (h : Headers) (line : list Z) : result (list Z) Headers :=
  '(name, value) ← ok_or (split_once 58 line) (str "malformed HTTP header");
  if eq_ignore_ascii_case name (str "content-length") then
    if saw_content_length h then Err (str "duplicate Content-Length header")
    else
      n ← ok_or (parse_unsigned USIZE_MAX (trim value)) (str "invalid Content-Length");
      Ok (mkHeaders n true (h_authorization h))
  else if eq_ignore_ascii_case name (str "authorization") then
    if bool_decide (is_Some (h_authorization h)) then Err (str "duplicate Authorization header")
    else Ok (mkHeaders (content_length h) (saw_content_length h) (Some (trim value)))
  else Ok h.

Fixpoint header_loop (h : Headers) (lines : list (list Z)) : result (list Z) Headers :=
  match lines with
  | [] => Ok h
  | line :: lines => h ← apply_header h line; header_loop h lines
  end.

(** The request line: method and target. *)
Definition parse_request_line (line : list Z) : result (list Z) (list Z * list Z) :=
  let parts := split_whitespace line in
  method ← ok_or (parts !! 0%nat) (str "missing HTTP method");
  target ← ok_or (parts !! 1%nat) (str "missing HTTP target");
  version ← ok_or (parts !! 2%nat) (str "missing HTTP version");
  if negb (bool_decide (version = str "HTTP/1.1")) || bool_decide (is_Some (parts !! 3%nat))
     || (len target >? API_MAX_TARGET)
  then Err (str "invalid HTTP request line")
  else Ok (method, target).

(** Everything between reading the headers and computing the request's end. *)
Definition parse_head (headers : list Z) : result (list Z) (list Z * list Z * Headers) :=
  if negb (utf8_valid headers) then Err (str "HTTP headers are not UTF-8")
  else
    let lines := split_crlf headers in
    request_line ← ok_or (head lines) (str "missing HTTP request line");
    '(method, target) ← parse_request_line request_line;
    h ← header_loop (mkHeaders 0 false None) (List.filter nonempty (tail lines));
    Ok (method, target, h).

(** The loop that reads the body. *)
Fixpoint read_body (failure : list Z) (request_end : Z) (reads : list (list Z)) (bytes : list Z)
  : result (list Z) (list Z) :=
  if len bytes <? request_end then
    match reads with
    | [] => Err failure
    | buffer :: reads =>
        if bool_decide (buffer = []) then Err (str "client closed before sending request body")
        else read_body failure request_end reads (bytes ++ buffer)
    end
  else Ok bytes.

Definition read_request (stream : Incoming) : result (list Z) HttpRequest :=
  '(bytes, header_end, rest) ← read_head (read_error stream) (reads stream) [];
  '(method, target, h) ← parse_head (take (Z.to_nat header_end) bytes);
  request_end ← ok_or (checked_add USIZE_MAX header_end (content_length h)) (str "HTTP request length overflow");
  if (request_end >? API_MAX_REQUEST) || (len bytes >? request_end) then Err (str "API request is too large")
  else
    bytes ← read_body (read_error stream) request_end rest bytes;
    if negb (len bytes =? request_end) then Err (str "trailing or pipelined request bytes are not accepted")
    else Ok (mkHttpRequest method target (h_authorization h) (drop (Z.to_nat header_end) bytes)).

(** ** Writing a response *)

Definition reason (status : Z) : list Z :=
  match status with
  | 200 => str "OK"
  | 201 => str "Created"
  | 202 => str "Accepted"
  | 400 => str "Bad Request"
  | 401 => str "Unauthorized"
  | 403 => str "Forbidden"
  | 404 => str "Not Found"
  | _ => str "Error"
  end.

(** The byte offset after the last character that starts before [API_MAX_ERROR]: the
    [char_indices] pass of [error_json]. *)
Fixpoint error_end (index end_ : Z) (cs : list (list Z)) : Z :=
  match cs with
  | c :: cs => if index <? API_MAX_ERROR then error_end (index + len c) (index + len c) cs else end_
  | [] => end_
  end.

Definition bounded_error (message : list Z) : list Z :=
  if len message >? API_MAX_ERROR then take (Z.to_nat (error_end 0 0 (chars message))) message else message.

Definition error_json (code message : list Z) : Value :=
  Object [(str "error", Object [(str "code", Text code); (str "message", Text (bounded_error message))])].

Section Exchange.
Context `{Json}.

(** The bytes [write_response] sends. *)
Definition response_bytes (status : Z) (value : Value) : list Z :=
  let encoded := to_vec value in
  str "HTTP/1.1 " ++ decimal status ++ str " " ++ reason status ++ CRLF
  ++ str "Content-Type: application/json" ++ CRLF
  ++ str "Content-Length: " ++ decimal (len encoded) ++ CRLF
  ++ str "Connection: close" ++ CRLF ++ CRLF ++ encoded.

(** ** The client *)

Record LocalApiConnection := mkConnection {
  api_listen : SocketAddr;
  api_token : list Z
}.

(** The bytes [LocalApiClient::request] sends. *)
Definition request_bytes (c : LocalApiConnection) (method target : list Z) (value : option Value) : list Z :=
  let encoded := match value with Some v => to_vec v | None => [] end in
  method ++ str " " ++ target ++ str " HTTP/1.1" ++ CRLF
  ++ str "Host: " ++ display_socket_addr (api_listen c) ++ CRLF
  ++ str "Authorization: Bearer " ++ api_token c ++ CRLF
  ++ str "Content-Length: " ++ decimal (len encoded) ++ CRLF
  ++ str "Connection: close" ++ CRLF ++ CRLF ++ encoded.

Inductive ClientError :=
| MalformedHttp
| HeadersNotUtf8
| OmittedStatus
| BadStatus
| InvalidJson
| HttpError (status : Z) (message : list Z).

(** [value.pointer] at the message of an error document *)
Definition error_message (v : Value) : option (list Z) :=
  match field (str "error") v with
  | Some e => match field (str "message") e with Some m => as_str m | None => None end
  | None => None
  end.

(** What [LocalApiClient::request] makes of the bytes of the response. *)
Definition parse_response (response : list Z) : result ClientError Value :=
  end_ ← ok_or (find_subslice response BLANK) MalformedHttp;
  let headers := take (Z.to_nat end_) response in
  if negb (utf8_valid headers) then Err HeadersNotUtf8
  else
    text ← ok_or (split_whitespace headers !! 1%nat) OmittedStatus;
    status ← ok_or (parse_unsigned U16_MAX text) BadStatus;
    value ← ok_or (from_slice (drop (Z.to_nat (end_ + 4)) response)) InvalidJson;
    if negb ((200 <=? status) && (status <? 300))
    then Err (HttpError status (default (str "local API request failed") (error_message value)))
    else Ok value.
End Exchange.

(** ** Error texts *)

Lemma char_step_valid l : utf8_valid l = true -> l <> [] ->
  exists c r, chars l = c :: chars r /\ l = c ++ r /\ 1 <= len c <= 4 /\ utf8_valid r = true
    /\ forall x, utf8_valid (c ++ x) = utf8_valid x.
Proof.
  destruct l as [|b0 l]; [done|]. intros Hv _. cbn [utf8_valid chars] in *.
  destruct (in_range 0 127 b0) eqn:E0.
  { exists [b0], l. assert (b0 <? 128 = true) as -> by (unfold in_range in E0; lia).
    split_and!; try done. intros x. cbn [app utf8_valid]. by rewrite E0. }
  destruct l as [|b1 l]; [done|]. destruct (in_range 194 223 b0) eqn:E1.
  { apply andb_true_iff in Hv as [Hc Hv]. exists [b0; b1], l. unfold in_range in *.
    assert (b0 <? 128 = false) as -> by lia. assert (b0 <? 224 = true) as -> by lia.
    split_and!; try done. intros x. cbn [app utf8_valid]. unfold in_range in *. by rewrite E0, E1, Hc. }
  destruct l as [|b2 l]; [done|]. destruct (in_range 224 239 b0) eqn:E2.
  { rewrite !andb_true_iff in Hv. destruct Hv as ((Hr & Hc) & Hv). exists [b0; b1; b2], l.
    assert (b0 <? 128 = false) as -> by (unfold in_range in *; lia).
    assert (b0 <? 224 = false) as -> by (unfold in_range in *; lia).
    assert (b0 <? 240 = true) as -> by (unfold in_range in *; lia).
    split_and!; try done. intros x. cbn [app utf8_valid]. by rewrite E0, E1, E2, Hr, Hc. }
  destruct l as [|b3 l]; [done|]. rewrite !andb_true_iff in Hv. destruct Hv as ((((E3 & Hr) & Hc) & Hd) & Hv).
  exists [b0; b1; b2; b3], l. assert (b0 <? 128 = false) as -> by (unfold in_range in *; lia).
  assert (b0 <? 224 = false) as -> by (unfold in_range in *; lia).
  assert (b0 <? 240 = false) as -> by (unfold in_range in *; lia).
  split_and!; try done. intros x. cbn [app utf8_valid]. by rewrite E0, E1, E2, E3, Hr, Hc, Hd.
Qed.

(** The pass over the characters stops at the first boundary past the limit. *)
Lemma error_end_spec n : forall l i,
  (length l <= n)%nat -> utf8_valid l = true ->
  exists a b, l = a ++ b /\ error_end i i (chars l) = i + len a /\ utf8_valid a = true
    /\ (b = [] \/ API_MAX_ERROR <= i + len a) /\ (a = [] \/ i + len a <= API_MAX_ERROR + 3).
Proof.
  induction n as [|n IH]; intros [|x l] i Hn Hv; try (simpl in Hn; lia);
    try (exists [], []; rewrite len_nil, Z.add_0_r; split_and!; (done || by left)).
  destruct (char_step_valid (x :: l) Hv ltac:(done)) as (c & r & -> & Hl & Hc & Hr & Happ).
  cbn [error_end]. destruct (Z.ltb_spec i API_MAX_ERROR) as [Hi|Hi].
  - destruct (IH r (i + len c)) as (a & b & -> & -> & Ha & Hb & Hend); [|done|].
    { rewrite Hl, length_app in Hn. unfold len in Hc. lia. }
    exists (c ++ a), b. rewrite len_app, Happ. split_and!; [by rewrite Hl, app_assoc|lia|done|..].
    + destruct Hb; [by left|right; lia].
    + right. destruct Hend as [->|]; [rewrite len_nil|]; lia.
  - exists [], (x :: l). rewrite len_nil, Z.add_0_r. split_and!; (done || (by left) || (right; lia)).
Qed.

(** An error text is a prefix of the message cut at a character, the whole of it up to
    the limit, and never more than three bytes past the limit. *)
Lemma bounded_error_spec message :
  utf8_valid message = true ->
  exists rest, message = bounded_error message ++ rest /\ utf8_valid (bounded_error message) = true
    /\ (len message <= API_MAX_ERROR -> rest = [])
    /\ (API_MAX_ERROR < len message -> API_MAX_ERROR <= len (bounded_error message) <= API_MAX_ERROR + 3).
Proof.
  intros Hv. unfold bounded_error. destruct (Z.gtb_spec (len message) API_MAX_ERROR) as [Hl|Hl].
  - destruct (error_end_spec _ message 0 (le_n _) Hv) as (a & b & Hab & -> & Ha & Hb & He).
    rewrite Z.add_0_l. exists b. assert (take (Z.to_nat (len a)) message = a) as ->.
    { rewrite Hab. unfold len. by rewrite Nat2Z.id, take_app_length. }
    assert (a <> []) as Hne.
    { intros ->. change (len (@nil Z)) with 0 in Hb. destruct Hb as [->|Hb]; [by subst|].
      unfold API_MAX_ERROR in Hb. lia. }
    split_and!; try done; [lia|]. intros _. destruct He as [|He]; [done|]. split; [|lia].
    destruct Hb as [->|]; [|lia]. rewrite app_nil_r in Hab. subst. lia.
  - exists []. rewrite app_nil_r. split_and!; (done || lia).
Qed.

(** The limit is exceeded when the last character kept straddles it. *)
Lemma bounded_error_exceeds :
  len (bounded_error (replicate 1023 97 ++ [195; 169])) = API_MAX_ERROR + 1.
Proof. vm_compute. reflexivity. Qed.

(** ** Reading, whatever the cuts *)

Definition filled (l : list Z) : Prop := l <> [].

Lemma read_head_Ok failure rs : forall b0 b e rest,
  read_head failure rs b0 = Ok (b, e, rest) ->
  exists frags, rs = frags ++ rest /\ Forall filled frags /\ b = b0 ++ concat frags
    /\ find_subslice b BLANK = Some (e - 4) /\ len b <= API_MAX_REQUEST.
Proof.
  induction rs as [|x rs IH]; intros b0 b e rest; cbn [read_head]; [done|].
  case_bool_decide as Hx; [done|]. destruct (Z.gtb_spec (len (b0 ++ x)) API_MAX_REQUEST); [done|].
  destruct (find_subslice (b0 ++ x) BLANK) as [i|] eqn:Ef.
  - intros [= <- <- <-]. exists [x]. cbn [concat app]. rewrite app_nil_r, Z.add_simpl_r. split_and!; try done.
    by apply Forall_singleton.
  - intros (frags & -> & Hf & -> & Hfind & Hlen)%IH. exists (x :: frags). cbn [concat app].
    rewrite app_assoc. split_and!; try done. by constructor.
Qed.

Lemma read_head_complete failure rest i : forall frags b0,
  Forall filled frags -> find_subslice b0 BLANK = None ->
  find_subslice (b0 ++ concat frags) BLANK = Some i -> len (b0 ++ concat frags) <= API_MAX_REQUEST ->
  exists f1 f2, frags = f1 ++ f2 /\ find_subslice (b0 ++ concat f1) BLANK = Some i
    /\ read_head failure (frags ++ rest) b0 = Ok (b0 ++ concat f1, i + 4, f2 ++ rest).
Proof.
  intros frags b0 Hf. revert b0. induction Hf as [|x frags Hx Hf IH]; intros b0 Hnone Hfind Hlen.
  - cbn [concat] in Hfind. rewrite app_nil_r in Hfind. congruence.
  - cbn [concat app read_head] in *. rewrite app_assoc in Hfind, Hlen.
    rewrite bool_decide_eq_false_2 by done.
    destruct (Z.gtb_spec (len (b0 ++ x)) API_MAX_REQUEST); [len_lia|].
    destruct (find_subslice (b0 ++ x) BLANK) as [j|] eqn:Ef.
    + pose proof (proj1 (find_subslice_app BLANK 0 (b0 ++ x) (concat frags) j ltac:(done)) Ef) as [Hj _].
      assert (j = i) as -> by (unfold find_subslice in Hfind; congruence).
      exists [x], frags. cbn [concat]. rewrite app_nil_r. done.
    + destruct (IH (b0 ++ x) Ef Hfind Hlen) as (f1 & f2 & -> & H1 & H2).
      exists (x :: f1), f2. cbn [concat]. by rewrite app_assoc.
Qed.

Lemma read_body_Ok failure n rs : forall b b',
  read_body failure n rs b = Ok b' ->
  exists frags rest, rs = frags ++ rest /\ Forall filled frags /\ b' = b ++ concat frags.
Proof.
  induction rs as [|x rs IH]; intros b b'; cbn [read_body]; destruct (len b <? n); try done.
  - intros [= <-]. exists [], []. cbn [concat]. rewrite (app_nil_r b). split_and!; [done|constructor|done].
  - case_bool_decide as Hx; [done|]. intros (frags & rest & -> & Hf & ->)%IH.
    exists (x :: frags), rest. cbn [concat]. rewrite app_assoc. split_and!; try done. by constructor.
  - intros [= <-]. exists [], (x :: rs). cbn [concat]. rewrite (app_nil_r b). split_and!; [done|constructor|done].
Qed.

Lemma read_body_complete failure rest frags : forall b,
  Forall filled frags ->
  read_body failure (len (b ++ concat frags)) (frags ++ rest) b = Ok (b ++ concat frags).
Proof.
  intros b Hf. revert b. induction Hf as [|x frags Hx Hf IH]; intros b; cbn [concat app].
  - rewrite app_nil_r. destruct rest; cbn [read_body]; by rewrite Z.ltb_irrefl.
  - cbn [read_body]. assert (0 < len x) by (destruct x; [done|len_lia]).
    rewrite (proj2 (Z.ltb_lt _ _)) by len_lia. rewrite bool_decide_eq_false_2 by done.
    rewrite app_assoc. apply IH.
Qed.

(** The bytes that make a request. *)
Definition request_frame (r : HttpRequest) (bytes : list Z) : Prop :=
  exists headers h,
    bytes = headers ++ body r /\ find_subslice bytes BLANK = Some (len headers - 4)
    /\ parse_head headers = Ok (method r, target r, h)
    /\ h_authorization h = authorization r /\ content_length h = len (body r)
    /\ len bytes <= API_MAX_REQUEST.

Lemma read_request_sound s r :
  read_request s = Ok r ->
  exists frags rest, reads s = frags ++ rest /\ Forall filled frags /\ request_frame r (concat frags).
Proof.
  unfold read_request. intros Hr. apply bind_Ok in Hr as ([[b e] rest] & (f1 & Hrs & Hf1 & -> & Hfind & Hlen)%read_head_Ok & Hr).
  apply bind_Ok in Hr as ([[m t] h] & Hp & Hr). apply bind_Ok in Hr as (n & Hn & Hr).
  apply ok_or_Ok, try_from_Some in Hn as [<- Hn]. cbn [app] in *.
  destruct (Z.gtb_spec (e + content_length h) API_MAX_REQUEST); [done|].
  destruct (Z.gtb_spec (len (concat f1)) (e + content_length h)); [done|]. cbn [orb] in Hr.
  apply bind_Ok in Hr as (b & (f2 & rest2 & -> & Hf2 & ->)%read_body_Ok & Hr).
  destruct (Z.eqb_spec (len (concat f1 ++ concat f2)) (e + content_length h)) as [Htot|]; [|done].
  cbn [negb] in Hr. apply Ok_inj in Hr as <-.
  pose proof (find_subslice_Some _ _ _ _ Hfind) as (x & y & Hx & He).
  assert (0 <= e <= len (concat f1)) as Hrange.
  { rewrite Hx, !len_app. change (len BLANK) with 4. len_lia. }
  exists (f1 ++ f2), rest2. rewrite Hrs, <- app_assoc. split_and!; [done|by apply Forall_app|].
  rewrite concat_app. exists (take (Z.to_nat e) (concat f1)), h. cbn [method target authorization body].
  assert (len (take (Z.to_nat e) (concat f1)) = e) as Hle by (rewrite len_take; lia).
  rewrite Hle. split_and!; try done.
  + rewrite <- (take_app_le _ (concat f2)) by (unfold len in *; lia). by rewrite take_drop.
  + exact (proj1 (proj1 (find_subslice_app BLANK 0 _ (concat f2) _ ltac:(done)) Hfind)).
  + rewrite len_drop. lia.
  + lia.
Qed.

Lemma read_request_complete s r frags rest :
  reads s = frags ++ rest -> Forall filled frags -> request_frame r (concat frags) -> read_request s = Ok r.
Proof.
  intros Hrs Hf (headers & h & Hc & Hfind & Hp & Ha & Hcl & Hlen). unfold read_request. rewrite Hrs.
  destruct (read_head_complete (read_error s) rest _ frags [] Hf eq_refl Hfind Hlen)
    as (f1 & f2 & -> & Hf1 & ->). cbn [app mbind result_bind] in *.
  apply Forall_app in Hf as [_ Hf2]. rewrite concat_app in Hc, Hlen, Hfind.
  pose proof (proj1 (find_subslice_app BLANK 0 _ (concat f2) _ ltac:(done)) Hf1) as [_ Hin].
  change (len BLANK) with 4 in Hin. replace (len headers - 4 + 4) with (len headers) in * by lia.
  assert (take (Z.to_nat (len headers)) (concat f1) = headers) as Ht.
  { rewrite <- (take_app_le _ (concat f2)) by (unfold len in *; lia). rewrite Hc. unfold len.
    by rewrite Nat2Z.id, take_app_length. }
  rewrite Ht, Hp. cbn [mbind result_bind]. rewrite Hcl.
  assert (len (concat f1 ++ concat f2) = len headers + len (body r)) as Htot by (rewrite Hc; len_lia).
  unfold checked_add. rewrite (proj2 (try_from_Some USIZE_MAX _ (len headers + len (body r))))
    by (unfold API_MAX_REQUEST, USIZE_MAX, U64_MAX in *; split; [done|len_lia]).
  cbn [ok_or mbind result_bind].
  destruct (Z.gtb_spec (len headers + len (body r)) API_MAX_REQUEST); [lia|].
  destruct (Z.gtb_spec (len (concat f1)) (len headers + len (body r))); [len_lia|]. cbn [orb].
  rewrite <- Htot, read_body_complete by done. cbn [mbind result_bind]. rewrite Z.eqb_refl. cbn [negb].
  rewrite Ha, Hc. unfold len. rewrite Nat2Z.id, drop_app_length. by destruct r.
Qed.

(** Whatever the cuts the network makes, [read_request] returns a request exactly
    when the non-empty reads up to some point are the bytes of that request: headers up
    to the first blank line that parse to its method, target and authorization, a body of
    the announced length, and nothing more, within the size limit. *)
Theorem read_request_exact (s : Incoming) (r : HttpRequest) :
  read_request s = Ok r <->
  exists frags rest, reads s = frags ++ rest /\ Forall filled frags /\ request_frame r (concat frags).
Proof.
  split; [apply read_request_sound|]. intros (frags & rest & Hr & Hf & Hq). by eapply read_request_complete.
Qed.

(** ** Blocks of header lines *)

(** A line: visible characters and spaces, starting with a visible one. *)
Definition line_ok (l : list Z) : Prop :=
  l <> [] /\ Forall (fun b => 32 <= b <= 126) l.

Definition block (lines : list (list Z)) : list Z := concat (map (fun l => l ++ CRLF) lines).

Lemma block_cons l lines : block (l :: lines) = l ++ 13 :: 10 :: block lines.
Proof. unfold block. cbn [map concat]. by rewrite <- app_assoc. Qed.

Lemma line_ok_text l : l <> [] -> all visible l = true -> line_ok l.
Proof.
  intros Hne Hv%all_true. split; [done|]. eapply Forall_impl; [exact Hv|]. intros b ?%visible_range. lia.
Qed.

Lemma line_ok_app l k : line_ok l -> Forall (fun b => 32 <= b <= 126) k -> line_ok (l ++ k).
Proof. intros [Hne Hl] Hk. split; [by destruct l|]. by apply Forall_app. Qed.

Lemma visible_printable l : all visible l = true -> Forall (fun b => 32 <= b <= 126) l.
Proof. intros Hv%all_true. eapply Forall_impl; [exact Hv|]. intros b ?%visible_range. lia. Qed.

Lemma find_blank_skip b i r :
  b <> 13 -> find_subslice_from i (b :: r) BLANK = find_subslice_from (i + 1) r BLANK.
Proof.
  intros Hb. cbn [find_subslice_from]. rewrite bool_decide_eq_false_2; [done|].
  cbn [length BLANK take]. unfold BLANK. congruence.
Qed.

Lemma find_blank_cr c i r :
  c <> 13 -> find_subslice_from i (13 :: 10 :: c :: r) BLANK = find_subslice_from (i + 2) (c :: r) BLANK.
Proof.
  intros Hc. transitivity (find_subslice_from (i + 1) (10 :: c :: r) BLANK).
  - change (find_subslice_from i (13 :: 10 :: c :: r) BLANK) with
      (if bool_decide (take 4 (13 :: 10 :: c :: r) = BLANK) then Some i
       else find_subslice_from (i + 1) (10 :: c :: r) BLANK).
    rewrite bool_decide_eq_false_2; [done|]. cbn [take]. unfold BLANK. congruence.
  - rewrite find_blank_skip by done. f_equal. lia.
Qed.

Lemma find_blank_text l i r :
  Forall (fun b => b <> 13) l -> find_subslice_from i (l ++ r) BLANK = find_subslice_from (i + len l) r BLANK.
Proof.
  intros Hl. revert i. induction Hl as [|b l Hb _ IH]; intros i; [by rewrite len_nil, Z.add_0_r|].
  cbn [app]. rewrite find_blank_skip, IH by done. f_equal. len_lia.
Qed.

Lemma line_no_cr l : line_ok l -> Forall (fun b => b <> 13) l.
Proof. intros [_ Hl]. eapply Forall_impl; [exact Hl|]. simpl. lia. Qed.

(** The blank line ends the block. *)
Lemma find_blank_block l lines rest : forall i,
  Forall line_ok (l :: lines) ->
  find_subslice_from i (block (l :: lines) ++ CRLF ++ rest) BLANK = Some (i + len (block (l :: lines)) - 2).
Proof.
  revert l. induction lines as [|k lines IH]; intros l i Hf; apply Forall_cons_iff in Hf as [Hl Hf];
    rewrite block_cons, <- app_assoc, find_blank_text by (by apply line_no_cr).
  - cbn [block map concat app CRLF find_subslice_from]. f_equal. unfold block. cbn [map concat].
    rewrite len_app, !len_cons, len_nil. lia.
  - cbn [app]. assert (exists c r, block (k :: lines) ++ CRLF ++ rest = c :: r /\ c <> 13) as (c & r & Hr & Hc).
    { apply Forall_cons_iff in Hf as [[Hk Hp] _]. destruct k as [|c k]; [done|].
      exists c, (k ++ 13 :: 10 :: block lines ++ CRLF ++ rest). rewrite block_cons. cbn [app].
      rewrite <- app_assoc. split; [done|]. apply Forall_cons_iff in Hp as [? _]. lia. }
    pose proof (IH k (i + len l + 2) Hf) as IHk. rewrite Hr in IHk |- *.
    rewrite find_blank_cr, IHk by done. f_equal. rewrite len_app, !len_cons. lia.
Qed.

Lemma split_crlf_block lines rest :
  Forall line_ok lines -> split_crlf (block lines ++ rest) = lines ++ split_crlf rest.
Proof.
  induction 1 as [|l lines Hl _ IH]; [done|]. rewrite block_cons, <- app_assoc. cbn [app].
  rewrite split_crlf_line by (by apply line_no_cr). by rewrite IH.
Qed.

Lemma block_ascii lines : Forall line_ok lines -> Forall (fun b => 0 <= b < 128) (block lines).
Proof.
  induction 1 as [|l lines [_ Hl] _ IH]; [constructor|]. rewrite block_cons.
  apply Forall_app. split; [eapply Forall_impl; [exact Hl|]; simpl; lia|]. repeat constructor; (lia || done).
Qed.

Lemma filter_lines lines : Forall line_ok lines -> List.filter nonempty lines = lines.
Proof.
  induction 1 as [|l lines [Hl _] _ IH]; [done|]. cbn [List.filter]. rewrite (proj2 (nonempty_true l)) by done.
  by rewrite IH.
Qed.

(** The headers of a well-formed message parse line by line. *)
Lemma parse_head_block line lines :
  Forall line_ok (line :: lines) ->
  parse_head (block (line :: lines) ++ CRLF) =
  ('(method, target) ← parse_request_line line;
   h ← header_loop (mkHeaders 0 false None) lines;
   Ok (method, target, h)).
Proof.
  intros Hf. unfold parse_head. rewrite utf8_valid_ascii.
  2:{ apply Forall_app. split; [by apply block_ascii|]. repeat constructor; lia. }
  cbn [negb]. rewrite split_crlf_block by done. cbn [app head tail ok_or mbind result_bind].
  rewrite List.filter_app. cbn [split_crlf CRLF List.filter]. change (nonempty []) with false. cbv iota.
  apply Forall_cons_iff in Hf as [_ Hf]. by rewrite app_nil_r, filter_lines.
Qed.

(** ** What the client writes *)

Definition request_lines (c : LocalApiConnection) (method target : list Z) (n : Z) : list (list Z) :=
  [method ++ str " " ++ target ++ str " HTTP/1.1"; str "Host: " ++ display_socket_addr (api_listen c);
   str "Authorization: Bearer " ++ api_token c; str "Content-Length: " ++ decimal n; str "Connection: close"].

Definition word (l : list Z) : Prop := l <> [] /\ all visible l = true.

Definition connection_ok (c : LocalApiConnection) : Prop := socket_addr_ok (api_listen c) /\ word (api_token c).

Lemma str_printable s : all (fun b => in_range 32 126 b) (str s) = true -> Forall (fun b => 32 <= b <= 126) (str s).
Proof. intros Hs%all_true. eapply Forall_impl; [exact Hs|]. unfold in_range. simpl. lia. Qed.

Lemma request_lines_ok c m t n :
  connection_ok c -> word m -> word t -> 0 <= n -> Forall line_ok (request_lines c m t n).
Proof.
  intros (Ha & _ & Ht) [Hm1 Hm2] [_ Ht2] Hn. unfold request_lines.
  pose proof (fun s => line_ok_app (str s)) as Hs.
  repeat apply List.Forall_cons; try apply List.Forall_nil.
  - apply line_ok_app; [by apply line_ok_text|]. rewrite !Forall_app.
    split_and!; [by apply str_printable|by apply visible_printable|by apply str_printable].
  - apply Hs; [split; [done|by apply str_printable]|]. by apply visible_printable, display_visible.
  - apply Hs; [split; [done|by apply str_printable]|]. by apply visible_printable.
  - apply Hs; [split; [done|by apply str_printable]|]. by apply visible_printable, decimal_visible.
  - split; [done|]. by apply str_printable.
Qed.

Lemma parse_request_line_client m t :
  word m -> word t -> len t <= API_MAX_TARGET ->
  parse_request_line (m ++ str " " ++ t ++ str " HTTP/1.1") = Ok (m, t).
Proof.
  intros [Hm Hm'] [Ht Ht'] Hl. unfold parse_request_line.
  change (m ++ str " " ++ t ++ str " HTTP/1.1") with (m ++ 32 :: (t ++ 32 :: str "HTTP/1.1")).
  rewrite !split_whitespace_cons by done. change (split_whitespace (str "HTTP/1.1")) with [str "HTTP/1.1"].
  cbn [lookup list_lookup ok_or mbind result_bind]. rewrite bool_decide_eq_true_2 by done.
  rewrite bool_decide_eq_false_2 by (by intros [? ?]). cbn [negb orb].
  destruct (Z.gtb_spec (len t) API_MAX_TARGET); [lia|done].
Qed.

Lemma apply_header_named name value h s :
  s = name ++ 58 :: value -> Forall (fun b => b <> 58) name ->
  apply_header h s =
  (if eq_ignore_ascii_case name (str "content-length") then
     if saw_content_length h then Err (str "duplicate Content-Length header")
     else n ← ok_or (parse_unsigned USIZE_MAX (trim value)) (str "invalid Content-Length");
          Ok (mkHeaders n true (h_authorization h))
   else if eq_ignore_ascii_case name (str "authorization") then
     if bool_decide (is_Some (h_authorization h)) then Err (str "duplicate Authorization header")
     else Ok (mkHeaders (content_length h) (saw_content_length h) (Some (trim value)))
   else Ok h).
Proof. intros -> Hn. unfold apply_header. by rewrite split_once_first. Qed.

Lemma trim_word w : word w -> trim (32 :: w) = w.
Proof.
  intros [Hne Hv]. destruct w as [|b w]; [done|]. cbn [all forallb] in Hv. apply andb_true_iff in Hv as [Hb Hw].
  apply trim_padded; [by apply visible_ascii|done|]. intros c Hc. apply last_Some_elem_of in Hc.
  assert (all visible (b :: w) = true) as Hall%all_true by (cbn [all forallb]; by rewrite Hb, Hw).
  by eapply Forall_forall in Hall.
Qed.

Lemma header_loop_client c m t n :
  word (api_token c) -> 0 <= n <= USIZE_MAX ->
  header_loop (mkHeaders 0 false None) (tail (request_lines c m t n))
  = Ok (mkHeaders n true (Some (str "Bearer " ++ api_token c))).
Proof.
  intros Ht Hn. cbn [request_lines tail header_loop].
  rewrite (apply_header_named (str "Host") (32 :: display_socket_addr (api_listen c)))
    by (done || (repeat constructor; done)). cbn [eq_ignore_ascii_case mbind result_bind].
  change (eq_ignore_ascii_case (str "Host") (str "content-length")) with false.
  change (eq_ignore_ascii_case (str "Host") (str "authorization")) with false. cbn [mbind result_bind].
  rewrite (apply_header_named (str "Authorization") (32 :: str "Bearer " ++ api_token c))
    by (done || (repeat constructor; done)).
  change (eq_ignore_ascii_case (str "Authorization") (str "content-length")) with false.
  change (eq_ignore_ascii_case (str "Authorization") (str "authorization")) with true.
  cbn [h_authorization saw_content_length content_length]. rewrite bool_decide_eq_false_2 by (by intros [? ?]).
  cbn [mbind result_bind].
  rewrite (apply_header_named (str "Content-Length") (32 :: decimal n)) by (done || (repeat constructor; done)).
  change (eq_ignore_ascii_case (str "Content-Length") (str "content-length")) with true.
  cbn [saw_content_length h_authorization].
  destruct (decimal_value n ltac:(lia)) as [(Hne & _) _].
  rewrite (trim_word (decimal n)), parse_unsigned_decimal by (lia || (split; [done|apply decimal_visible; lia])).
  cbn [ok_or mbind result_bind].
  rewrite (apply_header_named (str "Connection") (32 :: str "close")) by (done || (repeat constructor; done)).
  change (eq_ignore_ascii_case (str "Connection") (str "content-length")) with false.
  change (eq_ignore_ascii_case (str "Connection") (str "authorization")) with false.
  cbn [mbind result_bind]. do 3 f_equal. destruct Ht as [Htne Htv].
  change (32 :: str "Bearer " ++ api_token c) with (32 :: 66 :: (str "earer " ++ api_token c)).
  rewrite trim_padded; [done|..].
  - apply Forall_app. split; [repeat constructor; lia|by apply visible_ascii].
  - done.
  - intros b Hb. change (66 :: (str "earer " ++ api_token c)) with (str "Bearer " ++ api_token c) in Hb.
    rewrite last_app in Hb. destruct (last (api_token c)) as [x|] eqn:El.
    + injection Hb as <-. apply last_Some_elem_of in El. apply all_true in Htv. by eapply Forall_forall in Htv.
    + by apply last_None in El.
Qed.

Section ExchangeFacts.
Context `{JsonLaws}.

(** The body the client sends: nothing for a request without a document. *)
Definition encoded_body (v : option Value) : list Z := match v with Some v => to_vec v | None => [] end.

Lemma request_bytes_block c m t v :
  request_bytes c m t v
  = block (request_lines c m t (len (encoded_body v))) ++ CRLF ++ encoded_body v.
Proof.
  unfold request_bytes, block, request_lines, encoded_body. cbn [map concat].
  rewrite app_nil_r, <- !app_assoc. reflexivity.
Qed.

Definition client_request (c : LocalApiConnection) (m t : list Z) (v : option Value) : HttpRequest :=
  mkHttpRequest m t (Some (str "Bearer " ++ api_token c)) (encoded_body v).

Lemma client_request_frame c m t v :
  connection_ok c -> word m -> word t -> len t <= API_MAX_TARGET ->
  len (request_bytes c m t v) <= API_MAX_REQUEST ->
  request_frame (client_request c m t v) (request_bytes c m t v).
Proof using Type.
  intros Hc Hm Ht Htl Hl. rewrite request_bytes_block in *. set (lines := request_lines _ _ _ _) in *.
  assert (Forall line_ok lines) as Hlines by (apply request_lines_ok; try done; apply len_nonneg).
  exists (block lines ++ CRLF), (mkHeaders (len (encoded_body v)) true (Some (str "Bearer " ++ api_token c))).
  cbn [client_request body method target authorization h_authorization content_length].
  split_and!; try done.
  - by rewrite <- app_assoc.
  - unfold find_subslice, lines, request_lines. rewrite find_blank_block by exact Hlines. f_equal.
    rewrite len_app. change (len CRLF) with 2. lia.
  - unfold lines, request_lines. rewrite parse_head_block by exact Hlines.
    rewrite parse_request_line_client by done. cbn [mbind result_bind].
    pose proof (header_loop_client c m t (len (encoded_body v)) (proj2 Hc)) as Hh.
    cbn [request_lines tail] in Hh. rewrite Hh; [done|].
    rewrite !len_app in Hl. unfold API_MAX_REQUEST, USIZE_MAX, U64_MAX in *. len_lia.
Qed.

(** ** What the client reads *)

Definition response_lines (status : Z) (n : Z) : list (list Z) :=
  [str "HTTP/1.1 " ++ decimal status ++ str " " ++ reason status; str "Content-Type: application/json";
   str "Content-Length: " ++ decimal n; str "Connection: close"].

Lemma response_bytes_block status v :
  response_bytes status v = block (response_lines status (len (to_vec v))) ++ CRLF ++ to_vec v.
Proof.
  unfold response_bytes, block, response_lines. cbn [map concat]. rewrite app_nil_r, <- !app_assoc. reflexivity.
Qed.

Lemma reason_printable status : Forall (fun b => 32 <= b <= 126) (reason status).
Proof. unfold reason. repeat case_match; by apply str_printable. Qed.

Lemma response_lines_ok status n : 0 <= status -> 0 <= n -> Forall line_ok (response_lines status n).
Proof.
  intros Hs Hn. unfold response_lines. repeat apply List.Forall_cons; try apply List.Forall_nil.
  - apply line_ok_app; [split; [done|by apply str_printable]|]. rewrite !Forall_app.
    split_and!; [by apply visible_printable, decimal_visible|by apply str_printable|apply reason_printable].
  - split; [done|by apply str_printable].
  - apply line_ok_app; [split; [done|by apply str_printable]|]. by apply visible_printable, decimal_visible.
  - split; [done|by apply str_printable].
Qed.

(** The verdict of the client on a status and a document. *)
Definition verdict (status : Z) (v : Value) : result ClientError Value :=
  if (200 <=? status) && (status <? 300) then Ok v
  else Err (HttpError status (default (str "local API request failed") (error_message v))).

Lemma find_blank_lines lines rest :
  Forall line_ok lines -> lines <> [] ->
  find_subslice (block lines ++ CRLF ++ rest) BLANK = Some (len (block lines) - 2) /\ 2 <= len (block lines).
Proof using Type.
  intros Hl Hne. destruct lines as [|l lines]; [done|]. unfold find_subslice.
  rewrite find_blank_block, block_cons by done. split; [done|]. rewrite len_app, !len_cons. len_lia.
Qed.

Lemma take_less (p l : list Z) n :
  0 <= n <= len l -> take (Z.to_nat (len (p ++ l) - n)) (p ++ l) = p ++ take (Z.to_nat (len l - n)) l.
Proof using Type.
  intros Hn. rewrite len_app, take_app_ge by (unfold len in *; lia). f_equal. f_equal. unfold len in *. lia.
Qed.

Lemma parse_response_bytes status v :
  0 <= status <= U16_MAX -> value_ok v -> parse_response (response_bytes status v) = verdict status v.
Proof.
  intros Hs Hv. rewrite response_bytes_block. set (lines := response_lines _ _).
  assert (Forall line_ok lines) as Hlines by (apply response_lines_ok; [lia|apply len_nonneg]).
  destruct (find_blank_lines lines (to_vec v) Hlines ltac:(done)) as [Hfind Hlen].
  unfold parse_response. rewrite Hfind. cbn [ok_or mbind result_bind].
  rewrite take_app_le by (unfold len in *; lia).
  rewrite utf8_valid_ascii by (by apply Forall_take, block_ascii). cbn [negb].
  assert (exists x, take (Z.to_nat (len (block lines) - 2)) (block lines)
    = str "HTTP/1.1" ++ 32 :: decimal status ++ 32 :: x) as [x ->].
  { unfold lines, response_lines. rewrite block_cons. set (tl := block _).
    set (more := reason status ++ 13 :: 10 :: tl).
    assert ((str "HTTP/1.1 " ++ decimal status ++ str " " ++ reason status) ++ 13 :: 10 :: tl
      = (str "HTTP/1.1" ++ 32 :: decimal status ++ [32]) ++ more) as ->.
    { change (str "HTTP/1.1 ") with (str "HTTP/1.1" ++ [32]). change (str " ") with [32]. unfold more.
      rewrite <- !app_assoc. cbn [app]. by rewrite <- !app_assoc. }
    rewrite take_less by (unfold more; rewrite len_app, !len_cons; len_lia).
    exists (take (Z.to_nat (len more - 2)) more). rewrite <- app_assoc. cbn [app]. by rewrite <- app_assoc. }
  destruct (decimal_value status ltac:(lia)) as [(Hne & _) _].
  rewrite split_whitespace_cons by done.
  rewrite split_whitespace_cons by (done || (apply decimal_visible; lia)).
  cbn [lookup list_lookup ok_or mbind result_bind]. rewrite parse_unsigned_decimal by done.
  cbn [ok_or mbind result_bind].
  assert (drop (Z.to_nat (len (block lines) - 2 + 4)) (block lines ++ CRLF ++ to_vec v) = to_vec v) as ->.
  { rewrite app_assoc. replace (len (block lines) - 2 + 4) with (len (block lines ++ CRLF))
      by (rewrite len_app; change (len CRLF) with 2; lia). unfold len. by rewrite Nat2Z.id, drop_app_length. }
  rewrite from_to_vec by done. cbn [ok_or mbind result_bind]. unfold verdict.
  by destruct (200 <=? status), (status <? 300).
Qed.

(** The two sides of the local API understand each other.  Whatever the cuts, the
    daemon reads what [LocalApiClient::request] wrote: its method, its target, the bearer
    token and the document; and the client reads what [write_response] wrote: the
    document for a success, the status and the daemon's message for anything else. *)
Theorem http_exchange (c : LocalApiConnection) (m t : list Z) (v : option Value) :
  connection_ok c -> word m -> word t -> len t <= API_MAX_TARGET ->
  len (request_bytes c m t v) <= API_MAX_REQUEST ->
  (forall frags rest failure, Forall filled frags -> concat frags = request_bytes c m t v ->
     read_request (mkIncoming (frags ++ rest) failure)
     = Ok (mkHttpRequest m t (Some (str "Bearer " ++ api_token c)) (encoded_body v)))
  /\ (forall status value, 0 <= status <= U16_MAX -> value_ok value ->
       parse_response (response_bytes status value) = verdict status value).
Proof.
  intros Hc Hm Ht Htl Hl. split; [|intros; by apply parse_response_bytes].
  intros frags rest failure Hf Hq. eapply read_request_complete; [done|done|].
  rewrite Hq. by apply client_request_frame.
Qed.
End ExchangeFacts.

(** ** Witnesses *)

Import ToyJson.

Definition sample_connection : LocalApiConnection :=
  mkConnection (mkSocketAddr (V4 [127; 0; 0; 1]) 0 7331) (replicate 32 97).

Definition sample_request : list Z :=
  request_bytes sample_connection (str "GET") (str "/v1/health") None.

Lemma http_exchange_witness :
  read_request (mkIncoming [take 7 sample_request; drop 7 sample_request] [])
  = Ok (mkHttpRequest (str "GET") (str "/v1/health") (Some (str "Bearer " ++ replicate 32 97)) [])
  /\ parse_response (response_bytes 404 (error_json (str "a") (str "b")))
     = Err (HttpError 404 (str "b")).
Proof.
  destruct (http_exchange sample_connection (str "GET") (str "/v1/health") None) as [H1 H2].
  - split; [|split; [done|reflexivity]]. repeat split; try (vm_compute; congruence).
    all: repeat constructor; vm_compute; congruence.
  - split; [done|reflexivity].
  - split; [done|reflexivity].
  - vm_compute. congruence.
  - vm_compute. congruence.
  - split.
    + apply (H1 [take 7 sample_request; drop 7 sample_request] []); [|reflexivity].
      repeat constructor; vm_compute; congruence.
    + apply (H2 404); [vm_compute; split; congruence|].
      repeat split; try reflexivity; repeat constructor.
Defined.
