(* ===== verification/Core.v ===== *)
(** * Core: content identifiers, manifests and chunks (crates/triptorrent-core)

    Identifiers are 32-byte digests; a manifest describes a file as a list of
    32 KiB chunk digests.  Theorems: [from_bytes] and [reconstruct] are inverse,
    [reconstruct] accepts exactly the ordered, verified chunk lists, a chunk list
    accepted for an honest manifest is the honest one or exhibits a digest
    collision, and [from_bytes] produces shapes that [validate_shape] accepts. *)
From stdpp Require Import base tactics list numbers option.
From Stdlib Require Import ZArith Lia.
From Stdlib Require String.
From S2P Require Import Prelude Bytes Instances.
Import stdpp.list.

Local Open Scope Z_scope.

(** ** Constants *)

Definition PROTOCOL_VERSION : Z := 1.
Definition NETWORK_ID : list Z := str "triptorrent-testnet-1".
Definition DISCOVERY_PROFILE : list Z := str "m2-testnet-bootstrap-v1".
Definition CHUNK_SIZE : Z := 32 * 1024.
Definition MAX_MANIFEST_CHUNKS : Z := 1048576.
Definition MAX_CONTENT_LENGTH : Z := 32 * 1024 * 1048576.

(** ** Data *)

(** The newtypes around [[u8; 32]]. *)
Abbreviation ContentId := (list Z).
Abbreviation PeerId := (list Z).
Abbreviation ChunkId := (list Z).

(** A well-formed [[u8; 32]]. *)
Definition id_ok (l : list Z) : Prop := len l = 32 /\ bytes_ok l.

Record Manifest := mkManifest {
  m_content_id : ContentId;
  m_length : Z;
  m_chunk_size : Z;
  m_chunks : list ChunkId
}.

Record Chunk := mkChunk {
  c_index : Z;
  c_id : ChunkId;
  c_data : list Z
}.

#[export] Instance Manifest_eq_dec : EqDecision Manifest.
Proof. solve_decision. Defined.
#[export] Instance Chunk_eq_dec : EqDecision Chunk.
Proof. solve_decision. Defined.

Inductive ContentError :=
| InvalidIndex (index : Z)
| InvalidChunk (index : Z)
| WrongChunkCount (expected actual : Z)
| InvalidContent
| TooManyChunks
| InvalidChunkSize
| InvalidManifestShape
| ContentTooLarge.

Inductive ParseIdError :=
| ParseHex
| ParseLength (got : Z).

#[export] Instance ContentError_eq_dec : EqDecision ContentError.
Proof. solve_decision. Defined.
#[export] Instance ParseIdError_eq_dec : EqDecision ParseIdError.
Proof. solve_decision. Defined.

(** The field types of a manifest and of a chunk ([u64], [u32], [[u8; 32]]). *)
Definition manifest_ok (m : Manifest) : Prop :=
  id_ok (m_content_id m) /\ 0 <= m_length m <= U64_MAX /\ 0 <= m_chunk_size m <= U32_MAX
  /\ Forall id_ok (m_chunks m).

Definition chunk_ok (c : Chunk) : Prop :=
  0 <= c_index c <= U32_MAX /\ id_ok (c_id c) /\ bytes_ok (c_data c).

Section Digests.
Context `{Blake3}.

Definition ContentId_digest (bytes : list Z) : ContentId := blake3_hash bytes.
Definition PeerId_from_public_key (public_key : list Z) : PeerId := blake3_hash public_key.
Definition ChunkId_digest (bytes : list Z) : ChunkId := blake3_hash bytes.

(** [Manifest::from_bytes] *)
Definition Manifest_from_bytes (bytes : list Z) : result ContentError (Manifest * list Chunk) :=
  if default U64_MAX (try_from U64_MAX (len bytes)) >? MAX_CONTENT_LENGTH
  then Err ContentTooLarge
  else
    chunks ← map_result (fun '(index, data) =>
               index ← ok_or (try_from U32_MAX index) TooManyChunks;
               Ok (mkChunk index (ChunkId_digest data) data))
             (enumerate (chunks (Z.to_nat CHUNK_SIZE) bytes));
    length ← ok_or (try_from U64_MAX (len bytes)) TooManyChunks;
    Ok (mkManifest (ContentId_digest bytes) length (32 * 1024) (map c_id chunks), chunks).

(** [Manifest::validate_shape] *)
Definition validate_shape (m : Manifest) : result ContentError unit :=
  if negb (bool_decide (try_from USIZE_MAX (m_chunk_size m) = Some CHUNK_SIZE))
  then Err InvalidChunkSize
  else if (m_length m >? MAX_CONTENT_LENGTH) || (len (m_chunks m) >? MAX_MANIFEST_CHUNKS)
  then Err ContentTooLarge
  else
    let expected := div_ceil (m_length m) (m_chunk_size m) in
    if negb (bool_decide (try_from USIZE_MAX expected = Some (len (m_chunks m))))
    then Err InvalidManifestShape
    else Ok tt.

(** [Manifest::verify_chunk] *)
Definition verify_chunk (m : Manifest) (chunk : Chunk) : result ContentError unit :=
  index ← ok_or (try_from USIZE_MAX (c_index chunk)) (InvalidIndex (c_index chunk));
  expected ← ok_or (get (m_chunks m) index) (InvalidIndex (c_index chunk));
  if negb (bool_decide (c_id chunk = expected))
     || negb (bool_decide (ChunkId_digest (c_data chunk) = expected))
  then Err (InvalidChunk (c_index chunk))
  else Ok tt.

(** The loop of [Manifest::reconstruct]. *)
Fixpoint reconstruct_loop (m : Manifest) (chunks : list (Z * Chunk)) (bytes : list Z)
  : result ContentError (list Z) :=
  match chunks with
  | [] => Ok bytes
  | (index, chunk) :: chunks =>
      if negb (bool_decide (try_from USIZE_MAX (c_index chunk) = Some index))
      then Err (InvalidIndex (c_index chunk))
      else
        _ ← verify_chunk m chunk;
        reconstruct_loop m chunks (bytes ++ c_data chunk)
  end.

(** [Manifest::reconstruct] *)
Definition reconstruct (m : Manifest) (chunks : list Chunk) : result ContentError (list Z) :=
  if negb (len chunks =? len (m_chunks m))
  then Err (WrongChunkCount (len (m_chunks m)) (len chunks))
  else
    bytes ← reconstruct_loop m (enumerate chunks) [];
    if negb (bool_decide (try_from U64_MAX (len bytes) = Some (m_length m)))
       || negb (bool_decide (ContentId_digest bytes = m_content_id m))
    then Err InvalidContent
    else Ok bytes.
End Digests.

Section Text.
Context `{Hex}.

(** [Display] for [ContentId] and [PeerId] *)
Definition ContentId_to_string (id : ContentId) : list Z := hex_encode id.
Definition PeerId_to_string (id : PeerId) : list Z := hex_encode id.

(** [FromStr] for [ContentId] *)
Definition ContentId_from_str (value : list Z) : result ParseIdError ContentId :=
  decoded ← ok_or (hex_decode value) ParseHex;
  if len decoded =? 32 then Ok decoded else Err (ParseLength (len value)).
End Text.

(** ** Facts *)

Lemma CHUNK_SIZE_nat : Z.of_nat (Z.to_nat CHUNK_SIZE) = CHUNK_SIZE.
Proof. rewrite Z2Nat.id; done. Qed.

Lemma CHUNK_SIZE_pos : (0 < Z.to_nat CHUNK_SIZE)%nat.
Proof. apply Nat2Z.inj_lt. rewrite CHUNK_SIZE_nat. done. Qed.
#[global] Opaque CHUNK_SIZE.

Lemma CHUNK_SIZE_val : CHUNK_SIZE = 32768.
Proof. Transparent CHUNK_SIZE. reflexivity. Opaque CHUNK_SIZE. Qed.

Section CoreFacts.
Context `{Blake3}.

(** The chunk [from_bytes] makes of piece [index]. *)
Definition honest_chunk (p : Z * list Z) : Chunk :=
  mkChunk p.1 (ChunkId_digest p.2) p.2.

(** The chunks and the manifest [from_bytes] returns for [bytes]. *)
Definition honest_chunks (bytes : list Z) : list Chunk :=
  map honest_chunk (enumerate (chunks (Z.to_nat CHUNK_SIZE) bytes)).
Definition honest_manifest (bytes : list Z) : Manifest :=
  mkManifest (ContentId_digest bytes) (len bytes) 32768 (map c_id (honest_chunks bytes)).

Lemma len_honest_chunks bytes :
  len (honest_chunks bytes) = div_ceil (len bytes) CHUNK_SIZE.
Proof.
  unfold honest_chunks, enumerate. autorewrite with len.
  rewrite len_chunks by apply CHUNK_SIZE_pos. by rewrite CHUNK_SIZE_nat.
Qed.

Lemma div_ceil_chunk_bound n :
  0 <= n <= MAX_CONTENT_LENGTH -> 0 <= div_ceil n CHUNK_SIZE <= MAX_MANIFEST_CHUNKS.
Proof.
  intros Hn. rewrite CHUNK_SIZE_val. unfold MAX_CONTENT_LENGTH, MAX_MANIFEST_CHUNKS in *.
  pose proof (div_ceil_spec n 32768). lia.
Qed.

Lemma from_bytes_accepts bytes :
  len bytes <= MAX_CONTENT_LENGTH ->
  Manifest_from_bytes bytes = Ok (honest_manifest bytes, honest_chunks bytes).
Proof.
  intros Hlen. unfold Manifest_from_bytes. pose proof (len_nonneg bytes) as Hpos.
  rewrite (proj2 (try_from_Some U64_MAX (len bytes) (len bytes)))
    by (unfold MAX_CONTENT_LENGTH, U64_MAX in *; lia).
  simpl default. destruct (Z.gtb_spec (len bytes) MAX_CONTENT_LENGTH); [lia|].
  rewrite (map_result_pure _ honest_chunk); [done|].
  apply Forall_forall. intros [index data] Hin.
  apply get_enumerate in Hin as [_ Hr].
  rewrite len_chunks in Hr by apply CHUNK_SIZE_pos. rewrite CHUNK_SIZE_nat in Hr.
  pose proof (div_ceil_chunk_bound (len bytes) ltac:(lia)).
  rewrite (proj2 (try_from_Some U32_MAX index index))
    by (unfold MAX_MANIFEST_CHUNKS, U32_MAX in *; lia). done.
Qed.

Lemma from_bytes_Ok bytes m cs :
  Manifest_from_bytes bytes = Ok (m, cs) <->
  len bytes <= MAX_CONTENT_LENGTH /\ m = honest_manifest bytes /\ cs = honest_chunks bytes.
Proof.
  destruct (Z.le_gt_cases (len bytes) MAX_CONTENT_LENGTH) as [Hle|Hgt].
  - rewrite from_bytes_accepts by done. naive_solver.
  - unfold Manifest_from_bytes.
    replace (default U64_MAX (try_from U64_MAX (len bytes)) >? MAX_CONTENT_LENGTH) with true.
    { split; [done|lia]. }
    symmetry. apply Z.gtb_lt. destruct (try_from U64_MAX (len bytes)) eqn:E; simpl.
    + apply try_from_Some in E as [<- _]. lia.
    + unfold MAX_CONTENT_LENGTH, U64_MAX. lia.
Qed.

(** The chunk at position [j] is the one the manifest lists there. *)
Definition chunk_good (m : Manifest) (p : Z * Chunk) : Prop :=
  c_index p.2 = p.1 /\ get (m_chunks m) p.1 = Some (c_id p.2)
  /\ ChunkId_digest (c_data p.2) = c_id p.2.

Lemma verify_chunk_Ok m c :
  verify_chunk m c = Ok tt <->
  c_index c <= USIZE_MAX /\ get (m_chunks m) (c_index c) = Some (c_id c)
  /\ ChunkId_digest (c_data c) = c_id c.
Proof.
  unfold verify_chunk. split.
  - intros Hv. invert_ok. apply try_from_Some in Ha as [<- Hr].
    destruct (bool_decide_reflect (c_id c = a0)) as [<-|]; simpl in *; [|done].
    destruct (bool_decide_reflect (ChunkId_digest (c_data c) = c_id c)); simpl in *; [|done].
    split_and!; [lia|done|done].
  - intros (Hr & Hget & Hd). pose proof (get_Some_range _ _ _ Hget).
    rewrite (proj2 (try_from_Some _ _ (c_index c))) by lia. simpl.
    rewrite Hget. simpl. by rewrite Hd, !bool_decide_eq_true_2 by done.
Qed.

Lemma reconstruct_loop_Ok m cs i acc b :
  0 <= i -> i + len cs <= USIZE_MAX ->
  reconstruct_loop m (enumerate_from i cs) acc = Ok b <->
  Forall (chunk_good m) (enumerate_from i cs) /\ b = acc ++ concat (map c_data cs).
Proof.
  revert i acc. induction cs as [|c cs IH]; intros i acc Hi Hb; simpl.
  { rewrite app_nil_r. naive_solver. }
  autorewrite with len in Hb. pose proof (len_nonneg cs).
  rewrite Forall_cons_iff. unfold chunk_good at 1. simpl.
  destruct (bool_decide_reflect (try_from USIZE_MAX (c_index c) = Some i)) as [Htf|Htf]; simpl.
  - apply try_from_Some in Htf as [<- ?].
    destruct (verify_chunk m c) as [[]|e] eqn:Hv; simpl.
    + apply verify_chunk_Ok in Hv as (_ & ? & ?).
      rewrite IH by lia. rewrite <- app_assoc. naive_solver.
    + split; [done|]. intros [[(_ & Hget & Hd) _] _].
      assert (verify_chunk m c = Ok tt) as Hc by (apply verify_chunk_Ok; split_and!; [lia|done|done]).
      congruence.
  - split; [done|]. intros [[(Hci & Hget & _) _] _]. exfalso. apply Htf.
    apply try_from_Some. lia.
Qed.

Lemma reconstruct_Ok m cs b :
  len cs <= USIZE_MAX -> m_length m <= U64_MAX ->
  reconstruct m cs = Ok b <->
  len cs = len (m_chunks m) /\ Forall (chunk_good m) (enumerate cs)
  /\ b = concat (map c_data cs) /\ len b = m_length m /\ ContentId_digest b = m_content_id m.
Proof.
  intros Hcs Hlen. unfold reconstruct.
  destruct (Z.eqb_spec (len cs) (len (m_chunks m))) as [Heq|]; simpl; [|split; [done|naive_solver]].
  pose proof (reconstruct_loop_Ok m cs 0 [] ) as Hloop. simpl in Hloop.
  split.
  - intros Hr. invert_ok. apply Hloop in Ha as [Hg ->]; [|lia..].
    destruct (bool_decide_reflect (try_from U64_MAX (len (concat (map c_data cs))) = Some (m_length m)))
      as [Hl|]; simpl in Hr; [|done].
    destruct (bool_decide_reflect (ContentId_digest (concat (map c_data cs)) = m_content_id m));
      simpl in Hr; [|done].
    apply try_from_Some in Hl as [Hl _]. invert_ok. split_and!; done.
  - intros (_ & Hg & -> & Hl & Hd). unfold enumerate in *.
    rewrite (proj2 (Hloop (concat (map c_data cs)) ltac:(lia) ltac:(lia)) (conj Hg eq_refl)). simpl.
    rewrite (proj2 (try_from_Some U64_MAX _ (m_length m))) by len_lia.
    by rewrite Hd, !bool_decide_eq_true_2 by done.
Qed.

Lemma honest_chunks_good bytes : Forall (chunk_good (honest_manifest bytes)) (enumerate (honest_chunks bytes)).
Proof.
  apply Forall_forall. intros [j c] Hin. apply get_enumerate in Hin as [Hget Hr].
  unfold chunk_good. simpl.
  unfold get in Hget |- *. destruct (Z.leb_spec 0 j); [|done].
  unfold honest_manifest, m_chunks. rewrite list_lookup_fmap, Hget. simpl.
  unfold honest_chunks in Hget. rewrite list_lookup_fmap in Hget.
  unfold enumerate in Hget. rewrite enumerate_from_lookup in Hget.
  destruct (chunks _ bytes !! Z.to_nat j) eqn:E; simplify_eq/=.
  unfold honest_chunk; simpl. split_and!; [lia|done|done].
Qed.

Lemma honest_chunks_data bytes : concat (map c_data (honest_chunks bytes)) = bytes.
Proof.
  unfold honest_chunks. rewrite map_map. simpl.
  replace (map (fun x => x.2) (enumerate (chunks (Z.to_nat CHUNK_SIZE) bytes)))
    with (chunks (Z.to_nat CHUNK_SIZE) bytes).
  - apply concat_chunks, CHUNK_SIZE_pos.
  - symmetry. apply map_snd_enumerate_from.
Qed.

Lemma validate_shape_Ok m :
  validate_shape m = Ok tt <->
  m_chunk_size m = CHUNK_SIZE /\ m_length m <= MAX_CONTENT_LENGTH
  /\ len (m_chunks m) <= MAX_MANIFEST_CHUNKS
  /\ len (m_chunks m) = div_ceil (m_length m) CHUNK_SIZE.
Proof.
  unfold validate_shape. pose proof (len_nonneg (m_chunks m)).
  destruct (bool_decide_reflect (try_from USIZE_MAX (m_chunk_size m) = Some CHUNK_SIZE)) as [Hs|Hs].
  - apply try_from_Some in Hs as [Hs _]. rewrite Hs. simpl.
    destruct (Z.gtb_spec (m_length m) MAX_CONTENT_LENGTH); simpl; [split; [done|lia]|].
    destruct (Z.gtb_spec (len (m_chunks m)) MAX_MANIFEST_CHUNKS); simpl; [split; [done|lia]|].
    destruct (bool_decide_reflect
      (try_from USIZE_MAX (div_ceil (m_length m) CHUNK_SIZE) = Some (len (m_chunks m)))) as [Hd|Hd]; simpl.
    + apply try_from_Some in Hd as [Hd _]. naive_solver.
    + split; [done|]. intros (_ & _ & _ & Hd'). exfalso. apply Hd, try_from_Some.
      unfold USIZE_MAX, U64_MAX, MAX_MANIFEST_CHUNKS in *. lia.
  - simpl. split; [done|]. intros [Hc _]. exfalso. apply Hs, try_from_Some.
    rewrite Hc, CHUNK_SIZE_val. unfold USIZE_MAX, U64_MAX. lia.
Qed.

Lemma honest_manifest_shape bytes :
  len bytes <= MAX_CONTENT_LENGTH -> validate_shape (honest_manifest bytes) = Ok tt.
Proof.
  intros Hlen. pose proof (div_ceil_chunk_bound (len bytes) ltac:(len_lia)).
  apply validate_shape_Ok. unfold honest_manifest; simpl. rewrite len_map, len_honest_chunks.
  split_and!; [by rewrite CHUNK_SIZE_val|done|lia|done].
Qed.

Lemma honest_reconstruct bytes :
  len bytes <= MAX_CONTENT_LENGTH -> reconstruct (honest_manifest bytes) (honest_chunks bytes) = Ok bytes.
Proof.
  intros Hlen. pose proof (div_ceil_chunk_bound (len bytes) ltac:(len_lia)). apply reconstruct_Ok.
  - rewrite len_honest_chunks. unfold USIZE_MAX, U64_MAX, MAX_MANIFEST_CHUNKS in *. lia.
  - simpl. unfold MAX_CONTENT_LENGTH, U64_MAX in *. lia.
  - simpl. rewrite len_map, honest_chunks_data. split_and!; try done. apply honest_chunks_good.
Qed.
End CoreFacts.

(** ** Properties *)

(** C28: content within the bound has a manifest of valid shape, and reconstructing
    from the manifest and its own chunks gives the bytes back; content above the
    bound is refused with [ContentTooLarge], so that the 32-bit index error the
    documentation announces is never returned. *)
Theorem manifest_roundtrip `{Blake3} (bytes : list Z) :
  if len bytes <=? MAX_CONTENT_LENGTH
  then exists m cs,
    Manifest_from_bytes bytes = Ok (m, cs)
    /\ validate_shape m = Ok tt
    /\ reconstruct m cs = Ok bytes
  else Manifest_from_bytes bytes = Err ContentTooLarge.
Proof.
  destruct (Z.leb_spec (len bytes) MAX_CONTENT_LENGTH) as [Hlen|Hgt].
  - exists (honest_manifest bytes), (honest_chunks bytes).
    split_and!; [by apply from_bytes_accepts|by apply honest_manifest_shape|by apply honest_reconstruct].
  - unfold Manifest_from_bytes.
    replace (default U64_MAX (try_from U64_MAX (len bytes)) >? MAX_CONTENT_LENGTH) with true; [done|].
    symmetry. apply Z.gtb_lt. destruct (try_from U64_MAX (len bytes)) eqn:E; simpl; [|done].
    apply try_from_Some in E as [<- _]. lia.
Qed.

(** C5: [reconstruct] accepts exactly the chunk lists that are complete, in
    order and verified one by one against the manifest, whose concatenation has
    the manifest's length and content identifier; it returns that
    concatenation. *)
Theorem reconstruct_exact `{Blake3} (m : Manifest) (cs : list Chunk) (b : list Z) :
  len cs <= USIZE_MAX -> m_length m <= U64_MAX ->
  reconstruct m cs = Ok b <->
  len cs = len (m_chunks m)
  /\ (forall i c, get cs i = Some c ->
        c_index c = i /\ verify_chunk m c = Ok tt)
  /\ b = concat (map c_data cs) /\ len b = m_length m /\ blake3_hash b = m_content_id m.
Proof.
  intros Hcs Hm. rewrite reconstruct_Ok by done.
  assert (Forall (chunk_good m) (enumerate cs) <->
    (forall i c, get cs i = Some c -> c_index c = i /\ verify_chunk m c = Ok tt)) as ->; [|done].
  rewrite Forall_forall. split.
  - intros Hg i c Hc. pose proof (get_Some_range _ _ _ Hc).
    destruct (Hg (i, c)) as (Hi & Hget & Hd).
    { apply list_elem_of_lookup. exists (Z.to_nat i). unfold enumerate.
      rewrite enumerate_from_lookup. unfold get in Hc. destruct (Z.leb_spec 0 i); [|done].
      rewrite Hc. simpl. do 2 f_equal. lia. }
    simpl in *. split; [done|]. apply verify_chunk_Ok. rewrite Hi. split_and!; [lia|done|done].
  - intros Hv [i c] Hin. apply get_enumerate in Hin as [Hc _].
    destruct (Hv i c Hc) as [Hi Hver]. apply verify_chunk_Ok in Hver as (_ & ? & ?).
    unfold chunk_good. simpl. rewrite <- Hi. split_and!; done.
Qed.

(** C6: a chunk list accepted for the manifest of [bytes] is the list
    [from_bytes] produced, and gives [bytes], unless two different chunks have
    the same BLAKE3 digest. *)
Theorem reconstruct_tamper_evident `{Blake3} (bytes b : list Z) (m : Manifest) (cs0 cs : list Chunk) :
  Manifest_from_bytes bytes = Ok (m, cs0) ->
  reconstruct m cs = Ok b ->
  len cs <= USIZE_MAX ->
  (cs = cs0 /\ b = bytes)
  \/ exists i c c0, cs !! i = Some c /\ cs0 !! i = Some c0
       /\ c_data c <> c_data c0 /\ blake3_hash (c_data c) = blake3_hash (c_data c0).
Proof.
  intros Hf Hr Hcs. apply from_bytes_Ok in Hf as (Hlen & -> & ->).
  apply reconstruct_Ok in Hr as (Hn & Hg & -> & _ & _);
    [|done|simpl; unfold MAX_CONTENT_LENGTH, U64_MAX in *; lia].
  destruct (decide (cs = honest_chunks bytes)) as [->|Hne].
  { left. split; [done|]. apply honest_chunks_data. }
  right. simpl in Hn. rewrite len_map in Hn. unfold len in Hn.
  destruct (list_differ cs (honest_chunks bytes)) as (i & c & c0 & Hc & Hc0 & Hd); [lia|done|].
  exists i, c, c0. split_and!; try done; clear Hne.
  all: pose proof (honest_chunks_good bytes) as Hg0.
  all: rewrite Forall_forall in Hg, Hg0.
  all: destruct (Hg (Z.of_nat i, c)) as (Hi & Hget & Hdig);
    [apply list_elem_of_lookup; exists i; unfold enumerate;
     by rewrite enumerate_from_lookup, Hc|].
  all: destruct (Hg0 (Z.of_nat i, c0)) as (Hi0 & Hget0 & Hdig0);
    [apply list_elem_of_lookup; exists i; unfold enumerate;
     by rewrite enumerate_from_lookup, Hc0|].
  all: simpl in *; rewrite Hget in Hget0; injection Hget0 as Hid.
  - intros Heq. apply Hd. destruct c, c0; simpl in *. congruence.
  - unfold ChunkId_digest in *. congruence.
Qed.

(** The text form of an identifier parses back to it, and only strings of
    64 characters parse. *)
Theorem content_id_text_roundtrip `{HexLaws} :
  (forall id : ContentId, id_ok id -> ContentId_from_str (ContentId_to_string id) = Ok id)
  /\ (forall s id, ContentId_from_str s = Ok id -> len s = 64 /\ id_ok id).
Proof.
  split.
  - intros id [Hl Hb]. unfold ContentId_from_str, ContentId_to_string.
    rewrite hex_decode_encode by done. simpl. by rewrite Hl.
  - intros s id Hs. unfold ContentId_from_str in Hs. invert_ok.
    destruct (Z.eqb_spec (len a) 32) as [Hl|]; [|done]. invert_ok.
    split; [apply hex_decode_len in Ha; lia|]. split; [done|]. by eapply hex_decode_bytes.
Qed.

(** ** The properties at concrete inputs *)

#[local] Existing Instance Toy.toy_blake3.
#[local] Existing Instance Toy.toy_hex.
#[local] Existing Instance Toy.toy_hex_laws.

(** The manifest and the chunk of a one-chunk file. *)
Definition sample_manifest : Manifest :=
  mkManifest (Toy.checksum (str "abc")) 3 32768 [Toy.checksum (str "abc")].
Definition sample_chunk : Chunk := mkChunk 0 (Toy.checksum (str "abc")) (str "abc").

Lemma reconstruct_exact_witness :
  reconstruct sample_manifest [sample_chunk] = Ok (str "abc")
  /\ len [sample_chunk] = len (m_chunks sample_manifest).
Proof.
  split; [vm_compute; reflexivity|].
  apply (reconstruct_exact sample_manifest [sample_chunk] (str "abc"));
    [vm_compute; discriminate|vm_compute; discriminate|vm_compute; reflexivity].
Defined.

Lemma reconstruct_tamper_evident_witness :
  ([sample_chunk] = [sample_chunk] /\ str "abc" = str "abc")
  \/ exists i c c0, [sample_chunk] !! i = Some c /\ [sample_chunk] !! i = Some c0
       /\ c_data c <> c_data c0 /\ blake3_hash (c_data c) = blake3_hash (c_data c0).
Proof.
  apply (reconstruct_tamper_evident (str "abc") (str "abc") sample_manifest [sample_chunk] [sample_chunk]);
    [vm_compute; reflexivity|vm_compute; reflexivity|vm_compute; discriminate].
Defined.

Lemma content_id_text_roundtrip_witness :
  ContentId_from_str (ContentId_to_string (Toy.checksum (str "abc"))) = Ok (Toy.checksum (str "abc")).
Proof.
  apply content_id_text_roundtrip. split; [reflexivity|]. apply Toy.toy_blake3_laws.
Defined.
