(* ===== verification/Availability.v ===== *)
(** * Availability: the piece bitfield (crates/triptorrent-protocol, [PieceAvailability])

    A bitfield of [chunk_count] bits, least significant bit first, whose unused
    high bits are zero.  Theorems: the constructors produce valid bitfields that
    contain exactly the requested indices, and a valid bitfield is determined by
    the indices it contains. *)
From stdpp Require Import base tactics list numbers option.
From Stdlib Require Import ZArith Lia.
From S2P Require Import Prelude Bytes.
Import stdpp.list.

Local Open Scope Z_scope.

Record PieceAvailability := mkAvailability {
  chunk_count : Z;
  bits : list Z
}.

#[export] Instance PieceAvailability_eq_dec : EqDecision PieceAvailability.
Proof. solve_decision. Defined.

(** The field types: a [u32] and a byte vector. *)
Definition availability_ok (a : PieceAvailability) : Prop :=
  0 <= chunk_count a <= U32_MAX /\ bytes_ok (bits a).

(** [usize::try_from(chunk_count.div_ceil(8)).unwrap_or(usize::MAX)] *)
Definition bitfield_len (chunk_count : Z) : Z :=
  default USIZE_MAX (try_from USIZE_MAX (div_ceil chunk_count 8)).

(** [!x] on a [u8] *)
Definition not_u8 (x : Z) : Z := 255 - x.

(** The mask [(1_u8 << remainder) - 1]. *)
Definition low_mask (remainder : Z) : Z := Z.shiftl 1 remainder - 1.

Definition is_valid (a : PieceAvailability) : bool :=
  if negb (len (bits a) =? bitfield_len (chunk_count a)) then false
  else
    let remainder := chunk_count a mod 8 in
    (remainder =? 0)
    || match last (bits a) with
       | None => true
       | Some last => Z.land last (not_u8 (low_mask remainder)) =? 0
       end.

(** An out-of-range index would panic; [is_valid] excludes it
    ([contains_in_bounds]). *)
Definition contains (a : PieceAvailability) (index : Z) : bool :=
  is_valid a
  && (index <? chunk_count a)
  && match get (bits a) (index / 8) with
     | Some byte => negb (Z.land byte (Z.shiftl 1 (index mod 8)) =? 0)
     | None => false
     end.

(** [if let Some(last) = bits.last_mut() { *last &= mask }] *)
Definition clear_unused_bits (a : PieceAvailability) : PieceAvailability :=
  let remainder := chunk_count a mod 8 in
  if remainder =? 0 then a
  else mkAvailability (chunk_count a)
         (alter (fun last => Z.land last (low_mask remainder)) (pred (length (bits a))) (bits a)).

Definition availability_all (chunk_count : Z) : PieceAvailability :=
  clear_unused_bits
    (mkAvailability chunk_count (replicate (Z.to_nat (bitfield_len chunk_count)) 255)).

(** One iteration of the loop of [from_indices]. *)
Definition set_index (count : Z) (bits : list Z) (index : Z) : list Z :=
  if index <? count
  then alter (fun byte => Z.lor byte (Z.shiftl 1 (index mod 8))) (Z.to_nat (index / 8)) bits
  else bits.

Definition from_indices (chunk_count : Z) (indices : list Z) : PieceAvailability :=
  mkAvailability chunk_count
    (foldl (set_index chunk_count) (replicate (Z.to_nat (bitfield_len chunk_count)) 0) indices).

(** ** Bits *)

Lemma land_bit b k :
  0 <= k -> (Z.land b (Z.shiftl 1 k) =? 0) = negb (Z.testbit b k).
Proof.
  intros Hk. rewrite Z.shiftl_1_l. destruct (Z.testbit b k) eqn:E; simpl.
  - apply Z.eqb_neq. intros H0.
    assert (Z.testbit (Z.land b (2 ^ k)) k = Z.testbit 0 k) as Hb by by rewrite H0.
    rewrite Z.land_spec, E, Z.pow2_bits_true, Z.bits_0 in Hb by done. done.
  - apply Z.eqb_eq, Z.bits_inj. intros n. rewrite Z.land_spec, Z.bits_0, Z.pow2_bits_eqb by done.
    destruct (Z.eqb_spec k n) as [<-|]; [by rewrite E|apply andb_false_r].
Qed.

Lemma lor_bit b k n :
  0 <= k -> Z.testbit (Z.lor b (Z.shiftl 1 k)) n = Z.testbit b n || (k =? n).
Proof. intros. by rewrite Z.lor_spec, Z.shiftl_1_l, Z.pow2_bits_eqb. Qed.

(** A property of bytes can be checked on the 256 of them. *)
Lemma byte_cases (p : Z -> bool) :
  all p (seqZ 0 256) = true -> forall b, is_byte b -> p b = true.
Proof.
  rewrite all_true, Forall_forall. intros Hp b Hb. apply Hp. apply elem_of_seqZ. unfold is_byte in Hb. lia.
Qed.

Lemma pad_clear_iff b r :
  is_byte b -> 0 < r < 8 -> (Z.land b (not_u8 (low_mask r)) =? 0) = (b <? 2 ^ r).
Proof.
  intros Hb Hr.
  assert (r = 1 \/ r = 2 \/ r = 3 \/ r = 4 \/ r = 5 \/ r = 6 \/ r = 7) as Hc by lia.
  apply eqb_prop.
  destruct Hc as [->|[->|[->|[->|[->|[->| ->]]]]]];
    revert b Hb; apply byte_cases; vm_compute; reflexivity.
Qed.

Lemma land_mask_byte b r :
  is_byte b -> 0 < r < 8 ->
  is_byte (Z.land b (low_mask r)) /\ Z.land b (low_mask r) < 2 ^ r.
Proof.
  intros Hb Hr. unfold low_mask. rewrite Z.shiftl_1_l.
  replace (2 ^ r - 1) with (Z.ones r) by (rewrite Z.ones_equiv; lia).
  rewrite Z.land_ones by lia. pose proof (Z.mod_pos_bound b (2 ^ r) ltac:(lia)).
  split; [|lia]. unfold is_byte. pose proof (Z.pow_le_mono_r 2 r 8). lia.
Qed.

Lemma lor_byte b k : is_byte b -> 0 <= k < 8 -> is_byte (Z.lor b (Z.shiftl 1 k)).
Proof.
  intros Hb Hk. unfold is_byte in *. rewrite Z.shiftl_1_l.
  assert (0 <= Z.lor b (2 ^ k)) by (apply Z.lor_nonneg; lia).
  split; [done|]. destruct (Z.eq_dec (Z.lor b (2 ^ k)) 0) as [->|]; [lia|].
  apply Z.log2_lt_pow2 with (b := 8); [lia|]. rewrite Z.log2_lor, Z.log2_pow2 by lia.
  apply Z.max_lub_lt; [|lia].
  destruct (Z.eq_dec b 0) as [->|]; [done|]. apply Z.log2_lt_pow2; lia.
Qed.

(** Bytes are determined by their eight bits. *)
Lemma byte_bits_inj a b :
  is_byte a -> is_byte b -> (forall k, 0 <= k < 8 -> Z.testbit a k = Z.testbit b k) -> a = b.
Proof.
  intros Ha Hb Hk. apply Z.bits_inj. intros n.
  destruct (Z.ltb_spec n 0); [by rewrite !Z.testbit_neg_r|].
  destruct (Z.ltb_spec n 8); [apply Hk; lia|]. unfold is_byte in *.
  rewrite !Z.bits_above_log2; try done; try lia.
  - destruct (Z.eq_dec b 0) as [->|]; [simpl; lia|].
    pose proof (Z.log2_lt_pow2 b 8 ltac:(lia)). lia.
  - destruct (Z.eq_dec a 0) as [->|]; [simpl; lia|].
    pose proof (Z.log2_lt_pow2 a 8 ltac:(lia)). lia.
Qed.

Lemma byte_below_pow_bits b r k :
  is_byte b -> 0 < r -> b < 2 ^ r -> r <= k -> Z.testbit b k = false.
Proof.
  intros Hb Hr Hlt Hk. unfold is_byte in *. destruct (Z.eq_dec b 0) as [->|]; [apply Z.bits_0|].
  apply Z.bits_above_log2; [lia|]. pose proof (Z.log2_lt_pow2 b r ltac:(lia)). lia.
Qed.

Lemma byte_high_bits_zero b r :
  is_byte b -> 0 <= r < 8 -> (forall k, r <= k < 8 -> Z.testbit b k = false) -> b < 2 ^ r.
Proof.
  intros Hb Hr Hk. destruct (Z.lt_ge_cases b (2 ^ r)) as [|Hge]; [done|exfalso].
  unfold is_byte in *. pose proof (Z.pow_pos_nonneg 2 r).
  pose proof (proj1 (Z.log2_le_pow2 b r ltac:(lia)) Hge).
  pose proof (proj1 (Z.log2_lt_pow2 b 8 ltac:(lia)) ltac:(lia)).
  specialize (Hk (Z.log2 b) ltac:(lia)). rewrite Z.bit_log2 in Hk by lia. done.
Qed.

(** ** Facts *)

(** Bit [i] of a bitfield, least significant bit first. *)
Definition bit_at (bs : list Z) (i : Z) : bool :=
  match get bs (i / 8) with
  | Some byte => Z.testbit byte (i mod 8)
  | None => false
  end.

Lemma bitfield_len_eq cc : 0 <= cc <= U32_MAX -> bitfield_len cc = div_ceil cc 8.
Proof.
  intros Hcc. unfold bitfield_len.
  pose proof (div_ceil_spec cc 8 ltac:(lia) ltac:(lia)). pose proof (div_ceil_nonneg cc 8).
  rewrite (proj2 (try_from_Some _ _ (div_ceil cc 8))); [done|].
  unfold U32_MAX, USIZE_MAX, U64_MAX in *. lia.
Qed.

Lemma div_ceil_8 cc : 0 <= cc -> div_ceil cc 8 = cc / 8 + (if cc mod 8 =? 0 then 0 else 1).
Proof.
  intros Hcc. apply div_ceil_unique; [lia|].
  pose proof (Z.div_mod cc 8 ltac:(lia)). pose proof (Z.mod_pos_bound cc 8 ltac:(lia)).
  destruct (Z.eqb_spec (cc mod 8) 0); lia.
Qed.

Lemma div8_bound i cc : 0 <= i < cc -> 0 <= i / 8 < div_ceil cc 8.
Proof.
  intros Hi. pose proof (div_ceil_spec cc 8 ltac:(lia) ltac:(lia)).
  split; [apply Z.div_pos; lia|]. apply Z.div_lt_upper_bound; lia.
Qed.

Lemma last_get (bs : list Z) : last bs = get bs (len bs - 1).
Proof.
  rewrite last_lookup. destruct bs as [|b bs]; [done|].
  unfold get. rewrite len_cons. pose proof (len_nonneg bs).
  rewrite (proj2 (Z.leb_le 0 _)) by lia. f_equal. unfold len. simpl. lia.
Qed.

(** A bitfield is valid iff it has the right length and no bit at or above the
    count is set. *)
Lemma is_valid_iff a :
  availability_ok a ->
  is_valid a = true <->
  len (bits a) = div_ceil (chunk_count a) 8
  /\ (forall i, chunk_count a <= i -> bit_at (bits a) i = false).
Proof.
  destruct a as [cc bs]. intros [Hcc Hb]. simpl in *. unfold is_valid. simpl.
  rewrite bitfield_len_eq by done.
  destruct (Z.eqb_spec (len bs) (div_ceil cc 8)) as [Hl|]; simpl; [|naive_solver].
  pose proof (Z.div_mod cc 8 ltac:(lia)). pose proof (Z.mod_pos_bound cc 8 ltac:(lia)).
  pose proof Hl as Hl0. rewrite div_ceil_8 in Hl by lia.
  assert (forall i, 8 * len bs <= i -> bit_at bs i = false) as Hbig.
  { intros i Hi. unfold bit_at. destruct (get bs (i / 8)) eqn:E; [|done].
    apply get_Some_range in E. pose proof (Z.div_le_lower_bound i 8 (len bs)). lia. }
  destruct (Z.eqb_spec (cc mod 8) 0) as [Hr|Hr]; simpl.
  { split; [|done]. intros _. split; [done|]. intros i Hi. apply Hbig. lia. }
  rewrite last_get. destruct (get bs (len bs - 1)) as [lst|] eqn:El.
  2: { exfalso. assert (is_Some (get bs (len bs - 1))) as [? ?] by (apply get_is_Some; lia). congruence. }
  assert (is_byte lst) as Hlst.
  { unfold get in El. destruct (0 <=? _); [|done]. eapply Forall_lookup_1; [exact Hb|done]. }
  rewrite pad_clear_iff, Z.ltb_lt by (done || lia). split.
  - intros Hlt. split; [done|].
    intros i Hi. destruct (Z.le_gt_cases (8 * len bs) i); [by apply Hbig|].
    unfold bit_at. replace (i / 8) with (len bs - 1).
    2: { apply (Z.div_unique i 8 _ (i - 8 * (len bs - 1))); lia. }
    rewrite El. apply (byte_below_pow_bits _ (cc mod 8)); [done|lia|done|].
    rewrite (Z.mod_eq i 8) by lia. replace (i / 8) with (len bs - 1); [lia|].
    apply (Z.div_unique i 8 _ (i - 8 * (len bs - 1))); lia.
  - intros [_ Hz]. apply byte_high_bits_zero; [done|lia|]. intros k Hk.
    specialize (Hz (8 * (len bs - 1) + k) ltac:(lia)). unfold bit_at in Hz.
    replace ((8 * (len bs - 1) + k) / 8) with (len bs - 1) in Hz
      by (apply (Z.div_unique _ 8 _ k); lia).
    rewrite El in Hz.
    replace ((8 * (len bs - 1) + k) mod 8) with k in Hz
      by (apply (Z.mod_unique _ 8 (len bs - 1)); lia). done.
Qed.

Lemma contains_iff a i :
  0 <= i ->
  contains a i = true <-> is_valid a = true /\ i < chunk_count a /\ bit_at (bits a) i = true.
Proof.
  intros Hi. unfold contains, bit_at. pose proof (Z.mod_pos_bound i 8 ltac:(lia)).
  rewrite !andb_true_iff, Z.ltb_lt.
  destruct (get (bits a) (i / 8)); [|naive_solver].
  rewrite land_bit, negb_involutive by lia. naive_solver.
Qed.

(** The indexing in [contains] is in bounds whenever it is reached. *)
Lemma contains_in_bounds a i :
  availability_ok a -> is_valid a = true -> 0 <= i < chunk_count a ->
  is_Some (get (bits a) (i / 8)).
Proof.
  intros Ha Hv Hi. apply is_valid_iff in Hv as [Hl _]; [|done].
  apply get_is_Some. rewrite Hl. by apply div8_bound.
Qed.

Lemma get_alter (f : Z -> Z) (bs : list Z) n j :
  0 <= j -> get (alter f n bs) j = (if decide (n = Z.to_nat j) then f else id) <$> get bs j.
Proof.
  intros Hj. unfold get. rewrite (proj2 (Z.leb_le 0 j)) by lia.
  destruct (decide (n = Z.to_nat j)) as [->|].
  - apply list_lookup_alter_eq.
  - rewrite list_lookup_alter_ne by done. by destruct (bs !! _).
Qed.

Lemma bit_at_set_index cc bs idx i :
  0 <= idx -> 0 <= i -> len bs = div_ceil cc 8 ->
  bit_at (set_index cc bs idx) i = bit_at bs i || ((idx =? i) && (idx <? cc)).
Proof.
  intros Hidx Hi Hl. unfold set_index.
  destruct (Z.ltb_spec idx cc) as [Hlt|]; [|by rewrite andb_false_r, orb_false_r].
  rewrite andb_true_r.
  pose proof (Z.mod_pos_bound i 8 ltac:(lia)). pose proof (Z.mod_pos_bound idx 8 ltac:(lia)).
  pose proof (Z.div_mod i 8 ltac:(lia)). pose proof (Z.div_mod idx 8 ltac:(lia)).
  pose proof (div8_bound idx cc ltac:(lia)).
  assert (0 <= i / 8) by (apply Z.div_pos; lia).
  unfold bit_at. rewrite get_alter by lia. case_decide as Hd.
  - apply Z2Nat.inj in Hd; [|lia..].
    destruct (get bs (i / 8)) as [b|] eqn:E; simpl.
    + rewrite lor_bit by lia. f_equal.
      destruct (Z.eqb_spec idx i), (Z.eqb_spec (idx mod 8) (i mod 8)); try done; lia.
    + exfalso. assert (is_Some (get bs (i / 8))) as [? ?] by (apply get_is_Some; lia). congruence.
  - destruct (Z.eqb_spec idx i) as [->|]; [done|]. rewrite orb_false_r. by destruct (get bs _).
Qed.

Lemma set_index_ok cc bs idx :
  0 <= idx -> bytes_ok bs -> bytes_ok (set_index cc bs idx).
Proof.
  intros Hidx Hb. unfold set_index. destruct (idx <? cc); [|done].
  apply Forall_alter; [done|]. intros x _ Hx. apply lor_byte; [done|].
  apply Z.mod_pos_bound. lia.
Qed.

Lemma len_set_index cc bs idx : len (set_index cc bs idx) = len bs.
Proof. unfold set_index. destruct (idx <? cc); [|done]. unfold len. by rewrite length_alter. Qed.

Lemma foldl_set_index cc l bs :
  Forall (fun j => 0 <= j) l -> bytes_ok bs -> len bs = div_ceil cc 8 ->
  let out := foldl (set_index cc) bs l in
  bytes_ok out /\ len out = len bs
  /\ forall i, 0 <= i -> bit_at out i = bit_at bs i || any (fun j => (j =? i) && (j <? cc)) l.
Proof.
  intros Hl. revert bs. induction Hl as [|j l Hj _ IH]; intros bs Hb Hlen; simpl.
  { split_and!; [done|done|]. intros. by rewrite orb_false_r. }
  destruct (IH (set_index cc bs j)) as (? & Hlen' & Hbit);
    [by apply set_index_ok|by rewrite len_set_index|].
  split_and!; [done|by rewrite Hlen', len_set_index|].
  intros i Hi. rewrite Hbit, bit_at_set_index, <- orb_assoc by done. done.
Qed.

Lemma bit_at_zero n i : bit_at (replicate n 0) i = false.
Proof.
  unfold bit_at, get. destruct (0 <=? i / 8); [|done].
  destruct (replicate n 0 !! _) eqn:E; [|done].
  apply lookup_replicate in E as [-> _]. apply Z.bits_0.
Qed.

Lemma from_indices_facts cc l :
  0 <= cc <= U32_MAX -> Forall (fun j => 0 <= j) l ->
  let a := from_indices cc l in
  availability_ok a /\ len (bits a) = div_ceil cc 8
  /\ forall i, 0 <= i -> bit_at (bits a) i = any (fun j => (j =? i) && (j <? cc)) l.
Proof.
  intros Hcc Hl a. subst a. unfold from_indices. simpl.
  pose proof (div_ceil_nonneg cc 8 ltac:(lia) ltac:(lia)).
  rewrite bitfield_len_eq by done.
  destruct (foldl_set_index cc l (replicate (Z.to_nat (div_ceil cc 8)) 0)) as (Hb & Hlen & Hbit);
    [done|apply bytes_ok_replicate; unfold is_byte; lia|len_lia|].
  split_and!; [split; done|rewrite Hlen; len_lia|].
  intros i Hi. by rewrite Hbit, bit_at_zero.
Qed.

Lemma from_indices_valid cc l :
  0 <= cc <= U32_MAX -> Forall (fun j => 0 <= j) l -> is_valid (from_indices cc l) = true.
Proof.
  intros Hcc Hl. destruct (from_indices_facts cc l Hcc Hl) as (Hok & Hlen & Hbit).
  apply is_valid_iff; [done|]. split; [done|]. intros i Hi. simpl in Hi.
  rewrite Hbit by lia. apply not_true_iff_false. rewrite any_true, Exists_exists.
  intros (j & _ & Hj). lia.
Qed.

Lemma land_255_mask r k :
  0 < r < 8 -> 0 <= k < 8 -> Z.testbit (Z.land 255 (low_mask r)) k = (k <? r).
Proof.
  intros Hr Hk. unfold low_mask. rewrite Z.shiftl_1_l.
  replace (2 ^ r - 1) with (Z.ones r) by (rewrite Z.ones_equiv; lia).
  change 255 with (Z.ones 8). rewrite Z.land_spec, !Z.testbit_ones by lia.
  destruct (Z.ltb_spec k 8), (Z.leb_spec 0 k); lia.
Qed.

Lemma availability_all_facts cc :
  0 <= cc <= U32_MAX ->
  let a := availability_all cc in
  chunk_count a = cc /\ availability_ok a /\ len (bits a) = div_ceil cc 8
  /\ forall i, 0 <= i -> bit_at (bits a) i = (i <? cc).
Proof.
  intros Hcc a. subst a. unfold availability_all, clear_unused_bits. simpl.
  rewrite bitfield_len_eq by done. pose proof (div_ceil_nonneg cc 8 ltac:(lia) ltac:(lia)).
  pose proof (Z.div_mod cc 8 ltac:(lia)). pose proof (Z.mod_pos_bound cc 8 ltac:(lia)).
  pose proof (div_ceil_8 cc ltac:(lia)) as Hd.
  set (n := Z.to_nat (div_ceil cc 8)).
  assert (forall i, 0 <= i -> get (replicate n 255) (i / 8) = if i / 8 <? div_ceil cc 8 then Some 255 else None) as Hget.
  { intros i Hi. unfold get. assert (0 <= i / 8) by (apply Z.div_pos; lia).
    rewrite (proj2 (Z.leb_le 0 _)) by done. destruct (Z.ltb_spec (i / 8) (div_ceil cc 8)).
    - apply lookup_replicate. subst n. split; [done|lia].
    - apply lookup_replicate_None. subst n. lia. }
  assert (forall k, 0 <= k < 8 -> Z.testbit 255 k = true) as H255.
  { intros k Hk. change 255 with (Z.ones 8). by apply Z.ones_spec_low. }
  destruct (Z.eqb_spec (cc mod 8) 0) as [Hr|Hr]; simpl; split_and!; try done.
  - split; [done|]. apply bytes_ok_replicate. unfold is_byte. lia.
  - subst n. len_lia.
  - intros i Hi. unfold bit_at. rewrite Hget by done.
    pose proof (Z.mod_pos_bound i 8 ltac:(lia)). pose proof (Z.div_mod i 8 ltac:(lia)).
    destruct (Z.ltb_spec (i / 8) (div_ceil cc 8)), (Z.ltb_spec i cc); try lia. by apply H255.
  - split; [done|]. apply Forall_alter; [apply bytes_ok_replicate; unfold is_byte; lia|].
    intros x _ Hx. apply land_mask_byte; [done|lia].
  - unfold len. rewrite length_alter, length_replicate. subst n. lia.
  - intros i Hi. unfold bit_at. assert (0 <= i / 8) by (apply Z.div_pos; lia).
    rewrite get_alter, Hget by done.
    pose proof (Z.mod_pos_bound i 8 ltac:(lia)). pose proof (Z.div_mod i 8 ltac:(lia)).
    rewrite length_replicate. subst n.
    destruct (Z.ltb_spec (i / 8) (div_ceil cc 8)); simpl.
    2: { destruct (Z.ltb_spec i cc); [lia|done]. }
    case_decide; unfold id.
    + rewrite land_255_mask by lia. destruct (Z.ltb_spec (i mod 8) (cc mod 8)), (Z.ltb_spec i cc); lia.
    + rewrite H255 by lia. destruct (Z.ltb_spec i cc); lia.
Qed.

(** ** Properties *)

(** [from_indices] and [all] build valid bitfields; the first contains
    exactly the requested in-range indices, the second exactly the indices below
    the count. *)
Theorem availability_constructors_exact (cc : Z) (indices : list Z) :
  0 <= cc <= U32_MAX -> Forall (fun j => 0 <= j) indices ->
  is_valid (from_indices cc indices) = true
  /\ is_valid (availability_all cc) = true
  /\ forall i, 0 <= i ->
       (contains (from_indices cc indices) i = true <-> i ∈ indices /\ i < cc)
       /\ (contains (availability_all cc) i = true <-> i < cc).
Proof.
  intros Hcc Hidx.
  destruct (from_indices_facts cc indices Hcc Hidx) as (_ & _ & Hbit).
  destruct (availability_all_facts cc Hcc) as (Hc & Hok & Hlen & Hall).
  assert (is_valid (availability_all cc) = true) as Hv.
  { apply is_valid_iff; [done|]. rewrite Hc. split; [done|]. intros i Hi.
    rewrite Hall by lia. lia. }
  pose proof (from_indices_valid cc indices Hcc Hidx) as Hv'.
  split_and!; [done|done|]. intros i Hi. rewrite !contains_iff by done.
  rewrite Hc, Hbit, Hall, any_true, Exists_exists, Z.ltb_lt by done. simpl.
  split; [|naive_solver]. split.
  - intros (_ & Hlt & j & Hj & Heq). split; [|done]. by replace i with j by lia.
  - intros [Hin Hlt]. split_and!; [done|done|]. exists i. split; [done|]. lia.
Qed.

(** A valid bitfield is determined by its count and the indices it
    contains, so the wire form of an availability is unique. *)
Theorem availability_canonical (a b : PieceAvailability) :
  availability_ok a -> availability_ok b ->
  is_valid a = true -> is_valid b = true -> chunk_count a = chunk_count b ->
  (forall i, 0 <= i < chunk_count a -> contains a i = contains b i) -> a = b.
Proof.
  intros Ha Hb Hva Hvb Hcc Hsame.
  pose proof (proj1 (is_valid_iff a Ha) Hva) as [Hla Hza].
  pose proof (proj1 (is_valid_iff b Hb) Hvb) as [Hlb Hzb].
  assert (forall i, 0 <= i -> bit_at (bits a) i = bit_at (bits b) i) as Hbits.
  { intros i Hi. destruct (Z.lt_ge_cases i (chunk_count a)) as [Hlt|Hge].
    - specialize (Hsame i ltac:(lia)). apply eq_true_iff_eq.
      apply eq_iff_eq_true in Hsame. rewrite !contains_iff in Hsame by done.
      rewrite <- Hcc in Hsame. naive_solver.
    - rewrite Hza, Hzb by lia. done. }
  destruct a as [cc ba], b as [cc' bb]; simpl in *. subst cc'. f_equal.
  destruct Ha as [_ Ha], Hb as [_ Hb]; simpl in *.
  apply list_eq_same_length with (n := length ba); [unfold len in *; lia|done|].
  intros j x y Hj Hx Hy.
  assert (get ba (Z.of_nat j) = Some x /\ get bb (Z.of_nat j) = Some y) as [Gx Gy].
  { unfold get. rewrite (proj2 (Z.leb_le 0 _)), Nat2Z.id by lia. done. }
  apply byte_bits_inj; [exact (Forall_lookup_1 _ _ _ _ Ha Hx)|exact (Forall_lookup_1 _ _ _ _ Hb Hy)|].
  intros k Hk. specialize (Hbits (8 * Z.of_nat j + k) ltac:(lia)). unfold bit_at in Hbits.
  replace ((8 * Z.of_nat j + k) / 8) with (Z.of_nat j) in Hbits
    by (apply (Z.div_unique _ 8 _ k); lia).
  replace ((8 * Z.of_nat j + k) mod 8) with k in Hbits
    by (apply (Z.mod_unique _ 8 (Z.of_nat j)); lia).
  by rewrite Gx, Gy in Hbits.
Qed.

Lemma availability_constructors_exact_witness :
  is_valid (from_indices 10 [0; 3; 9; 12]) = true
  /\ is_valid (availability_all 10) = true
  /\ forall i, 0 <= i ->
       (contains (from_indices 10 [0; 3; 9; 12]) i = true <-> i ∈ [0; 3; 9; 12] /\ i < 10)
       /\ (contains (availability_all 10) i = true <-> i < 10).
Proof.
  apply (availability_constructors_exact 10 [0; 3; 9; 12]).
  - unfold U32_MAX. lia.
  - repeat constructor; lia.
Defined.

Lemma availability_canonical_witness : from_indices 3 [0; 1; 2] = availability_all 3.
Proof.
  apply (availability_canonical (from_indices 3 [0; 1; 2]) (availability_all 3)).
  - split; [unfold U32_MAX; simpl; lia|]. apply bytes_okb_true. reflexivity.
  - split; [unfold U32_MAX; simpl; lia|]. apply bytes_okb_true. reflexivity.
  - reflexivity.
  - reflexivity.
  - reflexivity.
  - intros i Hi. simpl in Hi.
    assert (i = 0 \/ i = 1 \/ i = 2) as [-> | [-> | ->]] by lia; reflexivity.
Defined.
