(* ===== verification/Wire.v ===== *)
(** * Wire: Testnet v1 messages, validation and the binary codec
    (crates/triptorrent-protocol)

    The messages, the validators, the [Writer] (a byte vector that grows) and the
    [Reader] (a byte slice with an offset), and the three encoders and decoders.
    The theorems about them are in [WireFacts]. *)
From stdpp Require Import base tactics list numbers option.
From Stdlib Require Import ZArith Lia.
From Stdlib Require String.
From S2P Require Import Prelude Bytes NetAddr Core Availability.
Import stdpp.list.

Local Open Scope Z_scope.

(** ** Constants *)

Definition MAX_APPLICATION_MESSAGE_BYTES : Z := 65519.
Definition MAX_OVERLAY_MESSAGE_BYTES : Z := 256 * 1024.
Definition MAX_ADVERTISED_CONTENT_IDS : Z := 256.
Definition WIRE_MAGIC : list Z := str "TTP1".
Definition MAX_ERROR_TEXT_BYTES : Z := 1024.
Definition MAX_CAPABILITIES : Z := 8.
Definition MAX_DISCOVERY_ROUTES : Z := 16.
Definition MAX_TESTNET_MANIFEST_CHUNKS : Z := 2036.
Definition DOMAIN_APPLICATION : Z := 1.
Definition DOMAIN_OVERLAY_REQUEST : Z := 2.
Definition DOMAIN_OVERLAY_RESPONSE : Z := 3.

(** ** Messages *)

Inductive Message :=
| Request (content_id : ContentId)
| MManifest (manifest : Manifest)
| MChunk (chunk : Chunk)
| Complete
| MError (text : list Z)
| SwarmRequest (content_id : ContentId)
| SwarmManifest (manifest : Manifest) (availability : PieceAvailability)
| ChunkRequest (index : Z)
| ChunkUnavailable (index : Z)
| SwarmComplete.

Inductive PeerCapability :=
| RelayedTransferV1
| SwarmTransferV1.

Record PeerAdvertisement := mkPeerAdvertisement {
  pa_peer_id : PeerId;
  pa_public_key : list Z;
  pa_capabilities : list PeerCapability;
  pa_content_ids : list ContentId
}.

Record RelayAdvertisement := mkRelayAdvertisement {
  ra_relay_id : list Z;
  ra_address : list Z
}.

Record RouteAssignment := mkRouteAssignment {
  provider_id : PeerId;
  provider_public_key : list Z;
  relay_id : list Z;
  relay_address : list Z;
  route : list Z
}.

Inductive OverlayRequest :=
| RegisterPeer (peer : PeerAdvertisement)
| HeartbeatPeer (peer_id : PeerId)
| PollPeer (peer_id : PeerId)
| RegisterRelay (relay : RelayAdvertisement)
| HeartbeatRelay (relay_id : list Z)
| Discover (content_id : ContentId)
| DiscoverProviders (content_id : ContentId) (limit : Z)
| ReportRelayFailure (relay_id : list Z)
| Health.

Inductive OverlayResponse :=
| Registered (lease_ms : Z)
| Assignment (value : option RouteAssignment)
| Route (value : option RouteAssignment)
| Routes (values : list RouteAssignment)
| Acknowledged
| RError (text : list Z).

Inductive ProtocolError :=
| Malformed (what : String.string)
| UnsupportedVersion (version : Z)
| WrongNetwork (network : list Z)
| UnsupportedCapability (code : Z)
| UnknownMessage (kind : Z)
| InvalidMessage (what : String.string)
| MessageTooLarge (limit : Z).
Arguments Malformed what%_string_scope.
Arguments InvalidMessage what%_string_scope.

#[export] Instance Message_eq_dec : EqDecision Message.
Proof. solve_decision. Defined.
#[export] Instance PeerCapability_eq_dec : EqDecision PeerCapability.
Proof. solve_decision. Defined.
#[export] Instance PeerAdvertisement_eq_dec : EqDecision PeerAdvertisement.
Proof. solve_decision. Defined.
#[export] Instance RelayAdvertisement_eq_dec : EqDecision RelayAdvertisement.
Proof. solve_decision. Defined.
#[export] Instance RouteAssignment_eq_dec : EqDecision RouteAssignment.
Proof. solve_decision. Defined.
#[export] Instance OverlayRequest_eq_dec : EqDecision OverlayRequest.
Proof. solve_decision. Defined.
#[export] Instance OverlayResponse_eq_dec : EqDecision OverlayResponse.
Proof. solve_decision. Defined.
#[export] Instance ProtocolError_eq_dec : EqDecision ProtocolError.
Proof. solve_decision. Defined.

(** ** Validation *)

Definition validate_manifest (value : Manifest) : result ProtocolError unit :=
  _ ← map_err (fun _ => InvalidMessage "malformed manifest shape") (validate_shape value);
  if len (m_chunks value) >? MAX_TESTNET_MANIFEST_CHUNKS
  then Err (InvalidMessage "manifest exceeds Testnet v1 record bound")
  else Ok tt.

Definition validate_message (value : Message) : result ProtocolError unit :=
  match value with
  | MManifest value => validate_manifest value
  | MChunk value =>
      if len (c_data value) >? CHUNK_SIZE
      then Err (InvalidMessage "chunk payload exceeds fixed chunk size") else Ok tt
  | MError value =>
      if len value >? MAX_ERROR_TEXT_BYTES
      then Err (InvalidMessage "error text exceeds bound") else Ok tt
  | SwarmManifest manifest availability =>
      _ ← validate_manifest manifest;
      if negb (chunk_count availability =? default U32_MAX (try_from U32_MAX (len (m_chunks manifest))))
         || negb (is_valid availability)
      then Err (InvalidMessage "piece availability does not match manifest")
      else Ok tt
  | _ => Ok tt
  end.

Definition valid_identifier (value : list Z) (maximum : Z) : bool :=
  negb (bool_decide (value = [])) && (len value <=? maximum) && all is_ident_byte value.

(** [value.parse::<SocketAddr>().is_err()] *)
Definition bad_address (value : list Z) : bool := bool_decide (parse_socket_addr value = None).

Definition validate_assignment (value : RouteAssignment) : result ProtocolError unit :=
  if negb (valid_identifier (relay_id value) 64)
     || (len (relay_address value) >? 128)
     || bad_address (relay_address value)
     || negb (valid_identifier (route value) 128)
  then Err (InvalidMessage "invalid route assignment fields")
  else Ok tt.

Definition validate_overlay_request `{Blake3} (value : OverlayRequest) : result ProtocolError unit :=
  match value with
  | RegisterPeer peer =>
      if negb (bool_decide (pa_peer_id peer = PeerId_from_public_key (pa_public_key peer)))
      then Err (InvalidMessage "peer identity does not match key")
      else if bool_decide (pa_content_ids peer = [])
           || (len (pa_content_ids peer) >? MAX_ADVERTISED_CONTENT_IDS)
           || bool_decide (pa_capabilities peer = [])
           || (len (pa_capabilities peer) >? MAX_CAPABILITIES)
      then Err (InvalidMessage "peer advertisement exceeds bounds")
      else Ok tt
  | RegisterRelay value =>
      if negb (valid_identifier (ra_relay_id value) 64)
         || (len (ra_address value) >? 128)
         || bad_address (ra_address value)
      then Err (InvalidMessage "invalid relay advertisement")
      else Ok tt
  | HeartbeatRelay relay_id | ReportRelayFailure relay_id =>
      if valid_identifier relay_id 64 then Ok tt
      else Err (InvalidMessage "invalid relay identifier")
  | DiscoverProviders _ limit =>
      if (limit =? 0) || (limit >? MAX_DISCOVERY_ROUTES)
      then Err (InvalidMessage "invalid provider discovery limit") else Ok tt
  | _ => Ok tt
  end.

Definition validate_overlay_response (value : OverlayResponse) : result ProtocolError unit :=
  match value with
  | Assignment (Some value) | Route (Some value) => validate_assignment value
  | Routes values =>
      if len values >? MAX_DISCOVERY_ROUTES
      then Err (InvalidMessage "too many route assignments")
      else try_for_each validate_assignment values
  | RError value =>
      if len value >? MAX_ERROR_TEXT_BYTES
      then Err (InvalidMessage "error text exceeds bound") else Ok tt
  | _ => Ok tt
  end.

Definition ensure_size (bytes : list Z) (limit : Z) : result ProtocolError unit :=
  if len bytes >? limit then Err (MessageTooLarge limit) else Ok tt.

(** ** Writer: a growing byte vector *)

Module W.
Definition raw (w value : list Z) : list Z := w ++ value.
Definition u8 (w : list Z) (value : Z) : list Z := w ++ [value].
Definition u16 (w : list Z) (value : Z) : list Z := raw w (to_be 2 value).
Definition u32 (w : list Z) (value : Z) : list Z := raw w (to_be 4 value).
Definition u64 (w : list Z) (value : Z) : list Z := raw w (to_be 8 value).

(** [Writer::new]; the network identifier is shorter than 256 bytes. *)
Definition new (domain : Z) : list Z :=
  let w := raw [] WIRE_MAGIC in
  let w := u16 w PROTOCOL_VERSION in
  let w := u8 w (len NETWORK_ID) in
  let w := raw w NETWORK_ID in
  u8 w domain.

Definition finish (w : list Z) (limit : Z) : result ProtocolError (list Z) :=
  _ ← ensure_size w limit; Ok w.

Definition bytes (w value : list Z) : result ProtocolError (list Z) :=
  n ← ok_or (try_from U32_MAX (len value)) (Malformed "byte string too long");
  Ok (raw (u32 w n) value).

Definition string (w value : list Z) : result ProtocolError (list Z) :=
  n ← ok_or (try_from U16_MAX (len value)) (Malformed "string too long");
  Ok (raw (u16 w n) value).

Definition content_id (w : list Z) (value : ContentId) : list Z := raw w value.
Definition peer_id (w : list Z) (value : PeerId) : list Z := raw w value.

Definition manifest (w : list Z) (value : Manifest) : result ProtocolError (list Z) :=
  let w := content_id w (m_content_id value) in
  let w := u64 w (m_length value) in
  let w := u32 w (m_chunk_size value) in
  n ← ok_or (try_from U32_MAX (len (m_chunks value))) (InvalidMessage "too many manifest chunks");
  Ok (foldl raw (u32 w n) (m_chunks value)).

Definition chunk (w : list Z) (value : Chunk) : result ProtocolError (list Z) :=
  let w := u32 w (c_index value) in
  let w := raw w (c_id value) in
  bytes w (c_data value).

Definition assignment (w : list Z) (value : RouteAssignment) : result ProtocolError (list Z) :=
  let w := peer_id w (provider_id value) in
  let w := raw w (provider_public_key value) in
  w ← string w (relay_id value);
  w ← string w (relay_address value);
  string w (route value).

Definition optional_assignment (w : list Z) (value : option RouteAssignment)
  : result ProtocolError (list Z) :=
  match value with
  | Some value => assignment (u8 w 1) value
  | None => Ok (u8 w 0)
  end.

(** [for value in &values { w.assignment(value)?; }] *)
Fixpoint assignments (w : list Z) (values : list RouteAssignment) : result ProtocolError (list Z) :=
  match values with
  | [] => Ok w
  | value :: values => w ← assignment w value; assignments w values
  end.
End W.

(** ** Reader: a byte slice and an offset *)

Record Reader := mkReader { r_bytes : list Z; r_offset : Z }.

(** A reader method: [&mut self] and a [Result]. *)
Definition parser (A : Type) : Type := Reader -> result ProtocolError (A * Reader).

#[export] Instance parser_ret : MRet parser := fun A a r => Ok (a, r).
#[export] Instance parser_bind : MBind parser :=
  fun A B f p r => match p r with Ok (a, r) => f a r | Err e => Err e end.

Module R.
Definition fail {A} (e : ProtocolError) : parser A := fun _ => Err e.
Definition check (ok : bool) (e : ProtocolError) : parser unit :=
  fun r => if ok then Ok (tt, r) else Err e.

Definition take (n : Z) : parser (list Z) := fun r =>
  end_ ← ok_or (checked_add USIZE_MAX (r_offset r) n) (Malformed "length overflow");
  value ← ok_or (slice (r_bytes r) (r_offset r) end_) (Malformed "truncated input");
  Ok (value, mkReader (r_bytes r) end_).

(** [Reader::array::<N>]: [take] returns exactly [N] bytes. *)
Definition array (n : Z) : parser (list Z) :=
  value ← take n;
  if len value =? n then mret value else fail (Malformed "truncated fixed field").

(** [Ok(self.take(1)?[0])]; the slice has one element. *)
Definition u8 : parser Z := value ← take 1; mret (from_be value).
Definition u16 : parser Z := value ← array 2; mret (from_be value).
Definition u32 : parser Z := value ← array 4; mret (from_be value).
Definition u64 : parser Z := value ← array 8; mret (from_be value).

Definition bytes (maximum : Z) : parser (list Z) :=
  n ← u32;
  if n >? maximum then fail (InvalidMessage "byte string exceeds bound") else take n.

Definition string (maximum : Z) : parser (list Z) :=
  n ← u16;
  if n >? maximum then fail (InvalidMessage "string exceeds bound")
  else
    value ← take n;
    if utf8_valid value then mret value else fail (Malformed "string is not UTF-8").

Definition content_id : parser ContentId := array 32.
Definition peer_id : parser PeerId := array 32.

(** [for _ in 0..count { values.push(item()?) }] *)
Fixpoint repeat {A} (count : nat) (item : parser A) : parser (list A) :=
  match count with
  | O => mret []
  | S count => x ← item; xs ← repeat count item; mret (x :: xs)
  end.

Definition manifest : parser Manifest :=
  cid ← content_id;
  length ← u64;
  chunk_size ← u32;
  count ← u32;
  if count >? MAX_TESTNET_MANIFEST_CHUNKS then fail (InvalidMessage "too many manifest chunks")
  else
    chunks ← repeat (Z.to_nat count) (array 32);
    mret (mkManifest cid length chunk_size chunks).

Definition chunk : parser Chunk :=
  index ← u32;
  id ← array 32;
  data ← bytes CHUNK_SIZE;
  mret (mkChunk index id data).

Definition assignment : parser RouteAssignment :=
  pid ← peer_id;
  key ← array 32;
  rid ← string 64;
  addr ← string 128;
  rt ← string 128;
  mret (mkRouteAssignment pid key rid addr rt).

Definition optional_assignment : parser (option RouteAssignment) :=
  tag ← u8;
  match tag with
  | 0 => mret None
  | 1 => value ← assignment; mret (Some value)
  | _ => fail (Malformed "invalid optional tag")
  end.

Definition end_ : parser unit := fun r =>
  if r_offset r =? len (r_bytes r) then Ok (tt, r) else Err (Malformed "trailing bytes").

(** [Reader::new], after the initial [Self { bytes, offset: 0 }] *)
Definition new (domain : Z) : parser unit :=
  magic ← take 4;
  _ ← check (bool_decide (magic = WIRE_MAGIC)) (Malformed "invalid magic");
  version ← u16;
  _ ← check (version =? PROTOCOL_VERSION) (UnsupportedVersion version);
  n ← u8;
  network ← take n;
  _ ← check (utf8_valid network) (Malformed "network identifier is not UTF-8");
  _ ← check (bool_decide (network = NETWORK_ID)) (WrongNetwork network);
  d ← u8;
  check (d =? domain) (Malformed "wrong message domain").
End R.

(** ** Application messages *)

Definition encode (message : Message) : result ProtocolError (list Z) :=
  _ ← validate_message message;
  let w := W.new DOMAIN_APPLICATION in
  w ← match message with
      | Request content_id => Ok (W.content_id (W.u8 w 1) content_id)
      | MManifest value => W.manifest (W.u8 w 2) value
      | MChunk value => W.chunk (W.u8 w 3) value
      | Complete => Ok (W.u8 w 4)
      | MError value => W.string (W.u8 w 5) value
      | SwarmRequest content_id => Ok (W.content_id (W.u8 w 16) content_id)
      | SwarmManifest manifest availability =>
          w ← W.manifest (W.u8 w 17) manifest;
          W.bytes (W.u32 w (chunk_count availability)) (bits availability)
      | ChunkRequest index => Ok (W.u32 (W.u8 w 18) index)
      | ChunkUnavailable index => Ok (W.u32 (W.u8 w 19) index)
      | SwarmComplete => Ok (W.u8 w 20)
      end;
  W.finish w MAX_APPLICATION_MESSAGE_BYTES.

(** The body of a message of type [kind]. *)
Definition read_message (kind : Z) : parser Message :=
  match kind with
  | 1 => id ← R.content_id; mret (Request id)
  | 2 => m ← R.manifest; mret (MManifest m)
  | 3 => c ← R.chunk; mret (MChunk c)
  | 4 => mret Complete
  | 5 => s ← R.string MAX_ERROR_TEXT_BYTES; mret (MError s)
  | 16 => id ← R.content_id; mret (SwarmRequest id)
  | 17 => m ← R.manifest; n ← R.u32; b ← R.bytes MAX_APPLICATION_MESSAGE_BYTES;
          mret (SwarmManifest m (mkAvailability n b))
  | 18 => i ← R.u32; mret (ChunkRequest i)
  | 19 => i ← R.u32; mret (ChunkUnavailable i)
  | 20 => mret SwarmComplete
  | kind => R.fail (UnknownMessage kind)
  end.

(** Running a decoder on the whole input: [Reader::new], the type byte, the
    body, [end], then the validator. *)
Definition decode_with {A} (limit domain : Z) (body : Z -> parser A)
  (validate : A -> result ProtocolError unit) (bytes : list Z) : result ProtocolError A :=
  _ ← ensure_size bytes limit;
  '(value, _) ← (_ ← R.new domain; kind ← R.u8; value ← body kind; _ ← R.end_; mret value)
                  (mkReader bytes 0);
  _ ← validate value;
  Ok value.

Definition decode (bytes : list Z) : result ProtocolError Message :=
  decode_with MAX_APPLICATION_MESSAGE_BYTES DOMAIN_APPLICATION read_message validate_message bytes.

(** ** Bootstrap requests *)

Definition capability_code (capability : PeerCapability) : Z :=
  match capability with RelayedTransferV1 => 1 | SwarmTransferV1 => 2 end.

Definition read_capability : parser PeerCapability :=
  code ← R.u16;
  match code with
  | 1 => mret RelayedTransferV1
  | 2 => mret SwarmTransferV1
  | code => R.fail (UnsupportedCapability code)
  end.

Definition encode_overlay_request `{Blake3} (request : OverlayRequest) : result ProtocolError (list Z) :=
  _ ← validate_overlay_request request;
  let w := W.new DOMAIN_OVERLAY_REQUEST in
  w ← match request with
      | RegisterPeer peer =>
          let w := W.peer_id (W.u8 w 1) (pa_peer_id peer) in
          let w := W.raw w (pa_public_key peer) in
          n ← ok_or (try_from U8_MAX (len (pa_capabilities peer))) (InvalidMessage "too many capabilities");
          let w := foldl (fun w c => W.u16 w (capability_code c)) (W.u8 w n) (pa_capabilities peer) in
          n ← ok_or (try_from U16_MAX (len (pa_content_ids peer)))
                (InvalidMessage "too many content identifiers");
          Ok (foldl W.content_id (W.u16 w n) (pa_content_ids peer))
      | HeartbeatPeer peer_id => Ok (W.peer_id (W.u8 w 2) peer_id)
      | PollPeer peer_id => Ok (W.peer_id (W.u8 w 3) peer_id)
      | RegisterRelay value =>
          w ← W.string (W.u8 w 4) (ra_relay_id value); W.string w (ra_address value)
      | HeartbeatRelay relay_id => W.string (W.u8 w 5) relay_id
      | Discover content_id => Ok (W.content_id (W.u8 w 6) content_id)
      | DiscoverProviders content_id limit => Ok (W.u16 (W.content_id (W.u8 w 7) content_id) limit)
      | ReportRelayFailure relay_id => W.string (W.u8 w 8) relay_id
      | Health => Ok (W.u8 w 9)
      end;
  W.finish w MAX_OVERLAY_MESSAGE_BYTES.

Definition read_peer_advertisement : parser PeerAdvertisement :=
  pid ← R.peer_id;
  key ← R.array 32;
  count ← R.u8;
  if count >? MAX_CAPABILITIES then R.fail (InvalidMessage "too many capabilities")
  else
    caps ← R.repeat (Z.to_nat count) read_capability;
    count ← R.u16;
    if count >? MAX_ADVERTISED_CONTENT_IDS then R.fail (InvalidMessage "too many content identifiers")
    else
      ids ← R.repeat (Z.to_nat count) R.content_id;
      mret (mkPeerAdvertisement pid key caps ids).

Definition read_overlay_request (kind : Z) : parser OverlayRequest :=
  match kind with
  | 1 => p ← read_peer_advertisement; mret (RegisterPeer p)
  | 2 => id ← R.peer_id; mret (HeartbeatPeer id)
  | 3 => id ← R.peer_id; mret (PollPeer id)
  | 4 => id ← R.string 64; addr ← R.string 128; mret (RegisterRelay (mkRelayAdvertisement id addr))
  | 5 => id ← R.string 64; mret (HeartbeatRelay id)
  | 6 => id ← R.content_id; mret (Discover id)
  | 7 => id ← R.content_id; limit ← R.u16; mret (DiscoverProviders id limit)
  | 8 => id ← R.string 64; mret (ReportRelayFailure id)
  | 9 => mret Health
  | kind => R.fail (UnknownMessage kind)
  end.

Definition decode_overlay_request `{Blake3} (bytes : list Z) : result ProtocolError OverlayRequest :=
  decode_with MAX_OVERLAY_MESSAGE_BYTES DOMAIN_OVERLAY_REQUEST read_overlay_request
    validate_overlay_request bytes.

(** ** Bootstrap responses *)

Definition encode_overlay_response (response : OverlayResponse) : result ProtocolError (list Z) :=
  _ ← validate_overlay_response response;
  let w := W.new DOMAIN_OVERLAY_RESPONSE in
  w ← match response with
      | Registered lease_ms => Ok (W.u64 (W.u8 w 1) lease_ms)
      | Assignment value => W.optional_assignment (W.u8 w 2) value
      | Route value => W.optional_assignment (W.u8 w 3) value
      | Routes values =>
          n ← ok_or (try_from U16_MAX (len values)) (InvalidMessage "too many routes");
          W.assignments (W.u16 (W.u8 w 4) n) values
      | Acknowledged => Ok (W.u8 w 5)
      | RError value => W.string (W.u8 w 255) value
      end;
  W.finish w MAX_OVERLAY_MESSAGE_BYTES.

Definition read_overlay_response (kind : Z) : parser OverlayResponse :=
  match kind with
  | 1 => v ← R.u64; mret (Registered v)
  | 2 => v ← R.optional_assignment; mret (Assignment v)
  | 3 => v ← R.optional_assignment; mret (Route v)
  | 4 => count ← R.u16;
         if count >? MAX_DISCOVERY_ROUTES then R.fail (InvalidMessage "too many route assignments")
         else vs ← R.repeat (Z.to_nat count) R.assignment; mret (Routes vs)
  | 5 => mret Acknowledged
  | 255 => s ← R.string MAX_ERROR_TEXT_BYTES; mret (RError s)
  | kind => R.fail (UnknownMessage kind)
  end.

Definition decode_overlay_response (bytes : list Z) : result ProtocolError OverlayResponse :=
  decode_with MAX_OVERLAY_MESSAGE_BYTES DOMAIN_OVERLAY_RESPONSE read_overlay_response
    validate_overlay_response bytes.
