(* ===== verification/WireFacts.v ===== *)
(** * WireFacts: the codec implements the Testnet v1 wire format

    [wire_*] write the grammar of spec/testnet-v1.md as functions from messages
    to bytes.  A [parser] [reads] a grammar when it accepts exactly the inputs
    that start with a word of the grammar.  Theorems: an encoder returns the wire
    form of every message its validator accepts, and a decoder accepts exactly
    the wire forms of valid messages; so encoding and decoding are inverse to
    each other in both directions. *)
From stdpp Require Import base tactics list numbers option.
From Stdlib Require Import ZArith Lia.
From Stdlib Require String.
From S2P Require Import Prelude Bytes Instances NetAddr Core Availability Wire.
Import stdpp.list.

Local Open Scope Z_scope.

(** ** Parsers and grammars *)

Definition rest (r : Reader) : list Z := drop (Z.to_nat (r_offset r)) (r_bytes r).

Definition reader_ok (r : Reader) : Prop :=
  0 <= r_offset r <= len (r_bytes r) /\ len (r_bytes r) <= MAX_OVERLAY_MESSAGE_BYTES
  /\ bytes_ok (r_bytes r).

Definition advance (r : Reader) (e : list Z) : Reader :=
  mkReader (r_bytes r) (r_offset r + len e).

(** [p] accepts exactly the inputs that start with a word of [G], and consumes
    that word. *)
Definition reads {A} (p : parser A) (G : A -> list Z -> Prop) : Prop :=
  forall r a r', reader_ok r ->
    p r = Ok (a, r') <-> exists e, G a e /\ e `prefix_of` rest r /\ r' = advance r e.

Lemma rest_advance r e s :
  reader_ok r -> rest r = e ++ s -> reader_ok (advance r e) /\ rest (advance r e) = s.
Proof.
  intros ((Ho & Hl) & Hm & Hb) Hr. unfold rest in *.
  assert (len (drop (Z.to_nat (r_offset r)) (r_bytes r)) = len e + len s) as Hlen
    by (rewrite Hr; len_lia).
  rewrite len_drop in Hlen. split.
  - unfold reader_ok, advance; simpl. split_and!; try done; len_lia.
  - unfold advance; simpl. rewrite Z2Nat.inj_add by len_lia.
    rewrite <- drop_drop, Hr. unfold len. rewrite Nat2Z.id. apply drop_app_length.
Qed.

Lemma advance_nil r : advance r [] = r.
Proof. destruct r. unfold advance. simpl. f_equal. unfold len; simpl. lia. Qed.

Lemma advance_app r e f : advance (advance r e) f = advance r (e ++ f).
Proof. unfold advance; simpl. f_equal. len_lia. Qed.

Lemma reads_iff {A} (p : parser A) G G' :
  reads p G -> (forall a e, G a e <-> G' a e) -> reads p G'.
Proof.
  intros Hp HG r a r' Hr. rewrite (Hp r a r' Hr).
  split; intros (e & He & ?); exists e; (split; [by apply HG|done]).
Qed.

Lemma reads_ret {A} (x : A) : reads (mret x) (fun a e => a = x /\ e = []).
Proof.
  intros r a r' Hr. unfold mret, parser_ret. split.
  - intros [= <- <-]. exists []. rewrite advance_nil. split_and!; try done. apply prefix_nil.
  - intros (e & [-> ->] & _ & ->). by rewrite advance_nil.
Qed.

Lemma reads_fail {A} err : reads (@R.fail A err) (fun _ _ => False).
Proof. intros r a r' Hr. unfold R.fail. naive_solver. Qed.

Lemma reads_check b err : reads (R.check b err) (fun _ e => b = true /\ e = []).
Proof.
  intros r [] r' Hr. unfold R.check. destruct b.
  - rewrite (reads_ret tt r tt r' Hr). naive_solver.
  - naive_solver.
Qed.

Lemma reads_bind {A B} (p : parser A) (q : A -> parser B) G H :
  reads p G -> (forall a e, G a e -> reads (q a) (H a)) ->
  reads (p ≫= q) (fun b e => exists a e1 e2, G a e1 /\ H a b e2 /\ e = e1 ++ e2).
Proof.
  intros Hp Hq r b r' Hr. unfold mbind, parser_bind. split.
  - intros Heq. destruct (p r) as [[a r1]|] eqn:Ep; [|done].
    apply Hp in Ep as (e1 & HG & [s Hs] & ->); [|done].
    destruct (rest_advance r e1 s Hr Hs) as [Hr1 Hrest].
    apply (Hq a e1 HG) in Heq as (e2 & HH & [t Ht] & ->); [|done].
    exists (e1 ++ e2). split_and!.
    + eauto 10.
    + exists t. rewrite Hs, <- app_assoc. f_equal. congruence.
    + apply advance_app.
  - intros (e & (a & e1 & e2 & HG & HH & ->) & [s Hs] & ->).
    rewrite <- app_assoc in Hs.
    rewrite (proj2 (Hp r a (advance r e1) Hr)) by (exists e1; split_and!; [done|by exists (e2 ++ s)|done]).
    destruct (rest_advance r e1 (e2 ++ s) Hr Hs) as [Hr1 Hrest].
    apply (Hq a e1 HG); [done|]. exists e2. split_and!; [done|by exists s|].
    symmetry. apply advance_app.
Qed.

Lemma reads_take n :
  0 <= n <= U32_MAX -> reads (R.take n) (fun s e => e = s /\ len s = n /\ bytes_ok s).
Proof.
  intros Hn r s r' Hr. pose proof Hr as ((Ho & Hl) & Hm & Hb). unfold R.take, checked_add.
  rewrite (proj2 (try_from_Some USIZE_MAX (r_offset r + n) (r_offset r + n)))
    by (unfold MAX_OVERLAY_MESSAGE_BYTES, U32_MAX, USIZE_MAX, U64_MAX in *; lia).
  simpl. split.
  - intros Hs. invert_ok. apply slice_Some in Ha as (_ & _ & Hle & Heq & Hls).
    replace (r_offset r + n - r_offset r) with n in * by lia.
    exists s. split_and!; [done|done| | |].
    + subst s. by apply bytes_ok_take, bytes_ok_drop.
    + subst s. unfold rest. exists (drop (Z.to_nat n) (drop (Z.to_nat (r_offset r)) (r_bytes r))).
      by rewrite take_drop.
    + unfold advance. by rewrite Hls.
  - intros (e & (-> & Hls & _) & [t Ht] & ->).
    assert (r_bytes r = take (Z.to_nat (r_offset r)) (r_bytes r) ++ s ++ t) as Hsplit.
    { rewrite <- Ht. unfold rest. by rewrite take_drop. }
    rewrite Hsplit at 1. rewrite (slice_middle _ s t); simpl.
    + unfold advance. by rewrite Hls.
    + rewrite len_take. lia.
    + rewrite len_take. lia.
Qed.

Lemma reads_array n :
  0 <= n <= U32_MAX -> reads (R.array n) (fun s e => e = s /\ len s = n /\ bytes_ok s).
Proof.
  intros Hn. unfold R.array. eapply reads_iff.
  { eapply reads_bind; [by apply reads_take|]. intros s e (-> & Hs & Hb). simpl.
    rewrite Hs, Z.eqb_refl. apply reads_ret. }
  intros a e. split.
  - intros (? & ? & ? & (-> & ? & ?) & [-> ->] & ->). by rewrite app_nil_r.
  - intros (-> & ? & ?). exists a, a, []. rewrite app_nil_r. naive_solver.
Qed.

(** A fixed-width big-endian integer. *)
Lemma reads_be (n : nat) (p : parser (list Z)) max :
  reads p (fun s e => e = s /\ len s = Z.of_nat n /\ bytes_ok s) ->
  max + 1 = 256 ^ Z.of_nat n ->
  reads (v ← p; mret (from_be v)) (fun v e => 0 <= v <= max /\ e = to_be n v).
Proof.
  intros Hp Hmax. eapply reads_iff.
  { eapply reads_bind; [done|]. intros s e _. apply reads_ret. }
  intros v e. split.
  - intros (s & ? & ? & (-> & Hs & Hb) & [-> ->] & ->). rewrite app_nil_r.
    pose proof (from_be_range s Hb) as Hr. rewrite Hs in Hr. split; [lia|].
    unfold len in Hs. apply Nat2Z.inj in Hs. subst n. symmetry. by apply to_be_from_be.
  - intros [Hv ->]. exists (to_be n v), (to_be n v), []. rewrite app_nil_r, len_to_be.
    split_and!; try done; [auto with triptorrent|]. by rewrite from_be_to_be by lia.
Qed.

Lemma reads_u8 : reads R.u8 (fun v e => 0 <= v <= U8_MAX /\ e = [v]).
Proof.
  eapply reads_iff.
  { apply (reads_be 1 (R.take 1) U8_MAX); [|done]. apply reads_take. unfold U32_MAX. lia. }
  intros v e. simpl. split; intros [Hv ->]; unfold U8_MAX in *; (split; [done|]);
    by rewrite Z.mod_small by lia.
Qed.

Lemma reads_u16 : reads R.u16 (fun v e => 0 <= v <= U16_MAX /\ e = to_be 2 v).
Proof. apply (reads_be 2); [apply reads_array; unfold U32_MAX; lia|done]. Qed.
Lemma reads_u32 : reads R.u32 (fun v e => 0 <= v <= U32_MAX /\ e = to_be 4 v).
Proof. apply (reads_be 4); [apply reads_array; unfold U32_MAX; lia|done]. Qed.
Lemma reads_u64 : reads R.u64 (fun v e => 0 <= v <= U64_MAX /\ e = to_be 8 v).
Proof. apply (reads_be 8); [apply reads_array; unfold U32_MAX; lia|done]. Qed.

Lemma reads_id : reads (R.array 32) (fun s e => id_ok s /\ e = s).
Proof.
  eapply reads_iff; [apply reads_array; unfold U32_MAX; lia|]. unfold id_ok. naive_solver.
Qed.

Lemma reads_if {A} (b : bool) (p : parser A) err G :
  (b = false -> reads p G) -> reads (if b then R.fail err else p) (fun a e => b = false /\ G a e).
Proof.
  intros Hp. destruct b.
  - eapply reads_iff; [apply reads_fail|]. naive_solver.
  - eapply reads_iff; [by apply Hp|]. naive_solver.
Qed.

(** Sequencing after a parser whose grammar is a function of the value read. *)
Lemma reads_seq {A B} (p : parser A) (q : A -> parser B) P enc H :
  reads p (fun a e => P a /\ e = enc a) -> (forall a, P a -> reads (q a) (H a)) ->
  reads (p ≫= q) (fun b e => exists a, P a /\ exists e2, H a b e2 /\ e = enc a ++ e2).
Proof.
  intros Hp Hq. eapply reads_iff.
  - eapply reads_bind; [exact Hp|]. intros a e [Ha _]. by apply Hq.
  - naive_solver.
Qed.

Lemma reads_map {A B} (p : parser A) (f : A -> B) P enc :
  reads p (fun a e => P a /\ e = enc a) ->
  reads (a ← p; mret (f a)) (fun b e => exists a, P a /\ b = f a /\ e = enc a).
Proof.
  intros Hp. eapply reads_iff.
  - eapply reads_seq; [exact Hp|]. intros a _. apply reads_ret.
  - intros b e. split.
    + intros (a & ? & e2 & [-> ->] & ->). rewrite app_nil_r. eauto.
    + intros (a & ? & -> & ->). exists a. split; [done|]. exists []. by rewrite app_nil_r.
Qed.

(** [give x]: the next value read is [x]; its word is the next prefix. *)
Ltac give x := exists x; split; [|eexists; split; [|reflexivity]].

(** ** The wire format *)

Definition wire_string (s : list Z) : list Z := to_be 2 (len s) ++ s.
Definition wire_bytes (s : list Z) : list Z := to_be 4 (len s) ++ s.
Definition wire_manifest (m : Manifest) : list Z :=
  m_content_id m ++ to_be 8 (m_length m) ++ to_be 4 (m_chunk_size m)
  ++ to_be 4 (len (m_chunks m)) ++ concat (m_chunks m).
Definition wire_chunk (c : Chunk) : list Z :=
  to_be 4 (c_index c) ++ c_id c ++ wire_bytes (c_data c).
Definition wire_assignment (a : RouteAssignment) : list Z :=
  provider_id a ++ provider_public_key a ++ wire_string (relay_id a)
  ++ wire_string (relay_address a) ++ wire_string (route a).
Definition wire_optional (a : option RouteAssignment) : list Z :=
  match a with None => [0] | Some a => 1 :: wire_assignment a end.
Definition wire_peer (p : PeerAdvertisement) : list Z :=
  pa_peer_id p ++ pa_public_key p
  ++ [len (pa_capabilities p)]
  ++ concat (map (fun c => to_be 2 (capability_code c)) (pa_capabilities p))
  ++ to_be 2 (len (pa_content_ids p)) ++ concat (pa_content_ids p).

(** "TTP1" || protocol:u16 || network_len:u8 || network || domain:u8 *)
Definition wire_header (domain : Z) : list Z :=
  WIRE_MAGIC ++ to_be 2 PROTOCOL_VERSION ++ [len NETWORK_ID] ++ NETWORK_ID ++ [domain].

(** type:u8 || body *)
Definition wire_message (m : Message) : list Z :=
  match m with
  | Request id => 1 :: id
  | MManifest m => 2 :: wire_manifest m
  | MChunk c => 3 :: wire_chunk c
  | Complete => [4]
  | MError s => 5 :: wire_string s
  | SwarmRequest id => 16 :: id
  | SwarmManifest m a => 17 :: wire_manifest m ++ to_be 4 (chunk_count a) ++ wire_bytes (bits a)
  | ChunkRequest i => 18 :: to_be 4 i
  | ChunkUnavailable i => 19 :: to_be 4 i
  | SwarmComplete => [20]
  end.

Definition wire_request (q : OverlayRequest) : list Z :=
  match q with
  | RegisterPeer p => 1 :: wire_peer p
  | HeartbeatPeer id => 2 :: id
  | PollPeer id => 3 :: id
  | RegisterRelay r => 4 :: wire_string (ra_relay_id r) ++ wire_string (ra_address r)
  | HeartbeatRelay id => 5 :: wire_string id
  | Discover id => 6 :: id
  | DiscoverProviders id limit => 7 :: id ++ to_be 2 limit
  | ReportRelayFailure id => 8 :: wire_string id
  | Health => [9]
  end.

Definition wire_response (s : OverlayResponse) : list Z :=
  match s with
  | Registered lease_ms => 1 :: to_be 8 lease_ms
  | Assignment a => 2 :: wire_optional a
  | Route a => 3 :: wire_optional a
  | Routes l => 4 :: to_be 2 (len l) ++ concat (map wire_assignment l)
  | Acknowledged => [5]
  | RError s => 255 :: wire_string s
  end.

(** ** Values of the Rust types *)

(** A Rust [String]. *)
Definition string_ok (s : list Z) : Prop := utf8_valid s = true /\ bytes_ok s.

Definition message_ok (m : Message) : Prop :=
  match m with
  | Request id | SwarmRequest id => id_ok id
  | MManifest m => manifest_ok m
  | MChunk c => chunk_ok c
  | MError s => string_ok s
  | SwarmManifest m a => manifest_ok m /\ availability_ok a
  | ChunkRequest i | ChunkUnavailable i => 0 <= i <= U32_MAX
  | Complete | SwarmComplete => True
  end.

Definition assignment_ok (a : RouteAssignment) : Prop :=
  id_ok (provider_id a) /\ id_ok (provider_public_key a) /\ string_ok (relay_id a)
  /\ string_ok (relay_address a) /\ string_ok (route a).

Definition peer_ok (p : PeerAdvertisement) : Prop :=
  id_ok (pa_peer_id p) /\ id_ok (pa_public_key p) /\ Forall id_ok (pa_content_ids p).

Definition request_ok (q : OverlayRequest) : Prop :=
  match q with
  | RegisterPeer p => peer_ok p
  | HeartbeatPeer id | PollPeer id | Discover id => id_ok id
  | RegisterRelay r => string_ok (ra_relay_id r) /\ string_ok (ra_address r)
  | HeartbeatRelay id | ReportRelayFailure id => string_ok id
  | DiscoverProviders id limit => id_ok id /\ 0 <= limit <= U16_MAX
  | Health => True
  end.

Definition response_ok (s : OverlayResponse) : Prop :=
  match s with
  | Registered lease_ms => 0 <= lease_ms <= U64_MAX
  | Assignment a | Route a => match a with Some a => assignment_ok a | None => True end
  | Routes l => Forall assignment_ok l
  | Acknowledged => True
  | RError s => string_ok s
  end.

(** ** Reading the parts *)

Lemma reads_bytes maximum :
  0 <= maximum <= U32_MAX ->
  reads (R.bytes maximum) (fun s e => (len s <= maximum /\ bytes_ok s) /\ e = wire_bytes s).
Proof.
  intros Hm. unfold R.bytes. eapply reads_iff.
  { eapply reads_seq; [apply reads_u32|]. intros n Hn. apply reads_if.
    intros _. by apply reads_take. }
  intros s e. split.
  - intros (n & Hn & e2 & (Hle & -> & <- & Hb) & ->).
    destruct (Z.gtb_spec (len s) maximum); [done|]. done.
  - intros [[Hle Hb] ->]. give (len s); [len_lia|].
    destruct (Z.gtb_spec (len s) maximum); [lia|]. done.
Qed.

Lemma reads_string maximum :
  0 <= maximum <= U16_MAX ->
  reads (R.string maximum) (fun s e => (len s <= maximum /\ string_ok s) /\ e = wire_string s).
Proof.
  intros Hm. unfold R.string. eapply reads_iff.
  { eapply reads_seq; [apply reads_u16|]. intros n Hn. apply reads_if. intros _.
    eapply reads_bind; [apply reads_take; unfold U16_MAX, U32_MAX in *; lia|].
    intros s e _. instantiate (1 := fun s s' e => utf8_valid s = true /\ s' = s /\ e = []). simpl.
    destruct (utf8_valid s).
    - eapply reads_iff; [apply reads_ret|]. naive_solver.
    - eapply reads_iff; [apply reads_fail|]. naive_solver. }
  intros s e. split.
  - intros (n & Hn & e2 & (Hle & s' & e1 & e3 & (-> & <- & Hb) & (Hu & -> & ->) & ->) & ->).
    rewrite app_nil_r. destruct (Z.gtb_spec (len s') maximum); [done|]. unfold string_ok. done.
  - intros [[Hle [Hu Hb]] ->]. give (len s); [len_lia|].
    destruct (Z.gtb_spec (len s) maximum); [lia|]. split; [done|].
    exists s, s, []. rewrite app_nil_r. done.
Qed.

Lemma reads_repeat {A} (item : parser A) P enc n :
  reads item (fun a e => P a /\ e = enc a) ->
  reads (R.repeat n item)
    (fun l e => (length l = n /\ Forall P l) /\ e = concat (map enc l)).
Proof.
  intros Hi. induction n as [|n IH]; simpl.
  - eapply reads_iff; [apply reads_ret|]. intros l e. split.
    + intros [-> ->]. done.
    + intros [[Hl _] ->]. destruct l; [done|]. simpl in Hl. lia.
  - eapply reads_iff.
    { eapply reads_seq; [exact Hi|]. intros a Ha. apply reads_map, IH. }
    intros l e. split.
    + intros (a & Ha & e2 & (l' & (Hl & HP) & -> & ->) & ->).
      split; [|done]. split; [simpl; lia|by constructor].
    + intros [[Hl HP] ->]. destruct l as [|a l]; [simpl in Hl; lia|].
      apply Forall_cons_iff in HP as [Ha HP]. give a; [done|].
      exists l. simpl in Hl. split_and!; try done. lia.
Qed.

Lemma len_length {A} (l : list A) n : 0 <= n -> length l = Z.to_nat n <-> len l = n.
Proof. unfold len. lia. Qed.

Lemma concat_map_id (l : list (list Z)) : concat (map (fun x => x) l) = concat l.
Proof. by rewrite map_id. Qed.

Lemma reads_manifest :
  reads R.manifest (fun m e => (manifest_ok m /\ len (m_chunks m) <= MAX_TESTNET_MANIFEST_CHUNKS)
                               /\ e = wire_manifest m).
Proof.
  unfold R.manifest, R.content_id. eapply reads_iff.
  { eapply reads_seq; [apply reads_id|]. intros cid Hcid.
    eapply reads_seq; [apply reads_u64|]. intros length Hlength.
    eapply reads_seq; [apply reads_u32|]. intros cs Hcs.
    eapply reads_seq; [apply reads_u32|]. intros count Hcount.
    apply reads_if. intros _. apply reads_map. apply (reads_repeat _ id_ok (fun x => x)), reads_id. }
  intros m e. split.
  - intros (cid & Hcid & ? & (l & Hl & ? & (cs & Hcs & ? & (n & Hn & ? &
      (Hgt & chs & (Hlen & Hall) & -> & ->) & ->) & ->) & ->) & ->).
    apply len_length in Hlen; [|lia]. subst n. unfold manifest_ok, wire_manifest. simpl.
    rewrite concat_map_id.
    destruct (Z.gtb_spec (len chs) MAX_TESTNET_MANIFEST_CHUNKS); [done|]. done.
  - intros [[(Hid & Hlen & Hcs & Hall) Hmax] ->]. destruct m as [cid l cs chs]; simpl in *.
    pose proof (len_nonneg chs).
    give cid; [done|]. give l; [done|]. give cs; [done|].
    give (len chs); [unfold MAX_TESTNET_MANIFEST_CHUNKS, U32_MAX in *; lia|].
    destruct (Z.gtb_spec (len chs) MAX_TESTNET_MANIFEST_CHUNKS); [lia|]. split; [done|].
    exists chs. rewrite concat_map_id. split_and!; try done. by apply len_length.
Qed.

Lemma reads_chunk :
  reads R.chunk (fun c e => (chunk_ok c /\ len (c_data c) <= CHUNK_SIZE) /\ e = wire_chunk c).
Proof.
  unfold R.chunk. eapply reads_iff.
  { eapply reads_seq; [apply reads_u32|]. intros index Hindex.
    eapply reads_seq; [apply reads_id|]. intros id Hid.
    apply reads_map, reads_bytes. rewrite CHUNK_SIZE_val. unfold U32_MAX. lia. }
  intros c e. split.
  - intros (i & Hi & ? & (id & Hid & ? & (d & [Hd Hb] & -> & ->) & ->) & ->). done.
  - intros [[(Hi & Hid & Hb) Hd] ->]. destruct c as [i id d]; simpl in *.
    give i; [done|]. give id; [done|]. exists d. done.
Qed.

Lemma reads_assignment :
  reads R.assignment
    (fun a e => (assignment_ok a /\ len (relay_id a) <= 64 /\ len (relay_address a) <= 128
                 /\ len (route a) <= 128) /\ e = wire_assignment a).
Proof.
  unfold R.assignment, R.peer_id. eapply reads_iff.
  { eapply reads_seq; [apply reads_id|]. intros pid Hpid.
    eapply reads_seq; [apply reads_id|]. intros key Hkey.
    eapply reads_seq; [apply reads_string; unfold U16_MAX; lia|]. intros rid Hrid.
    eapply reads_seq; [apply reads_string; unfold U16_MAX; lia|]. intros addr Haddr.
    apply reads_map, reads_string. unfold U16_MAX. lia. }
  intros a e. split.
  - intros (pid & ? & ? & (key & ? & ? & (rid & [? ?] & ? & (addr & [? ?] & ? &
      (rt & [? ?] & -> & ->) & ->) & ->) & ->) & ->).
    unfold assignment_ok. simpl. done.
  - intros [((? & ? & ? & ? & ?) & ? & ? & ?) ->]. destruct a as [pid key rid addr rt]; simpl in *.
    give pid; [done|]. give key; [done|]. give rid; [done|]. give addr; [done|]. exists rt. done.
Qed.

Lemma reads_optional :
  reads R.optional_assignment
    (fun o e => match o with
                | Some a => assignment_ok a /\ len (relay_id a) <= 64
                            /\ len (relay_address a) <= 128 /\ len (route a) <= 128
                | None => True
                end /\ e = wire_optional o).
Proof.
  unfold R.optional_assignment. eapply reads_iff.
  { eapply reads_seq; [apply reads_u8|]. intros tag Htag.
    instantiate (1 := fun tag o e =>
      (tag = 0 /\ o = None /\ e = [])
      \/ (tag = 1 /\ exists a, (assignment_ok a /\ len (relay_id a) <= 64
           /\ len (relay_address a) <= 128 /\ len (route a) <= 128)
           /\ o = Some a /\ e = wire_assignment a)). simpl.
    destruct (Z.eq_dec tag 0) as [->|H0].
    { eapply reads_iff; [apply reads_ret|]. naive_solver. }
    destruct (Z.eq_dec tag 1) as [->|H1].
    { eapply reads_iff; [apply reads_map, reads_assignment|]. naive_solver. }
    eapply reads_iff; [|intros o e; instantiate (1 := fun _ _ => False); naive_solver].
    destruct tag as [|p|p]; [done| |lia]. destruct p; [apply reads_fail..|done]. }
  intros o e. split.
  - intros (tag & ? & ? & [(-> & -> & ->)|(-> & a & ? & -> & ->)] & ->); done.
  - destruct o as [a|]; simpl; intros [Ha ->].
    + exists 1. split; [unfold U8_MAX; lia|]. exists (wire_assignment a). split; [|done].
      right. split; [done|]. exists a. done.
    + exists 0. split; [unfold U8_MAX; lia|]. exists []. split; [by left|done].
Qed.

Lemma reads_capability :
  reads read_capability (fun c e => True /\ e = to_be 2 (capability_code c)).
Proof.
  unfold read_capability. eapply reads_iff.
  { eapply reads_seq; [apply reads_u16|]. intros code Hcode.
    instantiate (1 := fun code c e => code = capability_code c /\ e = []). simpl.
    destruct (Z.eq_dec code 1) as [->|H1].
    { eapply reads_iff; [apply reads_ret|]. intros [] e; simpl; naive_solver. }
    destruct (Z.eq_dec code 2) as [->|H2].
    { eapply reads_iff; [apply reads_ret|]. intros [] e; simpl; naive_solver. }
    eapply reads_iff; [|intros c e; instantiate (1 := fun _ _ => False); destruct c; simpl; naive_solver].
    destruct code as [|p|p]; [apply reads_fail| |lia].
    destruct p as [p|p|]; [apply reads_fail| |done]. destruct p; [apply reads_fail..|done]. }
  intros c e. split.
  - intros (code & ? & ? & [-> ->] & ->). by rewrite app_nil_r.
  - intros [_ ->]. exists (capability_code c). split; [destruct c; unfold U16_MAX; simpl; lia|].
    exists []. by rewrite app_nil_r.
Qed.

Lemma reads_peer :
  reads read_peer_advertisement
    (fun p e => (peer_ok p /\ len (pa_capabilities p) <= MAX_CAPABILITIES
                 /\ len (pa_content_ids p) <= MAX_ADVERTISED_CONTENT_IDS) /\ e = wire_peer p).
Proof.
  unfold read_peer_advertisement, R.peer_id, R.content_id. eapply reads_iff.
  { eapply reads_seq; [apply reads_id|]. intros pid Hpid.
    eapply reads_seq; [apply reads_id|]. intros key Hkey.
    eapply reads_seq; [apply reads_u8|]. intros n Hn.
    apply reads_if. intros _.
    eapply reads_seq; [apply reads_repeat, reads_capability|]. intros caps Hcaps.
    eapply reads_seq; [apply reads_u16|]. intros m Hm.
    apply reads_if. intros _.
    apply reads_map, (reads_repeat _ id_ok (fun x => x)), reads_id. }
  intros p e. split.
  - intros (pid & ? & ? & (key & ? & ? & (n & Hn & ? & (Hg & caps & [Hlc _] & ? &
      (m & Hm & ? & (Hg' & ids & [Hli Hids] & -> & ->) & ->) & ->) & ->) & ->) & ->).
    apply len_length in Hlc, Hli; [|lia..]. subst. unfold peer_ok, wire_peer. simpl.
    rewrite concat_map_id.
    destruct (Z.gtb_spec (len caps) MAX_CAPABILITIES); [done|].
    destruct (Z.gtb_spec (len ids) MAX_ADVERTISED_CONTENT_IDS); [done|]. done.
  - intros [((? & ? & Hids) & Hc & Hi) ->]. destruct p as [pid key caps ids]; simpl in *.
    pose proof (len_nonneg caps). pose proof (len_nonneg ids).
    unfold MAX_CAPABILITIES, MAX_ADVERTISED_CONTENT_IDS in *.
    give pid; [done|]. give key; [done|]. give (len caps); [unfold U8_MAX; lia|].
    destruct (Z.gtb_spec (len caps) 8); [lia|]. split; [done|].
    give caps; [split; [by apply len_length|by apply Forall_true]|].
    give (len ids); [unfold U16_MAX; lia|].
    destruct (Z.gtb_spec (len ids) 256); [lia|]. split; [done|].
    exists ids. rewrite concat_map_id. split_and!; try done. by apply len_length.
Qed.

(** ** Reading whole messages *)

(** The bounds the readers enforce before validation. *)
Definition message_bounds (m : Message) : Prop :=
  match m with
  | MManifest m => len (m_chunks m) <= MAX_TESTNET_MANIFEST_CHUNKS
  | MChunk c => len (c_data c) <= CHUNK_SIZE
  | MError s => len s <= MAX_ERROR_TEXT_BYTES
  | SwarmManifest m a => len (m_chunks m) <= MAX_TESTNET_MANIFEST_CHUNKS
                         /\ len (bits a) <= MAX_APPLICATION_MESSAGE_BYTES
  | _ => True
  end.

Definition request_bounds (q : OverlayRequest) : Prop :=
  match q with
  | RegisterPeer p => len (pa_capabilities p) <= MAX_CAPABILITIES
                      /\ len (pa_content_ids p) <= MAX_ADVERTISED_CONTENT_IDS
  | RegisterRelay r => len (ra_relay_id r) <= 64 /\ len (ra_address r) <= 128
  | HeartbeatRelay id | ReportRelayFailure id => len id <= 64
  | _ => True
  end.

Definition assignment_bounds (a : RouteAssignment) : Prop :=
  len (relay_id a) <= 64 /\ len (relay_address a) <= 128 /\ len (route a) <= 128.

Definition response_bounds (s : OverlayResponse) : Prop :=
  match s with
  | Assignment (Some a) | Route (Some a) => assignment_bounds a
  | Routes l => len l <= MAX_DISCOVERY_ROUTES /\ Forall assignment_bounds l
  | RError s => len s <= MAX_ERROR_TEXT_BYTES
  | _ => True
  end.

(** [by_kind]: the value with the type byte at hand. *)
Ltac by_kind v := intros v e; split; [|destruct v; simpl; intros [? [=]]]; subst; try naive_solver.
(** [other_kind]: no value has this type byte. *)
Ltac other_kind :=
  eapply reads_iff; [apply reads_fail|];
  intros v e; split; [done|]; destruct v; simpl; intros [_ [=]]; congruence.
(** Split a type byte down to its bits. *)
Ltac kind_split :=
  try match goal with p : positive |- _ => destruct p as [p|p|]; try other_kind end.

Lemma reads_message kind :
  reads (read_message kind)
    (fun m e => (message_ok m /\ message_bounds m) /\ kind :: e = wire_message m).
Proof.
  destruct kind as [|p|p]; try other_kind.
  do 5 kind_split.
  all: unfold read_message, R.content_id.
  - (* 19 *) eapply reads_iff; [apply reads_map, reads_u32|]. by_kind v.
  - (* 17 *) eapply reads_iff.
    { eapply reads_seq; [apply reads_manifest|]. intros m Hm.
      eapply reads_seq; [apply reads_u32|]. intros n Hn. apply reads_map, reads_bytes. done. }
    by_kind v.
    + intros (m & [? ?] & ? & (n & ? & ? & (b & [? ?] & -> & ->) & ->) & ->). done.
    + destruct H as [[? [? ?]] [? ?]]. destruct availability as [n b]; simpl in *.
      give manifest; [done|]. give n; [done|]. exists b. done.
  - (* 5 *) eapply reads_iff; [apply reads_map, reads_string; done|]. by_kind v.
  - (* 3 *) eapply reads_iff; [apply reads_map, reads_chunk|]. by_kind v.
  - (* 18 *) eapply reads_iff; [apply reads_map, reads_u32|]. by_kind v.
  - (* 20 *) eapply reads_iff; [apply reads_ret|]. by_kind v.
  - (* 16 *) eapply reads_iff; [apply reads_map, reads_id|]. by_kind v.
  - (* 4 *) eapply reads_iff; [apply reads_ret|]. by_kind v.
  - (* 2 *) eapply reads_iff; [apply reads_map, reads_manifest|]. by_kind v.
  - (* 1 *) eapply reads_iff; [apply reads_map, reads_id|]. by_kind v.
Qed.

Lemma reads_request kind :
  reads (read_overlay_request kind)
    (fun q e => (request_ok q /\ request_bounds q) /\ kind :: e = wire_request q).
Proof.
  destruct kind as [|p|p]; try other_kind.
  do 4 kind_split.
  all: unfold read_overlay_request, R.peer_id, R.content_id.
  - (* 7 *) eapply reads_iff.
    { eapply reads_seq; [apply reads_id|]. intros id Hid. apply reads_map, reads_u16. }
    by_kind v.
  - (* 9 *) eapply reads_iff; [apply reads_ret|]. by_kind v.
  - (* 5 *) eapply reads_iff; [apply reads_map, reads_string; done|]. by_kind v.
  - (* 3 *) eapply reads_iff; [apply reads_map, reads_id|]. by_kind v.
  - (* 6 *) eapply reads_iff; [apply reads_map, reads_id|]. by_kind v.
  - (* 8 *) eapply reads_iff; [apply reads_map, reads_string; done|]. by_kind v.
  - (* 4 *) eapply reads_iff.
    { eapply reads_seq; [apply reads_string; done|]. intros id Hid. apply reads_map, reads_string. done. }
    by_kind v. destruct relay as [id addr]; simpl in *. destruct H as [[? ?] [? ?]].
      give id; [done|]. exists addr. done.
  - (* 2 *) eapply reads_iff; [apply reads_map, reads_id|]. by_kind v.
  - (* 1 *) eapply reads_iff; [apply reads_map, reads_peer|]. by_kind v.
Qed.

Lemma reads_response kind :
  reads (read_overlay_response kind)
    (fun s e => (response_ok s /\ response_bounds s) /\ kind :: e = wire_response s).
Proof.
  destruct kind as [|p|p]; try other_kind.
  do 8 kind_split.
  all: unfold read_overlay_response.
  - (* 255 *) eapply reads_iff; [apply reads_map, reads_string; done|]. by_kind v.
  - (* 5 *) eapply reads_iff; [apply reads_ret|]. by_kind v.
  - (* 3 *) eapply reads_iff; [apply reads_map, reads_optional|].
    intros v e. split.
    + intros (o & Ho & -> & ->). split; [|done]. simpl. unfold assignment_bounds. by destruct o.
    + destruct v as [|o|o| | |]; simpl; intros [Ho [=]]; subst e. exists o.
      split_and!; try done. unfold assignment_bounds in Ho. by destruct o.
  - (* 4 *) eapply reads_iff.
    { eapply reads_seq; [apply reads_u16|]. intros n Hn. apply reads_if. intros _.
      apply reads_map, reads_repeat, reads_assignment. }
    intros v e. split.
    + intros (n & Hn & ? & (Hg & l & [Hl HF] & -> & ->) & ->). apply len_length in Hl; [|lia].
      subst n. destruct (Z.gtb_spec (len l) MAX_DISCOVERY_ROUTES); [done|]. simpl.
      unfold assignment_bounds. split; [|done]. split; [|split; [done|]];
        (eapply Forall_impl; [exact HF|]); naive_solver.
    + destruct v as [| | |l| |]; simpl; intros [HH [=]]; subst e.
      destruct HH as [Hok [Hle Hb]].
      give (len l); [unfold MAX_DISCOVERY_ROUTES, U16_MAX in *; len_lia|].
      destruct (Z.gtb_spec (len l) MAX_DISCOVERY_ROUTES); [lia|]. split; [done|].
      exists l. split_and!; [by apply len_length; [len_lia|]| |done|done].
      rewrite List.Forall_forall in Hok, Hb |- *. intros a Ha. split; [by apply Hok|by apply Hb].
  - (* 2 *) eapply reads_iff; [apply reads_map, reads_optional|].
    intros v e. split.
    + intros (o & Ho & -> & ->). split; [|done]. simpl. unfold assignment_bounds. by destruct o.
    + destruct v as [|o|o| | |]; simpl; intros [Ho [=]]; subst e. exists o.
      split_and!; try done. unfold assignment_bounds in Ho. by destruct o.
  - (* 1 *) eapply reads_iff; [apply reads_map, reads_u64|]. by_kind v.
Qed.

Lemma reads_header domain :
  0 <= domain <= U8_MAX ->
  reads (R.new domain) (fun _ e => e = wire_header domain).
Proof.
  intros Hd. unfold R.new. eapply reads_iff.
  { eapply reads_bind; [apply reads_take; unfold U32_MAX; lia|]. intros magic ? _.
    eapply reads_bind; [apply reads_check|]. intros ? ? _.
    eapply reads_seq; [apply reads_u16|]. intros version Hv.
    eapply reads_bind; [apply reads_check|]. intros ? ? _.
    eapply reads_seq; [apply reads_u8|]. intros n Hn.
    eapply reads_bind; [apply reads_take; unfold U8_MAX, U32_MAX in *; lia|]. intros network ? _.
    eapply reads_bind; [apply reads_check|]. intros ? ? _.
    eapply reads_bind; [apply reads_check|]. intros ? ? _.
    eapply reads_seq; [apply reads_u8|]. intros d Hd'.
    apply reads_check. }
  intros [] e. split.
  - intros (magic & ? & ? & (-> & _ & _) & (? & ? & ? & [Hmagic ->] & (version & _ & ? &
      (? & ? & ? & [Hver ->] & (n & _ & ? & (network & ? & ? & (-> & <- & _) &
      (? & ? & ? & [_ ->] & (? & ? & ? & [Hnet ->] & (d & _ & ? & [Hdom ->] & ->) & ->) & ->) & ->) & ->)
      & ->) & ->) & ->) & ->).
    to_prop. subst. rewrite app_nil_r. reflexivity.
  - intros ->.
    exists WIRE_MAGIC, WIRE_MAGIC. eexists. split_and!; [done|done|apply bytes_ok_str| |reflexivity].
    exists tt, []. eexists. split_and!; [done|done| |reflexivity].
    give PROTOCOL_VERSION; [done|].
    exists tt, []. eexists. split_and!; [done|done| |reflexivity].
    give (len NETWORK_ID); [done|].
    exists NETWORK_ID, NETWORK_ID. eexists. split_and!; [done|done|apply bytes_ok_str| |reflexivity].
    exists tt, []. eexists. split_and!; [done|done| |reflexivity].
    exists tt, []. eexists. split_and!; [done|done| |reflexivity].
    exists domain. split; [done|]. exists []. split; [|done]. split; [|done]. apply Z.eqb_refl.
Qed.

(** Header, type byte and body, then the end of the input. *)
Definition framed {A} (domain : Z) (body : Z -> parser A) : parser A :=
  _ ← R.new domain; kind ← R.u8; body kind.

Lemma framed_reads {A} domain (body : Z -> parser A) (wire : A -> list Z) (P : A -> Prop) :
  0 <= domain <= U8_MAX ->
  (forall kind, reads (body kind) (fun v e => P v /\ kind :: e = wire v)) ->
  (forall v, P v -> exists kind e, 0 <= kind <= U8_MAX /\ wire v = kind :: e) ->
  reads (framed domain body) (fun v e => P v /\ e = wire_header domain ++ wire v).
Proof.
  intros Hd Hbody Hkind. eapply reads_iff.
  - eapply reads_bind; [by apply reads_header|]. intros ? ? _.
    eapply reads_seq; [apply reads_u8|]. intros kind Hk. apply Hbody.
  - intros w e. split.
    + intros ([] & ? & e2 & -> & (kind & Hk & e3 & [HP Hw] & ->) & ->). simpl. by rewrite Hw.
    + intros [HP ->]. destruct (Hkind w HP) as (kind & e & Hk & Hw).
      exists tt, (wire_header domain), (wire w). split_and!; [done| |done].
      exists kind. split; [done|]. exists e. by rewrite Hw.
Qed.

Lemma framed_end {A} domain (body : Z -> parser A) r w r1 :
  (_ ← R.new domain; kind ← R.u8; value ← body kind; _ ← R.end_; mret value) r = Ok (w, r1) <->
  framed domain body r = Ok (w, r1) /\ r_offset r1 = len (r_bytes r1).
Proof.
  unfold framed, mbind, parser_bind.
  destruct (R.new domain r) as [[[] r2]|]; [|naive_solver].
  destruct (R.u8 r2) as [[k r3]|]; [|naive_solver].
  destruct (body k r3) as [[x r4]|]; [|naive_solver]. unfold R.end_.
  destruct (Z.eqb_spec (r_offset r4) (len (r_bytes r4))); unfold mret, parser_ret; naive_solver.
Qed.

(** A parser that reads a grammar, run on a whole input up to its end, accepts exactly
    the words of the grammar. *)
Lemma reads_whole {A} (p : parser A) (G : A -> list Z -> Prop) b v r' :
  bytes_ok b -> len b <= MAX_OVERLAY_MESSAGE_BYTES -> reads p G ->
  p (mkReader b 0) = Ok (v, r') /\ r_offset r' = len (r_bytes r') <->
  G v b /\ r' = mkReader b (len b).
Proof.
  intros Hb Hle Hp.
  assert (reader_ok (mkReader b 0)) as Hr by (unfold reader_ok; simpl; split_and!; (done || len_lia)).
  rewrite (Hp _ v r' Hr). unfold rest, advance. simpl. rewrite drop_0. split.
  - intros [(e & He & [s Hs] & ->) Hoff]. simpl in Hoff. rewrite Hs in Hoff.
    autorewrite with len in Hoff. assert (s = []) as -> by (apply len_zero_inv; len_lia).
    rewrite app_nil_r in Hs. by subst e.
  - intros [HG ->]. split; [|done]. by exists b.
Qed.

(** A decoder accepts exactly header, type byte and body, of a value the
    validator accepts. *)
Lemma decode_with_Ok {A} limit domain (body : Z -> parser A) validate (wire : A -> list Z)
  (P : A -> Prop) b v :
  limit <= MAX_OVERLAY_MESSAGE_BYTES -> 0 <= domain <= U8_MAX ->
  (forall kind, reads (body kind) (fun v e => P v /\ kind :: e = wire v)) ->
  (forall v, P v -> exists kind e, 0 <= kind <= U8_MAX /\ wire v = kind :: e) ->
  bytes_ok b ->
  decode_with limit domain body validate b = Ok v <->
  len b <= limit /\ P v /\ validate v = Ok tt /\ b = wire_header domain ++ wire v.
Proof.
  intros Hlimit Hd Hbody Hkind Hb. unfold decode_with, ensure_size.
  destruct (Z.gtb_spec (len b) limit) as [|Hle]; simpl; [split; [done|lia]|].
  pose proof (fun v r' => reads_whole _ _ b v r' Hb ltac:(lia) (framed_reads domain body wire P Hd Hbody Hkind)) as Hp.
  split.
  - intros H. invert_ok. destruct a as [w r']. invert_ok.
    apply framed_end, Hp in Ha as [[HP Heq] _]. destruct a. done.
  - intros (_ & HP & Hv & Heq).
    rewrite (proj2 (framed_end _ _ _ v (mkReader b (len b)))); simpl.
    + by rewrite Hv.
    + by apply Hp.
Qed.

(** ** Writing *)

Lemma W_new_wire d : W.new d = wire_header d.
Proof. reflexivity. Qed.

Lemma len_wire_header d : len (wire_header d) = 29.
Proof. reflexivity. Qed.

Lemma foldl_raw w l : foldl W.raw w l = w ++ concat l.
Proof.
  revert w. induction l as [|x l IH]; intros w; simpl; [by rewrite app_nil_r|].
  rewrite IH. unfold W.raw. by rewrite <- app_assoc.
Qed.

Lemma W_string_wire w s : len s <= U16_MAX -> W.string w s = Ok (w ++ wire_string s).
Proof.
  intros Hs. unfold W.string, W.raw, W.u16, W.raw.
  rewrite (proj2 (try_from_Some _ _ (len s))) by len_lia. simpl. by rewrite <- app_assoc.
Qed.

Lemma W_bytes_wire w s : len s <= U32_MAX -> W.bytes w s = Ok (w ++ wire_bytes s).
Proof.
  intros Hs. unfold W.bytes, W.raw, W.u32, W.raw.
  rewrite (proj2 (try_from_Some _ _ (len s))) by len_lia. simpl. by rewrite <- app_assoc.
Qed.

Lemma W_manifest_wire w m :
  len (m_chunks m) <= U32_MAX -> W.manifest w m = Ok (w ++ wire_manifest m).
Proof.
  intros Hm. unfold W.manifest.
  rewrite (proj2 (try_from_Some _ _ (len (m_chunks m)))) by len_lia. cbn [ok_or mbind result_bind].
  rewrite foldl_raw. unfold W.u32, W.u64, W.content_id, W.raw, wire_manifest. by rewrite <- !app_assoc.
Qed.

Lemma W_chunk_wire w c : len (c_data c) <= U32_MAX -> W.chunk w c = Ok (w ++ wire_chunk c).
Proof.
  intros Hc. unfold W.chunk. rewrite W_bytes_wire by done.
  unfold W.u32, W.raw, wire_chunk. by rewrite <- !app_assoc.
Qed.

Lemma W_assignment_wire w a :
  assignment_bounds a -> W.assignment w a = Ok (w ++ wire_assignment a).
Proof.
  intros (H1 & H2 & H3). unfold W.assignment.
  rewrite W_string_wire by (unfold U16_MAX; lia). cbn [mbind result_bind].
  rewrite W_string_wire by (unfold U16_MAX; lia). cbn [mbind result_bind].
  rewrite W_string_wire by (unfold U16_MAX; lia).
  unfold W.peer_id, W.raw, wire_assignment. by rewrite <- !app_assoc.
Qed.

Lemma W_optional_wire w o :
  match o with Some a => assignment_bounds a | None => True end ->
  W.optional_assignment w o = Ok (w ++ wire_optional o).
Proof.
  destruct o as [a|]; intros Ha; simpl; [|done].
  rewrite W_assignment_wire by done. unfold W.u8. by rewrite <- app_assoc.
Qed.

Lemma W_assignments_wire w l :
  Forall assignment_bounds l -> W.assignments w l = Ok (w ++ concat (map wire_assignment l)).
Proof.
  intros Hl. revert w. induction Hl as [|a l Ha _ IH]; intros w; simpl; [by rewrite app_nil_r|].
  rewrite W_assignment_wire by done. cbn [mbind result_bind]. by rewrite IH, <- app_assoc.
Qed.

(** ** What the validators imply *)

Lemma validate_manifest_Ok m :
  validate_manifest m = Ok tt <->
  validate_shape m = Ok tt /\ len (m_chunks m) <= MAX_TESTNET_MANIFEST_CHUNKS.
Proof.
  unfold validate_manifest. destruct (validate_shape m) as [[]|]; simpl; [|naive_solver].
  destruct (Z.gtb_spec (len (m_chunks m)) MAX_TESTNET_MANIFEST_CHUNKS); naive_solver lia.
Qed.

Lemma bitfield_small cc : 0 <= cc <= MAX_TESTNET_MANIFEST_CHUNKS -> 0 <= div_ceil cc 8 <= 255.
Proof. unfold MAX_TESTNET_MANIFEST_CHUNKS. pose proof (div_ceil_spec cc 8). lia. Qed.

Lemma validate_swarm_manifest m a :
  validate_message (SwarmManifest m a) = Ok tt ->
  validate_manifest m = Ok tt /\ chunk_count a = len (m_chunks m) /\ is_valid a = true
  /\ len (bits a) = div_ceil (len (m_chunks m)) 8.
Proof.
  simpl. intros H. invert_ok. destruct a0. pose proof Ha as [_ Hm]%validate_manifest_Ok.
  pose proof (len_nonneg (m_chunks m)).
  rewrite (proj2 (try_from_Some U32_MAX _ (len (m_chunks m)))) in H
    by (unfold MAX_TESTNET_MANIFEST_CHUNKS, U32_MAX in *; lia). simpl in H.
  destruct (Z.eqb_spec (chunk_count a) (len (m_chunks m))) as [Hc|]; simpl in H; [|done].
  destruct (is_valid a) eqn:Hv; simpl in H; [|done]. split_and!; try done.
  unfold is_valid in Hv. rewrite Hc in Hv.
  rewrite bitfield_len_eq in Hv by (unfold MAX_TESTNET_MANIFEST_CHUNKS, U32_MAX in *; lia).
  destruct (Z.eqb_spec (len (bits a)) (div_ceil (len (m_chunks m)) 8)); [done|]. done.
Qed.

Lemma valid_message_bounds m : validate_message m = Ok tt -> message_bounds m.
Proof.
  destruct m as [| m | c | | s | | m a | | |]; simpl; try done.
  - intros [_ ?]%validate_manifest_Ok. done.
  - destruct (Z.gtb_spec (len (c_data c)) CHUNK_SIZE); [done|lia].
  - destruct (Z.gtb_spec (len s) MAX_ERROR_TEXT_BYTES); [done|lia].
  - intros (Hm & _ & _ & Hb)%validate_swarm_manifest. apply validate_manifest_Ok in Hm as [_ Hm].
    split; [done|]. rewrite Hb. pose proof (bitfield_small (len (m_chunks m)) ltac:(len_lia)).
    unfold MAX_APPLICATION_MESSAGE_BYTES. lia.
Qed.

Lemma valid_identifier_bounds s n : valid_identifier s n = true -> 1 <= len s <= n /\ string_ok s.
Proof.
  unfold valid_identifier. intros H. to_prop.
  split; [destruct s; [done|len_lia]|]. split; [by apply ident_utf8|by apply ident_bytes_ok].
Qed.

Lemma valid_assignment_bounds a : validate_assignment a = Ok tt -> assignment_bounds a.
Proof.
  unfold validate_assignment, assignment_bounds.
  destruct (valid_identifier (relay_id a) 64) eqn:E1; simpl; [|done].
  destruct (Z.gtb_spec (len (relay_address a)) 128); simpl; [done|].
  destruct (bad_address (relay_address a)); simpl; [done|].
  destruct (valid_identifier (route a) 128) eqn:E2; simpl; [|done]. intros _.
  apply valid_identifier_bounds in E1, E2. split_and!; lia.
Qed.

Lemma valid_request_bounds `{Blake3} q : validate_overlay_request q = Ok tt -> request_bounds q.
Proof.
  destruct q as [p| | |r|id| | |id|]; simpl; try done.
  - destruct (bool_decide (pa_peer_id p = _)); simpl; [|done].
    destruct (bool_decide (pa_content_ids p = [])); simpl; [done|].
    destruct (Z.gtb_spec (len (pa_content_ids p)) MAX_ADVERTISED_CONTENT_IDS); simpl; [done|].
    destruct (bool_decide (pa_capabilities p = [])); simpl; [done|].
    destruct (Z.gtb_spec (len (pa_capabilities p)) MAX_CAPABILITIES); simpl; [done|]. lia.
  - destruct (valid_identifier (ra_relay_id r) 64) eqn:E1; simpl; [|done].
    destruct (Z.gtb_spec (len (ra_address r)) 128); simpl; [done|]. intros _.
    apply valid_identifier_bounds in E1. lia.
  - destruct (valid_identifier id 64) eqn:E; [|done]. intros _. apply valid_identifier_bounds in E. lia.
  - destruct (valid_identifier id 64) eqn:E; [|done]. intros _. apply valid_identifier_bounds in E. lia.
Qed.

Lemma valid_response_bounds s : validate_overlay_response s = Ok tt -> response_bounds s.
Proof.
  destruct s as [|[a|]|[a|]|l| |s]; simpl; try done; try apply valid_assignment_bounds.
  - destruct (Z.gtb_spec (len l) MAX_DISCOVERY_ROUTES); [done|]. intros Hl%try_for_each_Ok.
    split; [lia|]. eapply Forall_impl; [exact Hl|]. apply valid_assignment_bounds.
  - destruct (Z.gtb_spec (len s) MAX_ERROR_TEXT_BYTES); [done|lia].
Qed.

(** ** Sizes *)

Lemma len_concat_ids (l : list (list Z)) : Forall id_ok l -> len (concat l) = 32 * len l.
Proof.
  induction 1 as [|x l [Hx _] _ IH]; [done|]. simpl. rewrite len_app, len_cons, Hx, IH. lia.
Qed.

Lemma len_wire_manifest m : manifest_ok m -> len (wire_manifest m) = 48 + 32 * len (m_chunks m).
Proof.
  intros ([Hid _] & _ & _ & Hc). unfold wire_manifest. autorewrite with len.
  rewrite Hid, len_concat_ids by done. lia.
Qed.

Lemma wire_message_size m :
  message_ok m -> validate_message m = Ok tt ->
  len (wire_header DOMAIN_APPLICATION ++ wire_message m) <= MAX_APPLICATION_MESSAGE_BYTES.
Proof.
  intros Hok Hv. pose proof (valid_message_bounds m Hv) as Hb.
  rewrite len_app, len_wire_header. unfold MAX_APPLICATION_MESSAGE_BYTES.
  destruct m as [id | m | c | | s | id | m a | | |]; simpl in *; autorewrite with len.
  - destruct Hok as [Hl _]. lia.
  - rewrite len_wire_manifest by done. unfold MAX_TESTNET_MANIFEST_CHUNKS in *. lia.
  - destruct Hok as (_ & [Hl _] & _). unfold wire_chunk, wire_bytes. autorewrite with len.
    rewrite CHUNK_SIZE_val in Hb. lia.
  - lia.
  - unfold wire_string. autorewrite with len. unfold MAX_ERROR_TEXT_BYTES in *. lia.
  - destruct Hok as [Hl _]. lia.
  - apply validate_swarm_manifest in Hv as (_ & _ & _ & Hbits). destruct Hok as [Hok _].
    rewrite len_wire_manifest by done. unfold wire_bytes. autorewrite with len.
    pose proof (bitfield_small (len (m_chunks m)) ltac:(len_lia)).
    unfold MAX_TESTNET_MANIFEST_CHUNKS in *. lia.
  - lia.
  - lia.
  - lia.
Qed.

Lemma len_wire_assignment a :
  assignment_ok a -> assignment_bounds a -> len (wire_assignment a) <= 390.
Proof.
  intros ([H1 _] & [H2 _] & _) (H3 & H4 & H5). unfold wire_assignment, wire_string.
  autorewrite with len. lia.
Qed.

Lemma len_capabilities l :
  len (concat (map (fun c => to_be 2 (capability_code c)) l)) = 2 * len l.
Proof.
  induction l as [|c l IH]; [done|]. cbn [map concat].
  rewrite len_app, len_to_be, len_cons, IH. lia.
Qed.

Lemma wire_request_size `{Blake3} q :
  request_ok q -> validate_overlay_request q = Ok tt ->
  len (wire_header DOMAIN_OVERLAY_REQUEST ++ wire_request q) <= MAX_OVERLAY_MESSAGE_BYTES.
Proof.
  intros Hok Hv. pose proof (valid_request_bounds q Hv) as Hb.
  rewrite len_app, len_wire_header. unfold MAX_OVERLAY_MESSAGE_BYTES. clear Hv.
  destruct q as [p|id|id|r|id|id|id n|id|]; simpl in *; unfold wire_string; autorewrite with len.
  - destruct Hok as ([H1 _] & [H2 _] & H3). unfold wire_peer. autorewrite with len.
    rewrite (len_concat_ids (pa_content_ids p)) by done.
    rewrite len_capabilities. unfold MAX_CAPABILITIES, MAX_ADVERTISED_CONTENT_IDS in *. lia.
  - destruct Hok as [? _]. lia.
  - destruct Hok as [? _]. lia.
  - lia.
  - lia.
  - destruct Hok as [? _]. lia.
  - destruct Hok as [[? _] _]. lia.
  - lia.
  - lia.
Qed.

Lemma wire_response_size s :
  response_ok s -> validate_overlay_response s = Ok tt ->
  len (wire_header DOMAIN_OVERLAY_RESPONSE ++ wire_response s) <= MAX_OVERLAY_MESSAGE_BYTES.
Proof.
  intros Hok Hv. pose proof (valid_response_bounds s Hv) as Hb.
  rewrite len_app, len_wire_header. unfold MAX_OVERLAY_MESSAGE_BYTES. clear Hv.
  destruct s as [|[a|]|[a|]|l| |s]; simpl in *; unfold wire_string; autorewrite with len.
  - lia.
  - pose proof (len_wire_assignment a Hok Hb). lia.
  - lia.
  - pose proof (len_wire_assignment a Hok Hb). lia.
  - lia.
  - destruct Hb as [Hl Hb].
    assert (len (concat (map wire_assignment l)) <= 390 * len l).
    { clear Hl. induction l as [|a l IH]; [done|].
      apply Forall_cons_iff in Hok as [? ?], Hb as [? ?]. cbn [map concat]. rewrite len_app, len_cons.
      pose proof (len_wire_assignment a). specialize (IH ltac:(done) ltac:(done)). naive_solver lia. }
    unfold MAX_DISCOVERY_ROUTES in *. lia.
  - lia.
  - unfold MAX_ERROR_TEXT_BYTES in *. lia.
Qed.

Lemma finish_wire b limit : len b <= limit -> W.finish b limit = Ok b.
Proof. intros Hb. unfold W.finish, ensure_size. destruct (Z.gtb_spec (len b) limit); [lia|done]. Qed.

Lemma encode_wire m :
  message_ok m ->
  encode m = (_ ← validate_message m; Ok (wire_header DOMAIN_APPLICATION ++ wire_message m)).
Proof.
  intros Hok. unfold encode. destruct (validate_message m) as [[]|] eqn:Hv; [|done].
  pose proof (valid_message_bounds m Hv) as Hb. pose proof (wire_message_size m Hok Hv) as Hs.
  cbn [mbind result_bind]. rewrite W_new_wire.
  destruct m as [id | m | c | | s | id | m a | | |]; cbn [message_bounds wire_message] in *;
    unfold W.u8, W.content_id, W.u32, W.raw.
  2: rewrite W_manifest_wire by (unfold MAX_TESTNET_MANIFEST_CHUNKS, U32_MAX in *; lia).
  3: rewrite W_chunk_wire by (rewrite CHUNK_SIZE_val in Hb; unfold U32_MAX; lia).
  5: rewrite W_string_wire by (unfold MAX_ERROR_TEXT_BYTES, U16_MAX in *; lia).
  7: rewrite W_manifest_wire by (unfold MAX_TESTNET_MANIFEST_CHUNKS, U32_MAX in *; lia);
     cbn [mbind result_bind];
     rewrite W_bytes_wire by (unfold MAX_APPLICATION_MESSAGE_BYTES, U32_MAX in *; lia).
  all: cbn [mbind result_bind]; rewrite <- ?app_assoc; cbn [app]; by apply finish_wire.
Qed.

Lemma foldl_capabilities w l :
  foldl (fun w c => W.u16 w (capability_code c)) w l
  = w ++ concat (map (fun c => to_be 2 (capability_code c)) l).
Proof.
  revert w. induction l as [|c l IH]; intros w; [by rewrite app_nil_r|].
  cbn [foldl map concat]. rewrite IH. unfold W.u16, W.raw. by rewrite <- app_assoc.
Qed.

Lemma encode_request_wire `{Blake3} q :
  request_ok q ->
  encode_overlay_request q
  = (_ ← validate_overlay_request q; Ok (wire_header DOMAIN_OVERLAY_REQUEST ++ wire_request q)).
Proof.
  intros Hok. unfold encode_overlay_request.
  destruct (validate_overlay_request q) as [[]|] eqn:Hv; [|done].
  pose proof (valid_request_bounds q Hv) as Hb. pose proof (wire_request_size q Hok Hv) as Hs.
  cbn [mbind result_bind]. rewrite W_new_wire.
  destruct q as [p|id|id|r|id|id|id n|id|]; cbn [request_bounds wire_request] in *;
    unfold W.u8, W.content_id, W.peer_id, W.u16, W.raw.
  1: { rewrite (proj2 (try_from_Some U8_MAX _ (len (pa_capabilities p))))
         by (unfold MAX_CAPABILITIES, U8_MAX in *; len_lia).
       rewrite (proj2 (try_from_Some U16_MAX _ (len (pa_content_ids p))))
         by (unfold MAX_ADVERTISED_CONTENT_IDS, U16_MAX in *; len_lia).
       cbn [ok_or mbind result_bind].
       change (fun w value : list Z => w ++ value) with W.raw.
       change (fun (w : list Z) (c : PeerCapability) => w ++ to_be 2 (capability_code c))
         with (fun w c => W.u16 w (capability_code c)).
       rewrite foldl_raw, foldl_capabilities. rewrite <- !app_assoc.
       unfold wire_peer in Hs |- *. by apply finish_wire. }
  3: rewrite W_string_wire by (unfold U16_MAX; lia); cbn [mbind result_bind];
     rewrite W_string_wire by (unfold U16_MAX; lia).
  4, 7: rewrite W_string_wire by (unfold U16_MAX; lia).
  all: cbn [mbind result_bind]; rewrite <- ?app_assoc; cbn [app]; by apply finish_wire.
Qed.

Lemma encode_response_wire s :
  response_ok s ->
  encode_overlay_response s
  = (_ ← validate_overlay_response s; Ok (wire_header DOMAIN_OVERLAY_RESPONSE ++ wire_response s)).
Proof.
  intros Hok. unfold encode_overlay_response.
  destruct (validate_overlay_response s) as [[]|] eqn:Hv; [|done].
  pose proof (valid_response_bounds s Hv) as Hb. pose proof (wire_response_size s Hok Hv) as Hs.
  cbn [mbind result_bind]. rewrite W_new_wire.
  destruct s as [n|o|o|l| |s]; cbn [response_bounds wire_response] in *;
    unfold W.u8, W.u64, W.u16, W.raw.
  2, 3: rewrite W_optional_wire by (by destruct o).
  4: rewrite (proj2 (try_from_Some U16_MAX _ (len l)))
       by (unfold MAX_DISCOVERY_ROUTES, U16_MAX in *; len_lia);
     cbn [ok_or mbind result_bind]; rewrite W_assignments_wire by apply Hb.
  6: rewrite W_string_wire by (unfold MAX_ERROR_TEXT_BYTES, U16_MAX in *; lia).
  all: cbn [mbind result_bind]; rewrite <- ?app_assoc; cbn [app]; by apply finish_wire.
Qed.

Lemma wire_message_kind m :
  message_ok m /\ message_bounds m ->
  exists kind e, 0 <= kind <= U8_MAX /\ wire_message m = kind :: e.
Proof. intros _. destruct m; simpl; do 2 eexists; (split; [|reflexivity]); done. Qed.

Lemma wire_request_kind q :
  request_ok q /\ request_bounds q ->
  exists kind e, 0 <= kind <= U8_MAX /\ wire_request q = kind :: e.
Proof. intros _. destruct q; simpl; do 2 eexists; (split; [|reflexivity]); done. Qed.

Lemma wire_response_kind s :
  response_ok s /\ response_bounds s ->
  exists kind e, 0 <= kind <= U8_MAX /\ wire_response s = kind :: e.
Proof. intros _. destruct s; simpl; do 2 eexists; (split; [|reflexivity]); done. Qed.

(** Reading a known prefix. *)
Lemma run_prefix {A} (p : parser A) G r a e s :
  reads p G -> reader_ok r -> G a e -> rest r = e ++ s ->
  p r = Ok (a, advance r e) /\ reader_ok (advance r e) /\ rest (advance r e) = s.
Proof.
  intros Hp Hr HG Hs. split; [|by apply rest_advance].
  apply Hp; [done|]. exists e. split_and!; [done|by exists s|done].
Qed.

Lemma run_u16 r v s :
  reader_ok r -> 0 <= v <= U16_MAX -> rest r = to_be 2 v ++ s ->
  exists r1, R.u16 r = Ok (v, r1) /\ reader_ok r1 /\ rest r1 = s.
Proof. intros Hro Hv Hs. eexists. by eapply (run_prefix R.u16); [apply reads_u16| | |]. Qed.

Lemma run_u8 r v s :
  reader_ok r -> 0 <= v <= U8_MAX -> rest r = [v] ++ s ->
  exists r1, R.u8 r = Ok (v, r1) /\ reader_ok r1 /\ rest r1 = s.
Proof. intros Hro Hv Hs. eexists. by eapply (run_prefix R.u8); [apply reads_u8| | |]. Qed.

Lemma run_take r n s :
  reader_ok r -> len n <= U8_MAX -> rest r = n ++ s ->
  exists r1, R.take (len n) r = Ok (n, r1) /\ reader_ok r1 /\ rest r1 = s.
Proof.
  intros Hro Hn Hs. eexists.
  eapply (run_prefix (R.take (len n)));
    [apply reads_take; unfold U8_MAX, U32_MAX in *; len_lia|done| |done].
  split_and!; [done|done|]. destruct Hro as (_ & _ & Hbr).
  apply (bytes_ok_drop (Z.to_nat (r_offset r))) in Hbr. unfold rest in Hs. rewrite Hs in Hbr.
  apply bytes_ok_app in Hbr. tauto.
Qed.

(** ** Decoders and encoders *)

Lemma decode_iff (b : list Z) (m : Message) :
  bytes_ok b -> decode b = Ok m <-> message_ok m /\ encode m = Ok b.
Proof.
  intros Hb. unfold decode.
  rewrite (decode_with_Ok _ _ _ _ wire_message (fun m => message_ok m /\ message_bounds m));
    [|done|done|apply reads_message|apply wire_message_kind|done].
  split.
  - intros (_ & [Hok _] & Hv & ->). by rewrite encode_wire, Hv.
  - intros [Hok He]. rewrite encode_wire in He by done. invert_ok. destruct a.
    split_and!; try done; [by apply wire_message_size|by apply valid_message_bounds].
Qed.

Lemma decode_request_iff `{Blake3} (b : list Z) (q : OverlayRequest) :
  bytes_ok b ->
  decode_overlay_request b = Ok q <-> request_ok q /\ encode_overlay_request q = Ok b.
Proof.
  intros Hb. unfold decode_overlay_request.
  rewrite (decode_with_Ok _ _ _ _ wire_request (fun q => request_ok q /\ request_bounds q));
    [|done|done|apply reads_request|apply wire_request_kind|done].
  split.
  - intros (_ & [Hok _] & Hv & ->). by rewrite encode_request_wire, Hv.
  - intros [Hok He]. rewrite encode_request_wire in He by done. invert_ok. destruct a.
    split_and!; try done; [by apply wire_request_size|by apply valid_request_bounds].
Qed.

Lemma decode_response_iff (b : list Z) (s : OverlayResponse) :
  bytes_ok b ->
  decode_overlay_response b = Ok s <-> response_ok s /\ encode_overlay_response s = Ok b.
Proof.
  intros Hb. unfold decode_overlay_response.
  rewrite (decode_with_Ok _ _ _ _ wire_response (fun s => response_ok s /\ response_bounds s));
    [|done|done|apply reads_response|apply wire_response_kind|done].
  split.
  - intros (_ & [Hok _] & Hv & ->). by rewrite encode_response_wire, Hv.
  - intros [Hok He]. rewrite encode_response_wire in He by done. invert_ok. destruct a.
    split_and!; try done; [by apply wire_response_size|by apply valid_response_bounds].
Qed.

(** The words of the grammar are byte strings. *)
Lemma bytes_ok_concat l : Forall bytes_ok l -> bytes_ok (concat l).
Proof. induction 1; simpl; [constructor|]. apply bytes_ok_app. done. Qed.

Lemma bytes_ok_ids l : Forall id_ok l -> bytes_ok (concat l).
Proof. intros H. apply bytes_ok_concat. eapply Forall_impl; [exact H|]. by intros ? []. Qed.

Lemma bytes_ok_wire_string s : bytes_ok s -> bytes_ok (wire_string s).
Proof. intros. apply bytes_ok_app. split; [apply bytes_ok_to_be|done]. Qed.

Lemma bytes_ok_wire_bytes s : bytes_ok s -> bytes_ok (wire_bytes s).
Proof. intros. apply bytes_ok_app. split; [apply bytes_ok_to_be|done]. Qed.

Create HintDb wire_bytes.
#[local] Hint Resolve bytes_ok_to_be bytes_ok_ids bytes_ok_wire_string bytes_ok_wire_bytes : wire_bytes.
Lemma bytes_ok_wire_assignment a : assignment_ok a -> bytes_ok (wire_assignment a).
Proof.
  intros ([_ ?] & [_ ?] & [_ ?] & [_ ?] & [_ ?]). unfold wire_assignment.
  rewrite !bytes_ok_app. split_and!; auto with wire_bytes.
Qed.

Lemma bytes_ok_wire_manifest m : manifest_ok m -> bytes_ok (wire_manifest m).
Proof.
  intros ([_ ?] & _ & _ & ?). unfold wire_manifest. rewrite !bytes_ok_app.
  split_and!; auto with wire_bytes.
Qed.

Lemma bytes_ok_wire_header d : is_byte d -> bytes_ok (wire_header d).
Proof.
  intros Hd. unfold wire_header. rewrite !bytes_ok_app. split_and!.
  - apply bytes_ok_str.
  - apply bytes_ok_to_be.
  - repeat constructor; vm_compute; discriminate.
  - apply bytes_ok_str.
  - repeat constructor; apply Hd.
Qed.

Lemma encode_Ok m b :
  message_ok m -> encode m = Ok b ->
  validate_message m = Ok tt /\ b = wire_header DOMAIN_APPLICATION ++ wire_message m.
Proof.
  intros Hm He. rewrite encode_wire in He by done.
  destruct (validate_message m) as [[]|]; [|done]. split; [done|]. symmetry. by apply Ok_inj in He.
Qed.

Lemma encode_response_Ok s b :
  response_ok s -> encode_overlay_response s = Ok b ->
  validate_overlay_response s = Ok tt /\ b = wire_header DOMAIN_OVERLAY_RESPONSE ++ wire_response s.
Proof.
  intros Hs He. rewrite encode_response_wire in He by done.
  destruct (validate_overlay_response s) as [[]|]; [|done]. split; [done|]. symmetry. by apply Ok_inj in He.
Qed.

Lemma encode_bytes_ok m b : message_ok m -> encode m = Ok b -> bytes_ok b.
Proof.
  intros Hm He. apply encode_Ok in He as [_ ->]; [|done]. apply bytes_ok_app.
  split; [apply bytes_ok_wire_header; unfold is_byte, DOMAIN_APPLICATION; lia|].
  destruct m as [id | m | c | | t | id | m av | i | i |]; cbn [wire_message]; apply bytes_ok_cons;
    (split; [unfold is_byte; lia|]); cbn [message_ok] in Hm.
  1,6: apply Hm.
  1: by apply bytes_ok_wire_manifest.
  1: destruct Hm as (_ & [_ ?] & ?); unfold wire_chunk; rewrite !bytes_ok_app;
     split_and!; auto with wire_bytes.
  2: destruct Hm; auto with wire_bytes.
  2: destruct Hm as [? [_ ?]]; rewrite !bytes_ok_app; split_and!; auto using bytes_ok_wire_manifest with wire_bytes.
  all: auto with wire_bytes; constructor.
Qed.

Lemma encode_response_bytes_ok s b :
  response_ok s -> encode_overlay_response s = Ok b -> bytes_ok b.
Proof.
  intros Hs He. apply encode_response_Ok in He as [_ ->]; [|done]. apply bytes_ok_app.
  split; [apply bytes_ok_wire_header; unfold is_byte, DOMAIN_OVERLAY_RESPONSE; lia|].
  destruct s as [n|[v|]|[v|]|l| |t]; cbn [wire_response wire_optional]; apply bytes_ok_cons;
    (split; [unfold is_byte; lia|]); cbn [response_ok] in Hs; rewrite ?bytes_ok_cons, ?bytes_ok_app;
    split_and?; try (unfold is_byte; lia); auto using bytes_ok_wire_assignment with wire_bytes.
  - constructor.
  - constructor.
  - apply bytes_ok_concat, Forall_map. eapply Forall_impl; [exact Hs|]. apply bytes_ok_wire_assignment.
  - constructor.
  - destruct Hs; auto with wire_bytes.
Qed.

Lemma encode_request_Ok `{Blake3} q b :
  request_ok q -> encode_overlay_request q = Ok b ->
  validate_overlay_request q = Ok tt /\ b = wire_header DOMAIN_OVERLAY_REQUEST ++ wire_request q.
Proof.
  intros Hq He. rewrite encode_request_wire in He by done.
  destruct (validate_overlay_request q) as [[]|]; [|done]. split; [done|]. symmetry. by apply Ok_inj in He.
Qed.

Lemma encode_request_bytes_ok `{Blake3} q b :
  request_ok q -> encode_overlay_request q = Ok b -> bytes_ok b.
Proof.
  intros Hq He. apply encode_request_Ok in He as [Hv ->]; [|done]. apply bytes_ok_app.
  split; [apply bytes_ok_wire_header; unfold is_byte, DOMAIN_OVERLAY_REQUEST; lia|].
  pose proof (valid_request_bounds _ Hv) as Hb.
  destruct q as [p|i|i|v|i|i|i n|i|]; cbn [wire_request request_ok request_bounds] in *; apply bytes_ok_cons;
    (split; [unfold is_byte; lia|]).
  2,3,6: apply Hq.
  - destruct Hq as ([_ ?] & [_ ?] & ?). unfold wire_peer. rewrite !bytes_ok_app.
    split_and!; auto with wire_bytes.
    + repeat constructor; pose_lens; unfold MAX_CAPABILITIES in *; lia.
    + apply bytes_ok_concat, Forall_map, Forall_true. intros; apply bytes_ok_to_be.
  - destruct Hq as [[_ ?] [_ ?]]. rewrite bytes_ok_app. split; auto with wire_bytes.
  - destruct Hq; auto with wire_bytes.
  - destruct Hq as [[_ ?] _]. rewrite bytes_ok_app. split; auto with wire_bytes.
  - destruct Hq; auto with wire_bytes.
  - constructor.
Qed.

Lemma encode_request_size `{Blake3} q b :
  encode_overlay_request q = Ok b -> len b <= MAX_OVERLAY_MESSAGE_BYTES.
Proof.
  unfold encode_overlay_request. intros He. invert_ok. unfold W.finish in He. invert_ok.
  unfold ensure_size in *. destruct (Z.gtb_spec (len b) MAX_OVERLAY_MESSAGE_BYTES); [done|lia].
Qed.

Lemma decode_encode_request `{Blake3} q b :
  request_ok q -> encode_overlay_request q = Ok b -> decode_overlay_request b = Ok q.
Proof. intros Hq He. apply decode_request_iff; [by eapply encode_request_bytes_ok|done]. Qed.

Lemma encode_size m b : encode m = Ok b -> len b <= MAX_APPLICATION_MESSAGE_BYTES.
Proof.
  unfold encode. intros He. invert_ok. unfold W.finish in He. invert_ok.
  unfold ensure_size in *. destruct (Z.gtb_spec (len b) MAX_APPLICATION_MESSAGE_BYTES); [done|lia].
Qed.

Lemma encode_response_size s b : encode_overlay_response s = Ok b -> len b <= MAX_OVERLAY_MESSAGE_BYTES.
Proof.
  unfold encode_overlay_response. intros He. invert_ok. unfold W.finish in He. invert_ok.
  unfold ensure_size in *. destruct (Z.gtb_spec (len b) MAX_OVERLAY_MESSAGE_BYTES); [done|lia].
Qed.

Lemma decode_encode m b : message_ok m -> encode m = Ok b -> decode b = Ok m.
Proof. intros Hm He. apply decode_iff; [by eapply encode_bytes_ok|done]. Qed.

Lemma decode_encode_response s b :
  response_ok s -> encode_overlay_response s = Ok b -> decode_overlay_response b = Ok s.
Proof. intros Hs He. apply decode_response_iff; [by eapply encode_response_bytes_ok|done]. Qed.

(** ** Properties *)

(** C8: on values of the Rust types the three encoders return the header,
    the type byte and the body of the Testnet v1 grammar whenever the validator
    accepts the value, and the validator's error otherwise; in particular a
    valid message never exceeds the record size limit. *)
Theorem encoders_implement_wire_format `{Blake3} :
  (forall m, message_ok m ->
     encode m = match validate_message m with
                | Ok _ => Ok (wire_header DOMAIN_APPLICATION ++ wire_message m)
                | Err e => Err e end)
  /\ (forall q, request_ok q ->
     encode_overlay_request q
     = match validate_overlay_request q with
       | Ok _ => Ok (wire_header DOMAIN_OVERLAY_REQUEST ++ wire_request q)
       | Err e => Err e end)
  /\ (forall s, response_ok s ->
     encode_overlay_response s
     = match validate_overlay_response s with
       | Ok _ => Ok (wire_header DOMAIN_OVERLAY_RESPONSE ++ wire_response s)
       | Err e => Err e end).
Proof.
  split_and!.
  - intros m Hm. by rewrite encode_wire.
  - intros q Hq. by rewrite encode_request_wire.
  - intros s Hs. by rewrite encode_response_wire.
Qed.

(** C7: each of the three decoders accepts exactly the encodings of valid values and
    returns the value encoded: decoding inverts encoding, and every accepted record is the
    unique canonical encoding of its message, request or response. *)
Theorem decode_exact `{Blake3} (b : list Z) :
  bytes_ok b ->
  (forall m, decode b = Ok m <-> message_ok m /\ encode m = Ok b)
  /\ (forall q, decode_overlay_request b = Ok q <-> request_ok q /\ encode_overlay_request q = Ok b)
  /\ (forall s, decode_overlay_response b = Ok s <-> response_ok s /\ encode_overlay_response s = Ok b).
Proof.
  intros Hb. split_and!; intros; [by apply decode_iff|by apply decode_request_iff|by apply decode_response_iff].
Qed.

(** Negotiation fails closed in every decoder: another protocol version,
    another network or another message domain is rejected with its own error
    before any of the body is read, whatever follows. *)
Theorem negotiation_fails_closed {A} (limit domain : Z) (body : Z -> parser A)
  (validate : A -> result ProtocolError unit) (b t : list Z) :
  bytes_ok b -> len b <= limit -> limit <= MAX_OVERLAY_MESSAGE_BYTES ->
  (forall v, 0 <= v <= U16_MAX -> v <> PROTOCOL_VERSION ->
     b = WIRE_MAGIC ++ to_be 2 v ++ t ->
     decode_with limit domain body validate b = Err (UnsupportedVersion v))
  /\ (forall n, len n <= U8_MAX -> utf8_valid n = true -> n <> NETWORK_ID ->
     b = WIRE_MAGIC ++ to_be 2 PROTOCOL_VERSION ++ [len n] ++ n ++ t ->
     decode_with limit domain body validate b = Err (WrongNetwork n))
  /\ (forall d, 0 <= d <= U8_MAX -> d <> domain ->
     b = wire_header d ++ t ->
     decode_with limit domain body validate b = Err (Malformed "wrong message domain")).
Proof.
  intros Hb Hle Hlim.
  assert (reader_ok (mkReader b 0)) as Hr by (unfold reader_ok; simpl; split_and!; (done || len_lia)).
  pose proof (run_take (mkReader b 0) WIRE_MAGIC) as Hmagic. change (len WIRE_MAGIC) with 4 in Hmagic.
  change (rest (mkReader b 0)) with b in Hmagic.
  unfold decode_with, ensure_size. destruct (Z.gtb_spec (len b) limit); [lia|]. cbn [mbind result_bind].
  unfold R.new, R.check, mbind, parser_bind, result_bind, mret, parser_ret.
  split_and!.
  - intros v Hv Hne Heq. destruct (Hmagic _ Hr ltac:(done) Heq) as (r1 & -> & Hr1 & Hs1).
    rewrite bool_decide_eq_true_2 by done.
    destruct (run_u16 _ v _ Hr1 Hv Hs1) as (r2 & -> & _). by rewrite (proj2 (Z.eqb_neq _ _) Hne).
  - intros n Hn Hu Hne Heq. destruct (Hmagic _ Hr ltac:(done) Heq) as (r1 & -> & Hr1 & Hs1).
    rewrite bool_decide_eq_true_2 by done.
    destruct (run_u16 _ PROTOCOL_VERSION _ Hr1 ltac:(done) Hs1) as (r2 & -> & Hr2 & Hs2).
    rewrite Z.eqb_refl.
    destruct (run_u8 _ (len n) _ Hr2 ltac:(len_lia) Hs2) as (r3 & -> & Hr3 & Hs3).
    destruct (run_take _ n _ Hr3 Hn Hs3) as (r4 & -> & _). by rewrite Hu, bool_decide_eq_false_2 by done.
  - intros d Hd Hne Heq. unfold wire_header in Heq. rewrite <- !app_assoc in Heq.
    destruct (Hmagic _ Hr ltac:(done) Heq) as (r1 & -> & Hr1 & Hs1). rewrite bool_decide_eq_true_2 by done.
    destruct (run_u16 _ PROTOCOL_VERSION _ Hr1 ltac:(done) Hs1) as (r2 & -> & Hr2 & Hs2).
    rewrite Z.eqb_refl.
    destruct (run_u8 _ (len NETWORK_ID) _ Hr2 ltac:(done) Hs2) as (r3 & -> & Hr3 & Hs3).
    destruct (run_take _ NETWORK_ID _ Hr3 ltac:(done) Hs3) as (r4 & -> & Hr4 & Hs4).
    change (utf8_valid NETWORK_ID) with true. rewrite bool_decide_eq_true_2 by done. cbv iota beta.
    destruct (run_u8 _ d _ Hr4 Hd Hs4) as (r5 & -> & _). by rewrite (proj2 (Z.eqb_neq _ _) Hne).
Qed.

(** The manifest bound of Testnet v1 is exact: what the writer produces for
    a swarm manifest with its bitfield fits an application record if and only if
    the manifest has at most 2,036 chunks. *)
Theorem manifest_bound_is_tight (m : Manifest) (a : PieceAvailability) (w : list Z) :
  manifest_ok m -> len (m_chunks m) <= U32_MAX -> len (bits a) = div_ceil (len (m_chunks m)) 8 ->
  (w ← W.manifest (W.u8 (W.new DOMAIN_APPLICATION) 17) m;
   W.bytes (W.u32 w (chunk_count a)) (bits a)) = Ok w ->
  is_ok (W.finish w MAX_APPLICATION_MESSAGE_BYTES) = true
  <-> len (m_chunks m) <= MAX_TESTNET_MANIFEST_CHUNKS.
Proof.
  intros Hok Hn Hbits Hw.
  pose proof (div_ceil_spec (len (m_chunks m)) 8 ltac:(len_lia) ltac:(lia)) as Hdc.
  rewrite W_new_wire, W_manifest_wire in Hw by len_lia. cbn [mbind result_bind] in Hw.
  rewrite W_bytes_wire in Hw by (unfold U32_MAX in *; lia).
  assert (len w = 86 + 32 * len (m_chunks m) + div_ceil (len (m_chunks m)) 8) as Hlen.
  { rewrite <- Hbits. apply Ok_inj in Hw. rewrite <- Hw.
    unfold W.u8, W.u32, W.raw, wire_bytes. rewrite !len_app, len_wire_header, len_wire_manifest by done.
    len_lia. }
  unfold W.finish, ensure_size. rewrite Hlen.
  unfold MAX_APPLICATION_MESSAGE_BYTES, MAX_TESTNET_MANIFEST_CHUNKS.
  match goal with |- context [?x >? ?y] => destruct (Z.gtb_spec x y) end; simpl;
    (split; [done || lia|lia || done]).
Qed.

(** ** The properties at concrete inputs *)

#[local] Existing Instance Toy.toy_blake3.

Definition sample_availability : PieceAvailability := availability_all 1.
Definition sample_message : Message := SwarmManifest sample_manifest sample_availability.
Definition sample_record : list Z :=
  Eval vm_compute in wire_header DOMAIN_APPLICATION ++ wire_message sample_message.

Definition sample_peer : PeerAdvertisement :=
  mkPeerAdvertisement (Toy.checksum (replicate 32 7)) (replicate 32 7) [SwarmTransferV1; RelayedTransferV1]
    [Toy.checksum (str "abc")].
Definition sample_request : list Z :=
  Eval vm_compute in wire_header DOMAIN_OVERLAY_REQUEST ++ wire_request (RegisterPeer sample_peer).

Lemma decode_exact_witness :
  (message_ok sample_message /\ encode sample_message = Ok sample_record)
  /\ request_ok (RegisterPeer sample_peer) /\ encode_overlay_request (RegisterPeer sample_peer) = Ok sample_request.
Proof.
  split.
  - apply (proj1 (decode_exact sample_record ltac:(apply bytes_okb_true; vm_compute; reflexivity))).
    vm_compute. reflexivity.
  - apply (proj1 (proj2 (decode_exact sample_request ltac:(apply bytes_okb_true; vm_compute; reflexivity)))).
    vm_compute. reflexivity.
Defined.

Definition sample_assignment : RouteAssignment :=
  mkRouteAssignment (Toy.checksum (replicate 32 7)) (replicate 32 7) (str "relay-a")
    (str "127.0.0.1:7777") (str "m3-0000000000000001").
Definition sample_response : list Z :=
  Eval vm_compute in wire_header DOMAIN_OVERLAY_RESPONSE ++ wire_response (Routes [sample_assignment]).

Lemma sample_response_decodes : decode_overlay_response sample_response = Ok (Routes [sample_assignment]).
Proof. vm_compute. reflexivity. Qed.

Lemma negotiation_fails_closed_witness :
  decode (WIRE_MAGIC ++ to_be 2 7 ++ [1; 2; 3]) = Err (UnsupportedVersion 7).
Proof.
  apply (proj1 (negotiation_fails_closed MAX_APPLICATION_MESSAGE_BYTES DOMAIN_APPLICATION read_message
    validate_message (WIRE_MAGIC ++ to_be 2 7 ++ [1; 2; 3]) [1; 2; 3]
    ltac:(apply bytes_okb_true; vm_compute; reflexivity) ltac:(vm_compute; discriminate)
    ltac:(vm_compute; discriminate)) 7);
    [unfold U16_MAX; lia|vm_compute; discriminate|reflexivity].
Defined.

Lemma manifest_bound_is_tight_witness :
  is_ok (W.finish sample_record MAX_APPLICATION_MESSAGE_BYTES) = true.
Proof.
  apply (manifest_bound_is_tight sample_manifest sample_availability sample_record).
  - split_and!; try (vm_compute; intuition discriminate).
    all: repeat constructor; try (apply Toy.toy_blake3_laws); vm_compute; intuition discriminate.
  - vm_compute; discriminate.
  - vm_compute; reflexivity.
  - vm_compute; reflexivity.
  - vm_compute; discriminate.
Defined.
