(* ===== verification/Traffic.v ===== *)
(** * Traffic: what a relay sees of a transfer (crates/triptorrent-overlay, traffic_analysis)

    The experiment builds the messages of a transfer, takes only their encoded lengths, and
    measures the trace of directions, sizes and logical times.  A function returns [None]
    where the source panics; additions of [u64] wrap.  Theorems: the sequence of directions
    and sizes is a function of the content length, the number of providers and the number
    of retries alone, with the total given by a formula; the results of the fixed
    experiment, for every hash function. *)
From stdpp Require Import base tactics list numbers option sorting.
From Stdlib Require Import ZArith Lia.
Import stdpp.list.
From S2P Require Import Prelude Bytes Instances Core Availability Wire WireFacts.

Local Open Scope Z_scope.

Definition NOISE_TAG_BYTES : Z := 16.
Definition FRAME_PREFIX_BYTES : Z := 4.
Definition DISCOVERY_TO_RELAY_MS : Z := 100.
Definition PAUSE_GAP_MS : Z := 5000.

Record TrafficScenario := mkScenario {
  sc_name : list Z;
  content_bytes : Z;
  sc_providers : Z;
  bytes_per_second : Z;
  striped_availability : bool;
  sc_retries : Z;
  sc_pauses : Z
}.

Inductive FrameDirection := RequesterToProvider | ProviderToRequester.
#[export] Instance direction_eq_dec : EqDecision FrameDirection.
Proof. solve_decision. Defined.

Record FrameObservation := mkObservation {
  logical_time_ms : Z;
  direction : FrameDirection;
  framed_bytes : Z
}.

Record TrafficMetrics := mkMetrics {
  tm_scenario : TrafficScenario;
  frame_count : Z;
  total_framed_bytes : Z;
  duration_ms : Z;
  bootstrap_to_relay_ms : Z;
  distinct_frame_sizes : Z;
  size_fingerprint : list Z
}.

Record TrafficAnalysisResult := mkAnalysis {
  traces : list TrafficMetrics;
  size_rank_pairs : Z;
  size_rank_agreements : Z;
  nearest_size_correct : Z;
  nearest_size_trials : Z;
  repeated_shape_fingerprint_equal : bool
}.

(** [a + b] on [u64] *)
Definition wrapping_add (a b : Z) : Z := (a + b) mod 2 ^ 64.

(** ** The trace *)

Definition push_event (events : list FrameObservation) (time : Z) (d : FrameDirection) (payload : Z)
  : list FrameObservation :=
  events ++ [mkObservation time d (payload + FRAME_PREFIX_BYTES)].

Definition push_message (events : list FrameObservation) (time : Z) (d : FrameDirection) (message : Message)
  : option (list FrameObservation) :=
  match encode message with
  | Ok encoded => Some (push_event events time d (len encoded + NOISE_TAG_BYTES))
  | Err _ => None
  end.

Definition expected_length (total index : Z) : Z := Z.min (total - index * CHUNK_SIZE) CHUNK_SIZE.

Section Trace.
Context `{Blake3} `{Hex}.

Definition trace_chunk_id (total count index : Z) : ChunkId :=
  ChunkId_digest (replicate (Z.to_nat (if index + 1 =? count then total - index * CHUNK_SIZE else CHUNK_SIZE)) 0).

Definition trace_manifest (s : TrafficScenario) (count : Z) : Manifest :=
  mkManifest (ContentId_digest (sc_name s)) (content_bytes s) CHUNK_SIZE
    (map (trace_chunk_id (content_bytes s) count) (seqZ 0 count)).

(** The session of one provider: handshake, request, manifest. *)
Definition trace_provider (s : TrafficScenario) (count : Z) (provider : Z) (state : list FrameObservation * Z)
  : option (list FrameObservation * Z) :=
  let '(events, now) := state in
  let events := push_event events now RequesterToProvider 48 in
  let events := push_event events (wrapping_add now 1) ProviderToRequester 48 in
  let manifest := trace_manifest s count in
  events ← push_message events (wrapping_add now 2) RequesterToProvider (SwarmRequest (m_content_id manifest));
  let indices := List.filter (fun index => negb (striped_availability s) || (index mod sc_providers s =? provider)) (seqZ 0 count) in
  cc ← try_from U32_MAX count;
  events ← push_message events (wrapping_add now 3) ProviderToRequester (SwarmManifest manifest (from_indices cc indices));
  Some (events, wrapping_add now 4).

Definition trace_cadence (s : TrafficScenario) : Z :=
  if bytes_per_second s =? 0 then 1
  else Z.max (div_ceil (sat_mul U64_MAX CHUNK_SIZE 1000) (bytes_per_second s)) 1.

(** One chunk. *)
Definition trace_chunk (s : TrafficScenario) (count : Z) (index : Z) (state : list FrameObservation * Z)
  : option (list FrameObservation * Z) :=
  let '(events, now) := state in
  i ← try_from U32_MAX index;
  events ← push_message events now RequesterToProvider (ChunkRequest i);
  let length := expected_length (content_bytes s) i in
  events ← push_message events (wrapping_add now (trace_cadence s)) ProviderToRequester
             (MChunk (mkChunk i (trace_chunk_id (content_bytes s) count index) (replicate (Z.to_nat length) 0)));
  let now := sat_add U64_MAX now (wrapping_add (trace_cadence s) 1) in
  let now := if (sc_pauses s >? 0) && (i =? count / 2) then sat_add U64_MAX now PAUSE_GAP_MS else now in
  Some (events, now).

(** One retry. *)
Definition trace_retry (s : TrafficScenario) (count : Z) (retry : Z) (state : list FrameObservation * Z)
  : option (list FrameObservation * Z) :=
  let '(events, now) := state in
  index ← try_from U32_MAX (retry mod Z.max count 1);
  events ← push_message events now RequesterToProvider (ChunkRequest index);
  events ← push_message events (wrapping_add now (trace_cadence s)) ProviderToRequester (ChunkUnavailable index);
  Some (events, sat_add U64_MAX now (wrapping_add (trace_cadence s) 1)).

(** A [for] loop over a range. *)
Fixpoint for_each {S} (body : Z -> S -> option S) (range : list Z) (s : S) : option S :=
  match range with
  | [] => Some s
  | i :: range => s ← body i s; for_each body range s
  end.

Definition simulate_observer_trace (s : TrafficScenario) : option (list FrameObservation) :=
  if sc_providers s <=? 0 then None
  else
    let count := div_ceil (content_bytes s) CHUNK_SIZE in
    st ← for_each (trace_provider s count) (seqZ 0 (sc_providers s)) ([], DISCOVERY_TO_RELAY_MS);
    st ← for_each (trace_chunk s count) (seqZ 0 count) st;
    st ← for_each (trace_retry s count) (seqZ 0 (sc_retries s)) st;
    Some st.1.

(** ** Measurements *)

Definition direction_byte (d : FrameDirection) : Z := match d with RequesterToProvider => 0 | ProviderToRequester => 1 end.

Definition trace_metrics (s : TrafficScenario) : option TrafficMetrics :=
  observations ← simulate_observer_trace s;
  let sizes := map framed_bytes observations in
  Some (mkMetrics s (len observations) (sum framed_bytes observations)
    (sat_sub (match last observations with Some e => logical_time_ms e | None => 0 end) DISCOVERY_TO_RELAY_MS)
    DISCOVERY_TO_RELAY_MS (len (dedup (merge_sort Z.le sizes)))
    (hex_encode (blake3_hash (concat (map (fun e => to_be 8 (framed_bytes e) ++ [direction_byte (direction e)]) observations))))).

(** ** The experiment *)

(** The pairs [left < right] of a list. *)
Fixpoint pairs {A} (l : list A) : list (A * A) :=
  match l with
  | [] => []
  | x :: l => map (fun y => (x, y)) l ++ pairs l
  end.

Definition content_of (t : TrafficMetrics) : Z := content_bytes (tm_scenario t).

(** [min_by_key]: the first of the smallest *)
Fixpoint min_by_key {A} (key : A -> Z) (l : list A) : option A :=
  match l with
  | [] => None
  | x :: l => match min_by_key key l with
              | Some y => if key y <? key x then Some y else Some x
              | None => Some x
              end
  end.

Definition scenarios : list TrafficScenario :=
  [mkScenario (str "small-single") (64 * 1024) 1 0 false 0 0;
   mkScenario (str "small-paused") (64 * 1024) 2 (32 * 1024) true 1 1;
   mkScenario (str "medium-single") (1024 * 1024) 1 0 false 0 0;
   mkScenario (str "medium-swarm") (1024 * 1024) 4 (256 * 1024) true 2 0;
   mkScenario (str "large-single") (4 * 1024 * 1024) 1 0 false 0 0;
   mkScenario (str "large-paused") (4 * 1024 * 1024) 4 (512 * 1024) true 3 1].

Definition canonical_scenarios : list TrafficScenario :=
  map (fun size => mkScenario (str "canonical") size 1 0 false 0 0) [64 * 1024; 1024 * 1024; 4 * 1024 * 1024].

Definition repeated_scenario : TrafficScenario := mkScenario (str "medium-repeat") (1024 * 1024) 1 (64 * 1024) false 0 1.

Definition run_m8_traffic_analysis : option TrafficAnalysisResult :=
  traces ← mapM trace_metrics scenarios;
  let ranked := List.filter (fun p => negb (content_of p.1 =? content_of p.2)) (pairs traces) in
  let agreements := count (fun p => bool_decide (Z.compare (content_of p.1) (content_of p.2)
                                    = Z.compare (total_framed_bytes p.1) (total_framed_bytes p.2))) ranked in
  canonical ← mapM trace_metrics canonical_scenarios;
  let correct := count (fun trace =>
      match min_by_key (fun candidate => Z.abs (total_framed_bytes candidate - total_framed_bytes trace)) canonical with
      | Some candidate => content_of candidate =? content_of trace
      | None => false
      end) traces in
  repeated ← trace_metrics repeated_scenario;
  third ← traces !! 2%nat;
  Some (mkAnalysis traces (len ranked) agreements correct (len traces)
    (bool_decide (size_fingerprint repeated = size_fingerprint third))).
End Trace.

(** ** The shape of a trace *)

(** What the observer can use: directions and sizes, in order. *)
Definition seen (e : FrameObservation) : FrameDirection * Z := (direction e, framed_bytes e).

Definition manifest_frame (count : Z) : Z := 106 + 32 * count + div_ceil count 8.

Definition shape (bytes providers retries : Z) : list (FrameDirection * Z) :=
  let count := div_ceil bytes CHUNK_SIZE in
  flat_map (fun _ => [(RequesterToProvider, 52); (ProviderToRequester, 52); (RequesterToProvider, 82);
                      (ProviderToRequester, manifest_frame count)]) (seqZ 0 providers)
  ++ flat_map (fun i => [(RequesterToProvider, 54); (ProviderToRequester, 90 + expected_length bytes i)]) (seqZ 0 count)
  ++ flat_map (fun _ => [(RequesterToProvider, 54); (ProviderToRequester, 54)]) (seqZ 0 retries).

Section Shape.
Context `{Blake3Laws} `{Hex}.

(** A loop whose every round adds the frames [f i] is the frames of its rounds. *)
Lemma for_each_seen (body : Z -> list FrameObservation * Z -> option (list FrameObservation * Z)) f range :
  (forall i events now, i ∈ range -> exists more now', body i (events, now) = Some (events ++ more, now') /\ map seen more = f i) ->
  forall events now, exists more now', for_each body range (events, now) = Some (events ++ more, now')
    /\ map seen more = flat_map f range.
Proof using Type.
  induction range as [|i range IH]; intros Hb events now; cbn [for_each flat_map].
  { exists [], now. by rewrite app_nil_r. }
  destruct (Hb i events now ltac:(left)) as (m1 & n1 & -> & Hm1). cbn [mbind option_bind].
  destruct (IH (fun j e n Hj => Hb j e n ltac:(by right)) (events ++ m1) n1) as (m2 & n2 & -> & Hm2).
  exists (m1 ++ m2), n2. rewrite app_assoc, map_app, Hm1, Hm2. done.
Qed.

(** The frame of a valid message. *)
Lemma push_message_seen events time d message n :
  message_ok message -> validate_message message = Ok tt -> len (wire_message message) = n ->
  push_message events time d message = Some (events ++ [mkObservation time d (49 + n)]).
Proof using Type.
  intros Hok Hv Hn. unfold push_message. rewrite encode_wire, Hv by done. cbn [mbind result_bind].
  unfold push_event. rewrite len_app, len_wire_header, Hn. do 3 f_equal.
  unfold NOISE_TAG_BYTES, FRAME_PREFIX_BYTES. f_equal. lia.
Qed.

(** Scenarios whose manifest fits a record. *)
Definition fits (s : TrafficScenario) : Prop :=
  0 <= content_bytes s /\ div_ceil (content_bytes s) CHUNK_SIZE <= MAX_TESTNET_MANIFEST_CHUNKS.

Lemma digest_ok l : id_ok (ContentId_digest l) /\ id_ok (ChunkId_digest l).
Proof. split; (split; [apply blake3_len|apply blake3_bytes]). Qed.

Lemma fits_bounds s : fits s ->
  0 <= div_ceil (content_bytes s) CHUNK_SIZE <= 2036 /\ content_bytes s <= 2036 * 32768.
Proof using Type.
  unfold fits, MAX_TESTNET_MANIFEST_CHUNKS. intros [Hc Hn]. rewrite CHUNK_SIZE_val in *.
  pose proof (div_ceil_spec (content_bytes s) 32768). lia.
Qed.

Lemma trace_manifest_ok s :
  fits s -> let m := trace_manifest s (div_ceil (content_bytes s) CHUNK_SIZE) in
  manifest_ok m /\ validate_manifest m = Ok tt /\ len (m_chunks m) = div_ceil (content_bytes s) CHUNK_SIZE.
Proof.
  intros Hf m. destruct (fits_bounds s Hf) as [Hn Hc]. destruct Hf as [Hc0 _].
  assert (len (m_chunks m) = div_ceil (content_bytes s) CHUNK_SIZE) as Hlen.
  { unfold m. cbn [trace_manifest m_chunks]. rewrite len_map. unfold len. rewrite length_seqZ. lia. }
  split_and!; [|apply validate_manifest_Ok; split; [apply validate_shape_Ok; split_and!|]|done].
  - unfold manifest_ok. cbn [m trace_manifest m_content_id m_length m_chunk_size m_chunks].
    rewrite CHUNK_SIZE_val. unfold U64_MAX, U32_MAX. split_and!; try lia; try apply digest_ok.
    apply Forall_fmap, Forall_forall. intros i _. apply digest_ok.
  - done.
  - cbn. unfold MAX_CONTENT_LENGTH. lia.
  - rewrite Hlen. unfold MAX_MANIFEST_CHUNKS. lia.
  - by rewrite Hlen.
  - rewrite Hlen. unfold MAX_TESTNET_MANIFEST_CHUNKS. lia.
Qed.

Lemma provider_seen s provider events now :
  fits s -> exists more now', trace_provider s (div_ceil (content_bytes s) CHUNK_SIZE) provider (events, now) = Some (events ++ more, now')
    /\ map seen more = [(RequesterToProvider, 52); (ProviderToRequester, 52); (RequesterToProvider, 82);
                        (ProviderToRequester, manifest_frame (div_ceil (content_bytes s) CHUNK_SIZE))].
Proof.
  intros Hf. destruct (fits_bounds s Hf) as [Hn _]. destruct (trace_manifest_ok s Hf) as (Hm & Hv & Hlen).
  set (count := div_ceil (content_bytes s) CHUNK_SIZE) in *. unfold trace_provider. cbv zeta.
  set (indices := List.filter _ _).
  assert (Forall (fun j => 0 <= j) indices) as Hi.
  { apply Forall_forall. intros j Hj%list_elem_of_In%filter_In. destruct Hj as [Hj%list_elem_of_In _].
    apply elem_of_seqZ in Hj. lia. }
  destruct (from_indices_facts count indices) as (Ha & Hb & _); [unfold U32_MAX; lia|done|].
  rewrite (push_message_seen _ _ _ _ 33); [|apply digest_ok|done|].
  2:{ cbn [wire_message trace_manifest m_content_id]. rewrite len_cons, blake3_len. done. }
  cbn [mbind option_bind]. rewrite (proj2 (try_from_Some U32_MAX count count)) by (unfold U32_MAX; lia). cbn [mbind option_bind].
  rewrite (push_message_seen _ _ _ _ (57 + 32 * count + div_ceil count 8)).
  - cbn [mbind option_bind]. unfold push_event. rewrite <- !app_assoc. do 2 eexists. split; [reflexivity|].
    cbn [map app seen direction framed_bytes]. unfold manifest_frame, FRAME_PREFIX_BYTES.
    replace (49 + (57 + 32 * count + div_ceil count 8)) with (106 + 32 * count + div_ceil count 8) by lia. done.
  - by split.
  - cbn [validate_message]. rewrite Hv. cbn [mbind result_bind]. rewrite Hlen.
    rewrite (proj2 (try_from_Some U32_MAX count count)) by (unfold U32_MAX; lia). cbn [default chunk_count from_indices].
    rewrite Z.eqb_refl, from_indices_valid; [done|unfold U32_MAX; lia|done].
  - cbn [wire_message]. rewrite len_cons, !len_app, len_wire_manifest, Hlen by done. unfold wire_bytes.
    rewrite len_app, Hb, !len_to_be. lia.
Qed.

Lemma chunk_seen s index events now :
  fits s -> 0 <= index < div_ceil (content_bytes s) CHUNK_SIZE ->
  exists more now', trace_chunk s (div_ceil (content_bytes s) CHUNK_SIZE) index (events, now) = Some (events ++ more, now')
    /\ map seen more = [(RequesterToProvider, 54); (ProviderToRequester, 90 + expected_length (content_bytes s) index)].
Proof.
  intros Hf Hi. destruct (fits_bounds s Hf) as [Hn _]. destruct Hf as [Hc0 _].
  set (count := div_ceil (content_bytes s) CHUNK_SIZE) in *. unfold trace_chunk.
  assert (0 <= expected_length (content_bytes s) index <= CHUNK_SIZE) as Hl.
  { unfold expected_length, count in *. rewrite CHUNK_SIZE_val in *. pose proof (div_ceil_spec (content_bytes s) 32768). lia. }
  rewrite (proj2 (try_from_Some U32_MAX index index)) by (unfold U32_MAX; lia). cbn [mbind option_bind].
  rewrite (push_message_seen _ _ _ _ 5); [|cbn; unfold U32_MAX; lia|done|].
  2:{ cbn [wire_message]. rewrite len_cons, len_to_be. done. }
  cbn [mbind option_bind]. rewrite (push_message_seen _ _ _ _ (41 + expected_length (content_bytes s) index)).
  - cbn [mbind option_bind]. rewrite <- !app_assoc. do 2 eexists. split; [reflexivity|].
    cbn [map app seen direction framed_bytes].
    by replace (49 + (41 + expected_length (content_bytes s) index)) with (90 + expected_length (content_bytes s) index) by lia.
  - unfold message_ok, chunk_ok. cbn [c_index c_id c_data]. split_and!; [unfold U32_MAX; lia..|apply digest_ok|].
    apply bytes_ok_replicate. unfold is_byte. lia.
  - cbn [validate_message c_data]. rewrite len_replicate. destruct (Z.gtb_spec (Z.of_nat (Z.to_nat (expected_length (content_bytes s) index))) CHUNK_SIZE); [lia|done].
  - cbn [wire_message]. unfold wire_chunk, wire_bytes. cbn [c_index c_id c_data].
    rewrite len_cons, !len_app, !len_to_be, len_replicate. destruct (digest_ok []) as [_ _].
    unfold trace_chunk_id, ChunkId_digest. rewrite blake3_len. lia.
Qed.

Lemma retry_seen s retry events now :
  fits s -> exists more now', trace_retry s (div_ceil (content_bytes s) CHUNK_SIZE) retry (events, now) = Some (events ++ more, now')
    /\ map seen more = [(RequesterToProvider, 54); (ProviderToRequester, 54)].
Proof using Type.
  intros Hf. destruct (fits_bounds s Hf) as [Hn _]. set (count := div_ceil (content_bytes s) CHUNK_SIZE) in *. unfold trace_retry.
  pose proof (Z.mod_pos_bound retry (Z.max count 1) ltac:(lia)) as Hr. set (i := retry mod Z.max count 1) in *.
  rewrite (proj2 (try_from_Some U32_MAX i i)) by (unfold U32_MAX; lia). cbn [mbind option_bind].
  rewrite (push_message_seen _ _ _ _ 5); [|cbn; unfold U32_MAX; lia|done|].
  2:{ cbn [wire_message]. rewrite len_cons, len_to_be. done. }
  cbn [mbind option_bind]. rewrite (push_message_seen _ _ _ _ 5); [|cbn; unfold U32_MAX; lia|done|].
  2:{ cbn [wire_message]. rewrite len_cons, len_to_be. done. }
  cbn [mbind option_bind]. rewrite <- !app_assoc. do 2 eexists. split; [reflexivity|]. done.
Qed.

Lemma simulate_seen s :
  fits s -> 0 < sc_providers s ->
  exists events, simulate_observer_trace s = Some events
    /\ map seen events = shape (content_bytes s) (sc_providers s) (sc_retries s).
Proof.
  intros Hf Hp. unfold simulate_observer_trace. destruct (Z.leb_spec (sc_providers s) 0); [lia|].
  set (count := div_ceil (content_bytes s) CHUNK_SIZE).
  destruct (for_each_seen _ _ (seqZ 0 (sc_providers s)) (fun i e n _ => provider_seen s i e n Hf) [] DISCOVERY_TO_RELAY_MS)
    as (m1 & n1 & E1 & S1). fold count in E1, S1. rewrite E1. cbn [mbind option_bind].
  destruct (for_each_seen (trace_chunk s count) _ (seqZ 0 count) (fun i e n Hi => chunk_seen s i e n Hf ltac:(apply elem_of_seqZ in Hi; fold count; lia)) ([] ++ m1) n1)
    as (m2 & n2 & E2 & S2). rewrite E2. cbn [mbind option_bind].
  destruct (for_each_seen (trace_retry s count) _ (seqZ 0 (sc_retries s)) (fun i e n _ => retry_seen s i e n Hf) (([] ++ m1) ++ m2) n2)
    as (m3 & n3 & E3 & S3). rewrite E3. cbn [mbind option_bind fst]. eexists. split; [reflexivity|].
  rewrite !map_app, S1, S2, S3. cbn [map app]. unfold shape. by rewrite <- app_assoc.
Qed.

(** ** Sizes *)

Lemma sum_app {A} (f : A -> Z) l k : sum f (l ++ k) = sum f l + sum f k.
Proof using Type. induction l as [|x l IH]; cbn [app]; rewrite ?sum_cons, ?IH; [done|lia]. Qed.

Lemma sum_map {A B} (f : B -> Z) (g : A -> B) l : sum f (map g l) = sum (fun x => f (g x)) l.
Proof using Type. induction l as [|x l IH]; [done|]. cbn [map]. by rewrite !sum_cons, IH. Qed.

Lemma sum_flat {A B} (f : B -> Z) (g : A -> list B) l : sum f (flat_map g l) = sum (fun x => sum f (g x)) l.
Proof using Type. induction l as [|x l IH]; [done|]. cbn [flat_map]. by rewrite sum_app, sum_cons, IH. Qed.

Lemma sum_const {A} c (l : list A) : sum (fun _ => c) l = c * len l.
Proof using Type. induction l as [|x l IH]; [unfold len; cbn; lia|]. rewrite sum_cons, len_cons, IH. lia. Qed.

Lemma sum_plus {A} (f g : A -> Z) l : sum (fun x => f x + g x) l = sum f l + sum g l.
Proof using Type. induction l as [|x l IH]; [done|]. rewrite !sum_cons, IH. lia. Qed.

Lemma sum_ext {A} (f g : A -> Z) l : (forall x, f x = g x) -> sum f l = sum g l.
Proof using Type. intros Hfg. induction l as [|x l IH]; [done|]. by rewrite !sum_cons, Hfg, IH. Qed.

Lemma len_seqZ n : 0 <= n -> len (seqZ 0 n) = n.
Proof using Type. intros Hn. unfold len. rewrite length_seqZ. lia. Qed.

(** The chunks of a transfer carry its bytes, once. *)
Lemma sum_lengths total (k : nat) :
  0 <= total -> Z.of_nat k <= div_ceil total CHUNK_SIZE ->
  sum (expected_length total) (seqZ 0 (Z.of_nat k)) = Z.min total (Z.of_nat k * CHUNK_SIZE).
Proof using Type.
  rewrite CHUNK_SIZE_val. intros Ht. pose proof (div_ceil_spec total 32768 ltac:(lia) ltac:(lia)) as Hd.
  induction k as [|k IH]; intros Hk; [change (0 = Z.min total 0); lia|].
  replace (Z.of_nat (S k)) with (Z.of_nat k + 1) in * by lia. rewrite seqZ_app by lia.
  rewrite sum_app, IH by lia. change (seqZ (0 + Z.of_nat k) 1) with [0 + (0 + Z.of_nat k)].
  rewrite sum_cons, sum_nil. unfold expected_length. rewrite CHUNK_SIZE_val. lia.
Qed.

Definition total_bytes (bytes providers retries : Z) : Z :=
  let count := div_ceil bytes CHUNK_SIZE in
  providers * (292 + 32 * count + div_ceil count 8) + 144 * count + bytes + 108 * retries.

Lemma shape_total bytes providers retries :
  0 <= bytes -> 0 <= providers -> 0 <= retries ->
  sum snd (shape bytes providers retries) = total_bytes bytes providers retries.
Proof using Type.
  intros Hb Hp Hr. unfold shape, total_bytes, manifest_frame. cbv zeta. set (count := div_ceil bytes CHUNK_SIZE).
  assert (0 <= count) as Hn by (apply div_ceil_nonneg; rewrite ?CHUNK_SIZE_val; lia).
  rewrite !sum_app, !sum_flat.
  rewrite (sum_const (52 + (52 + (82 + (106 + 32 * count + div_ceil count 8 + 0))))), len_seqZ by done.
  rewrite (sum_ext (fun x => sum snd [(RequesterToProvider, 54); (ProviderToRequester, 90 + expected_length bytes x)])
    (fun x => 144 + expected_length bytes x)) by (intros x; unfold sum; cbn [foldr snd]; lia).
  rewrite sum_plus, sum_const, len_seqZ by done.
  rewrite (sum_const (54 + (54 + 0))), len_seqZ by done.
  pose proof (sum_lengths bytes (Z.to_nat count) Hb) as Hs. rewrite Z2Nat.id in Hs by done. rewrite Hs by done.
  unfold count in *. rewrite CHUNK_SIZE_val in *. pose proof (div_ceil_spec bytes 32768 ltac:(lia) ltac:(lia)). lia.
Qed.

(** The measurements of a trace, as functions of its shape. *)
Definition fingerprint (l : list (FrameDirection * Z)) : list Z :=
  hex_encode (blake3_hash (concat (map (fun e => to_be 8 e.2 ++ [direction_byte e.1]) l))).

Lemma metrics_of_shape s :
  fits s -> 0 < sc_providers s -> 0 <= sc_retries s ->
  exists t, trace_metrics s = Some t /\ tm_scenario t = s
    /\ frame_count t = len (shape (content_bytes s) (sc_providers s) (sc_retries s))
    /\ total_framed_bytes t = total_bytes (content_bytes s) (sc_providers s) (sc_retries s)
    /\ distinct_frame_sizes t
       = len (dedup (merge_sort Z.le (map snd (shape (content_bytes s) (sc_providers s) (sc_retries s)))))
    /\ size_fingerprint t = fingerprint (shape (content_bytes s) (sc_providers s) (sc_retries s)).
Proof.
  intros Hf Hp Hr. destruct (simulate_seen s Hf Hp) as (events & He & Hs). unfold trace_metrics. rewrite He.
  cbn [mbind option_bind]. eexists. split; [reflexivity|].
  cbn [tm_scenario frame_count total_framed_bytes distinct_frame_sizes size_fingerprint].
  rewrite <- shape_total by (destruct Hf; lia). rewrite <- Hs. split_and!; [done| | | |].
  - by rewrite len_map.
  - by rewrite sum_map.
  - by rewrite map_map.
  - unfold fingerprint. by rewrite map_map.
Qed.

(** C37: what a relay can use of a transfer.  For transfers whose manifest fits a record, the
    trace exists, and two transfers of the same length, with as many providers and retries,
    show the same number of frames, the same total, the same sizes and the same
    fingerprint, whatever their content names, rates, striping and pauses; the total is a
    formula of these three numbers, and a longer content shows a larger total. *)
Theorem trace_reveals_shape (s1 s2 : TrafficScenario) :
  fits s1 -> fits s2 -> 0 < sc_providers s1 -> 0 <= sc_retries s1 ->
  sc_providers s2 = sc_providers s1 -> sc_retries s2 = sc_retries s1 ->
  exists t1 t2, trace_metrics s1 = Some t1 /\ trace_metrics s2 = Some t2
    /\ total_framed_bytes t1 = total_bytes (content_bytes s1) (sc_providers s1) (sc_retries s1)
    /\ (content_bytes s1 = content_bytes s2 ->
        frame_count t1 = frame_count t2 /\ total_framed_bytes t1 = total_framed_bytes t2
        /\ distinct_frame_sizes t1 = distinct_frame_sizes t2 /\ size_fingerprint t1 = size_fingerprint t2)
    /\ (content_bytes s1 < content_bytes s2 -> total_framed_bytes t1 < total_framed_bytes t2).
Proof.
  intros F1 F2 Hp Hr Ep Er.
  destruct (metrics_of_shape s1 F1 Hp Hr) as (t1 & M1 & _ & C1 & T1 & D1 & S1).
  destruct (metrics_of_shape s2 F2 ltac:(lia) ltac:(lia)) as (t2 & M2 & _ & C2 & T2 & D2 & S2).
  rewrite Ep, Er in C2, T2, D2, S2. exists t1, t2. split_and!; [done|done|done| |].
  - intros Heq. rewrite <- Heq in C2, T2, D2, S2. split_and!; congruence.
  - intros Hlt. rewrite T1, T2. unfold total_bytes. cbv zeta. destruct F1 as [Hb1 _], F2 as [Hb2 _]. rewrite CHUNK_SIZE_val in *.
    pose proof (div_ceil_spec (content_bytes s1) 32768 ltac:(lia) ltac:(lia)) as H1'.
    pose proof (div_ceil_spec (content_bytes s2) 32768 ltac:(lia) ltac:(lia)) as H2'.
    set (n1 := div_ceil (content_bytes s1) 32768) in *. set (n2 := div_ceil (content_bytes s2) 32768) in *.
    pose proof (div_ceil_spec n1 8 ltac:(lia) ltac:(lia)). pose proof (div_ceil_spec n2 8 ltac:(lia) ltac:(lia)).
    assert (n1 <= n2) by lia. assert (div_ceil n1 8 <= div_ceil n2 8) by lia. nia.
Qed.

Lemma scenarios_fit : Forall (fun s => fits s /\ 0 < sc_providers s /\ 0 <= sc_retries s) (scenarios ++ canonical_scenarios ++ [repeated_scenario]).
Proof using Type.
  apply Forall_forall. intros s Hs. assert (Forall (fun s => (0 <=? content_bytes s) && (div_ceil (content_bytes s) CHUNK_SIZE <=? MAX_TESTNET_MANIFEST_CHUNKS)
    && (0 <? sc_providers s) && (0 <=? sc_retries s) = true) (scenarios ++ canonical_scenarios ++ [repeated_scenario])) as Hb.
  { apply all_true. vm_compute. reflexivity. }
  rewrite Forall_forall in Hb. specialize (Hb _ Hs). cbn beta in Hb. unfold fits. lia.
Qed.

(** The results of the fixed experiment, for every hash function: sizes rank every pair of
    different contents, the nearest canonical total names the content every time, and a
    repeated transfer has the same fingerprint. *)
Lemma m8_results :
  exists r, run_m8_traffic_analysis = Some r
    /\ size_rank_pairs r = 12 /\ size_rank_agreements r = 12
    /\ nearest_size_correct r = 6 /\ nearest_size_trials r = 6 /\ repeated_shape_fingerprint_equal r = true.
Proof.
  assert (forall s, s ∈ scenarios ++ canonical_scenarios ++ [repeated_scenario] ->
    exists t, trace_metrics s = Some t /\ tm_scenario t = s
      /\ total_framed_bytes t = total_bytes (content_bytes s) (sc_providers s) (sc_retries s)
      /\ size_fingerprint t = fingerprint (shape (content_bytes s) (sc_providers s) (sc_retries s))) as Hall.
  { intros s Hs. pose proof scenarios_fit as Hf. rewrite Forall_forall in Hf. destruct (Hf s Hs) as (F & P & R).
    destruct (metrics_of_shape s F P R) as (t & A & B & _ & C & _ & D). eauto. }
  unfold run_m8_traffic_analysis. unfold scenarios, canonical_scenarios in *. cbn [map mapM] in *.
  repeat match goal with |- context [trace_metrics ?x] =>
    let t := fresh "t" in let E := fresh "E" in
    destruct (Hall x ltac:(repeat first [by left|right])) as (t & E & ? & ? & ?); rewrite ?E; cbn [mbind option_bind mapM]; clear E
  end.
  clear Hall. repeat match goal with t : TrafficMetrics |- _ => destruct t end.
  cbn [tm_scenario total_framed_bytes size_fingerprint] in *. subst.
  eexists. split; [reflexivity|]. cbn [size_rank_pairs size_rank_agreements nearest_size_correct nearest_size_trials repeated_shape_fingerprint_equal].
  split_and!; [vm_compute; reflexivity..|]. by apply bool_decide_eq_true_2.
Qed.
End Shape.

Import Toy.

(** One mebibyte under another name, at another rate, with a pause; and half of it. *)
Definition half_scenario : TrafficScenario := mkScenario (str "half") (512 * 1024) 1 0 false 0 0.

Lemma trace_reveals_shape_witness :
  exists t1 t2 t3, trace_metrics repeated_scenario = Some t1
    /\ trace_metrics (mkScenario (str "medium-single") (1024 * 1024) 1 0 false 0 0) = Some t2
    /\ trace_metrics half_scenario = Some t3
    /\ size_fingerprint t1 = size_fingerprint t2 /\ total_framed_bytes t3 < total_framed_bytes t1.
Proof.
  assert (fits repeated_scenario) as F1 by (split; vm_compute; discriminate).
  assert (fits (mkScenario (str "medium-single") (1024 * 1024) 1 0 false 0 0)) as F2 by (split; vm_compute; discriminate).
  assert (fits half_scenario) as F3 by (split; vm_compute; discriminate).
  destruct (trace_reveals_shape repeated_scenario (mkScenario (str "medium-single") (1024 * 1024) 1 0 false 0 0))
    as (t1 & t2 & E1 & E2 & _ & Hsame & _); [exact F1|exact F2|reflexivity|discriminate|reflexivity|reflexivity|].
  destruct (trace_reveals_shape half_scenario repeated_scenario)
    as (t3 & t4 & E3 & E4 & _ & _ & Hlt); [exact F3|exact F1|reflexivity|discriminate|reflexivity|reflexivity|].
  rewrite E1 in E4. injection E4 as <-. exists t1, t2, t3.
  split_and!; [exact E1|exact E2|exact E3|apply Hsame; reflexivity|apply Hlt; reflexivity].
Defined.
