(* ===== verification/Research.v ===== *)
(** * Research: the discovery simulation (crates/triptorrent-overlay, research)

    A deterministic model of Kademlia-style lookups under four discovery policies: nodes
    with routing tables, replicated records, churn, malicious nodes and Sybils near a key.
    A function returns [None] where the source panics.  Sets of indices are [gset Z]
    ([iter] is the order of a [BTreeSet]); hashes are 64-bit prefixes of BLAKE3.
    [sort_unstable_by_key] leaves open the order of elements with equal keys: it is a
    parameter of which the laws say only that it sorts.  Arithmetic on [usize] panics where
    it overflows, as in a build with overflow checks. *)
From stdpp Require Import base tactics list numbers option gmap sorting.
From Stdlib Require Import ZArith Lia.
Import stdpp.list.
From S2P Require Import Prelude Bytes Text Instances.

Local Open Scope Z_scope.

Definition K_BUCKET_SIZE : Z := 8.
Definition ALPHA : Z := 3.
Definition MAX_LOOKUP_ROUNDS : nat := 64.

(** ** Policies *)

Inductive DiscoveryCandidate := VanillaKademlia | BlindedKademlia | DistributedRendezvous | SeparatedMultiStage.
Inductive LookupKey := Raw | CapabilityDerived.
Inductive LookupOrigin := Direct | Oblivious.
Inductive ProviderRecord := DirectRecord | IndirectRecord.
Inductive RoutingPolicy := Closest | PrefixDiverse.

#[export] Instance candidate_eq_dec : EqDecision DiscoveryCandidate.
Proof. solve_decision. Defined.
#[export] Instance lookup_key_eq_dec : EqDecision LookupKey.
Proof. solve_decision. Defined.
#[export] Instance origin_eq_dec : EqDecision LookupOrigin.
Proof. solve_decision. Defined.
#[export] Instance provider_record_eq_dec : EqDecision ProviderRecord.
Proof. solve_decision. Defined.
#[export] Instance routing_policy_eq_dec : EqDecision RoutingPolicy.
Proof. solve_decision. Defined.

Record Policy := mkPolicy {
  po_key : LookupKey;
  po_origin : LookupOrigin;
  po_provider : ProviderRecord;
  po_routing : RoutingPolicy;
  po_lookup_paths : Z
}.

Definition label (c : DiscoveryCandidate) : list Z :=
  match c with
  | VanillaKademlia => str "vanilla"
  | BlindedKademlia => str "blinded"
  | DistributedRendezvous => str "rendezvous"
  | SeparatedMultiStage => str "multi-stage"
  end.

Definition policy (c : DiscoveryCandidate) : Policy :=
  match c with
  | VanillaKademlia => mkPolicy Raw Direct DirectRecord Closest 1
  | BlindedKademlia => mkPolicy CapabilityDerived Direct DirectRecord Closest 1
  | DistributedRendezvous => mkPolicy CapabilityDerived Oblivious IndirectRecord PrefixDiverse 1
  | SeparatedMultiStage => mkPolicy CapabilityDerived Oblivious IndirectRecord PrefixDiverse 3
  end.

(** ** Inputs and results *)

Record ResearchScenario := mkScenario {
  rs_name : list Z;
  ordinary_nodes : Z;
  malicious_percent : Z;
  sybil_nodes : Z;
  sybil_groups : Z;
  failed_percent : Z;
  rs_contents : Z;
  lookups_per_content : Z
}.

Definition DEFAULT_SCENARIOS : list ResearchScenario :=
  [mkScenario (str "clean-100") 100 0 0 0 0 20 5;
   mkScenario (str "churn-1000") 1000 0 0 0 15 50 2;
   mkScenario (str "malicious-1000") 1000 20 0 0 5 50 2;
   mkScenario (str "target-sybil-1000") 1000 5 250 4 5 1 100].

Record ResearchMetrics := mkMetrics {
  lookups : Z;
  successes : Z;
  routing_rounds : Z;
  lookup_key_observers : Z;
  raw_content_observers : Z;
  requester_key_observers : Z;
  provider_key_observers : Z;
  adversary_both_sides : Z;
  colluding_adversary_both_sides : Z;
  eclipsed_lookups : Z;
  repeated_key_linkability : Z;
  repeated_requester_linkability : Z;
  control_messages : Z;
  stored_records : Z;
  sybil_records : Z;
  routing_entries : Z;
  rm_nodes : Z;
  rm_contents : Z
}.

Record ResearchResult := mkResult {
  rr_scenario : ResearchScenario;
  rr_candidate : DiscoveryCandidate;
  rr_metrics : ResearchMetrics
}.

Record ResearchTuning := mkTuning {
  tu_seed : Z;
  replica_count : Z;
  separated_lookup_paths : Z;
  routing_contamination_percent : Z
}.

Definition default_tuning : ResearchTuning := mkTuning 0 K_BUCKET_SIZE 3 0.

Record Node := mkNode {
  n_id : Z;
  n_group : Z;
  n_malicious : bool;
  n_failed : bool;
  n_sybil : bool;
  n_routing : list Z
}.

Record LookupTrace := mkTrace {
  lt_success : bool;
  lt_rounds : Z;
  lt_observers : gset Z;
  lt_queried : gset Z
}.

Definition empty_trace : LookupTrace := mkTrace false 0 ∅ ∅.

(** ** Metrics *)

Definition zero_metrics : ResearchMetrics := mkMetrics 0 0 0 0 0 0 0 0 0 0 0 0 0 0 0 0 0 0.

(** The product is one of [usize]: [None] where it overflows. *)
Definition empty_metrics (s : ResearchScenario) (nodes entries : Z) : option ResearchMetrics :=
  total ← try_from USIZE_MAX (rs_contents s * lookups_per_content s);
  Some (mkMetrics total 0 0 0 0 0 0 0 0 0 0 0 0 0 0 entries nodes (rs_contents s)).

(** Every sum is one of naturals into a [usize] that only grows, so an addition overflows
    exactly when the sum at the end does not fit: [metrics_fit] is asked there. *)
Definition accumulate_metrics (t v : ResearchMetrics) : ResearchMetrics :=
  mkMetrics (lookups t + lookups v) (successes t + successes v) (routing_rounds t + routing_rounds v)
    (lookup_key_observers t + lookup_key_observers v) (raw_content_observers t + raw_content_observers v)
    (requester_key_observers t + requester_key_observers v) (provider_key_observers t + provider_key_observers v)
    (adversary_both_sides t + adversary_both_sides v)
    (colluding_adversary_both_sides t + colluding_adversary_both_sides v) (eclipsed_lookups t + eclipsed_lookups v)
    (repeated_key_linkability t + repeated_key_linkability v)
    (repeated_requester_linkability t + repeated_requester_linkability v) (control_messages t + control_messages v)
    (stored_records t + stored_records v) (sybil_records t + sybil_records v) (routing_entries t + routing_entries v)
    (rm_nodes t + rm_nodes v) (rm_contents t + rm_contents v).

Definition metric_values (m : ResearchMetrics) : list Z :=
  [lookups m; successes m; routing_rounds m; lookup_key_observers m; raw_content_observers m; requester_key_observers m;
   provider_key_observers m; adversary_both_sides m; colluding_adversary_both_sides m; eclipsed_lookups m;
   repeated_key_linkability m; repeated_requester_linkability m; control_messages m; stored_records m; sybil_records m;
   routing_entries m; rm_nodes m; rm_contents m].
Definition metrics_fit (m : ResearchMetrics) : bool := all (fun v => v <=? USIZE_MAX) (metric_values m).

(** ** Sorting, sets and words *)

Class UnstableSort := sort_unstable_by_key : forall {A : Type}, (A -> Z) -> list A -> list A.

Class UnstableSortLaws `{UnstableSort} : Prop := {
  sort_permutes : forall A (key : A -> Z) l, sort_unstable_by_key key l ≡ₚ l;
  sort_sorts : forall A (key : A -> Z) l, Sorted (fun x y => key x <= key y) (sort_unstable_by_key key l)
}.

(** The elements of a [BTreeSet], in order. *)
Definition iter (s : gset Z) : list Z := merge_sort Z.le (elements s).

(** [u64::rotate_left] *)
Definition rotate_left (v k : Z) : Z := Z.lor (Z.shiftl v k mod 2 ^ 64) (Z.shiftr v (64 - k)).

(** [u64::leading_zeros] *)
Definition leading_zeros (v : Z) : Z := if v =? 0 then 64 else 63 - Z.log2 v.

Section Simulation.
Context `{Blake3} `{UnstableSort}.

Definition stable_hash (domain : list Z) (value : Z) : Z :=
  from_be (take 8 (blake3_hash (domain ++ to_be 8 value))).

Definition lookup_key (content : Z) (blinded : bool) (seed : Z) : Z :=
  let raw := stable_hash (str "content") (Z.lxor content seed) in
  if blinded then stable_hash (str "capability-key") raw else raw.

Definition combine_seed (content repetition path : Z) : Z :=
  Z.lxor (Z.lxor (rotate_left content 17) (rotate_left repetition 33)) (rotate_left path 49).

(** ** Topology *)

(** The order of pairs of a hash and an index. *)
Definition pair_le (a b : Z * Z) : Prop := a.1 < b.1 \/ (a.1 = b.1 /\ a.2 <= b.2).
#[local] Instance pair_le_dec : RelDecision pair_le.
Proof. intros a b. unfold pair_le. solve_decision. Defined.

Definition ranked_indices (total n : Z) (domain : list Z) (seed : Z) : gset Z :=
  let ranked := map (fun index => (stable_hash domain (Z.lxor index seed), index)) (seqZ 0 total) in
  list_to_set (map snd (take (Z.to_nat n) (merge_sort pair_le ranked))).

Definition build_nodes (s : ResearchScenario) (sybil_target seed : Z) : option (list Node) :=
  let malicious_count := sat_mul USIZE_MAX (ordinary_nodes s) (malicious_percent s) / 100 in
  let failed_count := sat_mul USIZE_MAX (ordinary_nodes s) (failed_percent s) / 100 in
  let malicious := ranked_indices (ordinary_nodes s) malicious_count (str "malicious") seed in
  let failed := ranked_indices (ordinary_nodes s) failed_count (str "failed") seed in
  ordinary ← mapM (fun index =>
      group ← try_from U16_MAX (index mod 256);
      Some (mkNode (stable_hash (str "node") (Z.lxor index seed)) group (bool_decide (index ∈ malicious))
              (bool_decide (index ∈ failed)) false [])) (seqZ 0 (ordinary_nodes s));
  sybils ← mapM (fun index =>
      group ← try_from U16_MAX (256 + index mod sybil_groups s);
      Some (mkNode (Z.lxor sybil_target (index + 1)) group true false true [])) (seqZ 0 (sybil_nodes s));
  Some (ordinary ++ sybils).

Definition with_routing (routing : list Z) (n : Node) : Node :=
  mkNode (n_id n) (n_group n) (n_malicious n) (n_failed n) (n_sybil n) routing.

(** The identifier of node [index], for sorting. *)
Definition id_of (nodes : list Node) (index : Z) : Z := default 0 (n_id <$> get nodes index).

Definition bucket_of (nodes : list Node) (current candidate : Z) : Z :=
  sat_sub 63 (leading_zeros (Z.lxor (id_of nodes current) (id_of nodes candidate))).

(** [buckets[bucket].push(candidate)]; a bucket is at most 63, so there is one. *)
Definition push_candidate (nodes : list Node) (current : Z) (buckets : list (list Z)) (candidate : Z) : list (list Z) :=
  let bucket := bucket_of nodes current candidate in
  set_at buckets bucket (default [] (get buckets bucket) ++ [candidate]).

Definition buckets_of (nodes : list Node) (current : Z) : list (list Z) :=
  foldl (push_candidate nodes current) (replicate 64 [])
    (List.filter (fun candidate => negb (candidate =? current)) (seqZ 0 (len nodes))).

Definition routing_table (nodes : list Node) (current : Z) : list Z :=
  concat (map (fun bucket => take (Z.to_nat K_BUCKET_SIZE) (sort_unstable_by_key (id_of nodes) bucket)) (buckets_of nodes current)).

Definition build_routing_tables (nodes : list Node) : list Node :=
  map (fun '(current, n) => with_routing (routing_table nodes current) n) (enumerate nodes).

(** One slot of one contaminated table. *)
Definition contaminate_slot (malicious : list Z) (seed node_index : Z) (routing : list Z) (slot : Z) : option (list Z) :=
  let choice_seed := stable_hash (str "routing-contamination")
    (Z.lxor (Z.lxor (rotate_left node_index 17) slot) seed) in
  attacker ← get malicious (choice_seed mod len malicious);
  if attacker =? node_index then Some routing
  else if slot <? len routing then Some (set_at routing slot attacker) else None.

Definition contaminate_node (malicious : list Z) (percent seed : Z) (entry : Z * Node) : option Node :=
  let '(node_index, n) := entry in
  let replacements := sat_mul USIZE_MAX (len (n_routing n)) percent / 100 in
  routing ← try_fold (contaminate_slot malicious seed node_index) (n_routing n) (seqZ 0 replacements);
  Some (with_routing (dedup (merge_sort Z.le routing)) n).

Definition contaminate_routing_tables (nodes : list Node) (percent seed : Z) : option (list Node) :=
  if percent =? 0 then Some nodes
  else
    let malicious := map fst (List.filter (fun e => n_malicious e.2) (enumerate nodes)) in
    if bool_decide (malicious = []) then Some nodes
    else mapM (contaminate_node malicious percent seed) (enumerate nodes).

(** ** Lookups *)

(** The filter with a set of groups: nodes of a new group, or all of them. *)
Fixpoint new_groups (nodes : list Node) (diverse : bool) (groups : gset Z) (l : list Z) : option (list Z) :=
  match l with
  | [] => Some []
  | index :: l =>
      if diverse then
        n ← get nodes index;
        if bool_decide (n_group n ∈ groups) then new_groups nodes diverse groups l
        else rest ← new_groups nodes diverse ({[n_group n]} ∪ groups) l; Some (index :: rest)
      else rest ← new_groups nodes diverse groups l; Some (index :: rest)
  end.

Definition distance_to (nodes : list Node) (target index : Z) : Z := Z.lxor (id_of nodes index) target.

Definition select_replicas (nodes : list Node) (target : Z) (diverse : bool) (n : Z) : option (gset Z) :=
  kept ← new_groups nodes diverse ∅ (sort_unstable_by_key (distance_to nodes target) (seqZ 0 (len nodes)));
  Some (list_to_set (take (Z.to_nat n) kept)).

(** The next nodes to query: at most [ALPHA], one per group when [diverse]. *)
Fixpoint select_queries (nodes : list Node) (diverse : bool) (groups : gset Z) (selected candidates : list Z)
  : option (gset Z * list Z) :=
  match candidates with
  | [] => Some (groups, selected)
  | index :: candidates =>
      n ← get nodes index;
      if diverse && bool_decide (n_group n ∈ groups) then select_queries nodes diverse groups selected candidates
      else
        let groups := if diverse then {[n_group n]} ∪ groups else groups in
        let selected := selected ++ [index] in
        if len selected =? ALPHA then Some (groups, selected)
        else select_queries nodes diverse groups selected candidates
  end.

(** One query: what the requester learns. *)
Definition query_node (nodes : list Node) (replicas : gset Z) (state : LookupTrace * gset Z) (index : Z)
  : option (LookupTrace * gset Z) :=
  let '(trace, known) := state in
  n ← get nodes index;
  let queried := {[index]} ∪ lt_queried trace in
  let observers := {[index]} ∪ lt_observers trace in
  if n_failed n then Some (mkTrace (lt_success trace) (lt_rounds trace) observers queried, known)
  else
    Some (mkTrace (lt_success trace || (negb (n_malicious n) && bool_decide (index ∈ replicas))) (lt_rounds trace)
            observers queried,
          if n_malicious n then known else list_to_set (n_routing n) ∪ known).

Definition lookup_converged (nodes : list Node) (target : Z) (known queried : gset Z) (diverse : bool) : option bool :=
  kept ← new_groups nodes diverse ∅ (sort_unstable_by_key (distance_to nodes target) (iter known));
  let closest := take (Z.to_nat K_BUCKET_SIZE) kept in
  Some ((len closest =? K_BUCKET_SIZE) && all (fun index => bool_decide (index ∈ queried)) closest).

(** The loop of [route_lookup]; [rounds] remain. *)
Fixpoint lookup_loop (nodes : list Node) (target : Z) (replicas : gset Z) (diverse : bool) (rounds : nat) (round : Z)
  (trace : LookupTrace) (known groups : gset Z) : option LookupTrace :=
  match rounds with
  | O => Some trace
  | S rounds =>
      let candidates := sort_unstable_by_key (distance_to nodes target)
        (List.filter (fun index => negb (bool_decide (index ∈ lt_queried trace))) (iter known)) in
      '(groups, selected) ← select_queries nodes diverse groups [] candidates;
      if bool_decide (selected = []) then Some trace
      else
        let trace := mkTrace (lt_success trace) (round + 1) (lt_observers trace) (lt_queried trace) in
        '(trace, known) ← try_fold (query_node nodes replicas) (trace, known) selected;
        converged ← (if lt_success trace then Some true
                     else lookup_converged nodes target known (lt_queried trace) diverse);
        if (converged : bool) then Some trace
        else lookup_loop nodes target replicas diverse rounds (round + 1) trace known groups
  end.

Definition route_lookup (nodes : list Node) (start target : Z) (replicas : gset Z) (diverse : bool) : option LookupTrace :=
  n ← get nodes start;
  let trace := mkTrace false 0 {[start]} ∅ in
  if n_failed n || n_malicious n then Some trace
  else lookup_loop nodes target replicas diverse MAX_LOOKUP_ROUNDS 0 trace (list_to_set (n_routing n)) ∅.

Definition usable (nodes : list Node) (require_honest : bool) (index : Z) : bool :=
  match get nodes index with
  | Some n => negb (n_failed n) && (negb require_honest || negb (n_malicious n))
  | None => false
  end.

Definition select_node (nodes : list Node) (seed : Z) (require_honest : bool) : option Z :=
  let n := len nodes in
  if n =? 0 then None
  else List.find (usable nodes require_honest) (map (fun offset => (seed mod n + offset) mod n) (seqZ 0 n)).

Definition provider_observers (nodes : list Node) (po : Policy) (provider target : Z) (replicas : gset Z) : option (gset Z) :=
  if bool_decide (po_provider po = IndirectRecord) then Some ∅
  else
    publication ← route_lookup nodes provider target ∅ false;
    Some (lt_queried publication ∪ replicas).

Record LookupInputs := mkInputs {
  in_nodes : list Node;
  in_policy : Policy;
  in_requester : Z;
  in_target : Z;
  in_replicas : gset Z;
  in_content : Z;
  in_repetition : Z;
  in_seed : Z
}.

(** One path of a combined lookup. *)
Definition lookup_path (i : LookupInputs) (combined : LookupTrace) (path : Z) : option LookupTrace :=
  start ← (if bool_decide (po_origin (in_policy i) = Oblivious)
           then select_node (in_nodes i)
                  (stable_hash (str "gateway")
                     (Z.lxor (combine_seed (in_content i) (in_repetition i) path) (in_seed i))) false
           else Some (in_requester i));
  trace ← route_lookup (in_nodes i) start (in_target i) (in_replicas i)
            (bool_decide (po_routing (in_policy i) = PrefixDiverse));
  Some (mkTrace (lt_success combined || lt_success trace) (Z.max (lt_rounds combined) (lt_rounds trace))
          (lt_observers combined ∪ lt_observers trace) (lt_queried combined ∪ lt_queried trace)).

Definition combined_lookup (i : LookupInputs) : option LookupTrace :=
  combined ← try_fold (lookup_path i) empty_trace (seqZ 0 (po_lookup_paths (in_policy i)));
  Some (if bool_decide (po_origin (in_policy i) = Direct)
        then mkTrace (lt_success combined) (lt_rounds combined) (lt_observers combined ∖ {[in_requester i]})
               (lt_queried combined)
        else combined).

(** ** The experiment *)

Definition is_malicious (nodes : list Node) (index : Z) : bool :=
  match get nodes index with Some n => n_malicious n | None => false end.
Definition is_sybil (nodes : list Node) (index : Z) : bool :=
  match get nodes index with Some n => n_sybil n | None => false end.

Definition set_len (s : gset Z) : Z := Z.of_nat (size s).
Definition b2z (b : bool) : Z := if b then 1 else 0.
Definition keep (p : Z -> bool) (s : gset Z) : gset Z := list_to_set (List.filter p (elements s)).
Definition any_in (p : Z -> bool) (s : gset Z) : bool := existsb p (elements s).

(** [*counts.entry(index).or_default() += 1], for every index *)
Definition count_all_in (s : gset Z) (m : gmap Z Z) : gmap Z Z :=
  foldr (fun index m => <[index := default 0 (m !! index) + 1]> m) m (elements s).
Definition repeated (m : gmap Z Z) : bool := existsb (fun e => e.2 >? 1) (map_to_list m).

(** What one lookup adds to the metrics. *)
Definition lookup_metrics (nodes : list Node) (po : Policy) (observers : gset Z) (combined : LookupTrace)
  (malicious : gset Z) : ResearchMetrics :=
  let direct := bool_decide (po_provider po = DirectRecord) in
  mkMetrics 0 (b2z (lt_success combined)) (lt_rounds combined) (set_len (lt_observers combined))
    (if bool_decide (po_key po = Raw) then set_len (lt_observers combined) else 0)
    (if bool_decide (po_origin po = Direct) then set_len (lt_queried combined) else 0)
    0
    (b2z (direct && any_in (fun index => bool_decide (index ∈ observers)) malicious))
    (b2z (direct && negb (bool_decide (malicious = ∅)) && any_in (is_malicious nodes) observers))
    (b2z (negb (lt_success combined) && negb (bool_decide (malicious = ∅))))
    0 0
    (set_len (lt_queried combined) * 2
     + (if bool_decide (po_origin po = Oblivious) then po_lookup_paths po * 4 else 0)
     + (if bool_decide (po_provider po = IndirectRecord) then 2 else 0))
    0 0 0 0 0.

(** One repetition: the metrics and the two maps of counts. *)
Definition run_lookup (inputs : Z -> LookupInputs) (observers : gset Z)
  (state : ResearchMetrics * gmap Z Z * gmap Z Z) (repetition : Z) : option (ResearchMetrics * gmap Z Z * gmap Z Z) :=
  let '(metrics, repeats, requesters) := state in
  let i := inputs repetition in
  combined ← combined_lookup i;
  let malicious := keep (is_malicious (in_nodes i)) (lt_observers combined) in
  Some (accumulate_metrics metrics (lookup_metrics (in_nodes i) (in_policy i) observers combined malicious),
        count_all_in malicious repeats,
        if bool_decide (po_origin (in_policy i) = Direct) then count_all_in malicious requesters else requesters).

(** One content. *)
Definition run_content (s : ResearchScenario) (tuning : ResearchTuning) (po : Policy) (nodes : list Node)
  (metrics : ResearchMetrics) (content : Z) : option ResearchMetrics :=
  let target := lookup_key content (bool_decide (po_key po = CapabilityDerived)) (tu_seed tuning) in
  replicas ← select_replicas nodes target (bool_decide (po_routing po = PrefixDiverse)) (replica_count tuning);
  provider ← select_node nodes (stable_hash (str "provider") (Z.lxor content (tu_seed tuning))) true;
  observers ← provider_observers nodes po provider target replicas;
  requester ← select_node nodes (stable_hash (str "requester") (Z.lxor content (tu_seed tuning))) true;
  let metrics := accumulate_metrics metrics
    (mkMetrics 0 0 0 0 0 0 (set_len observers) 0 0 0 0 0 0 (set_len replicas)
       (set_len (keep (is_sybil nodes) replicas)) 0 0 0) in
  '(metrics, repeats, requesters) ←
    try_fold (run_lookup (fun repetition =>
                mkInputs nodes po requester target replicas content repetition (tu_seed tuning)) observers)
      (metrics, ∅, ∅) (seqZ 0 (lookups_per_content s));
  Some (accumulate_metrics metrics
    (mkMetrics 0 0 0 0 0 0 0 0 0 0 (b2z (repeated repeats)) (b2z (repeated requesters)) 0 0 0 0 0 0)).

Definition tuned_policy (candidate : DiscoveryCandidate) (tuning : ResearchTuning) : Policy :=
  let po := policy candidate in
  if bool_decide (candidate = SeparatedMultiStage)
  then mkPolicy (po_key po) (po_origin po) (po_provider po) (po_routing po) (separated_lookup_paths tuning)
  else po.

(** The assertions of [simulate_with_tuning] *)
Definition scenario_usable (s : ResearchScenario) (tuning : ResearchTuning) : bool :=
  (ordinary_nodes s >? K_BUCKET_SIZE) && (rs_contents s >? 0) && (lookups_per_content s >? 0)
  && ((sybil_nodes s =? 0) || (sybil_groups s >? 0)) && (replica_count tuning >? 0)
  && (separated_lookup_paths tuning >? 0) && (routing_contamination_percent tuning <=? 100).

Definition simulate_with_tuning (s : ResearchScenario) (candidate : DiscoveryCandidate) (tuning : ResearchTuning)
  : option ResearchResult :=
  if negb (scenario_usable s tuning) then None
  else
    let po := tuned_policy candidate tuning in
    let first_key := lookup_key 0 (bool_decide (po_key po = CapabilityDerived)) (tu_seed tuning) in
    nodes ← build_nodes s first_key (tu_seed tuning);
    nodes ← contaminate_routing_tables (build_routing_tables nodes) (routing_contamination_percent tuning) (tu_seed tuning);
    empty ← empty_metrics s (len nodes) (sum (fun n => len (n_routing n)) nodes);
    metrics ← try_fold (run_content s tuning po nodes) empty (seqZ 0 (rs_contents s));
    if metrics_fit metrics then Some (mkResult s candidate metrics) else None.

Definition simulate (s : ResearchScenario) (candidate : DiscoveryCandidate) : option ResearchResult :=
  simulate_with_tuning s candidate default_tuning.

Definition all_candidates : list DiscoveryCandidate :=
  [VanillaKademlia; BlindedKademlia; DistributedRendezvous; SeparatedMultiStage].

Definition run_default_research_suite : option (list ResearchResult) :=
  mapM (fun '(s, c) => simulate s c) (flat_map (fun s => map (pair s) all_candidates) DEFAULT_SCENARIOS).

(** ** Reports *)

Definition ratio (part total : Z) : list Z :=
  let tenths := sat_mul USIZE_MAX part 1000 / Z.max total 1 in
  decimal (tenths / 10) ++ str "." ++ decimal (tenths mod 10) ++ str "%".
Definition average (total n : Z) : list Z :=
  let tenths := sat_mul USIZE_MAX total 10 / Z.max n 1 in
  decimal (tenths / 10) ++ str "." ++ decimal (tenths mod 10).

(** A row of a Markdown table, with its line feed. *)
Definition markdown_row (cells : list (list Z)) : list Z :=
  str "|" ++ concat (map (fun cell => str " " ++ cell ++ str " |") cells) ++ [10].

Definition first_row (r : ResearchResult) : list (list Z) :=
  let m := rr_metrics r in
  [rs_name (rr_scenario r); label (rr_candidate r); ratio (successes m) (lookups m);
   ratio (eclipsed_lookups m) (lookups m); average (routing_rounds m) (lookups m);
   average (lookup_key_observers m) (lookups m); average (raw_content_observers m) (lookups m);
   average (requester_key_observers m) (lookups m); average (provider_key_observers m) (rm_contents m);
   ratio (adversary_both_sides m) (lookups m); ratio (colluding_adversary_both_sides m) (lookups m);
   average (control_messages m) (lookups m)].

Definition second_row (r : ResearchResult) : list (list Z) :=
  let m := rr_metrics r in
  [rs_name (rr_scenario r); label (rr_candidate r); average (stored_records m) (rm_contents m);
   average (sybil_records m) (rm_contents m); average (routing_entries m) (rm_nodes m);
   ratio (repeated_key_linkability m) (rm_contents m); ratio (repeated_requester_linkability m) (rm_contents m)].

Definition render_markdown (results : list ResearchResult) : list Z :=
  markdown_row [str "Scenario"; str "Candidate"; str "Success"; str "Modeled eclipse"; str "Rounds"; str "Key observers";
                str "Raw-ID observers"; str "Requester+key"; str "Provider+key"; str "Same node both"; str "Colluding both";
                str "Messages"]
  ++ str "|---|---|---:|---:|---:|---:|---:|---:|---:|---:|---:|---:|" ++ [10]
  ++ concat (map (fun r => markdown_row (first_row r)) results)
  ++ [10]
  ++ markdown_row [str "Scenario"; str "Candidate"; str "Replicas/content"; str "Sybil replicas"; str "Routing contacts/node";
                   str "Repeated key"; str "Repeated requester"]
  ++ str "|---|---|---:|---:|---:|---:|---:|" ++ [10]
  ++ concat (map (fun r => markdown_row (second_row r)) results).

(** ** Seeded trials *)

Definition permille (part total : Z) : Z := sat_mul USIZE_MAX part 1000 / Z.max total 1.
Definition tenths (total n : Z) : Z := sat_mul USIZE_MAX total 10 / Z.max n 1.

Record MonteCarloSummary := mkSummary {
  mc_candidate : DiscoveryCandidate;
  mc_trials : Z;
  success_min_permille : Z;
  success_median_permille : Z;
  success_max_permille : Z;
  eclipse_median_permille : Z;
  average_rounds_tenths : Z;
  average_messages_tenths : Z;
  honest_replicas_tenths : Z;
  malicious_replicas_tenths : Z;
  requester_key_observers_tenths : Z;
  provider_key_observers_tenths : Z;
  same_adversary_permille : Z;
  colluding_adversary_permille : Z;
  repeated_key_linkability_permille : Z
}.

Definition trial_scenario (trial : Z) : option ResearchScenario :=
  nodes ← get [100; 180; 260] (trial mod 3);
  malicious ← get [5; 15; 30] (trial mod 3);
  sybils ← get [0; 24; 64] (trial mod 3);
  groups ← get [1; 4; 16] (trial mod 3);
  failed ← get [0; 10; 20] (trial / 2 mod 3);
  n ← get [4; 8] (trial mod 2);
  Some (mkScenario (str "m8-seeded") nodes malicious sybils groups failed 4 n).

Definition trial_seeds : list Z :=
  [0x10203040; 0x22334455; 0x31415926; 0x42424242; 0x55667788; 0x61728394; 0x70000001; 0x81234567; 0x90abcdef;
   0xa1b2c3d4; 0xbad0cafe; 0xc001d00d].

Definition trial_tuning (trial : Z) : option ResearchTuning :=
  seed ← get trial_seeds trial;
  replicas ← get [4; 8; 12] (trial / 2 mod 3);
  paths ← get [1; 3; 5] (trial mod 3);
  percent ← get [0; 20; 50] (trial / 3 mod 3);
  Some (mkTuning seed replicas paths percent).

Definition run_trial (candidate : DiscoveryCandidate) (state : list Z * list Z * ResearchMetrics) (trial : Z)
  : option (list Z * list Z * ResearchMetrics) :=
  let '(success_rates, eclipse_rates, totals) := state in
  s ← trial_scenario trial;
  tuning ← trial_tuning trial;
  result ← simulate_with_tuning s candidate tuning;
  let m := rr_metrics result in
  Some (success_rates ++ [permille (successes m) (lookups m)],
        eclipse_rates ++ [permille (eclipsed_lookups m) (lookups m)], accumulate_metrics totals m).

Definition summarize_trials (candidate : DiscoveryCandidate) (trial_count : Z) : option MonteCarloSummary :=
  '(success_rates, eclipse_rates, totals) ← try_fold (run_trial candidate) ([], [], zero_metrics) (seqZ 0 trial_count);
  if negb (metrics_fit totals) then None else
  let success_rates := merge_sort Z.le success_rates in
  let eclipse_rates := merge_sort Z.le eclipse_rates in
  success_min ← get success_rates 0;
  success_median ← get success_rates (trial_count / 2);
  success_max ← get success_rates (trial_count - 1);
  eclipse_median ← get eclipse_rates (trial_count / 2);
  Some (mkSummary candidate trial_count success_min success_median success_max eclipse_median
    (tenths (routing_rounds totals) (lookups totals)) (tenths (control_messages totals) (lookups totals))
    (tenths (sat_sub (stored_records totals) (sybil_records totals)) (rm_contents totals))
    (tenths (sybil_records totals) (rm_contents totals)) (tenths (requester_key_observers totals) (lookups totals))
    (tenths (provider_key_observers totals) (rm_contents totals)) (permille (adversary_both_sides totals) (lookups totals))
    (permille (colluding_adversary_both_sides totals) (lookups totals))
    (permille (repeated_key_linkability totals) (rm_contents totals))).

Definition run_m8_monte_carlo : option (list MonteCarloSummary) :=
  mapM (fun candidate => summarize_trials candidate 12) all_candidates.
End Simulation.

(** A sort: the stable one. *)
Module ToySort.
Definition by_key {A} (key : A -> Z) (a b : A) : Prop := key a <= key b.
#[export] Instance by_key_dec {A} (key : A -> Z) : RelDecision (by_key key).
Proof. intros a b. unfold by_key. solve_decision. Defined.
#[export] Instance by_key_total {A} (key : A -> Z) : Total (by_key key).
Proof. intros a b. unfold by_key. lia. Qed.
#[export] Instance toy_sort : UnstableSort := fun A key l => merge_sort (by_key key) l.
#[export] Instance toy_sort_laws : UnstableSortLaws.
Proof. split; intros A key l; [apply merge_sort_Permutation|apply (Sorted_merge_sort (by_key key))]. Qed.
End ToySort.
