(* ===== verification/ResearchFacts.v ===== *)
(** * ResearchFacts: what the discovery simulation guarantees

    For every hash function and every order the sort leaves open: a lookup ends within its
    rounds and reports success only for an honest live replica it queried; with prefix
    diversity it asks at most one node per network group; replicas are the nearest nodes.
    A usable scenario whose sums fit [usize] gives a result exactly when its nodes exist and
    one of them is honest and live, and its metrics are those of the policy: what a policy
    hides is counted as zero. *)
From stdpp Require Import base tactics list numbers option gmap sorting.
From Stdlib Require Import ZArith Lia.
Import stdpp.list.
From S2P Require Import Prelude Bytes Text Instances Research.

Local Open Scope Z_scope.

(** ** Loops *)

(** An invariant that counts the rounds of a loop. *)
Lemma try_fold_inv {A B} (P : Z -> B -> Prop) (f : B -> A -> option B) l k b :
  P k b -> (forall x k b, x ∈ l -> P k b -> exists b', f b x = Some b' /\ P (k + 1) b') ->
  exists b', try_fold f b l = Some b' /\ P (k + len l) b'.
Proof.
  revert k b. induction l as [|x l IH]; intros k b Hb Hf; cbn [try_fold].
  { exists b. by rewrite len_nil, Z.add_0_r. }
  destruct (Hf x k b ltac:(left) Hb) as (b1 & -> & H1). destruct (IH (k + 1) b1 H1) as (b2 & -> & H2).
  { intros y j c Hy. apply Hf. by right. }
  exists b2. split; [done|]. rewrite len_cons. by replace (k + (1 + len l)) with (k + 1 + len l) by lia.
Qed.

(** The same, without the count. *)
Lemma try_fold_keeps {A B} (P : B -> Prop) (f : B -> A -> option B) l b :
  P b -> (forall x b, x ∈ l -> P b -> exists b', f b x = Some b' /\ P b') -> exists b', try_fold f b l = Some b' /\ P b'.
Proof. intros Hb Hf. destruct (try_fold_inv (fun _ => P) f l 0 b Hb) as (b' & ? & ?); [|by exists b']. intros x k c. apply Hf. Qed.

Lemma mapM_total {A B} (P : A -> B -> Prop) (f : A -> option B) l :
  (forall x, x ∈ l -> exists y, f x = Some y /\ P x y) -> exists k, mapM f l = Some k /\ Forall2 P l k.
Proof.
  induction l as [|x l IH]; intros Hf; [by exists []|]. destruct (Hf x ltac:(left)) as (y & Hy & HP).
  destruct IH as (k & Hk & H2); [intros z Hz; apply Hf; by right|]. exists (y :: k). split; [|by constructor].
  simpl. by rewrite Hy, Hk.
Qed.

Lemma elem_of_dedup l x : x ∈ dedup l <-> x ∈ l.
Proof.
  induction l as [|y [|z l] IH]; [done|done|]. cbn [dedup] in *. destruct (Z.eqb_spec y z) as [->|].
  - rewrite IH, !elem_of_cons. tauto.
  - rewrite elem_of_cons, IH, !elem_of_cons. tauto.
Qed.

Lemma elem_of_iter s x : x ∈ iter s <-> x ∈ s.
Proof. unfold iter. rewrite merge_sort_Permutation. apply elem_of_elements. Qed.

Lemma set_len_list (l : list Z) : set_len (list_to_set l) <= len l.
Proof.
  unfold set_len, len. induction l as [|x l IH]; cbn [list_to_set length]; [rewrite size_empty; lia|].
  pose proof (size_union_alt (C := gset Z) {[x]} (list_to_set l)). rewrite size_singleton in *.
  pose proof (subseteq_size (C := gset Z) (list_to_set l ∖ {[x]}) (list_to_set l) ltac:(set_solver)). lia.
Qed.

Lemma set_len_union (s t : gset Z) : set_len (s ∪ t) <= set_len s + set_len t.
Proof.
  unfold set_len. rewrite size_union_alt. pose proof (subseteq_size (t ∖ s) t ltac:(set_solver)). lia.
Qed.

Lemma set_len_mono (s t : gset Z) : s ⊆ t -> set_len s <= set_len t.
Proof. intros Hs%subseteq_size. unfold set_len. lia. Qed.

Lemma set_len_nonneg s : 0 <= set_len s.
Proof. unfold set_len. lia. Qed.

Lemma len_dedup l : len (dedup l) <= len l.
Proof.
  induction l as [|y [|z l] IH]; [done|done|]. cbn [dedup] in *. destruct (y =? z); rewrite !len_cons in *; lia.
Qed.

Lemma sum_bound {A} (f : A -> Z) b l : Forall (fun x => f x <= b) l -> sum f l <= b * len l.
Proof. induction 1 as [|x l Hx _ IH]; [unfold sum, len; cbn; lia|]. rewrite sum_cons, len_cons. lia. Qed.

(** ** Nodes *)

Definition valid (nodes : list Node) (index : Z) : Prop := 0 <= index < len nodes.
Definition nodes_ok (nodes : list Node) : Prop := Forall (fun n => Forall (valid nodes) (n_routing n)) nodes.
Definition all_valid (nodes : list Node) (s : gset Z) : Prop := forall index, index ∈ s -> valid nodes index.

(** The group of a node. *)
Definition group_of (nodes : list Node) (index : Z) : Z := default 0 (n_group <$> get nodes index).

Lemma all_valid_size nodes s : all_valid nodes s -> set_len s <= len nodes.
Proof.
  intros Hv. assert (s ⊆ list_to_set (seqZ 0 (len nodes))) as Hs%set_len_mono.
  { intros i Hi%Hv. apply elem_of_list_to_set, elem_of_seqZ. unfold valid in Hi. lia. }
  etransitivity; [exact Hs|]. etransitivity; [apply set_len_list|]. unfold len at 1. rewrite length_seqZ. pose proof (len_nonneg nodes). lia.
Qed.

(** An honest live node. *)
Definition sound_node (nodes : list Node) (index : Z) : Prop :=
  exists n, get nodes index = Some n /\ n_malicious n = false /\ n_failed n = false.

Lemma valid_get nodes index : valid nodes index -> exists n, get nodes index = Some n /\ n ∈ nodes /\ group_of nodes index = n_group n.
Proof.
  intros Hv. apply get_is_Some in Hv as [n Hn]. exists n. split_and!; [done|by eapply get_elem|].
  unfold group_of. by rewrite Hn.
Qed.

(** At most one index per group. *)
Definition one_per_group (nodes : list Node) (l : list Z) : Prop := NoDup (map (group_of nodes) l).

Lemma new_groups_spec nodes diverse R l : Forall (valid nodes) l -> StronglySorted R l -> forall groups,
  exists kept, new_groups nodes diverse groups l = Some kept /\ sublist kept l
    /\ (diverse = false -> kept = l)
    /\ (diverse = true -> one_per_group nodes kept /\ Forall (fun i => group_of nodes i ∉ groups) kept
        /\ forall j, j ∈ l -> j ∈ kept \/ group_of nodes j ∈ groups
             \/ exists k, k ∈ kept /\ group_of nodes k = group_of nodes j /\ R k j).
Proof.
  unfold one_per_group. intros Hv. induction Hv as [|index l Hi _ IH]; intros Hs groups; cbn [new_groups].
  { exists []. split_and!; try done. intros _. split_and!; [constructor|constructor|]. intros j Hj. by apply not_elem_of_nil in Hj. }
  apply StronglySorted_inv in Hs as [Hs Hr]. rewrite Forall_forall in Hr. specialize (IH Hs). destruct diverse.
  - destruct (valid_get _ _ Hi) as (n & Hn & _ & Hg). rewrite Hn. cbn [mbind option_bind]. case_bool_decide as Hin.
    + destruct (IH groups) as (kept & -> & Hsub & _ & Hd). exists kept. destruct (Hd eq_refl) as (D1 & D2 & D3).
      split_and!; [done|by constructor|done|]. intros _. split_and!; [done|done|]. intros j Hj.
      apply elem_of_cons in Hj as [->|Hj]; [right; left; by rewrite Hg|by apply D3].
    + destruct (IH ({[n_group n]} ∪ groups)) as (kept & -> & Hsub & _ & Hd). destruct (Hd eq_refl) as (D1 & D2 & D3).
      exists (index :: kept). cbn [mbind option_bind map]. split_and!; [done|by constructor|done|]. intros _.
      rewrite Forall_forall in D2. split_and!.
      * constructor; [|done]. rewrite Hg. intros (j & He & Hj)%list_elem_of_fmap. apply (D2 j Hj). rewrite <- He. set_solver.
      * constructor; [by rewrite Hg|]. apply Forall_forall. intros j Hj. specialize (D2 j Hj). set_solver.
      * intros j Hj. apply elem_of_cons in Hj as [->|Hj]; [left; left|]. destruct (D3 j Hj) as [Hk|[Hk|(k & Hk & Hk' & Hkj)]].
        -- left. by right.
        -- apply elem_of_union in Hk as [Hk%elem_of_singleton|Hk]; [|right; by left]. right. right. exists index.
           split_and!; [left|congruence|by apply Hr].
        -- right. right. exists k. split_and!; [by right|done|done].
  - destruct (IH groups) as (kept & -> & Hsub & He & _). rewrite (He eq_refl). exists (index :: l).
    split_and!; [done|reflexivity|done|done].
Qed.

Lemma valid_seqZ nodes index : index ∈ seqZ 0 (len nodes) <-> valid nodes index.
Proof. rewrite elem_of_seqZ. unfold valid. lia. Qed.

(** A split of a sorted list. *)
Lemma sorted_take_drop {A} (R : A -> A -> Prop) n l x y :
  StronglySorted R l -> x ∈ take n l -> y ∈ drop n l -> R x y.
Proof.
  intros Hs Hx Hy. rewrite <- (take_drop n l) in Hs. revert Hs Hx Hy. generalize (take n l), (drop n l). intros k rest Hs Hx Hy. revert Hs Hx.
  induction k as [|z k IH]; intros Hs Hx; [by apply not_elem_of_nil in Hx|]. cbn [app] in Hs.
  apply StronglySorted_inv in Hs as [Hs Hz]. apply elem_of_cons in Hx as [->|Hx]; [|by apply IH].
  rewrite Forall_forall in Hz. apply Hz. apply elem_of_app. by right.
Qed.

Lemma sublist_sorted {A} (R : A -> A -> Prop) k l : sublist k l -> StronglySorted R l -> StronglySorted R k.
Proof.
  intros Hs. induction Hs as [|x k l Hs IH|x k l Hs IH]; intros Hl; [done| |].
  - apply StronglySorted_inv in Hl as [Hl Hx]. constructor; [by apply IH|]. rewrite Forall_forall in Hx |- *.
    intros y Hy. apply Hx. by eapply elem_of_sublist.
  - apply StronglySorted_inv in Hl as [Hl _]. by apply IH.
Qed.

Lemma one_per_group_inj nodes l i j :
  one_per_group nodes l -> i ∈ l -> j ∈ l -> group_of nodes i = group_of nodes j -> i = j.
Proof.
  unfold one_per_group. intros Hn Hi Hj Hg. apply list_elem_of_lookup in Hi as [a Hi], Hj as [b Hj].
  assert (a = b) as ->; [|congruence]. apply (NoDup_lookup _ a b (group_of nodes i) Hn); rewrite list_lookup_fmap; [by rewrite Hi|].
  by rewrite Hj, Hg.
Qed.

Lemma elem_of_prefix_take {A} n (l : list A) x : x ∈ take n l -> x ∈ l.
Proof. intros (i & Hi & _)%elem_of_take. by eapply list_elem_of_lookup_2. Qed.

Lemma sublist_NoDup {A} (k l : list A) : sublist k l -> NoDup l -> NoDup k.
Proof.
  induction 1 as [|x k l Hs IH|x k l Hs IH]; [done|intros [Hx Hl]%NoDup_cons|intros [_ Hl]%NoDup_cons; by apply IH].
  constructor; [|by apply IH]. intros Hk. apply Hx. by eapply elem_of_sublist.
Qed.

(** ** Queries of one round *)

Lemma select_queries_spec nodes diverse candidates : Forall (valid nodes) candidates -> forall groups selected,
  len selected < ALPHA ->
  exists groups' more, select_queries nodes diverse groups selected candidates = Some (groups', selected ++ more)
    /\ sublist more candidates /\ len (selected ++ more) <= ALPHA
    /\ (diverse = true -> one_per_group nodes more /\ Forall (fun i => group_of nodes i ∉ groups) more
        /\ groups' = list_to_set (map (group_of nodes) more) ∪ groups).
Proof.
  unfold ALPHA, one_per_group. intros Hv. induction Hv as [|index l Hi _ IH]; intros groups selected Hl; cbn [select_queries].
  { exists groups, []. rewrite app_nil_r. split_and!; [done|done|lia|]. intros _. split_and!; [constructor|constructor|set_solver]. }
  destruct (valid_get _ _ Hi) as (n & -> & _ & Hg). cbn [mbind option_bind].
  destruct (diverse && bool_decide (n_group n ∈ groups)) eqn:Ed.
  { destruct (IH groups selected Hl) as (groups' & more & -> & Hsub & Hlen & Hd). exists groups', more.
    split_and!; [done|by constructor|done|done]. }
  rewrite len_app. change (len [index]) with 1. change ALPHA with 3. destruct (Z.eqb_spec (len selected + 1) 3) as [He|He].
  - eexists _, [index]. split_and!; [reflexivity|constructor; apply sublist_nil_l|rewrite len_app; change (len [index]) with 1; lia|].
    intros ->. cbn [andb] in Ed. apply bool_decide_eq_false in Ed. cbn [map]. rewrite Hg. split_and!.
    + apply NoDup_singleton.
    + constructor; [by rewrite Hg|constructor].
    + set_solver.
  - destruct (IH (if diverse then {[n_group n]} ∪ groups else groups) (selected ++ [index])) as (groups' & more & -> & Hsub & Hlen & Hd).
    { rewrite len_app. change (len [index]) with 1. lia. }
    exists groups', (index :: more). rewrite <- app_assoc in *. cbn [app] in *. split_and!; [done|by constructor|done|].
    intros ->. cbn [andb] in Ed. apply bool_decide_eq_false in Ed. destruct (Hd eq_refl) as (D1 & D2 & ->).
    rewrite Forall_forall in D2. cbn [map]. rewrite Hg. split_and!.
    + constructor; [|done]. intros (j & Hj & Hin)%list_elem_of_fmap. apply (D2 j Hin). rewrite <- Hj. set_solver.
    + constructor; [by rewrite Hg|]. apply Forall_forall. intros j Hj. specialize (D2 j Hj). set_solver.
    + cbn [list_to_set]. set_solver.
Qed.

(** What a trace promises: an honest live replica behind a success. *)
Definition found (nodes : list Node) (replicas : gset Z) (t : LookupTrace) : Prop :=
  exists index, index ∈ lt_queried t /\ index ∈ replicas /\ sound_node nodes index.

Lemma query_node_spec nodes replicas trace known index :
  nodes_ok nodes -> valid nodes index -> all_valid nodes known ->
  exists trace' known', query_node nodes replicas (trace, known) index = Some (trace', known')
    /\ lt_rounds trace' = lt_rounds trace /\ lt_queried trace' = {[index]} ∪ lt_queried trace
    /\ lt_observers trace' = {[index]} ∪ lt_observers trace /\ all_valid nodes known' /\ known ⊆ known'
    /\ (lt_success trace' = true -> lt_success trace = true \/ (index ∈ replicas /\ sound_node nodes index)).
Proof.
  intros Hok Hi Hk. destruct (valid_get _ _ Hi) as (n & Hn & Hin & _). unfold query_node. rewrite Hn. cbn [mbind option_bind].
  destruct (n_failed n) eqn:Ef.
  { do 2 eexists. split; [reflexivity|]. cbn [lt_rounds lt_queried lt_observers lt_success]. split_and!; try done. by left. }
  do 2 eexists. split; [reflexivity|]. cbn [lt_rounds lt_queried lt_observers lt_success]. split_and!; try done.
  - destruct (n_malicious n); [done|]. intros j [Hj%elem_of_list_to_set|Hj]%elem_of_union; [|by apply Hk].
    unfold nodes_ok in Hok. rewrite Forall_forall in Hok. specialize (Hok n Hin). rewrite Forall_forall in Hok. by apply Hok.
  - destruct (n_malicious n); set_solver.
  - intros [Hs|[Hm Hr]%andb_true_iff]%orb_true_iff; [by left|]. right. apply bool_decide_eq_true in Hr. split; [done|].
    exists n. split_and!; [done|by destruct (n_malicious n)|done].
Qed.

Lemma query_all_spec nodes replicas selected :
  nodes_ok nodes -> Forall (valid nodes) selected -> forall trace known, all_valid nodes known ->
  exists trace' known', try_fold (query_node nodes replicas) (trace, known) selected = Some (trace', known')
    /\ lt_rounds trace' = lt_rounds trace /\ lt_queried trace' = list_to_set selected ∪ lt_queried trace
    /\ lt_observers trace' = list_to_set selected ∪ lt_observers trace /\ all_valid nodes known'
    /\ (lt_success trace' = true -> lt_success trace = true \/ exists i, i ∈ selected /\ i ∈ replicas /\ sound_node nodes i).
Proof.
  intros Hok Hv. induction Hv as [|index l Hi _ IH]; intros trace known Hk; cbn [try_fold].
  { do 2 eexists. split; [reflexivity|]. cbn [list_to_set]. split_and!; try done; [set_solver|set_solver|by left]. }
  destruct (query_node_spec nodes replicas trace known index Hok Hi Hk) as (t1 & k1 & -> & R1 & Q1 & O1 & V1 & _ & S1).
  destruct (IH t1 k1 V1) as (t2 & k2 & -> & R2 & Q2 & O2 & V2 & S2). do 2 eexists. split; [reflexivity|].
  cbn [list_to_set]. split_and!; [congruence|rewrite Q2, Q1; set_solver|rewrite O2, O1; set_solver|done|].
  intros [Hs|(i & Hi' & Hr)]%S2.
  - destruct (S1 Hs) as [?|[Hr Hn]]; [by left|]. right. exists index. split_and!; [left|done|done].
  - right. exists i. split_and!; [by right|apply Hr|apply Hr].
Qed.

Section Facts.
Context `{UnstableSortLaws}.

Lemma elem_of_sort {A} (key : A -> Z) l x : x ∈ sort_unstable_by_key key l <-> x ∈ l.
Proof. by rewrite sort_permutes. Qed.

Lemma sort_strongly {A} (key : A -> Z) l : StronglySorted (fun x y => key x <= key y) (sort_unstable_by_key key l).
Proof. apply Sorted_StronglySorted; [intros x y z; cbn; lia|apply sort_sorts]. Qed.

(** ** Replicas *)

Lemma replicas_spec nodes target diverse n :
  exists replicas, select_replicas nodes target diverse n = Some replicas
    /\ all_valid nodes replicas /\ set_len replicas <= Z.max 0 n
    /\ (diverse = true -> forall i j, i ∈ replicas -> j ∈ replicas -> group_of nodes i = group_of nodes j -> i = j)
    /\ forall j, valid nodes j -> j ∉ replicas ->
         (set_len replicas = Z.max 0 n
          /\ forall i, i ∈ replicas -> distance_to nodes target i <= distance_to nodes target j)
         \/ (diverse = true /\ exists k, k ∈ replicas /\ group_of nodes k = group_of nodes j).
Proof.
  unfold select_replicas. set (ordered := sort_unstable_by_key (distance_to nodes target) (seqZ 0 (len nodes))).
  assert (forall i, i ∈ ordered <-> valid nodes i) as Hv by (intros i; unfold ordered; by rewrite elem_of_sort, valid_seqZ).
  pose proof (sort_strongly (distance_to nodes target) (seqZ 0 (len nodes))) as Hsort. fold ordered in Hsort.
  destruct (new_groups_spec nodes diverse _ ordered ltac:(apply Forall_forall; intros i; by apply Hv) Hsort ∅)
    as (kept & -> & Hsub & Hall & Hdiv).
  cbn [mbind option_bind]. eexists. split; [reflexivity|]. set (m := Z.to_nat n).
  pose proof (sublist_sorted _ _ _ Hsub Hsort) as Hks.
  assert (NoDup kept) as Hnd by (eapply sublist_NoDup; [exact Hsub|]; unfold ordered; rewrite sort_permutes; apply NoDup_seqZ).
  split_and!.
  - intros i Hi%elem_of_list_to_set. apply Hv. eapply elem_of_sublist; [|exact Hsub]. by eapply elem_of_prefix_take.
  - etransitivity; [apply set_len_list|]. unfold len, m. rewrite length_take. lia.
  - intros Hd i j. rewrite !elem_of_list_to_set. intros Hi Hj. destruct (Hdiv Hd) as (D1 & _ & _).
    eapply one_per_group_inj; [exact D1|by eapply elem_of_prefix_take..].
  - intros j. rewrite elem_of_list_to_set. intros Hj Hn.
    assert (forall k, k ∈ kept -> k ∉ take m kept -> set_len (list_to_set (take m kept)) = Z.max 0 n
      /\ forall i, i ∈ take m kept -> distance_to nodes target i <= distance_to nodes target k) as Hfar.
    { intros k Hk Hkn. assert (k ∈ drop m kept) as Hkd.
      { rewrite <- (take_drop m kept) in Hk. by apply elem_of_app in Hk as [?|?]. }
      split; [|intros i Hi; by apply (sorted_take_drop _ m kept i k Hks Hi)].
      unfold set_len. rewrite size_list_to_set by (by eapply sublist_NoDup; [apply sublist_take|]).
      apply list_elem_of_lookup in Hkd as [a Ha%lookup_lt_Some]. rewrite length_drop in Ha. rewrite length_take. unfold m. lia. }
    apply Hv in Hj. destruct diverse.
    + destruct (Hdiv eq_refl) as (_ & _ & D3). destruct (D3 j Hj) as [Hk|[?%elem_of_empty|(k & Hk & Hg & Hle)]]; [|done|].
      * left. destruct (Hfar j Hk Hn) as [Hl Hd]. split; [done|]. intros i Hi%elem_of_list_to_set. by apply Hd.
      * destruct (decide (k ∈ take m kept)) as [Hkt|Hkt]; [right; split; [done|]; exists k; by rewrite elem_of_list_to_set|].
        left. destruct (Hfar k Hk Hkt) as [Hl Hd]. split; [done|]. intros i Hi%elem_of_list_to_set. etransitivity; [by apply Hd|exact Hle].
    + left. rewrite (Hall eq_refl) in *. destruct (Hfar j Hj Hn) as [Hl Hd]. split; [done|]. intros i Hi%elem_of_list_to_set. by apply Hd.
Qed.

Lemma replicas_ok nodes target diverse n :
  exists replicas, select_replicas nodes target diverse n = Some replicas
    /\ all_valid nodes replicas /\ set_len replicas <= Z.max 0 n.
Proof. destruct (replicas_spec nodes target diverse n) as (replicas & ? & ? & ? & _). by exists replicas. Qed.

(** Where a record is stored.  The replicas are distinct nodes, at most as many as
    asked for.  A node is left out only when as many replicas as asked for are at least as near
    to the key, or, with prefix diversity, when its group already has a replica; then no two
    replicas share a group: an operator of [k] groups holds at most [k] replicas. *)
Theorem replicas_nearest (nodes : list Node) (target : Z) (diverse : bool) (n : Z) :
  exists replicas, select_replicas nodes target diverse n = Some replicas
    /\ all_valid nodes replicas /\ set_len replicas <= Z.max 0 n
    /\ (diverse = true -> forall i j, i ∈ replicas -> j ∈ replicas -> group_of nodes i = group_of nodes j -> i = j)
    /\ forall j, valid nodes j -> j ∉ replicas ->
         (set_len replicas = Z.max 0 n
          /\ forall i, i ∈ replicas -> distance_to nodes target i <= distance_to nodes target j)
         \/ (diverse = true /\ exists k, k ∈ replicas /\ group_of nodes k = group_of nodes j).
Proof. apply replicas_spec. Qed.

(** ** Lookups *)

(** The state of a lookup after [round] rounds. *)
Record trace_ok (nodes : list Node) (start : Z) (replicas : gset Z) (diverse : bool) (round : Z) (t : LookupTrace) : Prop := {
  to_observers : lt_observers t = {[start]} ∪ lt_queried t;
  to_valid : all_valid nodes (lt_queried t);
  to_rounds : 0 <= lt_rounds t <= round;
  to_queried : set_len (lt_queried t) <= ALPHA * lt_rounds t;
  to_success : lt_success t = true -> found nodes replicas t;
  to_groups : diverse = true -> forall i j, i ∈ lt_queried t -> j ∈ lt_queried t -> group_of nodes i = group_of nodes j -> i = j
}.

Lemma lookup_converged_total nodes target known queried diverse :
  all_valid nodes known -> exists b, lookup_converged nodes target known queried diverse = Some b.
Proof.
  intros Hk. unfold lookup_converged.
  destruct (new_groups_spec nodes diverse _ (sort_unstable_by_key (distance_to nodes target) (iter known))
    ltac:(apply Forall_forall; intros i Hi; apply Hk, elem_of_iter; by apply elem_of_sort in Hi)
    (sort_strongly _ _) ∅) as (kept & -> & _). cbn [mbind option_bind]. by eexists.
Qed.

Lemma lookup_loop_spec nodes start target replicas diverse rounds : nodes_ok nodes -> forall round trace known groups,
  trace_ok nodes start replicas diverse round trace -> 0 <= round -> all_valid nodes known ->
  (diverse = true -> forall i, i ∈ lt_queried trace -> group_of nodes i ∈ groups) ->
  exists t, lookup_loop nodes target replicas diverse rounds round trace known groups = Some t
    /\ trace_ok nodes start replicas diverse (round + Z.of_nat rounds) t.
Proof.
  intros Hok. induction rounds as [|rounds IH]; intros round trace known groups [To Tv Tr Tq Ts Tg] Hround Hk Hg; cbn [lookup_loop].
  { exists trace. split; [done|]. by rewrite Z.add_0_r. }
  set (fresh := List.filter (fun index => negb (bool_decide (index ∈ lt_queried trace))) (iter known)).
  assert (forall i, i ∈ sort_unstable_by_key (distance_to nodes target) fresh -> valid nodes i /\ i ∉ lt_queried trace) as Hf.
  { intros i Hi. apply elem_of_sort in Hi. unfold fresh in Hi. apply list_elem_of_In, filter_In in Hi as [Hi Hn].
    apply list_elem_of_In, elem_of_iter in Hi. split; [by apply Hk|]. by apply negb_true_iff, bool_decide_eq_false in Hn. }
  destruct (select_queries_spec nodes diverse (sort_unstable_by_key (distance_to nodes target) fresh)
    ltac:(apply Forall_forall; intros i Hi; by apply Hf) groups [] ltac:(done)) as (groups' & sel & -> & Hsub & Hlen & Hd).
  cbn [mbind option_bind app] in *. case_bool_decide as He.
  { exists trace. split; [done|]. split; try done. lia. }
  assert (forall i, i ∈ sel -> valid nodes i /\ i ∉ lt_queried trace) as Hsel.
  { intros i Hi. apply Hf. by eapply elem_of_sublist. }
  destruct (query_all_spec nodes replicas sel Hok ltac:(apply Forall_forall; intros i Hi; by apply Hsel)
    (mkTrace (lt_success trace) (round + 1) (lt_observers trace) (lt_queried trace)) known Hk)
    as (t1 & k1 & -> & R1 & Q1 & O1 & V1 & S1). cbn [mbind option_bind lt_rounds lt_queried lt_observers lt_success] in *.
  assert (trace_ok nodes start replicas diverse (round + 1) t1) as Ht1.
  { split.
    - rewrite O1, Q1, To. set_solver.
    - intros i. rewrite Q1, elem_of_union, elem_of_list_to_set. intros [Hi|Hi]; [by apply Hsel|by apply Tv].
    - lia.
    - rewrite Q1, R1. pose proof (set_len_union (list_to_set sel) (lt_queried trace)). pose proof (set_len_list sel). unfold ALPHA in *. lia.
    - intros [Hs|(i & Hi & Hr & Hn)]%S1.
      + destruct (Ts Hs) as (i & Hi & Hr). exists i. split; [rewrite Q1; set_solver|done].
      + exists i. split_and!; [rewrite Q1; set_solver|done|done].
    - intros Hdiv i j. rewrite Q1, !elem_of_union, !elem_of_list_to_set. destruct (Hd Hdiv) as (D1 & D2 & _). rewrite Forall_forall in D2.
      intros [Hi|Hi] [Hj|Hj] Hij; [by eapply one_per_group_inj| | |by apply Tg].
      + exfalso. apply (D2 i Hi). rewrite Hij. by apply Hg.
      + exfalso. apply (D2 j Hj). rewrite <- Hij. by apply Hg. }
  destruct (lookup_converged_total nodes target k1 (lt_queried t1) diverse V1) as [b Hb].
  assert (exists c, (if lt_success t1 then Some true else lookup_converged nodes target k1 (lt_queried t1) diverse) = Some c) as [c ->]
    by (destruct (lt_success t1); eauto).
  cbn [mbind option_bind]. destruct c.
  { exists t1. split; [done|]. destruct Ht1. split; try done. lia. }
  destruct (IH (round + 1) t1 k1 groups' Ht1 ltac:(lia) V1) as (t & -> & Ht).
  { intros Hdiv i. rewrite Q1, elem_of_union, elem_of_list_to_set. destruct (Hd Hdiv) as (_ & _ & ->). intros [Hi|Hi].
    - apply elem_of_union_l, elem_of_list_to_set, list_elem_of_fmap. by exists i.
    - apply elem_of_union_r. by apply Hg. }
  exists t. split; [done|]. by replace (round + Z.of_nat (S rounds)) with (round + 1 + Z.of_nat rounds) by lia.
Qed.

Lemma route_lookup_ok nodes start target replicas diverse :
  nodes_ok nodes -> valid nodes start ->
  exists t, route_lookup nodes start target replicas diverse = Some t /\ trace_ok nodes start replicas diverse 64 t.
Proof.
  intros Hok Hs. destruct (valid_get _ _ Hs) as (n & Hn & Hin & _). unfold route_lookup. rewrite Hn. cbn [mbind option_bind].
  assert (forall round, 0 <= round -> trace_ok nodes start replicas diverse round (mkTrace false 0 {[start]} ∅)) as Ht.
  { intros round Hr. split; cbn [lt_observers lt_queried lt_rounds lt_success]; try done; try set_solver. }
  destruct (n_failed n || n_malicious n); [eexists; split; [reflexivity|by apply Ht]|].
  apply (lookup_loop_spec nodes start target replicas diverse MAX_LOOKUP_ROUNDS Hok 0); [by apply Ht|done| |set_solver].
  unfold nodes_ok in Hok. rewrite Forall_forall in Hok. specialize (Hok n Hin). rewrite Forall_forall in Hok.
  intros i Hi%elem_of_list_to_set. by apply Hok.
Qed.

(** C38: a lookup always ends, within 64 rounds and three queries a round; it is seen by its
    start and the nodes it queries, and by no other; it reports success only when it
    queried an honest live node that holds a replica; and with prefix diversity it never
    queries two nodes of one network group, so that an operator of [k] groups sees at
    most [k] queries. *)
Theorem lookup_sound (nodes : list Node) (start target : Z) (replicas : gset Z) (diverse : bool) :
  nodes_ok nodes -> valid nodes start ->
  exists t, route_lookup nodes start target replicas diverse = Some t
    /\ lt_observers t = {[start]} ∪ lt_queried t /\ all_valid nodes (lt_queried t)
    /\ lt_rounds t <= 64 /\ set_len (lt_queried t) <= 3 * lt_rounds t
    /\ (lt_success t = true -> found nodes replicas t)
    /\ (diverse = true -> forall i j, i ∈ lt_queried t -> j ∈ lt_queried t -> group_of nodes i = group_of nodes j -> i = j).
Proof.
  intros Hok Hs. destruct (route_lookup_ok nodes start target replicas diverse Hok Hs) as (t & Ht & [To Tv Tr Tq Ts Tg]).
  exists t. split_and!; try done. lia.
Qed.
End Facts.

(** ** Topologies *)

(** Nodes that differ only in their tables. *)
Definition same_node (a b : Node) : Prop :=
  n_id a = n_id b /\ n_group a = n_group b /\ n_malicious a = n_malicious b /\ n_failed a = n_failed b /\ n_sybil a = n_sybil b.

Lemma same_sound nodes nodes' index : Forall2 same_node nodes nodes' -> sound_node nodes index -> sound_node nodes' index.
Proof.
  intros H2 (n & Hn & Hm & Hf). pose proof (get_Some_range _ _ _ Hn). apply get_lookup in Hn.
  destruct (Forall2_lookup_l _ _ _ _ _ H2 Hn) as (n' & Hn' & _ & _ & E1 & E2 & _). exists n'.
  split_and!; [|congruence|congruence]. replace index with (Z.of_nat (Z.to_nat index)) by lia. by rewrite get_of_nat.
Qed.

Lemma len_Forall2 {A B} (P : A -> B -> Prop) l k : Forall2 P l k -> len l = len k.
Proof. intros H2%Forall2_length. unfold len. by rewrite H2. Qed.

Section Topology.
Context `{Blake3} `{UnstableSortLaws}.

Lemma ranked_size total n domain seed : 0 <= n -> set_len (ranked_indices total n domain seed) <= n.
Proof.
  intros Hn. unfold ranked_indices. etransitivity; [apply set_len_list|]. rewrite len_map. unfold len. rewrite length_take. lia.
Qed.

(** Fewer bad nodes than nodes leave an honest live one. *)
Lemma outside_exists (n : Z) (a b : gset Z) :
  0 <= n -> set_len a + set_len b < n -> exists i, 0 <= i < n /\ i ∉ a /\ i ∉ b.
Proof.
  intros Hn Hlt. destruct (decide (Forall (fun i => i ∈ a ∪ b) (seqZ 0 n))) as [Hall|Hex].
  - exfalso. rewrite Forall_forall in Hall.
    assert (list_to_set (seqZ 0 n) ⊆ a ∪ b) as Hs%set_len_mono by (intros i Hi%elem_of_list_to_set; by apply Hall).
    unfold set_len at 1 in Hs. rewrite size_list_to_set, length_seqZ in Hs by apply NoDup_seqZ.
    pose proof (set_len_union a b). lia.
  - apply not_Forall_Exists in Hex; [|apply _]. apply Exists_exists in Hex as (i & Hi%elem_of_seqZ & Hni). exists i.
    split; [lia|]. set_solver.
Qed.

Definition percents_ok (s : ResearchScenario) : Prop :=
  0 < ordinary_nodes s /\ 0 <= malicious_percent s /\ 0 <= failed_percent s /\ malicious_percent s + failed_percent s < 100
  /\ (sybil_nodes s <= 0 \/ 0 < sybil_groups s <= 65280).

Lemma bad_counts s : percents_ok s ->
  let m := sat_mul USIZE_MAX (ordinary_nodes s) (malicious_percent s) / 100 in
  let f := sat_mul USIZE_MAX (ordinary_nodes s) (failed_percent s) / 100 in
  0 <= m /\ 0 <= f /\ m + f < ordinary_nodes s.
Proof.
  intros (Hn & Hm & Hf & Hlt & _). cbv zeta. unfold sat_mul, USIZE_MAX, U64_MAX.
  set (a := Z.min _ (_ * malicious_percent s)). set (b := Z.min _ (_ * failed_percent s)).
  assert (0 <= a <= ordinary_nodes s * malicious_percent s) by (unfold a; nia).
  assert (0 <= b <= ordinary_nodes s * failed_percent s) by (unfold b; nia).
  pose proof (Z.div_mod a 100). pose proof (Z.mod_pos_bound a 100). pose proof (Z.div_mod b 100). pose proof (Z.mod_pos_bound b 100).
  nia.
Qed.

Lemma build_nodes_ok s target seed : percents_ok s ->
  exists nodes, build_nodes s target seed = Some nodes /\ nodes_ok nodes /\ exists i, sound_node nodes i.
Proof.
  intros Hp. destruct (bad_counts s Hp) as (Hm & Hf & Hlt). destruct Hp as (Hn & _ & _ & _ & Hg). unfold build_nodes.
  set (m := _ / 100) in *. set (f := sat_mul _ _ (failed_percent s) / 100) in *.
  set (bad := ranked_indices _ m _ _). set (dead := ranked_indices _ f _ _).
  destruct (mapM_total (fun index n => n_malicious n = bool_decide (index ∈ bad) /\ n_failed n = bool_decide (index ∈ dead) /\ n_routing n = [])
    (fun index => group ← try_from U16_MAX (index mod 256);
      Some (mkNode (stable_hash (str "node") (Z.lxor index seed)) group (bool_decide (index ∈ bad)) (bool_decide (index ∈ dead)) false []))
    (seqZ 0 (ordinary_nodes s))) as (ordinary & -> & H2).
  { intros i _. pose proof (Z.mod_pos_bound i 256). rewrite (proj2 (try_from_Some U16_MAX (i mod 256) (i mod 256))) by (unfold U16_MAX; lia).
    cbn [mbind option_bind]. by eexists. }
  destruct (mapM_total (fun _ n => n_routing n = [])
    (fun index => group ← try_from U16_MAX (256 + index mod sybil_groups s); Some (mkNode (Z.lxor target (index + 1)) group true false true []))
    (seqZ 0 (sybil_nodes s))) as (sybils & -> & H2').
  { intros i Hi%elem_of_seqZ. pose proof (Z.mod_pos_bound i (sybil_groups s)).
    rewrite (proj2 (try_from_Some U16_MAX (256 + i mod sybil_groups s) (256 + i mod sybil_groups s))) by (unfold U16_MAX; lia).
    cbn [mbind option_bind]. by eexists. }
  cbn [mbind option_bind]. eexists. split; [reflexivity|]. split.
  - apply Forall_app. split; apply Forall_forall; intros n Hin; apply list_elem_of_lookup in Hin as [k Hk].
    + destruct (Forall2_lookup_r _ _ _ _ _ H2 Hk) as (i & _ & _ & _ & ->). constructor.
    + destruct (Forall2_lookup_r _ _ _ _ _ H2' Hk) as (i & _ & ->). constructor.
  - destruct (outside_exists (ordinary_nodes s) bad dead ltac:(lia)) as (i & Hi & Hb & Hd).
    { pose proof (ranked_size (ordinary_nodes s) m (str "malicious") seed Hm). pose proof (ranked_size (ordinary_nodes s) f (str "failed") seed Hf).
      unfold bad, dead. lia. }
    assert (seqZ 0 (ordinary_nodes s) !! Z.to_nat i = Some i) as Hl by (apply lookup_seqZ; lia).
    destruct (Forall2_lookup_l _ _ _ _ _ H2 Hl) as (n & Hn' & Em & Ef & _). exists i, n. split_and!.
    + unfold get. rewrite (proj2 (Z.leb_le _ _)) by lia. by apply lookup_app_l_Some.
    + rewrite Em. by apply bool_decide_eq_false.
    + rewrite Ef. by apply bool_decide_eq_false.
Qed.

Lemma push_candidate_valid nodes current buckets candidate :
  valid nodes candidate -> Forall (Forall (valid nodes)) buckets -> Forall (Forall (valid nodes)) (push_candidate nodes current buckets candidate).
Proof.
  intros Hc Hb. unfold push_candidate, set_at. apply Forall_insert; [done|]. apply Forall_app. split; [|by apply Forall_singleton].
  destruct (get buckets _) as [l|] eqn:E; [|constructor]. by apply (Forall_lookup_1 _ _ _ _ Hb (get_lookup _ _ _ E)).
Qed.

Lemma buckets_valid nodes current : Forall (Forall (valid nodes)) (buckets_of nodes current).
Proof.
  unfold buckets_of.
  assert (Forall (valid nodes) (List.filter (fun c => negb (c =? current)) (seqZ 0 (len nodes)))) as Ho.
  { apply Forall_forall. intros c Hc%list_elem_of_In. apply filter_In in Hc as [Hc%list_elem_of_In _]. by apply valid_seqZ. }
  assert (Forall (Forall (valid nodes)) (replicate 64 [])) as Hb by (apply Forall_replicate; constructor).
  revert Hb. generalize (replicate 64 ([] : list Z)). induction Ho as [|c l Hc _ IH]; intros buckets Hb; [done|].
  apply IH. by apply push_candidate_valid.
Qed.

Lemma routing_table_valid nodes current : Forall (valid nodes) (routing_table nodes current).
Proof.
  apply Forall_forall. intros i Hi. unfold routing_table in Hi. apply list_elem_of_In, in_concat in Hi as (l & Hl & Hi).
  apply in_map_iff in Hl as (b & <- & Hb%list_elem_of_In). apply list_elem_of_In, elem_of_prefix_take, elem_of_sort in Hi.
  pose proof (proj1 (Forall_forall _ _) (buckets_valid nodes current) b Hb) as Hv. by apply (proj1 (Forall_forall _ _) Hv).
Qed.

(** A bucket gives at most eight contacts, and there are 64. *)
Lemma routing_table_short nodes current : len (routing_table nodes current) <= 512.
Proof.
  unfold routing_table. assert (length (buckets_of nodes current) = 64%nat) as Hl.
  { unfold buckets_of. generalize (List.filter (fun c => negb (c =? current)) (seqZ 0 (len nodes))). intros l.
    assert (forall buckets, length (foldl (push_candidate nodes current) buckets l) = length buckets) as Hf.
    { induction l as [|c l IH]; intros buckets; [done|]. cbn [foldl]. rewrite IH. unfold push_candidate, set_at. apply length_insert. }
    by rewrite Hf, length_replicate. }
  assert (forall ls : list (list Z), Forall (fun l => len l <= 8) ls -> len (concat ls) <= 8 * len ls) as Hc.
  { intros ls. induction 1 as [|l ls Hs _ IH]; [done|]. cbn [concat]. rewrite len_app, len_cons. lia. }
  etransitivity; [apply Hc|].
  - apply Forall_fmap, Forall_forall. intros b _. cbn. unfold len, K_BUCKET_SIZE. rewrite length_take. lia.
  - rewrite len_map. unfold len. lia.
Qed.

Lemma enumerate_Forall2 (nodes : list Node) : Forall2 (fun (n : Node) (e : Z * Node) => e.2 = n /\ get nodes e.1 = Some n) nodes (enumerate nodes).
Proof.
  apply Forall2_same_length_lookup. split.
  - pose proof (len_enumerate_from 0 nodes) as Hl. unfold len in Hl. unfold enumerate. lia.
  - intros i x y Hx Hy. unfold enumerate in Hy. rewrite enumerate_from_lookup, Hx in Hy. cbn in Hy. injection Hy as <-.
    split; [done|]. cbn [fst]. by rewrite Z.add_0_l, get_of_nat.
Qed.

(** No table exceeds its buckets. *)
Definition short_tables (nodes : list Node) : Prop := Forall (fun n => len (n_routing n) <= 512) nodes.

Lemma build_routing_ok nodes :
  Forall2 same_node nodes (build_routing_tables nodes) /\ nodes_ok (build_routing_tables nodes)
  /\ short_tables (build_routing_tables nodes).
Proof.
  assert (Forall2 same_node nodes (build_routing_tables nodes)) as H2.
  { unfold build_routing_tables. apply Forall2_fmap_r. eapply Forall2_impl; [apply enumerate_Forall2|].
    intros n [i n'] [Hn _]. cbn [snd] in Hn. subst n'. by repeat split. }
  split; [done|]. unfold nodes_ok, short_tables, valid. rewrite <- (len_Forall2 _ _ _ H2).
  split; apply Forall_forall; intros n Hn; unfold build_routing_tables in Hn; apply list_elem_of_fmap in Hn as ([i n'] & -> & _).
  - apply routing_table_valid.
  - apply routing_table_short.
Qed.

Lemma contaminate_slot_ok nodes malicious seed node_index routing slot :
  malicious <> [] -> Forall (valid nodes) malicious -> Forall (valid nodes) routing -> 0 <= slot < len routing ->
  exists routing', contaminate_slot malicious seed node_index routing slot = Some routing'
    /\ Forall (valid nodes) routing' /\ len routing' = len routing.
Proof.
  intros Hne Hm Hr Hs. unfold contaminate_slot. assert (0 < len malicious) as Hl by (destruct malicious; [done|len_lia]).
  match goal with |- context [get malicious ?x] => set (choice := x) end.
  destruct (proj2 (get_is_Some malicious choice)) as [attacker Ha]; [apply Z.mod_pos_bound; lia|]. rewrite Ha. cbn [mbind option_bind].
  destruct (attacker =? node_index); [by eexists|]. rewrite (proj2 (Z.ltb_lt _ _)) by lia. eexists. split; [reflexivity|]. split.
  - unfold set_at. apply Forall_insert; [done|]. rewrite Forall_forall in Hm. apply Hm. by eapply get_elem.
  - unfold set_at, len. by rewrite length_insert.
Qed.

Lemma contaminate_ok nodes percent seed :
  nodes_ok nodes -> short_tables nodes -> 0 <= percent <= 100 ->
  exists nodes', contaminate_routing_tables nodes percent seed = Some nodes'
    /\ Forall2 same_node nodes nodes' /\ nodes_ok nodes' /\ short_tables nodes'.
Proof.
  intros Hok Hshort Hp. unfold contaminate_routing_tables.
  assert (Forall2 same_node nodes nodes) as Hrefl by (apply Forall_Forall2_diag, Forall_forall; by repeat split).
  destruct (percent =? 0); [by exists nodes|]. case_bool_decide as Hm; [by exists nodes|].
  set (malicious := map fst _) in *.
  assert (Forall (valid nodes) malicious) as Hmv.
  { apply Forall_forall. intros i Hi. unfold malicious in Hi. apply list_elem_of_fmap in Hi as ([j n] & -> & Hj).
    apply list_elem_of_In, filter_In in Hj as [Hj _]. apply list_elem_of_In, get_enumerate in Hj as [_ Hj]. exact Hj. }
  destruct (mapM_total (fun e n' => same_node e.2 n' /\ Forall (valid nodes) (n_routing n') /\ len (n_routing n') <= 512) (contaminate_node malicious percent seed) (enumerate nodes))
    as (nodes' & -> & H2).
  { intros [i n] Hin. apply get_enumerate in Hin as [Hn _]. apply get_elem in Hn. unfold nodes_ok, short_tables in Hok, Hshort. rewrite Forall_forall in Hok, Hshort.
    unfold contaminate_node. set (k := _ / 100).
    assert (k <= len (n_routing n)) as Hk.
    { pose proof (len_nonneg (n_routing n)). unfold k, sat_mul. apply Z.div_le_upper_bound; [lia|]. nia. }
    destruct (try_fold_keeps (fun routing => Forall (valid nodes) routing /\ len routing = len (n_routing n))
      (contaminate_slot malicious seed i) (seqZ 0 k) (n_routing n)) as (routing & -> & Hv & Hrl); [by split; [apply Hok|]| |].
    { intros slot r Hs%elem_of_seqZ [Hr Hl]. destruct (contaminate_slot_ok nodes malicious seed i r slot Hm Hmv Hr ltac:(lia)) as (r' & -> & ? & ?).
      exists r'. split_and!; [done|done|lia]. }
    cbn [mbind option_bind]. eexists. split; [reflexivity|]. split; [by repeat split|]. cbn [with_routing n_routing].
    split; [|pose proof (len_dedup (merge_sort Z.le routing)) as Hd; specialize (Hshort n Hn);
      assert (len (merge_sort Z.le routing) = len routing) by (unfold len; by rewrite merge_sort_Permutation); lia].
    apply Forall_forall. intros j Hj. rewrite elem_of_dedup, merge_sort_Permutation in Hj.
    rewrite Forall_forall in Hv. by apply Hv. }
  assert (Forall2 same_node nodes nodes') as Hs.
  { apply Forall2_same_length_lookup. pose proof (enumerate_Forall2 nodes) as He. split.
    - rewrite (Forall2_length _ _ _ He). by apply Forall2_length in H2.
    - intros i x y Hx Hy. destruct (Forall2_lookup_l _ _ _ _ _ He Hx) as ([j n] & Hj & Hn & _). cbn [snd] in Hn. subst n.
      by destruct (Forall2_lookup_lr _ _ _ _ _ _ H2 Hj Hy) as [? _]. }
  exists nodes'. split; [done|]. split; [done|]. unfold nodes_ok, short_tables, valid. rewrite <- (len_Forall2 _ _ _ Hs).
  split; apply Forall_forall; intros n Hn; apply list_elem_of_lookup in Hn as [k Hk];
    by destruct (Forall2_lookup_r _ _ _ _ _ H2 Hk) as (e & _ & _ & ? & ?).
Qed.

(** ** Choosing nodes *)

Lemma select_node_ok nodes seed honest :
  (exists i, sound_node nodes i) -> exists i, select_node nodes seed honest = Some i /\ usable nodes honest i = true /\ valid nodes i.
Proof.
  intros (j & n & Hj & Hm & Hf). pose proof (get_Some_range _ _ _ Hj) as Hr. unfold select_node.
  rewrite (proj2 (Z.eqb_neq _ 0)) by lia. set (m := len nodes) in *.
  assert (exists i, List.find (usable nodes honest) (map (fun offset => (seed mod m + offset) mod m) (seqZ 0 m)) = Some i) as [i Hi].
  { destruct (List.find _ _) as [i|] eqn:E; [by exists i|]. exfalso.
    assert (usable nodes honest j = false) as Hu.
    { apply (find_none _ _ E). apply in_map_iff. exists ((j - seed mod m) mod m). split.
      - rewrite Z.add_mod_idemp_r by lia. replace (seed mod m + (j - seed mod m)) with j by lia. by apply Z.mod_small.
      - apply list_elem_of_In, elem_of_seqZ. pose proof (Z.mod_pos_bound (j - seed mod m) m). lia. }
    unfold usable in Hu. rewrite Hj, Hm, Hf in Hu. by destruct honest. }
  exists i. split; [done|]. apply find_some in Hi as [Hin Hu]. split; [done|].
  unfold usable in Hu. destruct (get nodes i) as [x|] eqn:E; [|done]. by apply get_Some_range in E.
Qed.
End Topology.

(** ** Metrics *)

(** The metrics after [k] lookups among [n] nodes, with the records of [d] contents stored
    and [c] contents finished; [total] lookups and [contents] contents were planned. *)
Record sound_metrics (po : Policy) (n replicas total contents k d c : Z) (m : ResearchMetrics) : Prop := {
  sm_planned : lookups m = total /\ rm_contents m = contents /\ rm_nodes m = n;
  sm_observers : 0 <= lookup_key_observers m <= n * k /\ 0 <= raw_content_observers m <= n * k
    /\ 0 <= requester_key_observers m <= n * k /\ 0 <= provider_key_observers m <= n * d;
  sm_messages : 0 <= control_messages m <= (2 * n + 4 * po_lookup_paths po + 2) * k;
  sm_tables : 0 <= routing_entries m <= 512 * n;
  sm_outcomes : 0 <= successes m /\ 0 <= eclipsed_lookups m /\ successes m + eclipsed_lookups m <= k;
  sm_rounds : 0 <= routing_rounds m <= 64 * k;
  sm_adversary : 0 <= adversary_both_sides m <= colluding_adversary_both_sides m /\ colluding_adversary_both_sides m <= k;
  sm_records : 0 <= sybil_records m <= stored_records m /\ stored_records m <= replicas * d /\ stored_records m <= n * d;
  sm_repeats : 0 <= repeated_requester_linkability m <= repeated_key_linkability m /\ repeated_key_linkability m <= c;
  sm_raw : po_key po = CapabilityDerived -> raw_content_observers m = 0;
  sm_origin : po_origin po = Oblivious -> requester_key_observers m = 0 /\ repeated_requester_linkability m = 0;
  sm_provider : po_provider po = IndirectRecord ->
    provider_key_observers m = 0 /\ adversary_both_sides m = 0 /\ colluding_adversary_both_sides m = 0
}.

(** All values at most [b]. *)
Definition bounded_metrics (b : Z) (m : ResearchMetrics) : Prop := Forall (fun v => 0 <= v <= b) (metric_values m).

Lemma bounded_fit b m : bounded_metrics b m -> b <= USIZE_MAX -> metrics_fit m = true.
Proof.
  intros Hb Hle. apply forallb_forall. intros v Hv%list_elem_of_In. unfold bounded_metrics in Hb. rewrite Forall_forall in Hb.
  specialize (Hb v Hv). cbn in Hb. apply Z.leb_le. lia.
Qed.

Lemma bounded_accumulate a b m m' :
  bounded_metrics a m -> bounded_metrics b m' -> bounded_metrics (a + b) (accumulate_metrics m m').
Proof.
  unfold bounded_metrics, metric_values, accumulate_metrics. cbn. rewrite !Forall_cons. intros Ha Hb.
  decompose [and] Ha. decompose [and] Hb. split_and!; try lia. constructor.
Qed.

(** What the metrics of an experiment can reach. *)
Definition metrics_bound (po : Policy) (n total : Z) : Z := total * (2 * n + 4 * po_lookup_paths po + 64) + 512 * n.

Lemma sound_bounded po n replicas l c m :
  0 < n -> 0 < l -> 0 < c -> 0 <= po_lookup_paths po ->
  sound_metrics po n replicas (c * l) c (c * l) c c m -> bounded_metrics (metrics_bound po n (c * l)) m.
Proof.
  intros Hn Hl Hc Hp [(E0 & E1 & E2) (A1 & A2 & A3 & A4) Mm Mt Mo Mr Ma Ms Mp _ _ _]. unfold metrics_bound.
  set (k := c * l) in *. assert (c <= k) by (unfold k; nia).
  assert (n * c <= n * k) by nia. assert (0 <= po_lookup_paths po * k) by nia. assert (0 <= n * k) by nia. assert (n <= n * k) by nia.
  assert ((2 * n + 4 * po_lookup_paths po + 2) * k = 2 * (n * k) + 4 * (po_lookup_paths po * k) + 2 * k) as E3 by lia.
  assert (k * (2 * n + 4 * po_lookup_paths po + 64) = 2 * (n * k) + 4 * (po_lookup_paths po * k) + 64 * k) as E4 by lia.
  rewrite E3 in Mm. rewrite E4. unfold bounded_metrics, metric_values. rewrite !Forall_cons, E0, E1, E2. fold k.
  split_and!; try lia. constructor.
Qed.

Lemma b2z_range b : 0 <= b2z b <= 1.
Proof. destruct b; cbn; lia. Qed.

Lemma any_in_true p s : any_in p s = true <-> exists i, i ∈ s /\ p i = true.
Proof.
  unfold any_in. rewrite existsb_exists. split; intros (i & Hi & Hp); exists i; (split; [|done]).
  - by apply elem_of_elements, list_elem_of_In.
  - by apply list_elem_of_In, elem_of_elements.
Qed.

Lemma elem_of_keep p s i : i ∈ keep p s <-> i ∈ s /\ p i = true.
Proof. unfold keep. rewrite elem_of_list_to_set, list_elem_of_In, filter_In, <- list_elem_of_In, elem_of_elements. done. Qed.

Ltac metric_fields := cbn [accumulate_metrics lookups successes routing_rounds lookup_key_observers raw_content_observers
  requester_key_observers provider_key_observers adversary_both_sides colluding_adversary_both_sides eclipsed_lookups
  repeated_key_linkability repeated_requester_linkability control_messages stored_records sybil_records routing_entries
  rm_nodes rm_contents lookup_metrics] in *.

(** A lookup adds at most one to each outcome. *)
Lemma add_lookup nodes po replicas total contents k d c m observers t :
  sound_metrics po (len nodes) replicas total contents k d c m -> 0 <= lt_rounds t <= 64 -> 0 <= po_lookup_paths po ->
  set_len (lt_observers t) <= len nodes -> set_len (lt_queried t) <= len nodes ->
  (po_provider po = IndirectRecord -> observers = ∅) ->
  sound_metrics po (len nodes) replicas total contents (k + 1) d c
    (accumulate_metrics m (lookup_metrics nodes po observers t (keep (is_malicious nodes) (lt_observers t)))).
Proof.
  intros [M1 N1 N2 N3 M2 M3 M4 M5 M6 M7 M8 M9] Hr Hp Hlo Hlq Ho. set (bad := keep _ _).
  pose proof (set_len_nonneg (lt_observers t)). pose proof (set_len_nonneg (lt_queried t)).
  assert (b2z (lt_success t) + b2z (negb (lt_success t) && negb (bool_decide (bad = ∅))) <= 1) as Hout
    by (destruct (lt_success t), (bool_decide (bad = ∅)); cbn; lia).
  pose proof (b2z_range (lt_success t)). pose proof (b2z_range (negb (lt_success t) && negb (bool_decide (bad = ∅)))).
  set (same := bool_decide (po_provider po = DirectRecord) && any_in (fun index => bool_decide (index ∈ observers)) bad).
  set (both := bool_decide (po_provider po = DirectRecord) && negb (bool_decide (bad = ∅)) && any_in (is_malicious nodes) observers).
  assert (same = true -> both = true) as Himp.
  { unfold same, both. intros [-> (i & Hi & Hin%bool_decide_eq_true)%any_in_true]%andb_true_iff.
    rewrite bool_decide_eq_false_2 by set_solver. cbn [negb andb]. apply any_in_true. exists i. split; [done|].
    by apply elem_of_keep in Hi as [_ ?]. }
  assert (b2z same <= b2z both) as Hle by (destruct same; [by rewrite Himp|pose proof (b2z_range both); cbn; lia]).
  pose proof (b2z_range same). pose proof (b2z_range both).
  assert (po_provider po = IndirectRecord -> both = false) as Hind by (unfold both; by intros ->).
  split; metric_fields; fold same both; rewrite ?Z.add_0_r; try lia; try done.
  - repeat case_bool_decide; lia.
  - repeat case_bool_decide; nia.
  - intros Hk. rewrite Hk, bool_decide_eq_false_2 by done. rewrite M7; done.
  - intros Hk. rewrite Hk, bool_decide_eq_false_2 by done. destruct (M8 Hk) as [-> ->]. done.
  - intros Hk. rewrite (Hind Hk) in *. destruct (M9 Hk) as (-> & -> & ->). split_and!; [done| |done]. cbn [b2z] in *. lia.
Qed.

Section Experiment.
Context `{Blake3} `{UnstableSortLaws}.

Lemma combined_lookup_ok i :
  nodes_ok (in_nodes i) -> (exists j, sound_node (in_nodes i) j) -> valid (in_nodes i) (in_requester i) ->
  exists t, combined_lookup i = Some t /\ 0 <= lt_rounds t <= 64
    /\ all_valid (in_nodes i) (lt_observers t) /\ all_valid (in_nodes i) (lt_queried t).
Proof.
  intros Hok Hs Hr. unfold combined_lookup.
  destruct (try_fold_keeps (fun t => 0 <= lt_rounds t <= 64 /\ all_valid (in_nodes i) (lt_observers t) /\ all_valid (in_nodes i) (lt_queried t)) (lookup_path i) (seqZ 0 (po_lookup_paths (in_policy i))) empty_trace)
    as (t & -> & Ht & Hto & Htq); [split_and!; [cbn; lia|cbn; lia|set_solver|set_solver]| |].
  - intros path t _ (Ht & Hto & Htq). unfold lookup_path.
    assert (exists start, (if bool_decide (po_origin (in_policy i) = Oblivious)
      then select_node (in_nodes i) (stable_hash (str "gateway") (Z.lxor (combine_seed (in_content i) (in_repetition i) path) (in_seed i))) false
      else Some (in_requester i)) = Some start /\ valid (in_nodes i) start) as (start & -> & Hv).
    { case_bool_decide; [|by exists (in_requester i)]. destruct (select_node_ok (in_nodes i)
        (stable_hash (str "gateway") (Z.lxor (combine_seed (in_content i) (in_repetition i) path) (in_seed i))) false Hs) as (j & Hj & _ & Hv). by exists j. }
    cbn [mbind option_bind].
    destruct (route_lookup_ok (in_nodes i) start (in_target i) (in_replicas i) (bool_decide (po_routing (in_policy i) = PrefixDiverse)) Hok Hv)
      as (t' & -> & [Hto' Htq' Hr' _ _ _]). cbn [mbind option_bind]. eexists. split; [reflexivity|].
    cbn [lt_rounds lt_observers lt_queried]. split; [lia|]. rewrite Hto'. unfold all_valid in *. split; [|set_solver].
    intros index [Hx|[->%elem_of_singleton|Hx]%elem_of_union]%elem_of_union; auto.
  - cbn [mbind option_bind]. eexists. split; [reflexivity|]. case_bool_decide; [|done]. cbn [lt_rounds lt_observers lt_queried].
    split_and!; [lia|lia| |done]. intros index [Hx _]%elem_of_difference. by apply Hto.
Qed.

(** The maps of counts: the requester's is the other one, or stays empty. *)
Definition counts_agree (po : Policy) (repeats requesters : gmap Z Z) : Prop :=
  requesters = if bool_decide (po_origin po = Direct) then repeats else ∅.

Lemma repeated_agree po repeats requesters : counts_agree po repeats requesters ->
  b2z (repeated requesters) <= b2z (repeated repeats) /\ (po_origin po = Oblivious -> repeated requesters = false).
Proof.
  unfold counts_agree. intros ->. case_bool_decide as Hd; [split; [lia|by rewrite Hd]|]. unfold repeated at 1. rewrite map_to_list_empty.
  cbn [existsb b2z]. pose proof (b2z_range (repeated repeats)). split; [lia|done].
Qed.

Lemma run_content_ok s tuning po nodes total contents k c m content :
  nodes_ok nodes -> (exists j, sound_node nodes j) -> 0 <= lookups_per_content s -> 0 < replica_count tuning ->
  0 <= po_lookup_paths po -> sound_metrics po (len nodes) (replica_count tuning) total contents k c c m ->
  exists m', run_content s tuning po nodes m content = Some m'
    /\ sound_metrics po (len nodes) (replica_count tuning) total contents (k + lookups_per_content s) (c + 1) (c + 1) m'.
Proof.
  intros Hok Hs Hl Hrc Hpaths Hm. unfold run_content. set (target := lookup_key _ _ _).
  destruct (replicas_ok nodes target (bool_decide (po_routing po = PrefixDiverse)) (replica_count tuning)) as (replicas & -> & Hrv & Hrl).
  cbn [mbind option_bind]. destruct (select_node_ok nodes (stable_hash (str "provider") (Z.lxor content (tu_seed tuning))) true Hs) as (provider & -> & _ & Hpv).
  cbn [mbind option_bind].
  assert (exists observers, provider_observers nodes po provider target replicas = Some observers
    /\ (po_provider po = IndirectRecord -> observers = ∅) /\ set_len observers <= len nodes) as (observers & -> & Hobs & Hsize).
  { unfold provider_observers. case_bool_decide as Hi; [exists ∅; split_and!; [done|done|apply all_valid_size; set_solver]|].
    destruct (route_lookup_ok nodes provider target ∅ false Hok Hpv) as (t & -> & [_ Htv _ _ _ _]). cbn [mbind option_bind].
    eexists. split_and!; [done|done|]. apply all_valid_size. intros j [Hj|Hj]%elem_of_union; [by apply Htv|by apply Hrv]. }
  cbn [mbind option_bind]. destruct (select_node_ok nodes (stable_hash (str "requester") (Z.lxor content (tu_seed tuning))) true Hs) as (requester & -> & _ & Hqv).
  cbn [mbind option_bind].
  set (m1 := accumulate_metrics m _).
  assert (sound_metrics po (len nodes) (replica_count tuning) total contents k (c + 1) c m1) as Hm1.
  { assert (set_len (keep (is_sybil nodes) replicas) <= set_len replicas) by (apply set_len_mono; intros j; rewrite elem_of_keep; tauto).
    pose proof (set_len_nonneg (keep (is_sybil nodes) replicas)). pose proof (set_len_nonneg observers).
    assert (set_len replicas <= len nodes) by (apply all_valid_size; exact Hrv). destruct Hm as [M1 N1 N2 N3 M2 M3 M4 M5 M6 M7 M8 M9].
    unfold m1. split; metric_fields; rewrite ?Z.add_0_r; try lia; try done.
    intros Hi. rewrite (Hobs Hi). destruct (M9 Hi) as (-> & -> & ->). done. }
  destruct (try_fold_inv (fun j '(m', repeats, requesters) =>
      sound_metrics po (len nodes) (replica_count tuning) total contents (k + j) (c + 1) c m' /\ counts_agree po repeats requesters)
    (run_lookup (fun repetition => mkInputs nodes po requester target replicas content repetition (tu_seed tuning)) observers)
    (seqZ 0 (lookups_per_content s)) 0 (m1, ∅, ∅)) as ([[m2 repeats] requesters] & -> & Hm2 & Hag).
  { rewrite Z.add_0_r. split; [done|]. unfold counts_agree. by case_bool_decide. }
  { intros repetition j [[m' repeats] requesters] _ [Hm' Hag]. unfold run_lookup.
    destruct (combined_lookup_ok (mkInputs nodes po requester target replicas content repetition (tu_seed tuning)) Hok Hs Hqv) as (t & -> & Ht & Hto & Htq).
    cbn [mbind option_bind in_nodes in_policy]. eexists. split; [reflexivity|]. split.
    - replace (k + (j + 1)) with (k + j + 1) by lia. apply add_lookup; try done; by apply all_valid_size.
    - unfold counts_agree in *. subst requesters. by case_bool_decide. }
  cbn [mbind option_bind]. eexists. split; [reflexivity|].
  destruct (repeated_agree po repeats requesters Hag) as [Hle Hobl]. pose proof (b2z_range (repeated repeats)). pose proof (b2z_range (repeated requesters)).
  assert (0 + len (seqZ 0 (lookups_per_content s)) = lookups_per_content s) as Hlen by (unfold len; rewrite length_seqZ; lia).
  rewrite Hlen in Hm2. destruct Hm2 as [M1 N1 N2 N3 M2 M3 M4 M5 M6 M7 M8 M9].
  split; metric_fields; rewrite ?Z.add_0_r; try lia; try done.
  intros Ho. rewrite (Hobl Ho). destruct (M8 Ho) as [-> ->]. done.
Qed.
Lemma tuning_bounds s tuning : scenario_usable s tuning = true ->
  0 < ordinary_nodes s /\ 0 < rs_contents s /\ 0 < lookups_per_content s /\ 0 < replica_count tuning
  /\ routing_contamination_percent tuning <= 100 /\ 0 < separated_lookup_paths tuning.
Proof.
  unfold scenario_usable, K_BUCKET_SIZE. rewrite !andb_true_iff, !Z.gtb_lt, Z.leb_le. lia.
Qed.

(** The nodes an experiment builds, before their tables. *)
Definition topology (s : ResearchScenario) (candidate : DiscoveryCandidate) (tuning : ResearchTuning) : option (list Node) :=
  build_nodes s (lookup_key 0 (bool_decide (po_key (tuned_policy candidate tuning) = CapabilityDerived)) (tu_seed tuning)) (tu_seed tuning).

Lemma topology_size s candidate tuning nodes : 0 <= ordinary_nodes s -> 0 <= sybil_nodes s ->
  topology s candidate tuning = Some nodes -> len nodes = ordinary_nodes s + sybil_nodes s.
Proof.
  unfold topology, build_nodes. intros Ho Hs Hn. apply bind_Some in Hn as (a & Ha%length_mapM & Hn).
  apply bind_Some in Hn as (b & Hb%length_mapM & Hn). injection Hn as <-. rewrite length_seqZ in Ha, Hb.
  rewrite len_app. unfold len. lia.
Qed.

(** The tables change no node, and are valid. *)
Lemma tables_ok nodes percent seed : 0 <= percent <= 100 ->
  exists nodes', contaminate_routing_tables (build_routing_tables nodes) percent seed = Some nodes'
    /\ nodes_ok nodes' /\ short_tables nodes' /\ len nodes' = len nodes
    /\ ((exists i, sound_node nodes' i) <-> exists i, sound_node nodes i).
Proof.
  intros Hc. destruct (build_routing_ok nodes) as (H2 & Hok & Hs).
  destruct (contaminate_ok _ percent seed Hok Hs Hc) as (nodes' & Hn' & H2' & Hok' & Hs').
  exists nodes'. split_and!; try done; [by rewrite <- (len_Forall2 _ _ _ H2'), <- (len_Forall2 _ _ _ H2)|].
  assert (forall a b, Forall2 same_node a b -> Forall2 same_node b a) as Hsym.
  { intros a b Hab. apply Forall2_flip. eapply Forall2_impl; [exact Hab|]. intros x y (? & ? & ? & ? & ?). by repeat split. }
  split; intros [i Hi]; exists i.
  - eapply same_sound; [by apply Hsym|]. eapply same_sound; [by apply Hsym|exact Hi].
  - eapply same_sound; [exact H2'|]. by eapply same_sound.
Qed.

(** The sums of an experiment stay within [usize]. *)
Definition experiment_fits (s : ResearchScenario) (po : Policy) : Prop :=
  metrics_bound po (ordinary_nodes s + sybil_nodes s) (rs_contents s * lookups_per_content s) <= USIZE_MAX.

Lemma tuned_paths candidate tuning : 0 < separated_lookup_paths tuning -> 0 <= po_lookup_paths (tuned_policy candidate tuning).
Proof. intros Hp. unfold tuned_policy. case_bool_decide; [cbn; lia|]. by destruct candidate. Qed.

(** The metrics of a complete experiment *)
Definition complete_metrics (s : ResearchScenario) (candidate : DiscoveryCandidate) (tuning : ResearchTuning) (m : ResearchMetrics) : Prop :=
  let total := rs_contents s * lookups_per_content s in
  sound_metrics (tuned_policy candidate tuning) (ordinary_nodes s + sybil_nodes s) (replica_count tuning) total (rs_contents s)
    total (rs_contents s) (rs_contents s) m.

Lemma simulate_ok (s : ResearchScenario) (candidate : DiscoveryCandidate) (tuning : ResearchTuning) (nodes : list Node) (i : Z) :
  scenario_usable s tuning = true -> 0 <= sybil_nodes s -> 0 <= routing_contamination_percent tuning ->
  experiment_fits s (tuned_policy candidate tuning) -> topology s candidate tuning = Some nodes -> sound_node nodes i ->
  exists m, simulate_with_tuning s candidate tuning = Some (mkResult s candidate m) /\ complete_metrics s candidate tuning m
    /\ bounded_metrics (metrics_bound (tuned_policy candidate tuning) (ordinary_nodes s + sybil_nodes s)
         (rs_contents s * lookups_per_content s)) m.
Proof.
  intros Hu Hsy Hc Hfit Hn Hi. destruct (tuning_bounds s tuning Hu) as (Ho & Hcs & Hl & Hr & Hc' & Hp). unfold simulate_with_tuning. rewrite Hu. cbn [negb].
  apply (tuned_paths candidate) in Hp. pose proof (topology_size s candidate tuning nodes ltac:(lia) Hsy Hn) as Hlen. unfold topology in Hn.
  unfold complete_metrics. set (po := tuned_policy candidate tuning) in *. rewrite Hn. cbn [mbind option_bind].
  destruct (tables_ok nodes (routing_contamination_percent tuning) (tu_seed tuning) ltac:(lia)) as (nodes' & -> & Hok & Hsh & Hlen' & Hs).
  cbn [mbind option_bind]. unfold empty_metrics, experiment_fits, metrics_bound in *.
  rewrite (proj2 (try_from_Some USIZE_MAX _ (rs_contents s * lookups_per_content s))) by (split; [done|nia]). cbn [mbind option_bind].
  match goal with |- context [try_fold _ ?m _] => set (m0 := m) end.
  assert (ordinary_nodes s + sybil_nodes s = len nodes') as Hall by lia. rewrite Hall in Hfit |- *.
  destruct (try_fold_inv (fun c => sound_metrics po (len nodes') (replica_count tuning) (rs_contents s * lookups_per_content s) (rs_contents s)
      (c * lookups_per_content s) c c) (run_content s tuning po nodes') (seqZ 0 (rs_contents s)) 0 m0) as (m & -> & Hm).
  - pose proof (sum_bound (fun n => len (n_routing n)) 512 nodes' Hsh). pose proof (sum_nonneg (fun n => len (n_routing n)) nodes' ltac:(intros; apply len_nonneg)).
    split; unfold m0; metric_fields; try done; lia.
  - intros content c m _ Hm. replace ((c + 1) * lookups_per_content s) with (c * lookups_per_content s + lookups_per_content s) by lia.
    apply run_content_ok; try done; [apply Hs; by exists i|lia].
  - cbn [mbind option_bind]. assert (0 + len (seqZ 0 (rs_contents s)) = rs_contents s) as He by (unfold len; rewrite length_seqZ; lia).
    rewrite He in Hm. assert (0 < len nodes') as Hpos by lia. pose proof (sound_bounded _ _ _ _ _ _ Hpos Hl Hcs Hp Hm) as Hb. exists m.
    rewrite (bounded_fit _ _ Hb) by (unfold metrics_bound; lia). by split_and!.
Qed.

(** The first content needs an honest live provider. *)
Lemma simulate_needs s candidate tuning r :
  scenario_usable s tuning = true -> 0 <= routing_contamination_percent tuning -> simulate_with_tuning s candidate tuning = Some r ->
  exists nodes i, topology s candidate tuning = Some nodes /\ sound_node nodes i.
Proof.
  intros Hu Hc Hx. destruct (tuning_bounds s tuning Hu) as (_ & Hcs & _ & _ & Hc' & _). unfold simulate_with_tuning in Hx. rewrite Hu in Hx. cbn [negb] in Hx.
  apply bind_Some in Hx as (nodes & Hn & Hx). exists nodes.
  destruct (tables_ok nodes (routing_contamination_percent tuning) (tu_seed tuning) ltac:(lia)) as (nodes' & Hn' & _ & _ & _ & Hs).
  rewrite Hn' in Hx. cbn [mbind option_bind] in Hx. apply bind_Some in Hx as (m0 & _ & Hx). apply bind_Some in Hx as (m & Hx & _).
  rewrite (seqZ_cons 0) in Hx by done. cbn [try_fold] in Hx. apply bind_Some in Hx as (m1 & Hx & _). unfold run_content in Hx.
  apply bind_Some in Hx as (replicas & _ & Hx). apply bind_Some in Hx as (provider & Hx & _).
  assert (exists i, sound_node nodes i) as [i Hi]; [|by exists i]. apply Hs. exists provider. unfold select_node in Hx.
  destruct (_ =? 0); [done|]. apply find_some in Hx as [_ Hx]. unfold usable in Hx. destruct (get nodes' provider) as [n|] eqn:E; [|done].
  exists n. split; [done|]. by destruct (n_failed n), (n_malicious n).
Qed.

(** C39: an experiment whose scenario passes the assertions and whose sums fit [usize] ends
    with a result exactly when the nodes it builds exist (every Sybil group fits 16 bits)
    and one of them is honest and live, for every hash function and every order a sort may
    choose; that is so in particular when the malicious and the failed nodes are together
    fewer than all and there are at most 65280 Sybil groups.  The result covers every
    planned lookup of every content; a lookup counts as a success or as eclipsed, never as
    both; a single node that links both sides is also counted as a collusion; at most the
    chosen number of replicas is stored per content; observers and messages are at most
    what the nodes and the paths allow; and what the policy hides is never observed: no raw
    identifiers under derived keys, no requester behind a gateway, and no provider behind
    an indirect record. *)
Theorem simulate_sound (s : ResearchScenario) (candidate : DiscoveryCandidate) (tuning : ResearchTuning) :
  scenario_usable s tuning = true -> 0 <= sybil_nodes s -> 0 <= routing_contamination_percent tuning ->
  experiment_fits s (tuned_policy candidate tuning) ->
  (is_Some (simulate_with_tuning s candidate tuning)
     <-> exists nodes i, topology s candidate tuning = Some nodes /\ sound_node nodes i)
  /\ (percents_ok s -> is_Some (simulate_with_tuning s candidate tuning))
  /\ (forall r, simulate_with_tuning s candidate tuning = Some r ->
       exists m, r = mkResult s candidate m /\ complete_metrics s candidate tuning m).
Proof.
  intros Hu Hsy Hc Hfit.
  assert ((exists nodes i, topology s candidate tuning = Some nodes /\ sound_node nodes i) -> exists m,
    simulate_with_tuning s candidate tuning = Some (mkResult s candidate m) /\ complete_metrics s candidate tuning m) as Hex.
  { intros (nodes & i & Hn & Hi). destruct (simulate_ok s candidate tuning nodes i) as (m & Hm & Hs & _); eauto. }
  split_and!.
  - split; [intros [r Hr]; by eapply simulate_needs|]. intros (m & -> & _)%Hex. done.
  - intros Hp. destruct (build_nodes_ok s (lookup_key 0 (bool_decide (po_key (tuned_policy candidate tuning) = CapabilityDerived)) (tu_seed tuning))
      (tu_seed tuning) Hp) as (nodes & Hn & _ & i & Hi). destruct Hex as (m & -> & _); [|done]. by exists nodes, i.
  - intros r Hr. destruct (Hex (simulate_needs s candidate tuning r Hu Hc Hr)) as (m & Hm & Hs). exists m. split; [congruence|done].
Qed.

(** ** Reports *)

(** A scenario small enough for its sums to stay below a million. *)
Definition small_experiment (s : ResearchScenario) (tuning : ResearchTuning) : Prop :=
  scenario_usable s tuning = true /\ percents_ok s /\ 0 <= sybil_nodes s /\ 0 <= routing_contamination_percent tuning
  /\ forall candidate, metrics_bound (tuned_policy candidate tuning) (ordinary_nodes s + sybil_nodes s)
       (rs_contents s * lookups_per_content s) <= 1000000.

Lemma simulate_total s candidate tuning : small_experiment s tuning ->
  exists m, simulate_with_tuning s candidate tuning = Some (mkResult s candidate m) /\ bounded_metrics 1000000 m
    /\ 0 <= successes m <= lookups m /\ 0 <= eclipsed_lookups m <= lookups m.
Proof.
  intros (Hu & Hp & Hsy & Hc & Hb). specialize (Hb candidate).
  destruct (build_nodes_ok s (lookup_key 0 (bool_decide (po_key (tuned_policy candidate tuning) = CapabilityDerived)) (tu_seed tuning))
    (tu_seed tuning) Hp) as (nodes & Hn & _ & i & Hi).
  destruct (simulate_ok s candidate tuning nodes i Hu Hsy Hc) as (m & -> & [(M1 & _) _ _ _ M2 _ _ _ _ _ _ _] & Hm); [|done|done|].
  { unfold experiment_fits, USIZE_MAX, U64_MAX. lia. }
  exists m. split; [done|]. split; [|lia]. unfold bounded_metrics in *. eapply Forall_impl; [exact Hm|]. cbn. lia.
Qed.

(** The parameters of the twelve trials are usable. *)
Lemma trials_usable trial : 0 <= trial < 12 ->
  exists s tuning, trial_scenario trial = Some s /\ trial_tuning trial = Some tuning
    /\ small_experiment s tuning.
Proof.
  intros Ht. assert (trial ∈ seqZ 0 12) as Hin by (apply elem_of_seqZ; lia). clear Ht. revert Hin. change (seqZ 0 12) with [0;1;2;3;4;5;6;7;8;9;10;11].
  rewrite !elem_of_cons, elem_of_nil. intros Hin. decompose [or] Hin; subst; try done; do 2 eexists;
    (split; [reflexivity|]; split; [reflexivity|]; split; [reflexivity|]; unfold percents_ok; cbn; split_and!; try lia; intros []; vm_compute; intros [=]).
Qed.

Lemma permille_range part total : 0 <= part <= total -> 0 <= permille part total <= 1000.
Proof.
  intros Hp. unfold permille, sat_mul. split; [apply Z.div_pos; [unfold USIZE_MAX, U64_MAX|]; lia|].
  apply Z.div_le_upper_bound; lia.
Qed.

Lemma trials_ok candidate n : 0 <= n <= 12 ->
  exists success eclipse totals, try_fold (run_trial candidate) ([], [], zero_metrics) (seqZ 0 n) = Some (success, eclipse, totals)
    /\ metrics_fit totals = true
    /\ len success = n /\ len eclipse = n /\ Forall (fun v => 0 <= v <= 1000) success /\ Forall (fun v => 0 <= v <= 1000) eclipse.
Proof.
  intros Hn. destruct (try_fold_inv (fun k '(success, eclipse, totals) => bounded_metrics (1000000 * k) totals /\ len success = k /\ len eclipse = k
      /\ Forall (fun v => 0 <= v <= 1000) success /\ Forall (fun v => 0 <= v <= 1000) eclipse)
    (run_trial candidate) (seqZ 0 n) 0 ([], [], zero_metrics)) as ([[success eclipse] totals] & -> & Hb & Hs).
  - split_and!; [unfold bounded_metrics; by repeat constructor|done|done|constructor|constructor].
  - intros trial k [[success eclipse] totals] Ht%elem_of_seqZ (Hb & L1 & L2 & F1 & F2). unfold run_trial.
    destruct (trials_usable trial ltac:(lia)) as (s & tuning & -> & -> & Hsm). cbn [mbind option_bind].
    destruct (simulate_total s candidate tuning Hsm) as (m & -> & Hbm & Hm & He). cbn [mbind option_bind rr_metrics].
    eexists. split; [reflexivity|]. cbv beta iota. rewrite !len_app. split_and!; [by rewrite Z.mul_add_distr_l; apply bounded_accumulate|by rewrite L1|by rewrite L2| |].
    + apply Forall_app. split; [done|]. constructor; [by apply permille_range|constructor].
    + apply Forall_app. split; [done|]. constructor; [by apply permille_range|constructor].
  - assert (0 + len (seqZ 0 n) = n) as He by (unfold len; rewrite length_seqZ; lia). rewrite He in Hs, Hb.
    exists success, eclipse, totals. split; [done|]. split; [|done]. apply (bounded_fit _ _ Hb). unfold USIZE_MAX, U64_MAX. lia.
Qed.

(** Rates in order: the first is the least, the last the greatest. *)
Lemma sorted_rates rates i : Forall (fun v => 0 <= v <= 1000) rates -> 0 <= i < len rates ->
  exists v, get (merge_sort Z.le rates) i = Some v /\ 0 <= v <= 1000
    /\ forall j w, i <= j -> get (merge_sort Z.le rates) j = Some w -> v <= w.
Proof.
  intros Hf Hi. pose proof (merge_sort_Permutation Z.le rates) as Hp. pose proof (Sorted_merge_sort Z.le rates) as Hs.
  apply Sorted_StronglySorted in Hs; [|intros x y z; lia]. set (l := merge_sort Z.le rates) in *.
  assert (len l = len rates) as Hl by (unfold len; by rewrite Hp). destruct (proj2 (get_is_Some l i)) as [v Hv]; [lia|]. exists v. split; [done|]. split.
  - rewrite Forall_forall in Hf. apply Hf. rewrite <- Hp. by eapply get_elem.
  - intros j w Hij Hw. apply get_lookup in Hv, Hw. destruct (decide (i = j)) as [->|]; [rewrite Hv in Hw; injection Hw as ->; lia|].
    apply (sorted_take_drop Z.le (S (Z.to_nat i)) l v w Hs); [apply elem_of_take; exists (Z.to_nat i); split; [done|lia]|].
    apply list_elem_of_lookup. exists (Z.to_nat j - S (Z.to_nat i))%nat. rewrite lookup_drop. by replace (_ + _)%nat with (Z.to_nat j) by lia.
Qed.

Lemma summarize_ok candidate n : 0 < n <= 12 ->
  exists r, summarize_trials candidate n = Some r /\ mc_candidate r = candidate /\ mc_trials r = n
    /\ 0 <= success_min_permille r <= success_median_permille r
    /\ success_median_permille r <= success_max_permille r <= 1000 /\ 0 <= eclipse_median_permille r <= 1000.
Proof.
  intros Hn. unfold summarize_trials. destruct (trials_ok candidate n ltac:(lia)) as (su & ec & totals & -> & Hfit & L1 & L2 & F1 & F2).
  cbn [mbind option_bind]. rewrite Hfit. cbn [negb]. assert (0 <= n / 2 < n) as Hh by (split; [apply Z.div_pos|apply Z.div_lt]; lia).
  destruct (sorted_rates su 0 F1 ltac:(lia)) as (a & -> & Ha & Ha'). cbn [mbind option_bind].
  destruct (sorted_rates su (n / 2) F1 ltac:(lia)) as (b & Hb & Hb1 & Hb2). rewrite Hb. cbn [mbind option_bind].
  destruct (sorted_rates su (n - 1) F1 ltac:(lia)) as (c & Hc & Hc1 & _). rewrite Hc. cbn [mbind option_bind].
  destruct (sorted_rates ec (n / 2) F2 ltac:(lia)) as (d & -> & Hd & _). cbn [mbind option_bind].
  eexists. split; [reflexivity|]. cbn [mc_candidate mc_trials success_min_permille success_median_permille success_max_permille eclipse_median_permille].
  pose proof (Ha' (n / 2) b ltac:(lia) Hb). pose proof (Hb2 (n - 1) c ltac:(lia) Hc). split_and!; try done; lia.
Qed.

(** A summary of twelve trials with its rates in order. *)
Definition ordered_summary (candidate : DiscoveryCandidate) (r : MonteCarloSummary) : Prop :=
  mc_candidate r = candidate /\ mc_trials r = 12
  /\ 0 <= success_min_permille r <= success_median_permille r
  /\ success_median_permille r <= success_max_permille r <= 1000 /\ 0 <= eclipse_median_permille r <= 1000.

(** Both fixed experiments end with a complete report, whatever the hash function and
    the order a sort may choose.  The default suite gives the results of the four scenarios
    under the four policies, in that order, none with more successes than lookups; the seeded
    trials give one summary per policy, of twelve trials, whose least, median and greatest
    rates of success are in order and at most a thousand per mille. *)
Theorem experiments_complete :
  (exists results, run_default_research_suite = Some results
     /\ Forall2 (fun '(s, c) r => rr_scenario r = s /\ rr_candidate r = c /\ 0 <= successes (rr_metrics r) <= lookups (rr_metrics r))
          (flat_map (fun s => map (pair s) all_candidates) DEFAULT_SCENARIOS) results)
  /\ exists summaries, run_m8_monte_carlo = Some summaries /\ Forall2 ordered_summary all_candidates summaries.
Proof.
  split.
  - apply mapM_total. intros [s c] Hin. apply list_elem_of_In, in_flat_map in Hin as (s' & Hs & Hc).
    apply in_map_iff in Hc as (c' & He & _). injection He as -> ->.
    assert (small_experiment s default_tuning) as Hsm.
    { cbn [DEFAULT_SCENARIOS In] in Hs. destruct Hs as [<-|[<-|[<-|[<-|[]]]]];
        (split; [reflexivity|]; unfold percents_ok; cbn; split_and!; try lia; intros []; vm_compute; intros [=]). }
    destruct (simulate_total s c default_tuning Hsm) as (m & Hm & _ & Hb & _). exists (mkResult s c m). split; [exact Hm|]. cbn [rr_scenario rr_candidate rr_metrics]. split; [done|]. split; [done|exact Hb].
  - apply mapM_total. intros c _. destruct (summarize_ok c 12 ltac:(lia)) as (r & Hr & Hb). by exists r.
Qed.
End Experiment.

(** ** Witnesses *)
Import Toy ToySort.

Definition small_scenario : ResearchScenario := mkScenario (str "small") 12 10 2 1 10 2 2.

(** Malicious and failed nodes may be all that there are: here every ordinary node is. *)
Definition hopeless_scenario : ResearchScenario := mkScenario (str "hopeless") 12 100 2 1 0 2 2.

Lemma simulate_sound_witness :
  (exists m, simulate_with_tuning small_scenario SeparatedMultiStage default_tuning
              = Some (mkResult small_scenario SeparatedMultiStage m)
    /\ sound_metrics (tuned_policy SeparatedMultiStage default_tuning) 14 8 4 2 4 2 2 m)
  /\ simulate_with_tuning hopeless_scenario SeparatedMultiStage default_tuning = None.
Proof.
  split.
  - destruct (simulate_sound small_scenario SeparatedMultiStage default_tuning) as (_ & Hp & Hm);
      [reflexivity|done|done|vm_compute; intros [=]|].
    destruct Hp as [r Hr]; [unfold percents_ok; cbn; lia|]. destruct (Hm r Hr) as (m & -> & Hs). exists m. split; [exact Hr|exact Hs].
  - destruct (simulate_sound hopeless_scenario SeparatedMultiStage default_tuning) as (Hx & _);
      [reflexivity|done|done|vm_compute; intros [=]|].
    destruct (simulate_with_tuning hopeless_scenario SeparatedMultiStage default_tuning) as [r|]; [|done].
    destruct Hx as [(nodes & i & Hn & Hi) _]; [done|]. exfalso. revert Hi.
    assert (option_map (forallb n_malicious) (topology hopeless_scenario SeparatedMultiStage default_tuning) = Some true) as Hall
      by (vm_compute; reflexivity).
    rewrite Hn in Hall. injection Hall as Hall.
    intros (n & Hg%get_elem & Hmal & _). apply list_elem_of_In in Hg. rewrite forallb_forall in Hall. rewrite (Hall n Hg) in Hmal. done.
Defined.

(** Three honest nodes that know each other. *)
Definition small_nodes : list Node :=
  [mkNode 1 0 false false false [1; 2]; mkNode 2 0 false false false [0; 2]; mkNode 4 1 false false false [0; 1]].

Lemma lookup_sound_witness :
  exists t, route_lookup small_nodes 0 4 {[2]} true = Some t
    /\ lt_observers t = {[0]} ∪ lt_queried t /\ all_valid small_nodes (lt_queried t)
    /\ lt_rounds t <= 64 /\ set_len (lt_queried t) <= 3 * lt_rounds t
    /\ (lt_success t = true -> found small_nodes {[2]} t)
    /\ (true = true -> forall i j, i ∈ lt_queried t -> j ∈ lt_queried t -> group_of small_nodes i = group_of small_nodes j -> i = j).
Proof.
  apply (lookup_sound small_nodes 0 4 {[2]} true).
  - unfold nodes_ok, valid, small_nodes. repeat constructor; done.
  - by unfold valid, small_nodes.
Defined.

(** Prefix diversity keeps one of two nodes of a group. *)
Lemma replicas_nearest_witness :
  exists replicas, select_replicas small_nodes 1 true 3 = Some replicas
    /\ all_valid small_nodes replicas /\ set_len replicas <= Z.max 0 3
    /\ (true = true -> forall i j, i ∈ replicas -> j ∈ replicas -> group_of small_nodes i = group_of small_nodes j -> i = j)
    /\ forall j, valid small_nodes j -> j ∉ replicas ->
         (set_len replicas = Z.max 0 3
          /\ forall i, i ∈ replicas -> distance_to small_nodes 1 i <= distance_to small_nodes 1 j)
         \/ (true = true /\ exists k, k ∈ replicas /\ group_of small_nodes k = group_of small_nodes j).
Proof. apply (replicas_nearest small_nodes 1 true 3). Defined.

Lemma experiments_complete_witness :
  (exists results, run_default_research_suite = Some results
     /\ Forall2 (fun '(s, c) r => rr_scenario r = s /\ rr_candidate r = c /\ 0 <= successes (rr_metrics r) <= lookups (rr_metrics r))
          (flat_map (fun s => map (pair s) all_candidates) DEFAULT_SCENARIOS) results)
  /\ exists summaries, run_m8_monte_carlo = Some summaries /\ Forall2 ordered_summary all_candidates summaries.
Proof. apply experiments_complete. Defined.
