(* ===== verification/Swarm.v ===== *)
(** * Swarm: chunk scheduling and rate limiting (crates/triptorrent-swarm)

    [Scheduler] holds the state of every chunk and every provider; [assign],
    [accept] and [reject] are its transitions.  A transition that takes
    [&mut self] returns the new state beside its result, also when it fails.
    Theorems: the invariant of the reachable states (one outstanding request per
    provider, and only for a chunk it offers), rarest-first assignment, exactness
    of [accept] and [reject], freedom from deadlock and a bound on the number of
    requests of a transfer; for [RateSchedule], that the bytes admitted never
    exceed the configured rate. *)
From stdpp Require Import base tactics list numbers option.
From Stdlib Require Import ZArith Lia.
From S2P Require Import Prelude Bytes Availability.
Import stdpp.list.

Local Open Scope Z_scope.

(** ** State *)

Inductive ChunkState :=
| Missing
| InFlight (provider : Z)
| ChunkComplete.

#[export] Instance ChunkState_eq_dec : EqDecision ChunkState.
Proof. solve_decision. Defined.

Record ProviderState := mkProviderState {
  availability : PieceAvailability;
  active : bool;
  busy : bool;
  accepted : Z;
  rejected : Z
}.

Record ProviderStats := mkProviderStats {
  stats_accepted : Z;
  stats_rejected : Z;
  stats_active : bool
}.

Record Scheduler := mkScheduler {
  s_chunks : list ChunkState;
  s_providers : list ProviderState;
  s_retries : Z
}.

Inductive ScheduleError :=
| InvalidCompletedLength
| InvalidAvailability
| TooManyChunks
| UnknownProvider
| UnexpectedChunk.

(** [u32::try_from(index).unwrap_or(u32::MAX)] *)
Definition index_u32 (index : Z) : Z := default U32_MAX (try_from U32_MAX index).

(** ** Operations *)

Definition Scheduler_new (chunk_count : Z) (availability : list PieceAvailability)
  (completed : list bool) : result ScheduleError Scheduler :=
  if negb (len completed =? chunk_count) then Err InvalidCompletedLength
  else
    expected ← ok_or (try_from U32_MAX chunk_count) TooManyChunks;
    if any (fun pieces => negb (Availability.chunk_count pieces =? expected) || negb (is_valid pieces))
         availability
    then Err InvalidAvailability
    else
      Ok (mkScheduler
            (map (fun done : bool => if done then ChunkComplete else Missing) completed)
            (map (fun pieces => mkProviderState pieces true false 0 0) availability)
            0).

Definition source_count (s : Scheduler) (index : Z) : Z :=
  count (fun p => active p && contains (availability p) (index_u32 index)) (s_providers s).

(** [Ord] of a pair, and [Iterator::min] *)
Definition pair_leb (a b : Z * Z) : bool :=
  (a.1 <? b.1) || ((a.1 =? b.1) && (a.2 <=? b.2)).
Fixpoint min_pair (l : list (Z * Z)) : option (Z * Z) :=
  match l with
  | [] => None
  | x :: l => match min_pair l with
              | None => Some x
              | Some y => Some (if pair_leb x y then x else y)
              end
  end.

(** The filtered and mapped candidates of [assign]. *)
Definition candidates (s : Scheduler) (pieces : PieceAvailability) : list (Z * Z) :=
  map (fun c : Z * ChunkState => (source_count s c.1, c.1))
    (List.filter (fun c : Z * ChunkState =>
         bool_decide (c.2 = Missing) && contains pieces (index_u32 c.1))
       (enumerate (s_chunks s))).

Definition set_busy (b : bool) (p : ProviderState) : ProviderState :=
  mkProviderState (availability p) (active p) b (accepted p) (rejected p).

Definition assign (s : Scheduler) (provider : Z) : Scheduler * option Z :=
  match get (s_providers s) provider with
  | None => (s, None)
  | Some state =>
      if negb (active state) || busy state then (s, None)
      else
        match min_pair (candidates s (availability state)) with
        | None => (s, None)
        | Some choice =>
            (mkScheduler (set_at (s_chunks s) choice.2 (InFlight provider))
               (set_at (s_providers s) provider (set_busy true state)) (s_retries s),
             try_from U32_MAX choice.2)
        end
  end.

(** The [accepted] counter is bounded by the number of chunks ([accept] completes
    one), so [+= 1] does not overflow. *)
Definition accept (s : Scheduler) (provider index : Z) : Scheduler * result ScheduleError unit :=
  match try_from USIZE_MAX index with
  | None => (s, Err UnexpectedChunk)
  | Some index =>
      if negb (bool_decide (get (s_chunks s) index = Some (InFlight provider)))
      then (s, Err UnexpectedChunk)
      else
        let chunks := set_at (s_chunks s) index ChunkComplete in
        match get (s_providers s) provider with
        | None => (mkScheduler chunks (s_providers s) (s_retries s), Err UnknownProvider)
        | Some state =>
            (mkScheduler chunks
               (set_at (s_providers s) provider
                  (mkProviderState (availability state) (active state) false (accepted state + 1)
                     (rejected state)))
               (s_retries s),
             Ok tt)
        end
  end.

(** The loop of [reject]: release the provider's chunks and count them. *)
Fixpoint release (provider : Z) (chunks : list ChunkState) (retries : Z) : list ChunkState * Z :=
  match chunks with
  | [] => ([], retries)
  | chunk :: chunks =>
      if bool_decide (chunk = InFlight provider) then
        let '(chunks, retries) := release provider chunks (retries + 1) in (Missing :: chunks, retries)
      else
        let '(chunks, retries) := release provider chunks retries in (chunk :: chunks, retries)
  end.

Definition reject (s : Scheduler) (provider : Z) : Scheduler :=
  let '(chunks, retries) := release provider (s_chunks s) (s_retries s) in
  mkScheduler chunks
    (match get (s_providers s) provider with
     | Some state =>
         set_at (s_providers s) provider
           (mkProviderState (availability state) false false (accepted state) (rejected state + 1))
     | None => s_providers s
     end)
    retries.

Definition is_complete (s : Scheduler) : bool :=
  all (fun chunk => bool_decide (chunk = ChunkComplete)) (s_chunks s).

Definition is_in_flight (chunk : ChunkState) : bool :=
  match chunk with InFlight _ => true | _ => false end.

Definition has_in_flight (s : Scheduler) : bool := any is_in_flight (s_chunks s).

Definition can_finish (s : Scheduler) : bool :=
  all (fun c : Z * ChunkState => negb (bool_decide (c.2 = Missing)) || (source_count s c.1 >? 0))
    (enumerate (s_chunks s)).

Definition provider_stats (s : Scheduler) (provider : Z) : option ProviderStats :=
  (fun state => mkProviderStats (accepted state) (rejected state) (active state))
    <$> get (s_providers s) provider.

Definition retries (s : Scheduler) : Z := s_retries s.

(** ** Rate schedule *)

Record RateSchedule := mkRateSchedule {
  bytes_per_second : Z;
  next_available_ns : Z
}.

Definition RateSchedule_new (bytes_per_second : Z) : RateSchedule :=
  mkRateSchedule bytes_per_second 0.

(** [Duration] is a number of nanoseconds; [Duration::from_nanos] takes a [u64]. *)
Definition duration_from_nanos (nanos : Z) : Z := default U64_MAX (try_from U64_MAX nanos).

Definition reserve (r : RateSchedule) (now bytes : Z) : RateSchedule * Z :=
  if (bytes_per_second r =? 0) || (bytes =? 0) then (r, 0)
  else
    let start := Z.max (next_available_ns r) now in
    let service_ns := div_ceil (sat_mul U128_MAX bytes 1000000000) (bytes_per_second r) in
    (mkRateSchedule (bytes_per_second r) (sat_add U128_MAX start service_ns),
     duration_from_nanos (sat_sub start now)).

(** ** Facts about the operations *)

Lemma index_u32_small i : 0 <= i <= U32_MAX -> index_u32 i = i.
Proof. intros Hi. unfold index_u32. by rewrite (proj2 (try_from_Some _ _ i)). Qed.

Lemma pair_leb_total a b : pair_leb a b = false -> pair_leb b a = true.
Proof.
  unfold pair_leb. destruct (Z.ltb_spec a.1 b.1), (Z.ltb_spec b.1 a.1), (Z.eqb_spec a.1 b.1),
    (Z.eqb_spec b.1 a.1), (Z.leb_spec a.2 b.2), (Z.leb_spec b.2 a.2); simpl; naive_solver lia.
Qed.

Lemma pair_leb_trans a b c : pair_leb a b = true -> pair_leb b c = true -> pair_leb a c = true.
Proof.
  unfold pair_leb. intros H1 H2. apply orb_true_iff in H1, H2. apply orb_true_iff.
  rewrite !andb_true_iff, !Z.eqb_eq, !Z.ltb_lt, !Z.leb_le in *. lia.
Qed.

Lemma min_pair_spec l m :
  min_pair l = Some m -> m ∈ l /\ Forall (fun x => pair_leb m x = true) l.
Proof.
  assert (forall a, pair_leb a a = true) as Hrefl
    by (intros a; unfold pair_leb; rewrite Z.eqb_refl, Z.leb_refl; by rewrite orb_true_r).
  revert m. induction l as [|x l IH]; intros m; simpl; [done|].
  destruct (min_pair l) as [y|] eqn:E.
  - destruct (IH y eq_refl) as [Hin Hall]. destruct (pair_leb x y) eqn:Exy; intros [= <-].
    + split; [left|]. constructor; [done|].
      eapply Forall_impl; [exact Hall|]. intros z Hz. by eapply pair_leb_trans.
    + split; [by right|]. constructor; [by apply pair_leb_total|done].
  - intros [= <-]. split; [left|]. constructor; [done|].
    destruct l as [|y l]; [constructor|]. simpl in E. by destruct (min_pair l).
Qed.

Lemma min_pair_None l : min_pair l = None <-> l = [].
Proof. destruct l as [|x l]; simpl; [done|]. by destruct (min_pair l). Qed.

(** The candidates are the missing chunks the provider offers. *)
Lemma candidates_elem s pieces n i :
  (n, i) ∈ candidates s pieces <->
  get (s_chunks s) i = Some Missing /\ contains pieces (index_u32 i) = true /\ n = source_count s i.
Proof.
  unfold candidates. rewrite list_elem_of_In, in_map_iff. setoid_rewrite filter_In. split.
  - intros ([j c] & [= <- <-] & Hin & Hf). simpl in *. to_prop. subst c.
    apply list_elem_of_In, get_enumerate in Hin as [Hg _]. done.
  - intros (Hg & Hc & ->). exists (i, Missing). split; [done|].
    split; [by apply list_elem_of_In, elem_enumerate|]. simpl. by rewrite Hc.
Qed.

Definition held_by (provider : Z) (chunk : ChunkState) : bool := bool_decide (chunk = InFlight provider).
Definition is_done (chunk : ChunkState) : bool :=
  match chunk with ChunkComplete => true | _ => false end.

Lemma held_by_true p c : held_by p c = true <-> c = InFlight p.
Proof. apply bool_decide_eq_true. Qed.

Lemma held_by_false p c : c <> InFlight p -> held_by p c = false.
Proof. apply bool_decide_eq_false_2. Qed.

Lemma release_spec provider chunks r :
  release provider chunks r
  = (map (fun c => if held_by provider c then Missing else c) chunks,
     r + count (held_by provider) chunks).
Proof.
  revert r. induction chunks as [|c chunks IH]; intros r; simpl; [by rewrite Z.add_0_r|].
  rewrite count_cons. unfold held_by at 1 3. destruct (bool_decide (c = InFlight provider));
    rewrite IH; simpl; f_equal; lia.
Qed.

Lemma reject_chunks s p :
  s_chunks (reject s p) = map (fun c => if held_by p c then Missing else c) (s_chunks s).
Proof. unfold reject. by rewrite release_spec. Qed.

Lemma reject_retries s p : s_retries (reject s p) = s_retries s + count (held_by p) (s_chunks s).
Proof. unfold reject. by rewrite release_spec. Qed.

Lemma get_map {A B} (f : A -> B) l i : get (map f l) i = f <$> get l i.
Proof. unfold get. destruct (0 <=? i); [|done]. apply list_lookup_fmap. Qed.

(** ** The invariant *)

(** [base] chunks were complete at the start. *)
Record sched_inv (base : Z) (s : Scheduler) : Prop := {
  inv_len : len (s_chunks s) <= U32_MAX;
  (** every bitfield is valid and has one bit per chunk *)
  inv_availability : Forall (fun p => chunk_count (availability p) = len (s_chunks s)
                                      /\ is_valid (availability p) = true) (s_providers s);
  (** a busy provider holds exactly one chunk, an idle or unknown one none *)
  inv_held : forall p, count (held_by p) (s_chunks s)
               = match get (s_providers s) p with
                 | Some st => if busy st then 1 else 0
                 | None => 0
                 end;
  (** a chunk is requested only from an active provider that offers it *)
  inv_offered : forall i p, get (s_chunks s) i = Some (InFlight p) ->
    exists st, get (s_providers s) p = Some st /\ busy st = true /\ active st = true
               /\ contains (availability st) i = true;
  (** the chunks completed since the start are the accepted responses *)
  inv_accepted : base + sum accepted (s_providers s) = count is_done (s_chunks s);
  inv_accepted_pos : Forall (fun p => 0 <= accepted p) (s_providers s);
  (** a request is retried only once per excluded provider *)
  inv_retries : 0 <= s_retries s <= count (fun p => negb (active p)) (s_providers s)
}.

Lemma busy_active base s p st :
  sched_inv base s -> get (s_providers s) p = Some st -> busy st = true -> active st = true.
Proof.
  intros Hinv Hp Hb. pose proof (inv_held _ _ Hinv p) as Hh. rewrite Hp, Hb in Hh.
  assert (0 < count (held_by p) (s_chunks s)) as Hpos by lia.
  apply count_pos, Exists_exists in Hpos as (c & Hin & Hc). unfold held_by in Hc. to_prop. subst c.
  apply elem_get in Hin as [i Hi]. destruct (inv_offered _ _ Hinv i p Hi) as (st' & Hst & _ & Ha & _).
  congruence.
Qed.

Lemma new_inv n av done s :
  Scheduler_new n av done = Ok s -> sched_inv (count (fun d => d) done) s.
Proof.
  unfold Scheduler_new. destruct (Z.eqb_spec (len done) n) as [<-|]; simpl; [|done].
  intros Hs. invert_ok. apply try_from_Some in Ha as [<- Hn].
  destruct (any _ av) eqn:Eany; [done|]. invert_ok.
  assert (forall p, get (map (fun pieces => mkProviderState pieces true false 0 0) av) p <> None ->
    exists a, get (map (fun pieces => mkProviderState pieces true false 0 0) av) p
              = Some (mkProviderState a true false 0 0)) as Hget.
  { intros p. rewrite get_map. destruct (get av p); simpl; [eauto|done]. }
  assert (forall p, count (held_by p) (map (fun d : bool => if d then ChunkComplete else Missing) done) = 0)
    as Hno. { intros p. clear. induction done as [|[] l IH]; simpl; [done|..]; by rewrite count_cons, IH. }
  split; simpl.
  - rewrite len_map. lia.
  - rewrite len_map. apply Forall_map. apply Forall_forall. intros a Ha. simpl.
    destruct (decide (chunk_count a = len done /\ is_valid a = true)) as [|Hno']; [done|exfalso].
    apply eq_true_false_abs with (2 := Eany). apply any_true, Exists_exists.
    exists a. split; [done|]. destruct (Z.eqb_spec (chunk_count a) (len done)), (is_valid a); naive_solver.
  - intros p. rewrite Hno. rewrite get_map. by destruct (get av p).
  - intros i p. rewrite get_map. by destruct (get done i) as [[]|].
  - replace (sum accepted _) with 0 by (clear; induction av; simpl; [done|]; unfold sum in *; simpl; lia).
    clear. induction done as [|[] l IH]; simpl; [done|..]; rewrite !count_cons; simpl; lia.
  - apply Forall_map. by apply Forall_true.
  - replace (count _ _) with 0; [lia|]. clear. induction av; simpl; [done|]. by rewrite count_cons, <- IHav.
Qed.

(** What [assign] returns and does. *)
Lemma assign_Some base s p s' r :
  sched_inv base s -> assign s p = (s', r) ->
  (s' = s /\ r = None)
  \/ exists st i, get (s_providers s) p = Some st /\ active st = true /\ busy st = false
     /\ get (s_chunks s) i = Some Missing /\ contains (availability st) i = true
     /\ (forall j, get (s_chunks s) j = Some Missing -> contains (availability st) j = true ->
           pair_leb (source_count s i, i) (source_count s j, j) = true)
     /\ r = Some i
     /\ s' = mkScheduler (set_at (s_chunks s) i (InFlight p))
               (set_at (s_providers s) p (set_busy true st)) (s_retries s).
Proof.
  intros Hinv. unfold assign. destruct (get (s_providers s) p) as [st|] eqn:Hp; [|naive_solver].
  destruct (active st) eqn:Ha, (busy st) eqn:Hb; simpl; try naive_solver.
  destruct (min_pair _) as [[n i]|] eqn:Hmin; [|naive_solver]. simpl. intros [= <- <-]. right.
  apply min_pair_spec in Hmin as [Hin Hall]. apply candidates_elem in Hin as (Hi & Hc & ->).
  pose proof (get_Some_range _ _ _ Hi) as Hr. pose proof (inv_len _ _ Hinv) as Hlen.
  rewrite index_u32_small in Hc by lia. exists st, i. split_and!; try done.
  - intros j Hj Hcj. rewrite Forall_forall in Hall. apply Hall, candidates_elem.
    pose proof (get_Some_range _ _ _ Hj). by rewrite index_u32_small by lia.
  - apply try_from_Some. lia.
Qed.

Lemma assign_inv base s p : sched_inv base s -> sched_inv base (assign s p).1.
Proof.
  intros Hinv. destruct (assign s p) as [s' r] eqn:E. simpl.
  destruct (assign_Some _ _ _ _ _ Hinv E) as [[-> _]|(st & i & Hp & Ha & Hb & Hi & Hc & _ & _ & ->)];
    [done|]. destruct Hinv as [Hlen Hav Hheld Hoff Hacc Hpos Hret].
  split; simpl; autorewrite with len.
  - done.
  - apply Forall_set_at; [done|]. apply (proj1 (Forall_forall _ _) Hav st). by eapply get_elem.
  - intros q. rewrite (count_set_at _ _ _ _ _ Hi), (get_set_at _ _ _ _ _ Hp), Hheld. unfold held_by. simpl.
    destruct (Z.eqb_spec q p) as [->|Hne].
    + rewrite Hp, Hb, bool_decide_eq_true_2 by done. done.
    + rewrite (bool_decide_eq_false_2 (InFlight p = InFlight q)) by congruence. lia.
  - intros j q. rewrite (get_set_at _ _ _ _ _ Hi), (get_set_at _ _ _ _ _ Hp).
    destruct (Z.eqb_spec j i) as [->|Hne].
    + intros [= <-]. rewrite Z.eqb_refl. by exists (set_busy true st).
    + intros Hj. destruct (Hoff j q Hj) as (st' & Hst & Hb' & ? & ?).
      destruct (Z.eqb_spec q p) as [->|]; [congruence|]. by exists st'.
  - rewrite (sum_set_at _ _ _ _ _ Hp), (count_set_at _ _ _ _ _ Hi). simpl. lia.
  - apply Forall_set_at; [done|]. apply (proj1 (Forall_forall _ _) Hpos st). by eapply get_elem.
  - rewrite (count_set_at _ _ _ _ _ Hp). simpl. rewrite Ha. simpl. lia.
Qed.

(** [accept]: the outstanding request of the provider, or no effect at all. *)
Lemma accept_cases base s p i :
  sched_inv base s ->
  (get (s_chunks s) i = Some (InFlight p) /\ i <= U32_MAX
   /\ exists st, get (s_providers s) p = Some st /\ busy st = true
      /\ accept s p i
         = (mkScheduler (set_at (s_chunks s) i ChunkComplete)
              (set_at (s_providers s) p
                 (mkProviderState (availability st) (active st) false (accepted st + 1) (rejected st)))
              (s_retries s), Ok tt))
  \/ (get (s_chunks s) i <> Some (InFlight p) /\ accept s p i = (s, Err UnexpectedChunk)).
Proof.
  intros Hinv. unfold accept.
  destruct (decide (get (s_chunks s) i = Some (InFlight p))) as [Hi|Hi].
  - left. pose proof (get_Some_range _ _ _ Hi). pose proof (inv_len _ _ Hinv).
    rewrite (proj2 (try_from_Some _ _ i)) by (unfold U32_MAX, USIZE_MAX, U64_MAX in *; lia).
    rewrite bool_decide_eq_true_2 by done. simpl.
    destruct (inv_offered _ _ Hinv i p Hi) as (st & Hst & Hb & _). rewrite Hst.
    split_and!; [done|lia|]. by exists st.
  - right. split; [done|]. destruct (try_from USIZE_MAX i) eqn:E; [|done].
    apply try_from_Some in E as [<- _]. by rewrite bool_decide_eq_false_2.
Qed.

Lemma accept_inv base s p i : sched_inv base s -> sched_inv base (accept s p i).1.
Proof.
  intros Hinv. destruct (accept_cases _ _ p i Hinv) as [(Hi & _ & st & Hp & Hb & ->)|[_ ->]]; [|done].
  pose proof (busy_active _ _ _ _ Hinv Hp Hb) as Hact.
  destruct Hinv as [Hlen Hav Hheld Hoff Hacc Hpos Hret]. split; simpl; autorewrite with len.
  - done.
  - apply Forall_set_at; [done|]. apply (proj1 (Forall_forall _ _) Hav st). by eapply get_elem.
  - intros q. rewrite (count_set_at _ _ _ _ _ Hi), (get_set_at _ _ _ _ _ Hp), Hheld. unfold held_by. simpl.
    destruct (Z.eqb_spec q p) as [->|Hne].
    + rewrite Hp, Hb, bool_decide_eq_true_2 by done. done.
    + rewrite (bool_decide_eq_false_2 (InFlight p = InFlight q)) by congruence. simpl.
      lia.
  - intros j q. rewrite (get_set_at _ _ _ _ _ Hi), (get_set_at _ _ _ _ _ Hp).
    destruct (Z.eqb_spec j i) as [->|Hne]; [done|]. intros Hj.
    destruct (Z.eqb_spec q p) as [->|]; [exfalso|by apply Hoff].
    specialize (Hheld p). rewrite Hp, Hb in Hheld.
    assert (count (held_by p) (set_at (s_chunks s) i Missing) = 0) as H0.
    { rewrite (count_set_at _ _ _ _ _ Hi). unfold held_by at 2 3. simpl.
      rewrite bool_decide_eq_true_2 by done. rewrite Hheld. done. }
    assert (0 < count (held_by p) (set_at (s_chunks s) i Missing)); [|lia].
    apply count_pos, Exists_exists. exists (InFlight p). split; [|by apply bool_decide_eq_true_2].
    apply (get_elem _ j). rewrite (get_set_at _ _ _ _ _ Hi). by rewrite (proj2 (Z.eqb_neq j i)).
  - rewrite (sum_set_at _ _ _ _ _ Hp), (count_set_at _ _ _ _ _ Hi). simpl. lia.
  - apply Forall_set_at; [done|]. simpl.
    pose proof (proj1 (Forall_forall _ _) Hpos st (get_elem _ _ _ Hp)). simpl in *. lia.
  - rewrite (count_set_at _ _ _ _ _ Hp). simpl. rewrite Hact. simpl. lia.
Qed.

Lemma count_map_held p q l :
  count (held_by q) (map (fun c => if held_by p c then Missing else c) l)
  = if bool_decide (q = p) then 0 else count (held_by q) l.
Proof.
  induction l as [|c l IH]; [by destruct (bool_decide _)|].
  cbn [map]. rewrite !count_cons, IH. destruct (decide (c = InFlight p)) as [->|Hc].
  - rewrite (proj2 (held_by_true p _)) by done. rewrite (held_by_false q Missing) by done.
    destruct (bool_decide_reflect (q = p)) as [->|]; [done|].
    by rewrite (held_by_false q (InFlight p)) by congruence.
  - rewrite (held_by_false p c) by done. destruct (bool_decide_reflect (q = p)) as [->|]; [|done].
    by rewrite (held_by_false p c) by done.
Qed.

Lemma count_map_done p l :
  count is_done (map (fun c => if held_by p c then Missing else c) l) = count is_done l.
Proof.
  induction l as [|c l IH]; [done|]. cbn [map]. rewrite !count_cons, IH. unfold held_by.
  by destruct (bool_decide_reflect (c = InFlight p)) as [->|].
Qed.

(** [reject] of a known provider excludes it and counts the failure; of an unknown
    one changes nothing. *)
Lemma reject_cases base s p :
  sched_inv base s ->
  (exists st, get (s_providers s) p = Some st
   /\ reject s p = mkScheduler (map (fun c => if held_by p c then Missing else c) (s_chunks s))
        (set_at (s_providers s) p
           (mkProviderState (availability st) false false (accepted st) (rejected st + 1)))
        (s_retries s + if busy st then 1 else 0))
  \/ (get (s_providers s) p = None /\ reject s p = s).
Proof.
  intros Hinv. unfold reject. rewrite release_spec, (inv_held _ _ Hinv p).
  destruct (get (s_providers s) p) as [st|] eqn:Hp; [left; by exists st|right].
  split; [done|]. rewrite Z.add_0_r. destruct s as [cs ps r]; simpl in *. f_equal.
  assert (Forall (fun c => held_by p c = false) cs) as Hno.
  { apply Forall_forall. intros c Hin. destruct (held_by p c) eqn:E; [|done].
    assert (0 < count (held_by p) cs) by (apply count_pos, Exists_exists; eauto).
    pose proof (inv_held _ _ Hinv p) as Hh. simpl in Hh. rewrite Hp in Hh. lia. }
  clear - Hno. induction Hno as [|c l Hc _ IH]; simpl; [done|]. by rewrite Hc, IH.
Qed.

Lemma reject_inv base s p : sched_inv base s -> sched_inv base (reject s p).
Proof.
  intros Hinv. destruct (reject_cases _ _ p Hinv) as [(st & Hp & ->)|[_ ->]]; [|done].
  pose proof (busy_active _ _ _ _ Hinv Hp) as Hact.
  destruct Hinv as [Hlen Hav Hheld Hoff Hacc Hpos Hret]. split; simpl; rewrite ?len_map, ?len_set_at.
  - done.
  - apply Forall_set_at; [done|]. apply (proj1 (Forall_forall _ _) Hav st). by eapply get_elem.
  - intros q. rewrite count_map_held, (get_set_at _ _ _ _ _ Hp), Hheld.
    destruct (Z.eqb_spec q p) as [->|Hne]; [by rewrite bool_decide_eq_true_2|].
    by rewrite bool_decide_eq_false_2.
  - intros j q. rewrite get_map, (get_set_at _ _ _ _ _ Hp).
    destruct (get (s_chunks s) j) as [c|] eqn:Hj; simpl; [|done]. unfold held_by.
    destruct (bool_decide_reflect (c = InFlight p)); intros [= ->].
    destruct (Z.eqb_spec q p) as [->|]; [done|by apply Hoff].
  - rewrite count_map_done, (sum_set_at _ _ _ _ _ Hp). simpl. lia.
  - apply Forall_set_at; [done|]. apply (proj1 (Forall_forall _ _) Hpos st). by eapply get_elem.
  - rewrite (count_set_at _ _ _ _ _ Hp). simpl.
    destruct (busy st); [rewrite Hact by done; simpl; lia|]. destruct (active st); simpl; lia.
Qed.

(** ** Transfers: sequences of scheduler calls *)

(** A caller's use of the scheduler, in any order and with any arguments. *)
Inductive event :=
| DoAssign (provider : Z)
| DoAccept (provider index : Z)
| DoReject (provider : Z).

Definition apply_event (s : Scheduler) (e : event) : Scheduler :=
  match e with
  | DoAssign p => (assign s p).1
  | DoAccept p i => (accept s p i).1
  | DoReject p => reject s p
  end.

Definition run (s : Scheduler) (es : list event) : Scheduler := foldl apply_event s es.

(** Whether the call hands out a request. *)
Definition requests (s : Scheduler) (e : event) : Z :=
  match e with
  | DoAssign p => match (assign s p).2 with Some _ => 1 | None => 0 end
  | _ => 0
  end.

Fixpoint total_requests (s : Scheduler) (es : list event) : Z :=
  match es with
  | [] => 0
  | e :: es => requests s e + total_requests (apply_event s e) es
  end.

Lemma apply_event_inv base s e : sched_inv base s -> sched_inv base (apply_event s e).
Proof. destruct e; [apply assign_inv|apply accept_inv|apply reject_inv]. Qed.

Lemma run_inv base s es : sched_inv base s -> sched_inv base (run s es).
Proof. revert s. induction es; simpl; [done|]. intros. by apply IHes, apply_event_inv. Qed.

(** Every request is accepted, retried or outstanding. *)
Definition work (s : Scheduler) : Z :=
  sum accepted (s_providers s) + s_retries s + count is_in_flight (s_chunks s).

Lemma count_map_in_flight p l :
  count is_in_flight (map (fun c => if held_by p c then Missing else c) l)
  = count is_in_flight l - count (held_by p) l.
Proof.
  induction l as [|c l IH]; [done|]. cbn [map]. rewrite !count_cons, IH.
  destruct (decide (c = InFlight p)) as [->|Hc].
  - rewrite (proj2 (held_by_true p _)) by done. simpl. lia.
  - rewrite held_by_false by done. lia.
Qed.

Lemma apply_event_work base s e :
  sched_inv base s -> work (apply_event s e) = work s + requests s e.
Proof.
  intros Hinv. unfold work. destruct e as [p|p i|p]; simpl.
  - destruct (assign s p) as [s' r] eqn:E. simpl.
    destruct (assign_Some _ _ _ _ _ Hinv E) as [[-> ->]|(st & i & Hp & _ & _ & Hi & _ & _ & -> & ->)];
      [lia|]. simpl. rewrite (sum_set_at _ _ _ _ _ Hp), (count_set_at _ _ _ _ _ Hi). simpl. lia.
  - destruct (accept_cases _ _ p i Hinv) as [(Hi & _ & st & Hp & _ & ->)|[_ ->]]; simpl; [|lia].
    rewrite (sum_set_at _ _ _ _ _ Hp), (count_set_at _ _ _ _ _ Hi). simpl. lia.
  - pose proof (inv_held _ _ Hinv p) as Hh.
    destruct (reject_cases _ _ p Hinv) as [(st & Hp & ->)|[_ ->]]; simpl; [|lia].
    rewrite (sum_set_at _ _ _ _ _ Hp), count_map_in_flight, Hh, Hp. simpl. lia.
Qed.

Lemma run_work base s es :
  sched_inv base s -> work (run s es) = work s + total_requests s es.
Proof.
  revert s. induction es as [|e es IH]; intros s Hinv; simpl; [lia|].
  rewrite (IH _ (apply_event_inv _ _ e Hinv)), (apply_event_work _ _ e Hinv). lia.
Qed.

Lemma done_in_flight_le l : count is_done l + count is_in_flight l <= len l.
Proof. induction l as [|[] l IH]; [done|..]; rewrite !count_cons; simpl; len_lia. Qed.

Lemma new_work n av completed s :
  Scheduler_new n av completed = Ok s ->
  work s = 0 /\ len (s_chunks s) = n /\ len (s_providers s) = len av.
Proof.
  unfold Scheduler_new. destruct (Z.eqb_spec (len completed) n) as [<-|]; simpl; [|done].
  intros Hs. invert_ok. destruct (any _ av); [done|]. invert_ok. unfold work. simpl.
  rewrite !len_map. split_and!; [|done|done].
  replace (sum accepted _) with 0 by (clear; induction av; simpl; [done|]; unfold sum in *; simpl; lia).
  clear. induction completed as [|[] l IH]; simpl; [done|..]; by rewrite count_cons.
Qed.

Lemma apply_event_lens s e :
  len (s_chunks (apply_event s e)) = len (s_chunks s)
  /\ len (s_providers (apply_event s e)) = len (s_providers s).
Proof.
  destruct e as [p|p i|p]; simpl; unfold assign, accept, reject; rewrite ?release_spec;
    repeat case_match; simpl; autorewrite with len; done.
Qed.

Lemma run_lens s es :
  len (s_chunks (run s es)) = len (s_chunks s) /\ len (s_providers (run s es)) = len (s_providers s).
Proof.
  revert s. induction es as [|e es IH]; intros s; simpl; [done|].
  destruct (IH (apply_event s e)) as [-> ->]. apply apply_event_lens.
Qed.

(** ** Rate schedules: sequences of reservations *)

(** The largest [Duration], in nanoseconds. *)
Definition DURATION_MAX : Z := U64_MAX * 1000000000 + 999999999.

(** The waits returned for a sequence of calls [(now, bytes)]. *)
Fixpoint waits (r : RateSchedule) (calls : list (Z * Z)) : list Z :=
  match calls with
  | [] => []
  | (now, bytes) :: calls => let '(r, wait) := reserve r now bytes in wait :: waits r calls
  end.

(** When the caller of each reservation may send: its [now] plus its wait. *)
Definition send_times (r : RateSchedule) (calls : list (Z * Z)) : list Z :=
  zip_with (fun c w => c.1 + w) calls (waits r calls).

Definition call_ok (c : Z * Z) : Prop := 0 <= c.1 <= DURATION_MAX /\ 0 < c.2 <= U64_MAX.

Lemma reserve_spec r now bytes r' w (k : nat) :
  0 < bytes_per_second r -> call_ok (now, bytes) -> 0 <= next_available_ns r <= 2 * Z.of_nat k * DURATION_MAX ->
  Z.of_nat k < 2 ^ 32 -> reserve r now bytes = (r', w) -> w < U64_MAX ->
  bytes_per_second r' = bytes_per_second r
  /\ next_available_ns r <= now + w
  /\ bytes_per_second r * (now + w) + bytes * 1000000000 <= bytes_per_second r * next_available_ns r'
  /\ 0 <= next_available_ns r' <= 2 * Z.of_nat (S k) * DURATION_MAX.
Proof.
  intros Hr [Hnow Hb] Hnext Hk. cbn [fst snd] in *. unfold reserve.
  rewrite (proj2 (Z.eqb_neq (bytes_per_second r) 0)), (proj2 (Z.eqb_neq bytes 0)) by lia.
  cbn [orb]. intros [= <- <-]. cbn [bytes_per_second next_available_ns].
  unfold duration_from_nanos. destruct (try_from _ _) as [w|] eqn:E; cbn [default];
    [|unfold U64_MAX; lia]. intros _. apply try_from_Some in E as [Hw _].
  unfold sat_sub in Hw. unfold sat_mul.
  assert (bytes * 1000000000 <= U64_MAX * 1000000000) as Hmul by lia.
  rewrite Z.min_r by (unfold U64_MAX, U128_MAX in *; lia).
  set (x := bytes * 1000000000) in *.
  pose proof (div_ceil_spec x (bytes_per_second r) ltac:(lia) ltac:(lia)) as Hdc.
  pose proof (div_ceil_nonneg x (bytes_per_second r) ltac:(lia) ltac:(lia)) as Hdp.
  assert (div_ceil x (bytes_per_second r) <= x) as Hdx by nia.
  set (d := div_ceil x (bytes_per_second r)) in *. unfold sat_add.
  assert (Z.max (next_available_ns r) now + d <= 2 * Z.of_nat (S k) * DURATION_MAX) as Hbound
    by (unfold DURATION_MAX, U64_MAX in *; lia).
  rewrite Z.min_r by (unfold DURATION_MAX, U64_MAX, U128_MAX in *; lia).
  unfold id. split_and!; [done|lia|nia|lia|lia].
Qed.

Lemma send_times_cons r now bytes calls :
  send_times r ((now, bytes) :: calls)
  = now + (reserve r now bytes).2 :: send_times (reserve r now bytes).1 calls.
Proof. unfold send_times. simpl. by destruct (reserve r now bytes). Qed.

(** Every later send time leaves room for the bytes reserved before it. *)
Lemma send_times_after r calls (j k : nat) t :
  0 < bytes_per_second r -> Forall call_ok calls ->
  0 <= next_available_ns r <= 2 * Z.of_nat k * DURATION_MAX -> Z.of_nat k + len calls < 2 ^ 32 ->
  Forall (fun w => w < U64_MAX) (waits r calls) ->
  send_times r calls !! j = Some t ->
  bytes_per_second r * next_available_ns r + sum snd (take j calls) * 1000000000
    <= bytes_per_second r * t.
Proof.
  revert r j k. induction calls as [|[now bytes] calls IH]; intros r j k Hr Hc Hn Hk Hw Ht; [done|].
  rewrite send_times_cons in Ht. simpl in Hw. destruct (reserve r now bytes) as [r' w] eqn:E.
  apply Forall_cons_iff in Hc as [Hc Hcs], Hw as [Hw Hws]. simpl in Ht. rewrite len_cons in Hk.
  destruct (reserve_spec _ _ _ _ _ k Hr Hc Hn ltac:(len_lia) E Hw) as (Hr' & H1 & H2 & H3).
  destruct j as [|j]; simpl in Ht |- *.
  - injection Ht as <-. unfold sum. simpl. nia.
  - specialize (IH r' j (S k)). rewrite Hr' in IH. specialize (IH Hr Hcs H3 ltac:(lia) Hws Ht).
    unfold sum in *. simpl. nia.
Qed.

Lemma send_times_from r calls (i n k : nat) ti tj :
  0 < bytes_per_second r -> Forall call_ok calls ->
  0 <= next_available_ns r <= 2 * Z.of_nat k * DURATION_MAX -> Z.of_nat k + len calls < 2 ^ 32 ->
  Forall (fun w => w < U64_MAX) (waits r calls) ->
  send_times r calls !! i = Some ti -> send_times r calls !! (i + n)%nat = Some tj ->
  sum snd (take n (drop i calls)) * 1000000000 <= bytes_per_second r * (tj - ti).
Proof.
  revert r i k. induction calls as [|[now bytes] calls IH]; intros r i k Hr Hc Hn Hk Hw Hi Hj; [done|].
  rewrite send_times_cons in Hi, Hj. simpl in Hw. destruct (reserve r now bytes) as [r' w] eqn:E.
  apply Forall_cons_iff in Hc as [Hc Hcs], Hw as [Hw Hws]. simpl in Hi, Hj. rewrite len_cons in Hk.
  destruct (reserve_spec _ _ _ _ _ k Hr Hc Hn ltac:(len_lia) E Hw) as (Hr' & H1 & H2 & H3).
  destruct i as [|i].
  - simpl in Hi, Hj. injection Hi as <-. destruct n as [|n]; simpl in Hj |- *.
    + injection Hj as <-. unfold sum. simpl. nia.
    + pose proof (send_times_after r' calls n (S k) tj) as Hs. rewrite Hr' in Hs.
      specialize (Hs Hr Hcs H3 ltac:(lia) Hws Hj). unfold sum in *. simpl. nia.
  - simpl in *. specialize (IH r' i (S k)). rewrite Hr' in IH.
    by apply (IH Hr Hcs H3 ltac:(lia) Hws Hi Hj).
Qed.

(** ** Properties *)

(** C9: whatever calls a client makes, every state of a scheduler created by
    [new] satisfies the invariant: bitfields are valid and sized to the content,
    a provider has at most one outstanding request and exactly one when it is
    busy, requests go only to active providers that offer the chunk, and the
    completed chunks are the resumed ones plus the accepted ones. *)
Theorem scheduler_invariant (n : Z) (av : list PieceAvailability) (completed : list bool)
  (s : Scheduler) (es : list event) :
  Scheduler_new n av completed = Ok s ->
  sched_inv (count (fun d => d) completed) (run s es).
Proof. intros Hs. apply run_inv. by eapply new_inv. Qed.

(** C29: an eligible provider is given a missing chunk it offers with the fewest
    active sources, the lowest index among equals, and only that chunk and that
    provider change; [None] means that the provider is unknown, excluded, busy
    or offers no missing chunk, and then nothing changes. *)
Theorem assign_rarest_first (base : Z) (s : Scheduler) (p : Z) :
  sched_inv base s ->
  match assign s p with
  | (s', Some i) =>
      exists st, get (s_providers s) p = Some st /\ active st = true /\ busy st = false
      /\ get (s_chunks s) i = Some Missing /\ contains (availability st) i = true
      /\ (forall j, get (s_chunks s) j = Some Missing -> contains (availability st) j = true ->
            source_count s i < source_count s j
            \/ (source_count s i = source_count s j /\ i <= j))
      /\ s' = mkScheduler (set_at (s_chunks s) i (InFlight p))
                (set_at (s_providers s) p (set_busy true st)) (s_retries s)
  | (s', None) =>
      s' = s /\ forall st, get (s_providers s) p = Some st -> active st = true -> busy st = false ->
        forall i, get (s_chunks s) i = Some Missing -> contains (availability st) i = false
  end.
Proof.
  intros Hinv. destruct (assign s p) as [s' r] eqn:E.
  destruct (assign_Some _ _ _ _ _ Hinv E)
    as [[-> ->]|(st & i & Hp & Ha & Hb & Hi & Hc & Hmin & -> & ->)].
  - split; [done|]. intros st Hp Ha Hb i Hi. unfold assign in E. rewrite Hp, Ha, Hb in E. simpl in E.
    destruct (min_pair _) as [m|] eqn:Hm.
    + injection E as Hs Hr. exfalso. apply min_pair_spec in Hm as [Hin _]. destruct m as [n j]. simpl in Hr.
      apply candidates_elem in Hin as [Hj _]. apply get_Some_range in Hj.
      pose proof (inv_len _ _ Hinv). apply try_from_None in Hr. lia.
    + apply min_pair_None in Hm. destruct (contains (availability st) i) eqn:Hc; [exfalso|done].
      assert ((source_count s i, i) ∈ candidates s (availability st)) as Hin.
      { apply candidates_elem. pose proof (get_Some_range _ _ _ Hi). pose proof (inv_len _ _ Hinv).
        by rewrite index_u32_small by lia. }
      rewrite Hm in Hin. by apply elem_of_nil in Hin.
  - exists st. split_and!; try done. intros j Hj Hcj. specialize (Hmin j Hj Hcj).
    unfold pair_leb in Hmin. simpl in Hmin. apply orb_true_iff in Hmin.
    rewrite andb_true_iff, Z.ltb_lt, Z.eqb_eq, Z.leb_le in Hmin. done.
Qed.

(** [accept] succeeds exactly for the outstanding request of the provider,
    and then completes that chunk and no other; a duplicate, late or unsolicited
    response changes nothing.  [reject] puts exactly the provider's outstanding
    chunk back, excludes the provider, and never undoes a completed chunk. *)
Theorem accept_reject_exact (base : Z) (s : Scheduler) (p i : Z) :
  sched_inv base s ->
  ((accept s p i).2 = Ok tt <-> get (s_chunks s) i = Some (InFlight p))
  /\ ((accept s p i).2 = Ok tt -> forall j, get (s_chunks (accept s p i).1) j
        = if j =? i then Some ChunkComplete else get (s_chunks s) j)
  /\ ((accept s p i).2 <> Ok tt -> accept s p i = (s, Err UnexpectedChunk))
  /\ (forall j, get (s_chunks (reject s p)) j
        = if decide (get (s_chunks s) j = Some (InFlight p)) then Some Missing else get (s_chunks s) j)
  /\ (forall st, get (s_providers (reject s p)) p = Some st -> active st = false /\ busy st = false)
  /\ s_retries (reject s p) = s_retries s + count (held_by p) (s_chunks s).
Proof.
  intros Hinv. split_and!.
  - destruct (accept_cases _ _ p i Hinv) as [(Hi & _ & st & _ & _ & ->)|[Hi ->]]; naive_solver.
  - destruct (accept_cases _ _ p i Hinv) as [(Hi & _ & st & _ & _ & ->)|[Hi ->]]; simpl; [|done].
    intros _ j. by apply (get_set_at _ _ _ _ _ Hi).
  - destruct (accept_cases _ _ p i Hinv) as [(Hi & _ & st & _ & _ & ->)|[Hi ->]]; naive_solver.
  - intros j. rewrite reject_chunks, get_map. unfold held_by.
    destruct (get (s_chunks s) j) as [c|]; simpl; [|done].
    case_bool_decide; case_decide; simplify_eq; done.
  - intros st Hst. destruct (reject_cases _ _ p Hinv) as [(st0 & Hp & E)|[Hp E]]; rewrite E in Hst.
    + simpl in Hst. rewrite (get_set_at _ _ _ _ _ Hp), Z.eqb_refl in Hst. by simplify_eq.
    + congruence.
  - apply reject_retries.
Qed.

Lemma candidate_exists base s st i :
  sched_inv base s -> get (s_chunks s) i = Some Missing -> contains (availability st) i = true ->
  exists n j, min_pair (candidates s (availability st)) = Some (n, j) /\ 0 <= j <= U32_MAX.
Proof.
  intros Hinv Hi Hc. pose proof (inv_len _ _ Hinv). pose proof (get_Some_range _ _ _ Hi).
  assert ((source_count s i, i) ∈ candidates s (availability st)) as Hin
    by (apply candidates_elem; by rewrite index_u32_small by lia).
  destruct (min_pair _) as [[n j]|] eqn:Hm.
  - exists n, j. split; [done|]. apply min_pair_spec in Hm as [Hm _].
    apply candidates_elem in Hm as [Hj _]. apply get_Some_range in Hj. lia.
  - apply min_pair_None in Hm. rewrite Hm in Hin. by apply elem_of_nil in Hin.
Qed.

(** With nothing outstanding, every provider is idle and every chunk that is not
    complete is missing. *)
Lemma nothing_in_flight base s :
  sched_inv base s -> has_in_flight s = false ->
  (forall p st, get (s_providers s) p = Some st -> busy st = false)
  /\ (is_complete s = false -> exists i, get (s_chunks s) i = Some Missing).
Proof.
  intros Hinv Hno.
  assert (forall p, InFlight p ∉ s_chunks s) as Hnone.
  { intros p Hin. apply not_true_iff_false in Hno. apply Hno, any_true, Exists_exists. by eexists. }
  split.
  - intros p st Hp. destruct (busy st) eqn:Hb; [exfalso|done]. pose proof (inv_held _ _ Hinv p) as Hh.
    rewrite Hp, Hb in Hh. assert (0 < count (held_by p) (s_chunks s)) as Hpos by lia.
    apply count_pos, Exists_exists in Hpos as (c & Hc1 & Hc2). apply held_by_true in Hc2. subst c.
    by apply (Hnone p).
  - intros Hinc. apply not_true_iff_false in Hinc. unfold is_complete in Hinc. rewrite all_true in Hinc.
    apply not_Forall_Exists in Hinc; [|intros ?; apply _].
    apply Exists_exists in Hinc as (c & Hin & Hc). pose proof Hin as Hin'.
    apply elem_get in Hin as [i Hi]. exists i.
    destruct c as [|p|]; [done|by destruct (Hnone p)|by destruct Hc].
Qed.

(** A finishable transfer without outstanding requests has a request to hand out. *)
Lemma assign_available base s :
  sched_inv base s -> is_complete s = false -> has_in_flight s = false -> can_finish s = true ->
  exists p i, (assign s p).2 = Some i.
Proof.
  intros Hinv Hinc Hno Hfin. destruct (nothing_in_flight _ _ Hinv Hno) as [Hidle Hmiss].
  destruct (Hmiss Hinc) as [i Hi]. unfold can_finish in Hfin. rewrite all_true, Forall_forall in Hfin.
  specialize (Hfin (i, Missing) (elem_enumerate _ _ _ Hi)). simpl in Hfin. apply Z.gtb_lt in Hfin.
  apply count_pos, Exists_exists in Hfin as (st & Hst & Hact). apply andb_true_iff in Hact as [Hact Hc].
  apply elem_get in Hst as [p Hp]. pose proof (get_Some_range _ _ _ Hi). pose proof (inv_len _ _ Hinv).
  rewrite index_u32_small in Hc by lia.
  destruct (candidate_exists _ _ _ _ Hinv Hi Hc) as (m & j & Hm & Hj).
  exists p, j. unfold assign. rewrite Hp, Hact, (Hidle _ _ Hp), Hm. simpl. by apply try_from_Some.
Qed.

(** A transfer does not get stuck and does not run forever.  While chunks
    are missing, none is outstanding and every missing chunk has an active
    source, some provider can be given a request; and over any sequence of calls
    the number of requests handed out is at most the number of chunks missing at
    the start plus the number of providers. *)
Theorem transfer_progress_and_bound (n : Z) (av : list PieceAvailability) (completed : list bool)
  (s0 : Scheduler) (es : list event) :
  Scheduler_new n av completed = Ok s0 ->
  (is_complete (run s0 es) = false -> has_in_flight (run s0 es) = false ->
   can_finish (run s0 es) = true -> exists p i, (assign (run s0 es) p).2 = Some i)
  /\ total_requests s0 es <= (n - count (fun d => d) completed) + len av.
Proof.
  intros Hnew. pose proof (new_inv _ _ _ _ Hnew) as Hinv0.
  pose proof (run_inv _ _ es Hinv0) as Hinv. split.
  - by apply (assign_available (count (fun d => d) completed)).
  - pose proof (run_work _ _ es Hinv0) as Hw. unfold work in Hw.
    pose proof (done_in_flight_le (s_chunks (run s0 es))). pose proof (inv_accepted _ _ Hinv).
    pose proof (inv_retries _ _ Hinv).
    pose proof (count_le_len (fun p => negb (active p)) (s_providers (run s0 es))).
    destruct (new_work _ _ _ _ Hnew) as (Hw0 & Hc0 & Hp0). destruct (run_lens s0 es).
    unfold work in Hw0. lia.
Qed.

(** C40: the limiter never admits more than the configured rate: between the
    moments at which the [i]-th and the [j]-th caller may send, at most
    [rate * elapsed] bytes were reserved, for fewer than 2^32 reservations whose
    waits are representable. *)
Theorem rate_limit_respected (rate : Z) (calls : list (Z * Z)) (i j : nat) (ti tj : Z) :
  0 < rate -> Forall call_ok calls -> len calls < 2 ^ 32 ->
  Forall (fun w => w < U64_MAX) (waits (RateSchedule_new rate) calls) ->
  (i <= j)%nat ->
  send_times (RateSchedule_new rate) calls !! i = Some ti ->
  send_times (RateSchedule_new rate) calls !! j = Some tj ->
  sum snd (take (j - i) (drop i calls)) * 1000000000 <= rate * (tj - ti).
Proof.
  intros Hrate Hc Hlen Hw Hij Hi Hj. replace j with (i + (j - i))%nat in Hj by lia.
  by apply (send_times_from (RateSchedule_new rate) calls i (j - i) 0 ti tj).
Qed.

(** ** The properties at concrete inputs *)

Definition sample_scheduler : Scheduler :=
  Eval vm_compute in
    match Scheduler_new 3 [availability_all 3; from_indices 3 [1]] [false; false; true] with
    | Ok s => s | Err _ => mkScheduler [] [] 0 end.

Definition sample_events : list event :=
  [DoAssign 0; DoAssign 1; DoAccept 1 1; DoReject 0; DoAssign 1].

Lemma scheduler_invariant_witness : sched_inv 1 (run sample_scheduler sample_events).
Proof.
  apply (scheduler_invariant 3 [availability_all 3; from_indices 3 [1]] [false; false; true]
           sample_scheduler sample_events).
  vm_compute. reflexivity.
Defined.

Lemma sample_scheduler_inv : sched_inv 1 sample_scheduler.
Proof.
  apply (new_inv 3 [availability_all 3; from_indices 3 [1]] [false; false; true] sample_scheduler).
  vm_compute. reflexivity.
Qed.

Lemma assign_rarest_first_witness :
  (assign sample_scheduler 0).2 = Some 0
  /\ match assign sample_scheduler 0 with
     | (s', Some i) => get (s_chunks sample_scheduler) i = Some Missing
     | _ => False end.
Proof.
  split; [vm_compute; reflexivity|].
  pose proof (assign_rarest_first 1 sample_scheduler 0 sample_scheduler_inv) as H.
  destruct (assign sample_scheduler 0) as [s' r] eqn:E.
  vm_compute in E. injection E as <- <-. destruct H as (st & _ & _ & _ & Hm & _). exact Hm.
Defined.

Lemma accept_reject_exact_witness : (accept sample_scheduler 0 0).2 <> Ok tt.
Proof.
  intros H. apply (accept_reject_exact 1 sample_scheduler 0 0 sample_scheduler_inv) in H.
  discriminate H.
Defined.

Lemma transfer_progress_and_bound_witness :
  total_requests sample_scheduler sample_events = 2 /\ total_requests sample_scheduler sample_events <= 4.
Proof.
  split; [vm_compute; reflexivity|].
  apply (transfer_progress_and_bound 3 [availability_all 3; from_indices 3 [1]] [false; false; true]
           sample_scheduler sample_events).
  vm_compute. reflexivity.
Defined.

Lemma rate_limit_respected_witness :
  send_times (RateSchedule_new 1000) [(0, 500); (0, 500); (100, 1)] = [0; 500000000; 1000000000]
  /\ sum snd (take (2 - 0) (drop 0 [(0, 500); (0, 500); (100, 1)])) * 1000000000
     <= 1000 * (1000000000 - 0).
Proof.
  split; [vm_compute; reflexivity|].
  refine (rate_limit_respected 1000 [(0, 500); (0, 500); (100, 1)] 0 2 0 1000000000 _ _ _ _ _ _ _).
  - lia.
  - repeat constructor; vm_compute; discriminate.
  - vm_compute; reflexivity.
  - repeat constructor; vm_compute; reflexivity.
  - lia.
  - vm_compute; reflexivity.
  - vm_compute; reflexivity.
Defined.
