(* ===== verification/Frame.v ===== *)
(** * Frame: length-prefixed framing and opaque forwarding

    The [read_frame] and [write_frame] of crates/triptorrent-net,
    crates/triptorrent-relay and crates/triptorrent-overlay are the same code
    with a different size limit, which is a parameter here.  A [Source] is what a
    [Read] will deliver: its remaining bytes and how they end; a [Sink] is what a
    [Write] took and how much more it takes before failing.  [forward] is the
    relay's copy loop.  Theorems: a frame written is the frame read, whatever
    follows; [read_frame] accepts nothing else; the relay's output is a prefix of
    its input, and all of it for a well-formed stream. *)
From stdpp Require Import base tactics list numbers option.
From Stdlib Require Import ZArith Lia.
From Stdlib Require String.
From S2P Require Import Prelude Bytes.
Import stdpp.list.

Local Open Scope Z_scope.

(** ** [io::Error] *)

Inductive ErrorKind :=
| InvalidData
| UnexpectedEof
| OtherError
| OsError (code : Z).

#[export] Instance ErrorKind_eq_dec : EqDecision ErrorKind.
Proof. solve_decision. Defined.

(** [io::Error::new(kind, message)] *)
Record IoError := mkIoError {
  kind : ErrorKind;
  message : String.string
}.

Arguments mkIoError kind message%_string_scope.

#[export] Instance IoError_eq_dec : EqDecision IoError.
Proof. solve_decision. Defined.

(** [io::Error::other(message)] *)
Definition io_other (message : String.string) : IoError := mkIoError OtherError message.
Arguments io_other message%_string_scope.

(** ** Readers and writers *)

(** The bytes a reader still delivers, then end of file ([None]) or an error. *)
Record Source := mkSource {
  avail : list Z;
  ending : option IoError
}.

(** [Read::read_exact]: the requested bytes, or an error after consuming what
    there was. *)
Definition read_exact (n : Z) (s : Source) : Source * result IoError (list Z) :=
  if n <=? len (avail s)
  then (mkSource (drop (Z.to_nat n) (avail s)) (ending s), Ok (take (Z.to_nat n) (avail s)))
  else (mkSource [] (ending s),
        Err (default (mkIoError UnexpectedEof "failed to fill whole buffer") (ending s))).

(** The bytes a writer took, and the room left before it fails ([None]: it
    never fails). *)
Record Sink := mkSink {
  written : list Z;
  room : option (Z * IoError)
}.

(** [Write::write_all] *)
Definition write_all (bytes : list Z) (w : Sink) : Sink * result IoError unit :=
  match room w with
  | None => (mkSink (written w ++ bytes) None, Ok tt)
  | Some (n, e) =>
      if len bytes <=? n
      then (mkSink (written w ++ bytes) (Some (n - len bytes, e)), Ok tt)
      else (mkSink (written w ++ take (Z.to_nat n) bytes) (Some (0, e)), Err e)
  end.

(** A connected socket: what it will deliver and what it took. *)
Record TcpStream := mkTcpStream {
  incoming : Source;
  outgoing : Sink
}.

(** ** Framing *)

(** [write_frame]; [flush] of a socket does nothing. *)
Definition write_frame (limit : Z) (too_large : String.string) (frame : list Z) (w : Sink)
  : Sink * result IoError unit :=
  if len frame >? limit then (w, Err (mkIoError InvalidData too_large))
  else
    match try_from U32_MAX (len frame) with
    | None => (w, Err (mkIoError InvalidData "frame length overflow"))
    | Some length =>
        match write_all (to_be 4 length) w with
        | (w, Err e) => (w, Err e)
        | (w, Ok _) => write_all frame w
        end
    end.

Arguments write_frame limit too_large%_string_scope frame w.

(** [read_frame]; [usize::try_from] of a [u32] succeeds on a 64-bit machine. *)
Definition read_frame (limit : Z) (too_large : String.string) (s : Source)
  : Source * result IoError (option (list Z)) :=
  match read_exact 4 s with
  | (s, Err e) => if bool_decide (kind e = UnexpectedEof) then (s, Ok None) else (s, Err e)
  | (s, Ok header) =>
      let length := from_be header in
      if length >? limit then (s, Err (mkIoError InvalidData too_large))
      else
        match read_exact length s with
        | (s, Ok frame) => (s, Ok (Some frame))
        | (s, Err e) => (s, Err e)
        end
  end.

Arguments read_frame limit too_large%_string_scope s.

(** The limit of the net and relay crates, and of the bootstrap control
    protocol. *)
Definition MAX_FRAME_LENGTH : Z := 1024 * 1024.
Definition MAX_CONTROL_FRAME : Z := 256 * 1024.

Definition net_write_frame : list Z -> Sink -> Sink * result IoError unit :=
  write_frame MAX_FRAME_LENGTH "frame too large".
Definition net_read_frame : Source -> Source * result IoError (option (list Z)) :=
  read_frame MAX_FRAME_LENGTH "frame too large".
Definition control_write_frame : list Z -> Sink -> Sink * result IoError unit :=
  write_frame MAX_CONTROL_FRAME "control frame too large".
Definition control_read_frame : Source -> Source * result IoError (option (list Z)) :=
  read_frame MAX_CONTROL_FRAME "control frame too large".

(** ** The relay's copy loop *)

(** A destination socket: its bytes and whether its write half was shut down. *)
Record Destination := mkDestination {
  sink : Sink;
  shut : bool
}.

(** [while let Some(frame) = read_frame(source)? { write_frame(destination, &frame)?; }
    destination.shutdown(Shutdown::Write)]; each iteration consumes a header, so
    fuel above the number of input bytes is enough. *)
Fixpoint forward_fuel (fuel : nat) (source : Source) (destination : Destination)
  : Destination * result IoError unit :=
  match fuel with
  | O => (destination, Ok tt)
  | S fuel =>
      match net_read_frame source with
      | (_, Err e) => (destination, Err e)
      | (_, Ok None) => (mkDestination (sink destination) true, Ok tt)
      | (source, Ok (Some frame)) =>
          match net_write_frame frame (sink destination) with
          | (w, Err e) => (mkDestination w (shut destination), Err e)
          | (w, Ok _) => forward_fuel fuel source (mkDestination w (shut destination))
          end
      end
  end.

Definition forward (source : Source) (destination : Destination) : Destination * result IoError unit :=
  forward_fuel (S (length (avail source))) source destination.

(** ** Facts *)

(** The bytes of a frame on the wire. *)
Definition frame_bytes (frame : list Z) : list Z := to_be 4 (len frame) ++ frame.

Lemma len_frame_bytes f : len (frame_bytes f) = 4 + len f.
Proof. unfold frame_bytes. rewrite len_app, len_to_be. lia. Qed.

Lemma read_exact_app p r e : read_exact (len p) (mkSource (p ++ r) e) = (mkSource r e, Ok p).
Proof.
  unfold read_exact. simpl. rewrite (proj2 (Z.leb_le _ _)) by len_lia.
  unfold len. by rewrite Nat2Z.id, drop_app_length, take_app_length.
Qed.

Lemma read_exact_Ok n s s' b :
  0 <= n -> read_exact n s = (s', Ok b) ->
  avail s = b ++ avail s' /\ len b = n /\ ending s' = ending s.
Proof.
  intros Hn. unfold read_exact. destruct (Z.leb_spec n (len (avail s))); [|done].
  intros [= <- <-]. simpl. rewrite take_drop. split_and!; [done|len_lia|done].
Qed.

(** What an accepted frame looks like on the wire. *)
Lemma read_frame_Some limit msg s s' f :
  bytes_ok (avail s) -> limit <= U32_MAX -> read_frame limit msg s = (s', Ok (Some f)) ->
  avail s = frame_bytes f ++ avail s' /\ len f <= limit /\ ending s' = ending s.
Proof.
  intros Hb Hlim. unfold read_frame.
  destruct (read_exact 4 s) as [s1 [h|e]] eqn:E1; [|by destruct (bool_decide _)].
  apply read_exact_Ok in E1 as (Ha & Hl & He); [|lia].
  rewrite Ha in Hb. apply bytes_ok_app in Hb as [Hbh Hb1].
  pose proof (from_be_range h Hbh) as Hr. rewrite Hl in Hr.
  destruct (Z.gtb_spec (from_be h) limit); [done|].
  destruct (read_exact (from_be h) s1) as [s2 [g|e]] eqn:E2; [|done]. intros [= <- <-].
  apply read_exact_Ok in E2 as (Ha2 & Hl2 & He2); [|lia].
  split_and!; [|lia|congruence].
  rewrite Ha, Ha2. unfold frame_bytes. rewrite Hl2, <- app_assoc. f_equal.
  replace 4%nat with (length h) by (unfold len in Hl; lia). symmetry. by apply to_be_from_be.
Qed.

Lemma read_frame_bytes limit msg f r e :
  len f <= limit -> limit <= U32_MAX ->
  read_frame limit msg (mkSource (frame_bytes f ++ r) e) = (mkSource r e, Ok (Some f)).
Proof.
  intros Hf Hlim. unfold read_frame, frame_bytes. rewrite <- app_assoc.
  replace 4 with (len (to_be 4 (len f))) at 1 by (by rewrite len_to_be).
  rewrite read_exact_app, from_be_to_be by (unfold U32_MAX in *; len_lia).
  destruct (Z.gtb_spec (len f) limit); [lia|]. by rewrite read_exact_app.
Qed.

(** A writer that never fails takes the whole frame. *)
Lemma write_frame_bytes limit msg f w :
  len f <= limit -> limit <= U32_MAX ->
  write_frame limit msg f (mkSink w None) = (mkSink (w ++ frame_bytes f) None, Ok tt).
Proof.
  intros Hf Hlim. unfold write_frame. destruct (Z.gtb_spec (len f) limit); [lia|].
  rewrite (proj2 (try_from_Some _ _ (len f))) by len_lia.
  unfold write_all. simpl. unfold frame_bytes. by rewrite app_assoc.
Qed.

Lemma write_all_prefix b w w' r :
  write_all b w = (w', r) ->
  exists n, written w' = written w ++ take n b /\ (r = Ok tt -> take n b = b).
Proof.
  unfold write_all. destruct (room w) as [[n e]|].
  - destruct (Z.leb_spec (len b) n); intros [= <- <-]; simpl.
    + exists (length b). by rewrite firstn_all.
    + by exists (Z.to_nat n).
  - intros [= <- <-]. exists (length b). simpl. by rewrite firstn_all.
Qed.

(** Whatever the writer does, it takes a prefix of the frame's bytes, and all of
    them on success. *)
Lemma write_frame_prefix limit msg f w w' r :
  write_frame limit msg f w = (w', r) ->
  exists n, written w' = written w ++ take n (frame_bytes f)
            /\ (r = Ok tt -> take n (frame_bytes f) = frame_bytes f).
Proof.
  unfold write_frame. destruct (len f >? limit).
  { intros [= <- <-]. exists 0%nat. simpl. by rewrite app_nil_r. }
  destruct (try_from U32_MAX (len f)) as [n|] eqn:E.
  2:{ intros [= <- <-]. exists 0%nat. simpl. by rewrite app_nil_r. }
  apply try_from_Some in E as [<- _].
  destruct (write_all (to_be 4 (len f)) w) as [w1 [[]|e]] eqn:E1; intros E2.
  - destruct (write_all_prefix _ _ _ _ E1) as (n1 & Hw1 & Hf1). rewrite Hf1 in Hw1 by done.
    destruct (write_all_prefix _ _ _ _ E2) as (n2 & Hw2 & Hf2).
    exists (4 + n2)%nat. unfold frame_bytes.
    assert (take (4 + n2) (to_be 4 (len f) ++ f) = to_be 4 (len f) ++ take n2 f) as Ht.
    { rewrite take_app, length_to_be. rewrite (take_ge (to_be 4 (len f))) by (rewrite length_to_be; lia).
      do 2 f_equal. lia. }
    rewrite Ht, Hw2, Hw1, <- app_assoc. split; [done|]. intros Hr. by rewrite Hf2.
  - simplify_eq. destruct (write_all_prefix _ _ _ _ E1) as (n1 & Hw1 & _).
    exists (Nat.min n1 4). unfold frame_bytes. rewrite take_app, length_to_be.
    replace (Nat.min n1 4 - 4)%nat with 0%nat by lia. rewrite Hw1, take_0, app_nil_r.
    split; [|done]. f_equal. rewrite <- (take_take _ n1 4) by lia.
    by rewrite (take_ge _ 4) by (rewrite length_to_be; lia).
Qed.

(** ** The copy loop *)

Lemma max_frame_u32 : MAX_FRAME_LENGTH <= U32_MAX.
Proof. unfold MAX_FRAME_LENGTH, U32_MAX. lia. Qed.

Lemma read_frame_rest limit msg s s' f :
  bytes_ok (avail s) -> limit <= U32_MAX -> read_frame limit msg s = (s', Ok (Some f)) ->
  bytes_ok (avail s') /\ (length (avail s') < length (avail s))%nat.
Proof.
  intros Hb Hlim E. destruct (read_frame_Some _ _ _ _ _ Hb Hlim E) as (Ha & _ & _).
  rewrite Ha in Hb |- *. apply bytes_ok_app in Hb as [_ Hb]. split; [done|].
  rewrite length_app. unfold frame_bytes. rewrite length_app, length_to_be. lia.
Qed.

Lemma forward_fuel_prefix fuel src dst dst' r :
  bytes_ok (avail src) -> forward_fuel fuel src dst = (dst', r) ->
  exists n, written (sink dst') = written (sink dst) ++ take n (avail src).
Proof.
  revert src dst. induction fuel as [|fuel IH]; intros src dst Hb; simpl.
  { intros [= <- _]. exists 0%nat. by rewrite take_0, app_nil_r. }
  unfold net_read_frame, net_write_frame.
  destruct (read_frame _ _ src) as [src' [[f|]|e]] eqn:Er.
  - destruct (read_frame_Some _ _ _ _ _ Hb max_frame_u32 Er) as (Ha & _ & _).
    destruct (read_frame_rest _ _ _ _ _ Hb max_frame_u32 Er) as [Hb' _].
    destruct (write_frame _ _ f (sink dst)) as [w [[]|e]] eqn:Ew;
      destruct (write_frame_prefix _ _ _ _ _ _ Ew) as (n & Hw & Hfull).
    + intros E. destruct (IH src' _ Hb' E) as (k & Hk). simpl in Hk.
      exists (length (frame_bytes f) + k)%nat. rewrite Hk, Hw, Hfull, Ha by done.
      by rewrite <- app_assoc, take_app_add.
    + intros [= <- _]. exists (Nat.min n (length (frame_bytes f))). cbn [sink]. rewrite Hw, Ha.
      rewrite take_app_le by lia. by rewrite <- take_take, (take_ge _ (length _)) by lia.
  - intros [= <- _]. exists 0%nat. simpl. by rewrite take_0, app_nil_r.
  - intros [= <- _]. exists 0%nat. simpl. by rewrite take_0, app_nil_r.
Qed.

(** Fuel above the input's length is enough: the loop ends by a return of the
    code, and successfully only after the shutdown. *)
Lemma forward_fuel_shut fuel src dst dst' :
  bytes_ok (avail src) -> (length (avail src) < fuel)%nat ->
  forward_fuel fuel src dst = (dst', Ok tt) -> shut dst' = true.
Proof.
  revert src dst. induction fuel as [|fuel IH]; intros src dst Hb Hlt; [lia|]. simpl.
  unfold net_read_frame, net_write_frame.
  destruct (read_frame _ _ src) as [src' [[f|]|e]] eqn:Er; [|by intros [= <-]|done].
  destruct (read_frame_rest _ _ _ _ _ Hb max_frame_u32 Er) as [Hb' Hl].
  destruct (write_frame _ _ f (sink dst)) as [w [[]|e]]; [|done]. apply IH; [done|lia].
Qed.

Lemma read_frame_eof limit msg : read_frame limit msg (mkSource [] None) = (mkSource [] None, Ok None).
Proof. done. Qed.

(** Every frame has a header, so a stream has more bytes than frames. *)
Lemma concat_frames_fuel cs : (length cs < S (length (concat (map frame_bytes cs))))%nat.
Proof.
  induction cs as [|c cs IH]; [simpl; lia|]. cbn [map concat]. rewrite length_app.
  pose proof (len_frame_bytes c). simpl length at 1. unfold len in *. lia.
Qed.

Lemma forward_fuel_frames fuel fs w sh :
  Forall (fun f => bytes_ok f /\ len f <= MAX_FRAME_LENGTH) fs -> (length fs < fuel)%nat ->
  forward_fuel fuel (mkSource (concat (map frame_bytes fs)) None) (mkDestination (mkSink w None) sh)
  = (mkDestination (mkSink (w ++ concat (map frame_bytes fs)) None) true, Ok tt).
Proof.
  revert fuel w. induction fs as [|f fs IH]; intros [|fuel] w Hf Hlt; simpl in Hlt; try lia; cbn [forward_fuel].
  - unfold net_read_frame. rewrite read_frame_eof. simpl. by rewrite app_nil_r.
  - apply Forall_cons_iff in Hf as [[_ Hl] Hf]. unfold net_read_frame, net_write_frame. cbn [map concat].
    rewrite read_frame_bytes by done. cbn [sink]. rewrite write_frame_bytes by done.
    rewrite IH by (done || lia). by rewrite <- app_assoc.
Qed.

(** ** Properties *)

(** Framing round trip.  What [write_frame] produces is read back as the
    same frame, leaving exactly the bytes that follow; [read_frame] returns a
    frame only for such bytes, never one above the limit; and it reports the end
    of the stream exactly when fewer than the four header bytes are left and the
    stream ends there. *)
Theorem frame_roundtrip (limit : Z) (msg : String.string) (s : Source) (f : list Z) :
  bytes_ok (avail s) -> limit <= U32_MAX ->
  (len f <= limit -> forall w, exists b,
     write_frame limit msg f (mkSink w None) = (mkSink (w ++ b) None, Ok tt)
     /\ forall r, read_frame limit msg (mkSource (b ++ r) (ending s)) = (mkSource r (ending s), Ok (Some f)))
  /\ (forall s', read_frame limit msg s = (s', Ok (Some f)) ->
       avail s = to_be 4 (len f) ++ f ++ avail s' /\ len f <= limit)
  /\ ((read_frame limit msg s).2 = Ok None <->
       len (avail s) < 4 /\ match ending s with None => True | Some e => kind e = UnexpectedEof end).
Proof.
  intros Hb Hlim. split_and!.
  - intros Hf w. exists (frame_bytes f). split; [by apply write_frame_bytes|].
    intros r. by apply read_frame_bytes.
  - intros s' E. destruct (read_frame_Some _ _ _ _ _ Hb Hlim E) as (Ha & Hl & _).
    split; [|done]. rewrite Ha. unfold frame_bytes. by rewrite <- app_assoc.
  - unfold read_frame. unfold read_exact at 1. destruct (Z.leb_spec 4 (len (avail s))).
    + split; [|lia]. destruct (_ >? _); [done|].
      destruct (read_exact _ _) as [? []]; done.
    + destruct (ending s) as [e|]; simpl.
      * destruct (bool_decide_reflect (kind e = UnexpectedEof)); simpl; naive_solver.
      * naive_solver.
Qed.

(** The relay forwards opaquely.  For every input and every way the output
    may fail, the bytes forwarded are a prefix of the bytes received, and success
    is reported only after the output was shut down; a stream of frames within the
    limit that ends normally is forwarded completely. *)
Theorem forward_opaque (src : Source) (dst : Destination) :
  bytes_ok (avail src) ->
  (exists n, written (sink (forward src dst).1) = written (sink dst) ++ take n (avail src))
  /\ ((forward src dst).2 = Ok tt -> shut (forward src dst).1 = true)
  /\ (forall fs, Forall (fun f => bytes_ok f /\ len f <= MAX_FRAME_LENGTH) fs ->
        avail src = concat (map frame_bytes fs) -> ending src = None -> room (sink dst) = None ->
        forward src dst
        = (mkDestination (mkSink (written (sink dst) ++ avail src) None) true, Ok tt)).
Proof.
  intros Hb. unfold forward. split_and!.
  - destruct (forward_fuel _ src dst) as [dst' r] eqn:E. by eapply forward_fuel_prefix.
  - destruct (forward_fuel _ src dst) as [dst' r] eqn:E. intros Hr. cbn [snd fst] in *. subst r.
    eapply forward_fuel_shut; [done| |done]. lia.
  - intros fs Hf Ha He Hr. destruct src as [a e], dst as [[w ro] sh]. cbn [avail ending sink written room] in *.
    subst a e ro. apply forward_fuel_frames; [done|apply concat_frames_fuel].
Qed.

Lemma frame_roundtrip_witness :
  read_frame 8 String.EmptyString (mkSource [0; 0; 0; 2; 7; 8; 9] None) = (mkSource [9] None, Ok (Some [7; 8]))
  /\ [0; 0; 0; 2; 7; 8; 9] = to_be 4 (len [7; 8]) ++ [7; 8] ++ [9].
Proof.
  split; [reflexivity|].
  refine (proj1 (proj1 (proj2 (frame_roundtrip 8 String.EmptyString (mkSource [0; 0; 0; 2; 7; 8; 9] None) [7; 8]
    _ _)) (mkSource [9] None) _)).
  - apply bytes_okb_true. reflexivity.
  - vm_compute; discriminate.
  - reflexivity.
Defined.

Lemma forward_opaque_witness :
  forward (mkSource (frame_bytes [1; 2] ++ frame_bytes []) None) (mkDestination (mkSink [] None) false)
  = (mkDestination (mkSink (frame_bytes [1; 2] ++ frame_bytes []) None) true, Ok tt).
Proof.
  refine (proj2 (proj2 (forward_opaque (mkSource (frame_bytes [1; 2] ++ frame_bytes []) None)
    (mkDestination (mkSink [] None) false) _)) [[1; 2]; []] _ _ _ _); try reflexivity.
  - apply bytes_okb_true. reflexivity.
  - repeat constructor; apply bytes_okb_true || (vm_compute; discriminate) ; reflexivity.
Defined.
