(* ===== verification/Net.v ===== *)
(** * Net: relay registration and encrypted sessions (crates/triptorrent-net)

    [TcpRelayTransport::register] writes the registration frame a relay pairs
    connections by; [EncryptedSession] runs a Noise handshake over a
    [FrameTransport] and then exchanges application messages as encrypted frames.
    The [snow] crate is the parameter [Snow]; [SnowLaws] states what the Noise
    framework documents: matching handshakes complete with two messages and give
    transport states in which the messages of one side are read by the other in
    the order they were written.  Theorems: a handshake between matching keys
    completes on both sides, and any sequence of valid messages sent over the
    session is received unchanged and in order, also through the relay. *)
From stdpp Require Import base tactics list numbers option.
From Stdlib Require Import ZArith Lia.
From Stdlib Require String.
From S2P Require Import Prelude Bytes Instances Core Availability Wire WireFacts Frame.
Import stdpp.list.

Local Open Scope Z_scope.

Definition REGISTRATION_MAGIC : list Z := str "TTR1".
Definition MAX_NOISE_MESSAGE : Z := 65535.
Definition NOISE_PSK_PATTERN : list Z := str "Noise_NNpsk0_25519_ChaChaPoly_BLAKE2s".
Definition NOISE_PROVIDER_PATTERN : list Z := str "Noise_KN_25519_ChaChaPoly_BLAKE2s".

(** ** The [snow] crate *)

(** The key material a [Builder] is given before it is built. *)
Inductive NoiseKey :=
| Psk (key : list Z)
| LocalPrivate (key : list Z)
| RemotePublic (key : list Z).

Class Snow := {
  SnowError : Type;
  NoiseParams : Type;
  HandshakeState : Type;
  TransportState : Type;
  (** [pattern.parse::<NoiseParams>()] *)
  parse_params : list Z -> option NoiseParams;
  (** [Builder::new(params).generate_keypair()]: private and public key *)
  generate_keypair : NoiseParams -> result SnowError (list Z * list Z);
  (** [Builder::new(params)], the key, then [build_initiator] or [build_responder] *)
  build_initiator : NoiseParams -> NoiseKey -> result SnowError HandshakeState;
  build_responder : NoiseParams -> NoiseKey -> result SnowError HandshakeState;
  (** [write_message(payload, &mut output)] with [output.len() = size]: the bytes
      written *)
  handshake_write : HandshakeState -> list Z -> Z -> result SnowError (HandshakeState * list Z);
  handshake_read : HandshakeState -> list Z -> Z -> result SnowError (HandshakeState * list Z);
  into_transport_mode : HandshakeState -> result SnowError TransportState;
  transport_write : TransportState -> list Z -> Z -> TransportState * result SnowError (list Z);
  transport_read : TransportState -> list Z -> Z -> TransportState * result SnowError (list Z)
}.

(** Documented behaviour of the Noise protocol framework, for a session that ends before its
    2^64 nonces are used up. *)
Class SnowLaws `{Snow} := {
  (** the second state is ready to read what the first writes next *)
  synced : TransportState -> TransportState -> Prop;
  (** two handshakes of one pattern with matching keys *)
  matching : HandshakeState -> HandshakeState -> Prop;
  (** the public key of a private key *)
  public_of : list Z -> list Z -> Prop;
  (** a transport message is its payload and a 16-byte tag, at most 65535 bytes,
      and is read by the synchronised side *)
  snow_in_order : forall a b p, synced a b -> bytes_ok p -> len p + 16 <= MAX_NOISE_MESSAGE ->
    exists a' b' c, transport_write a p (len p + 16) = (a', Ok c)
      /\ len c = len p + 16 /\ bytes_ok c
      /\ transport_read b c (len c) = (b', Ok p) /\ synced a' b';
  (** matching handshakes complete with one message each way *)
  snow_handshake : forall i r, matching i r ->
    exists i1 m1 r1 o1 r2 m2 i2 o2 ti tr,
      handshake_write i [] MAX_NOISE_MESSAGE = Ok (i1, m1)
      /\ handshake_read r m1 MAX_NOISE_MESSAGE = Ok (r1, o1)
      /\ handshake_write r1 [] MAX_NOISE_MESSAGE = Ok (r2, m2)
      /\ handshake_read i1 m2 MAX_NOISE_MESSAGE = Ok (i2, o2)
      /\ into_transport_mode i2 = Ok ti /\ into_transport_mode r2 = Ok tr
      /\ bytes_ok m1 /\ len m1 <= MAX_NOISE_MESSAGE /\ bytes_ok m2 /\ len m2 <= MAX_NOISE_MESSAGE
      /\ synced ti tr /\ synced tr ti;
  (** the same pre-shared key, or a key pair, match *)
  snow_psk_match : forall params psk i r,
    parse_params NOISE_PSK_PATTERN = Some params ->
    build_initiator params (Psk psk) = Ok i -> build_responder params (Psk psk) = Ok r -> matching i r;
  snow_key_match : forall params priv pub i r,
    parse_params NOISE_PROVIDER_PATTERN = Some params -> public_of priv pub ->
    build_initiator params (LocalPrivate priv) = Ok i ->
    build_responder params (RemotePublic pub) = Ok r -> matching i r
}.

(** ** Errors, roles and transports *)

Section Net.
Context `{Snow}.

Inductive NetError :=
| NetIo (e : IoError)
| NetNoise (e : SnowError)
| NetProtocol (e : ProtocolError)
| InvalidRoute
| InvalidNoisePattern
| InvalidKeyLength
| InvalidNetwork.

Record PeerKeypair := mkPeerKeypair {
  private : list Z;
  public : list Z
}.

Definition parse_noise_pattern (pattern : list Z) : result NetError NoiseParams :=
  ok_or (parse_params pattern) InvalidNoisePattern.

(** [Vec<u8>::try_into::<[u8; 32]>()] *)
Definition try_into_32 (key : list Z) : result NetError (list Z) :=
  if len key =? 32 then Ok key else Err InvalidKeyLength.

Definition generate_peer_keypair : result NetError PeerKeypair :=
  params ← parse_noise_pattern NOISE_PROVIDER_PATTERN;
  keypair ← map_err NetNoise (generate_keypair params);
  private ← try_into_32 keypair.1;
  public ← try_into_32 keypair.2;
  Ok (mkPeerKeypair private public).

Inductive RelayRole :=
| RelaySender
| RelayReceiver.

Definition wire_byte (role : RelayRole) : Z :=
  match role with RelaySender => 0 | RelayReceiver => 1 end.

Definition validate_route (route : list Z) : result NetError unit :=
  if bool_decide (route = []) || (len route >? 128) || negb (all is_ident_byte route)
  then Err InvalidRoute else Ok tt.

(** The registration buffer of [TcpRelayTransport::register]. *)
Definition registration_frame (route : list Z) (role : RelayRole) : result NetError (list Z) :=
  network ← ok_or (try_from U8_MAX (len NETWORK_ID)) InvalidNetwork;
  n ← ok_or (try_from U16_MAX (len route)) InvalidRoute;
  Ok (REGISTRATION_MAGIC ++ to_be 2 PROTOCOL_VERSION ++ [network] ++ NETWORK_ID
      ++ [wire_byte role] ++ to_be 2 n ++ route).

(** [TcpRelayTransport::register]; setting the socket options succeeds. *)
Definition register (stream : TcpStream) (route : list Z) (role : RelayRole)
  : TcpStream * result NetError unit :=
  match validate_route route with
  | Err e => (stream, Err e)
  | Ok _ =>
      match registration_frame route role with
      | Err e => (stream, Err e)
      | Ok registration =>
          let '(out, r) := net_write_frame registration (outgoing stream) in
          (mkTcpStream (incoming stream) out, map_err NetIo r)
      end
  end.

(** The trait [FrameTransport]: a [&mut self] method returns the new transport. *)
Class FrameTransport (T : Type) := {
  send_frame : T -> list Z -> T * result NetError unit;
  receive_frame : T -> T * result NetError (list Z)
}.

#[export] Instance TcpRelayTransport : FrameTransport TcpStream := {
  send_frame stream frame :=
    let '(out, r) := net_write_frame frame (outgoing stream) in
    (mkTcpStream (incoming stream) out, map_err NetIo r);
  receive_frame stream :=
    let '(inc, r) := net_read_frame (incoming stream) in
    (mkTcpStream inc (outgoing stream),
     match r with
     | Err e => Err (NetIo e)
     | Ok None => Err (NetIo (mkIoError UnexpectedEof "relay closed"))
     | Ok (Some frame) => Ok frame
     end)
}.

(** ** Sessions *)

Record EncryptedSession (T : Type) := mkSession {
  transport : T;
  noise : TransportState
}.
Arguments mkSession {T}.
Arguments transport {T}.
Arguments noise {T}.

Section Session.
Context {T : Type} `{FrameTransport T}.

(** The transport is returned also when the handshake fails. *)
Definition handshake_initiator (t : T) (handshake : HandshakeState)
  : T * result NetError (EncryptedSession T) :=
  match handshake_write handshake [] MAX_NOISE_MESSAGE with
  | Err e => (t, Err (NetNoise e))
  | Ok (handshake, output) =>
      match send_frame t output with
      | (t, Err e) => (t, Err e)
      | (t, Ok _) =>
          match receive_frame t with
          | (t, Err e) => (t, Err e)
          | (t, Ok response) =>
              match handshake_read handshake response MAX_NOISE_MESSAGE with
              | Err e => (t, Err (NetNoise e))
              | Ok (handshake, _) =>
                  (t, map_err NetNoise (mkSession t <$> into_transport_mode handshake))
              end
          end
      end
  end.

Definition handshake_responder (t : T) (handshake : HandshakeState)
  : T * result NetError (EncryptedSession T) :=
  match receive_frame t with
  | (t, Err e) => (t, Err e)
  | (t, Ok request) =>
      match handshake_read handshake request MAX_NOISE_MESSAGE with
      | Err e => (t, Err (NetNoise e))
      | Ok (handshake, _) =>
          match handshake_write handshake [] MAX_NOISE_MESSAGE with
          | Err e => (t, Err (NetNoise e))
          | Ok (handshake, output) =>
              match send_frame t output with
              | (t, Err e) => (t, Err e)
              | (t, Ok _) =>
                  (t, map_err NetNoise (mkSession t <$> into_transport_mode handshake))
              end
          end
      end
  end.

(** Building a handshake, then running it. *)
Definition with_handshake (t : T) (h : result NetError HandshakeState)
  (run : T -> HandshakeState -> T * result NetError (EncryptedSession T))
  : T * result NetError (EncryptedSession T) :=
  match h with Err e => (t, Err e) | Ok h => run t h end.

Definition initiator (t : T) (psk : list Z) : T * result NetError (EncryptedSession T) :=
  with_handshake t
    (params ← parse_noise_pattern NOISE_PSK_PATTERN;
     map_err NetNoise (build_initiator params (Psk psk))) handshake_initiator.

Definition responder (t : T) (psk : list Z) : T * result NetError (EncryptedSession T) :=
  with_handshake t
    (params ← parse_noise_pattern NOISE_PSK_PATTERN;
     map_err NetNoise (build_responder params (Psk psk))) handshake_responder.

Definition provider (t : T) (private_key : list Z) : T * result NetError (EncryptedSession T) :=
  with_handshake t
    (params ← parse_noise_pattern NOISE_PROVIDER_PATTERN;
     map_err NetNoise (build_initiator params (LocalPrivate private_key))) handshake_initiator.

Definition receiver (t : T) (provider_public_key : list Z) : T * result NetError (EncryptedSession T) :=
  with_handshake t
    (params ← parse_noise_pattern NOISE_PROVIDER_PATTERN;
     map_err NetNoise (build_responder params (RemotePublic provider_public_key))) handshake_responder.

Definition send (s : EncryptedSession T) (message : Message) : EncryptedSession T * result NetError unit :=
  match encode message with
  | Err e => (s, Err (NetProtocol e))
  | Ok plaintext =>
      match transport_write (noise s) plaintext (len plaintext + 16) with
      | (n, Err e) => (mkSession (transport s) n, Err (NetNoise e))
      | (n, Ok ciphertext) =>
          let '(t, r) := send_frame (transport s) ciphertext in (mkSession t n, r)
      end
  end.

Definition receive (s : EncryptedSession T) : EncryptedSession T * result NetError Message :=
  match receive_frame (transport s) with
  | (t, Err e) => (mkSession t (noise s), Err e)
  | (t, Ok ciphertext) =>
      match transport_read (noise s) ciphertext (len ciphertext) with
      | (n, Err e) => (mkSession t n, Err (NetNoise e))
      | (n, Ok plaintext) => (mkSession t n, map_err NetProtocol (decode plaintext))
      end
  end.

(** A caller's loop: send the messages one after the other, stopping at an
    error; receive [n] messages. *)
Fixpoint send_all (s : EncryptedSession T) (ms : list Message)
  : EncryptedSession T * result NetError unit :=
  match ms with
  | [] => (s, Ok tt)
  | m :: ms => match send s m with
               | (s, Ok _) => send_all s ms
               | (s, Err e) => (s, Err e)
               end
  end.

Fixpoint receive_n (n : nat) (s : EncryptedSession T)
  : EncryptedSession T * result NetError (list Message) :=
  match n with
  | O => (s, Ok [])
  | S n => match receive s with
           | (s, Err e) => (s, Err e)
           | (s, Ok m) => match receive_n n s with
                          | (s, Ok ms) => (s, Ok (m :: ms))
                          | (s, Err e) => (s, Err e)
                          end
           end
  end.
End Session.
End Net.

(** ** Facts *)

Section NetFacts.
Context `{SnowLaws}.

(** A stream with unlimited room, as [Sink]. *)
Definition open_stream (inc : Source) (out : list Z) : TcpStream := mkTcpStream inc (mkSink out None).

Lemma send_frame_open inc out f :
  len f <= MAX_FRAME_LENGTH ->
  send_frame (open_stream inc out) f = (open_stream inc (out ++ frame_bytes f), Ok tt).
Proof.
  intros Hf. unfold send_frame, TcpRelayTransport, net_write_frame, open_stream. cbn [outgoing].
  by rewrite write_frame_bytes by (done || apply max_frame_u32).
Qed.

Lemma receive_frame_open f r e out :
  len f <= MAX_FRAME_LENGTH ->
  receive_frame (mkTcpStream (mkSource (frame_bytes f ++ r) e) out)
  = (mkTcpStream (mkSource r e) out, Ok f).
Proof.
  intros Hf. unfold receive_frame, TcpRelayTransport, net_read_frame. cbn [incoming].
  by rewrite read_frame_bytes by (done || apply max_frame_u32).
Qed.

Lemma noise_fits n : n <= MAX_NOISE_MESSAGE -> n <= MAX_FRAME_LENGTH.
Proof. unfold MAX_NOISE_MESSAGE, MAX_FRAME_LENGTH. lia. Qed.

(** Matching handshakes over connected streams complete on both sides. *)
Lemma handshake_completes i r :
  matching i r ->
  exists m1 m2 ti tr,
    (forall inc e out, handshake_initiator (open_stream (mkSource (frame_bytes m2 ++ inc) e) out) i
       = let t := open_stream (mkSource inc e) (out ++ frame_bytes m1) in (t, Ok (mkSession _ t ti)))
    /\ (forall inc e out, handshake_responder (open_stream (mkSource (frame_bytes m1 ++ inc) e) out) r
       = let t := open_stream (mkSource inc e) (out ++ frame_bytes m2) in (t, Ok (mkSession _ t tr)))
    /\ synced ti tr /\ synced tr ti.
Proof.
  intros (i1 & m1 & r1 & o1 & r2 & m2 & i2 & o2 & ti & tr & Hi1 & Hr1 & Hr2 & Hi2 & Hti & Htr
          & _ & Hm1 & _ & Hm2 & Hs1 & Hs2)%snow_handshake.
  apply noise_fits in Hm1, Hm2. exists m1, m2, ti, tr. split_and!; [| |done|done].
  - intros inc e out. unfold handshake_initiator. rewrite Hi1, send_frame_open by done.
    unfold open_stream at 1. rewrite receive_frame_open by done. by rewrite Hi2, Hti.
  - intros inc e out. unfold handshake_responder. unfold open_stream at 1.
    rewrite receive_frame_open, Hr1, Hr2 by done. fold (open_stream (mkSource inc e) out).
    by rewrite send_frame_open, Htr by done.
Qed.

(** One message. *)
Lemma send_receive a b inc_a out m p :
  synced a b -> message_ok m -> encode m = Ok p ->
  exists a' b' c,
    len c <= MAX_FRAME_LENGTH /\ bytes_ok c /\ synced a' b'
    /\ send (mkSession _ (open_stream inc_a out) a) m
       = (mkSession _ (open_stream inc_a (out ++ frame_bytes c)) a', Ok tt)
    /\ forall r e outb, receive (mkSession _ (mkTcpStream (mkSource (frame_bytes c ++ r) e) outb) b)
       = (mkSession _ (mkTcpStream (mkSource r e) outb) b', Ok m).
Proof.
  intros Hs Hm Hp. pose proof (encode_size _ _ Hp). pose proof (encode_bytes_ok _ _ Hm Hp).
  destruct (snow_in_order a b p Hs) as (a' & b' & c & Hw & Hl & Hc & Hr & Hs'); [done| |].
  { unfold MAX_APPLICATION_MESSAGE_BYTES, MAX_NOISE_MESSAGE in *. lia. }
  assert (len c <= MAX_FRAME_LENGTH) as Hfit
    by (unfold MAX_APPLICATION_MESSAGE_BYTES, MAX_FRAME_LENGTH in *; lia).
  exists a', b', c. split_and!; try done.
  - unfold send. rewrite Hp. cbn [noise transport]. rewrite Hw.
    by rewrite (send_frame_open inc_a out c Hfit).
  - intros r e outb. unfold receive. cbn [transport]. rewrite receive_frame_open by done. cbn [noise].
    rewrite Hr. by rewrite (decode_encode m p).
Qed.

Lemma send_receive_all ms a b inc_a out :
  synced a b -> Forall (fun m => message_ok m /\ is_ok (encode m) = true) ms ->
  exists a' b' cs,
    Forall (fun c => bytes_ok c /\ len c <= MAX_FRAME_LENGTH) cs /\ synced a' b'
    /\ send_all (mkSession _ (open_stream inc_a out) a) ms
       = (mkSession _ (open_stream inc_a (out ++ concat (map frame_bytes cs))) a', Ok tt)
    /\ forall r e outb,
         receive_n (length ms)
           (mkSession _ (mkTcpStream (mkSource (concat (map frame_bytes cs) ++ r) e) outb) b)
         = (mkSession _ (mkTcpStream (mkSource r e) outb) b', Ok ms).
Proof.
  revert a b out. induction ms as [|m ms IH]; intros a b out Hs Hms.
  { exists a, b, []. simpl. rewrite app_nil_r. split_and!; [constructor|done|done|done]. }
  apply Forall_cons_iff in Hms as [[Hm Hp] Hms]. destruct (encode m) as [p|] eqn:Ep; [|done].
  destruct (send_receive a b inc_a out m p Hs Hm Ep) as (a1 & b1 & c & Hl & Hc & Hs1 & Hsend & Hrecv).
  destruct (IH a1 b1 (out ++ frame_bytes c) Hs1 Hms) as (a' & b' & cs & Hcs & Hs' & Hsall & Hrall).
  exists a', b', (c :: cs). cbn [map concat length send_all receive_n]. split_and!.
  - constructor; done.
  - done.
  - rewrite Hsend, Hsall. by rewrite <- app_assoc.
  - intros r e outb. by rewrite <- app_assoc, Hrecv, Hrall.
Qed.

End NetFacts.

(** ** Properties *)

(** The Noise handshakes complete.  A provider and a receiver holding the
    provider's public key, and two endpoints with the same pre-shared key, each
    finish the handshake over connected streams with exactly one frame each way,
    and their sessions are synchronised in both directions. *)
Theorem handshakes_complete `{SnowLaws} (params : NoiseParams) (priv pub psk : list Z) :
  (parse_params NOISE_PROVIDER_PATTERN = Some params -> public_of priv pub ->
   is_ok (build_initiator params (LocalPrivate priv)) = true ->
   is_ok (build_responder params (RemotePublic pub)) = true ->
   exists m1 m2 ti tr,
     (forall inc e out, provider (open_stream (mkSource (frame_bytes m2 ++ inc) e) out) priv
        = let t := open_stream (mkSource inc e) (out ++ frame_bytes m1) in (t, Ok (mkSession _ t ti)))
     /\ (forall inc e out, receiver (open_stream (mkSource (frame_bytes m1 ++ inc) e) out) pub
        = let t := open_stream (mkSource inc e) (out ++ frame_bytes m2) in (t, Ok (mkSession _ t tr)))
     /\ synced ti tr /\ synced tr ti)
  /\ (parse_params NOISE_PSK_PATTERN = Some params ->
   is_ok (build_initiator params (Psk psk)) = true -> is_ok (build_responder params (Psk psk)) = true ->
   exists m1 m2 ti tr,
     (forall inc e out, initiator (open_stream (mkSource (frame_bytes m2 ++ inc) e) out) psk
        = let t := open_stream (mkSource inc e) (out ++ frame_bytes m1) in (t, Ok (mkSession _ t ti)))
     /\ (forall inc e out, responder (open_stream (mkSource (frame_bytes m1 ++ inc) e) out) psk
        = let t := open_stream (mkSource inc e) (out ++ frame_bytes m2) in (t, Ok (mkSession _ t tr)))
     /\ synced ti tr /\ synced tr ti).
Proof.
  unfold provider, receiver, initiator, responder, parse_noise_pattern. split.
  - intros Hp Hk Hi Hr. rewrite Hp. cbn [ok_or mbind result_bind].
    destruct (build_initiator params _) as [i|] eqn:Ei, (build_responder params _) as [r|] eqn:Er; try done.
    cbn [map_err with_handshake].
    by apply handshake_completes, (snow_key_match params priv pub).
  - intros Hp Hi Hr. rewrite Hp. cbn [ok_or mbind result_bind].
    destruct (build_initiator params _) as [i|] eqn:Ei, (build_responder params _) as [r|] eqn:Er; try done.
    cbn [map_err with_handshake].
    by apply handshake_completes, (snow_psk_match params psk).
Qed.

(** C16: end-to-end delivery.  Any sequence of valid messages sent over a session
    is written as frames that the relay forwards without change, and the
    synchronised peer receives exactly that sequence, leaving what follows
    unread.  The sequence is shorter than the nonces of the session. *)
Theorem session_delivers_in_order `{SnowLaws} (a b : TransportState) (ms : list Message)
  (inc : Source) (out : list Z) :
  synced a b ->
  Forall (fun m => message_ok m /\ is_ok (encode m) = true) ms ->
  exists a' b' sent,
    send_all (mkSession _ (open_stream inc out) a) ms
      = (mkSession _ (open_stream inc (out ++ sent)) a', Ok tt)
    /\ forward (mkSource sent None) (mkDestination (mkSink [] None) false)
       = (mkDestination (mkSink sent None) true, Ok tt)
    /\ (forall r e outb,
          receive_n (length ms) (mkSession _ (mkTcpStream (mkSource (sent ++ r) e) outb) b)
          = (mkSession _ (mkTcpStream (mkSource r e) outb) b', Ok ms))
    /\ synced a' b'.
Proof.
  intros Hs Hms. destruct (send_receive_all ms a b inc out Hs Hms) as (a' & b' & cs & Hcs & Hs' & H1 & H2).
  exists a', b', (concat (map frame_bytes cs)). split_and!; try done.
  unfold forward. rewrite (forward_fuel_frames _ cs [] false); [done|done|apply concat_frames_fuel].
Qed.

(** ** The properties at concrete inputs *)

(** A model of the interface: a handshake message is a single byte, a transport
    message is the payload and a 16-byte tag that carries the message number. *)
Module ToySnow.
Definition tag (n : Z) : list Z := replicate 15 0 ++ [n mod 256].

Definition write (s : Z * Z) (p : list Z) (size : Z) : (Z * Z) * result unit (list Z) :=
  if len p + 16 <=? size then ((s.1 + 1, s.2), Ok (p ++ tag s.1)) else (s, Err tt).
Definition read (s : Z * Z) (c : list Z) (size : Z) : (Z * Z) * result unit (list Z) :=
  let p := take (length c - 16) c in
  if bool_decide (drop (length c - 16) c = tag s.2) && (len p <=? size)
  then ((s.1, s.2 + 1), Ok p) else (s, Err tt).

#[export] Instance toy_snow : Snow := {
  SnowError := unit;
  NoiseParams := unit;
  HandshakeState := unit;
  TransportState := Z * Z;
  parse_params _ := Some tt;
  generate_keypair _ := Ok (replicate 32 1, replicate 32 1);
  build_initiator _ _ := Ok tt;
  build_responder _ _ := Ok tt;
  handshake_write _ _ _ := Ok (tt, [1]);
  handshake_read _ _ _ := Ok (tt, []);
  into_transport_mode _ := Ok (0, 0);
  transport_write := write;
  transport_read := read
}.

#[export] Instance toy_snow_laws : SnowLaws.
Proof.
  refine {| synced := (fun a b => a.1 = b.2) : TransportState -> TransportState -> Prop;
            matching := fun _ _ => True; public_of := fun a b => a = b |}; try done.
  - intros [sa ra] [sb rb] p Hs Hb Hl. simpl in *. subst sa. unfold write, read.
    rewrite Z.leb_refl. exists (rb + 1, ra), (sb, rb + 1), (p ++ tag rb). simpl.
    assert (length (p ++ tag rb) - 16 = length p)%nat as Hlen by (rewrite length_app; simpl; lia).
    rewrite Hlen, take_app_length, drop_app_length, bool_decide_eq_true_2 by done.
    rewrite (proj2 (Z.leb_le _ _)) by len_lia. split_and!; try done.
    + rewrite len_app. done.
    + apply bytes_ok_app. split; [done|]. apply bytes_ok_app.
      split; [apply bytes_ok_replicate; unfold is_byte; lia|].
      repeat constructor; apply Z.mod_pos_bound; lia.
  - intros i r _. exists tt, [1], tt, [], tt, [1], tt, [], (0, 0), (0, 0).
    split_and!; try done; try (apply bytes_okb_true; reflexivity); vm_compute; discriminate.
Defined.
End ToySnow.

#[local] Existing Instance ToySnow.toy_snow.
#[local] Existing Instance ToySnow.toy_snow_laws.

Lemma handshakes_complete_witness :
  exists m1 m2 ti tr,
    (forall inc e out, provider (open_stream (mkSource (frame_bytes m2 ++ inc) e) out) (replicate 32 1)
       = let t := open_stream (mkSource inc e) (out ++ frame_bytes m1) in (t, Ok (mkSession _ t ti)))
    /\ (forall inc e out, receiver (open_stream (mkSource (frame_bytes m1 ++ inc) e) out) (replicate 32 1)
       = let t := open_stream (mkSource inc e) (out ++ frame_bytes m2) in (t, Ok (mkSession _ t tr)))
    /\ synced ti tr /\ synced tr ti.
Proof.
  apply (proj1 (@handshakes_complete ToySnow.toy_snow ToySnow.toy_snow_laws tt (replicate 32 1) (replicate 32 1) []));
    reflexivity.
Defined.

Lemma session_delivers_in_order_witness :
  exists a' b' sent,
    send_all (mkSession _ (open_stream (mkSource [] None) []) ((0, 0) : @TransportState ToySnow.toy_snow))
      [ChunkRequest 3; SwarmComplete]
      = (mkSession _ (open_stream (mkSource [] None) ([] ++ sent)) a', Ok tt)
    /\ forward (mkSource sent None) (mkDestination (mkSink [] None) false)
       = (mkDestination (mkSink sent None) true, Ok tt)
    /\ (forall r e outb,
          receive_n (length [ChunkRequest 3; SwarmComplete])
            (mkSession _ (mkTcpStream (mkSource (sent ++ r) e) outb) ((0, 0) : @TransportState ToySnow.toy_snow))
          = (mkSession _ (mkTcpStream (mkSource r e) outb) b', Ok [ChunkRequest 3; SwarmComplete]))
    /\ synced a' b'.
Proof.
  apply (@session_delivers_in_order ToySnow.toy_snow ToySnow.toy_snow_laws (0, 0) (0, 0)
           [ChunkRequest 3; SwarmComplete] (mkSource [] None) []); [reflexivity|].
  repeat constructor; vm_compute; discriminate || reflexivity.
Defined.
