(* ===== verification/Relay.v ===== *)
(** * Relay: pairing and forwarding (crates/triptorrent-relay)

    [RelayState] pairs the two registrations of a route; [parse_registration]
    reads what the net crate writes; [serve_with_limits] is a step relation over
    the threads of the service, whose only shared state is the mutex-protected
    [RelayState] and two atomic counters.  Sockets are an arbitrary type; the
    clock readings of one call are one instant [now], in nanoseconds.  Theorems:
    the parser accepts exactly the registration format, the pairing invariant and
    its resource bounds, single use of routes up to eviction, the pairing
    contract, and the connection limits of the service in every reachable state. *)
From stdpp Require Import base tactics list numbers option gmap.
From Stdlib Require Import ZArith Lia.
From Stdlib Require String.
From S2P Require Import Prelude Bytes Instances Core Frame Net.
Import stdpp.list.

Local Open Scope Z_scope.

(** ** Data *)

Definition MAX_ROUTE_LENGTH : Z := 128.
Definition DEFAULT_MAX_PENDING_ROUTES : Z := 1024.
Definition DEFAULT_MAX_ACTIVE_PAIRS : Z := 256.
Definition DEFAULT_MAX_REGISTRATION_CONNECTIONS : Z := 256.
Definition DEFAULT_PENDING_TIMEOUT : Z := 30 * 1000000000.

Inductive Role :=
| Sender
| Receiver.

#[export] Instance Role_eq_dec : EqDecision Role.
Proof. solve_decision. Defined.

Record RelayLimits := mkRelayLimits {
  max_pending_routes : Z;
  max_active_pairs : Z;
  max_registration_connections : Z;
  pending_timeout : Z
}.

Definition RelayLimits_default : RelayLimits :=
  mkRelayLimits DEFAULT_MAX_PENDING_ROUTES DEFAULT_MAX_ACTIVE_PAIRS
    DEFAULT_MAX_REGISTRATION_CONNECTIONS DEFAULT_PENDING_TIMEOUT.

Section Relay.
Context {Stream : Type}.

Record PendingRoute := mkPendingRoute {
  sender : option Stream;
  receiver : option Stream;
  created : Z
}.

Record RelayState := mkRelayState {
  pending : gmap (list Z) PendingRoute;
  completed : list (list Z);
  limits : RelayLimits;
  expired_routes : Z
}.

Definition RelayState_new (limits : RelayLimits) : RelayState := mkRelayState ∅ [] limits 0.

(** ** [RelayState] *)

(** [route.created.elapsed()], which saturates at zero *)
Definition elapsed (now created : Z) : Z := sat_sub now created.

Definition prune (s : RelayState) (now : Z) : RelayState :=
  let kept := filter (fun e : list Z * PendingRoute =>
                        elapsed now (created e.2) < pending_timeout (limits s)) (pending s) in
  mkRelayState kept (completed s) (limits s)
    (expired_routes s + sat_sub (map_len (pending s)) (map_len kept)).

(** [while completed.len() > maximum { completed.pop_front(); }] *)
Fixpoint trim_front (maximum : Z) (l : list (list Z)) : list (list Z) :=
  match l with
  | [] => []
  | x :: t => if len (x :: t) >? maximum then trim_front maximum t else x :: t
  end.

(** The slot of a role, and its assignment. *)
Definition slot (role : Role) (entry : PendingRoute) : option Stream :=
  match role with Sender => sender entry | Receiver => receiver entry end.
Definition set_slot (role : Role) (stream : Stream) (entry : PendingRoute) : PendingRoute :=
  match role with
  | Sender => mkPendingRoute (Some stream) (receiver entry) (created entry)
  | Receiver => mkPendingRoute (sender entry) (Some stream) (created entry)
  end.

Definition relay_register (s : RelayState) (now : Z) (route : list Z) (role : Role) (stream : Stream)
  : RelayState * result IoError (option (Stream * Stream)) :=
  let s := prune s now in
  if bool_decide (route ∈ completed s)
  then (s, Err (mkIoError InvalidData "completed route cannot be reused"))
  else if negb (bool_decide (is_Some (pending s !! route)))
          && (map_len (pending s) >=? max_pending_routes (limits s))
  then (s, Err (io_other "relay pending-route limit reached"))
  else
    let entry := default (mkPendingRoute None None now) (pending s !! route) in
    match slot role entry with
    | Some _ =>
        (mkRelayState (<[route := entry]> (pending s)) (completed s) (limits s) (expired_routes s),
         Err (mkIoError InvalidData "duplicate relay role"))
    | None =>
        let entry := set_slot role stream entry in
        match sender entry, receiver entry with
        | Some a, Some b =>
            (mkRelayState (delete route (pending s))
               (trim_front (max_pending_routes (limits s)) (completed s ++ [route]))
               (limits s) (expired_routes s),
             Ok (Some (a, b)))
        | _, _ =>
            (mkRelayState (<[route := entry]> (pending s)) (completed s) (limits s) (expired_routes s),
             Ok None)
        end
    end.

(** ** Service threads *)

(** [try_acquire]: the counter after the update, and whether it succeeded. *)
Definition try_acquire (counter limit : Z) : Z * bool :=
  if counter <? limit then (counter + 1, true) else (counter, false).

(** A spawned thread: reading a registration; after it, with the pair if there is
    one, before it releases its registration slot; holding a pair before that is
    counted; forwarding. *)
Inductive Thread :=
| Registering (stream : Stream)
| Registered (outcome : option (Stream * Stream))
| Paired (sender receiver : Stream)
| Forwarding (sender receiver : Stream).

Record Service := mkService {
  sv_state : RelayState;
  sv_active : Z;
  sv_registrations : Z;
  sv_threads : list Thread
}.

Definition Service_new (l : RelayLimits) : Service := mkService (RelayState_new l) 0 0 [].

(** The steps of [serve_with_limits] and its threads, in any interleaving. *)
Inductive service_step (l : RelayLimits) : Service -> Service -> Prop :=
| step_accept s stream n :
    (** an accepted connection takes a registration slot and a thread *)
    try_acquire (sv_registrations s) (max_registration_connections l) = (n, true) ->
    service_step l s (mkService (sv_state s) (sv_active s) n (Registering stream :: sv_threads s))
| step_refuse s n :
    (** no slot: the connection is dropped *)
    try_acquire (sv_registrations s) (max_registration_connections l) = (n, false) ->
    service_step l s (mkService (sv_state s) (sv_active s) n (sv_threads s))
| step_bad_registration s stream before after :
    (** the registration cannot be read or parsed *)
    sv_threads s = before ++ Registering stream :: after ->
    service_step l s (mkService (sv_state s) (sv_active s) (sv_registrations s)
                        (before ++ Registered None :: after))
| step_register s stream before after now route role st r :
    (** the registration, under the lock; an error leaves no pair *)
    sv_threads s = before ++ Registering stream :: after ->
    relay_register (sv_state s) now route role stream = (st, r) ->
    service_step l s (mkService st (sv_active s) (sv_registrations s)
                        (before ++ Registered (match r with Ok p => p | Err _ => None end) :: after))
| step_release_none s before after :
    (** the slot is released and the thread ends *)
    sv_threads s = before ++ Registered None :: after ->
    service_step l s (mkService (sv_state s) (sv_active s) (sv_registrations s - 1) (before ++ after))
| step_release_pair s before after a b :
    (** the slot is released and the thread keeps the pair *)
    sv_threads s = before ++ Registered (Some (a, b)) :: after ->
    service_step l s (mkService (sv_state s) (sv_active s) (sv_registrations s - 1)
                        (before ++ Paired a b :: after))
| step_forward s a b before after n :
    (** the pair takes a forwarding slot *)
    sv_threads s = before ++ Paired a b :: after ->
    try_acquire (sv_active s) (max_active_pairs l) = (n, true) ->
    service_step l s (mkService (sv_state s) n (sv_registrations s) (before ++ Forwarding a b :: after))
| step_no_forward s a b before after n :
    (** no slot: the pair is dropped *)
    sv_threads s = before ++ Paired a b :: after ->
    try_acquire (sv_active s) (max_active_pairs l) = (n, false) ->
    service_step l s (mkService (sv_state s) n (sv_registrations s) (before ++ after))
| step_close s a b before after :
    (** forwarding ends *)
    sv_threads s = before ++ Forwarding a b :: after ->
    service_step l s (mkService (sv_state s) (sv_active s - 1) (sv_registrations s) (before ++ after)).
End Relay.
Arguments PendingRoute : clear implicits.
Arguments RelayState : clear implicits.
Arguments Thread : clear implicits.
Arguments Service : clear implicits.

(** ** Registration frames *)

Definition parse_registration (frame : list Z) : result IoError (list Z * Role) :=
  _ ← guard_err ((len frame <? 10) || negb (bool_decide (take 4 frame = REGISTRATION_MAGIC)))
        (mkIoError InvalidData "invalid relay registration");
  _ ← guard_err (negb (from_be [default 0 (get frame 4); default 0 (get frame 5)] =? PROTOCOL_VERSION))
        (mkIoError InvalidData "unsupported relay protocol version");
  let network_length := default 0 (get frame 6) in
  network_end ← ok_or (checked_add USIZE_MAX 7 network_length)
                  (mkIoError InvalidData "invalid network length");
  _ ← guard_err (negb (bool_decide (slice frame 7 network_end = Some NETWORK_ID)))
        (mkIoError InvalidData "wrong relay network");
  role ← match get frame network_end with
         | Some 0 => Ok Sender
         | Some 1 => Ok Receiver
         | _ => Err (mkIoError InvalidData "invalid role")
         end;
  let length_start := network_end + 1 in
  length_bytes ← ok_or (slice frame length_start (length_start + 2))
                   (mkIoError InvalidData "missing route length");
  let route_length := from_be length_bytes in
  let route_start := length_start + 2 in
  route_end ← ok_or (checked_add USIZE_MAX route_start route_length)
                (mkIoError InvalidData "invalid route length");
  _ ← guard_err (negb (route_end =? len frame))
        (mkIoError InvalidData "relay registration length mismatch");
  let route := default [] (slice frame route_start route_end) in
  _ ← guard_err (negb (utf8_valid route)) (mkIoError InvalidData "route is not UTF-8");
  _ ← guard_err ((len route >? MAX_ROUTE_LENGTH) || negb (all is_ident_byte route))
        (mkIoError InvalidData "invalid relay route");
  Ok (route, role).

Definition read_registration (stream : TcpStream) : TcpStream * result IoError (list Z * Role) :=
  let '(inc, r) := net_read_frame (incoming stream) in
  (mkTcpStream inc (outgoing stream),
   frame ← r;
   frame ← ok_or frame (mkIoError UnexpectedEof "missing relay registration");
   parse_registration frame).

(** ** Forwarding a pair and serving one route *)

(** [relay_pair]: two [forward] loops on disjoint halves of the two sockets;
    [receiver_to_sender.and(sender_to_receiver)]. *)
Definition relay_pair (a b : TcpStream) : Destination * Destination * result IoError unit :=
  let '(to_sender, r1) := forward (incoming b) (mkDestination (outgoing a) false) in
  let '(to_receiver, r2) := forward (incoming a) (mkDestination (outgoing b) false) in
  (to_sender, to_receiver, _ ← r1; r2).

(** The accept loop of [serve_once] over the results of [accept]; an exhausted
    list is a listener that blocks for ever. *)
Fixpoint serve_once_loop (accepted : list (result IoError TcpStream))
  (a b : option TcpStream) (expected_route : option (list Z))
  : option (result IoError (TcpStream * TcpStream)) :=
  match a, b with
  | Some a, Some b => Some (Ok (a, b))
  | _, _ =>
      match accepted with
      | [] => None
      | Err e :: _ => Some (Err e)
      | Ok stream :: accepted =>
          match read_registration stream with
          | (_, Err e) => Some (Err e)
          | (stream, Ok (route, role)) =>
              if match expected_route with Some expected => negb (bool_decide (expected = route)) | None => false end
              then Some (Err (mkIoError InvalidData "route IDs did not match"))
              else
                let expected_route := match expected_route with Some r => Some r | None => Some route end in
                match role, a, b with
                | Sender, None, _ => serve_once_loop accepted (Some stream) b expected_route
                | Receiver, _, None => serve_once_loop accepted a (Some stream) expected_route
                | _, _, _ => Some (Err (mkIoError InvalidData "duplicate relay role"))
                end
          end
      end
  end.

Definition serve_once (accepted : list (result IoError TcpStream))
  : option (result IoError (Destination * Destination)) :=
  match serve_once_loop accepted None None None with
  | None => None
  | Some (Err e) => Some (Err e)
  | Some (Ok (a, b)) => let '(x, y, r) := relay_pair a b in Some ((fun _ => (x, y)) <$> r)
  end.

(** ** Facts about registration frames *)

Lemma drop_get {A} (l : list A) i x :
  get l i = Some x -> drop (Z.to_nat i) l = x :: drop (Z.to_nat (i + 1)) l.
Proof.
  intros Hi. pose proof (get_Some_range _ _ _ Hi). apply get_lookup in Hi.
  rewrite (drop_S _ _ _ Hi). do 2 f_equal. lia.
Qed.

Lemma drop_slice {A} (l : list A) i j s :
  slice l i j = Some s -> drop (Z.to_nat i) l = s ++ drop (Z.to_nat j) l.
Proof.
  intros (Hi & Hij & Hj & -> & _)%slice_Some.
  rewrite <- (take_drop (Z.to_nat (j - i)) (drop (Z.to_nat i) l)) at 1. f_equal.
  rewrite drop_drop. f_equal. lia.
Qed.

Lemma get_default {A} (l : list A) i d : 0 <= i < len l -> get l i = Some (default d (get l i)).
Proof. intros [x Hx]%get_is_Some. by rewrite Hx. Qed.

(** The role a wire byte stands for. *)
Definition role_of (role : RelayRole) : Role :=
  match role with RelaySender => Sender | RelayReceiver => Receiver end.

Definition wire_registration (route : list Z) (role : RelayRole) : list Z :=
  REGISTRATION_MAGIC ++ to_be 2 PROTOCOL_VERSION ++ [len NETWORK_ID] ++ NETWORK_ID
  ++ [wire_byte role] ++ to_be 2 (len route) ++ route.

Lemma registration_frame_wire `{Snow} route role frame :
  registration_frame route role = Ok frame <-> len route <= U16_MAX /\ frame = wire_registration route role.
Proof.
  unfold registration_frame. change (try_from U8_MAX (len NETWORK_ID)) with (Some (len NETWORK_ID)).
  cbn [ok_or mbind result_bind]. destruct (try_from U16_MAX (len route)) as [n|] eqn:E.
  - apply try_from_Some in E as [<- Hn]. cbn [ok_or]. split.
    + intros <-%Ok_inj. split; [lia|done].
    + by intros [_ ->].
  - apply try_from_None in E. split; [done|]. len_lia.
Qed.

Lemma get_middle {A} (p s : list A) x i : i = len p -> get (p ++ x :: s) i = Some x.
Proof.
  intros ->. unfold get, len. rewrite (proj2 (Z.leb_le 0 _)) by lia.
  rewrite Nat2Z.id, lookup_app_r, Nat.sub_diag by lia. done.
Qed.

Lemma len_wire_registration route role : len (wire_registration route role) = 31 + len route.
Proof.
  unfold wire_registration. rewrite !len_app, !len_to_be.
  change (len REGISTRATION_MAGIC) with 4. change (len NETWORK_ID) with 21.
  change (len [21]) with 1. change (len [wire_byte role]) with 1. lia.
Qed.

Lemma parse_wire_registration route role :
  len route <= MAX_ROUTE_LENGTH -> all is_ident_byte route = true ->
  parse_registration (wire_registration route role) = Ok (route, role_of role).
Proof.
  intros Hlen Hid. unfold parse_registration. pose proof (len_wire_registration route role) as Hl.
  set (pre := REGISTRATION_MAGIC ++ to_be 2 PROTOCOL_VERSION ++ [len NETWORK_ID]).
  assert (wire_registration route role
    = pre ++ NETWORK_ID ++ wire_byte role :: to_be 2 (len route) ++ route) as Hsplit.
  { unfold wire_registration, pre. by rewrite <- !app_assoc. }
  rewrite Hl. rewrite (proj2 (Z.ltb_ge _ _)) by len_lia.
  change (take 4 (wire_registration route role)) with REGISTRATION_MAGIC.
  rewrite bool_decide_eq_true_2 by done. cbn [orb negb guard_err mbind result_bind].
  change (default 0 (get (wire_registration route role) 4)) with 0.
  change (default 0 (get (wire_registration route role) 5)) with 1.
  change (default 0 (get (wire_registration route role) 6)) with 21.
  change (from_be [0; 1] =? PROTOCOL_VERSION) with true.
  change (checked_add USIZE_MAX 7 21) with (Some 28). cbn [negb guard_err mbind result_bind ok_or].
  assert (slice (wire_registration route role) 7 28 = Some NETWORK_ID) as Hs1
    by (rewrite Hsplit; by apply slice_middle).
  rewrite bool_decide_eq_true_2 by exact Hs1.
  cbn [negb guard_err mbind result_bind].
  replace (get (wire_registration route role) 28) with (Some (wire_byte role)).
  2:{ symmetry. rewrite Hsplit, app_assoc. by apply get_middle. }
  assert (slice (wire_registration route role) 29 31 = Some (to_be 2 (len route))) as Hs2.
  { rewrite Hsplit. replace (pre ++ NETWORK_ID ++ wire_byte role :: to_be 2 (len route) ++ route)
      with ((pre ++ NETWORK_ID ++ [wire_byte role]) ++ to_be 2 (len route) ++ route)
      by (by rewrite <- !app_assoc). by apply slice_middle. }
  assert (slice (wire_registration route role) 31 (31 + len route) = Some route) as Hs3.
  { rewrite Hsplit. replace (pre ++ NETWORK_ID ++ wire_byte role :: to_be 2 (len route) ++ route)
      with ((pre ++ NETWORK_ID ++ [wire_byte role] ++ to_be 2 (len route)) ++ route ++ [])
      by (by rewrite app_nil_r, <- !app_assoc). by apply slice_middle. }
  unfold MAX_ROUTE_LENGTH in *.
  destruct role; cbn [wire_byte mbind result_bind role_of]; change (28 + 1) with 29; change (29 + 2) with 31;
    rewrite Hs2; cbn [ok_or mbind result_bind]; rewrite from_be_to_be by len_lia;
    unfold checked_add; rewrite (proj2 (try_from_Some _ _ (31 + len route))) by (unfold USIZE_MAX, U64_MAX; len_lia);
    cbn [ok_or mbind result_bind]; rewrite Z.eqb_refl, Hs3; cbn [default negb guard_err];
    unfold id; rewrite (ident_utf8 _ Hid), Hid;
    rewrite Z.gtb_ltb, (proj2 (Z.ltb_ge 128 (len route))) by lia; done.
Qed.

(** A frame is the concatenation of the fields at their fixed offsets. *)
Lemma registration_fields frame version role lb :
  bytes_ok frame -> 10 <= len frame ->
  take 4 frame = REGISTRATION_MAGIC ->
  from_be [default 0 (get frame 4); default 0 (get frame 5)] = version ->
  default 0 (get frame 6) = 21 ->
  slice frame 7 28 = Some NETWORK_ID -> get frame 28 = Some role -> slice frame 29 31 = Some lb ->
  frame = REGISTRATION_MAGIC ++ to_be 2 version ++ [21] ++ NETWORK_ID ++ [role] ++ lb ++ drop 31 frame.
Proof.
  intros Hb Hlen Hmagic Hver H6 Hnet H28 Hl2.
  rewrite <- (take_drop 4 frame) at 1. rewrite Hmagic. f_equal.
  pose proof (drop_get frame 4 _ (get_default frame 4 0 ltac:(lia))) as D4.
  pose proof (drop_get frame 5 _ (get_default frame 5 0 ltac:(lia))) as D5.
  pose proof (drop_get frame 6 _ (get_default frame 6 0 ltac:(lia))) as D6.
  change (Z.to_nat (4 + 1)) with (Z.to_nat 5) in D4. change (Z.to_nat (5 + 1)) with (Z.to_nat 6) in D5.
  rewrite D5 in D4. apply (bytes_ok_drop 4) in Hb. change (drop 4 frame) with (drop (Z.to_nat 4) frame) in *.
  rewrite D4 in Hb |- *. rewrite D6, H6. change (Z.to_nat (6 + 1)) with (Z.to_nat 7).
  rewrite (drop_slice _ _ _ _ Hnet), (drop_get frame 28 _ H28).
  change (Z.to_nat (28 + 1)) with (Z.to_nat 29). rewrite (drop_slice _ _ _ _ Hl2).
  assert (to_be 2 version = [default 0 (get frame 4); default 0 (get frame 5)]) as ->; [|done].
  rewrite <- Hver. apply (to_be_from_be [_; _]).
  rewrite !bytes_ok_cons in Hb |- *. destruct Hb as (? & ? & _). split; [done|]. split; [done|constructor].
Qed.

(** Conversely, an accepted frame is the registration of its route. *)
Lemma parse_registration_Ok frame route role :
  bytes_ok frame -> parse_registration frame = Ok (route, role) ->
  exists rr, role = role_of rr /\ frame = wire_registration route rr
             /\ len route <= MAX_ROUTE_LENGTH /\ all is_ident_byte route = true.
Proof.
  intros Hb Hp. unfold parse_registration in Hp. invert_ok. to_prop.
  repeat match goal with H : unit |- _ => destruct H end.
  match goal with H : checked_add _ 7 _ = Some _ |- _ => apply try_from_Some in H as [<- _] end.
  match goal with H : slice _ 7 _ = Some NETWORK_ID |- _ => pose proof H as Hnet;
    pose proof (slice_Some _ _ _ _ H) as (_ & _ & _ & _ & Hnl) end.
  change (len NETWORK_ID) with 21 in Hnl.
  assert (default 0 (get frame 6) = 21) as H6 by lia. rewrite H6 in *.
  change (7 + 21) with 28 in *. change (28 + 1) with 29 in *. change (29 + 2) with 31 in *.
  pose proof (slice_Some _ _ _ _ Ha4) as (_ & _ & Hlen & _ & Hl2).
  apply try_from_Some in Ha5 as [Ha5 _]. subst a5.
  assert (slice frame 31 (31 + from_be a4) = Some (drop 31 frame)) as Hs.
  { unfold slice. rewrite (proj2 (Z.leb_le 31 _)), (proj2 (Z.leb_le _ (len frame))) by lia.
    cbn [andb Z.leb Z.compare]. f_equal. change (Z.to_nat 31) with 31%nat. apply take_ge.
    rewrite length_drop. unfold len in *. lia. }
  rewrite Hs in *. cbn [default] in *. unfold id in *.
  assert (exists rr, role = role_of rr /\ get frame 28 = Some (wire_byte rr)) as (rr & -> & H28).
  { destruct (get frame 28) as [[|[]|]|]; try done; [exists RelaySender|exists RelayReceiver];
      by invert_ok. }
  exists rr. split_and!; [done| |rewrite Z.gtb_ltb in H; by apply Z.ltb_ge|done].
  assert (len (drop 31 frame) = from_be a4) as Hrl by (rewrite len_drop; lia).
  unfold wire_registration. rewrite Hrl.
  assert (to_be 2 (from_be a4) = a4) as ->.
  { replace 2%nat with (length a4) by (unfold len in Hl2; lia). apply to_be_from_be.
    pose proof (drop_slice _ _ _ _ Ha4) as Hd. pose proof (bytes_ok_drop (Z.to_nat 29) _ Hb) as Hb'.
    rewrite Hd in Hb'. apply bytes_ok_app in Hb'. tauto. }
  by apply registration_fields; [|lia|..].
Qed.

(** ** The pairing invariant *)

Section RelayFacts.
Context {Stream : Type}.
Implicit Types (s : RelayState Stream) (e : PendingRoute Stream).

(** Exactly one of the two roles has registered. *)
Definition half_open e : Prop := is_Some (sender e) <-> receiver e = None.

Record relay_inv s : Prop := {
  inv_limit : 0 <= max_pending_routes (limits s);
  inv_pending : map_len (pending s) <= max_pending_routes (limits s);
  inv_completed : len (completed s) <= max_pending_routes (limits s);
  inv_half : forall route e, pending s !! route = Some e -> half_open e;
  inv_disjoint : forall route, is_Some (pending s !! route) -> route ∉ completed s;
  inv_nodup : NoDup (completed s)
}.

(** A pending route that has not timed out. *)
Definition live s (now : Z) (route : list Z) e : Prop :=
  pending s !! route = Some e /\ elapsed now (created e) < pending_timeout (limits s).

Lemma prune_lookup s now route e : pending (prune s now) !! route = Some e <-> live s now route e.
Proof. unfold prune, live. simpl. by rewrite map_lookup_filter_Some. Qed.

Lemma prune_inv s now : relay_inv s -> relay_inv (prune s now).
Proof.
  intros [H0 H1 H2 H3 H4 H5]. split; simpl; try done.
  - pose proof (map_size_filter (fun e : list Z * PendingRoute Stream =>
      elapsed now (created e.2) < pending_timeout (limits s)) (pending s)). unfold map_len in *. lia.
  - intros route e He. apply map_lookup_filter_Some in He as [He _]. by eapply H3.
  - intros route [e He]. apply map_lookup_filter_Some in He as [He _]. by apply H4.
Qed.

Lemma trim_front_drop n l : 0 <= n -> trim_front n l = drop (Z.to_nat (len l - n)) l.
Proof.
  intros Hn. induction l as [|x l IH]; [by rewrite drop_nil|]. cbn [trim_front].
  destruct (Z.gtb_spec (len (x :: l)) n); rewrite len_cons in *.
  - rewrite IH. replace (Z.to_nat (1 + len l - n)) with (S (Z.to_nat (len l - n))); [done|lia].
  - by replace (Z.to_nat (1 + len l - n)) with 0%nat by lia.
Qed.

Lemma len_trim_front n l : 0 <= n -> len (trim_front n l) <= n.
Proof. intros Hn. rewrite trim_front_drop, len_drop by done. len_lia. Qed.

(** What [register] does, by cases: a rejection leaves the pruned state; a first
    registration is stored; a second of the other role makes the pair. *)
Lemma register_cases s now route role st :
  relay_inv s ->
  let p := prune s now in
  match relay_register s now route role st with
  | (s', Err _) => s' = p
      /\ (route ∈ completed s
          \/ (pending p !! route = None /\ max_pending_routes (limits s) <= map_len (pending p))
          \/ exists e, pending p !! route = Some e /\ is_Some (slot role e))
  | (s', Ok None) => route ∉ completed s /\ pending p !! route = None
      /\ map_len (pending p) < max_pending_routes (limits s)
      /\ s' = mkRelayState (<[route := set_slot role st (mkPendingRoute None None now)]> (pending p))
                (completed s) (limits s) (expired_routes p)
  | (s', Ok (Some (a, b))) => route ∉ completed s
      /\ (exists e, pending p !! route = Some e /\ slot role e = None
           /\ match role with Sender => a = st /\ receiver e = Some b
              | Receiver => sender e = Some a /\ b = st end)
      /\ s' = mkRelayState (delete route (pending p))
                (trim_front (max_pending_routes (limits s)) (completed s ++ [route]))
                (limits s) (expired_routes p)
  end.
Proof.
  intros Hinv p. pose proof (prune_inv s now Hinv) as Hp. unfold relay_register. fold p.
  change (completed p) with (completed s). change (limits p) with (limits s).
  destruct (bool_decide_reflect (route ∈ completed s)) as [Hc|Hc]; [by split; [|left]|].
  destruct (pending p !! route) as [e|] eqn:He.
  - rewrite bool_decide_eq_true_2 by done. cbn [negb andb default]. unfold id.
    pose proof (inv_half _ Hp route e He) as Hhalf. unfold half_open in Hhalf.
    destruct e as [[a|] [b|] c], role; simpl in *.
    all: try (exfalso; naive_solver).
    all: try (split_and!; [done| |done]; eexists; done).
    all: split; [|right; right; eexists; done].
    all: unfold p, prune; f_equal; by apply insert_id.
  - rewrite bool_decide_eq_false_2 by (by intros [? ?]). cbn [negb andb default].
    destruct (Z.geb_spec (map_len (pending p)) (max_pending_routes (limits s))).
    + split; [done|]. right; left. done.
    + destruct role; cbn [slot set_slot sender receiver]; (split_and!; [done|done|lia|done]).
Qed.
Lemma elem_of_drop_sub n (l : list (list Z)) x : x ∈ drop n l -> x ∈ l.
Proof. intros H. rewrite <- (take_drop n l). apply elem_of_app. by right. Qed.

Lemma NoDup_drop n (l : list (list Z)) : NoDup l -> NoDup (drop n l).
Proof. intros H. rewrite <- (take_drop n l) in H. by apply NoDup_app in H as (_ & _ & ?). Qed.

Lemma register_inv s now route role st :
  relay_inv s -> relay_inv (relay_register s now route role st).1.
Proof.
  intros Hinv. pose proof (register_cases s now route role st Hinv) as Hc.
  pose proof (prune_inv s now Hinv) as Hp.
  destruct (relay_register s now route role st) as [s' [[[a b]|]|err]]; cbn [fst].
  - destruct Hc as (Hnc & _ & ->). destruct Hp as [H0 H1 H2 H3 H4 H5]. split; cbn [pending completed limits].
    + done.
    + pose proof (map_subseteq_size _ _ (delete_subseteq (pending (prune s now)) route)).
      unfold map_len in *. cbn [limits prune] in H1. lia.
    + by apply len_trim_front.
    + intros r e. rewrite lookup_delete_Some. intros [_ He]. by eapply H3.
    + intros r [e He]. rewrite lookup_delete_Some in He. destruct He as [Hne He].
      rewrite trim_front_drop by done. intros Hin%elem_of_drop_sub. apply elem_of_app in Hin as [Hin|Hin].
      * by apply (H4 r); [eexists|].
      * by apply list_elem_of_singleton in Hin.
    + rewrite trim_front_drop by done. apply NoDup_drop, NoDup_app. split_and!; [done| |by apply NoDup_singleton].
      intros x Hx Hx'. apply list_elem_of_singleton in Hx' as ->. done.
  - destruct Hc as (Hnc & Hn & Hlt & ->). destruct Hp as [H0 H1 H2 H3 H4 H5].
    split; cbn [pending completed limits]; try done.
    + unfold map_len in *. rewrite map_size_insert_None by done. lia.
    + intros r e. rewrite lookup_insert_Some. intros [[<- <-]|[_ He]]; [|by eapply H3].
      destruct role; unfold half_open; simpl; split; try done; by intros [? ?] || (intros; eexists).
    + intros r [e He]. rewrite lookup_insert_Some in He. destruct He as [[<- _]|[_ He]]; [done|].
      apply (H4 r). by eexists.
  - by destruct Hc as [-> _].
Qed.

Lemma relay_inv_new (l : RelayLimits) : 0 <= max_pending_routes l -> relay_inv (RelayState_new l).
Proof.
  intros Hl. split; simpl; try done.
  - intros route [e He]. by rewrite lookup_empty in He.
  - constructor.
Qed.

(** ** Sequences of registrations *)

Definition registration : Type := Z * list Z * Role * Stream.

Definition apply_registration s (r : registration) : RelayState Stream :=
  let '(now, route, role, st) := r in (relay_register s now route role st).1.

Definition run_registrations s (rs : list registration) : RelayState Stream :=
  foldl apply_registration s rs.

(** How many of the registrations complete a pair. *)
Fixpoint pairings s (rs : list registration) : Z :=
  match rs with
  | [] => 0
  | (now, route, role, st) :: rs =>
      (match (relay_register s now route role st).2 with Ok (Some _) => 1 | _ => 0 end)
      + pairings (apply_registration s (now, route, role, st)) rs
  end.

Lemma run_registrations_inv s rs : relay_inv s -> relay_inv (run_registrations s rs).
Proof.
  revert s. induction rs as [|[[[now route] role] st] rs IH]; intros s Hinv; [done|].
  apply IH. by apply register_inv.
Qed.

Lemma pairings_nonneg s rs : 0 <= pairings s rs.
Proof.
  revert s. induction rs as [|[[[now route] role] st] rs IH]; intros s; [done|]. cbn [pairings].
  specialize (IH (apply_registration s (now, route, role, st))). repeat case_match; lia.
Qed.

(** [route] completed, and at most [k] others after it. *)
Definition recently_completed s (route : list Z) (k : Z) : Prop :=
  exists x y, completed s = x ++ route :: y /\ len y <= k.

Lemma recently_completed_run s route rs k :
  relay_inv s -> recently_completed s route k -> k + pairings s rs < max_pending_routes (limits s) ->
  route ∈ completed (run_registrations s rs).
Proof.
  revert s k. induction rs as [|[[[now r] role] st] rs IH]; intros s k Hinv (x & y & Hc & Hy) Hk.
  { simpl. rewrite Hc. apply elem_of_app. right. left. }
  cbn [pairings] in Hk. cbn [run_registrations foldl]. fold (run_registrations (apply_registration s (now, r, role, st)) rs).
  pose proof (register_cases s now r role st Hinv) as Hcase.
  pose proof (register_inv s now r role st Hinv) as Hinv'.
  unfold apply_registration in *.
  pose proof (pairings_nonneg (relay_register s now r role st).1 rs) as Hpn.
  destruct (relay_register s now r role st) as [s' [[[a b]|]|err]]; cbn [fst snd] in *.
  - destruct Hcase as (_ & _ & ->). cbn [limits] in *. apply (IH _ (k + 1)); [done| |cbn [limits]; lia].
    unfold recently_completed. cbn [completed]. rewrite trim_front_drop by apply Hinv.
    rewrite Hc, <- app_assoc. cbn [app].
    exists (drop (Z.to_nat (len (x ++ route :: y ++ [r]) - max_pending_routes (limits s))) x), (y ++ [r]).
    split; [|len_lia]. apply drop_app_le. rewrite len_app, len_cons, len_app. change (len [r]) with 1. unfold len in *. lia.
  - destruct Hcase as (_ & _ & _ & ->). apply (IH _ k); [done|by exists x, y|cbn [limits]; lia].
  - destruct Hcase as [-> _]. apply (IH _ k); [done|by exists x, y|cbn [limits prune]; lia].
Qed.

Lemma paired_recently s now route role st s' p :
  relay_inv s -> 0 < max_pending_routes (limits s) ->
  relay_register s now route role st = (s', Ok (Some p)) ->
  recently_completed s' route 0 /\ limits s' = limits s.
Proof.
  intros Hinv Hpos E. pose proof (register_cases s now route role st Hinv) as Hc. rewrite E in Hc.
  destruct p as [a b]. destruct Hc as (_ & _ & ->). cbn [limits]. split; [|done].
  unfold recently_completed. cbn [completed]. rewrite trim_front_drop by lia.
  exists (drop (Z.to_nat (len (completed s ++ [route]) - max_pending_routes (limits s))) (completed s)), [].
  split; [|done]. apply drop_app_le. unfold len in *. rewrite length_app. simpl. lia.
Qed.
End RelayFacts.

(** ** The service *)

Section ServiceFacts.
Context {Stream : Type}.
Implicit Types (s : Service Stream) (t : Thread Stream).

(** A thread that holds a registration slot, or a forwarding slot. *)
Definition registering t : bool := match t with Registering _ | Registered _ => true | _ => false end.
Definition forwarding t : bool := match t with Forwarding _ _ => true | _ => false end.

Record service_inv (l : RelayLimits) s : Prop := {
  sinv_state : relay_inv (sv_state s);
  sinv_registrations : sv_registrations s = count registering (sv_threads s);
  sinv_registrations_max : sv_registrations s <= max_registration_connections l;
  sinv_active : sv_active s = count forwarding (sv_threads s);
  sinv_active_max : sv_active s <= max_active_pairs l
}.

Lemma try_acquire_spec counter limit n ok :
  try_acquire counter limit = (n, ok) ->
  n = counter + (if ok then 1 else 0) /\ (ok = true -> n <= limit) /\ (ok = false -> limit <= counter).
Proof. unfold try_acquire. destruct (Z.ltb_spec counter limit); intros [= <- <-]; split_and!; try done; lia. Qed.

(** [solve_counts]: the counters follow the threads. *)
Ltac solve_counts :=
  repeat match goal with
  | H : sv_threads _ = _ |- _ => rewrite H in *
  | |- context [count _ (_ ++ _)] => rewrite count_app
  | H : context [count _ (_ ++ _)] |- _ => rewrite count_app in H
  | |- context [count _ (_ :: _)] => rewrite count_cons
  | H : context [count _ (_ :: _)] |- _ => rewrite count_cons in H
  end; simpl in *; lia.

Lemma service_step_inv l s s' : service_inv l s -> service_step l s s' -> service_inv l s'.
Proof.
  intros [H1 H2 H3 H4 H5] Hstep. destruct Hstep; split; cbn [sv_state sv_registrations sv_active sv_threads];
    try match goal with H : try_acquire _ _ = _ |- _ => apply try_acquire_spec in H as (-> & ? & ?) end;
    try done; try (solve_counts).
  all: try (match goal with H : _ = true -> _ |- _ => specialize (H eq_refl) end; solve_counts).
  match goal with H : relay_register _ ?now ?route ?role ?stream = _ |- _ =>
    pose proof (register_inv _ now route role stream H1) as Hr; by rewrite H in Hr end.
Qed.
End ServiceFacts.

(** ** Properties *)

(** The relay accepts exactly the registration frames of the net crate's
    format, for routes of at most 128 identifier characters, and recovers route
    and role.  (The empty route, which the net crate never sends, is accepted
    too.) *)
Theorem registration_exact `{Snow} (frame route : list Z) (role : RelayRole) :
  bytes_ok frame ->
  parse_registration frame = Ok (route, role_of role) <->
  registration_frame route role = Ok frame
  /\ len route <= MAX_ROUTE_LENGTH /\ all is_ident_byte route = true.
Proof.
  intros Hb. rewrite registration_frame_wire. split.
  - intros Hp. destruct (parse_registration_Ok _ _ _ Hb Hp) as (rr & Hr & -> & Hl & Hid).
    assert (rr = role) as -> by (by destruct rr, role).
    unfold MAX_ROUTE_LENGTH, U16_MAX in *. split_and!; (done || lia).
  - intros ([_ ->] & Hl & Hid). by apply parse_wire_registration.
Qed.

(** After any sequence of registrations the relay holds at most the allowed
    number of pending and of completed routes, each pending route has exactly one
    role registered, and no route is both pending and completed. *)
Theorem relay_invariant {Stream} (l : RelayLimits) (rs : list (@registration Stream)) :
  0 <= max_pending_routes l -> relay_inv (run_registrations (RelayState_new l) rs).
Proof.
  intros Hl. by apply run_registrations_inv, relay_inv_new.
Qed.

(** The pairing contract.  A registration returns a pair exactly when the
    other role of the same route is pending and has not timed out, and the pair
    is those two connections, sender first; otherwise it is stored if the route
    is new and there is room, and rejected, with no effect but expiry, if the
    route was completed, the role is taken or the table is full. *)
Theorem register_contract {Stream} (s : RelayState Stream) (now : Z) (route : list Z) (role : Role)
  (st : Stream) :
  relay_inv s ->
  match relay_register s now route role st with
  | (s', Ok (Some (a, b))) =>
      route ∉ completed s
      /\ (exists e, live s now route e /\ slot role e = None
          /\ match role with Sender => a = st /\ receiver e = Some b
             | Receiver => sender e = Some a /\ b = st end)
      /\ pending s' = delete route (pending (prune s now))
  | (s', Ok None) =>
      route ∉ completed s /\ (forall e, ~ live s now route e)
      /\ map_len (pending (prune s now)) < max_pending_routes (limits s)
      /\ pending s' = <[route := set_slot role st (mkPendingRoute None None now)]> (pending (prune s now))
      /\ completed s' = completed s
  | (s', Err _) =>
      s' = prune s now
      /\ (route ∈ completed s
          \/ ((forall e, ~ live s now route e)
              /\ max_pending_routes (limits s) <= map_len (pending (prune s now)))
          \/ exists e, live s now route e /\ is_Some (slot role e))
  end.
Proof.
  intros Hinv. pose proof (register_cases s now route role st Hinv) as Hc. cbn zeta in Hc.
  assert (pending (prune s now) !! route = None -> forall e, ~ live s now route e) as Hnone.
  { intros Hn e Hl%prune_lookup. congruence. }
  destruct (relay_register s now route role st) as [s' [[[a b]|]|err]].
  - destruct Hc as (Hn & (e & He & Hs & Hr) & ->). split_and!; [done| |done].
    exists e. by rewrite <- prune_lookup.
  - destruct Hc as (Hn & He & Hlt & ->). split_and!; auto.
  - destruct Hc as [-> Hc]. split; [done|]. destruct Hc as [Hc|[[Hc1 Hc2]|(e & He & Hs)]].
    + by left.
    + right; left. auto.
    + right; right. exists e. by rewrite <- prune_lookup.
Qed.

(** C20: a paired route cannot be reused while fewer than [max_pending_routes]
    further pairs have completed, whatever registrations arrive in between. *)
Theorem route_single_use {Stream} (s s' : RelayState Stream) (now now' : Z) (route : list Z)
  (role role' : Role) (st st' : Stream) (p : Stream * Stream) (rs : list (@registration Stream)) :
  relay_inv s ->
  relay_register s now route role st = (s', Ok (Some p)) ->
  pairings s' rs < max_pending_routes (limits s) ->
  (relay_register (run_registrations s' rs) now' route role' st').2
  = Err (mkIoError InvalidData "completed route cannot be reused").
Proof.
  intros Hinv E Hk. pose proof (pairings_nonneg s' rs).
  destruct (paired_recently _ _ _ _ _ _ _ Hinv ltac:(lia) E) as [Hrec Hl].
  pose proof (register_inv s now route role st Hinv) as Hinv'. rewrite E in Hinv'. cbn [fst] in Hinv'.
  pose proof (recently_completed_run s' route rs 0 Hinv' Hrec ltac:(rewrite Hl; lia)) as Hin.
  unfold relay_register. change (completed (prune (run_registrations s' rs) now'))
    with (completed (run_registrations s' rs)). by rewrite bool_decide_eq_true_2.
Qed.

(** C19: in every state the relay service can reach, under any interleaving of
    its threads, the two counters count the threads that hold a slot, so that at
    most [max_registration_connections] connections are being registered and at
    most [max_active_pairs] pairs are forwarded; the pairing invariant holds
    throughout. *)
Theorem service_limits {Stream} (l : RelayLimits) (s : Service Stream) :
  0 <= max_pending_routes l -> 0 <= max_registration_connections l -> 0 <= max_active_pairs l ->
  rtc (service_step l) (Service_new l) s -> service_inv l s.
Proof.
  intros H1 H2 H3 Hr. assert (service_inv l (Service_new (Stream := Stream) l)) as Hinit.
  { split; simpl; try done. by apply relay_inv_new. }
  revert Hinit. induction Hr as [s|s s1 s2 Hstep _ IH]; [done|].
  intros Hi. by apply IH, (service_step_inv l s).
Qed.

(** ** The properties at concrete inputs *)

#[local] Existing Instance ToySnow.toy_snow.

Lemma registration_exact_witness :
  parse_registration (wire_registration (str "route-1") RelayReceiver) = Ok (str "route-1", Receiver).
Proof.
  apply (registration_exact (wire_registration (str "route-1") RelayReceiver) (str "route-1") RelayReceiver).
  - apply bytes_okb_true. vm_compute. reflexivity.
  - split_and!; [apply registration_frame_wire|vm_compute; discriminate|vm_compute; reflexivity].
    split; [vm_compute; discriminate|reflexivity].
Defined.

(** A relay with room for one route, whose streams are numbers. *)
Definition sample_limits : RelayLimits := mkRelayLimits 1 1 1 30.
Definition sample_registrations : list (@registration Z) :=
  [(0, str "a", Sender, 1); (1, str "a", Receiver, 2); (2, str "b", Sender, 3); (40, str "c", Sender, 4)].

Lemma relay_invariant_witness :
  relay_inv (run_registrations (RelayState_new sample_limits) sample_registrations).
Proof. apply (relay_invariant sample_limits sample_registrations). vm_compute. discriminate. Defined.

Definition sample_pending : RelayState Z :=
  run_registrations (RelayState_new sample_limits) (take 1 sample_registrations).

Lemma sample_pending_inv : relay_inv sample_pending.
Proof. apply run_registrations_inv, relay_inv_new. vm_compute. discriminate. Qed.

Lemma register_contract_witness :
  (relay_register sample_pending 1 (str "a") Receiver 2).2 = Ok (Some (1, 2))
  /\ str "a" ∉ completed sample_pending.
Proof.
  split; [vm_compute; reflexivity|].
  pose proof (register_contract sample_pending 1 (str "a") Receiver 2 sample_pending_inv) as H.
  destruct (relay_register sample_pending 1 (str "a") Receiver 2) as [s' r] eqn:E.
  assert (r = Ok (Some (1, 2))) as Hr by (replace r with (s', r).2 by reflexivity; rewrite <- E; reflexivity).
  rewrite Hr in H. exact (proj1 H).
Defined.

Lemma route_single_use_witness :
  (relay_register (run_registrations (relay_register sample_pending 1 (str "a") Receiver 2).1 []) 5
     (str "a") Sender 9).2
  = Err (mkIoError InvalidData "completed route cannot be reused").
Proof.
  apply (route_single_use sample_pending (relay_register sample_pending 1 (str "a") Receiver 2).1
           1 5 (str "a") Receiver Sender 2 9 (1, 2) []).
  - exact sample_pending_inv.
  - vm_compute. reflexivity.
  - vm_compute. reflexivity.
Defined.

Definition sample_service : Service Z :=
  mkService (RelayState_new sample_limits) 0 1 [Registering 7].

Lemma service_limits_witness : service_inv sample_limits sample_service.
Proof.
  apply (service_limits sample_limits sample_service);
    [vm_compute; discriminate|vm_compute; discriminate|vm_compute; discriminate|].
  apply rtc_once, (step_accept sample_limits (Service_new sample_limits) 7 1). reflexivity.
Defined.

(** The memory of completed routes is bounded: after [max_pending_routes] further
    pairs a route is accepted again. *)
Lemma route_reuse_after_eviction :
  (relay_register
     (run_registrations (RelayState_new sample_limits)
        [(0, str "a", Sender, 1); (0, str "a", Receiver, 2); (0, str "b", Sender, 3); (0, str "b", Receiver, 4)])
     0 (str "a") Sender 5).2 = Ok None.
Proof. vm_compute. reflexivity. Qed.
