(* ===== verification/Overlay.v ===== *)
(** * Overlay: the bootstrap registry and its service (crates/triptorrent-overlay)

    [Registry] holds leased peers and relays and the route assignments queued for
    providers; every operation takes the time [now_ms] as the code does.
    [handle_connection] is the service side of one request, [client_request] the
    client side.  [BTreeMap]s are the sorted lists of BTree.v, the [HashMap] of
    assignments is a [gmap].  Theorems about these definitions are in
    OverlayFacts.v. *)
From stdpp Require Import base tactics list numbers option gmap.
From Stdlib Require Import ZArith Lia.
From Stdlib Require String.
From S2P Require Import Prelude Bytes BTree Instances NetAddr Core Wire Frame.
Import stdpp.list.

Local Open Scope Z_scope.

Definition MAX_CONTROL_CONNECTIONS : Z := 256.

Record RegistryLimits := mkRegistryLimits {
  max_peers : Z;
  max_relays : Z;
  max_content_ids_per_peer : Z;
  max_assignments_per_peer : Z
}.

Definition RegistryLimits_default : RegistryLimits :=
  mkRegistryLimits 4096 256 MAX_ADVERTISED_CONTENT_IDS 64.

Record PeerLease := mkPeerLease {
  pl_advertisement : PeerAdvertisement;
  pl_expires_at : Z
}.

Record RelayLease := mkRelayLease {
  rl_advertisement : RelayAdvertisement;
  rl_expires_at : Z
}.

Record QueuedAssignment := mkQueuedAssignment {
  qa_assignment : RouteAssignment;
  qa_expires_at : Z
}.

Record OverlaySnapshot := mkOverlaySnapshot {
  sn_peers : Z;
  sn_relays : Z;
  sn_content_advertisements : Z;
  sn_expired_peers : Z;
  sn_expired_relays : Z;
  sn_expired_routes : Z
}.

Record Registry := mkRegistry {
  lease_ms : Z;
  limits : RegistryLimits;
  peers : list (list Z * PeerLease);
  relays : list (list Z * RelayLease);
  assignments : gmap (list Z) (list QueuedAssignment);
  next_route : Z;
  expired_peers : Z;
  expired_relays : Z;
  expired_routes : Z
}.

Inductive RegistryError :=
| PeerIdentityMismatch
| NoContent
| UnsupportedPeer
| InvalidRelayId
| InvalidRelayAddress
| TooManyContentIds
| DuplicateContentId
| PeerLimitReached
| RelayLimitReached.

(** [RegistryError::to_string] *)
Definition RegistryError_to_string (e : RegistryError) : list Z :=
  match e with
  | PeerIdentityMismatch => str "peer ID does not match the advertised public key"
  | NoContent => str "peer advertisement contains no content IDs"
  | UnsupportedPeer => str "peer does not advertise the experimental relayed-transfer capability"
  | InvalidRelayId => str "relay ID must be 1-64 ASCII letters, digits, '-' or '_'"
  | InvalidRelayAddress => str "relay address must be a valid IP socket address"
  | TooManyContentIds => str "peer advertisement exceeds content-ID limit"
  | DuplicateContentId => str "peer advertisement contains duplicate content IDs"
  | PeerLimitReached => str "peer registry limit reached"
  | RelayLimitReached => str "relay registry limit reached"
  end.

(** Assignments of single fields. *)
Definition set_peers (r : Registry) (p : list (list Z * PeerLease)) : Registry :=
  mkRegistry (lease_ms r) (limits r) p (relays r) (assignments r) (next_route r)
    (expired_peers r) (expired_relays r) (expired_routes r).
Definition set_relays (r : Registry) (l : list (list Z * RelayLease)) : Registry :=
  mkRegistry (lease_ms r) (limits r) (peers r) l (assignments r) (next_route r)
    (expired_peers r) (expired_relays r) (expired_routes r).
Definition set_assignments (r : Registry) (a : gmap (list Z) (list QueuedAssignment)) : Registry :=
  mkRegistry (lease_ms r) (limits r) (peers r) (relays r) a (next_route r)
    (expired_peers r) (expired_relays r) (expired_routes r).
Definition set_next_route (r : Registry) (n : Z) : Registry :=
  mkRegistry (lease_ms r) (limits r) (peers r) (relays r) (assignments r) n
    (expired_peers r) (expired_relays r) (expired_routes r).

(** ** Registry operations *)

Definition with_limits (lease_ms : Z) (limits : RegistryLimits) : Registry :=
  mkRegistry (Z.max lease_ms 1) limits [] [] ∅ 0 0 0 0.

Definition Registry_new (lease_ms : Z) : Registry := with_limits lease_ms RegistryLimits_default.

(** [assignments.values().map(VecDeque::len).sum()] *)
Definition queued_routes (a : gmap (list Z) (list QueuedAssignment)) : Z :=
  map_fold (fun _ queue n => len queue + n) 0 a.

(** The predicate of [queue.retain] in [purge]. *)
Definition keep_assignment (relays : list (list Z * RelayLease)) (now_ms : Z) (queued : QueuedAssignment) : bool :=
  (qa_expires_at queued >? now_ms) && bt_contains (relay_id (qa_assignment queued)) relays.

Definition purge (r : Registry) (now_ms : Z) : Registry :=
  let peers' := bt_retain (fun _ peer => pl_expires_at peer >? now_ms) (peers r) in
  let relays' := bt_retain (fun _ relay => rl_expires_at relay >? now_ms) (relays r) in
  let assignments' :=
    map_imap (fun peer_id queue =>
                if negb (bt_contains peer_id peers') then None
                else
                  let queue := List.filter (keep_assignment relays' now_ms) queue in
                  if bool_decide (queue = []) then None else Some queue)
      (assignments r) in
  mkRegistry (lease_ms r) (limits r) peers' relays' assignments' (next_route r)
    (expired_peers r + sat_sub (len (peers r)) (len peers'))
    (expired_relays r + sat_sub (len (relays r)) (len relays'))
    (expired_routes r + sat_sub (queued_routes (assignments r)) (queued_routes assignments')).

Definition register_peer `{Blake3} (r : Registry) (now_ms : Z) (advertisement : PeerAdvertisement)
  : Registry * result RegistryError unit :=
  if negb (bool_decide (pa_peer_id advertisement = PeerId_from_public_key (pa_public_key advertisement)))
  then (r, Err PeerIdentityMismatch)
  else if bool_decide (pa_content_ids advertisement = []) then (r, Err NoContent)
  else if len (pa_content_ids advertisement) >? max_content_ids_per_peer (limits r)
  then (r, Err TooManyContentIds)
  else if negb (len (remove_dups (pa_content_ids advertisement)) =? len (pa_content_ids advertisement))
  then (r, Err DuplicateContentId)
  else if negb (any (fun capability => match capability with RelayedTransferV1 | SwarmTransferV1 => true end)
                  (pa_capabilities advertisement))
  then (r, Err UnsupportedPeer)
  else
    let r := purge r now_ms in
    if negb (bt_contains (pa_peer_id advertisement) (peers r)) && (len (peers r) >=? max_peers (limits r))
    then (r, Err PeerLimitReached)
    else
      (set_peers r (bt_insert (pa_peer_id advertisement)
                      (mkPeerLease advertisement (sat_add U64_MAX now_ms (lease_ms r))) (peers r)),
       Ok tt).

Definition heartbeat_peer (r : Registry) (now_ms : Z) (peer_id : PeerId) : Registry * bool :=
  let r := purge r now_ms in
  match bt_get peer_id (peers r) with
  | None => (r, false)
  | Some peer =>
      (set_peers r (bt_insert peer_id
                      (mkPeerLease (pl_advertisement peer) (sat_add U64_MAX now_ms (lease_ms r))) (peers r)),
       true)
  end.

Definition validate_relay_id (relay_id : list Z) : result RegistryError unit :=
  if bool_decide (relay_id = []) || (len relay_id >? 64) || negb (all is_ident_byte relay_id)
  then Err InvalidRelayId else Ok tt.

Definition register_relay (r : Registry) (now_ms : Z) (advertisement : RelayAdvertisement)
  : Registry * result RegistryError unit :=
  match validate_relay_id (ra_relay_id advertisement) with
  | Err e => (r, Err e)
  | Ok _ =>
      if bool_decide (parse_socket_addr (ra_address advertisement) = None)
      then (r, Err InvalidRelayAddress)
      else
        let r := purge r now_ms in
        if negb (bt_contains (ra_relay_id advertisement) (relays r))
           && (len (relays r) >=? max_relays (limits r))
        then (r, Err RelayLimitReached)
        else
          (set_relays r (bt_insert (ra_relay_id advertisement)
                           (mkRelayLease advertisement (sat_add U64_MAX now_ms (lease_ms r))) (relays r)),
           Ok tt)
  end.

Definition heartbeat_relay (r : Registry) (now_ms : Z) (relay_id : list Z) : Registry * bool :=
  let r := purge r now_ms in
  match bt_get relay_id (relays r) with
  | None => (r, false)
  | Some relay =>
      (set_relays r (bt_insert relay_id
                       (mkRelayLease (rl_advertisement relay) (sat_add U64_MAX now_ms (lease_ms r))) (relays r)),
       true)
  end.

(** [format!("{:016x}", n)] for a [u64] *)
Definition hex_digit (n : Z) : Z := if n <? 10 then 48 + n else 87 + n.
Fixpoint hex_fixed (digits : nat) (n : Z) : list Z :=
  match digits with
  | O => []
  | S digits => hex_fixed digits (n / 16) ++ [hex_digit (n mod 16)]
  end.

Definition queue_assignment (r : Registry) (now_ms : Z) (provider : PeerAdvertisement)
  (relay : RelayAdvertisement) (prefix : list Z) : Registry * option RouteAssignment :=
  let queue := default [] (assignments r !! pa_peer_id provider) in
  let r := set_assignments r (<[pa_peer_id provider := queue]> (assignments r)) in
  if len queue >=? max_assignments_per_peer (limits r) then (r, None)
  else
    let r := set_next_route r ((next_route r + 1) mod (U64_MAX + 1)) in
    let assignment :=
      mkRouteAssignment (pa_peer_id provider) (pa_public_key provider) (ra_relay_id relay)
        (ra_address relay) (prefix ++ str "-" ++ hex_fixed 16 (next_route r)) in
    (set_assignments r
       (<[pa_peer_id provider :=
            queue ++ [mkQueuedAssignment assignment (sat_add U64_MAX now_ms (lease_ms r))]]> (assignments r)),
     Some assignment).

(** [content_ids.contains(&content_id)] *)
Definition offers (content_id : ContentId) (peer : PeerLease) : bool :=
  bool_decide (content_id ∈ pa_content_ids (pl_advertisement peer)).

Definition discover (r : Registry) (now_ms : Z) (content_id : ContentId) : Registry * option RouteAssignment :=
  let r := purge r now_ms in
  match List.find (offers content_id) (bt_values (peers r)) with
  | None => (r, None)
  | Some provider =>
      match bt_values (relays r) with
      | [] => (r, None)
      | relay :: _ => queue_assignment r now_ms (pl_advertisement provider) (rl_advertisement relay) (str "m2")
      end
  end.

(** [enumerate().filter_map(..)] over the providers, updating the registry. *)
Fixpoint queue_providers (r : Registry) (now_ms : Z) (relays : list RelayAdvertisement)
  (providers : list (Z * PeerAdvertisement)) : Registry * list RouteAssignment :=
  match providers with
  | [] => (r, [])
  | (index, provider) :: providers =>
      match get relays (index mod len relays) with
      | None => (r, [])  (* [relays[i]] of a non-empty slice is in range *)
      | Some relay =>
          let '(r, a) := queue_assignment r now_ms provider relay (str "m4") in
          let '(r, l) := queue_providers r now_ms relays providers in
          (r, match a with Some a => a :: l | None => l end)
      end
  end.

Definition swarm_capable (peer : PeerLease) : bool :=
  bool_decide (SwarmTransferV1 ∈ pa_capabilities (pl_advertisement peer)).

Definition discover_providers (r : Registry) (now_ms : Z) (content_id : ContentId) (limit : Z)
  : Registry * list RouteAssignment :=
  let r := purge r now_ms in
  let providers :=
    map pl_advertisement
      (take (Z.to_nat limit)
         (List.filter (fun peer => offers content_id peer && swarm_capable peer) (bt_values (peers r)))) in
  let relays := map rl_advertisement (bt_values (relays r)) in
  if bool_decide (relays = []) then (r, [])
  else queue_providers r now_ms relays (enumerate providers).

(** [while let Some(queued) = queue.pop_front() { if .. { return .. } }] *)
Fixpoint pop_valid (relays : list (list Z * RelayLease)) (now_ms : Z) (queue : list QueuedAssignment)
  : list QueuedAssignment * option RouteAssignment :=
  match queue with
  | [] => ([], None)
  | queued :: queue =>
      if keep_assignment relays now_ms queued then (queue, Some (qa_assignment queued))
      else pop_valid relays now_ms queue
  end.

Definition poll_peer (r : Registry) (now_ms : Z) (peer_id : PeerId) : Registry * option RouteAssignment :=
  match heartbeat_peer r now_ms peer_id with
  | (r, false) => (r, None)
  | (r, true) =>
      match assignments r !! peer_id with
      | None => (r, None)
      | Some queue =>
          let '(queue, a) := pop_valid (relays r) now_ms queue in
          (set_assignments r (<[peer_id := queue]> (assignments r)), a)
      end
  end.

Definition report_relay_failure (r : Registry) (failed : list Z) : Registry :=
  let r := set_relays r (bt_remove failed (relays r)) in
  set_assignments r
    (List.filter (fun queued => negb (bool_decide (relay_id (qa_assignment queued) = failed)))
       <$> assignments r).

Definition snapshot (r : Registry) (now_ms : Z) : Registry * OverlaySnapshot :=
  let r := purge r now_ms in
  (r, mkOverlaySnapshot (len (peers r)) (len (relays r))
        (sum (fun peer => len (pa_content_ids (pl_advertisement peer))) (bt_values (peers r)))
        (expired_peers r) (expired_relays r) (expired_routes r)).

(** ** Service *)

Definition handle_request `{Blake3} (r : Registry) (now_ms : Z) (request : OverlayRequest)
  : Registry * OverlayResponse :=
  match request with
  | RegisterPeer peer =>
      match register_peer r now_ms peer with
      | (r, Ok _) => (r, Registered (lease_ms r))
      | (r, Err e) => (r, RError (RegistryError_to_string e))
      end
  | HeartbeatPeer peer_id =>
      match heartbeat_peer r now_ms peer_id with
      | (r, true) => (r, Registered (lease_ms r))
      | (r, false) => (r, RError (str "peer lease is not registered"))
      end
  | PollPeer peer_id =>
      match heartbeat_peer r now_ms peer_id with
      | (r, true) => let '(r, a) := poll_peer r now_ms peer_id in (r, Assignment a)
      | (r, false) => (r, RError (str "peer lease is not registered"))
      end
  | RegisterRelay relay =>
      match register_relay r now_ms relay with
      | (r, Ok _) => (r, Registered (lease_ms r))
      | (r, Err e) => (r, RError (RegistryError_to_string e))
      end
  | HeartbeatRelay relay_id =>
      match heartbeat_relay r now_ms relay_id with
      | (r, true) => (r, Registered (lease_ms r))
      | (r, false) => (r, RError (str "relay lease is not registered"))
      end
  | Discover content_id => let '(r, a) := discover r now_ms content_id in (r, Route a)
  | DiscoverProviders content_id limit =>
      let '(r, l) := discover_providers r now_ms content_id (Z.min limit 16) in (r, Routes l)
  | ReportRelayFailure relay_id => (report_relay_failure r relay_id, Acknowledged)
  | Health => (r, Acknowledged)
  end.

Definition request_name (request : OverlayRequest) : list Z :=
  match request with
  | RegisterPeer _ => str "peer_registered"
  | HeartbeatPeer _ => str "peer_heartbeat"
  | PollPeer _ => str "peer_poll"
  | RegisterRelay _ => str "relay_registered"
  | HeartbeatRelay _ => str "relay_heartbeat"
  | Discover _ | DiscoverProviders _ _ => str "discovery"
  | ReportRelayFailure _ => str "relay_failure_reported"
  | Health => str "health"
  end.

Inductive OverlayError :=
| OverlayIo (e : IoError)
| OverlayProtocol (e : ProtocolError)
| ConnectionClosed
| UnexpectedResponse
| Remote (message : list Z)
| StatePoisoned.

(** [handle_connection] on an open socket; the metric line is not modelled. *)
Definition handle_connection `{Blake3} (stream : TcpStream) (r : Registry) (now_ms : Z)
  : TcpStream * Registry * result OverlayError unit :=
  let '(inc, frame) := control_read_frame (incoming stream) in
  let stream := mkTcpStream inc (outgoing stream) in
  match frame with
  | Err e => (stream, r, Err (OverlayIo e))
  | Ok None => (stream, r, Err ConnectionClosed)
  | Ok (Some frame) =>
      match decode_overlay_request frame with
      | Err e => (stream, r, Err (OverlayProtocol e))
      | Ok request =>
          let '(r, response) := handle_request r now_ms request in
          let '(r, _) := snapshot r now_ms in
          match encode_overlay_response response with
          | Err e => (stream, r, Err (OverlayProtocol e))
          | Ok encoded =>
              let '(out, w) := control_write_frame encoded (outgoing stream) in
              (mkTcpStream (incoming stream) out, r, map_err OverlayIo w)
          end
      end
  end.

(** [BootstrapClient::request], in its two halves on a connected socket: what it
    sends, and what it makes of the bytes that come back. *)
Definition client_send `{Blake3} (request : OverlayRequest) (out : Sink) : Sink * result OverlayError unit :=
  match encode_overlay_request request with
  | Err e => (out, Err (OverlayProtocol e))
  | Ok encoded => let '(out, w) := control_write_frame encoded out in (out, map_err OverlayIo w)
  end.

Definition client_receive (inc : Source) : result OverlayError OverlayResponse :=
  match (control_read_frame inc).2 with
  | Err e => Err (OverlayIo e)
  | Ok None => Err ConnectionClosed
  | Ok (Some response) => map_err OverlayProtocol (decode_overlay_response response)
  end.

Definition expect_registered (response : OverlayResponse) : result OverlayError Z :=
  match response with
  | Registered lease_ms => Ok lease_ms
  | RError message => Err (Remote message)
  | _ => Err UnexpectedResponse
  end.

(** The response each client operation expects. *)
Definition expect_assignment (response : OverlayResponse) : result OverlayError (option RouteAssignment) :=
  match response with
  | Assignment assignment => Ok assignment
  | RError message => Err (Remote message)
  | _ => Err UnexpectedResponse
  end.
Definition expect_route (response : OverlayResponse) : result OverlayError (option RouteAssignment) :=
  match response with
  | Route route => Ok route
  | RError message => Err (Remote message)
  | _ => Err UnexpectedResponse
  end.
Definition expect_routes (response : OverlayResponse) : result OverlayError (list RouteAssignment) :=
  match response with
  | Routes routes => Ok routes
  | RError message => Err (Remote message)
  | _ => Err UnexpectedResponse
  end.
Definition expect_acknowledged (response : OverlayResponse) : result OverlayError unit :=
  match response with
  | Acknowledged => Ok tt
  | RError message => Err (Remote message)
  | _ => Err UnexpectedResponse
  end.

(** [u64::try_from(millis).unwrap_or(u64::MAX)] *)
Definition elapsed_ms (millis : Z) : Z := default U64_MAX (try_from U64_MAX millis).

(** ** Simulation *)

Record Simulation := mkSimulation {
  now_ms : Z;
  registry : Registry
}.

Definition Simulation_new (lease_ms : Z) : Simulation := mkSimulation 0 (Registry_new lease_ms).

Definition advance (s : Simulation) (milliseconds : Z) : Simulation :=
  mkSimulation (sat_add U64_MAX (now_ms s) milliseconds) (registry s).

(** The operations of [Simulation]: the registry's, at the simulated time. *)
Definition sim_register_peer `{Blake3} (s : Simulation) (a : PeerAdvertisement) : Simulation * result RegistryError unit :=
  let '(r, x) := register_peer (registry s) (now_ms s) a in (mkSimulation (now_ms s) r, x).
Definition sim_register_relay (s : Simulation) (a : RelayAdvertisement) : Simulation * result RegistryError unit :=
  let '(r, x) := register_relay (registry s) (now_ms s) a in (mkSimulation (now_ms s) r, x).
Definition sim_discover (s : Simulation) (c : ContentId) : Simulation * option RouteAssignment :=
  let '(r, x) := discover (registry s) (now_ms s) c in (mkSimulation (now_ms s) r, x).
Definition sim_fail_relay (s : Simulation) (id : list Z) : Simulation :=
  mkSimulation (now_ms s) (report_relay_failure (registry s) id).
Definition sim_snapshot (s : Simulation) : Simulation * OverlaySnapshot :=
  let '(r, x) := snapshot (registry s) (now_ms s) in (mkSimulation (now_ms s) r, x).
