(* ===== verification/OverlayFacts.v ===== *)
(** * OverlayFacts: the bootstrap registry keeps its promises

    Theorems about Overlay.v: the registry invariant is preserved by every
    request; the remote procedure call between client and service returns exactly
    the answer of the registry; the contracts of [discover], [discover_providers]
    and [poll_peer]. *)
From stdpp Require Import base tactics list numbers option gmap.
From Stdlib Require Import ZArith Lia Sorting.Sorted.
From S2P Require Import Prelude Bytes BTree Instances NetAddr Core Wire WireFacts Frame Overlay.
Import stdpp.list.

Local Open Scope Z_scope.

(** ** The invariant *)

(** An assignment the wire format can carry. *)
Definition assignment_valid (a : RouteAssignment) : Prop :=
  assignment_ok a /\ validate_assignment a = Ok tt.

Definition peer_entry_ok `{Blake3} (maximum : Z) (e : list Z * PeerLease) : Prop :=
  let a := pl_advertisement e.2 in
  pa_peer_id a = e.1 /\ peer_ok a /\ pa_peer_id a = PeerId_from_public_key (pa_public_key a)
  /\ pa_content_ids a <> [] /\ len (pa_content_ids a) <= maximum /\ NoDup (pa_content_ids a).

Definition relay_entry_ok (e : list Z * RelayLease) : Prop :=
  let a := rl_advertisement e.2 in
  ra_relay_id a = e.1 /\ valid_identifier (ra_relay_id a) 64 = true /\ string_ok (ra_address a)
  /\ len (ra_address a) <= 128 /\ bad_address (ra_address a) = false.

Definition queue_ok (maximum : Z) (id : list Z) (queue : list QueuedAssignment) : Prop :=
  len queue <= maximum
  /\ Forall (fun q => provider_id (qa_assignment q) = id /\ assignment_valid (qa_assignment q)) queue.

Record registry_inv `{Blake3} (r : Registry) : Prop := {
  inv_lease : 1 <= lease_ms r <= U64_MAX;
  inv_max_assignments : 0 <= max_assignments_per_peer (limits r);
  inv_peers_sorted : bt_ok (peers r);
  inv_relays_sorted : bt_ok (relays r);
  inv_peers_max : len (peers r) <= Z.max 0 (max_peers (limits r));
  inv_relays_max : len (relays r) <= Z.max 0 (max_relays (limits r));
  inv_peers : Forall (peer_entry_ok (max_content_ids_per_peer (limits r))) (peers r);
  inv_relays : Forall relay_entry_ok (relays r);
  inv_queues : forall id queue, assignments r !! id = Some queue ->
                 queue_ok (max_assignments_per_peer (limits r)) id queue;
  inv_next_route : 0 <= next_route r <= U64_MAX
}.

(** Leases that have not expired at [now]. *)
Definition live_peer (r : Registry) (now : Z) (id : list Z) (p : PeerLease) : Prop :=
  bt_get id (peers r) = Some p /\ now < pl_expires_at p.
Definition live_relay (r : Registry) (now : Z) (id : list Z) (l : RelayLease) : Prop :=
  bt_get id (relays r) = Some l /\ now < rl_expires_at l.

Section RegistryFacts.
Context `{Blake3}.
Implicit Types (r : Registry).

(** ** Expiry *)

Lemma Forall_filter {A} (P : A -> Prop) (f : A -> bool) l : Forall P l -> Forall P (List.filter f l).
Proof. induction 1; simpl; [constructor|]. destruct (f x); [by constructor|done]. Qed.

Lemma purge_live_peer r now id p :
  registry_inv r -> bt_get id (peers (purge r now)) = Some p <-> live_peer r now id p.
Proof.
  intros Hinv. unfold purge, live_peer. cbn [peers]. rewrite bt_get_retain_Some by apply Hinv.
  by rewrite Z.gtb_lt.
Qed.

Lemma purge_live_relay r now id l :
  registry_inv r -> bt_get id (relays (purge r now)) = Some l <-> live_relay r now id l.
Proof.
  intros Hinv. unfold purge, live_relay. cbn [relays]. rewrite bt_get_retain_Some by apply Hinv.
  by rewrite Z.gtb_lt.
Qed.

(** What [purge] leaves of a queue. *)
Lemma purge_queue r now id queue :
  assignments (purge r now) !! id = Some queue <->
  exists q, assignments r !! id = Some q /\ bt_contains id (peers (purge r now)) = true
    /\ queue = List.filter (keep_assignment (relays (purge r now)) now) q /\ queue <> [].
Proof.
  unfold purge. cbn [assignments peers relays]. rewrite map_lookup_imap.
  destruct (assignments r !! id) as [q|]; simpl; [|naive_solver].
  destruct (bt_contains id _) eqn:Hc; simpl; [|naive_solver].
  case_bool_decide; naive_solver.
Qed.

Lemma purge_inv r now : registry_inv r -> registry_inv (purge r now).
Proof.
  intros Hinv. split; try (by apply Hinv).
  - apply bt_ok_retain, Hinv.
  - apply bt_ok_retain, Hinv.
  - pose proof (inv_peers_max _ Hinv). etrans; [apply len_filter_le|done].
  - pose proof (inv_relays_max _ Hinv). etrans; [apply len_filter_le|done].
  - apply Forall_filter, Hinv.
  - apply Forall_filter, Hinv.
  - intros id queue. rewrite purge_queue. intros (q & Hq & _ & -> & _).
    destruct (inv_queues _ Hinv id q Hq) as [Hl HF]. split; [|by apply Forall_filter].
    etrans; [apply len_filter_le|done].
Qed.

(** ** Registration and heartbeats *)

Lemma bt_insert_max {V} k (v : V) m maximum :
  bt_ok m -> len m <= Z.max 0 maximum ->
  negb (bt_contains k m) && (len m >=? maximum) = false ->
  len (bt_insert k v m) <= Z.max 0 maximum.
Proof.
  intros Hm Hl Hg. rewrite len_bt_insert by done. destruct (bt_contains k m); simpl in *; [lia|].
  rewrite Z.geb_leb in Hg. apply Z.leb_gt in Hg. lia.
Qed.

Lemma set_peers_inv r k p :
  registry_inv r -> peer_entry_ok (max_content_ids_per_peer (limits r)) (k, p) ->
  negb (bt_contains k (peers r)) && (len (peers r) >=? max_peers (limits r)) = false ->
  registry_inv (set_peers r (bt_insert k p (peers r))).
Proof.
  intros Hinv He Hg. split; cbn [set_peers lease_ms limits peers relays assignments next_route];
    try (by apply Hinv).
  - apply bt_ok_insert, Hinv.
  - apply bt_insert_max; [apply Hinv..|done].
  - apply bt_insert_Forall; [done|apply Hinv].
Qed.

Lemma set_relays_inv r k l :
  registry_inv r -> relay_entry_ok (k, l) ->
  negb (bt_contains k (relays r)) && (len (relays r) >=? max_relays (limits r)) = false ->
  registry_inv (set_relays r (bt_insert k l (relays r))).
Proof.
  intros Hinv He Hg. split; cbn [set_relays lease_ms limits peers relays assignments next_route];
    try (by apply Hinv).
  - apply bt_ok_insert, Hinv.
  - apply bt_insert_max; [apply Hinv..|done].
  - apply bt_insert_Forall; [done|apply Hinv].
Qed.

Lemma remove_dups_full (l : list (list Z)) : len (remove_dups l) = len l -> NoDup l.
Proof.
  assert (forall l : list (list Z), len (remove_dups l) <= len l) as Hle.
  { induction l0 as [|x l0 IH]; simpl; [done|]. case_decide; len_lia. }
  induction l as [|x l IH]; simpl; [constructor|]. case_decide.
  - specialize (Hle l). len_lia.
  - rewrite !len_cons. intros Hl. constructor; [done|]. apply IH. lia.
Qed.

Lemma register_peer_inv r now a :
  registry_inv r -> peer_ok a -> registry_inv (register_peer r now a).1.
Proof.
  intros Hinv Hok. pose proof (purge_inv r now Hinv) as Hp. unfold register_peer.
  destruct (bool_decide_reflect (pa_peer_id a = PeerId_from_public_key (pa_public_key a))) as [Hid|]; cbn [negb]; [|done].
  destruct (bool_decide_reflect (pa_content_ids a = [])); cbn [negb]; [done|].
  destruct (Z.gtb_spec (len (pa_content_ids a)) (max_content_ids_per_peer (limits r))); cbn [negb]; [done|].
  destruct (Z.eqb_spec (len (remove_dups (pa_content_ids a))) (len (pa_content_ids a))) as [Hd|]; cbn [negb]; [|done].
  destruct (any _ _); cbn [negb]; [|done].
  cbn zeta. destruct (negb (bt_contains (pa_peer_id a) (peers (purge r now))) && _) eqn:Hg; [done|]. cbn [fst].
  apply set_peers_inv; [done| |done]. split_and!; try done. by apply remove_dups_full.
Qed.

Lemma bt_get_contains {V} k (m : list (list Z * V)) v b : bt_get k m = Some v -> negb (bt_contains k m) && b = false.
Proof. intros Hg. unfold bt_contains. by rewrite Hg. Qed.

Lemma heartbeat_peer_inv r now id : registry_inv r -> registry_inv (heartbeat_peer r now id).1.
Proof.
  intros Hinv. pose proof (purge_inv r now Hinv) as Hp. unfold heartbeat_peer.
  destruct (bt_get id (peers (purge r now))) as [p|] eqn:E; [|done]. cbn [fst].
  apply set_peers_inv; [done| |by eapply bt_get_contains].
  apply bt_get_elem in E. by apply (proj1 (Forall_forall _ _) (inv_peers _ Hp) _ E).
Qed.

Lemma validate_relay_id_valid id : validate_relay_id id = Ok tt -> valid_identifier id 64 = true.
Proof.
  unfold validate_relay_id, valid_identifier.
  destruct (bool_decide_reflect (id = [])); simpl; [done|].
  destruct (Z.gtb_spec (len id) 64); simpl; [done|].
  destruct (all is_ident_byte id); simpl; [|done]. intros _.
  rewrite andb_true_r. by apply Z.leb_le.
Qed.

Lemma register_relay_inv r now a :
  registry_inv r -> string_ok (ra_address a) -> len (ra_address a) <= 128 ->
  registry_inv (register_relay r now a).1.
Proof.
  intros Hinv Hs Hl. pose proof (purge_inv r now Hinv) as Hp. unfold register_relay.
  destruct (validate_relay_id (ra_relay_id a)) as [[]|] eqn:Hv; [|done].
  destruct (bool_decide _) eqn:Ha; [done|].
  cbn zeta. destruct (negb (bt_contains (ra_relay_id a) (relays (purge r now))) && _) eqn:Hg; [done|]. cbn [fst].
  apply set_relays_inv; [done| |done]. split_and!; try done. by apply validate_relay_id_valid.
Qed.

Lemma heartbeat_relay_inv r now id : registry_inv r -> registry_inv (heartbeat_relay r now id).1.
Proof.
  intros Hinv. pose proof (purge_inv r now Hinv) as Hp. unfold heartbeat_relay.
  destruct (bt_get id (relays (purge r now))) as [p|] eqn:E; [|done]. cbn [fst].
  apply set_relays_inv; [done| |by eapply bt_get_contains].
  apply bt_get_elem in E. by apply (proj1 (Forall_forall _ _) (inv_relays _ Hp) _ E).
Qed.

(** ** Route names *)

Lemma length_hex_fixed d n : length (hex_fixed d n) = d.
Proof. revert n. induction d as [|d IH]; intros n; simpl; [done|]. rewrite length_app, IH. simpl. lia. Qed.

Lemma hex_digit_ident n : 0 <= n < 16 -> is_ident_byte (hex_digit n) = true.
Proof.
  intros Hn. unfold is_ident_byte, is_ascii_alphanumeric, in_range, hex_digit.
  destruct (Z.ltb_spec n 10); lia.
Qed.

Lemma hex_fixed_ident d n : all is_ident_byte (hex_fixed d n) = true.
Proof.
  revert n. induction d as [|d IH]; intros n; simpl; [done|]. rewrite forallb_app, IH. simpl.
  by rewrite hex_digit_ident by (apply Z.mod_pos_bound; lia).
Qed.

Lemma hex_digit_inj a b : 0 <= a < 16 -> 0 <= b < 16 -> hex_digit a = hex_digit b -> a = b.
Proof. unfold hex_digit. intros Ha Hb. destruct (Z.ltb_spec a 10), (Z.ltb_spec b 10); lia. Qed.

(** Different counters give different names. *)
Lemma hex_fixed_inj d a b :
  0 <= a < 16 ^ Z.of_nat d -> 0 <= b < 16 ^ Z.of_nat d -> hex_fixed d a = hex_fixed d b -> a = b.
Proof.
  revert a b. induction d as [|d IH]; intros a b Ha Hb; [simpl in *; lia|].
  rewrite Nat2Z.inj_succ, Z.pow_succ_r in Ha, Hb by lia. simpl.
  intros [H1 H2]%app_inj_tail.
  apply IH in H1; [|split; [apply Z.div_pos|apply Z.div_lt_upper_bound]; lia..].
  apply hex_digit_inj in H2; [|apply Z.mod_pos_bound; lia..].
  rewrite (Z.div_mod a 16), (Z.div_mod b 16) by lia. congruence.
Qed.

Lemma route_name_valid prefix n :
  prefix = str "m2" \/ prefix = str "m4" ->
  valid_identifier (prefix ++ str "-" ++ hex_fixed 16 n) 128 = true.
Proof.
  intros Hp. unfold valid_identifier.
  assert (all is_ident_byte (prefix ++ str "-" ++ hex_fixed 16 n) = true) as ->.
  { rewrite !forallb_app, hex_fixed_ident. by destruct Hp as [-> | ->]. }
  assert (len (prefix ++ str "-" ++ hex_fixed 16 n) = 19) as ->.
  { rewrite !len_app. unfold len at 3. rewrite length_hex_fixed. by destruct Hp as [-> | ->]. }
  rewrite bool_decide_eq_false_2; [done|]. by destruct Hp as [-> | ->].
Qed.

(** ** Queueing an assignment *)

Definition the_assignment (p : PeerAdvertisement) (l : RelayAdvertisement) (prefix : list Z) (n : Z) : RouteAssignment :=
  mkRouteAssignment (pa_peer_id p) (pa_public_key p) (ra_relay_id l) (ra_address l)
    (prefix ++ str "-" ++ hex_fixed 16 n).

Definition successor (n : Z) : Z := (n + 1) mod (U64_MAX + 1).

Lemma successor_range n : 0 <= successor n <= U64_MAX.
Proof. unfold successor. pose proof (Z.mod_pos_bound (n + 1) (U64_MAX + 1) ltac:(done)). lia. Qed.

Lemma queue_assignment_cases r now p l prefix :
  let q := default [] (assignments r !! pa_peer_id p) in
  queue_assignment r now p l prefix
  = if len q >=? max_assignments_per_peer (limits r)
    then (set_assignments r (<[pa_peer_id p := q]> (assignments r)), None)
    else
      let a := the_assignment p l prefix (successor (next_route r)) in
      (set_assignments (set_next_route r (successor (next_route r)))
         (<[pa_peer_id p := q ++ [mkQueuedAssignment a (sat_add U64_MAX now (lease_ms r))]]> (assignments r)),
       Some a).
Proof.
  cbn zeta. unfold queue_assignment. cbn [set_assignments limits].
  destruct (_ >=? _); [done|]. unfold set_assignments, set_next_route. cbn. by rewrite insert_insert_eq.
Qed.

Lemma the_assignment_valid p l prefix n k lk maximum :
  peer_entry_ok maximum (k, p) -> relay_entry_ok (lk, l) -> prefix = str "m2" \/ prefix = str "m4" ->
  assignment_valid (the_assignment (pl_advertisement p) (rl_advertisement l) prefix n).
Proof.
  intros (_ & (Hid & Hpk & _) & _) (_ & Hri & Hra & Hal & Hba) Hp. cbn [snd] in *.
  pose proof (route_name_valid prefix n Hp) as Hv.
  split.
  - split_and!; [done|done| |done|]; cbn [the_assignment relay_id route].
    + by apply (valid_identifier_bounds _ 64).
    + by apply (valid_identifier_bounds _ 128).
  - unfold validate_assignment, the_assignment. cbn [relay_id relay_address route].
    rewrite Hri, Hba, Hv. destruct (Z.gtb_spec (len (ra_address (rl_advertisement l))) 128); [lia|done].
Qed.

Lemma queue_assignment_inv r now k p lk l prefix :
  registry_inv r -> peer_entry_ok (max_content_ids_per_peer (limits r)) (k, p) -> relay_entry_ok (lk, l) ->
  prefix = str "m2" \/ prefix = str "m4" ->
  registry_inv (queue_assignment r now (pl_advertisement p) (rl_advertisement l) prefix).1.
Proof.
  intros Hinv Hp Hl Hpre. rewrite queue_assignment_cases. cbn zeta.
  set (id := pa_peer_id (pl_advertisement p)). set (q := default [] (assignments r !! id)).
  assert (queue_ok (max_assignments_per_peer (limits r)) id q) as Hq.
  { unfold q. destruct (assignments r !! id) as [q0|] eqn:E; [by apply (inv_queues _ Hinv)|].
    split; [apply Hinv|constructor]. }
  pose proof (the_assignment_valid _ _ _ (successor (next_route r)) _ _ _ Hp Hl Hpre) as Hv.
  destruct (Z.geb_spec (len q) (max_assignments_per_peer (limits r))) as [Hge|Hlt]; cbn [fst];
    split; cbn [set_assignments set_next_route lease_ms limits peers relays assignments next_route];
    try (by apply Hinv); try apply successor_range.
  - intros i x [[<- <-]|[_ Hx]]%lookup_insert_Some; [done|by apply (inv_queues _ Hinv)].
  - intros i x [[<- <-]|[_ Hx]]%lookup_insert_Some; [|by apply (inv_queues _ Hinv)].
    destruct Hq as [_ HF]. split; [len_lia|]. apply Forall_app. split; [done|]. by repeat constructor; apply Hv.
Qed.

(** ** Discovery *)

Lemma bt_values_entry {V} (m : list (list Z * V)) v : v ∈ bt_values m -> exists k, (k, v) ∈ m.
Proof.
  unfold bt_values. rewrite list_elem_of_In, in_map_iff. intros ([k v'] & <- & Hin).
  exists k. by apply list_elem_of_In.
Qed.

Lemma values_peer r p :
  registry_inv r -> p ∈ bt_values (peers r) ->
  exists k, bt_get k (peers r) = Some p /\ peer_entry_ok (max_content_ids_per_peer (limits r)) (k, p).
Proof.
  intros Hinv [k Hk]%bt_values_entry. exists k. split; [by apply bt_elem_get; [apply Hinv|]|].
  by apply (proj1 (Forall_forall _ _) (inv_peers _ Hinv) _ Hk).
Qed.

Lemma values_relay r l :
  registry_inv r -> l ∈ bt_values (relays r) ->
  exists k, bt_get k (relays r) = Some l /\ relay_entry_ok (k, l).
Proof.
  intros Hinv [k Hk]%bt_values_entry. exists k. split; [by apply bt_elem_get; [apply Hinv|]|].
  by apply (proj1 (Forall_forall _ _) (inv_relays _ Hinv) _ Hk).
Qed.

Lemma discover_inv r now c : registry_inv r -> registry_inv (discover r now c).1.
Proof.
  intros Hinv. pose proof (purge_inv r now Hinv) as Hp. unfold discover. cbn zeta.
  destruct (List.find _ _) as [p|] eqn:Ef; [|done].
  destruct (bt_values (relays (purge r now))) as [|l ls] eqn:El; [done|].
  apply find_some in Ef as [Hin _]. apply list_elem_of_In, (values_peer _ _ Hp) in Hin as (k & _ & He).
  destruct (values_relay (purge r now) l Hp) as (lk & _ & Hl); [rewrite El; left|].
  eapply queue_assignment_inv; [done|done|done|by left].
Qed.

Lemma queue_assignment_limits r now p l prefix : limits (queue_assignment r now p l prefix).1 = limits r.
Proof. rewrite queue_assignment_cases. cbn zeta. by destruct (_ >=? _). Qed.

(** The peers and relays that [discover_providers] collects. *)
Definition known_providers r (ps : list (Z * PeerAdvertisement)) : Prop :=
  Forall (fun x => exists k p, x.2 = pl_advertisement p
                   /\ peer_entry_ok (max_content_ids_per_peer (limits r)) (k, p)) ps.
Definition known_relays (ls : list RelayAdvertisement) : Prop :=
  Forall (fun x => exists k l, x = rl_advertisement l /\ relay_entry_ok (k, l)) ls.

Lemma queue_providers_inv r now ls ps :
  registry_inv r -> known_relays ls -> known_providers r ps ->
  registry_inv (queue_providers r now ls ps).1
  /\ Forall assignment_valid (queue_providers r now ls ps).2
  /\ len (queue_providers r now ls ps).2 <= len ps.
Proof.
  revert r. induction ps as [|[i pa] ps IH]; intros r Hinv Hls Hps; simpl; [done|].
  apply Forall_cons_iff in Hps as [(k & p & Hpa & Hp) Hps]. simpl in Hpa. subst pa.
  destruct (get ls (i mod len ls)) as [la|] eqn:Eg; [|split_and!; [done|constructor|len_lia]].
  apply get_elem, (proj1 (Forall_forall _ _) Hls) in Eg as (lk & l & -> & Hl).
  pose proof (queue_assignment_inv r now k p lk l (str "m4") Hinv Hp Hl ltac:(by right)) as Hinv'.
  pose proof (queue_assignment_limits r now (pl_advertisement p) (rl_advertisement l) (str "m4")) as Hlim.
  pose proof (queue_assignment_cases r now (pl_advertisement p) (rl_advertisement l) (str "m4")) as Hc.
  cbn zeta in Hc. destruct (queue_assignment r now _ _ _) as [r1 a] eqn:E1. cbn [fst] in *.
  assert (match a with Some a => assignment_valid a | None => True end) as Ha.
  { destruct (_ >=? _) in Hc; simplify_eq; [done|]. by eapply the_assignment_valid; [..|right]. }
  destruct (IH r1 Hinv' Hls) as (H1 & H2 & H3); [unfold known_providers in *; by rewrite Hlim|].
  destruct (queue_providers r1 now ls ps) as [r2 out] eqn:E2. cbn [fst snd] in *.
  split_and!; [done| |]; destruct a; [by constructor|done|len_lia|len_lia].
Qed.

Lemma discover_providers_inv r now c limit :
  registry_inv r -> 0 <= limit ->
  registry_inv (discover_providers r now c limit).1
  /\ Forall assignment_valid (discover_providers r now c limit).2
  /\ len (discover_providers r now c limit).2 <= limit.
Proof.
  intros Hinv Hlim. pose proof (purge_inv r now Hinv) as Hp. unfold discover_providers. cbn zeta.
  case_bool_decide; [split_and!; [done|constructor|done]|].
  set (ps := map pl_advertisement _).
  assert (len (enumerate ps) <= limit) as Hlen.
  { unfold enumerate, ps. autorewrite with len. lia. }
  assert (Forall (fun a => exists k p, a = pl_advertisement p
    /\ peer_entry_ok (max_content_ids_per_peer (limits (purge r now))) (k, p)) ps) as Hps.
  { unfold ps. apply Forall_map, Forall_take, Forall_filter, Forall_forall.
    intros p Hin. apply (values_peer _ _ Hp) in Hin as (k & _ & He). by exists k, p. }
  edestruct (queue_providers_inv (purge r now) now (map rl_advertisement (bt_values (relays (purge r now))))
    (enumerate ps) Hp) as (H1 & H2 & H3).
  - apply Forall_map, Forall_forall. intros l Hin.
    apply (values_relay _ _ Hp) in Hin as (k & _ & He). by exists k, l.
  - apply Forall_forall. intros [i a] Hin. apply get_enumerate in Hin as [Hg _].
    by apply get_elem, (proj1 (Forall_forall _ _) Hps) in Hg.
  - split_and!; [done|done|lia].
Qed.

(** ** Polling, failure reports and the request handler *)

Lemma pop_valid_suffix ls now q q' a :
  pop_valid ls now q = (q', a) ->
  (exists pre, q = pre ++ q') /\ (forall x, a = Some x -> exists y, y ∈ q /\ x = qa_assignment y).
Proof.
  revert q' a. induction q as [|x q IH]; intros q' a; simpl.
  { intros [= <- <-]. split; [by exists []|done]. }
  destruct (keep_assignment ls now x).
  - intros [= <- <-]. split; [by exists [x]|]. intros y [= <-]. exists x. split; [left|done].
  - intros E. destruct (IH _ _ E) as [[pre ->] Hy]. split; [by exists (x :: pre)|].
    intros z Hz. destruct (Hy z Hz) as (y & Hin & ->). exists y. split; [by right|done].
Qed.

Lemma pop_valid_kept ls now q :
  Forall (fun x => keep_assignment ls now x = true) q ->
  pop_valid ls now q = (tail q, qa_assignment <$> head q).
Proof. intros Hq. destruct Hq as [|x q Hx _]; simpl; [done|]. by rewrite Hx. Qed.

Lemma set_queue_inv r id q q0 :
  registry_inv r -> assignments r !! id = Some q0 -> (exists pre, q0 = pre ++ q) ->
  registry_inv (set_assignments r (<[id := q]> (assignments r))).
Proof.
  intros Hinv Hq [pre ->]. destruct (inv_queues _ Hinv id _ Hq) as [Hl HF].
  split; cbn [set_assignments lease_ms limits peers relays assignments next_route]; try (by apply Hinv).
  intros i x [[<- <-]|[_ Hx]]%lookup_insert_Some; [|by apply (inv_queues _ Hinv)].
  apply Forall_app in HF as [_ HF]. split; [len_lia|done].
Qed.

Lemma poll_peer_inv r now id :
  registry_inv r -> registry_inv (poll_peer r now id).1
  /\ (forall a, (poll_peer r now id).2 = Some a -> assignment_valid a).
Proof.
  intros Hinv. pose proof (heartbeat_peer_inv r now id Hinv) as Hh. unfold poll_peer.
  destruct (heartbeat_peer r now id) as [r1 []]; [|done]. cbn [fst] in Hh.
  destruct (assignments r1 !! id) as [q|] eqn:Eq; [|done].
  destruct (pop_valid (relays r1) now q) as [q' a] eqn:Ep.
  destruct (pop_valid_suffix _ _ _ _ _ Ep) as [Hpre Ha]. cbn [fst snd]. split.
  - by eapply set_queue_inv.
  - intros x Hx. destruct (Ha x Hx) as (y & Hin & ->).
    destruct (inv_queues _ Hh id q Eq) as [_ HF]. by apply (proj1 (Forall_forall _ _) HF y).
Qed.

Lemma report_relay_failure_inv r id : registry_inv r -> registry_inv (report_relay_failure r id).
Proof.
  intros Hinv. split; cbn [report_relay_failure set_assignments set_relays lease_ms limits peers relays assignments
    next_route]; try (by apply Hinv).
  - apply bt_ok_remove, Hinv.
  - pose proof (inv_relays_max _ Hinv). etrans; [apply len_filter_le|done].
  - apply Forall_filter, Hinv.
  - intros i q. rewrite lookup_fmap, fmap_Some. intros (q0 & Hq0 & ->).
    destruct (inv_queues _ Hinv i q0 Hq0) as [Hl HF]. split; [|by apply Forall_filter].
    etrans; [apply len_filter_le|done].
Qed.

(** A request as the service decodes it. *)
Definition request_valid (q : OverlayRequest) : Prop :=
  request_ok q /\ validate_overlay_request q = Ok tt.

Lemma register_relay_bounds a :
  request_valid (RegisterRelay a) -> string_ok (ra_address a) /\ len (ra_address a) <= 128.
Proof.
  intros [[_ Hs] Hv]. split; [done|]. apply valid_request_bounds in Hv. apply Hv.
Qed.

Lemma handle_request_inv r now q :
  registry_inv r -> request_valid q -> registry_inv (handle_request r now q).1.
Proof.
  intros Hinv Hq. destruct q as [p|id|id|a|id|c|c n|id|]; cbn [handle_request].
  - pose proof (register_peer_inv r now p Hinv (proj1 Hq)). by destruct (register_peer r now p) as [? []].
  - pose proof (heartbeat_peer_inv r now id Hinv). by destruct (heartbeat_peer r now id) as [? []].
  - pose proof (heartbeat_peer_inv r now id Hinv) as Hh. destruct (heartbeat_peer r now id) as [r1 []]; [|done].
    pose proof (poll_peer_inv r1 now id Hh) as [Hp _]. by destruct (poll_peer r1 now id).
  - destruct (register_relay_bounds a Hq). pose proof (register_relay_inv r now a Hinv ltac:(done) ltac:(done)).
    by destruct (register_relay r now a) as [? []].
  - pose proof (heartbeat_relay_inv r now id Hinv). by destruct (heartbeat_relay r now id) as [? []].
  - pose proof (discover_inv r now c Hinv). by destruct (discover r now c).
  - destruct Hq as [[_ Hn] _]. destruct (discover_providers_inv r now c (Z.min n 16) Hinv ltac:(lia)) as [Hp _].
    by destruct (discover_providers r now c (Z.min n 16)).
  - by apply report_relay_failure_inv.
  - done.
Qed.

Lemma str_ok s : all (fun b => in_range 0 127 b) (str s) = true -> string_ok (str s).
Proof.
  intros Ha. split; [|apply bytes_ok_str]. apply utf8_valid_ascii. apply all_true in Ha.
  eapply Forall_impl; [exact Ha|]. intros b Hb. unfold in_range in Hb. lia.
Qed.

(** ** Responses can always be encoded *)

Definition response_valid (s : OverlayResponse) : Prop :=
  response_ok s /\ validate_overlay_response s = Ok tt.

Lemma error_response_valid s :
  string_ok s -> len s <= MAX_ERROR_TEXT_BYTES -> response_valid (RError s).
Proof.
  intros Hs Hl. split; [done|]. simpl. destruct (Z.gtb_spec (len s) MAX_ERROR_TEXT_BYTES); [lia|done].
Qed.

Lemma registry_error_valid e : response_valid (RError (RegistryError_to_string e)).
Proof.
  apply error_response_valid; [|by destruct e; vm_compute].
  destruct e; apply str_ok; vm_compute; reflexivity.
Qed.

Lemma lease_response_valid r : registry_inv r -> response_valid (Registered (lease_ms r)).
Proof. intros Hinv. pose proof (inv_lease _ Hinv). split; [simpl; lia|done]. Qed.

Lemma assignment_response_valid a :
  (forall x, a = Some x -> assignment_valid x) ->
  response_valid (Assignment a) /\ response_valid (Route a).
Proof.
  intros Ha. destruct a as [x|]; [|by repeat split]. destruct (Ha x eq_refl) as [Hok Hv].
  split; (split; [exact Hok|exact Hv]).
Qed.

Lemma discover_assignment_valid r now c a :
  registry_inv r -> (discover r now c).2 = Some a -> assignment_valid a.
Proof.
  intros Hinv. pose proof (purge_inv r now Hinv) as Hp. unfold discover. cbn zeta.
  destruct (List.find _ _) as [p|] eqn:Ef; [|done].
  destruct (bt_values (relays (purge r now))) as [|l ls] eqn:El; [done|].
  apply find_some in Ef as [Hin _]. apply list_elem_of_In, (values_peer _ _ Hp) in Hin as (k & _ & He).
  destruct (values_relay (purge r now) l Hp) as (lk & _ & Hl); [rewrite El; left|].
  rewrite queue_assignment_cases. cbn zeta. destruct (_ >=? _); [done|]. cbn [snd]. intros [= <-].
  eapply the_assignment_valid; [done|done|by left].
Qed.

Lemma handle_request_response r now q :
  registry_inv r -> request_valid q -> response_valid (handle_request r now q).2.
Proof.
  intros Hinv Hq. pose proof (handle_request_inv r now q Hinv Hq) as Hinv'. revert Hinv'.
  destruct q as [p|id|id|a|id|c|c n|id|]; cbn [handle_request].
  - destruct (register_peer r now p) as [r1 [[]|e]]; intros; [by apply lease_response_valid|apply registry_error_valid].
  - destruct (heartbeat_peer r now id) as [r1 []]; intros; [by apply lease_response_valid|].
    apply error_response_valid; [apply str_ok; vm_compute; reflexivity|by vm_compute].
  - pose proof (heartbeat_peer_inv r now id Hinv) as Hh. destruct (heartbeat_peer r now id) as [r1 []]; intros _.
    + destruct (poll_peer_inv r1 now id Hh) as [_ Ha]. destruct (poll_peer r1 now id) as [r2 a].
      by apply assignment_response_valid.
    + apply error_response_valid; [apply str_ok; vm_compute; reflexivity|by vm_compute].
  - destruct (register_relay r now a) as [r1 [[]|e]]; intros; [by apply lease_response_valid|apply registry_error_valid].
  - destruct (heartbeat_relay r now id) as [r1 []]; intros; [by apply lease_response_valid|].
    apply error_response_valid; [apply str_ok; vm_compute; reflexivity|by vm_compute].
  - intros _. pose proof (fun x => discover_assignment_valid r now c x Hinv) as Ha.
    destruct (discover r now c) as [r1 a]. by apply assignment_response_valid.
  - intros _. destruct Hq as [[_ Hn] _].
    destruct (discover_providers_inv r now c (Z.min n 16) Hinv ltac:(lia)) as (_ & HF & Hl).
    destruct (discover_providers r now c (Z.min n 16)) as [r1 l]. cbn [snd] in *. split.
    + simpl. eapply Forall_impl; [exact HF|]. by intros ? [].
    + simpl. destruct (Z.gtb_spec (len l) MAX_DISCOVERY_ROUTES); [unfold MAX_DISCOVERY_ROUTES in *; lia|].
      apply try_for_each_Ok. eapply Forall_impl; [exact HF|]. by intros ? [].
  - intros _. by split.
  - intros _. by split.
Qed.
End RegistryFacts.

(** ** Request sequences *)

(** One request as [handle_connection] processes it: the answer, then the
    snapshot for the metric line. *)
Definition serve_request `{Blake3} (r : Registry) (q : Z * OverlayRequest) : Registry :=
  (snapshot (handle_request r q.1 q.2).1 q.1).1.

Definition run_requests `{Blake3} (r : Registry) (qs : list (Z * OverlayRequest)) : Registry :=
  foldl serve_request r qs.

Lemma with_limits_inv `{Blake3} lease l :
  lease <= U64_MAX -> 0 <= max_assignments_per_peer l -> registry_inv (with_limits lease l).
Proof.
  intros Hl Hm. split; cbn [with_limits lease_ms limits peers relays assignments next_route];
    rewrite ?len_nil; try (unfold U64_MAX in *; lia); try apply bt_ok_nil; try constructor.
  all: by rewrite lookup_empty in *.
Qed.

Lemma run_requests_inv `{Blake3} r qs :
  registry_inv r -> Forall (fun q => request_valid q.2) qs -> registry_inv (run_requests r qs).
Proof.
  intros Hinv Hqs. revert r Hinv. induction Hqs as [|[now q] qs Hq _ IH]; intros r Hinv; [done|].
  apply IH. apply purge_inv. by apply handle_request_inv.
Qed.

(** ** Queues and the first entry of a map *)

Section FirstEntry.
Context {V : Type}.
Implicit Types (m : list (list Z * V)).

(** The first value that satisfies a test belongs to the least such key. *)
Lemma find_least (f : V -> bool) m v :
  bt_ok m -> List.find f (bt_values m) = Some v ->
  exists k, bt_get k m = Some v /\ f v = true
    /\ forall k' v', bt_get k' m = Some v' -> f v' = true -> k' = k \/ lex_ltb k k' = true.
Proof.
  intros Hok. unfold bt_values. induction Hok as [|[k x] m Hm IH Hlt]; simpl; [done|].
  destruct (f x) eqn:Ef.
  - intros [= <-]. exists k. rewrite decide_True by done. split_and!; [done|done|].
    intros k' v'. case_decide; [naive_solver|]. intros Hg _. right.
    apply bt_get_elem in Hg. rewrite List.Forall_forall in Hlt. rewrite list_elem_of_In in Hg.
    by apply (Hlt (k', v')).
  - intros Hf. destruct (IH Hf) as (k0 & Hg & Hfv & Hmin). exists k0.
    assert (k0 <> k) as Hne.
    { intros ->. apply bt_get_elem in Hg. rewrite List.Forall_forall in Hlt. rewrite list_elem_of_In in Hg.
      specialize (Hlt _ Hg). unfold key_lt in Hlt. simpl in Hlt. by rewrite lex_irrefl in Hlt. }
    rewrite decide_False by done. split_and!; [done|done|].
    intros k' v'. case_decide; [congruence|]. intros Hg' Hf'. by eapply Hmin.
Qed.

Lemma find_none_all (f : V -> bool) m k v :
  List.find f (bt_values m) = None -> bt_get k m = Some v -> f v = false.
Proof.
  intros Hf Hg. apply bt_get_elem in Hg. apply find_none with (x := v) in Hf; [done|].
  unfold bt_values. apply in_map_iff. exists (k, v). by rewrite <- list_elem_of_In.
Qed.

Lemma find_true_head m v l :
  bt_values m = v :: l -> List.find (fun _ => true) (bt_values m) = Some v.
Proof. by intros ->. Qed.
End FirstEntry.

(** [least P k]: [k] is the least key with [P]. *)
Definition least (P : list Z -> Prop) (k : list Z) : Prop :=
  P k /\ forall k', P k' -> k' = k \/ lex_ltb k k' = true.

(** The live providers of some content, and the live relays. *)
Definition provides (r : Registry) (now : Z) (c : ContentId) (id : list Z) : Prop :=
  exists p, live_peer r now id p /\ c ∈ pa_content_ids (pl_advertisement p).
Definition relays_live (r : Registry) (now : Z) (id : list Z) : Prop := exists l, live_relay r now id l.

Lemma least_provider `{Blake3} r now c p :
  registry_inv r -> List.find (offers c) (bt_values (peers (purge r now))) = Some p ->
  least (provides r now c) (pa_peer_id (pl_advertisement p)) /\ live_peer r now (pa_peer_id (pl_advertisement p)) p.
Proof.
  intros Hinv Hf. pose proof (purge_inv r now Hinv) as Hp.
  destruct (find_least _ _ _ (inv_peers_sorted _ Hp) Hf) as (k & Hg & Ho & Hmin).
  assert (pa_peer_id (pl_advertisement p) = k) as ->.
  { apply bt_get_elem in Hg. by apply (proj1 (Forall_forall _ _) (inv_peers _ Hp) _ Hg). }
  pose proof (proj1 (purge_live_peer r now k p Hinv) Hg) as Hl. split; [|done]. split.
  - exists p. split; [done|]. unfold offers in Ho. by to_prop.
  - intros k' (p' & Hl' & Hc'). apply (Hmin k' p'); [by apply purge_live_peer|].
    unfold offers. by apply bool_decide_eq_true_2.
Qed.

Lemma least_relay `{Blake3} r now l ls :
  registry_inv r -> bt_values (relays (purge r now)) = l :: ls ->
  least (relays_live r now) (ra_relay_id (rl_advertisement l)) /\ live_relay r now (ra_relay_id (rl_advertisement l)) l.
Proof.
  intros Hinv Hv. pose proof (purge_inv r now Hinv) as Hp. apply find_true_head in Hv.
  destruct (find_least _ _ _ (inv_relays_sorted _ Hp) Hv) as (k & Hg & _ & Hmin).
  assert (ra_relay_id (rl_advertisement l) = k) as ->.
  { apply bt_get_elem in Hg. by apply (proj1 (Forall_forall _ _) (inv_relays _ Hp) _ Hg). }
  pose proof (proj1 (purge_live_relay r now k l Hinv) Hg) as Hl. split; [|done]. split.
  - by exists l.
  - intros k' (l' & Hl'). apply (Hmin k' l'); [by apply purge_live_relay|done].
Qed.

(** ** Several providers *)

Lemma successor_add n k : 0 <= k -> successor ((n + k) mod (U64_MAX + 1)) = (n + (k + 1)) mod (U64_MAX + 1).
Proof.
  intros Hk. unfold successor. rewrite Z.add_mod_idemp_l by done. f_equal. lia.
Qed.

(** The entries of [queue_providers]: which providers, which relays, which names. *)
Lemma queue_providers_spec r now ls ps :
  0 <= next_route r <= U64_MAX ->
  let '(r', out) := queue_providers r now ls ps in
  Forall (fun a => exists i p l n, (i, p) ∈ ps /\ l ∈ ls /\ a = the_assignment p l (str "m4") n) out
  /\ sublist (map provider_id out) (map (fun x => pa_peer_id x.2) ps)
  /\ map route out
     = map (fun k => str "m4" ++ str "-" ++ hex_fixed 16 ((next_route r + Z.of_nat k) mod (U64_MAX + 1)))
         (seq 1 (length out))
  /\ (forall id x, x ∈ default [] (assignments r !! id) -> x ∈ default [] (assignments r' !! id))
  /\ Forall (fun a => exists x, x ∈ default [] (assignments r' !! provider_id a) /\ qa_assignment x = a) out.
Proof.
  revert r. induction ps as [|[i p] ps IH]; intros r Hn.
  { simpl. split_and!; (constructor || done). }
  cbn [queue_providers]. destruct (get ls (i mod len ls)) as [l|] eqn:Eg.
  2:{ split_and!; try done; try constructor. apply sublist_nil_l. }
  apply get_elem in Eg. rewrite queue_assignment_cases. cbn zeta.
  set (q := default [] (assignments r !! pa_peer_id p)).
  destruct (len q >=? max_assignments_per_peer (limits r)).
  - specialize (IH (set_assignments r (<[pa_peer_id p:=q]> (assignments r))) Hn).
    destruct (queue_providers _ now ls ps) as [r' out]. destruct IH as (H1 & H2 & H3 & H4 & H5).
    split_and!; try done.
    + eapply Forall_impl; [exact H1|]. intros a (i' & p' & l' & n & ? & ? & ?).
      exists i', p', l', n. split_and!; [by right|done|done].
    + simpl. by apply sublist_cons.
    + intros id x Hx. apply H4. cbn [set_assignments assignments]. destruct (decide (pa_peer_id p = id)) as [<-|].
      * by rewrite lookup_insert_eq.
      * by rewrite lookup_insert_ne.
  - set (a := the_assignment p l (str "m4") (successor (next_route r))).
    set (r1 := set_assignments _ _). specialize (IH r1 (successor_range (next_route r))).
    destruct (queue_providers r1 now ls ps) as [r' out]. destruct IH as (H1 & H2 & H3 & H4 & H5).
    assert (forall id x, x ∈ default [] (assignments r !! id) -> x ∈ default [] (assignments r1 !! id)) as Hgrow.
    { intros id x Hx. unfold r1. cbn [set_assignments assignments].
      destruct (decide (pa_peer_id p = id)) as [<-|].
      - rewrite lookup_insert_eq. cbn [default]. apply elem_of_app. by left.
      - by rewrite lookup_insert_ne. }
    split_and!.
    + constructor; [by exists i, p, l, (successor (next_route r)); split_and!; [left|..]|].
      eapply Forall_impl; [exact H1|]. intros b (i' & p' & l' & n & ? & ? & ?).
      exists i', p', l', n. split_and!; [by right|done|done].
    + simpl. by apply sublist_skip.
    + cbn [length seq map]. f_equal. rewrite H3. unfold r1. cbn [set_assignments set_next_route next_route].
      rewrite <- (seq_shift (length out) 1), map_map. apply map_ext. intros k. do 3 f_equal. unfold successor.
      rewrite Z.add_mod_idemp_l by done. f_equal. lia.
    + intros id x Hx. by apply H4, Hgrow.
    + constructor; [|done]. exists (mkQueuedAssignment a (sat_add U64_MAX now (lease_ms r))).
      split; [|done]. apply H4. unfold r1. cbn [set_assignments assignments provider_id a the_assignment].
      rewrite lookup_insert_eq. cbn [default]. apply elem_of_app. right. left.
Qed.

Lemma elem_of_take_sub {A} n (l : list A) x : x ∈ take n l -> x ∈ l.
Proof. intros Hx. rewrite <- (take_drop n l). apply elem_of_app. by left. Qed.

Lemma NoDup_map_filter {A B} (f : A -> B) (p : A -> bool) l : NoDup (map f l) -> NoDup (map f (List.filter p l)).
Proof.
  induction l as [|x l IH]; simpl; [done|]. rewrite NoDup_cons. intros [Hx Hl]. destruct (p x); [|auto].
  simpl. constructor; [|auto]. rewrite list_elem_of_In, in_map_iff in *.
  intros (y & Hy & Hin%filter_In). apply Hx. exists y. naive_solver.
Qed.

Lemma NoDup_map_take {A B} (f : A -> B) n l : NoDup (map f l) -> NoDup (map f (take n l)).
Proof. rewrite <- (take_drop n l) at 1. rewrite map_app, NoDup_app. naive_solver. Qed.

Lemma peers_NoDup `{Blake3} r :
  registry_inv r -> NoDup (map (fun p => pa_peer_id (pl_advertisement p)) (bt_values (peers r))).
Proof.
  intros Hinv. unfold bt_values. rewrite map_map.
  replace (map _ (peers r)) with (map fst (peers r)); [apply bt_NoDup_keys, Hinv|].
  pose proof (inv_peers _ Hinv) as HF. induction HF as [|[k p] m He _ IH]; simpl; [done|].
  destruct He as [He _]. simpl in He. by rewrite IH, He.
Qed.

Lemma route_names_NoDup n m :
  Z.of_nat m <= U64_MAX ->
  NoDup (map (fun k => str "m4" ++ str "-" ++ hex_fixed 16 ((n + Z.of_nat k) mod (U64_MAX + 1))) (seq 1 m)).
Proof.
  intros Hm. apply (NoDup_fmap_2_strong _ (seq 1 m)); [|apply NoDup_seq].
  intros x y Hx Hy Heq. apply elem_of_seq in Hx, Hy.
  apply app_inv_head, app_inv_head, hex_fixed_inj in Heq;
    [|change (16 ^ Z.of_nat 16) with (U64_MAX + 1); apply Z.mod_pos_bound; done..].
  assert ((Z.of_nat x - Z.of_nat y) mod (U64_MAX + 1) = 0) as Hmod.
  { replace (Z.of_nat x - Z.of_nat y) with ((n + Z.of_nat x) - (n + Z.of_nat y)) by lia.
    by rewrite Zminus_mod, Heq, Z.sub_diag. }
  apply Z.mod_divide in Hmod as [z Hz]; [|done]. unfold U64_MAX in *. assert (z = 0) by nia. lia.
Qed.

(** ** Properties *)

(** The registry invariant holds after any sequence of valid requests at
    any times: tables sorted and within their limits, identities derived from
    keys, advertisements non-empty, bounded and without duplicates, every queued
    assignment belongs to its provider's queue, is within the queue bound and can
    be sent. *)
Theorem registry_invariant `{Blake3} (lease : Z) (l : RegistryLimits) (qs : list (Z * OverlayRequest)) :
  lease <= U64_MAX -> 0 <= max_assignments_per_peer l ->
  Forall (fun q => request_valid q.2) qs ->
  registry_inv (run_requests (with_limits lease l) qs).
Proof. intros Hl Hm Hqs. apply run_requests_inv; [by apply with_limits_inv|done]. Qed.

Lemma request_served `{Blake3} (r : Registry) (now : Z) (q : OverlayRequest) :
  registry_inv r -> request_valid q ->
  (exists req resp,
     (forall w, client_send q (mkSink w None) = (mkSink (w ++ req) None, Ok tt))
     /\ (forall rest e out,
           handle_connection (mkTcpStream (mkSource (req ++ rest) e) (mkSink out None)) r now
           = (mkTcpStream (mkSource rest e) (mkSink (out ++ resp) None), serve_request r (now, q), Ok tt))
     /\ (forall rest e, client_receive (mkSource (resp ++ rest) e) = Ok (handle_request r now q).2))
  /\ (forall frame err rest e out,
        len frame <= MAX_CONTROL_FRAME -> decode_overlay_request frame = Err err ->
        handle_connection (mkTcpStream (mkSource (frame_bytes frame ++ rest) e) out) r now
        = (mkTcpStream (mkSource rest e) out, r, Err (OverlayProtocol err))).
Proof.
  intros Hinv Hq. pose proof Hq as [Hok Hv].
  assert (MAX_CONTROL_FRAME <= U32_MAX) as Hmax by (unfold MAX_CONTROL_FRAME, U32_MAX; lia).
  split.
  - destruct (handle_request_response r now q Hinv Hq) as [Hrok Hrv].
    assert (exists b, encode_overlay_request q = Ok b) as [b Hb].
    { rewrite encode_request_wire, Hv by done. eauto. }
    assert (exists c, encode_overlay_response (handle_request r now q).2 = Ok c) as [c Hc].
    { rewrite encode_response_wire, Hrv by done. eauto. }
    pose proof (encode_request_size _ _ Hb : len b <= MAX_CONTROL_FRAME).
    pose proof (encode_response_size _ _ Hc : len c <= MAX_CONTROL_FRAME).
    exists (frame_bytes b), (frame_bytes c). split_and!.
    + intros w. unfold client_send, control_write_frame. rewrite Hb, write_frame_bytes by done. done.
    + intros rest e out. unfold handle_connection, control_read_frame, control_write_frame, serve_request.
      cbn [incoming outgoing]. rewrite read_frame_bytes by done. rewrite (decode_encode_request _ _ Hok Hb).
      cbn [fst snd]. destruct (handle_request r now q) as [r1 resp]. cbn [fst snd snapshot] in *.
      rewrite Hc, write_frame_bytes by done. done.
    + intros rest e. unfold client_receive, control_read_frame. rewrite read_frame_bytes by done. cbn [snd].
      by rewrite (decode_encode_response _ _ Hrok Hc).
  - intros frame err rest e out Hf Hd. unfold handle_connection, control_read_frame.
    cbn [incoming outgoing]. rewrite read_frame_bytes by done. by rewrite Hd.
Qed.

(** The remote procedure call.  For every valid request the client writes
    one frame; the service reads it, updates the registry as [handle_request]
    does (and purges it), and writes one frame, from which the client decodes
    exactly the registry's answer.  A frame that does not decode leaves the
    registry and the output untouched. *)
Theorem request_roundtrip `{Blake3} (r : Registry) (now : Z) (q : OverlayRequest) :
  registry_inv r -> request_valid q ->
  (exists req resp,
     (forall w, client_send q (mkSink w None) = (mkSink (w ++ req) None, Ok tt))
     /\ (forall rest e out,
           handle_connection (mkTcpStream (mkSource (req ++ rest) e) (mkSink out None)) r now
           = (mkTcpStream (mkSource rest e) (mkSink (out ++ resp) None), serve_request r (now, q), Ok tt))
     /\ (forall rest e, client_receive (mkSource (resp ++ rest) e) = Ok (handle_request r now q).2))
  /\ (forall frame err rest e out,
        len frame <= MAX_CONTROL_FRAME -> decode_overlay_request frame = Err err ->
        handle_connection (mkTcpStream (mkSource (frame_bytes frame ++ rest) e) out) r now
        = (mkTcpStream (mkSource rest e) out, r, Err (OverlayProtocol err))).
Proof. apply request_served. Qed.

(** C34: discovery.  [discover] names the live provider of the content with the
    least identifier, its public key, the live relay with the least identifier,
    and the next route name, and appends that assignment to the provider's queue;
    it fails only when no live peer provides the content, no relay is live, or
    that provider's queue is full. *)
Theorem discover_contract `{Blake3} (r : Registry) (now : Z) (c : ContentId) :
  registry_inv r ->
  match discover r now c with
  | (r', Some a) =>
      exists p l,
        least (provides r now c) (pa_peer_id (pl_advertisement p))
        /\ live_peer r now (pa_peer_id (pl_advertisement p)) p
        /\ least (relays_live r now) (ra_relay_id (rl_advertisement l))
        /\ live_relay r now (ra_relay_id (rl_advertisement l)) l
        /\ next_route r' = successor (next_route r)
        /\ a = the_assignment (pl_advertisement p) (rl_advertisement l) (str "m2") (next_route r')
        /\ assignments r' !! provider_id a
           = Some (default [] (assignments (purge r now) !! provider_id a)
                   ++ [mkQueuedAssignment a (sat_add U64_MAX now (lease_ms r))])
  | (r', None) =>
      (forall id, ~ provides r now c id) \/ (forall id, ~ relays_live r now id)
      \/ exists id, least (provides r now c) id
           /\ max_assignments_per_peer (limits r) <= len (default [] (assignments (purge r now) !! id))
  end.
Proof.
  intros Hinv. unfold discover. cbn zeta.
  destruct (List.find (offers c) (bt_values (peers (purge r now)))) as [p|] eqn:Ef.
  2:{ left. intros id (p & Hl & Hc). apply (find_none_all _ _ id p) in Ef; [|by apply purge_live_peer].
      unfold offers in Ef. by to_prop. }
  destruct (least_provider _ _ _ _ Hinv Ef) as [Hleast Hlive].
  destruct (bt_values (relays (purge r now))) as [|l ls] eqn:El.
  { right; left. intros id (l & Hl). apply purge_live_relay in Hl; [|done]. apply bt_get_elem in Hl.
    assert (l ∈ bt_values (relays (purge r now))) as Hin; [|rewrite El in Hin; by apply elem_of_nil in Hin].
    unfold bt_values. rewrite list_elem_of_In, in_map_iff. exists (id, l). by rewrite <- list_elem_of_In. }
  destruct (least_relay _ _ _ _ Hinv El) as [Hrleast Hrlive].
  rewrite queue_assignment_cases. cbn zeta. change (limits (purge r now)) with (limits r).
  change (next_route (purge r now)) with (next_route r). change (lease_ms (purge r now)) with (lease_ms r).
  match goal with |- context [?x >=? ?y] => destruct (Z.geb_spec x y) as [Hge|Hlt] end.
  - right; right. exists (pa_peer_id (pl_advertisement p)). done.
  - exists p, l. split_and!; try done. cbn [set_assignments set_next_route assignments].
    apply lookup_insert_eq.
Qed.

(** [poll_peer] is a first-in first-out hand-over.  For a registered live
    provider it returns the oldest queued assignment that is unexpired and whose
    relay is live, removes it and everything before it, renews the lease, and
    leaves the other queues as [purge] does; for anyone else it returns nothing. *)
Theorem poll_peer_fifo `{Blake3} (r : Registry) (now : Z) (pid : PeerId) :
  registry_inv r ->
  let q := List.filter (keep_assignment (relays (purge r now)) now) (default [] (assignments r !! pid)) in
  match bt_get pid (peers (purge r now)) with
  | Some p =>
      (poll_peer r now pid).2 = qa_assignment <$> head q
      /\ default [] (assignments (poll_peer r now pid).1 !! pid) = tail q
      /\ bt_get pid (peers (poll_peer r now pid).1)
         = Some (mkPeerLease (pl_advertisement p) (sat_add U64_MAX now (lease_ms r)))
      /\ (forall pid', pid' <> pid ->
            assignments (poll_peer r now pid).1 !! pid' = assignments (purge r now) !! pid')
  | None => poll_peer r now pid = (purge r now, None)
  end.
Proof.
  intros Hinv q. unfold poll_peer, heartbeat_peer. cbn zeta.
  destruct (bt_get pid (peers (purge r now))) as [p|] eqn:Ep; [|done].
  cbn [set_peers assignments relays peers].
  assert (assignments (purge r now) !! pid = if bool_decide (q = []) then None else Some q) as Hq.
  { unfold q. pose proof (purge_queue r now pid) as Hpq.
    assert (bt_contains pid (peers (purge r now)) = true) as Hc by (by apply bt_contains_true; exists p).
    destruct (assignments r !! pid) as [q0|] eqn:E0; cbn [default]; unfold id.
    - case_bool_decide as Hn.
      + destruct (assignments (purge r now) !! _) as [q1|] eqn:E1; [|done].
        destruct (proj1 (Hpq q1) eq_refl) as (q2 & [= <-] & _ & -> & Hne). done.
      + apply Hpq. by exists q0.
    - destruct (assignments (purge r now) !! _) as [q1|] eqn:E1; [|done].
      by destruct (proj1 (Hpq q1) eq_refl) as (q2 & [=] & _). }
  rewrite Hq. case_bool_decide as Hn.
  - rewrite Hn. cbn [fst snd set_peers assignments peers]. by rewrite Hq, bt_get_insert_eq.
  - assert (Forall (fun x => keep_assignment (relays (purge r now)) now x = true) q) as HF.
    { apply Forall_forall. intros x Hx. unfold q in Hx. rewrite list_elem_of_In, filter_In in Hx. apply Hx. }
    rewrite (pop_valid_kept _ _ _ HF). cbn [fst snd set_assignments set_peers assignments peers].
    rewrite lookup_insert_eq, bt_get_insert_eq. split_and!; try done.
    intros pid' Hne. by rewrite lookup_insert_ne.
Qed.

(** Swarm discovery.  [discover_providers] returns at most [limit] routes, to
    distinct providers and with distinct names; each provider is live, offers the
    content and the swarm capability, each relay is live, and each route is queued
    for its provider. *)
Theorem discover_providers_contract `{Blake3} (r : Registry) (now : Z) (c : ContentId) (limit : Z) :
  registry_inv r -> 0 <= limit <= U64_MAX ->
  let '(r', out) := discover_providers r now c limit in
  len out <= limit /\ NoDup (map provider_id out) /\ NoDup (map route out)
  /\ Forall (fun a => exists p l,
       live_peer r now (provider_id a) p /\ c ∈ pa_content_ids (pl_advertisement p)
       /\ SwarmTransferV1 ∈ pa_capabilities (pl_advertisement p)
       /\ provider_public_key a = pa_public_key (pl_advertisement p)
       /\ live_relay r now (relay_id a) l /\ relay_address a = ra_address (rl_advertisement l)
       /\ exists x, x ∈ default [] (assignments r' !! provider_id a) /\ qa_assignment x = a) out.
Proof.
  intros Hinv Hlim. pose proof (purge_inv r now Hinv) as Hp.
  destruct (discover_providers_inv r now c limit Hinv ltac:(lia)) as (_ & _ & Hlen).
  destruct (discover_providers r now c limit) as [r' out] eqn:E. cbn [snd] in Hlen.
  unfold discover_providers in E. cbn zeta in E. case_bool_decide; [simplify_eq; split_and!; [done|constructor..]|].
  set (sel := take _ _) in E. set (ls := map rl_advertisement _) in E.
  pose proof (queue_providers_spec (purge r now) now ls (enumerate (map pl_advertisement sel))
    (inv_next_route _ Hp)) as Hs. rewrite E in Hs. destruct Hs as (H1 & H2 & H3 & _ & H5).
  split_and!; [done| | |].
  - eapply sublist_NoDup; [|exact H2].
    replace (map _ (enumerate _)) with (map pa_peer_id (map pl_advertisement sel)).
    + rewrite map_map. apply NoDup_map_take, NoDup_map_filter, (peers_NoDup _ Hp).
    + rewrite <- (map_map snd pa_peer_id). unfold enumerate. by rewrite map_snd_enumerate_from.
  - rewrite H3. apply route_names_NoDup. unfold len in Hlen. lia.
  - apply Forall_forall. intros a Ha. rewrite Forall_forall in H1, H5.
    destruct (H1 a Ha) as (i & pa & la & n & Hpa & Hla & ->). specialize (H5 _ Ha).
    apply get_enumerate in Hpa as [Hpa _]. apply get_elem in Hpa.
    rewrite list_elem_of_In, in_map_iff in Hpa. unfold ls in Hla. rewrite list_elem_of_In, in_map_iff in Hla.
    destruct Hpa as (p & <- & Hpin), Hla as (l & <- & Hlin).
    rewrite <- list_elem_of_In in Hlin. apply (values_relay _ _ Hp) in Hlin as (lk & Hlg & Hle).
    rewrite <- list_elem_of_In in Hpin. apply elem_of_take_sub in Hpin.
    rewrite list_elem_of_In, filter_In, <- list_elem_of_In in Hpin. destruct Hpin as [Hpin Hsel].
    apply andb_true_iff in Hsel as [Hof Hsw]. unfold offers, swarm_capable in *. to_prop.
    apply (values_peer _ _ Hp) in Hpin as (k & Hpg & Hpe).
    exists p, l. cbn [the_assignment provider_id provider_public_key relay_id relay_address].
    destruct Hpe as [Hk _], Hle as [Hlk _]. cbn [fst snd] in *. subst k lk.
    split_and!; try done; [by apply purge_live_peer|by apply purge_live_relay].
Qed.

(** ** The properties at concrete inputs *)

#[local] Existing Instance Toy.toy_blake3.

Definition sample_relay : RelayAdvertisement := mkRelayAdvertisement (str "relay-a") (str "127.0.0.1:7777").
Definition sample_content : ContentId := Toy.checksum (str "abc").
Definition sample_requests : list (Z * OverlayRequest) :=
  [(0, RegisterPeer sample_peer); (5, RegisterRelay sample_relay); (10, Discover sample_content)].

Lemma checksum_id_ok l : id_ok (Toy.checksum l).
Proof. split; [reflexivity|]. apply Toy.toy_blake3_laws. Qed.

Lemma sample_requests_valid : Forall (fun q => request_valid q.2) sample_requests.
Proof.
  constructor; [|constructor; [|constructor; [|constructor]]]; (split; [|vm_compute; reflexivity]).
  - split; [apply checksum_id_ok|split; [|constructor; [apply checksum_id_ok|constructor]]].
    split; [reflexivity|]. apply bytes_okb_true. vm_compute. reflexivity.
  - split; (split; [reflexivity|apply bytes_okb_true; vm_compute; reflexivity]).
  - apply checksum_id_ok.
Qed.

Definition sample_registry : Registry := run_requests (Registry_new 100) sample_requests.

Lemma sample_registry_inv : registry_inv sample_registry.
Proof.
  apply run_requests_inv; [|apply sample_requests_valid].
  apply with_limits_inv; vm_compute; discriminate.
Qed.

Lemma registry_invariant_witness : registry_inv (run_requests (Registry_new 100) sample_requests).
Proof.
  apply (registry_invariant 100 RegistryLimits_default sample_requests);
    [vm_compute; discriminate|vm_compute; discriminate|apply sample_requests_valid].
Defined.

Lemma request_roundtrip_witness :
  exists req resp,
    (forall w, client_send (Discover sample_content) (mkSink w None) = (mkSink (w ++ req) None, Ok tt))
    /\ (forall rest e out,
          handle_connection (mkTcpStream (mkSource (req ++ rest) e) (mkSink out None)) sample_registry 20
          = (mkTcpStream (mkSource rest e) (mkSink (out ++ resp) None),
             serve_request sample_registry (20, Discover sample_content), Ok tt))
    /\ (forall rest e, client_receive (mkSource (resp ++ rest) e)
          = Ok (handle_request sample_registry 20 (Discover sample_content)).2).
Proof.
  apply (request_roundtrip sample_registry 20 (Discover sample_content) sample_registry_inv).
  split; [apply checksum_id_ok|reflexivity].
Defined.

Lemma discover_contract_witness :
  (discover sample_registry 20 sample_content).2
  = Some (the_assignment sample_peer sample_relay (str "m2") 2)
  /\ match discover sample_registry 20 sample_content with
     | (r', Some a) => exists p l,
        least (provides sample_registry 20 sample_content) (pa_peer_id (pl_advertisement p))
        /\ live_peer sample_registry 20 (pa_peer_id (pl_advertisement p)) p
        /\ least (relays_live sample_registry 20) (ra_relay_id (rl_advertisement l))
        /\ live_relay sample_registry 20 (ra_relay_id (rl_advertisement l)) l
        /\ next_route r' = successor (next_route sample_registry)
        /\ a = the_assignment (pl_advertisement p) (rl_advertisement l) (str "m2") (next_route r')
        /\ assignments r' !! provider_id a
           = Some (default [] (assignments (purge sample_registry 20) !! provider_id a)
                   ++ [mkQueuedAssignment a (sat_add U64_MAX 20 (lease_ms sample_registry))])
     | (_, None) => False
     end.
Proof.
  split; [vm_compute; reflexivity|].
  pose proof (discover_contract sample_registry 20 sample_content sample_registry_inv) as Hd.
  assert (is_Some (discover sample_registry 20 sample_content).2) as Hs
    by (vm_compute; eexists; reflexivity).
  destruct (discover sample_registry 20 sample_content) as [r' [a|]]; [exact Hd|].
  destruct Hs as [? [=]].
Defined.

Lemma poll_peer_fifo_witness :
  (poll_peer sample_registry 20 (pa_peer_id sample_peer)).2
  = Some (the_assignment sample_peer sample_relay (str "m2") 1).
Proof.
  pose proof (poll_peer_fifo sample_registry 20 (pa_peer_id sample_peer) sample_registry_inv) as Hp.
  cbn zeta in Hp.
  assert (is_Some (bt_get (pa_peer_id sample_peer) (peers (purge sample_registry 20)))) as [p E]
    by (vm_compute; eexists; reflexivity).
  rewrite E in Hp. rewrite (proj1 Hp). vm_compute. reflexivity.
Defined.

Lemma discover_providers_contract_witness :
  let '(r', out) := discover_providers sample_registry 20 sample_content 4 in
  len out = 1 /\ NoDup (map provider_id out).
Proof.
  pose proof (discover_providers_contract sample_registry 20 sample_content 4 sample_registry_inv
    ltac:(unfold U64_MAX; lia)) as Hd.
  assert (len (discover_providers sample_registry 20 sample_content 4).2 = 1) as Hl by (vm_compute; reflexivity).
  destruct (discover_providers sample_registry 20 sample_content 4) as [r' out].
  split; [exact Hl|exact (proj1 (proj2 Hd))].
Defined.

(** ** Behaviour worth knowing *)

(** A health check purges expired leases: it changes the registry. *)
Lemma health_purges :
  len (peers sample_registry) = 1 /\ len (peers (serve_request sample_registry (500, Health))) = 0.
Proof. split; vm_compute; reflexivity. Qed.

(** Assignments dropped by a relay failure report are not counted as expired. *)
Lemma relay_failure_not_counted :
  let r := report_relay_failure sample_registry (str "relay-a") in
  queued_routes (assignments sample_registry) = 1 /\ queued_routes (assignments r) = 0
  /\ expired_routes r = expired_routes sample_registry.
Proof. split_and!; vm_compute; reflexivity. Qed.

(** A peer that offers only the swarm capability is registered. *)
Lemma swarm_only_peer_accepted :
  (register_peer (Registry_new 100) 0
     (mkPeerAdvertisement (pa_peer_id sample_peer) (pa_public_key sample_peer) [SwarmTransferV1]
        (pa_content_ids sample_peer))).2 = Ok tt.
Proof. vm_compute. reflexivity. Qed.
