(* ===== verification/Bootstrap.v ===== *)
(** * Bootstrap: the bootstrap service and the methods of its client (crates/triptorrent-overlay)

    [serve] with its counter of connections, as a step relation over the registry and the
    connections that are open, and the methods of [BootstrapClient] over the frames the
    service answers.  Theorems: the service keeps its limits and the invariant of the
    registry under any interleaving of connections; a method of the client returns what the
    registry answers to its request. *)
From stdpp Require Import base tactics list numbers option gmap.
From Stdlib Require Import ZArith Lia.
Import stdpp.list.
From S2P Require Import Prelude Bytes BTree NetAddr Instances Core Wire WireFacts Frame Overlay OverlayFacts.

Local Open Scope Z_scope.

(** ** The service *)

(** The registry under its lock, the counter and the connections whose threads have not
    ended, each with the time its thread read from the clock before it read the socket. *)
Record Bootstrap := mkBootstrap {
  bs_registry : Registry;
  bs_active : Z;
  bs_open : list (TcpStream * Z)
}.

Definition serve (lease_ms : Z) : Bootstrap := mkBootstrap (Registry_new lease_ms) 0 [].

Section Service.
Context `{Blake3}.

(** A connection is dropped at the limit, or gets a thread. *)
Definition accept_control (stream : TcpStream) (now : Z) (b : Bootstrap) : Bootstrap :=
  if bs_active b >=? MAX_CONTROL_CONNECTIONS then b
  else mkBootstrap (bs_registry b) (bs_active b + 1) (bs_open b ++ [(stream, now)]).

(** The thread of connection [i] takes the lock, answers and ends. *)
Definition finish_control (i : nat) (stream : TcpStream) (now : Z) (b : Bootstrap) : Bootstrap :=
  let '(_, r, _) := handle_connection stream (bs_registry b) (elapsed_ms now) in
  mkBootstrap r (bs_active b - 1) (delete i (bs_open b)).

Inductive control_step : Bootstrap -> Bootstrap -> Prop :=
| control_accept b stream now : bytes_ok (avail (incoming stream)) -> control_step b (accept_control stream now b)
| control_finish b i stream now : bs_open b !! i = Some (stream, now) -> control_step b (finish_control i stream now b).

Inductive serving (lease_ms : Z) : Bootstrap -> Prop :=
| serving_start : serving lease_ms (serve lease_ms)
| serving_step b b' : serving lease_ms b -> control_step b b' -> serving lease_ms b'.

(** A connection applies one valid request, or none. *)
Lemma handle_connection_registry stream r now : bytes_ok (avail (incoming stream)) ->
  let r' := (handle_connection stream r now).1.2 in
  r' = r \/ exists q, request_valid q /\ r' = serve_request r (now, q).
Proof.
  intros Hb. assert (MAX_CONTROL_FRAME <= U32_MAX) as Hmax by (unfold MAX_CONTROL_FRAME, U32_MAX; lia).
  unfold handle_connection, control_read_frame. destruct (read_frame _ _ (incoming stream)) as [inc [[frame|]|e]] eqn:Ef; [|by left|by left].
  destruct (read_frame_Some _ _ _ _ _ Hb Hmax Ef) as (Ha & _ & _).
  destruct (decode_overlay_request frame) as [q|e] eqn:Ed; [|by left]. right. exists q.
  assert (bytes_ok frame) as Hf by (rewrite Ha in Hb; apply bytes_ok_app in Hb as [Hb _]; unfold frame_bytes in Hb; by apply bytes_ok_app in Hb as [_ Hb]).
  apply decode_request_iff in Ed as [Hok He]; [|done]. split.
  - split; [done|]. rewrite encode_request_wire in He by done. invert_ok. by destruct a.
  - unfold serve_request. cbn [fst snd]. destruct (handle_request r now q) as [r1 response]. cbn [fst snd snapshot].
    destruct (encode_overlay_response response) as [encoded|e]; [|done]. by destruct (control_write_frame encoded _).
Qed.

(** C18: the bootstrap service under any interleaving.  Whatever bytes arrive on however many
    connections, in whatever order their threads run and with whatever times they read, the
    service never has more than 256 connections open, its counter counts them, and the
    registry satisfies its invariant: sorted leases within the limits, identities that match
    their keys, valid assignments. *)
Theorem bootstrap_service_invariant (lease_ms : Z) (b : Bootstrap) : lease_ms <= U64_MAX -> serving lease_ms b ->
  bs_active b = len (bs_open b) /\ bs_active b <= MAX_CONTROL_CONNECTIONS /\ registry_inv (bs_registry b).
Proof.
  intros Hl Hs. assert (Forall (fun x => bytes_ok (avail (incoming x.1))) (bs_open b)
    /\ bs_active b = len (bs_open b) /\ bs_active b <= MAX_CONTROL_CONNECTIONS /\ registry_inv (bs_registry b)) as [_ Hb]; [|done].
  induction Hs as [|b b' _ (Ho & Ha & Hm & Hr) Hstep]; [|destruct Hstep as [b stream now Hstream|b i stream now Hi]].
  - cbn. split_and!; [constructor|done|vm_compute; discriminate|]. apply with_limits_inv; [done|vm_compute; discriminate].
  - unfold accept_control. destruct (Z.geb_spec (bs_active b) MAX_CONTROL_CONNECTIONS); [done|]. cbn. split_and!; [|len_lia|lia|done].
    apply Forall_app. by split; [|apply List.Forall_cons; [|apply List.Forall_nil]].
  - unfold finish_control. pose proof (proj1 (Forall_lookup _ _) Ho _ _ Hi) as Hbytes. cbn in Hbytes.
    pose proof (handle_connection_registry stream (bs_registry b) (elapsed_ms now) Hbytes) as Hreg. cbv zeta in Hreg.
    destruct (handle_connection stream (bs_registry b) (elapsed_ms now)) as [[s r] e]. cbn [fst snd bs_registry bs_active bs_open] in *.
    pose proof (length_delete (bs_open b) i (mk_is_Some _ _ Hi)) as Hd. pose proof (lookup_lt_Some _ _ _ Hi) as Hlt. split_and!; [by apply Forall_delete|unfold len in *; lia|lia|].
    destruct Hreg as [-> | (q & Hq & ->)]; [done|]. by apply run_requests_inv with (qs := [(elapsed_ms now, q)]); [|apply List.Forall_cons; [|apply List.Forall_nil]].
Qed.

(** ** The client *)

(** The other end of a connection: what it does on the bytes that are written to it, and
    what it answers. *)
Definition Remote_end (W : Type) : Type := W -> list Z -> W * Source.

(** [BootstrapClient::request] on a socket that takes all of the request *)
Definition client_request {W} (q : OverlayRequest) (socket : Remote_end W) : st W OverlayError OverlayResponse := fun w =>
  match client_send q (mkSink [] None) with
  | (_, Err e) => (w, Err e)
  | (out, Ok _) => let '(w, answer) := socket w (written out) in (w, client_receive answer)
  end.

Definition client_register_peer {W} (peer : PeerAdvertisement) (socket : Remote_end W) : st W OverlayError Z :=
  response ← client_request (RegisterPeer peer) socket; lift (expect_registered response).
Definition client_register_relay {W} (relay : RelayAdvertisement) (socket : Remote_end W) : st W OverlayError Z :=
  response ← client_request (RegisterRelay relay) socket; lift (expect_registered response).
Definition client_heartbeat_peer {W} (peer_id : PeerId) (socket : Remote_end W) : st W OverlayError Z :=
  response ← client_request (HeartbeatPeer peer_id) socket; lift (expect_registered response).
Definition client_heartbeat_relay {W} (relay_id : list Z) (socket : Remote_end W) : st W OverlayError Z :=
  response ← client_request (HeartbeatRelay relay_id) socket; lift (expect_registered response).
Definition client_poll_peer {W} (peer_id : PeerId) (socket : Remote_end W) : st W OverlayError (option RouteAssignment) :=
  response ← client_request (PollPeer peer_id) socket; lift (expect_assignment response).
Definition client_discover {W} (content_id : ContentId) (socket : Remote_end W) : st W OverlayError (option RouteAssignment) :=
  response ← client_request (Discover content_id) socket; lift (expect_route response).
Definition client_discover_providers {W} (content_id : ContentId) (limit : Z) (socket : Remote_end W)
  : st W OverlayError (list RouteAssignment) :=
  response ← client_request (DiscoverProviders content_id limit) socket; lift (expect_routes response).
Definition client_report_relay_failure {W} (relay_id : list Z) (socket : Remote_end W) : st W OverlayError unit :=
  response ← client_request (ReportRelayFailure relay_id) socket; lift (expect_acknowledged response).
Definition client_health {W} (socket : Remote_end W) : st W OverlayError unit :=
  response ← client_request Health socket; lift (expect_acknowledged response).

(** The service at a time, for one connection on which nothing else arrives. *)
Definition service (now : Z) : Remote_end Registry := fun r request =>
  let '(stream, r, _) := handle_connection (mkTcpStream (mkSource request None) (mkSink [] None)) r now in
  (r, mkSource (written (outgoing stream)) None).

(** The registry a connection leaves: its snapshot for the log purges what has expired. *)
Definition settled (now : Z) (r : Registry) : Registry := (snapshot r now).1.

Lemma client_request_served r now q : registry_inv r -> request_valid q ->
  client_request q (service now) r = (settled now (handle_request r now q).1, Ok (handle_request r now q).2).
Proof.
  intros Hr Hq. destruct (request_served r now q Hr Hq) as [(req & resp & Hsend & Hserve & Hrecv) _].
  unfold client_request, service. rewrite Hsend. cbn [written app].
  specialize (Hserve [] None []). rewrite app_nil_r in Hserve. rewrite Hserve. cbn [outgoing written app].
  specialize (Hrecv [] None). by rewrite app_nil_r in Hrecv; rewrite Hrecv.
Qed.

Lemma lease_kept (r : Registry) (now : Z) :
  (forall peer, lease_ms (register_peer r now peer).1 = lease_ms r)
  /\ (forall relay, lease_ms (register_relay r now relay).1 = lease_ms r)
  /\ (forall id, lease_ms (heartbeat_peer r now id).1 = lease_ms r)
  /\ (forall id, lease_ms (heartbeat_relay r now id).1 = lease_ms r).
Proof.
  unfold register_peer, register_relay, heartbeat_peer, heartbeat_relay. split_and!; intros; repeat case_match; done.
Qed.

(** What [client_register_peer] and its like return for a decision of the registry. *)
Definition leased (r : Registry) (accepted : bool) (reason : list Z) : result OverlayError Z :=
  if accepted then Ok (lease_ms r) else Err (Remote reason).

(** What a refused registration says. *)
Definition refusal (decision : result RegistryError unit) : list Z :=
  match decision with Ok _ => [] | Err e => RegistryError_to_string e end.

(** C17: every method of the client does what it names at the registry and returns what the
    registry decides.  Through the frames of the service, registering a peer or a relay
    performs that registration and returns the lease of the registry if and only if the
    registry accepts, and its reason otherwise; renewing the lease of a peer or a relay renews
    it and returns the lease if and only if there is one to renew, and that it is not
    registered otherwise; polling renews, takes and returns the next assignment of a registered
    peer, and says that it is not registered for another; the two discoveries queue and return
    the routes, of at most sixteen providers; a report removes what the registry removes for it
    and, like a health check, is acknowledged.  A request the encoder refuses ends with its
    error before anything is sent. *)
Theorem client_methods_exact (r : Registry) (now : Z) : registry_inv r ->
  (forall peer, request_valid (RegisterPeer peer) ->
     client_register_peer peer (service now) r
     = let '(r', decision) := register_peer r now peer in (settled now r', leased r (is_ok decision) (refusal decision)))
  /\ (forall relay, request_valid (RegisterRelay relay) ->
     client_register_relay relay (service now) r
     = let '(r', decision) := register_relay r now relay in (settled now r', leased r (is_ok decision) (refusal decision)))
  /\ (forall id, request_valid (HeartbeatPeer id) ->
     client_heartbeat_peer id (service now) r
     = let '(r', known) := heartbeat_peer r now id in (settled now r', leased r known (str "peer lease is not registered")))
  /\ (forall id, request_valid (HeartbeatRelay id) ->
     client_heartbeat_relay id (service now) r
     = let '(r', known) := heartbeat_relay r now id in (settled now r', leased r known (str "relay lease is not registered")))
  /\ (forall id, request_valid (PollPeer id) ->
     client_poll_peer id (service now) r
     = match heartbeat_peer r now id with
       | (r', true) => let '(r', next) := poll_peer r' now id in (settled now r', Ok next)
       | (r', false) => (settled now r', Err (Remote (str "peer lease is not registered")))
       end)
  /\ (forall c, request_valid (Discover c) ->
     client_discover c (service now) r = let '(r', route) := discover r now c in (settled now r', Ok route))
  /\ (forall c n, request_valid (DiscoverProviders c n) ->
     client_discover_providers c n (service now) r
     = let '(r', routes) := discover_providers r now c (Z.min n 16) in (settled now r', Ok routes))
  /\ (forall id, request_valid (ReportRelayFailure id) ->
     client_report_relay_failure id (service now) r = (settled now (report_relay_failure r id), Ok tt))
  /\ client_health (service now) r = (settled now r, Ok tt)
  /\ (forall q e, encode_overlay_request q = Err e -> client_request q (service now) r = (r, Err (OverlayProtocol e))).
Proof.
  intros Hr. destruct (lease_kept r now) as (Lp & Lr & Lhp & Lhr). assert (request_valid Health) as Hhealth by done.
  split_and!; intros;
    unfold client_register_peer, client_register_relay, client_heartbeat_peer, client_heartbeat_relay, client_poll_peer, client_discover,
      client_discover_providers, client_report_relay_failure, client_health, leased, refusal, mbind, st_bind, lift;
    rewrite ?client_request_served by done; cbn [handle_request].
  - specialize (Lp peer). by destruct (register_peer r now peer) as [? []]; cbn in *; rewrite ?Lp.
  - specialize (Lr relay). by destruct (register_relay r now relay) as [? []]; cbn in *; rewrite ?Lr.
  - specialize (Lhp id). by destruct (heartbeat_peer r now id) as [? []]; cbn in *; rewrite ?Lhp.
  - specialize (Lhr id). by destruct (heartbeat_relay r now id) as [? []]; cbn in *; rewrite ?Lhr.
  - destruct (heartbeat_peer r now id) as [r1 []]; [|done]. by destruct (poll_peer r1 now id).
  - by destruct (discover r now c).
  - by destruct (discover_providers r now c (Z.min n 16)).
  - done.
  - done.
  - unfold client_request, client_send. by rewrite H0.
Qed.
End Service.

(** ** The properties at concrete inputs *)

#[local] Existing Instance Toy.toy_blake3.

Lemma bootstrap_service_invariant_witness :
  let stream := mkTcpStream (mkSource (written (client_send (Discover sample_content) (mkSink [] None)).1) None) (mkSink [] None) in
  registry_inv (bs_registry (finish_control 0 stream 5 (accept_control stream 5 (serve 100)))).
Proof.
  refine (proj2 (proj2 (bootstrap_service_invariant 100 _ _ _))); [vm_compute; discriminate|].
  eapply serving_step; [eapply serving_step; [apply serving_start|apply control_accept]|apply control_finish; reflexivity].
  apply bytes_okb_true. vm_compute. reflexivity.
Defined.

Lemma client_methods_exact_witness :
  (client_discover sample_content (service 20) sample_registry).2 = Ok (discover sample_registry 20 sample_content).2
  /\ (client_heartbeat_relay (str "relay-a") (service 20) sample_registry).2 = Ok (lease_ms sample_registry)
  /\ (client_heartbeat_relay (str "relay-z") (service 20) sample_registry).2 = Err (Remote (str "relay lease is not registered")).
Proof.
  destruct (client_methods_exact sample_registry 20 sample_registry_inv) as (_ & _ & _ & Hb & _ & Hd & _). split_and!.
  - rewrite Hd; [|split; [apply checksum_id_ok|vm_compute; reflexivity]]. destruct (discover sample_registry 20 sample_content). reflexivity.
  - rewrite Hb; [vm_compute; reflexivity|]. split; [|vm_compute; reflexivity]. split; [vm_compute; reflexivity|apply bytes_ok_str].
  - rewrite Hb; [vm_compute; reflexivity|]. split; [|vm_compute; reflexivity]. split; [vm_compute; reflexivity|apply bytes_ok_str].
Defined.

(** The time of a connection is read before its request: of two renewals of a lease, the one
    that was connected first and served last takes back what the other gave. *)
Example late_renewal_shortens :
  let renew := written (client_send (HeartbeatRelay (str "relay-a")) (mkSink [] None)).1 in
  let stream := mkTcpStream (mkSource renew None) (mkSink [] None) in
  let registered := mkBootstrap sample_registry 0 [] in
  let both := accept_control stream 50 (accept_control stream 10 registered) in
  rl_expires_at <$> bt_get (str "relay-a") (relays (bs_registry (finish_control 1 stream 50 both))) = Some 150
  /\ rl_expires_at <$> bt_get (str "relay-a") (relays (bs_registry (finish_control 0 stream 10 (finish_control 1 stream 50 both)))) = Some 110.
Proof. split; vm_compute; reflexivity. Qed.
