(* ===== verification/Bencode.v ===== *)
(** * Bencode: the strict bencoding parser (crates/triptorrent-interop)

    [parse_bencode] is a recursive descent parser over the input and a position.
    [bencode] is the canonical encoding of a value, [place] the tree of nodes with
    their byte ranges.  Theorems: the parser accepts exactly the canonical
    encodings of values within its bounds, returns the value that was encoded, and
    every node's byte range is that node's own encoding, so that hashing the raw
    [info] slice hashes the parsed dictionary.  The recursion runs on fuel; twice
    the input length suffices ([parse_node_fuel]), since every call consumes
    input. *)
From stdpp Require Import base tactics list numbers option.
From Stdlib Require Import ZArith Lia.
From S2P Require Import Prelude Bytes Text BTree.
Import stdpp.list.

Local Open Scope Z_scope.

Definition MAX_BENCODE_DEPTH : Z := 64.
Definition MAX_BENCODE_INPUT : Z := 4 * 1024 * 1024.
Definition MAX_BENCODE_NODES : Z := 100000.

Inductive BencodeNode :=
| Node (value : BencodeValue) (start end_ : Z)
with BencodeValue :=
| BBytes (bytes : list Z)
| BInteger (value : Z)
| BList (items : list BencodeNode)
| BDictionary (entries : list (list Z * BencodeNode)).

Definition node_value (n : BencodeNode) : BencodeValue := match n with Node v _ _ => v end.
Definition node_start (n : BencodeNode) : Z := match n with Node _ s _ => s end.
Definition node_end (n : BencodeNode) : Z := match n with Node _ _ e => e end.

Inductive BencodeError :=
| Truncated
| Invalid (position : Z)
| UnsortedDictionary (position : Z)
| TrailingBytes (position : Z)
| TooDeep
| TooLarge
| TooManyNodes.

(** ** Decimal numbers *)

(** [text.parse::<usize>()] of a non-empty string of digits *)
Definition parse_usize (l : list Z) : option Z := try_from USIZE_MAX (digits_value l).

(** [text.parse::<i64>()] of digits with an optional minus sign *)
Definition parse_i64 (l : list Z) : option Z :=
  match l with
  | 45 :: l => let v := - digits_value l in if - (I64_MAX + 1) <=? v then Some v else None
  | _ => let v := digits_value l in if v <=? I64_MAX then Some v else None
  end.

(** ** The parser *)

Section Parser.
Context (input : list Z).

Record Parser := mkParser { position : Z; nodes : Z }.

(** [input[position..].iter().position(|byte| *byte == token)] *)
Fixpoint find_byte (token : Z) (l : list Z) (index : Z) : option Z :=
  match l with
  | [] => None
  | b :: l => if b =? token then Some index else find_byte token l (index + 1)
  end.

Definition find_terminator (p : Parser) (token : Z) : result BencodeError Z :=
  ok_or (find_byte token (drop (Z.to_nat (position p)) input) (position p)) Truncated.

(** [&input[start..end]] of positions in range *)
Definition sub (i j : Z) : list Z := take (Z.to_nat (j - i)) (drop (Z.to_nat i) input).

Definition bad_integer (encoded : list Z) : bool :=
  bool_decide (encoded = []) || bool_decide (encoded = str "-0")
  || (bool_decide (head encoded = Some 48) && (len encoded >? 1))
  || (bool_decide (take 2 encoded = str "-0") && (len encoded >? 2))
  || (bool_decide (head encoded = Some 45) && (len encoded =? 1))
  || negb (all (fun '(index, byte) => is_ascii_digit byte || ((index =? 0) && (byte =? 45)))
             (enumerate encoded)).

Definition parse_integer (p : Parser) : result BencodeError (BencodeValue * Parser) :=
  let p := mkParser (position p + 1) (nodes p) in
  let start := position p in
  end_ ← find_terminator p 101;
  let encoded := sub start end_ in
  if bad_integer encoded then Err (Invalid start)
  else
    value ← ok_or (parse_i64 encoded) (Invalid start);
    Ok (BInteger value, mkParser (end_ + 1) (nodes p)).

Definition parse_bytes (p : Parser) : result BencodeError (list Z * Parser) :=
  let length_start := position p in
  colon ← find_terminator p 58;
  let encoded := sub length_start colon in
  if bool_decide (encoded = []) || (bool_decide (head encoded = Some 48) && (len encoded >? 1))
     || negb (all is_ascii_digit encoded)
  then Err (Invalid length_start)
  else
    length ← ok_or (parse_usize encoded) (Invalid length_start);
    let value_start := colon + 1 in
    value_end ← ok_or (match checked_add USIZE_MAX value_start length with
                       | Some e => if e <=? len input then Some e else None
                       | None => None
                       end) Truncated;
    Ok (sub value_start value_end, mkParser value_end (nodes p)).

(** [None]: out of fuel. *)
Definition outcome (A : Type) : Type := option (result BencodeError (A * Parser)).

Fixpoint parse_node (fuel : nat) (depth : Z) (p : Parser) : outcome BencodeNode :=
  match fuel with
  | O => None
  | S fuel =>
      if depth >? MAX_BENCODE_DEPTH then Some (Err TooDeep)
      else
        let p := mkParser (position p) (sat_add USIZE_MAX (nodes p) 1) in
        if nodes p >? MAX_BENCODE_NODES then Some (Err TooManyNodes)
        else
          let start := position p in
          let finish (r : outcome BencodeValue) : outcome BencodeNode :=
            match r with
            | Some (Ok (value, p)) => Some (Ok (Node value start (position p), p))
            | Some (Err e) => Some (Err e)
            | None => None
            end in
          match get input (position p) with
          | None => Some (Err Truncated)
          | Some token =>
              if token =? 105 then finish (Some (parse_integer p))
              else if token =? 108 then
                finish (match parse_items fuel depth (mkParser (position p + 1) (nodes p)) [] with
                        | Some (Ok (l, p)) => Some (Ok (BList l, p))
                        | Some (Err e) => Some (Err e)
                        | None => None
                        end)
              else if token =? 100 then
                finish (match parse_entries fuel depth (mkParser (position p + 1) (nodes p)) None [] with
                        | Some (Ok (l, p)) => Some (Ok (BDictionary l, p))
                        | Some (Err e) => Some (Err e)
                        | None => None
                        end)
              else if is_ascii_digit token then
                finish (Some ('(b, p) ← parse_bytes p; Ok (BBytes b, p)))
              else Some (Err (Invalid (position p)))
          end
  end
(** [parse_list]: [while input.get(position) != Some(b'e') { values.push(..) }] *)
with parse_items (fuel : nat) (depth : Z) (p : Parser) (values : list BencodeNode) : outcome (list BencodeNode) :=
  match fuel with
  | O => None
  | S fuel =>
      if bool_decide (get input (position p) = Some 101)
      then Some (Ok (values, mkParser (position p + 1) (nodes p)))
      else
        match parse_node fuel (depth + 1) p with
        | Some (Ok (v, p)) => parse_items fuel depth p (values ++ [v])
        | Some (Err e) => Some (Err e)
        | None => None
        end
  end
(** [parse_dictionary] *)
with parse_entries (fuel : nat) (depth : Z) (p : Parser) (previous : option (list Z))
  (entries : list (list Z * BencodeNode)) : outcome (list (list Z * BencodeNode)) :=
  match fuel with
  | O => None
  | S fuel =>
      if bool_decide (get input (position p) = Some 101)
      then Some (Ok (entries, mkParser (position p + 1) (nodes p)))
      else
        let key_start := position p in
        if negb (match get input (position p) with Some b => is_ascii_digit b | None => false end)
        then Some (Err (Invalid (position p)))
        else
          match parse_bytes p with
          | Err e => Some (Err e)
          | Ok (key, p) =>
              if match previous with Some candidate => negb (lex_ltb candidate key) | None => false end
              then Some (Err (UnsortedDictionary key_start))
              else
                match parse_node fuel (depth + 1) p with
                | Some (Ok (value, p)) => parse_entries fuel depth p (Some key) (entries ++ [(key, value)])
                | Some (Err e) => Some (Err e)
                | None => None
                end
          end
  end.
End Parser.

(** Fuel for an input: twice its length and two. *)
Definition bencode_fuel (input : list Z) : nat := 2 * length input + 2.

Definition parse_bencode (input : list Z) : option (result BencodeError BencodeNode) :=
  if len input >? MAX_BENCODE_INPUT then Some (Err TooLarge)
  else
    match parse_node input (bencode_fuel input) 0 (mkParser 0 0) with
    | None => None
    | Some (Err e) => Some (Err e)
    | Some (Ok (value, p)) =>
        if negb (position p =? len input) then Some (Err (TrailingBytes (position p))) else Some (Ok value)
    end.

(** ** Values and their canonical encoding *)

Inductive bval :=
| VBytes (bytes : list Z)
| VInteger (value : Z)
| VList (items : list bval)
| VDictionary (entries : list (list Z * bval)).

Definition bencode_bytes (b : list Z) : list Z := decimal (len b) ++ 58 :: b.

Fixpoint bencode (v : bval) : list Z :=
  match v with
  | VBytes b => bencode_bytes b
  | VInteger n => 105 :: signed_decimal n ++ [101]
  | VList l => 108 :: concat (map bencode l) ++ [101]
  | VDictionary l => 100 :: concat (map (fun e => bencode_bytes e.1 ++ bencode e.2) l) ++ [101]
  end.

(** The nodes of a value whose encoding starts at [pos]. *)
Fixpoint place (pos : Z) (v : bval) : BencodeNode :=
  Node
    (match v with
     | VBytes b => BBytes b
     | VInteger n => BInteger n
     | VList l =>
         BList ((fix items (pos : Z) (l : list bval) : list BencodeNode :=
                   match l with
                   | [] => []
                   | v :: l => place pos v :: items (pos + len (bencode v)) l
                   end) (pos + 1) l)
     | VDictionary l =>
         BDictionary ((fix entries (pos : Z) (l : list (list Z * bval)) : list (list Z * BencodeNode) :=
                         match l with
                         | [] => []
                         | (k, v) :: l =>
                             (k, place (pos + len (bencode_bytes k)) v)
                             :: entries (pos + len (bencode_bytes k) + len (bencode v)) l
                         end) (pos + 1) l)
     end)
    pos (pos + len (bencode v)).

Fixpoint place_items (pos : Z) (l : list bval) : list BencodeNode :=
  match l with
  | [] => []
  | v :: l => place pos v :: place_items (pos + len (bencode v)) l
  end.
Fixpoint place_entries (pos : Z) (l : list (list Z * bval)) : list (list Z * BencodeNode) :=
  match l with
  | [] => []
  | (k, v) :: l =>
      (k, place (pos + len (bencode_bytes k)) v)
      :: place_entries (pos + len (bencode_bytes k) + len (bencode v)) l
  end.

(** The number of nodes of a value. *)
Fixpoint node_count (v : bval) : Z :=
  match v with
  | VBytes _ | VInteger _ => 1
  | VList l => 1 + sum node_count l
  | VDictionary l => 1 + sum (fun e => node_count e.2) l
  end.

(** Keys strictly increasing after [previous]. *)
Fixpoint keys_sorted (previous : option (list Z)) (l : list (list Z * bval)) : Prop :=
  match l with
  | [] => True
  | (k, _) :: l => match previous with Some p => lex_ltb p k = true | None => True end /\ keys_sorted (Some k) l
  end.

(** Values the format can carry, nested below [depth] at most as deep as allowed. *)
Fixpoint value_ok (depth : Z) (v : bval) : Prop :=
  depth <= MAX_BENCODE_DEPTH
  /\ match v with
     | VBytes _ => True
     | VInteger n => - (I64_MAX + 1) <= n <= I64_MAX
     | VList l => foldr (fun v P => value_ok (depth + 1) v /\ P) True l
     | VDictionary l => keys_sorted None l /\ foldr (fun e P => value_ok (depth + 1) e.2 /\ P) True l
     end.

(** ** Tokens *)

Lemma find_byte_spec t l i j :
  find_byte t l i = Some j <-> exists a b, l = a ++ t :: b /\ t ∉ a /\ j = i + len a.
Proof.
  revert i. induction l as [|x l IH]; intros i; simpl.
  { split; [done|]. intros (a & b & Hl & _). by destruct a. }
  destruct (Z.eqb_spec x t) as [->|Hne].
  - split.
    + intros [= <-]. exists [], l. split_and!; [done|by intros ?%elem_of_nil|len_lia].
    + intros ([|y a] & b & Hl & Hn & ->); [f_equal; len_lia|]. exfalso. apply Hn. simplify_eq/=. left.
  - rewrite IH. split.
    + intros (a & b & -> & Hn & ->). exists (x :: a), b. split_and!; [done| |len_lia].
      rewrite elem_of_cons. naive_solver.
    + intros ([|y a] & b & Hl & Hn & ->); simplify_eq/=. exists a, b.
      rewrite elem_of_cons in Hn. split_and!; [done|naive_solver|len_lia].
Qed.

Lemma sub_middle (a b c : list Z) i j :
  i = len a -> j = len a + len b -> sub (a ++ b ++ c) i j = b.
Proof.
  intros -> ->. unfold sub, len. rewrite Nat2Z.id, drop_app_length.
  replace (Z.to_nat _) with (length b) by lia. apply take_app_length.
Qed.

Lemma drop_len {A} (a b : list A) : drop (Z.to_nat (len a)) (a ++ b) = b.
Proof. unfold len. by rewrite Nat2Z.id, drop_app_length. Qed.

Lemma digits_free t l :
  Forall (fun b => is_ascii_digit b = true) l -> is_ascii_digit t = false -> t ∉ l.
Proof. rewrite Forall_forall. intros Hl Ht Hin. specialize (Hl _ Hin). simpl in Hl. congruence. Qed.

(** The digits after a position other than the first. *)
Lemma all_digits_from i l :
  0 < i ->
  all (fun '(index, byte) => is_ascii_digit byte || ((index =? 0) && (byte =? 45))) (enumerate_from i l)
  = all is_ascii_digit l.
Proof.
  revert i. induction l as [|x l IH]; intros i Hi; simpl; [done|].
  rewrite (proj2 (Z.eqb_neq i 0)) by lia. rewrite IH by lia. by rewrite orb_false_r.
Qed.

(** The tests of [parse_integer] accept canonical digits, and a minus sign
    followed by canonical digits other than zero. *)
Lemma bad_integer_false a :
  bad_integer a = false <->
  canonical a \/ exists a', a = 45 :: a' /\ canonical a' /\ head a' <> Some 48.
Proof.
  unfold bad_integer, canonical. destruct a as [|x a].
  { split; [done|]. intros [[? _]|(a' & ? & _)]; done. }
  rewrite (bool_decide_eq_false_2 (x :: a = [])) by done. cbn [orb head].
  unfold enumerate. cbn [enumerate_from all forallb]. rewrite all_digits_from by lia.
  rewrite !orb_false_iff, negb_false_iff, andb_true_iff, !andb_false_iff, orb_true_iff, andb_true_iff.
  rewrite !bool_decide_eq_false, !Z.gtb_ltb, !Z.ltb_ge, !Z.eqb_eq, Z.eqb_neq, !len_cons, !Forall_cons_iff.
  rewrite all_true. split.
  - intros ((((Hm0 & H0) & Hm1) & Hm) & Hx & Hd). destruct Hx as [Hx|[_ ->]].
    + left. split_and!; [done|done|done|]. intros [[= ->] Hl]. destruct H0 as [H0|H0]; [done|lia].
    + right. exists a. split; [done|]. destruct a as [|y a].
      { exfalso. destruct Hm as [Hm|Hm]; [done|]. change (len (@nil Z)) with 0 in Hm. lia. }
      assert (y <> 48) as Hy.
      { intros ->. destruct a as [|z a]; [by apply Hm0|]. destruct Hm1 as [Hm1|Hm1]; [by apply Hm1|].
        rewrite !len_cons in Hm1. pose_lens. lia. }
      split; [|simpl; congruence]. split_and!; [done|done|]. simpl. intros [[= ->] _]. done.
  - intros [(_ & (Hx & Hd) & Hz)|(a' & [= -> <-] & (Hne & Hd & Hz) & Hh)].
    + apply is_digit_range in Hx as Hx'. split_and!; [|..].
      * intros [= -> _]. lia.
      * destruct (decide (x = 48)) as [->|]; [right|left; congruence].
        destruct (Z.le_gt_cases (1 + len a) 1); [done|]. exfalso. apply Hz. split; [done|lia].
      * left. intros Ht. destruct a; injection Ht as -> _; lia.
      * left. intros [= ->]. lia.
      * by left.
      * done.
    + split_and!; [|..].
      * intros [= ->]. by apply Hh.
      * by left.
      * left. intros Ht. destruct a as [|y a]; [done|]. injection Ht as ->. by apply Hh.
      * right. destruct a; [done|]. rewrite len_cons. pose_lens. lia.
      * by right.
      * done.
Qed.

Lemma canonical_not_minus a : canonical a -> head a <> Some 45.
Proof.
  intros (Hne & Hd & _) Hh. destruct a as [|x a]; [done|]. apply Forall_cons_iff in Hd as [Hx _].
  apply is_digit_range in Hx. simpl in Hh. simplify_eq. lia.
Qed.

(** Accepted integer text is the signed decimal form of its value. *)
Lemma parse_i64_sound a v :
  bad_integer a = false -> parse_i64 a = Some v ->
  a = signed_decimal v /\ - (I64_MAX + 1) <= v <= I64_MAX.
Proof.
  rewrite bad_integer_false. intros [Hc|(a' & -> & Hc & Hh)].
  - pose proof (canonical_not_minus _ Hc) as Hm. pose proof (digits_value_nonneg a (proj1 (proj2 Hc))) as Hp.
    assert (parse_i64 a = if digits_value a <=? I64_MAX then Some (digits_value a) else None) as ->.
    { destruct a as [|x a]; [done|]. unfold parse_i64. simpl in Hm.
      repeat (case_match; try done); by destruct Hm. }
    destruct (Z.leb_spec (digits_value a) I64_MAX); [|done]. intros [= <-]. unfold signed_decimal.
    rewrite (proj2 (Z.ltb_ge _ 0)) by done. rewrite canonical_decimal by done.
    split; [done|]. unfold I64_MAX in *. lia.
  - pose proof (digits_value_pos _ Hc Hh). unfold parse_i64. cbn zeta.
    destruct (Z.leb_spec (- (I64_MAX + 1)) (- digits_value a')); [|done]. intros [= <-].
    unfold signed_decimal. rewrite (proj2 (Z.ltb_lt _ 0)) by lia. rewrite Z.opp_involutive.
    rewrite canonical_decimal by done. split; [done|]. unfold I64_MAX in *. lia.
Qed.

Lemma parse_i64_complete v :
  - (I64_MAX + 1) <= v <= I64_MAX ->
  bad_integer (signed_decimal v) = false /\ parse_i64 (signed_decimal v) = Some v.
Proof.
  intros Hv. unfold signed_decimal. destruct (Z.ltb_spec v 0).
  - destruct (decimal_value (- v) ltac:(lia)) as [Hc Hd].
    assert (head (decimal (- v)) <> Some 48) as Hh.
    { intros Hh. destruct (decimal (- v)) as [|x [|y l]] eqn:E; simplify_eq/=.
      - unfold digits_value in Hd. simpl in Hd. lia.
      - destruct Hc as (_ & _ & Hz). apply Hz. split; [done|]. rewrite !len_cons. len_lia. }
    split; [apply bad_integer_false; right; eauto|]. unfold parse_i64. rewrite Hd, Z.opp_involutive.
    by rewrite (proj2 (Z.leb_le _ v)) by lia.
  - destruct (decimal_value v ltac:(lia)) as [Hc Hd].
    split; [apply bad_integer_false; by left|]. pose proof (canonical_not_minus _ Hc) as Hm.
    destruct (decimal v) as [|x l] eqn:E; [by destruct Hc|]. unfold parse_i64. simpl in Hm.
    assert ((let w := digits_value (x :: l) in if w <=? I64_MAX then Some w else None) = Some v) as Hw
      by (cbn zeta; rewrite Hd; by rewrite (proj2 (Z.leb_le v _)) by lia).
    repeat (case_match; try done); by destruct Hm.
Qed.

Lemma signed_decimal_free v : 101 ∉ signed_decimal v.
Proof.
  unfold signed_decimal. destruct (Z.ltb_spec v 0).
  - rewrite elem_of_cons. intros [?|Hin]; [done|]. revert Hin. apply digits_free; [|done].
    apply decimal_value. lia.
  - apply digits_free; [|done]. by apply decimal_value.
Qed.

Section Tokens.
Context (input : list Z) (Hinput : len input <= MAX_BENCODE_INPUT).

(** The length and the bytes of a byte string. *)
Lemma parse_bytes_sound pre rest n b p' :
  input = pre ++ rest ->
  parse_bytes input (mkParser (len pre) n) = Ok (b, p') ->
  exists rest', rest = bencode_bytes b ++ rest' /\ p' = mkParser (len pre + len (bencode_bytes b)) n.
Proof using Hinput.
  intros Hin. unfold parse_bytes, find_terminator. cbn [position nodes]. rewrite Hin at 1. rewrite drop_len.
  unfold MAX_BENCODE_INPUT in Hinput.
  destruct (find_byte 58 rest (len pre)) as [colon|] eqn:Ef; [|done]. cbn [ok_or mbind result_bind].
  apply find_byte_spec in Ef as (a & c & -> & Hna & ->).
  assert (sub input (len pre) (len pre + len a) = a) as -> by (rewrite Hin; by apply sub_middle).
  destruct (bool_decide_reflect (a = [])) as [|Hne]; [done|]. cbn [orb].
  destruct (bool_decide (head a = Some 48) && (len a >? 1)) eqn:Ez; [done|]. cbn [orb].
  destruct (all is_ascii_digit a) eqn:Ed; [|done]. cbn [negb]. apply all_true in Ed.
  assert (canonical a) as Hc.
  { split_and!; [done|done|]. intros [Hh Hl]. rewrite bool_decide_eq_true_2 in Ez by done.
    simpl in Ez. rewrite Z.gtb_ltb in Ez. apply Z.ltb_ge in Ez. lia. }
  unfold parse_usize. destruct (try_from USIZE_MAX (digits_value a)) as [l|] eqn:El; [|done].
  apply try_from_Some in El as [<- Hl]. cbn [ok_or mbind result_bind].
  destruct (checked_add USIZE_MAX (len pre + len a + 1) (digits_value a)) as [e|] eqn:Ee; [|done].
  apply try_from_Some in Ee as [<- _].
  destruct (Z.leb_spec (len pre + len a + 1 + digits_value a) (len input)) as [Hle|]; [|done].
  cbn [ok_or mbind result_bind]. intros [= <- <-].
  rewrite Hin, !len_app, len_cons in Hle.
  assert (len (take (Z.to_nat (digits_value a)) c) = digits_value a) as Htl by (rewrite len_take; lia).
  assert (sub input (len pre + len a + 1) (len pre + len a + 1 + digits_value a)
          = take (Z.to_nat (digits_value a)) c) as ->.
  { rewrite Hin. rewrite <- (take_drop (Z.to_nat (digits_value a)) c) at 1.
    replace (pre ++ a ++ 58 :: take (Z.to_nat (digits_value a)) c ++ drop (Z.to_nat (digits_value a)) c)
      with ((pre ++ a ++ [58]) ++ take (Z.to_nat (digits_value a)) c ++ drop (Z.to_nat (digits_value a)) c)
      by (by rewrite <- !app_assoc).
    apply sub_middle; rewrite !len_app; change (len [58]) with 1; lia. }
  exists (drop (Z.to_nat (digits_value a)) c). unfold bencode_bytes.
  rewrite Htl, (canonical_decimal _ Hc). split.
  + by rewrite <- app_assoc, <- app_comm_cons, take_drop.
  + f_equal. rewrite len_app, len_cons, Htl. lia.
Qed.

Lemma parse_bytes_complete pre rest' n b :
  input = pre ++ bencode_bytes b ++ rest' ->
  parse_bytes input (mkParser (len pre) n) = Ok (b, mkParser (len pre + len (bencode_bytes b)) n).
Proof using Hinput.
  intros Hin. unfold parse_bytes, find_terminator. cbn [position nodes]. rewrite Hin at 1. rewrite drop_len.
  unfold MAX_BENCODE_INPUT in Hinput.
  unfold bencode_bytes in *. rewrite <- app_assoc, <- app_comm_cons in *.
  destruct (decimal_value (len b) ltac:(len_lia)) as [Hc Hv]. pose proof Hc as (Hne & Hd & Hz).
  assert (find_byte 58 (decimal (len b) ++ 58 :: b ++ rest') (len pre)
    = Some (len pre + len (decimal (len b)))) as ->.
  { apply find_byte_spec. exists (decimal (len b)), (b ++ rest'). split_and!; [done| |done].
    by apply digits_free. }
  cbn [ok_or mbind result_bind].
  assert (sub input (len pre) (len pre + len (decimal (len b))) = decimal (len b)) as ->
    by (rewrite Hin; by apply sub_middle).
  rewrite (bool_decide_eq_false_2 (_ = [])) by done. cbn [orb].
  assert (bool_decide (head (decimal (len b)) = Some 48) && (len (decimal (len b)) >? 1) = false) as ->.
  { apply not_true_iff_false. intros [Hh Hl]%andb_true_iff. apply Z.gtb_lt in Hl. to_prop. by apply Hz. }
  rewrite (proj2 (all_true _ _) Hd). cbn [orb negb]. unfold parse_usize. rewrite Hv.
  assert (len input = len pre + len (decimal (len b)) + 1 + len b + len rest') as Hil
    by (rewrite Hin, !len_app, len_cons, len_app; lia).
  pose_lens.
  rewrite (proj2 (try_from_Some _ _ (len b))) by (unfold USIZE_MAX, U64_MAX; lia).
  cbn [ok_or mbind result_bind]. unfold checked_add.
  rewrite (proj2 (try_from_Some _ _ (len pre + len (decimal (len b)) + 1 + len b)))
    by (unfold USIZE_MAX, U64_MAX; lia).
  rewrite (proj2 (Z.leb_le _ (len input))) by lia. cbn [ok_or mbind result_bind]. do 3 f_equal.
  + rewrite Hin. replace (pre ++ decimal (len b) ++ 58 :: b ++ rest')
      with ((pre ++ decimal (len b) ++ [58]) ++ b ++ rest') by (by rewrite <- !app_assoc).
    apply sub_middle; rewrite !len_app; change (len [58]) with 1; lia.
  + rewrite len_app, len_cons. lia.
Qed.

(** An integer between its markers. *)
Lemma parse_integer_sound pre rest n v p' :
  input = pre ++ 105 :: rest ->
  parse_integer input (mkParser (len pre) n) = Ok (v, p') ->
  exists x rest', rest = signed_decimal x ++ 101 :: rest' /\ v = BInteger x
    /\ - (I64_MAX + 1) <= x <= I64_MAX
    /\ p' = mkParser (len pre + len (105 :: signed_decimal x ++ [101])) n.
Proof.
  intros Hin. unfold parse_integer, find_terminator. cbn [position nodes].
  assert (input = (pre ++ [105]) ++ rest) as Hin' by (by rewrite <- app_assoc).
  assert (len pre + 1 = len (pre ++ [105])) as -> by len_lia.
  rewrite Hin' at 1. rewrite drop_len.
  destruct (find_byte 101 rest (len (pre ++ [105]))) as [e|] eqn:Ef; [|done]. cbn [ok_or mbind result_bind].
  apply find_byte_spec in Ef as (a & c & -> & _ & ->).
  assert (sub input (len (pre ++ [105])) (len (pre ++ [105]) + len a) = a) as ->
    by (rewrite Hin'; by apply sub_middle).
  destruct (bad_integer a) eqn:Eb; [done|]. destruct (parse_i64 a) as [x|] eqn:Ex; [|done].
  cbn [ok_or mbind result_bind]. intros [= <- <-].
  destruct (parse_i64_sound _ _ Eb Ex) as [-> Hr]. exists x, c. split_and!; try done; try lia.
  f_equal. rewrite len_cons, !len_app. change (len [105]) with 1. change (len [101]) with 1. lia.
Qed.

Lemma parse_integer_complete pre rest' n x :
  input = pre ++ (105 :: signed_decimal x ++ [101]) ++ rest' ->
  - (I64_MAX + 1) <= x <= I64_MAX ->
  parse_integer input (mkParser (len pre) n)
  = Ok (BInteger x, mkParser (len pre + len (105 :: signed_decimal x ++ [101])) n).
Proof.
  intros Hin Hr. unfold parse_integer, find_terminator. cbn [position nodes].
  assert (input = (pre ++ [105]) ++ signed_decimal x ++ 101 :: rest') as Hin'
    by (rewrite Hin; simpl; by rewrite <- !app_assoc).
  assert (len pre + 1 = len (pre ++ [105])) as -> by len_lia.
  rewrite Hin' at 1. rewrite drop_len.
  assert (find_byte 101 (signed_decimal x ++ 101 :: rest') (len (pre ++ [105]))
    = Some (len (pre ++ [105]) + len (signed_decimal x))) as ->.
  { apply find_byte_spec. exists (signed_decimal x), rest'. split_and!; [done|apply signed_decimal_free|done]. }
  cbn [ok_or mbind result_bind].
  assert (sub input (len (pre ++ [105])) (len (pre ++ [105]) + len (signed_decimal x)) = signed_decimal x) as ->
    by (rewrite Hin'; by apply sub_middle).
  destruct (parse_i64_complete x Hr) as [-> ->]. cbn [ok_or mbind result_bind]. do 3 f_equal.
  rewrite len_cons, !len_app. change (len [105]) with 1. change (len [101]) with 1. lia.
Qed.
End Tokens.

(** ** Nodes *)

Lemma place_list pos l :
  place pos (VList l) = Node (BList (place_items (pos + 1) l)) pos (pos + len (bencode (VList l))).
Proof. reflexivity. Qed.

Lemma place_dictionary pos l :
  place pos (VDictionary l)
  = Node (BDictionary (place_entries (pos + 1) l)) pos (pos + len (bencode (VDictionary l))).
Proof. reflexivity. Qed.

Definition items_ok (depth : Z) (l : list bval) : Prop :=
  foldr (fun v P => value_ok depth v /\ P) True l.
Definition entries_ok (depth : Z) (l : list (list Z * bval)) : Prop :=
  foldr (fun e P => value_ok depth e.2 /\ P) True l.

Definition bencode_entry (e : list Z * bval) : list Z := bencode_bytes e.1 ++ bencode e.2.

Lemma len_bencode_bytes b : 2 <= len (bencode_bytes b).
Proof.
  unfold bencode_bytes. destruct (decimal_value (len b) ltac:(len_lia)) as [(Hne & _) _].
  destruct (decimal (len b)); [done|]. rewrite len_app, !len_cons. len_lia.
Qed.

Lemma len_bencode v : 2 <= len (bencode v).
Proof.
  destruct v; cbn [bencode]; [apply len_bencode_bytes|..]; rewrite len_cons, len_app; change (len [101]) with 1;
    len_lia.
Qed.

Lemma node_count_pos v : 1 <= node_count v.
Proof.
  assert (forall A (f : A -> Z) l, (forall x, 0 <= f x) -> 0 <= sum f l) as Hsum.
  { intros A f l Hf. unfold sum. induction l as [|x l IH]; simpl; [lia|]. specialize (Hf x). lia. }
  revert v. fix IH 1. intros v. destruct v as [b|n|l|l]; cbn [node_count].
  - lia.
  - lia.
  - assert (0 <= sum node_count l); [|lia]. induction l as [|x l IHl]; [done|].
    unfold sum in *. simpl. specialize (IH x). lia.
  - assert (0 <= sum (fun e => node_count e.2) l); [|lia]. induction l as [|x l IHl]; [done|].
    unfold sum in *. simpl. specialize (IH x.2). lia.
Qed.

(** The first byte of an encoding decides the case of [parse_node]. *)
Lemma head_bencode_bytes b : exists d l, bencode_bytes b = d :: l /\ is_ascii_digit d = true.
Proof.
  unfold bencode_bytes. destruct (decimal_value (len b) ltac:(len_lia)) as [(Hne & Hd & _) _].
  destruct (decimal (len b)) as [|d l]; [done|]. apply Forall_cons_iff in Hd as [Hd _]. simpl. eauto.
Qed.

Lemma head_bencode v : exists t l, bencode v = t :: l /\ t <> 101.
Proof.
  destruct v; cbn [bencode]; eauto. destruct (head_bencode_bytes bytes) as (d & l & -> & Hd).
  exists d, l. split; [done|]. intros ->. done.
Qed.

Section Nodes.
Context (input : list Z).

Definition node_sound (fuel : nat) : Prop :=
  forall depth pre rest n node p',
    input = pre ++ rest -> 0 <= n <= MAX_BENCODE_NODES ->
    parse_node input fuel depth (mkParser (len pre) n) = Some (Ok (node, p')) ->
    exists v rest', rest = bencode v ++ rest' /\ node = place (len pre) v /\ value_ok depth v
      /\ n + node_count v <= MAX_BENCODE_NODES
      /\ p' = mkParser (len pre + len (bencode v)) (n + node_count v).

Definition items_sound (fuel : nat) : Prop :=
  forall depth pre rest n acc l p',
    input = pre ++ rest -> 0 <= n <= MAX_BENCODE_NODES ->
    parse_items input fuel depth (mkParser (len pre) n) acc = Some (Ok (l, p')) ->
    exists vs rest', rest = concat (map bencode vs) ++ 101 :: rest' /\ l = acc ++ place_items (len pre) vs
      /\ items_ok (depth + 1) vs /\ n + sum node_count vs <= MAX_BENCODE_NODES
      /\ p' = mkParser (len pre + len (concat (map bencode vs)) + 1) (n + sum node_count vs).

Definition entries_sound (fuel : nat) : Prop :=
  forall depth pre rest n prev acc l p',
    input = pre ++ rest -> 0 <= n <= MAX_BENCODE_NODES ->
    parse_entries input fuel depth (mkParser (len pre) n) prev acc = Some (Ok (l, p')) ->
    exists vs rest', rest = concat (map bencode_entry vs) ++ 101 :: rest'
      /\ l = acc ++ place_entries (len pre) vs
      /\ keys_sorted prev vs /\ entries_ok (depth + 1) vs
      /\ n + sum (fun e => node_count e.2) vs <= MAX_BENCODE_NODES
      /\ p' = mkParser (len pre + len (concat (map bencode_entry vs)) + 1)
                (n + sum (fun e => node_count e.2) vs).

Lemma get_pre pre rest : input = pre ++ rest -> get input (len pre) = head rest.
Proof.
  intros ->. unfold get, len. rewrite (proj2 (Z.leb_le 0 _)), Nat2Z.id by lia.
  rewrite lookup_app_r, Nat.sub_diag by lia. by destruct rest.
Qed.

Lemma items_sound_step fuel : node_sound fuel -> items_sound fuel -> items_sound (S fuel).
Proof.
  intros IHn IHi depth pre rest n acc l p' Hin Hn. cbn [parse_items position nodes].
  rewrite (get_pre _ _ Hin). case_bool_decide as Hh.
  - intros [= <- <-]. destruct rest as [|x rest]; [done|]. simpl in Hh. simplify_eq/=.
    exists [], rest. rewrite app_nil_r. rewrite sum_nil. cbn [map concat]. split_and!; try done; [lia|].
    f_equal; len_lia.
  - destruct (parse_node input fuel (depth + 1) _) as [[[v p1]|e]|] eqn:Ep; [|done..]. intros Ei.
    destruct (IHn _ _ _ _ _ _ Hin Hn Ep) as (w & rest1 & -> & -> & Hw & Hc & ->).
    pose proof (node_count_pos w).
    rewrite <- len_app in Ei.
    destruct (IHi depth (pre ++ bencode w) rest1 (n + node_count w) _ _ _ ltac:(by rewrite <- app_assoc) ltac:(lia) Ei)
      as (vs & rest' & -> & -> & Hvs & Hcs & ->).
    exists (w :: vs), rest'. cbn [map concat place_items]. split_and!.
    + by rewrite <- app_assoc.
    + by rewrite <- app_assoc, len_app.
    + by split.
    + rewrite sum_cons. lia.
    + rewrite sum_cons. f_equal; [len_lia|lia].
Qed.

Context (Hinput : len input <= MAX_BENCODE_INPUT).

Lemma entries_sound_step fuel : node_sound fuel -> entries_sound fuel -> entries_sound (S fuel).
Proof using Hinput.
  intros IHn IHe depth pre rest n prev acc l p' Hin Hn. cbn [parse_entries position nodes].
  rewrite (get_pre _ _ Hin). case_bool_decide as Hh.
  - intros [= <- <-]. destruct rest as [|x rest]; [done|]. simpl in Hh. simplify_eq/=.
    exists [], rest. rewrite app_nil_r. rewrite sum_nil. cbn [map concat]. split_and!; try done; [lia|].
    f_equal; len_lia.
  - destruct (negb _); [done|].
    destruct (parse_bytes input _) as [[key p1]|e] eqn:Ek; [|done].
    destruct (parse_bytes_sound input Hinput _ _ _ _ _ Hin Ek) as (rest1 & -> & ->).
    destruct (match prev with Some _ => _ | None => _ end) eqn:Eprev; [done|].
    rewrite <- len_app.
    destruct (parse_node input fuel (depth + 1) _) as [[[v p2]|e]|] eqn:Ep; [|done..]. intros Ei.
    destruct (IHn _ (pre ++ bencode_bytes key) rest1 _ _ _ ltac:(by rewrite <- app_assoc) Hn Ep)
      as (w & rest2 & -> & -> & Hw & Hc & ->). pose proof (node_count_pos w).
    rewrite <- len_app in Ei.
    destruct (IHe depth ((pre ++ bencode_bytes key) ++ bencode w) rest2 (n + node_count w) _ _ _ _
      ltac:(by rewrite <- !app_assoc) ltac:(lia) Ei) as (vs & rest' & -> & -> & Hks & Hvs & Hcs & ->).
    exists ((key, w) :: vs), rest'. cbn [map concat place_entries]. split_and!.
    + unfold bencode_entry at 2. cbn [fst snd]. by rewrite <- !app_assoc.
    + by rewrite <- app_assoc, !len_app.
    + split; [|done]. destruct prev as [c|]; [|done]. by apply negb_false_iff in Eprev.
    + by split.
    + rewrite sum_cons. cbn [snd]. lia.
    + rewrite sum_cons. cbn [snd]. f_equal; [|lia]. unfold bencode_entry at 2. cbn [fst snd]. len_lia.
Qed.

Lemma node_sound_step fuel : items_sound fuel -> entries_sound fuel -> node_sound (S fuel).
Proof using Hinput.
  intros IHi IHe depth pre rest n node p' Hin Hn. cbn [parse_node position nodes].
  destruct (Z.gtb_spec depth MAX_BENCODE_DEPTH) as [|Hdepth]; [done|]. cbn zeta. unfold sat_add.
  rewrite Z.min_r by (unfold USIZE_MAX, U64_MAX, MAX_BENCODE_NODES in *; lia). cbn [position nodes].
  destruct (Z.gtb_spec (n + 1) MAX_BENCODE_NODES) as [|Hn1]; [done|].
  rewrite (get_pre _ _ Hin). destruct rest as [|t rest]; cbn [head]; [done|].
  assert (input = (pre ++ [t]) ++ rest) as Hin1 by (by rewrite <- app_assoc).
  assert (len pre + 1 = len (pre ++ [t])) as Hlen1 by len_lia.
  destruct (Z.eqb_spec t 105) as [->|H105]; [|destruct (Z.eqb_spec t 108) as [->|H108];
    [|destruct (Z.eqb_spec t 100) as [->|H100]; [|destruct (is_ascii_digit t)]]]; [..|done].
  - destruct (parse_integer input _) as [[v p1]|e] eqn:Ei; [|done]. intros [= <- <-].
    destruct (parse_integer_sound input _ _ _ _ _ Hin Ei) as (x & rest' & -> & -> & Hx & ->).
    exists (VInteger x), rest'. cbn [bencode node_count position]. split_and!; try done; try lia.
    simpl. by rewrite <- app_assoc.
  - rewrite Hlen1. destruct (parse_items input fuel depth _ []) as [[[l p1]|e]|] eqn:Ei; [|done..].
    intros [= <- <-].
    destruct (IHi depth (pre ++ [108]) rest (n + 1) [] l p1 Hin1 ltac:(lia) Ei)
      as (vs & rest' & -> & -> & Hvs & Hc & ->).
    exists (VList vs), rest'. cbn [bencode node_count position]. rewrite place_list. cbn [app bencode].
    split_and!; try done; try lia.
    + simpl. by rewrite <- app_assoc.
    + rewrite Hlen1. f_equal. rewrite len_cons, !len_app. change (len [108]) with 1. change (len [101]) with 1. lia.
    + f_equal; [|lia]. rewrite len_cons, !len_app. change (len [108]) with 1. change (len [101]) with 1. lia.
  - rewrite Hlen1. destruct (parse_entries input fuel depth _ None []) as [[[l p1]|e]|] eqn:Ei; [|done..].
    intros [= <- <-].
    destruct (IHe depth (pre ++ [100]) rest (n + 1) None [] l p1 Hin1 ltac:(lia) Ei)
      as (vs & rest' & -> & -> & Hks & Hvs & Hc & ->).
    exists (VDictionary vs), rest'. cbn [bencode node_count position]. rewrite place_dictionary.
    cbn [app bencode]. fold bencode_entry. split_and!; try done; try lia.
    + simpl. by rewrite <- app_assoc.
    + rewrite Hlen1. f_equal. rewrite len_cons, !len_app. change (len [100]) with 1. change (len [101]) with 1. lia.
    + f_equal; [|lia]. rewrite len_cons, !len_app. change (len [100]) with 1. change (len [101]) with 1. lia.
  - destruct (parse_bytes input _) as [[b p1]|e] eqn:Eb; [|done]. cbn [mbind result_bind]. intros [= <- <-].
    destruct (parse_bytes_sound input Hinput _ _ _ _ _ Hin Eb) as (rest' & Hr & ->).
    exists (VBytes b), rest'. cbn [bencode node_count position]. by split_and!.
Qed.

Lemma parser_sound fuel : node_sound fuel /\ items_sound fuel /\ entries_sound fuel.
Proof using Hinput.
  induction fuel as [|fuel (IHn & IHi & IHe)]; [by split_and!|].
  split_and!; [by apply node_sound_step|by apply items_sound_step|by apply entries_sound_step].
Qed.
(** Encodings are accepted: enough fuel parses the encoding of a value. *)
Definition node_complete (fuel : nat) : Prop :=
  forall depth pre rest' n v,
    input = pre ++ bencode v ++ rest' -> value_ok depth v ->
    0 <= n -> n + node_count v <= MAX_BENCODE_NODES -> 2 * len (bencode v) <= Z.of_nat fuel ->
    parse_node input fuel depth (mkParser (len pre) n)
    = Some (Ok (place (len pre) v, mkParser (len pre + len (bencode v)) (n + node_count v))).

Definition items_complete (fuel : nat) : Prop :=
  forall depth pre rest' n acc vs,
    input = pre ++ concat (map bencode vs) ++ 101 :: rest' -> items_ok (depth + 1) vs ->
    0 <= n -> n + sum node_count vs <= MAX_BENCODE_NODES ->
    2 * len (concat (map bencode vs)) + 1 <= Z.of_nat fuel ->
    parse_items input fuel depth (mkParser (len pre) n) acc
    = Some (Ok (acc ++ place_items (len pre) vs,
                mkParser (len pre + len (concat (map bencode vs)) + 1) (n + sum node_count vs))).

Definition entries_complete (fuel : nat) : Prop :=
  forall depth pre rest' n prev acc vs,
    input = pre ++ concat (map bencode_entry vs) ++ 101 :: rest' ->
    keys_sorted prev vs -> entries_ok (depth + 1) vs ->
    0 <= n -> n + sum (fun e => node_count e.2) vs <= MAX_BENCODE_NODES ->
    2 * len (concat (map bencode_entry vs)) + 1 <= Z.of_nat fuel ->
    parse_entries input fuel depth (mkParser (len pre) n) prev acc
    = Some (Ok (acc ++ place_entries (len pre) vs,
                mkParser (len pre + len (concat (map bencode_entry vs)) + 1)
                  (n + sum (fun e => node_count e.2) vs))).

Lemma items_complete_step fuel : node_complete fuel -> items_complete fuel -> items_complete (S fuel).
Proof.
  intros IHn IHi depth pre rest' n acc vs Hin Hok Hn Hc Hf. cbn [parse_items position nodes].
  rewrite (get_pre _ _ Hin). destruct vs as [|w vs].
  - cbn [map concat app head place_items]. rewrite bool_decide_eq_true_2 by done.
    rewrite app_nil_r, sum_nil. repeat f_equal; len_lia.
  - cbn [map concat place_items] in *. destruct Hok as [Hw Hok]. rewrite sum_cons in Hc |- *.
    rewrite len_app in Hf. pose proof (len_bencode w). pose proof (node_count_pos w).
    pose proof (sum_nonneg node_count vs ltac:(intros x; pose proof (node_count_pos x); lia)).
    destruct (head_bencode w) as (t & b & Ht & Hne).
    rewrite (bool_decide_eq_false_2 (_ = Some 101)) by (rewrite Ht; simpl; congruence).
    rewrite <- app_assoc in Hin. rewrite (IHn _ pre _ n w Hin Hw) by (pose_lens; lia).
    rewrite <- len_app. rewrite app_assoc in Hin.
    rewrite (IHi depth _ rest' (n + node_count w) _ vs Hin Hok) by (pose_lens; lia).
    rewrite <- app_assoc, !len_app. cbn [app]. do 3 f_equal. f_equal; lia.
Qed.

Lemma entries_complete_step fuel : node_complete fuel -> entries_complete fuel -> entries_complete (S fuel).
Proof using Hinput.
  intros IHn IHe depth pre rest' n prev acc vs Hin Hks Hok Hn Hc Hf. cbn [parse_entries position nodes].
  rewrite (get_pre _ _ Hin). destruct vs as [|[k w] vs].
  - cbn [map concat app head place_entries]. rewrite bool_decide_eq_true_2 by done.
    rewrite app_nil_r, sum_nil. repeat f_equal; len_lia.
  - cbn [map concat place_entries] in *. destruct Hok as [Hw Hok]. destruct Hks as [Hp Hks].
    rewrite sum_cons in Hc |- *. cbn [fst snd] in *. change (bencode_entry (k, w)) with (bencode_bytes k ++ bencode w) in *.
    rewrite !len_app in Hf. pose proof (len_bencode w). pose proof (len_bencode_bytes k).
    pose proof (node_count_pos w).
    pose proof (sum_nonneg (fun e : list Z * bval => node_count e.2) vs
      ltac:(intros x; pose proof (node_count_pos x.2); lia)).
    destruct (head_bencode_bytes k) as (t & b & Ht & Hd).
    assert (forall r, head (((bencode_bytes k ++ bencode w) ++ concat (map bencode_entry vs)) ++ r) = Some t) as ->
      by (intros r; by rewrite Ht).
    rewrite Hd. cbn [negb]. apply is_digit_range in Hd.
    rewrite bool_decide_eq_false_2 by (intros [= ->]; lia).
    rewrite <- !app_assoc in Hin. rewrite (parse_bytes_complete input Hinput pre _ n k Hin).
    assert (match prev with Some candidate => negb (lex_ltb candidate k) | None => false end = false) as ->
      by (destruct prev; [by rewrite Hp|done]).
    rewrite <- len_app. rewrite app_assoc in Hin.
    rewrite (IHn _ _ _ n w Hin Hw) by (pose_lens; lia).
    rewrite <- len_app. rewrite app_assoc in Hin.
    rewrite (IHe depth _ rest' (n + node_count w) _ _ vs Hin Hks Hok) by (pose_lens; lia).
    rewrite <- app_assoc, !len_app. cbn [app]. do 3 f_equal. f_equal; lia.
Qed.
Lemma node_complete_step fuel : items_complete fuel -> entries_complete fuel -> node_complete (S fuel).
Proof using Hinput.
  intros IHi IHe depth pre rest' n v Hin Hok Hn Hc Hf. cbn [parse_node position nodes].
  pose proof (node_count_pos v).
  assert (depth <= MAX_BENCODE_DEPTH) as Hdepth by (destruct v; apply Hok).
  destruct (Z.gtb_spec depth MAX_BENCODE_DEPTH) as [|_]; [lia|]. cbn zeta. unfold sat_add.
  rewrite Z.min_r by (unfold USIZE_MAX, U64_MAX, MAX_BENCODE_NODES in *; lia). cbn [position nodes].
  destruct (Z.gtb_spec (n + 1) MAX_BENCODE_NODES) as [|_]; [lia|].
  rewrite (get_pre _ _ Hin). destruct v as [b|x|l|l].
  - cbn [bencode node_count] in *. destruct (head_bencode_bytes b) as (t & b' & Ht & Hd).
    assert (head (bencode_bytes b ++ rest') = Some t) as -> by (by rewrite Ht). apply is_digit_range in Hd as Hd'.
    rewrite !(proj2 (Z.eqb_neq t _)) by lia. rewrite Hd.
    by rewrite (parse_bytes_complete input Hinput pre rest' (n + 1) b Hin).
  - cbn [bencode node_count] in *. cbn [app head]. change (105 =? 105) with true. cbn iota.
    by rewrite (parse_integer_complete input pre rest' (n + 1) x Hin (proj2 Hok)).
  - destruct Hok as [_ Hok]. rewrite place_list. cbn [bencode node_count] in *. cbn [app head].
    change (108 =? 105) with false. change (108 =? 108) with true. cbn iota.
    rewrite len_cons, len_app in Hf. change (len [101]) with 1 in Hf.
    assert (input = (pre ++ [108]) ++ concat (map bencode l) ++ 101 :: rest') as Hin1
      by (rewrite Hin; simpl; by rewrite <- !app_assoc).
    replace (len pre + 1) with (len (pre ++ [108])) by len_lia.
    rewrite (IHi depth _ _ (n + 1) [] l Hin1 Hok) by (pose_lens; lia). cbn [app position].
    rewrite len_cons, !len_app. change (len [101]) with 1. change (len [108]) with 1.
    do 2 f_equal. f_equal; f_equal; lia.
  - destruct Hok as (_ & Hks & Hok). rewrite place_dictionary. cbn [bencode node_count] in *. cbn [app head].
    fold bencode_entry in *.
    change (100 =? 105) with false. change (100 =? 108) with false. change (100 =? 100) with true. cbn iota.
    rewrite len_cons, len_app in Hf. change (len [101]) with 1 in Hf.
    assert (input = (pre ++ [100]) ++ concat (map bencode_entry l) ++ 101 :: rest') as Hin1
      by (rewrite Hin; simpl; by rewrite <- !app_assoc).
    replace (len pre + 1) with (len (pre ++ [100])) by len_lia.
    rewrite (IHe depth _ _ (n + 1) None [] l Hin1 Hks Hok) by (pose_lens; lia). cbn [app position].
    rewrite len_cons, !len_app. change (len [101]) with 1. change (len [100]) with 1.
    do 2 f_equal. f_equal; f_equal; lia.
Qed.

Lemma parser_complete fuel : node_complete fuel /\ items_complete fuel /\ entries_complete fuel.
Proof using Hinput.
  induction fuel as [|fuel (IHn & IHi & IHe)].
  - split_and!.
    + intros depth pre rest' n v _ _ _ _ Hf. pose proof (len_bencode v). lia.
    + intros depth pre rest' n acc vs _ _ _ _ Hf. pose_lens. lia.
    + intros depth pre rest' n prev acc vs _ _ _ _ _ Hf. pose_lens. lia.
  - split_and!; [by apply node_complete_step|by apply items_complete_step|by apply entries_complete_step].
Qed.

(** Fuel: a call with [2 * rest + 2] units left for [rest] bytes of input returns. *)
Lemma parser_returns fuel depth pre rest n :
  input = pre ++ rest -> 0 <= n <= MAX_BENCODE_NODES ->
  (2 * len rest + 2 <= Z.of_nat fuel -> parse_node input fuel depth (mkParser (len pre) n) <> None)
  /\ (2 * len rest + 3 <= Z.of_nat fuel -> forall acc,
        parse_items input fuel depth (mkParser (len pre) n) acc <> None)
  /\ (2 * len rest + 3 <= Z.of_nat fuel -> forall prev acc,
        parse_entries input fuel depth (mkParser (len pre) n) prev acc <> None).
Proof using Hinput.
  revert depth pre rest n. induction fuel as [|fuel IH]; intros depth pre rest n Hin Hn.
  { pose_lens. split_and!; lia. }
  split_and!; intros Hf.
  - cbn [parse_node position nodes]. destruct (Z.gtb_spec depth MAX_BENCODE_DEPTH) as [|_]; [done|]. cbn zeta.
    unfold sat_add. rewrite Z.min_r by (unfold USIZE_MAX, U64_MAX, MAX_BENCODE_NODES in *; lia). cbn [position nodes].
    destruct (Z.gtb_spec (n + 1) MAX_BENCODE_NODES) as [|Hn1]; [done|].
    rewrite (get_pre _ _ Hin). destruct rest as [|t rest]; [done|]. cbn [head]. rewrite len_cons in Hf.
    assert (input = (pre ++ [t]) ++ rest) as Hin1 by (by rewrite <- app_assoc).
    destruct (IH depth _ rest (n + 1) Hin1 ltac:(lia)) as (_ & Hi & He).
    replace (len pre + 1) with (len (pre ++ [t])) by len_lia.
    specialize (Hi ltac:(lia) []). specialize (He ltac:(lia) None []).
    repeat (case_match; try done).
  - intros acc. cbn [parse_items position nodes]. case_bool_decide; [done|].
    destruct (parse_node input fuel (depth + 1) _) as [[[v p1]|e]|] eqn:Ep; [|done|].
    + destruct (proj1 (parser_sound fuel) _ _ _ _ _ _ Hin Hn Ep) as (w & rest1 & -> & -> & _ & Hc & ->).
      pose proof (node_count_pos w). pose proof (len_bencode w). rewrite len_app in Hf. rewrite <- len_app.
      apply (IH depth (pre ++ bencode w) rest1 (n + node_count w)); [by rewrite <- app_assoc|lia|lia].
    + by apply (IH (depth + 1) _ _ n Hin Hn) in Ep; [|lia].
  - intros prev acc. cbn [parse_entries position nodes]. case_bool_decide; [done|]. destruct (negb _); [done|].
    destruct (parse_bytes input _) as [[k p0]|e] eqn:Ek; [|done]. destruct (match prev with Some _ => _ | None => _ end); [done|].
    destruct (parse_bytes_sound input Hinput _ _ _ _ _ Hin Ek) as (rest0 & -> & ->).
    pose proof (len_bencode_bytes k). rewrite len_app in Hf. rewrite <- len_app. rewrite app_assoc in Hin.
    destruct (parse_node input fuel (depth + 1) _) as [[[v p1]|e]|] eqn:Ep; [|done|].
    + destruct (proj1 (parser_sound fuel) _ _ _ _ _ _ Hin Hn Ep) as (w & rest1 & -> & -> & _ & Hc & ->).
      pose proof (node_count_pos w). pose proof (len_bencode w). rewrite len_app in Hf. rewrite <- len_app.
      apply (IH depth ((pre ++ bencode_bytes k) ++ bencode w) rest1 (n + node_count w));
        [by rewrite <- !app_assoc in *|lia|lia].
    + by apply (IH (depth + 1) _ _ n Hin Hn) in Ep; [|lia].
Qed.
End Nodes.

(** ** The parser against the format *)

(** The tree of nodes below a node. *)
Inductive within (m : BencodeNode) : BencodeNode -> Prop :=
| within_self : within m m
| within_item n l s e : n ∈ l -> within m n -> within m (Node (BList l) s e)
| within_entry k n l s e : (k, n) ∈ l -> within m n -> within m (Node (BDictionary l) s e).

Lemma node_start_place pos v : node_start (place pos v) = pos.
Proof. by destruct v. Qed.

Lemma node_end_place pos v : node_end (place pos v) = pos + len (bencode v).
Proof. by destruct v. Qed.

Lemma place_items_elem n l pos :
  n ∈ place_items pos l ->
  exists pre w post, concat (map bencode l) = pre ++ bencode w ++ post /\ n = place (pos + len pre) w.
Proof.
  revert pos. induction l as [|v l IH]; intros pos; cbn [place_items map concat].
  { by intros ?%elem_of_nil. }
  intros [->|Hin]%elem_of_cons.
  - exists [], v, (concat (map bencode l)). split; [done|]. change (len []) with 0. by rewrite Z.add_0_r.
  - destruct (IH _ Hin) as (pre & w & post & -> & ->). exists (bencode v ++ pre), w, post.
    rewrite <- app_assoc, len_app, Z.add_assoc. done.
Qed.

Lemma place_entries_elem k n l pos :
  (k, n) ∈ place_entries pos l ->
  exists pre w post, concat (map bencode_entry l) = pre ++ bencode w ++ post /\ n = place (pos + len pre) w.
Proof.
  revert pos. induction l as [|[k' v] l IH]; intros pos; cbn [place_entries map concat].
  { by intros ?%elem_of_nil. }
  change (bencode_entry (k', v)) with (bencode_bytes k' ++ bencode v).
  intros [[= -> ->]|Hin]%elem_of_cons.
  - exists (bencode_bytes k'), v, (concat (map bencode_entry l)). by rewrite <- app_assoc.
  - destruct (IH _ Hin) as (pre & w & post & -> & ->). exists (bencode_bytes k' ++ bencode v ++ pre), w, post.
    rewrite <- !app_assoc, !len_app, !Z.add_assoc. done.
Qed.

(** A node below the placed tree is placed at its own encoding. *)
Lemma within_place m n :
  within m n -> forall pos v, n = place pos v ->
  exists pre w post, bencode v = pre ++ bencode w ++ post /\ m = place (pos + len pre) w.
Proof.
  induction 1 as [|n l s e Hin _ IH|k n l s e Hin _ IH]; intros pos v Hv.
  - exists [], v, []. rewrite app_nil_r. split; [done|]. change (len []) with 0. by rewrite Z.add_0_r.
  - destruct v as [| |vs|]; try done. rewrite place_list in Hv. injection Hv as -> -> ->.
    destruct (place_items_elem _ _ _ Hin) as (pre & w & post & Hc & Hn).
    destruct (IH _ _ Hn) as (pre' & w' & post' & Hc' & ->). cbn [bencode]. rewrite Hc, Hc'.
    exists (108 :: pre ++ pre'), w', (post' ++ post ++ [101]). split; [simpl; by rewrite <- !app_assoc|].
    f_equal. rewrite len_cons, len_app. lia.
  - destruct v as [| | |vs]; try done. rewrite place_dictionary in Hv. injection Hv as -> -> ->.
    destruct (place_entries_elem _ _ _ _ Hin) as (pre & w & post & Hc & Hn).
    destruct (IH _ _ Hn) as (pre' & w' & post' & Hc' & ->). cbn [bencode]. fold bencode_entry. rewrite Hc, Hc'.
    exists (100 :: pre ++ pre'), w', (post' ++ post ++ [101]). split; [simpl; by rewrite <- !app_assoc|].
    f_equal. rewrite len_cons, len_app. lia.
Qed.

Lemma parse_bencode_Ok input node :
  parse_bencode input = Some (Ok node)
  <-> exists v, len input <= MAX_BENCODE_INPUT /\ value_ok 0 v /\ node_count v <= MAX_BENCODE_NODES
        /\ input = bencode v /\ node = place 0 v.
Proof.
  unfold parse_bencode. destruct (Z.gtb_spec (len input) MAX_BENCODE_INPUT) as [|Hi].
  { split; [done|]. intros (v & ? & _). lia. }
  split.
  - destruct (parse_node _ _ _ _) as [[[n p]|e]|] eqn:Ep; try done.
    destruct (Z.eqb_spec (position p) (len input)) as [Hp|]; [|done]. intros [= <-].
    destruct (proj1 (parser_sound input Hi _) 0 [] input 0 n p eq_refl ltac:(done) Ep)
      as (v & rest' & Hin & -> & Hok & Hc & ->). exists v. split_and!; try done.
    rewrite Hin. cbn [position] in Hp. change (len []) with 0 in Hp.
    rewrite Hin, len_app in Hp. destruct rest'; [apply app_nil_r|]. rewrite len_cons in Hp. pose_lens. lia.
  - intros (v & _ & Hok & Hc & -> & ->).
    assert (2 * len (bencode v) <= Z.of_nat (bencode_fuel (bencode v))) as Hf
      by (unfold bencode_fuel, len; lia).
    change 0 with (len (@nil Z)) at 2.
    rewrite (proj1 (parser_complete (bencode v) Hi _) 0 [] [] 0 v ltac:(by rewrite app_nil_r) Hok ltac:(done) Hc Hf).
    cbn [position]. change (len []) with 0. by rewrite Z.add_0_l, Z.eqb_refl.
Qed.

Lemma parse_bencode_returns input : parse_bencode input <> None.
Proof.
  unfold parse_bencode. destruct (Z.gtb_spec (len input) MAX_BENCODE_INPUT) as [|Hi]; [done|].
  destruct (parser_returns input Hi (bencode_fuel input) 0 [] input 0 eq_refl ltac:(done)) as [Hn _].
  specialize (Hn ltac:(unfold bencode_fuel, len; lia)). change (len []) with 0 in Hn.
  repeat (case_match; try done).
Qed.

(** C35: [parse_bencode] returns on every input (the fuel suffices), and accepts it
    exactly when it is at most [MAX_BENCODE_INPUT] long and the canonical encoding
    of a value nested at most [MAX_BENCODE_DEPTH] deep, of at most
    [MAX_BENCODE_NODES] nodes, with 64-bit integers and strictly sorted keys; the
    node is then that value, with its positions. *)
Theorem parse_bencode_exact input :
  parse_bencode input <> None
  /\ forall node, parse_bencode input = Some (Ok node)
     <-> exists v, len input <= MAX_BENCODE_INPUT /\ value_ok 0 v /\ node_count v <= MAX_BENCODE_NODES
           /\ input = bencode v /\ node = place 0 v.
Proof. split; [apply parse_bencode_returns|]. intros node. apply parse_bencode_Ok. Qed.

(** In an accepted input, the byte range recorded for any node of the tree is
    exactly the canonical encoding of that node's value: hashing the raw [info]
    range hashes the parsed dictionary. *)
Theorem bencode_ranges input node m :
  parse_bencode input = Some (Ok node) -> within m node ->
  exists w, m = place (node_start m) w /\ sub input (node_start m) (node_end m) = bencode w.
Proof.
  intros (v & _ & _ & _ & -> & ->)%parse_bencode_Ok Hm.
  destruct (within_place _ _ Hm 0 v eq_refl) as (pre & w & post & -> & ->).
  exists w. rewrite node_start_place, node_end_place. split; [done|]. apply sub_middle; lia.
Qed.

Lemma bencode_ranges_witness :
  let input := str "d4:infod6:lengthi12eee" in
  exists w, place 7 w = Node (BDictionary [(str "length", Node (BInteger 12) 16 20)]) 7 21
    /\ sub input 7 21 = bencode w.
Proof.
  cbv zeta.
  destruct (bencode_ranges (str "d4:infod6:lengthi12eee")
    (Node (BDictionary [(str "info", Node (BDictionary [(str "length", Node (BInteger 12) 16 20)]) 7 21)]) 0 22)
    (Node (BDictionary [(str "length", Node (BInteger 12) 16 20)]) 7 21)) as (w & Hw & Hs).
  - vm_compute. reflexivity.
  - apply (within_entry _ (str "info") (Node (BDictionary [(str "length", Node (BInteger 12) 16 20)]) 7 21));
      [left|constructor].
  - exists w. split; [symmetry; exact Hw|exact Hs].
Defined.
