(* ===== verification/Torrent.v ===== *)
(** * Torrent: identities calculated from metainfo (crates/triptorrent-interop)

    [torrent_identity] classifies the [info] dictionary of a parsed metainfo file
    as v1, v2 or hybrid and hashes its raw bytes; [v2_file_root] is the layered
    Merkle construction of BEP 52.  Theorems: the binary search [find] finds a key
    of a sorted dictionary exactly when it is there; an identity is returned
    exactly for the metainfo that [identity_spec] describes over values, and hashes
    the canonical encoding of the [info] value; the Merkle loop computes the root
    of the complete binary tree over the padded leaves. SHA-1, SHA-256 and [hex] are
    parameters. *)
From stdpp Require Import base tactics list numbers option.
From Stdlib Require Import ZArith Lia Sorted.
From S2P Require Import Prelude Bytes Text BTree Core Instances Bencode.
Import stdpp.list.

Local Open Scope Z_scope.

(** [Sha1::digest] and [Sha256::digest] *)
Class Sha1 := sha1_digest : list Z -> list Z.
Class Sha256 := sha256_digest : list Z -> list Z.

Definition V2_BLOCK_SIZE : Z := 16 * 1024.

Inductive TorrentKind := V1 | V2 | Hybrid.

Record TorrentIdentity := mkIdentity {
  kind : TorrentKind;
  btih : option (list Z);
  btmh_sha256 : option (list Z)
}.

Inductive MetainfoError :=
| Bencode_ (e : BencodeError)
| MissingInfo
| Unsupported
| InvalidField (field : String.string).
Arguments InvalidField field%_string_scope.

(** ** Dictionary access *)

Definition Entries : Type := list (list Z * BencodeNode).

Definition dictionary (node : BencodeNode) : option Entries :=
  match node_value node with BDictionary entries => Some entries | _ => None end.

(** [slice::binary_search_by_key]: halve the window [base, base + size) while it
    holds more than one element, then compare.  [None]: not found. *)
Fixpoint bsearch (fuel : nat) (entries : Entries) (key : list Z) (base size : Z) : option Z :=
  match fuel with
  | O => None
  | S fuel =>
      if size >? 1 then
        let half := size / 2 in
        let mid := base + half in
        let base :=
          match get entries mid with
          | Some (candidate, _) => if lex_ltb key candidate then base else mid
          | None => base
          end in
        bsearch fuel entries key base (size - half)
      else
        match get entries base with
        | Some (candidate, _) => if bool_decide (candidate = key) then Some base else None
        | None => None
        end
  end.

Definition find (entries : Entries) (key : list Z) : option BencodeNode :=
  match bsearch (S (length entries)) entries key 0 (len entries) with
  | Some index => snd <$> get entries index
  | None => None
  end.

Definition bytes_field (entries : Entries) (key : list Z) : option (list Z) :=
  match find entries key with
  | Some node => match node_value node with BBytes bytes => Some bytes | _ => None end
  | None => None
  end.

Definition integer_field (entries : Entries) (key : list Z) : option Z :=
  match find entries key with
  | Some node => match node_value node with BInteger value => Some value | _ => None end
  | None => None
  end.

(** ** Payload lengths *)

(** A path component: a non-empty byte string. *)
Definition path_part (part : BencodeNode) : bool :=
  match node_value part with BBytes value => negb (bool_decide (value = [])) | _ => false end.

(** The body of the fold over [files]. *)
Definition v1_file_step (total : Z) (file : BencodeNode) : option Z :=
  fields ← dictionary file;
  value ← integer_field fields (str "length");
  length ← try_from U64_MAX value;
  path ← find fields (str "path");
  match node_value path with
  | BList parts =>
      if bool_decide (parts = []) || any (fun part => negb (path_part part)) parts then None
      else checked_add U64_MAX total length
  | _ => None
  end.

Definition v1_payload_length (entries : Entries) : option Z :=
  match find entries (str "length"), find entries (str "files") with
  | Some length, None =>
      match node_value length with BInteger value => try_from U64_MAX value | _ => None end
  | None, Some files =>
      match node_value files with
      | BList files => if bool_decide (files = []) then None else try_fold v1_file_step 0 files
      | _ => None
      end
  | _, _ => None
  end.

(** The body of [v2_tree_length]; [child] is [dictionary(node)] followed by the
    recursive call. *)
Definition v2_tree_body (child : BencodeNode -> option Z) (entries : Entries) : option Z :=
  match entries with
  | [] => None
  | [([], node)] =>
      leaf ← dictionary node;
      value ← integer_field leaf (str "length");
      length ← try_from U64_MAX value;
      if (length >? 0)
         && match bytes_field leaf (str "pieces root") with Some root => negb (len root =? 32) | None => true end
      then None
      else Some length
  | _ =>
      try_fold (fun total '(name, node) =>
        if bool_decide (name = []) then None
        else l ← child node; checked_add U64_MAX total l) 0 entries
  end.

Fixpoint v2_node_length (node : BencodeNode) : option Z :=
  match node with
  | Node (BDictionary entries) _ _ => v2_tree_body v2_node_length entries
  | _ => None
  end.
Definition v2_tree_length (entries : Entries) : option Z := v2_tree_body v2_node_length entries.

(** ** Identities *)

Section Identity.
Context `{Sha1} `{Sha256} `{Hex}.

Definition torrent_kind (is_v1 is_v2 : bool) : result MetainfoError TorrentKind :=
  match is_v1, is_v2 with
  | true, false => Ok V1
  | false, true => Ok V2
  | true, true => Ok Hybrid
  | false, false => Err Unsupported
  end.

(** [expected_v1_pieces] and [is_v1]: one 20-byte hash for each piece. *)
Definition v1_matches (v1_pieces : option (list Z)) (v1_length : option Z) (piece_length : Z) : bool :=
  let expected_v1_pieces :=
    length ← v1_length;
    piece_length ← try_from U64_MAX piece_length;
    try_from USIZE_MAX (div_ceil length piece_length) in
  match v1_pieces, expected_v1_pieces with
  | Some pieces, Some count => len pieces =? sat_mul USIZE_MAX count 20
  | _, _ => false
  end.

(** The consistency checks and the kind. *)
Definition check_forms (v1_pieces : option (list Z)) (v1_length : option Z) (is_v1 : bool)
  (meta_version v2_length : option Z) (is_v2 : bool) : result MetainfoError TorrentKind :=
  if bool_decide (is_Some meta_version) && negb (bool_decide (meta_version = Some 2))
  then Err (InvalidField "meta version")
  else if bool_decide (is_Some v1_pieces) && negb is_v1
  then Err (InvalidField "v1 pieces or file layout")
  else if bool_decide (is_Some meta_version) && negb is_v2
  then Err (InvalidField "v2 file tree")
  else if is_v1 && is_v2 && negb (bool_decide (v1_length = v2_length))
  then Err (InvalidField "hybrid payload length")
  else torrent_kind is_v1 is_v2.

(** [torrent_identity] after parsing. *)
Definition root_identity (metainfo : list Z) (root : BencodeNode) : result MetainfoError TorrentIdentity :=
  root_entries ← ok_or (dictionary root) MissingInfo;
  info ← ok_or (find root_entries (str "info")) MissingInfo;
  info_entries ← ok_or (dictionary info) MissingInfo;
  piece_length ← ok_or (match integer_field info_entries (str "piece length") with
                        | Some length => if length >? 0 then Some length else None
                        | None => None
                        end) (InvalidField "piece length");
  let v1_pieces := bytes_field info_entries (str "pieces") in
  let v1_length := v1_payload_length info_entries in
  let is_v1 := v1_matches v1_pieces v1_length piece_length in
  let meta_version := integer_field info_entries (str "meta version") in
  let v2_length :=
    tree ← find info_entries (str "file tree");
    entries ← dictionary tree;
    v2_tree_length entries in
  let is_v2 := bool_decide (meta_version = Some 2) && bool_decide (is_Some v2_length) in
  kind ← check_forms v1_pieces v1_length is_v1 meta_version v2_length is_v2;
  let raw_info := sub metainfo (node_start info) (node_end info) in
  Ok (mkIdentity kind
          (if is_v1 then Some (hex_encode (sha1_digest raw_info)) else None)
          (if is_v2 then Some (hex_encode (sha256_digest raw_info)) else None)).

(** [None]: the parser ran out of fuel, which does not happen. *)
Definition torrent_identity (metainfo : list Z) : option (result MetainfoError TorrentIdentity) :=
  match parse_bencode metainfo with
  | None => None
  | Some (Err e) => Some (Err (Bencode_ e))
  | Some (Ok root) => Some (root_identity metainfo root)
  end.
End Identity.

(** The identifier of the program for the payload of a torrent. *)
Definition triptorrent_payload_id `{Blake3} `{Hex} (payload : list Z) : list Z := ContentId_to_string (ContentId_digest payload).

(** ** The Merkle root *)

Inductive MerkleError := EmptyFile.

Section Merkle.
Context `{Sha256}.

(** [usize::next_power_of_two] *)
Definition next_power_of_two (n : Z) : Z := 2 ^ Z.log2_up n.

(** [layer.as_chunks::<2>().0.iter().map(|pair| sha256(pair[0] ++ pair[1]))] *)
Fixpoint hash_pairs (layer : list (list Z)) : list (list Z) :=
  match layer with
  | a :: b :: layer => sha256_digest (a ++ b) :: hash_pairs layer
  | _ => []
  end.

(** [while layer.len() > 1 { layer = .. }] *)
Fixpoint merkle_loop (fuel : nat) (layer : list (list Z)) : option (list (list Z)) :=
  match fuel with
  | O => None
  | S fuel => if len layer >? 1 then merkle_loop fuel (hash_pairs layer) else Some layer
  end.

Definition v2_leaves (payload : list Z) : list (list Z) :=
  let layer := map sha256_digest (chunks (Z.to_nat V2_BLOCK_SIZE) payload) in
  let target := next_power_of_two (len layer) in
  layer ++ replicate (Z.to_nat (target - len layer)) (replicate 32 0).

(** [None]: the loop ran out of fuel, which does not happen. *)
Definition v2_file_root (payload : list Z) : option (result MerkleError (list Z)) :=
  if bool_decide (payload = []) then Some (Err EmptyFile)
  else
    let layer := v2_leaves payload in
    match merkle_loop (S (length layer)) layer with
    | Some (root :: _) => Some (Ok root)
    | _ => None
    end.
End Merkle.

(** ** Binary search *)

Lemma bt_ok_order {V} (m : list (list Z * V)) i j a b :
  bt_ok m -> get m i = Some a -> get m j = Some b -> i < j -> lex_ltb a.1 b.1 = true.
Proof.
  intros Hm Ha Hb Hij. pose proof (get_Some_range _ _ _ Ha). pose proof (get_Some_range _ _ _ Hb).
  apply get_lookup in Ha, Hb. revert Hm Ha Hb. assert (Z.to_nat i < Z.to_nat j)%nat as Hlt by lia.
  clear -Hlt. revert Hlt. generalize (Z.to_nat i) as x, (Z.to_nat j) as y. clear i j.
  intros x y Hlt Hm. revert x y Hlt. induction Hm as [|e m Hm IH He]; intros x y Hlt Ha Hb; [done|].
  destruct y as [|y]; [lia|]. destruct x as [|x]; simpl in *.
  - simplify_eq. rewrite Forall_forall in He. apply (He b). by eapply list_elem_of_lookup_2.
  - apply (IH x y); [lia|done|done].
Qed.

(** The window keeps the key: [bsearch] finds the index of a key in the window. *)
Lemma bsearch_window fuel (l : Entries) key base size :
  bt_ok l -> 0 <= base -> 1 <= size -> base + size <= len l -> size < Z.of_nat fuel ->
  (forall j n, get l j = Some (key, n) -> base <= j < base + size) ->
  match bsearch fuel l key base size with
  | Some i => exists n, get l i = Some (key, n)
  | None => forall j n, get l j <> Some (key, n)
  end.
Proof.
  intros Hl. revert base size. induction fuel as [|fuel IH]; intros base size Hb Hs Hle Hf Hw; [lia|].
  cbn [bsearch]. destruct (Z.gtb_spec size 1) as [Hgt|Hone].
  - cbn zeta. assert (1 <= size / 2) by (apply Z.div_le_lower_bound; lia).
    assert (2 * (size / 2) <= size) by (apply Z.mul_div_le; lia).
    destruct (proj2 (get_is_Some l (base + size / 2)) ltac:(lia)) as [[c m] Hc]. rewrite Hc.
    destruct (lex_ltb key c) eqn:Hlt; (apply IH; [lia..|]); intros j n Hj; pose proof (Hw j n Hj).
    + assert (j < base + size / 2); [|lia]. destruct (Z.lt_trichotomy j (base + size / 2)) as [|[->|Hgt']]; [done|..].
      * rewrite Hc in Hj. simplify_eq. by rewrite lex_irrefl in Hlt.
      * pose proof (bt_ok_order _ _ _ _ _ Hl Hc Hj Hgt') as Ho. simpl in Ho.
        pose proof (lex_trans _ _ _ Hlt Ho) as Hx. by rewrite lex_irrefl in Hx.
    + assert (base + size / 2 <= j); [|lia]. apply Z.nlt_ge. intros Hlt'.
      pose proof (bt_ok_order _ _ _ _ _ Hl Hj Hc Hlt') as Ho. simpl in Ho. congruence.
  - destruct (proj2 (get_is_Some l base) ltac:(lia)) as [[c m] Hc]. rewrite Hc.
    case_bool_decide as Heq; [subst; eauto|]. intros j n Hj. specialize (Hw j n Hj).
    assert (j = base) as -> by lia. rewrite Hc in Hj. simplify_eq.
Qed.

(** On sorted entries the binary search is the map lookup. *)
Lemma find_get (l : Entries) key : bt_ok l -> find l key = bt_get key l.
Proof.
  intros Hl. unfold find. destruct l as [|e l]; [done|].
  pose proof (bsearch_window (S (length (e :: l))) (e :: l) key 0 (len (e :: l)) Hl) as Hb.
  specialize (Hb ltac:(lia) ltac:(len_lia) ltac:(lia) ltac:(unfold len; lia)).
  specialize (Hb ltac:(intros j n Hj; apply get_Some_range in Hj; lia)).
  destruct (bsearch _ _ _ _ _) as [i|].
  - destruct Hb as [n Hn]. rewrite Hn. cbn [fmap option_fmap option_map snd]. symmetry. apply bt_elem_get; [done|]. by eapply get_elem.
  - destruct (bt_get key (e :: l)) as [n|] eqn:E; [|done]. apply bt_get_elem, elem_get in E as [j Hj].
    by destruct (Hb j n).
Qed.

(** ** Placed entries *)

Lemma keys_sorted_place prev pos l :
  keys_sorted prev l ->
  bt_ok (place_entries pos l)
  /\ forall p, prev = Some p -> Forall (fun e => lex_ltb p e.1 = true) (place_entries pos l).
Proof.
  revert prev pos. induction l as [|[k v] l IH]; intros prev pos; cbn [keys_sorted place_entries].
  { intros _. split; constructor. }
  intros [Hp Hl]. destruct (IH (Some k) (pos + len (bencode_bytes k) + len (bencode v)) Hl) as [Hok Hk].
  specialize (Hk k eq_refl). split.
  - constructor; [done|]. eapply Forall_impl; [exact Hk|]. done.
  - intros p ->. constructor; [done|]. eapply Forall_impl; [exact Hk|]. intros e He.
    by apply (lex_trans _ k).
Qed.

Lemma bt_get_place pos l key :
  match bt_get key l with
  | Some w => exists s, bt_get key (place_entries pos l) = Some (place s w)
  | None => bt_get key (place_entries pos l) = None
  end.
Proof.
  revert pos. induction l as [|[k v] l IH]; intros pos; cbn [bt_get place_entries]; [done|].
  case_decide; [eauto|]. apply IH.
Qed.

(** [find] in a placed dictionary is the lookup in the value. *)
Lemma find_place pos l key :
  keys_sorted None l ->
  match bt_get key l with
  | Some w => exists s, find (place_entries pos l) key = Some (place s w)
  | None => find (place_entries pos l) key = None
  end.
Proof. intros [Hl _]%(keys_sorted_place _ pos). rewrite find_get by done. apply bt_get_place. Qed.

Definition integer_of (v : option bval) : option Z := match v with Some (VInteger n) => Some n | _ => None end.
Definition bytes_of (v : option bval) : option (list Z) := match v with Some (VBytes b) => Some b | _ => None end.

Lemma integer_field_place pos l key :
  keys_sorted None l -> integer_field (place_entries pos l) key = integer_of (bt_get key l).
Proof.
  intros Hl. unfold integer_field. pose proof (find_place pos l key Hl) as Hf.
  destruct (bt_get key l) as [w|]; [|by rewrite Hf]. destruct Hf as [s ->]. by destruct w.
Qed.

Lemma bytes_field_place pos l key :
  keys_sorted None l -> bytes_field (place_entries pos l) key = bytes_of (bt_get key l).
Proof.
  intros Hl. unfold bytes_field. pose proof (find_place pos l key Hl) as Hf.
  destruct (bt_get key l) as [w|]; [|by rewrite Hf]. destruct Hf as [s ->]. by destruct w.
Qed.

(** Values whose dictionaries are sorted, at any depth. *)
Lemma value_ok_lookup depth l key w :
  value_ok depth (VDictionary l) -> bt_get key l = Some w -> value_ok (depth + 1) w.
Proof.
  intros (_ & _ & Hl) Hg%bt_get_elem. revert Hl. induction l as [|e l IH]; [by apply elem_of_nil in Hg|].
  apply elem_of_cons in Hg as [<-|Hg]; intros [He Hl]; auto.
Qed.

(** ** Payload lengths of values *)

(** A file of a v1 list: its length and a path of non-empty components. *)
Definition v1_file (file : bval) (n : Z) : Prop :=
  exists fields parts,
    file = VDictionary fields /\ bt_get (str "length") fields = Some (VInteger n) /\ 0 <= n
    /\ bt_get (str "path") fields = Some (VList parts) /\ parts <> []
    /\ Forall (fun part => exists b, part = VBytes b /\ b <> []) parts.

(** The payload of v1 metadata: one length, or the files one after another. *)
Definition v1_layout (info : list (list Z * bval)) (total : Z) : Prop :=
  (bt_get (str "files") info = None /\ bt_get (str "length") info = Some (VInteger total) /\ 0 <= total)
  \/ (bt_get (str "length") info = None
      /\ exists files lengths, bt_get (str "files") info = Some (VList files) /\ files <> []
           /\ Forall2 v1_file files lengths /\ total = sum id lengths /\ total <= U64_MAX).

(** A v2 file tree: a leaf under the empty name, or named subtrees. *)
Inductive v2_tree : list (list Z * bval) -> Z -> Prop :=
| v2_leaf leaf n :
    bt_get (str "length") leaf = Some (VInteger n) -> 0 <= n ->
    (0 < n -> exists root, bt_get (str "pieces root") leaf = Some (VBytes root) /\ len root = 32) ->
    v2_tree [([], VDictionary leaf)] n
| v2_directory entries n : entries <> [] -> v2_children entries n -> v2_tree entries n
with v2_children : list (list Z * bval) -> Z -> Prop :=
| v2_none : v2_children [] 0
| v2_child name child entries a b :
    name <> [] -> v2_tree child a -> v2_children entries b -> a + b <= U64_MAX ->
    v2_children ((name, VDictionary child) :: entries) (a + b).

Scheme v2_tree_mut := Minimality for v2_tree Sort Prop
with v2_children_mut := Minimality for v2_children Sort Prop.
Combined Scheme v2_mutind from v2_tree_mut, v2_children_mut.

Lemma try_from_i64 v n : v <= I64_MAX -> try_from U64_MAX v = Some n <-> v = n /\ 0 <= n.
Proof. intros Hv. rewrite try_from_Some. unfold U64_MAX, I64_MAX in *. split; intros [-> ?]; lia. Qed.

Lemma integer_of_range depth l key n :
  value_ok depth (VDictionary l) -> integer_of (bt_get key l) = Some n ->
  bt_get key l = Some (VInteger n) /\ n <= I64_MAX.
Proof.
  intros Hl. destruct (bt_get key l) as [w|] eqn:E; [|done]. pose proof (value_ok_lookup _ _ _ _ Hl E) as Hw.
  destruct w; try done. intros [= ->]. split; [done|]. apply Hw.
Qed.

(** A dictionary's non-negative integer field. *)
Lemma length_field_place depth pos l key n :
  value_ok depth (VDictionary l) ->
  (value ← integer_field (place_entries pos l) key; try_from U64_MAX value) = Some n
  <-> bt_get key l = Some (VInteger n) /\ 0 <= n.
Proof.
  intros Hl. rewrite integer_field_place by apply Hl. split.
  - destruct (integer_of (bt_get key l)) as [v|] eqn:E; [|done]. cbn [mbind option_bind].
    destruct (integer_of_range _ _ _ _ Hl E) as [Hg Hv]. rewrite try_from_i64 by done. by intros [<- ?].
  - intros [Hg Hn]. rewrite Hg. cbn [integer_of mbind option_bind]. apply try_from_Some. split; [done|].
    destruct (integer_of_range _ _ key n Hl ltac:(by rewrite Hg)) as [_ Hv]. unfold U64_MAX, I64_MAX in *. lia.
Qed.

Lemma dictionary_place pos v entries :
  dictionary (place pos v) = Some entries <-> exists l, v = VDictionary l /\ entries = place_entries (pos + 1) l.
Proof.
  destruct v as [| | |l]; try (split; [done|by intros (? & ? & _)]).
  rewrite place_dictionary. unfold dictionary. cbn [node_value]. split; [intros [= <-]; eauto|].
  by intros (? & [= <-] & ->).
Qed.

Lemma path_parts_place pos parts :
  any (fun part => negb (path_part part)) (place_items pos parts) = false
  <-> Forall (fun part => exists b, part = VBytes b /\ b <> []) parts.
Proof.
  revert pos. induction parts as [|v parts IH]; intros pos; cbn [place_items existsb].
  { split; [constructor|done]. }
  rewrite orb_false_iff, negb_false_iff, IH, Forall_cons_iff.
  assert (path_part (place pos v) = true <-> exists b, v = VBytes b /\ b <> []) as ->; [|done].
  destruct v as [b| | |]; cbn; try (split; [done|by intros (? & ? & _)]).
  rewrite negb_true_iff, bool_decide_eq_false. naive_solver.
Qed.

Lemma place_items_nil pos l : place_items pos l = [] <-> l = [].
Proof. by destruct l. Qed.

Lemma v1_file_step_place depth pos file total t :
  value_ok depth file ->
  v1_file_step total (place pos file) = Some t
  <-> exists n, v1_file file n /\ checked_add U64_MAX total n = Some t.
Proof.
  intros Hv. unfold v1_file_step.
  destruct (dictionary (place pos file)) as [fields'|] eqn:Ed; cbn [mbind option_bind].
  2:{ split; [done|]. intros (n & (fields & parts & -> & _) & _). rewrite place_dictionary in Ed. discriminate Ed. }
  apply dictionary_place in Ed as (fields & -> & ->). set (p := pos + 1).
  pose proof (find_place p fields (str "path") (proj1 (proj2 Hv))) as Hf.
  pose proof (length_field_place depth p fields (str "length")) as Hl. cbn [mbind option_bind] in Hl. split.
  - destruct (integer_field _ _) as [v|]; [|done]. cbn [mbind option_bind] in *.
    destruct (try_from U64_MAX v) as [n|] eqn:En; [|done]. cbn [mbind option_bind].
    destruct (proj1 (Hl n Hv) eq_refl) as [Hg Hn].
    destruct (bt_get (str "path") fields) as [w|] eqn:Ew; [|by rewrite Hf]. destruct Hf as [s ->].
    cbn [mbind option_bind]. destruct w as [| |parts|]; try done. rewrite place_list. cbn [node_value].
    destruct (bool_decide_reflect (place_items (s + 1) parts = [])) as [|Hne]; [done|]. cbn [orb].
    destruct (any _ _) eqn:Ep; [done|]. intros Ht. exists n. split; [|done].
    exists fields, parts. split_and!; try done; [|by eapply path_parts_place]. intros ->. done.
  - intros (n & (? & parts & [= <-] & Hg & Hn & Hp & Hne & Hparts) & Ht).
    pose proof (proj2 (Hl n Hv) (conj Hg Hn)) as Hx. destruct (integer_field _ _) as [v|]; [|done]. cbn [mbind option_bind] in *. rewrite Hx.
    rewrite Hp in Hf. destruct Hf as [s ->]. cbn [mbind option_bind]. rewrite place_list. cbn [node_value].
    rewrite bool_decide_eq_false_2 by (by rewrite place_items_nil). cbn [orb].
    by rewrite (proj2 (path_parts_place _ _) Hparts).
Qed.

Lemma checked_add_Some max a b c : checked_add max a b = Some c <-> c = a + b /\ 0 <= c <= max.
Proof. unfold checked_add. rewrite try_from_Some. naive_solver. Qed.

Lemma sum_id_cons n l : sum id (n :: l) = n + sum id l.
Proof. reflexivity. Qed.

Lemma v1_files_nonneg files lengths : Forall2 v1_file files lengths -> 0 <= sum id lengths.
Proof.
  induction 1 as [|file n files lengths Hf _ IH]; [done|]. destruct Hf as (? & ? & _ & _ & Hn & _).
  rewrite sum_id_cons. lia.
Qed.

Lemma v1_files_place depth pos files total t :
  items_ok depth files -> 0 <= total <= U64_MAX ->
  try_fold v1_file_step total (place_items pos files) = Some t
  <-> exists lengths, Forall2 v1_file files lengths /\ t = total + sum id lengths /\ t <= U64_MAX.
Proof.
  revert pos total. induction files as [|file files IH]; intros pos total Hok Ht; cbn [place_items try_fold].
  { split; [intros [= <-]; exists []; rewrite sum_nil; split_and!; [done|lia..]|].
    intros (lengths & ->%Forall2_nil_inv_l & -> & _). rewrite sum_nil. f_equal. lia. }
  destruct Hok as [Hv Hok]. pose proof (v1_file_step_place depth pos file total) as Hs. split.
  - destruct (v1_file_step total (place pos file)) as [t1|]; [|done].
    destruct (proj1 (Hs t1 Hv) eq_refl) as (n & Hf & [-> Hr]%checked_add_Some).
    intros (lengths & Hfs & -> & Hle)%IH; [|done|lia]. exists (n :: lengths).
    rewrite sum_id_cons. split_and!; [by constructor|lia|lia].
  - intros (lens & Hfs & -> & Hle). apply Forall2_cons_inv_l in Hfs as (n & lengths & Hf & Hfs & ->).
    pose proof (v1_files_nonneg _ _ Hfs). rewrite sum_id_cons in *.
    assert (0 <= n) by (destruct Hf as (? & ? & _ & _ & ? & _); lia).
    rewrite (proj2 (Hs (total + n) Hv)) by (exists n; split; [done|]; apply checked_add_Some; lia).
    apply IH; [done|lia|]. exists lengths. split_and!; [done|lia|lia].
Qed.

(** The v1 length of a placed [info] dictionary. *)
Lemma v1_payload_length_place depth pos info total :
  value_ok depth (VDictionary info) ->
  v1_payload_length (place_entries pos info) = Some total <-> v1_layout info total.
Proof.
  intros Hv. unfold v1_payload_length, v1_layout. pose proof (proj1 (proj2 Hv)) as Hk.
  pose proof (find_place pos info (str "length") Hk) as Hl. pose proof (find_place pos info (str "files") Hk) as Hf.
  destruct (bt_get (str "length") info) as [v|] eqn:El; destruct (bt_get (str "files") info) as [w|] eqn:Ef.
  - destruct Hl as [s ->], Hf as [s' ->]. split; [done|]. intros [(? & _)|(? & _)]; done.
  - destruct Hl as [s ->]. rewrite Hf. pose proof (value_ok_lookup _ _ _ _ Hv El) as Hw. split.
    + destruct v as [|n| |]; try done. cbn. rewrite try_from_i64 by apply Hw. intros [-> ?]. by left.
    + intros [(_ & [= ->] & Hn)|(? & _)]; [|done]. cbn. apply try_from_i64; [apply Hw|done].
  - rewrite Hl. destruct Hf as [s ->]. pose proof (value_ok_lookup _ _ _ _ Hv Ef) as Hw. split.
    + destruct w as [| |files|]; try done. rewrite place_list. cbn [node_value]. case_bool_decide as Hne; [done|].
      intros (lengths & Hfs & -> & Hle)%(v1_files_place (depth + 1 + 1)); [|apply Hw|done]. right. split; [done|].
      exists files, lengths. rewrite place_items_nil in Hne. by split_and!.
    + intros [(? & ? & _)|(_ & files & lengths & [= ->] & Hne & Hfs & -> & Hle)]; [done|].
      rewrite place_list. cbn [node_value]. rewrite bool_decide_eq_false_2 by (by rewrite place_items_nil).
      apply (v1_files_place (depth + 1 + 1)); [apply Hw|done|]. exists lengths. by split_and!.
  - rewrite Hl, Hf. split; [done|]. intros [(_ & ? & _)|(_ & ? & ? & ? & _)]; done.
Qed.

Lemma v2_nonneg :
  (forall l n, v2_tree l n -> 0 <= n)
  /\ (forall l n, v2_children l n -> 0 <= n).
Proof. apply v2_mutind; intros; lia. Qed.

(** A step of the fold over the subtrees of a directory. *)
Definition v2_step (total : Z) (e : list Z * BencodeNode) : option Z :=
  let '(name, node) := e in
  if bool_decide (name = []) then None else l ← v2_node_length node; checked_add U64_MAX total l.

Lemma v2_body_directory entries :
  entries <> [] -> (forall node, entries <> [([], node)]) ->
  v2_tree_body v2_node_length entries = try_fold v2_step 0 entries.
Proof.
  intros Hne Hl. destruct entries as [|[[|x name] node] [|e l]]; try done. by destruct (Hl node).
Qed.

Definition v2_spec (v : bval) : Prop :=
  forall depth pos n, value_ok depth v ->
    v2_node_length (place pos v) = Some n <-> exists l, v = VDictionary l /\ v2_tree l n.

Lemma v2_children_place depth pos l total t :
  Forall (fun e => v2_spec e.2) l -> entries_ok depth l -> 0 <= total <= U64_MAX ->
  try_fold v2_step total (place_entries pos l) = Some t
  <-> exists n, v2_children l n /\ t = total + n /\ t <= U64_MAX.
Proof.
  intros Hl. revert pos total. induction Hl as [|[name v] l Hv _ IH]; intros pos total Hok Ht;
    cbn [place_entries try_fold v2_step].
  { split; [intros [= <-]; exists 0; split_and!; [constructor|lia..]|].
    intros (n & Hn & -> & _). inversion Hn. f_equal. lia. }
  destruct Hok as [Hvo Hok]. cbn [snd] in *. set (p := pos + len (bencode_bytes name)).
  pose proof (fun n => Hv depth p n Hvo) as Hs. split.
  - case_bool_decide as Hn; [done|]. destruct (v2_node_length (place p v)) as [a|]; [|done].
    destruct (proj1 (Hs a) eq_refl) as (child & -> & Ha). cbn [mbind option_bind].
    destruct (checked_add U64_MAX total a) as [t1|] eqn:E; [|done]. apply checked_add_Some in E as [-> Hr].
    intros (b & Hb & -> & Hle)%IH; [|done|lia]. pose proof (proj2 v2_nonneg _ _ Hb). exists (a + b).
    split_and!; [constructor; try done; lia|lia|lia].
  - intros (n & Hn & -> & Hle). inversion Hn as [|? child ? a b Hname Ha Hb Hab]; subst.
    pose proof (proj1 v2_nonneg _ _ Ha). pose proof (proj2 v2_nonneg _ _ Hb).
    rewrite bool_decide_eq_false_2 by done.
    rewrite (proj2 (Hs a)) by eauto. cbn [mbind option_bind].
    rewrite (proj2 (checked_add_Some _ total a (total + a))) by lia.
    apply IH; [done|lia|]. exists b. split_and!; [done|lia|lia].
Qed.

(** A leaf of the tree. *)
Lemma v2_leaf_place depth pos v n :
  value_ok depth v ->
  v2_tree_body v2_node_length [([], place pos v)] = Some n <-> v2_tree [([], v)] n.
Proof.
  intros Hv. cbn [v2_tree_body]. split.
  - destruct (dictionary (place pos v)) as [leaf'|] eqn:Ed; [|done].
    apply dictionary_place in Ed as (leaf & -> & ->). cbn [mbind option_bind].
    pose proof (length_field_place depth (pos + 1) leaf (str "length")) as Hl. cbn [mbind option_bind] in Hl.
    destruct (integer_field _ _) as [x|]; [|done]. cbn [mbind option_bind] in *.
    destruct (try_from U64_MAX x) as [m|]; [|done]. cbn [mbind option_bind].
    destruct (proj1 (Hl m Hv) eq_refl) as [Hg Hm]. rewrite bytes_field_place by apply Hv.
    destruct ((m >? 0) && _) eqn:Eb; [done|]. intros [= <-]. apply v2_leaf; [done|done|]. intros Hpos.
    rewrite (proj2 (Z.gtb_lt _ _)) in Eb by done. cbn [andb] in Eb.
    destruct (bt_get (str "pieces root") leaf) as [[root| | |]|]; try done. exists root. split; [done|].
    cbn [bytes_of] in Eb. apply negb_false_iff in Eb. lia.
  - intros Ht. inversion Ht as [leaf m Hg Hm Hr|? ? _ Hc]; subst; [|by inversion Hc].
    rewrite place_dictionary. unfold dictionary. cbn [node_value mbind option_bind].
    pose proof (proj2 (length_field_place depth (pos + 1) leaf (str "length") n Hv) (conj Hg Hm)) as Hx.
    cbn [mbind option_bind] in Hx. destruct (integer_field _ _) as [x|]; [|done]. cbn [mbind option_bind] in *.
    rewrite Hx. cbn [mbind option_bind]. rewrite bytes_field_place by apply Hv.
    destruct (Z.gtb_spec n 0); [|done]. destruct (Hr ltac:(lia)) as (root & -> & Hlen). cbn [bytes_of]. by rewrite Hlen.
Qed.

Lemma v2_entries_place depth pos l n :
  Forall (fun e => v2_spec e.2) l -> entries_ok depth l ->
  v2_tree_length (place_entries pos l) = Some n <-> v2_tree l n.
Proof.
  intros Hl Hok. unfold v2_tree_length. destruct l as [|[[|x name] v] l].
  - split; [done|]. intros Ht. by inversion Ht.
  - destruct l as [|[k w] l].
    + apply (v2_leaf_place depth). apply Hok.
    + rewrite v2_body_directory by done. split; [done|]. intros Ht. inversion Ht as [|? ? _ Hc]; subst.
      by inversion Hc.
  - rewrite v2_body_directory by done. rewrite (v2_children_place depth) by done. split.
    + intros (m & Hm & -> & Hle). by apply v2_directory.
    + intros Ht. inversion Ht as [|? ? _ Hc]; subst. exists n. split_and!; [done|lia|].
      inversion Hc; subst. lia.
Qed.

Lemma v2_spec_all v : v2_spec v.
Proof.
  revert v. fix IH 1. intros v depth pos n Hv. destruct v as [| | |l].
  1-3: split; [done|by intros (? & ? & _)].
  rewrite place_dictionary. cbn [v2_node_length]. fold (v2_tree_length (place_entries (pos + 1) l)).
  rewrite (v2_entries_place (depth + 1)); [|clear -IH; induction l; constructor; auto|apply Hv].
  split; [eauto|]. by intros (? & [= ->] & ?).
Qed.

(** The v2 length of a placed file tree. *)
Lemma v2_tree_length_place depth pos l n :
  value_ok depth (VDictionary l) -> v2_tree_length (place_entries pos l) = Some n <-> v2_tree l n.
Proof.
  intros Hv. apply (v2_entries_place (depth + 1)); [|apply Hv]. apply Forall_forall. intros e _.
  apply v2_spec_all.
Qed.

(** ** Identities of values *)

(** v1 metadata for a payload of [total] bytes: one 20-byte hash for each piece. *)
Definition v1_meta (info : list (list Z * bval)) (piece_length total : Z) : Prop :=
  v1_layout info total
  /\ exists pieces, bt_get (str "pieces") info = Some (VBytes pieces) /\ len pieces = 20 * div_ceil total piece_length.

Definition v2_meta (info : list (list Z * bval)) (total : Z) : Prop :=
  bt_get (str "meta version") info = Some (VInteger 2)
  /\ exists tree, bt_get (str "file tree") info = Some (VDictionary tree) /\ v2_tree tree total.

(** The forms present: the payload length of the v1 and of the v2 form. *)
Definition forms (info : list (list Z * bval)) (piece_length : Z) (v1 v2 : option Z) : Prop :=
  match v1 with
  | Some total => v1_meta info piece_length total
  | None => bytes_of (bt_get (str "pieces") info) = None
  end
  /\ match v2 with
     | Some total => v2_meta info total
     | None => integer_of (bt_get (str "meta version") info) = None
     end
  /\ match v1, v2 with
     | Some a, Some b => a = b
     | None, None => False
     | _, _ => True
     end.

Section IdentitySpec.
Context `{Sha1} `{Sha256} `{Hex}.

Definition identity_of (v1 v2 : option Z) (raw : list Z) : TorrentIdentity :=
  mkIdentity
    (match v1, v2 with Some _, None => V1 | Some _, Some _ => Hybrid | _, _ => V2 end)
    (match v1 with Some _ => Some (hex_encode (sha1_digest raw)) | None => None end)
    (match v2 with Some _ => Some (hex_encode (sha256_digest raw)) | None => None end).

(** The identity of the value of a metainfo file. *)
Definition identity_spec (root : list (list Z * bval)) (id : TorrentIdentity) : Prop :=
  exists info piece_length v1 v2,
    bt_get (str "info") root = Some (VDictionary info)
    /\ bt_get (str "piece length") info = Some (VInteger piece_length) /\ 0 < piece_length
    /\ forms info piece_length v1 v2
    /\ id = identity_of v1 v2 (bencode (VDictionary info)).

Lemma len_concat_elem (l : list (list Z)) x : x ∈ l -> len x <= len (concat l).
Proof.
  induction l as [|y l IH]; [by intros ?%elem_of_nil|]. cbn [concat]. rewrite len_app.
  intros [->|Hx]%elem_of_cons; [|specialize (IH Hx)]; pose_lens; lia.
Qed.

Lemma len_bencode_lookup l key w : bt_get key l = Some w -> len (bencode w) < len (bencode (VDictionary l)).
Proof.
  intros Hg%bt_get_elem. cbn [bencode]. fold bencode_entry. rewrite len_cons, len_app.
  assert (bencode_entry (key, w) ∈ map bencode_entry l) as Hin
    by (apply list_elem_of_In; apply in_map; by apply list_elem_of_In).
  apply len_concat_elem in Hin. unfold bencode_entry at 1 in Hin. cbn [fst snd] in Hin. rewrite len_app in Hin.
  pose_lens. lia.
Qed.

Lemma len_bytes_lookup l key b : bt_get key l = Some (VBytes b) -> len b < len (bencode (VDictionary l)).
Proof.
  intros Hg%len_bencode_lookup. change (bencode (VBytes b)) with (decimal (len b) ++ 58 :: b) in Hg.
  rewrite len_app, len_cons in Hg. pose_lens. lia.
Qed.

Lemma v1_layout_range depth info total :
  value_ok depth (VDictionary info) -> v1_layout info total -> 0 <= total <= U64_MAX.
Proof.
  intros Hv Hl. apply (v1_payload_length_place depth 0) in Hl as Hp; [|done].
  destruct Hl as [(_ & Hg & Hn)|(_ & files & lengths & _ & _ & Hf & -> & Hle)].
  - pose proof (value_ok_lookup _ _ _ _ Hv Hg) as [_ Hr]. unfold U64_MAX, I64_MAX in *. lia.
  - apply v1_files_nonneg in Hf. lia.
Qed.

Lemma v1_matches_place depth pos info piece_length :
  value_ok depth (VDictionary info) -> len (bencode (VDictionary info)) <= MAX_BENCODE_INPUT ->
  0 < piece_length <= I64_MAX ->
  v1_matches (bytes_field (place_entries pos info) (str "pieces"))
    (v1_payload_length (place_entries pos info)) piece_length = true
  <-> exists total, v1_payload_length (place_entries pos info) = Some total /\ v1_meta info piece_length total.
Proof.
  intros Hv Hlen Hpl. unfold v1_matches. rewrite bytes_field_place by apply Hv.
  pose proof (fun t => v1_payload_length_place depth pos info t Hv) as Hp.
  rewrite (proj2 (try_from_i64 piece_length piece_length ltac:(lia))) by lia. cbn [mbind option_bind].
  destruct (v1_payload_length (place_entries pos info)) as [total|]; cbn [mbind option_bind].
  2:{ split; [by destruct (bytes_of _)|by intros (? & ? & _)]. }
  pose proof (proj1 (Hp total) eq_refl) as Hl. pose proof (v1_layout_range _ _ _ Hv Hl) as Ht.
  pose proof (div_ceil_nonneg total piece_length ltac:(lia) ltac:(lia)).
  assert (div_ceil total piece_length <= total) as Hd
    by (destruct (decide (total = 0)) as [->|]; [unfold div_ceil; rewrite Z.div_small; lia|];
        apply Z.div_le_upper_bound; [lia|]; nia).
  rewrite (proj2 (try_from_Some _ _ (div_ceil total piece_length))) by (unfold USIZE_MAX; lia).
  unfold v1_meta, sat_mul. split.
  - destruct (bt_get (str "pieces") info) as [[pieces| | |]|] eqn:Eg; try done. cbn [bytes_of].
    apply len_bytes_lookup in Eg as Hpl'. intros Heq%Z.eqb_eq. exists total. split_and!; [done|done|]. exists pieces.
    split; [done|]. unfold USIZE_MAX, U64_MAX, MAX_BENCODE_INPUT in *. pose_lens. lia.
  - intros (? & [= <-] & _ & pieces & Hg & Heq). rewrite Hg. cbn [bytes_of]. apply Z.eqb_eq.
    apply len_bytes_lookup in Hg. unfold USIZE_MAX, U64_MAX, MAX_BENCODE_INPUT in *. pose_lens. lia.
Qed.

Lemma v2_length_place depth pos info total :
  value_ok depth (VDictionary info) ->
  (tree ← find (place_entries pos info) (str "file tree"); entries ← dictionary tree; v2_tree_length entries)
    = Some total
  <-> exists tree, bt_get (str "file tree") info = Some (VDictionary tree) /\ v2_tree tree total.
Proof.
  intros Hv. pose proof (find_place pos info (str "file tree") (proj1 (proj2 Hv))) as Hf.
  destruct (bt_get (str "file tree") info) as [w|] eqn:E.
  2:{ rewrite Hf. split; [done|by intros (? & ? & _)]. }
  destruct Hf as [s ->]. cbn [mbind option_bind]. pose proof (value_ok_lookup _ _ _ _ Hv E) as Hw. split.
  - destruct (dictionary (place s w)) as [entries|] eqn:Ed; [|done]. cbn [mbind option_bind].
    apply dictionary_place in Ed as (tree & -> & ->). rewrite (v2_tree_length_place (depth + 1)) by done. eauto.
  - intros (tree & [= ->] & Htree). rewrite place_dictionary. unfold dictionary.
    cbn [node_value mbind option_bind]. by apply (v2_tree_length_place (depth + 1)).
Qed.

Lemma integer_of_Some v n : integer_of v = Some n <-> v = Some (VInteger n).
Proof. destruct v as [[]|]; simpl; naive_solver. Qed.

(** The checks, as conditions on their arguments. *)
Lemma check_forms_Ok (pieces : option (list Z)) l1 b1 mv l2 k :
  (b1 = true -> is_Some pieces /\ is_Some l1) ->
  check_forms pieces l1 b1 mv l2 (bool_decide (mv = Some 2) && bool_decide (is_Some l2)) = Ok k
  <-> (is_Some pieces -> b1 = true)
      /\ (is_Some mv -> mv = Some 2 /\ is_Some l2)
      /\ (b1 = true -> is_Some mv -> l1 = l2)
      /\ torrent_kind b1 (bool_decide (is_Some mv)) = Ok k.
Proof.
  intros Hb. unfold check_forms.
  destruct (decide (is_Some mv)) as [Hmv|Hmv]; [rewrite (bool_decide_eq_true_2 (is_Some mv)) by done
    |rewrite (bool_decide_eq_false_2 (is_Some mv)) by done].
  - destruct (decide (mv = Some 2)) as [->|Hne]; cbn [andb].
    + rewrite (bool_decide_eq_true_2 (_ = Some 2)) by done. cbn [negb andb].
      destruct (decide (is_Some l2)) as [Hl2|Hl2]; [rewrite (bool_decide_eq_true_2 (is_Some l2)) by done
        |rewrite (bool_decide_eq_false_2 (is_Some l2)) by done]; destruct b1; cbn [negb andb];
        repeat case_bool_decide; cbn [negb andb]; naive_solver.
    + rewrite (bool_decide_eq_false_2 (mv = Some 2)) by done. cbn [negb]. naive_solver.
  - assert (mv = None) as -> by (destruct mv; [by destruct Hmv|done]).
    rewrite (bool_decide_eq_false_2 (None = Some 2)) by done. cbn [andb negb]. rewrite andb_false_r.
    destruct b1; cbn [negb andb]; repeat case_bool_decide; cbn [negb andb]; naive_solver.
Qed.

(** The checks accept exactly the consistent forms. *)
Lemma check_forms_place depth pos info piece_length k :
  value_ok depth (VDictionary info) -> len (bencode (VDictionary info)) <= MAX_BENCODE_INPUT ->
  0 < piece_length <= I64_MAX ->
  let e := place_entries pos info in
  let v2_length := tree ← find e (str "file tree"); entries ← dictionary tree; v2_tree_length entries in
  let is_v1 := v1_matches (bytes_field e (str "pieces")) (v1_payload_length e) piece_length in
  let is_v2 := bool_decide (integer_field e (str "meta version") = Some 2) && bool_decide (is_Some v2_length) in
  check_forms (bytes_field e (str "pieces")) (v1_payload_length e) is_v1
    (integer_field e (str "meta version")) v2_length is_v2 = Ok k
  <-> exists v1 v2, forms info piece_length v1 v2 /\ is_v1 = bool_decide (is_Some v1) /\ is_v2 = bool_decide (is_Some v2)
        /\ torrent_kind is_v1 is_v2 = Ok k.
Proof.
  intros Hv Hlen Hpl e v2_length is_v1 is_v2.
  pose proof (v1_matches_place depth pos info piece_length Hv Hlen Hpl) as M1. fold e in M1. fold is_v1 in M1.
  assert (forall total, v1_payload_length e = Some total <-> v1_layout info total) as L1
    by (intros; by apply (v1_payload_length_place depth)).
  assert (forall total, v2_length = Some total
    <-> exists tree, bt_get (str "file tree") info = Some (VDictionary tree) /\ v2_tree tree total) as L2
    by (intros; by apply (v2_length_place depth)).
  assert (is_v1 = true -> is_Some (bytes_of (bt_get (str "pieces") info)) /\ is_Some (v1_payload_length e)) as P1
    by (intros (? & -> & _ & ? & -> & _)%M1; split; eauto).
  subst is_v2. revert M1 P1 L1 L2. generalize v2_length as l2, is_v1 as b1, (v1_payload_length e) as l1. subst e.
  rewrite bytes_field_place, integer_field_place by apply Hv. clear v2_length is_v1. intros l2 b1 l1 M1 P1 L1 L2.
  rewrite check_forms_Ok by done. set (mv := integer_of (bt_get (str "meta version") info)) in *.
  assert (mv = Some 2 <-> bt_get (str "meta version") info = Some (VInteger 2)) as Hmv by apply integer_of_Some.
  unfold forms, v2_meta. fold mv. split.
  - intros (Hp & Hm & Hh & Hk). exists (if b1 then l1 else None), (if bool_decide (is_Some mv) then l2 else None).
    assert (bool_decide (mv = Some 2) && bool_decide (is_Some l2) = bool_decide (is_Some mv)) as Hb2.
    { destruct (decide (is_Some mv)) as [Hs|Hs]; [destruct (Hm Hs) as [-> ?]; by rewrite !bool_decide_eq_true_2|].
      rewrite !(bool_decide_eq_false_2 _ Hs). rewrite bool_decide_eq_false_2; [done|]. intros E. rewrite E in Hs. eauto. }
    rewrite Hb2. clear Hb2. destruct b1.
    + destruct (proj1 M1 eq_refl) as (t1 & -> & Hm1). case_bool_decide as Hs.
      * destruct (Hm Hs) as [E [t2 ->]]. specialize (Hh eq_refl Hs). simplify_eq. split_and!; try done; [by apply Hmv|by apply L2].
      * split_and!; try done. by apply eq_None_not_Some.
    + assert (bytes_of (bt_get (str "pieces") info) = None) as Hn by (apply eq_None_not_Some; naive_solver).
      case_bool_decide as Hs; [|done]. destruct (Hm Hs) as [E [t2 ->]]. split_and!; try done; [by apply Hmv|by apply L2].
  - intros (v1 & v2 & (F1 & F2 & F3) & E1 & E2 & Hk).
    assert (forall t, v2 = Some t -> mv = Some 2 /\ l2 = Some t) as G2
      by (intros t ->; destruct F2 as [? ?]; split; [by apply Hmv|by apply L2]).
    assert (forall t, v1 = Some t -> l1 = Some t) as G1 by (intros t ->; apply L1, F1).
    assert (is_Some mv <-> is_Some v2) as Hs.
    { destruct v2 as [t|]; [destruct (G2 t eq_refl) as [-> _]; naive_solver|]. rewrite F2. naive_solver. }
    split_and!.
    + intros Hp. rewrite E1. apply bool_decide_eq_true. destruct v1; [done|]. rewrite F1 in Hp. by destruct Hp.
    + intros [t ->]%Hs. destruct (G2 t eq_refl) as [-> ->]. eauto.
    + intros Hb [t2 ->]%Hs. destruct (G2 t2 eq_refl) as [_ ->]. rewrite E1 in Hb. to_prop. destruct Hb as [t1 ->].
      rewrite (G1 t1 eq_refl). by f_equal.
    + rewrite E2 in Hk. by rewrite (bool_decide_ext _ _ Hs).
Qed.

(** The forms present determine the flags and the kind. *)
Lemma forms_flags depth pos info piece_length v1 v2 :
  value_ok depth (VDictionary info) -> len (bencode (VDictionary info)) <= MAX_BENCODE_INPUT ->
  0 < piece_length <= I64_MAX -> forms info piece_length v1 v2 ->
  let e := place_entries pos info in
  let v2_length := tree ← find e (str "file tree"); entries ← dictionary tree; v2_tree_length entries in
  v1_matches (bytes_field e (str "pieces")) (v1_payload_length e) piece_length = bool_decide (is_Some v1)
  /\ bool_decide (integer_field e (str "meta version") = Some 2) && bool_decide (is_Some v2_length)
     = bool_decide (is_Some v2)
  /\ exists k, torrent_kind (bool_decide (is_Some v1)) (bool_decide (is_Some v2)) = Ok k.
Proof.
  intros Hv Hlen Hpl (F1 & F2 & F3) e v2_length. split_and!.
  - pose proof (v1_matches_place depth pos info piece_length Hv Hlen Hpl) as M1. fold e in M1.
    apply eq_true_iff_eq. rewrite M1, bool_decide_eq_true. destruct v1 as [t|].
    + split; [eauto|]. intros _. exists t. split; [|done]. apply (v1_payload_length_place depth); [done|apply F1].
    + split; [|by intros [? ?]]. intros (t & _ & _ & pieces & Hg & _). by rewrite Hg in F1.
  - subst e. rewrite integer_field_place by apply Hv. destruct v2 as [t|].
    + destruct F2 as [Hm Ht]. rewrite Hm. apply (v2_length_place depth pos info t Hv) in Ht. fold v2_length in Ht.
      by rewrite Ht.
    + by rewrite F2.
  - destruct v1, v2; try done; eauto.
Qed.

(** A field is placed at its own encoding. *)
Lemma bt_get_place_at pos l key w :
  bt_get key l = Some w ->
  exists pre post, concat (map bencode_entry l) = pre ++ bencode w ++ post
    /\ bt_get key (place_entries pos l) = Some (place (pos + len pre) w).
Proof.
  revert pos. induction l as [|[k v] l IH]; intros pos; cbn [bt_get place_entries map concat]; [done|].
  change (bencode_entry (k, v)) with (bencode_bytes k ++ bencode v). case_decide as Hk.
  - intros [= <-]. exists (bencode_bytes k), (concat (map bencode_entry l)). by rewrite <- app_assoc.
  - intros Hg. destruct (IH (pos + len (bencode_bytes k) + len (bencode v)) Hg) as (pre & post & -> & ->).
    exists (bencode_bytes k ++ bencode v ++ pre), post. rewrite <- !app_assoc, !len_app. split; [done|].
    do 2 f_equal. lia.
Qed.

Lemma find_info root key w :
  keys_sorted None root -> bt_get key root = Some w ->
  exists s, find (place_entries 1 root) key = Some (place s w)
    /\ sub (bencode (VDictionary root)) (node_start (place s w)) (node_end (place s w)) = bencode w.
Proof.
  intros Hk Hg. destruct (bt_get_place_at 1 root key w Hg) as (pre & post & Hc & Hp).
  exists (1 + len pre). split; [rewrite find_get; [done|by apply (keys_sorted_place None 1)]|].
  rewrite node_start_place, node_end_place. cbn [bencode]. fold bencode_entry. rewrite Hc.
  replace (100 :: (pre ++ bencode w ++ post) ++ [101]) with ((100 :: pre) ++ bencode w ++ post ++ [101])
    by (simpl; by rewrite <- !app_assoc).
  apply sub_middle; rewrite len_cons; lia.
Qed.

Lemma identity_of_kind v1 v2 k raw :
  torrent_kind (bool_decide (is_Some v1)) (bool_decide (is_Some v2)) = Ok k ->
  mkIdentity k (if bool_decide (is_Some v1) then Some (hex_encode (sha1_digest raw)) else None)
    (if bool_decide (is_Some v2) then Some (hex_encode (sha256_digest raw)) else None) = identity_of v1 v2 raw.
Proof. by destruct v1, v2; intros [= <-]. Qed.

Lemma root_identity_Ok root id :
  value_ok 0 (VDictionary root) -> len (bencode (VDictionary root)) <= MAX_BENCODE_INPUT ->
  root_identity (bencode (VDictionary root)) (place 0 (VDictionary root)) = Ok id <-> identity_spec root id.
Proof.
  intros Hv Hlen. unfold root_identity, identity_spec. rewrite place_dictionary. cbn [dictionary node_value ok_or mbind result_bind].
  change (0 + 1) with 1. pose proof (proj1 (proj2 Hv)) as Hk.
  destruct (bt_get (str "info") root) as [w|] eqn:Eg.
  2:{ pose proof (find_place 1 root (str "info") Hk) as Hf. rewrite Eg in Hf. rewrite Hf.
      split; [done|by intros (? & ? & ? & ? & ? & _)]. }
  destruct (find_info root _ w Hk Eg) as (s & -> & Hraw). cbn [ok_or mbind result_bind]. rewrite Hraw.
  pose proof (value_ok_lookup _ _ _ _ Hv Eg) as Hw. apply len_bencode_lookup in Eg.
  destruct w as [| | |info]; try (split; [done|by intros (? & ? & ? & ? & ? & _)]).
  rewrite place_dictionary. cbn [dictionary node_value ok_or mbind result_bind].
  rewrite (integer_field_place _ _ (str "piece length")) by apply Hw.
  destruct (integer_of (bt_get (str "piece length") info)) as [pl|] eqn:Epl.
  2:{ split; [done|]. intros (? & ? & ? & ? & [= <-] & Hp & _). by rewrite Hp in Epl. }
  apply (integer_of_range _ _ _ _ Hw) in Epl as [Hpl Hplr]. destruct (Z.gtb_spec pl 0) as [Hpos|Hpos].
  2:{ split; [done|]. intros (? & ? & ? & ? & [= <-] & Hp & ? & _). rewrite Hpl in Hp. simplify_eq. lia. }
  cbn [ok_or mbind result_bind]. set (p := s + 1).
  pose proof (fun k => check_forms_place _ p info pl k Hw ltac:(lia) ltac:(lia)) as Hc. cbn zeta in Hc. split.
  - destruct (check_forms _ _ _ _ _ _) as [k|e]; [|done]. cbn [mbind result_bind]. intros [= <-].
    destruct (proj1 (Hc k) eq_refl) as (v1 & v2 & Hf & E1 & E2 & Hkind). rewrite E1, E2 in *.
    exists info, pl, v1, v2. split_and!; try done. by apply identity_of_kind.
  - intros (? & ? & v1 & v2 & [= <-] & Hp & _ & Hf & ->). rewrite Hpl in Hp. injection Hp as <-.
    destruct (forms_flags _ p info pl v1 v2 Hw ltac:(lia) ltac:(lia) Hf) as (E1 & E2 & k & Hkind).
    rewrite (proj2 (Hc k)) by (exists v1, v2; rewrite E1, E2; by split_and!). cbn [mbind result_bind].
    rewrite E1, E2. f_equal. by apply identity_of_kind.
Qed.

(** C36: [torrent_identity] always returns, and returns an identity exactly for the
    canonical encoding of a dictionary whose [info] value has a positive piece
    length and consistent v1 and/or v2 metadata: one 20-byte hash for each v1 piece,
    a v2 tree whose non-empty files carry 32-byte roots, equal payload lengths when
    both are present, and no other meta version. The hashes are taken over the
    canonical encoding of that [info] value alone, so nothing outside it (trackers,
    comments) changes the identity. *)
Theorem torrent_identity_exact metainfo :
  torrent_identity metainfo <> None
  /\ forall id, torrent_identity metainfo = Some (Ok id)
     <-> exists root, len metainfo <= MAX_BENCODE_INPUT /\ value_ok 0 (VDictionary root)
           /\ node_count (VDictionary root) <= MAX_BENCODE_NODES /\ metainfo = bencode (VDictionary root)
           /\ identity_spec root id.
Proof.
  split.
  - unfold torrent_identity. pose proof (parse_bencode_returns metainfo). by destruct (parse_bencode metainfo) as [[]|].
  - intros id. split.
    + unfold torrent_identity. destruct (parse_bencode metainfo) as [[node|e]|] eqn:E; try done. intros [= Hid].
      apply parse_bencode_Ok in E as (v & Hlen & Hv & Hc & -> & ->). destruct v as [| | |root]; try done.
      exists root. split_and!; try done. by apply root_identity_Ok.
    + intros (root & Hlen & Hv & Hc & -> & Hid). unfold torrent_identity.
      assert (parse_bencode (bencode (VDictionary root)) = Some (Ok (place 0 (VDictionary root)))) as ->
        by (apply parse_bencode_Ok; eauto 10).
      f_equal. by apply root_identity_Ok.
Qed.
End IdentitySpec.

(** ** The Merkle root of a complete tree *)

Section MerkleSpec.
Context `{Sha256}.

(** The root of the complete binary tree of a height over its leaves. *)
Fixpoint tree_root (height : nat) (leaves : list (list Z)) : list Z :=
  match height with
  | O => match leaves with leaf :: _ => leaf | [] => [] end
  | S height =>
      let half := (2 ^ height)%nat in
      sha256_digest (tree_root height (take half leaves) ++ tree_root height (drop half leaves))
  end.

Lemma hash_pairs_app l k : Nat.Even (length l) -> hash_pairs (l ++ k) = hash_pairs l ++ hash_pairs k.
Proof.
  intros [n Hn]. revert l Hn. induction n as [|n IH]; intros l Hn.
  - by destruct l.
  - destruct l as [|a [|b l]]; simpl in Hn; [lia|lia|]. simpl. f_equal. apply IH. lia.
Qed.

Lemma length_hash_pairs n l : length l = (2 * n)%nat -> length (hash_pairs l) = n.
Proof.
  revert l. induction n as [|n IH]; intros l Hl; [by destruct l|].
  destruct l as [|a [|b l]]; simpl in Hl; [lia|lia|]. simpl. f_equal. apply IH. lia.
Qed.

(** One pass of the loop keeps the root of the tree. *)
Lemma tree_root_pairs h leaves :
  length leaves = (2 ^ S h)%nat -> tree_root h (hash_pairs leaves) = tree_root (S h) leaves.
Proof.
  revert leaves. induction h as [|h IH]; intros leaves Hl.
  - destruct leaves as [|a [|b [|]]]; try done; simpl in Hl; lia.
  - assert (2 ^ S (S h) = 2 * 2 ^ S h)%nat as Hp by reflexivity. rewrite Hp in Hl.
    change (tree_root (S (S h)) leaves) with
      (sha256_digest (tree_root (S h) (take (2 ^ S h) leaves) ++ tree_root (S h) (drop (2 ^ S h) leaves))).
    rewrite <- (IH (take _ _)), <- (IH (drop _ _)) by (rewrite ?length_take, ?length_drop; lia).
    change (tree_root (S h) (hash_pairs leaves)) with
      (sha256_digest (tree_root h (take (2 ^ h) (hash_pairs leaves)) ++ tree_root h (drop (2 ^ h) (hash_pairs leaves)))).
    assert (hash_pairs leaves = hash_pairs (take (2 ^ S h) leaves) ++ hash_pairs (drop (2 ^ S h) leaves)) as ->.
    { rewrite <- hash_pairs_app; [by rewrite take_drop|]. exists (2 ^ h)%nat. rewrite length_take.
      assert (2 ^ S h = 2 * 2 ^ h)%nat by reflexivity. lia. }
    assert (length (hash_pairs (take (2 ^ S h) leaves)) = 2 ^ h)%nat as Hlen.
    { apply length_hash_pairs. rewrite length_take. assert (2 ^ S h = 2 * 2 ^ h)%nat by reflexivity. lia. }
    by rewrite take_app_length', drop_app_length' by done.
Qed.

Lemma merkle_loop_root h fuel leaves :
  length leaves = (2 ^ h)%nat -> (h < fuel)%nat -> merkle_loop fuel leaves = Some [tree_root h leaves].
Proof.
  revert fuel leaves. induction h as [|h IH]; intros fuel leaves Hl Hf; (destruct fuel as [|fuel]; [lia|]).
  - destruct leaves as [|a [|]]; done.
  - cbn [merkle_loop]. pose proof (Nat.pow_nonzero 2 h ltac:(lia)).
    assert (2 ^ S h = 2 * 2 ^ h)%nat as Hp by reflexivity.
    destruct (Z.gtb_spec (len leaves) 1) as [_|Hle]; [|unfold len in Hle; lia].
    rewrite IH by (first [lia|apply length_hash_pairs; lia]). by rewrite tree_root_pairs.
Qed.

(** The leaves fill the complete tree. *)
Lemma length_v2_leaves payload :
  payload <> [] ->
  length (v2_leaves payload) = (2 ^ Z.to_nat (Z.log2_up (div_ceil (len payload) V2_BLOCK_SIZE)))%nat.
Proof.
  intros Hne. unfold v2_leaves. set (layer := map sha256_digest _).
  assert (len layer = div_ceil (len payload) V2_BLOCK_SIZE) as Hl by (unfold layer; rewrite len_map, len_chunks; [done|vm_compute; lia]).
  rewrite length_app, length_replicate, <- Hl. unfold next_power_of_two.
  assert (0 < len layer).
  { rewrite Hl. destruct payload as [|b l]; [done|]. pose proof (div_ceil_spec (len (b :: l)) V2_BLOCK_SIZE) as Hd.
    rewrite len_cons in *. unfold V2_BLOCK_SIZE in *. pose_lens. lia. }
  assert (len layer <= 2 ^ Z.log2_up (len layer)).
  { destruct (decide (len layer = 1)) as [->|]; [done|]. apply Z.log2_up_spec. lia. }
  apply Nat2Z.inj. rewrite Nat2Z.inj_add, Nat2Z.inj_pow, !Z2Nat.id by (first [apply Z.log2_up_nonneg|lia]).
  unfold len in *. lia.
Qed.

(** [v2_file_root] always returns (the loop halves the layer until one node is
    left): an error exactly for the empty file, and otherwise the root of the
    complete binary tree whose leaves are the hashes of the 16 KiB blocks in order,
    padded with zero hashes to the next power of two. *)
Theorem v2_file_root_tree payload :
  v2_file_root payload
  = Some (if bool_decide (payload = []) then Err EmptyFile
          else Ok (tree_root (Z.to_nat (Z.log2_up (div_ceil (len payload) V2_BLOCK_SIZE))) (v2_leaves payload))).
Proof.
  unfold v2_file_root. case_bool_decide as Hne; [done|]. pose proof (length_v2_leaves payload Hne) as Hl.
  rewrite (merkle_loop_root _ _ _ Hl); [done|]. rewrite Hl. apply Nat.lt_succ_r, Nat.lt_le_incl, Nat.pow_gt_lin_r. lia.
Qed.
End MerkleSpec.

(** A v1 file of 12 bytes in one piece: the identity hashes the 64 bytes of [info]. *)
Example torrent_identity_v1 :
  let hash : list Z -> list Z := fun l => [len l] in
  let metainfo := str "d7:comment1:x4:infod6:lengthi12e12:piece lengthi16e6:pieces20:aaaaaaaaaaaaaaaaaaaaee" in
  @torrent_identity hash hash Toy.toy_hex metainfo
  = Some (Ok (mkIdentity V1 (Some (str "40")) None)).
Proof. vm_compute. reflexivity. Qed.
