(* ===== verification/Magnet.v ===== *)
(** * Magnet: magnet links and path components (crates/triptorrent-interop)

    Strings are their UTF-8 bytes, except in [sanitize_path_component], which
    inspects characters and takes a list of scalar values.  Theorems: percent
    decoding inverts every percent encoding of UTF-8 text; base 32 decoding is
    big-endian conversion; [parse_magnet] accepts exactly the links whose parameters
    decode and whose exact topics are well formed, and keeps every hint, in order,
    in its own field; an accepted path component is free of traversal, separators,
    controls and reserved names, and sanitizing is idempotent. *)
From stdpp Require Import base tactics list numbers option.
From Stdlib Require Import ZArith Lia.
Import stdpp.list.
From S2P Require Import Prelude Bytes Text BTree Instances.

Local Open Scope Z_scope.

Definition MAX_MAGNET_LENGTH : Z := 64 * 1024.
Definition MAX_MAGNET_PARAMETERS : Z := 1024.
Definition MAX_PATH_COMPONENT_BYTES : Z := 255.

Record Magnet := mkMagnet {
  btih : list (list Z);
  btmh_sha256 : list (list Z);
  other_exact_topics : list (list Z);
  display_names : list (list Z);
  trackers : list (list Z);
  explicit_peers : list (list Z);
  web_seeds : list (list Z);
  acceptable_sources : list (list Z);
  exact_sources : list (list Z);
  other : list (list Z * list (list Z))
}.

Definition default_magnet : Magnet := mkMagnet [] [] [] [] [] [] [] [] [] [].

Inductive MagnetError := Scheme_ | Encoding | MissingExactTopic | InvalidExactTopic | TooLarge.


(** ** Decoders *)

Definition hex_digit (value : Z) : result MagnetError Z :=
  if in_range 48 57 value then Ok (value - 48)
  else if in_range 97 102 value then Ok (value - 97 + 10)
  else if in_range 65 70 value then Ok (value - 65 + 10)
  else Err Encoding.

(** The loop of [percent_decode]. *)
Fixpoint percent_loop (bytes decoded : list Z) : result MagnetError (list Z) :=
  match bytes with
  | [] => Ok decoded
  | b :: rest =>
      if b =? 37 then
        match rest with
        | high :: low :: rest =>
            h ← hex_digit high;
            l ← hex_digit low;
            percent_loop rest (decoded ++ [Z.lor (Z.shiftl h 4) l])
        | _ => Err Encoding
        end
      else percent_loop rest (decoded ++ [b])
  end.

Definition percent_decode (value : list Z) : result MagnetError (list Z) :=
  decoded ← percent_loop value [];
  if utf8_valid decoded then Ok decoded else Err Encoding.

(** The loop of [decode_base32]: 32-bit accumulator, pending bits, output. *)
Fixpoint base32_loop (accumulator bits : Z) (decoded bytes : list Z) : result MagnetError (list Z) :=
  match bytes with
  | [] => if negb (bits =? 0) && negb (accumulator =? 0) then Err InvalidExactTopic else Ok decoded
  | byte :: bytes =>
      symbol ← (if in_range 97 122 byte then Ok (byte - 97)
                else if in_range 50 55 byte then Ok (byte - 50 + 26)
                else Err InvalidExactTopic);
      let accumulator := Z.lor (Z.shiftl accumulator 5 mod 2 ^ 32) symbol in
      let bits := bits + 5 in
      if bits >=? 8 then
        let bits := bits - 8 in
        base32_loop (Z.land accumulator (sat_sub (Z.shiftl 1 bits) 1)) bits
          (decoded ++ [Z.shiftr accumulator bits mod 256]) bytes
      else base32_loop accumulator bits decoded bytes
  end.

Definition decode_base32 (value : list Z) : result MagnetError (list Z) := base32_loop 0 0 [] value.

(** ** The link *)

Section Link.
Context `{Hex}.

Definition parse_exact_topic (value : list Z) (m : Magnet) : result MagnetError Magnet :=
  let '(mkMagnet ih mh ot dn tr pe ws as_ xs other) := m in
  let lower := to_ascii_lowercase value in
  match strip_prefix (str "urn:btih:") lower with
  | Some encoded =>
      bytes ← (if len encoded =? 40 then ok_or (hex_decode encoded) InvalidExactTopic
               else if len encoded =? 32 then decode_base32 encoded
               else Err InvalidExactTopic);
      if negb (len bytes =? 20) then Err InvalidExactTopic
      else Ok (mkMagnet (ih ++ [hex_encode bytes]) mh ot dn tr pe ws as_ xs other)
  | None =>
      match strip_prefix (str "urn:btmh:") lower with
      | Some encoded =>
          bytes ← ok_or (hex_decode encoded) InvalidExactTopic;
          if negb (len bytes =? 34) || negb (bool_decide (take 2 bytes = [18; 32])) then Err InvalidExactTopic
          else Ok (mkMagnet ih (mh ++ [hex_encode (drop 2 bytes)]) ot dn tr pe ws as_ xs other)
      | None => Ok (mkMagnet ih mh (ot ++ [value]) dn tr pe ws as_ xs other)
      end
  end.

(** The [match] on the name of a parameter. *)
Definition apply_parameter (name value : list Z) (state : Magnet * Z) : result MagnetError (Magnet * Z) :=
  let '(m, exact_topics) := state in
  let '(mkMagnet ih mh ot dn tr pe ws as_ xs other) := m in
  if bool_decide (name = str "xt") then
    m ← parse_exact_topic value m;
    Ok (m, exact_topics + 1)
  else Ok
    (if bool_decide (name = str "dn") then mkMagnet ih mh ot (dn ++ [value]) tr pe ws as_ xs other
     else if bool_decide (name = str "tr") then mkMagnet ih mh ot dn (tr ++ [value]) pe ws as_ xs other
     else if bool_decide (name = str "x.pe") then mkMagnet ih mh ot dn tr (pe ++ [value]) ws as_ xs other
     else if bool_decide (name = str "ws") then mkMagnet ih mh ot dn tr pe (ws ++ [value]) as_ xs other
     else if bool_decide (name = str "as") then mkMagnet ih mh ot dn tr pe ws (as_ ++ [value]) xs other
     else if bool_decide (name = str "xs") then mkMagnet ih mh ot dn tr pe ws as_ (xs ++ [value]) other
     else mkMagnet ih mh ot dn tr pe ws as_ xs
            (bt_insert name (default [] (bt_get name other) ++ [value]) other), exact_topics).

(** The loop over the parameters. *)
Fixpoint parameter_loop (parameters : list (Z * list Z)) (state : Magnet * Z) : result MagnetError (Magnet * Z) :=
  match parameters with
  | [] => Ok state
  | (index, parameter) :: parameters =>
      if index >=? MAX_MAGNET_PARAMETERS then Err TooLarge
      else
        let '(raw_name, raw_value) := default (parameter, []) (split_once 61 parameter) in
        name ← percent_decode raw_name;
        value ← percent_decode raw_value;
        state ← apply_parameter name value state;
        parameter_loop parameters state
  end.

(** [query.split('&').filter(|part| !part.is_empty())] *)
Definition parameters (query : list Z) : list (list Z) :=
  List.filter (fun part => negb (bool_decide (part = []))) (split 38 query).

Definition parse_magnet (uri : list Z) : result MagnetError Magnet :=
  if len uri >? MAX_MAGNET_LENGTH then Err TooLarge
  else
    query ← ok_or (strip_prefix (str "magnet:?") uri) Scheme_;
    '(magnet, exact_topics) ← parameter_loop (enumerate (parameters query)) (default_magnet, 0);
    if exact_topics =? 0 then Err MissingExactTopic else Ok magnet.
End Link.

(** ** Path components, as lists of scalar values *)

Inductive PathError := Structural | Character | WindowsReserved | TooLong.

(** [component.nfc().collect()] *)
Class Nfc := nfc : list Z -> list Z.

(** [char::len_utf8] and [String::len] *)
Definition len_utf8 (c : Z) : Z := if c <? 128 then 1 else if c <? 2048 then 2 else if c <? 65536 then 3 else 4.
Definition utf8_len (s : list Z) : Z := sum len_utf8 s.

(** [char::is_control] *)
Definition is_control (c : Z) : bool := in_range 0 31 c || in_range 127 159 c.

(** the characters of the literal: backslash, slash, colon, star, question mark,
    double quote, less, greater and bar *)
Definition FORBIDDEN : list Z := [92; 47; 58; 42; 63; 34; 60; 62; 124].

Definition is_windows_device_name (component : list Z) : bool :=
  let stem := to_ascii_uppercase (default component (head (split 46 component))) in
  bool_decide (stem ∈ [str "CON"; str "PRN"; str "AUX"; str "NUL"])
  || match (match strip_prefix (str "COM") stem with Some s => Some s | None => strip_prefix (str "LPT") stem end) with
     | Some suffix =>
         bool_decide (suffix ∈ [str "1"; str "2"; str "3"; str "4"; str "5"; str "6"; str "7"; str "8"; str "9"])
     | None => false
     end.

Definition sanitize_path_component `{Nfc} (component : list Z) : result PathError (list Z) :=
  let normalized := nfc component in
  if utf8_len normalized >? MAX_PATH_COMPONENT_BYTES then Err TooLong
  else if bool_decide (normalized = []) || bool_decide (normalized = str ".") || bool_decide (normalized = str "..")
  then Err Structural
  else if any (fun c => is_control c || bool_decide (c ∈ FORBIDDEN)) normalized then Err Character
  else if match last normalized with Some c => bool_decide (c ∈ [32; 46]) | None => false end
          || is_windows_device_name normalized
  then Err WindowsReserved
  else Ok normalized.

(** ** Percent encoding *)

(** [raw] is a percent encoding of [text]: any byte may be escaped, in either case;
    a percent sign must be. *)
Inductive encodes : list Z -> list Z -> Prop :=
| encodes_nil : encodes [] []
| encodes_plain b raw text : b <> 37 -> encodes raw text -> encodes (b :: raw) (b :: text)
| encodes_escape h l x y raw text :
    hex_digit h = Ok x -> hex_digit l = Ok y -> encodes raw text ->
    encodes (37 :: h :: l :: raw) (16 * x + y :: text).

Lemma hex_digit_range c x : hex_digit c = Ok x -> 0 <= x < 16.
Proof.
  unfold hex_digit, in_range.
  destruct (Z.leb_spec 48 c), (Z.leb_spec c 57), (Z.leb_spec 97 c), (Z.leb_spec c 102),
    (Z.leb_spec 65 c), (Z.leb_spec c 70); simpl; intros [= <-]; lia.
Qed.

Lemma lor_shift a b n : 0 <= n -> 0 <= b < 2 ^ n -> Z.lor (Z.shiftl a n) b = 2 ^ n * a + b.
Proof.
  intros Hn Hb. rewrite Z.shiftl_mul_pow2 by lia. pose proof (Z.add_lor_land (a * 2 ^ n) b) as Hs.
  assert (Z.land (a * 2 ^ n) b = 0) as Hz; [|lia].
  apply Z.bits_inj'. intros i Hi. rewrite Z.land_spec, Z.bits_0.
  destruct (Z.lt_ge_cases i n); [by rewrite Z.mul_pow2_bits_low|].
  assert (Z.testbit b i = false) as ->; [|apply andb_false_r].
  destruct (decide (b = 0)) as [->|]; [apply Z.bits_0|]. apply Z.bits_above_log2; [lia|].
  apply Z.log2_lt_pow2; [lia|]. eapply Z.lt_le_trans; [apply Hb|]. by apply Z.pow_le_mono_r.
Qed.

Lemma percent_loop_exact raw : forall acc text,
  percent_loop raw acc = Ok text <-> exists tail, encodes raw tail /\ text = acc ++ tail.
Proof.
  revert raw. fix IH 1. intros raw acc text. destruct raw as [|b raw]; cbn [percent_loop].
  { split; [intros [= <-]; exists []; split; [constructor|by rewrite app_nil_r]|].
    intros (tail & Ht & ->). inversion Ht. by rewrite app_nil_r. }
  destruct (Z.eqb_spec b 37) as [->|Hb].
  - destruct raw as [|h [|l raw]]; [split; [done|]; intros (? & Ht & _); inversion Ht; congruence..|].
    destruct (hex_digit h) as [x|] eqn:Eh; cbn [mbind result_bind].
    2:{ split; [done|]. intros (? & Ht & _). inversion Ht; congruence. }
    destruct (hex_digit l) as [y|] eqn:El; cbn [mbind result_bind].
    2:{ split; [done|]. intros (? & Ht & _). inversion Ht; congruence. }
    pose proof (hex_digit_range _ _ El). rewrite lor_shift by lia. rewrite IH. split.
    + intros (tail & Ht & ->). exists (2 ^ 4 * x + y :: tail). rewrite <- app_assoc. split; [|done].
      by apply encodes_escape.
    + intros (tail & Ht & ->). inversion Ht as [|? ? ? Hb|? ? x' y' ? ? Hx Hy]; subst; [done|].
      rewrite Eh in Hx. rewrite El in Hy. simplify_eq. eexists. rewrite <- app_assoc. done.
  - rewrite IH. split.
    + intros (tail & Ht & ->). exists (b :: tail). rewrite <- app_assoc. split; [by constructor|done].
    + intros (tail & Ht & ->). inversion Ht; simplify_eq; try congruence. eexists. rewrite <- app_assoc. done.
Qed.

Lemma percent_decode_exact raw text : percent_decode raw = Ok text <-> encodes raw text /\ utf8_valid text = true.
Proof.
  unfold percent_decode. pose proof (fun t => percent_loop_exact raw [] t) as Hp. split.
  - destruct (percent_loop raw []) as [t|]; [|done]. cbn [mbind result_bind].
    destruct (utf8_valid t) eqn:Eu; [|done]. intros [= <-]. destruct (proj1 (Hp t) eq_refl) as (? & ? & ->). done.
  - intros [He Hu]. rewrite (proj2 (Hp text)) by eauto. cbn [mbind result_bind]. by rewrite Hu.
Qed.

(** ** Base 32 *)

Definition base32_symbol (byte : Z) : option Z :=
  if in_range 97 122 byte then Some (byte - 97)
  else if in_range 50 55 byte then Some (byte - 50 + 26)
  else None.

(** The number written in base 32, and its symbols. *)
Definition base32_value (symbols : list Z) : Z := foldl (fun a d => 32 * a + d) 0 symbols.

Lemma base32_symbol_range b d : base32_symbol b = Some d -> 0 <= d < 32.
Proof.
  unfold base32_symbol, in_range.
  destruct (Z.leb_spec 97 b), (Z.leb_spec b 122), (Z.leb_spec 50 b), (Z.leb_spec b 55); simpl;
    intros [= <-]; lia.
Qed.

(** What [decode_base32] computes from a value [v] of [n] symbols. *)
Definition base32_bytes (n v : Z) : result MagnetError (list Z) :=
  let spare := 5 * n mod 8 in
  if v mod 2 ^ spare =? 0 then Ok (to_be (Z.to_nat (5 * n / 8)) (v / 2 ^ spare)) else Err InvalidExactTopic.

Lemma to_be_snoc n v : to_be (S n) v = to_be n (v / 256) ++ [v mod 256].
Proof. reflexivity. Qed.

(** The state of the loop after [n] symbols of value [v]. *)
Definition base32_state (n v acc bits : Z) (decoded : list Z) : Prop :=
  bits = 5 * n mod 8 /\ acc = v mod 2 ^ bits /\ decoded = to_be (Z.to_nat (5 * n / 8)) (v / 2 ^ bits).

(** One symbol: the state after [n + 1] symbols. *)
Lemma base32_step n v acc bits decoded d :
  0 <= n -> 0 <= v -> 0 <= d < 32 -> base32_state n v acc bits decoded ->
  let acc' := Z.lor (Z.shiftl acc 5 mod 2 ^ 32) d in
  if bits + 5 >=? 8
  then base32_state (n + 1) (32 * v + d) (Z.land acc' (sat_sub (Z.shiftl 1 (bits + 5 - 8)) 1)) (bits + 5 - 8)
         (decoded ++ [Z.shiftr acc' (bits + 5 - 8) mod 256])
  else base32_state (n + 1) (32 * v + d) acc' (bits + 5) decoded.
Proof.
  intros Hn Hv Hd (-> & -> & ->). set (b := 5 * n mod 8). cbn zeta.
  assert (0 <= b < 8) as Hb by (apply Z.mod_pos_bound; lia).
  assert (5 * n = 8 * (5 * n / 8) + b) as Hdm by (apply Z.div_mod; lia).
  assert (0 < 2 ^ b <= 2 ^ 7) as Hpb by (split; [apply Z.pow_pos_nonneg|apply Z.pow_le_mono_r]; lia).
  pose proof (Z.mod_pos_bound v (2 ^ b) ltac:(lia)) as Hm.
  assert (2 ^ (b + 5) = 32 * 2 ^ b) as Hp5 by (rewrite Z.pow_add_r by lia; lia).
  assert (Z.lor (Z.shiftl (v mod 2 ^ b) 5 mod 2 ^ 32) d = 32 * (v mod 2 ^ b) + d) as ->.
  { rewrite Z.mod_small by (rewrite Z.shiftl_mul_pow2 by lia; lia). by apply lor_shift. }
  assert (32 * (v mod 2 ^ b) + d = (32 * v + d) mod 2 ^ (b + 5)) as Hacc.
  { apply (Z.mod_unique _ _ (v / 2 ^ b)); [left; lia|]. pose proof (Z.div_mod v (2 ^ b) ltac:(lia)). lia. }
  assert ((32 * v + d) / 2 ^ (b + 5) = v / 2 ^ b) as Hq.
  { symmetry. apply (Z.div_unique _ _ _ (32 * (v mod 2 ^ b) + d)); [left; lia|].
    pose proof (Z.div_mod v (2 ^ b) ltac:(lia)). lia. }
  rewrite Hacc. destruct (Z.geb_spec (b + 5) 8) as [Hge|Hlt]; unfold base32_state.
  - set (c := b + 5 - 8). assert (5 * (n + 1) = 8 * (5 * n / 8 + 1) + c) as Hdm' by lia.
    assert (c = 5 * (n + 1) mod 8) as Hc by (apply (Z.mod_unique _ _ (5 * n / 8 + 1)); lia).
    assert (5 * (n + 1) / 8 = 5 * n / 8 + 1) as -> by (symmetry; apply (Z.div_unique _ _ _ c); lia).
    assert (0 < 2 ^ c) as Hpc by (apply Z.pow_pos_nonneg; lia).
    assert (2 ^ (b + 5) = 2 ^ c * 256) as Hp8 by (replace (b + 5) with (c + 8) by lia; rewrite Z.pow_add_r by lia; lia).
    split_and!; [done|..].
    + rewrite Z.shiftl_mul_pow2, Z.mul_1_l by lia. unfold sat_sub. rewrite Z.max_r by lia.
      replace (2 ^ c - 1) with (Z.ones c) by (rewrite Z.ones_equiv; lia). rewrite Z.land_ones by lia.
      rewrite Hp8. rewrite Z.rem_mul_r by lia. rewrite (Z.mul_comm (2 ^ c) (_ mod 256)), Z.mod_add by lia.
      apply Z.mod_mod. lia.
    + replace (Z.to_nat (5 * n / 8 + 1)) with (S (Z.to_nat (5 * n / 8))) by lia. rewrite to_be_snoc. f_equal.
      * f_equal. rewrite <- Hq, Hp8. by rewrite Z.div_div by lia.
      * f_equal. rewrite Z.shiftr_div_pow2 by lia. rewrite Hp8, Z.rem_mul_r by lia.
        rewrite (Z.add_comm (_ mod _)), (Z.mul_comm (2 ^ c)), Z.div_add_l by lia.
        rewrite (Z.div_small (_ mod 2 ^ c)) by (apply Z.mod_pos_bound; lia). rewrite Z.add_0_r. apply Z.mod_mod. lia.
  - assert (b + 5 = 5 * (n + 1) mod 8) as Hc by (apply (Z.mod_unique _ _ (5 * n / 8)); lia).
    assert (5 * (n + 1) / 8 = 5 * n / 8) as -> by (symmetry; apply (Z.div_unique _ _ _ (b + 5)); lia).
    split_and!; [done|done|]. by rewrite Hq.
Qed.

Lemma base32_loop_exact s n v acc bits decoded :
  0 <= n -> 0 <= v -> base32_state n v acc bits decoded ->
  base32_loop acc bits decoded s
  = match mapM base32_symbol s with
    | Some ds => base32_bytes (n + len s) (foldl (fun a d => 32 * a + d) v ds)
    | None => Err InvalidExactTopic
    end.
Proof.
  revert n v acc bits decoded. induction s as [|b s IH]; intros n v acc bits decoded Hn Hv Hst.
  - destruct Hst as (-> & -> & ->). cbn [base32_loop mapM foldl mret option_ret]. unfold base32_bytes.
    change (len (@nil Z)) with 0. rewrite Z.add_0_r.
    destruct (Z.eqb_spec (5 * n mod 8) 0) as [E|_]; [|by destruct (_ =? 0)].
    rewrite E. change (2 ^ 0) with 1. by rewrite Z.mod_1_r.
  - cbn [base32_loop]. rewrite len_cons.
    assert ((if in_range 97 122 b then Ok (b - 97)
             else if in_range 50 55 b then Ok (b - 50 + 26) else Err InvalidExactTopic)
            = ok_or (base32_symbol b) InvalidExactTopic) as ->
      by (unfold base32_symbol; repeat case_match; done).
    cbn [mapM]. destruct (base32_symbol b) as [d|] eqn:Ed; [|done]. cbn [ok_or mbind result_bind option_bind].
    apply base32_symbol_range in Ed. pose proof (base32_step _ _ _ _ _ _ Hn Hv Ed Hst) as Hs. cbn zeta in Hs |- *.
    replace (n + (1 + len s)) with (n + 1 + len s) by lia.
    destruct (bits + 5 >=? 8);
      (rewrite (IH (n + 1) (32 * v + d)) by (first [done|lia]); by destruct (mapM base32_symbol s)).
Qed.

(** [decode_base32]: the number the symbols write, as big-endian bytes; the spare
    bits must be zero. *)
Lemma decode_base32_exact s :
  decode_base32 s
  = match mapM base32_symbol s with
    | Some ds => base32_bytes (len s) (base32_value ds)
    | None => Err InvalidExactTopic
    end.
Proof. unfold decode_base32. rewrite (base32_loop_exact s 0 0); [done|lia|lia|done]. Qed.

Lemma base32_value_range ds : Forall (fun d => 0 <= d < 32) ds -> 0 <= base32_value ds < 32 ^ len ds.
Proof.
  induction ds as [|d ds IH] using rev_ind; [done|]. rewrite Forall_app, Forall_singleton. intros [Hds Hd].
  specialize (IH Hds). unfold base32_value in *. rewrite foldl_app, len_app. cbn [foldl].
  rewrite Z.pow_add_r by (first [lia|apply len_nonneg]). change (32 ^ len [d]) with 32. lia.
Qed.

(** 32 symbols write 20 bytes without spare bits. *)
Lemma decode_base32_32 s bytes :
  len s = 32 ->
  decode_base32 s = Ok bytes
  <-> exists ds, mapM base32_symbol s = Some ds /\ len bytes = 20 /\ bytes_ok bytes /\ from_be bytes = base32_value ds.
Proof.
  intros Hs. rewrite decode_base32_exact, Hs. destruct (mapM base32_symbol s) as [ds|] eqn:E.
  2:{ split; [done|by intros (? & ? & _)]. }
  assert (0 <= base32_value ds < 256 ^ Z.of_nat 20) as Hr.
  { assert (len ds = 32) as Hl by (apply length_mapM in E; unfold len in *; lia).
    pose proof (base32_value_range ds) as Hv. rewrite Hl in Hv. apply Hv. apply mapM_Some_1 in E.
    clear -E. induction E; constructor; [by eapply base32_symbol_range|done]. }
  unfold base32_bytes. change (5 * 32 mod 8) with 0. change (Z.to_nat (5 * 32 / 8)) with 20%nat.
  change (2 ^ 0) with 1. rewrite Z.mod_1_r, Z.div_1_r. cbn [Z.eqb]. split.
  - intros <-%Ok_inj. exists ds. split_and!; [done|by rewrite len_to_be|apply bytes_ok_to_be|by apply from_be_to_be].
  - intros (? & [= <-] & Hl & Hb & <-). f_equal. rewrite <- (to_be_from_be bytes) at 2 by done.
    f_equal. unfold len in Hl. lia.
Qed.

(** ** Links *)

Inductive topic := TBtih (hash : list Z) | TBtmh (hash : list Z) | TOther (value : list Z).

Definition btih_of (t : topic) : option (list Z) := match t with TBtih h => Some h | _ => None end.
Definition btmh_of (t : topic) : option (list Z) := match t with TBtmh h => Some h | _ => None end.
Definition other_of (t : topic) : option (list Z) := match t with TOther v => Some v | _ => None end.

(** The values of the parameters with a name, in order. *)
Definition values (name : list Z) (pairs : list (list Z * list Z)) : list (list Z) :=
  map snd (List.filter (fun p => bool_decide (p.1 = name)) pairs).

Definition RESERVED : list (list Z) :=
  [str "xt"; str "dn"; str "tr"; str "x.pe"; str "ws"; str "as"; str "xs"].

Section LinkSpec.
Context `{HexLaws}.

(** What an exact topic means. *)
Definition topic_spec (value : list Z) (t : topic) : Prop :=
  let lower := to_ascii_lowercase value in
  match t with
  | TBtih hash =>
      exists encoded bytes, lower = str "urn:btih:" ++ encoded /\ len bytes = 20 /\ hash = hex_encode bytes
        /\ (hex_decode encoded = Some bytes
            \/ len encoded = 32 /\ bytes_ok bytes
               /\ exists ds, mapM base32_symbol encoded = Some ds /\ from_be bytes = base32_value ds)
  | TBtmh hash =>
      exists encoded digest, lower = str "urn:btmh:" ++ encoded /\ len digest = 32 /\ hash = hex_encode digest
        /\ hex_decode encoded = Some ([18; 32] ++ digest)
  | TOther v =>
      v = value /\ (forall encoded, lower <> str "urn:btih:" ++ encoded)
      /\ (forall encoded, lower <> str "urn:btmh:" ++ encoded)
  end.

Definition decodes (parameter : list Z) (pair : list Z * list Z) : Prop :=
  let '(raw_name, raw_value) := default (parameter, []) (split_once 61 parameter) in
  percent_decode raw_name = Ok pair.1 /\ percent_decode raw_value = Ok pair.2.

(** The hints of the parameters, each in its field. *)
Record collected (pairs : list (list Z * list Z)) (topics : list topic) (m : Magnet) : Prop := {
  c_btih : btih m = omap btih_of topics;
  c_btmh : btmh_sha256 m = omap btmh_of topics;
  c_topics : other_exact_topics m = omap other_of topics;
  c_dn : display_names m = values (str "dn") pairs;
  c_tr : trackers m = values (str "tr") pairs;
  c_pe : explicit_peers m = values (str "x.pe") pairs;
  c_ws : web_seeds m = values (str "ws") pairs;
  c_as : acceptable_sources m = values (str "as") pairs;
  c_xs : exact_sources m = values (str "xs") pairs;
  c_ok : bt_ok (other m);
  c_other : forall name, bt_get name (other m)
    = if bool_decide (name ∈ RESERVED) || bool_decide (values name pairs = []) then None else Some (values name pairs)
}.

Lemma strip_prefix_Some prefix l r : strip_prefix prefix l = Some r <-> l = prefix ++ r.
Proof.
  revert l. induction prefix as [|p prefix IH]; intros l; cbn [strip_prefix app]; [naive_solver|].
  destruct l as [|b l]; [split; [done|by intros ?]|].
  destruct (Z.eqb_spec p b) as [->|Hne]; [rewrite IH; naive_solver|]. split; [done|]. by intros [= <- _].
Qed.

Lemma strip_prefix_None prefix l : strip_prefix prefix l = None <-> forall r, l <> prefix ++ r.
Proof.
  split.
  - intros Hn r Hr. apply strip_prefix_Some in Hr. congruence.
  - intros Hn. destruct (strip_prefix prefix l) as [r|] eqn:E; [|done]. apply strip_prefix_Some in E. by destruct (Hn r).
Qed.

Lemma values_snoc name pairs n v :
  values name (pairs ++ [(n, v)]) = values name pairs ++ (if bool_decide (n = name) then [v] else []).
Proof. unfold values. rewrite List.filter_app, map_app. f_equal. simpl. by case_bool_decide. Qed.

Definition push_topic (t : topic) (m : Magnet) : Magnet :=
  let '(mkMagnet ih mh ot dn tr pe ws as_ xs other) := m in
  match t with
  | TBtih h => mkMagnet (ih ++ [h]) mh ot dn tr pe ws as_ xs other
  | TBtmh h => mkMagnet ih (mh ++ [h]) ot dn tr pe ws as_ xs other
  | TOther v => mkMagnet ih mh (ot ++ [v]) dn tr pe ws as_ xs other
  end.

(** The two forms of a v1 hash. *)
Lemma btih_bytes_exact encoded bytes :
  (bytes ← (if len encoded =? 40 then ok_or (hex_decode encoded) InvalidExactTopic
            else if len encoded =? 32 then decode_base32 encoded
            else Err InvalidExactTopic);
   if negb (len bytes =? 20) then Err InvalidExactTopic else Ok bytes) = Ok bytes
  <-> len bytes = 20
      /\ (hex_decode encoded = Some bytes
          \/ len encoded = 32 /\ bytes_ok bytes
             /\ exists ds, mapM base32_symbol encoded = Some ds /\ from_be bytes = base32_value ds).
Proof.
  destruct (Z.eqb_spec (len encoded) 40) as [H40|H40]; [|destruct (Z.eqb_spec (len encoded) 32) as [H32|H32]].
  - destruct (hex_decode encoded) as [b|] eqn:E; cbn [ok_or mbind result_bind].
    + destruct (Z.eqb_spec (len b) 20); cbn [negb]; split; [intros [= <-]; auto| |done|].
      * intros [_ [[= <-]|[? _]]]; [done|lia].
      * intros [? [[= <-]|[? _]]]; [done|lia].
    + split; [done|]. intros [_ [?|[? _]]]; [done|lia].
  - pose proof (fun b => decode_base32_32 encoded b H32) as Hd.
    destruct (decode_base32 encoded) as [b|] eqn:E; cbn [mbind result_bind].
    + destruct (proj1 (Hd b) eq_refl) as (ds & Hds & Hlen & Hb & Hv). rewrite Hlen. cbn. split.
      * intros [= <-]. split; [done|right; eauto].
      * intros [Hl [Hx%hex_decode_len|(_ & Hb' & ds' & Hds' & Hv')]]; [lia|].
        apply Hd. eauto.
    + split; [done|]. intros [Hl [Hx%hex_decode_len|(_ & Hb' & ds' & Hds' & Hv')]]; [lia|].
      apply Hd. eauto 10.
  - cbn. split; [done|]. intros [? [Hx%hex_decode_len|[? _]]]; lia.
Qed.

(** [parse_exact_topic] recognizes a topic and pushes it. *)
Lemma parse_exact_topic_exact value m m' :
  parse_exact_topic value m = Ok m' <-> exists t, topic_spec value t /\ m' = push_topic t m.
Proof.
  destruct m as [ih mh ot dn tr pe ws as_ xs oth]. cbn [parse_exact_topic push_topic]. unfold topic_spec.
  set (lower := to_ascii_lowercase value).
  destruct (strip_prefix (str "urn:btih:") lower) as [encoded|] eqn:E1.
  - apply strip_prefix_Some in E1. split.
    + intros Hm. match type of Hm with (?X ≫= _) = _ => pose proof (btih_bytes_exact encoded) as Hx; fold X in Hx end.
      destruct (_ : result MagnetError (list Z)) as [b|] in Hm, Hx; [|done].
      cbn [mbind result_bind] in *. specialize (Hx b). destruct (negb _); [done|]. injection Hm as <-.
      destruct (proj1 Hx eq_refl) as [Hl Hd]. exists (TBtih (hex_encode b)). split; [|done]. exists encoded, b. by split_and!.
    + intros ([h|h|v] & Ht & ->); cbn match in Ht.
      * destruct Ht as (encoded' & bytes & He & Hl & -> & Hd). rewrite E1 in He. apply app_inv_head in He as <-.
        pose proof (proj2 (btih_bytes_exact encoded bytes) (conj Hl Hd)) as Hx.
        apply bind_Ok in Hx as (b & -> & Hb). cbn [mbind result_bind]. destruct (negb _); [done|]. by injection Hb as <-.
      * destruct Ht as (encoded' & ? & He & _). rewrite E1 in He. discriminate He.
      * destruct Ht as (_ & Hn & _). by destruct (Hn encoded).
  - pose proof (proj1 (strip_prefix_None _ _) E1) as N1. destruct (strip_prefix (str "urn:btmh:") lower) as [encoded|] eqn:E2.
    + apply strip_prefix_Some in E2. split.
      * destruct (hex_decode encoded) as [b|] eqn:Eh; [|done]. cbn [ok_or mbind result_bind].
        destruct (Z.eqb_spec (len b) 34) as [Hl|]; [|done]. cbn [negb orb]. case_bool_decide as Ht; [|done]. cbn [negb].
        intros [= <-]. exists (TBtmh (hex_encode (drop 2 b))). split; [|done]. exists encoded, (drop 2 b).
        split_and!; [done|rewrite len_drop; lia|done|]. by rewrite <- Ht, take_drop.
      * intros ([h|h|v] & Ht & ->); cbn match in Ht.
        -- destruct Ht as (encoded' & ? & He & _). by destruct (N1 encoded').
        -- destruct Ht as (encoded' & digest & He & Hl & -> & Hd). rewrite E2 in He. apply app_inv_head in He as <-.
           rewrite Hd. cbn [ok_or mbind result_bind]. change (take 2 ([18; 32] ++ digest)) with [18; 32].
           rewrite len_app, Hl. done.
        -- destruct Ht as (_ & _ & Hn). by destruct (Hn encoded).
    + pose proof (proj1 (strip_prefix_None _ _) E2) as N2. split.
      * intros [= <-]. exists (TOther value). split; [|done]. by split_and!.
      * intros ([h|h|v] & Ht & ->); cbn match in Ht.
        -- destruct Ht as (encoded' & ? & He & _). by destruct (N1 encoded').
        -- destruct Ht as (encoded' & ? & He & _). by destruct (N2 encoded').
        -- by destruct Ht as (-> & _).
Qed.

Lemma collected_default : collected [] [] default_magnet.
Proof. split; try done; [apply bt_ok_nil|]. intros name. by rewrite orb_true_r. Qed.

Lemma collected_keep name name' value pairs oth :
  name ∈ RESERVED ->
  (bt_get name' oth
    = if bool_decide (name' ∈ RESERVED) || bool_decide (values name' pairs = []) then None else Some (values name' pairs)) ->
  bt_get name' oth
  = if bool_decide (name' ∈ RESERVED) || bool_decide (values name' (pairs ++ [(name, value)]) = []) then None
    else Some (values name' (pairs ++ [(name, value)])).
Proof.
  intros Hr ->. rewrite values_snoc. destruct (decide (name = name')) as [->|Hne].
  - by rewrite !(bool_decide_eq_true_2 (name' ∈ RESERVED)) by done.
  - rewrite (bool_decide_eq_false_2 (name = name')) by done. by rewrite app_nil_r.
Qed.

Lemma collected_topic pairs topics m value t :
  collected pairs topics m -> collected (pairs ++ [(str "xt", value)]) (topics ++ [t]) (push_topic t m).
Proof.
  intros [H1 H2 H3 H4 H5 H6 H7 H8 H9 Hok Ho]. destruct m as [ih mh ot dn tr pe ws as_ xs oth]. cbn in *.
  split; rewrite ?omap_app, ?values_snoc; try (by destruct t; cbn; rewrite ?app_nil_r; congruence);
    try (rewrite bool_decide_eq_false_2 by done; rewrite app_nil_r; by destruct t).
  intros name. apply collected_keep; [by left|]. rewrite <- Ho. by destruct t.
Qed.

(** A parameter other than a topic goes to its field. *)
Lemma collected_other pairs oth name value name' :
  name ∉ RESERVED ->
  (forall n, bt_get n oth
    = if bool_decide (n ∈ RESERVED) || bool_decide (values n pairs = []) then None else Some (values n pairs)) ->
  bt_get name' (bt_insert name (default [] (bt_get name oth) ++ [value]) oth)
  = if bool_decide (name' ∈ RESERVED) || bool_decide (values name' (pairs ++ [(name, value)]) = []) then None
    else Some (values name' (pairs ++ [(name, value)])).
Proof.
  intros Hr Ho. rewrite values_snoc. destruct (decide (name' = name)) as [->|Hne].
  - rewrite bt_get_insert_eq, Ho. rewrite (bool_decide_eq_true_2 (name = name)) by done.
    rewrite (bool_decide_eq_false_2 (name ∈ RESERVED)) by done. cbn [orb].
    rewrite (bool_decide_eq_false_2 (_ ++ [value] = [])) by (by intros [_ ?]%app_nil).
    case_bool_decide as Hv; [|done]. by rewrite Hv.
  - rewrite bt_get_insert_ne, Ho by done. rewrite (bool_decide_eq_false_2 (name = name')) by done. by rewrite app_nil_r.
Qed.

Lemma collected_hint pairs topics m t name value :
  collected pairs topics m -> name <> str "xt" ->
  exists m', apply_parameter name value (m, t) = Ok (m', t) /\ collected (pairs ++ [(name, value)]) topics m'.
Proof.
  intros [H1 H2 H3 H4 H5 H6 H7 H8 H9 Hok Ho] Hx. destruct m as [ih mh ot dn tr pe ws as_ xs oth].
  cbn [btih btmh_sha256 other_exact_topics display_names trackers explicit_peers web_seeds acceptable_sources
    exact_sources other] in *.
  unfold apply_parameter. rewrite (bool_decide_eq_false_2 (name = str "xt")) by done.
  eexists. split; [reflexivity|].
  do 6 (match goal with |- context [bool_decide (name = ?s)] => destruct (bool_decide_reflect (name = s)) as [->|?] end;
    [split; cbn [btih btmh_sha256 other_exact_topics display_names trackers explicit_peers web_seeds acceptable_sources
       exact_sources other]; try done;
     [rewrite values_snoc; first [rewrite bool_decide_eq_true_2 by done|rewrite bool_decide_eq_false_2 by done];
       rewrite ?app_nil_r; congruence..
     |intros name'; apply collected_keep; [unfold RESERVED; rewrite !elem_of_cons; auto 10|apply Ho]]|]).
  split; cbn [btih btmh_sha256 other_exact_topics display_names trackers explicit_peers web_seeds acceptable_sources
       exact_sources other]; try done;
    [rewrite values_snoc, bool_decide_eq_false_2 by done; rewrite ?app_nil_r; congruence..|by apply bt_ok_insert|].
  intros name'. apply collected_other; [unfold RESERVED; rewrite !elem_of_cons, elem_of_nil; tauto|done].
Qed.

(** The topics among the pairs, and what they mean. *)
Definition topics_of (pairs : list (list Z * list Z)) (topics : list topic) : Prop :=
  Forall2 topic_spec (values (str "xt") pairs) topics.

Lemma values_cons name n v pairs :
  values name ((n, v) :: pairs) = (if bool_decide (n = name) then [v] else []) ++ values name pairs.
Proof. unfold values. simpl. by case_bool_decide. Qed.

(** The step of the loop on one parameter, in both directions. *)
Lemma apply_parameter_exact pairs topics m t name value :
  collected pairs topics m ->
  (forall m' t', apply_parameter name value (m, t) = Ok (m', t') ->
    exists ts, topics_of [(name, value)] ts /\ collected (pairs ++ [(name, value)]) (topics ++ ts) m' /\ t' = t + len ts)
  /\ (forall ts, topics_of [(name, value)] ts -> exists s', apply_parameter name value (m, t) = Ok s').
Proof.
  intros Hc. unfold topics_of. rewrite values_cons. change (values _ []) with (@nil (list Z)).
  destruct (decide (name = str "xt")) as [->|Hne].
  - rewrite bool_decide_eq_true_2 by done. cbn [app].
    assert (apply_parameter (str "xt") value (m, t) = m ← parse_exact_topic value m; Ok (m, t + 1)) as -> by (by destruct m).
    split.
    + intros m' t' (m1 & Hm & Heq)%bind_Ok. injection Heq as <- <-.
      apply parse_exact_topic_exact in Hm as (tp & Htp & ->). exists [tp].
      split_and!; [by repeat constructor|by apply collected_topic|done].
    + intros ts Hts. apply Forall2_cons_inv_l in Hts as (tp & ? & Htp & _ & _).
      rewrite (proj2 (parse_exact_topic_exact value m (push_topic tp m))) by eauto. eauto.
  - rewrite bool_decide_eq_false_2 by done. destruct (collected_hint _ _ _ t name value Hc Hne) as (m1 & -> & Hm1). split.
    + intros m' t' [= <- <-]. exists []. rewrite (app_nil_r topics). split_and!; [by apply Forall2_nil_2|done|]. change (len []) with 0. lia.
    + intros ts _. eauto.
Qed.

Lemma topics_of_app p q ts us : topics_of p ts -> topics_of q us -> topics_of (p ++ q) (ts ++ us).
Proof. unfold topics_of, values. rewrite List.filter_app, map_app. apply Forall2_app. Qed.

Lemma parameter_loop_sound ps i pairs topics m t m' t' :
  collected pairs topics m -> parameter_loop (enumerate_from i ps) (m, t) = Ok (m', t') ->
  exists pairs' topics', Forall2 decodes ps pairs' /\ topics_of pairs' topics'
    /\ collected (pairs ++ pairs') (topics ++ topics') m' /\ t' = t + len topics'
    /\ (ps = [] \/ i + len ps <= MAX_MAGNET_PARAMETERS).
Proof.
  revert i pairs topics m t. induction ps as [|p ps IH]; intros i pairs topics m t Hc; cbn [enumerate_from parameter_loop].
  { intros [= <- <-]. exists [], []. rewrite !app_nil_r. split_and!; try done; [by apply Forall2_nil_2| |by left].
    change (len []) with 0. lia. }
  destruct (Z.geb_spec i MAX_MAGNET_PARAMETERS) as [|Hi]; [done|].
  destruct (default (p, []) (split_once 61 p)) as [rn rv] eqn:Es.
  destruct (percent_decode rn) as [name|] eqn:En; [|done]. cbn [mbind result_bind].
  destruct (percent_decode rv) as [value|] eqn:Ev; [|done]. cbn [mbind result_bind].
  destruct (apply_parameter name value (m, t)) as [[m1 t1]|] eqn:Ea; [|done]. cbn [mbind result_bind]. intros Hl.
  destruct (proj1 (apply_parameter_exact _ _ _ t name value Hc) _ _ Ea) as (ts & Hts & Hc1 & ->).
  destruct (IH _ _ _ _ _ Hc1 Hl) as (pairs' & topics' & Hd & Ht & Hc' & -> & Hlen).
  exists ((name, value) :: pairs'), (ts ++ topics'). rewrite <- !app_assoc in Hc'. split_and!.
  - constructor; [|done]. unfold decodes. by rewrite Es.
  - by apply (topics_of_app [_] pairs').
  - done.
  - rewrite len_app. lia.
  - right. rewrite len_cons. destruct Hlen as [->|]; [change (len []) with 0|]; lia.
Qed.

Lemma parameter_loop_complete ps i pairs topics m t pairs' topics' :
  collected pairs topics m -> Forall2 decodes ps pairs' -> topics_of pairs' topics' ->
  i + len ps <= MAX_MAGNET_PARAMETERS ->
  exists m', parameter_loop (enumerate_from i ps) (m, t) = Ok (m', t + len topics').
Proof.
  intros Hc Hd. revert i pairs topics m t topics' Hc.
  induction Hd as [|p [name value] ps pairs' Hp _ IH]; intros i pairs topics m t topics' Hc Ht Hi;
    cbn [enumerate_from parameter_loop].
  { apply Forall2_nil_inv_l in Ht as ->. exists m. do 2 f_equal. change (len []) with 0. lia. }
  rewrite len_cons in Hi. destruct (Z.geb_spec i MAX_MAGNET_PARAMETERS); [pose_lens; lia|].
  unfold decodes in Hp. destruct (default (p, []) (split_once 61 p)) as [rn rv].
  destruct Hp as [-> ->]. cbn [mbind result_bind fst snd].
  unfold topics_of in Ht. rewrite values_cons in Ht. apply Forall2_app_inv_l in Ht as (ts & us & Hts & Hus & ->).
  assert (topics_of [(name, value)] ts) as Hts' by (unfold topics_of; rewrite values_cons; by rewrite app_nil_r).
  pose proof (apply_parameter_exact _ _ _ t name value Hc) as [Hs1 Hs2].
  destruct (Hs2 ts Hts') as [[m1 t1] Ea]. rewrite Ea. cbn [mbind result_bind].
  destruct (Hs1 _ _ Ea) as (ts' & Hts2 & Hc1 & ->).
  assert (len ts' = len ts) as Hlen
    by (apply Forall2_length in Hts', Hts2; unfold len; lia).
  destruct (IH (i + 1) _ _ m1 (t + len ts') us Hc1 Hus ltac:(lia)) as [m' Hm']. exists m'. rewrite Hm'.
  do 2 f_equal. rewrite len_app. lia.
Qed.

(** The links accepted, with their decoded parameters and topics. *)
Definition accepts (uri : list Z) (pairs : list (list Z * list Z)) (topics : list topic) : Prop :=
  len uri <= MAX_MAGNET_LENGTH
  /\ exists query, uri = str "magnet:?" ++ query /\ len (parameters query) <= MAX_MAGNET_PARAMETERS
       /\ Forall2 decodes (parameters query) pairs /\ topics_of pairs topics /\ topics <> [].

(** [parse_magnet] accepts exactly the links of at most [MAX_MAGNET_LENGTH]
    bytes and [MAX_MAGNET_PARAMETERS] parameters whose names and values
    percent-decode to UTF-8 and whose exact topics, at least one, are well formed
    (a 20-byte hash in hex or base 32, a SHA-256 multihash, or a topic of another
    scheme); the result holds every topic and every hint in its own field, repeated
    values in order, and nothing else. *)
Theorem parse_magnet_exact uri :
  (forall m, parse_magnet uri = Ok m -> exists pairs topics, accepts uri pairs topics /\ collected pairs topics m)
  /\ (forall pairs topics, accepts uri pairs topics -> exists m, parse_magnet uri = Ok m).
Proof.
  unfold parse_magnet, accepts. destruct (Z.gtb_spec (len uri) MAX_MAGNET_LENGTH) as [|Hlen].
  { split; [done|]. intros ? ? [? _]. lia. }
  split.
  - intros m Hm. destruct (strip_prefix (str "magnet:?") uri) as [query|] eqn:Eq; [|done].
    apply strip_prefix_Some in Eq. cbn [ok_or mbind result_bind] in Hm.
    destruct (parameter_loop _ _) as [[m1 t1]|] eqn:Ep; [|done]. cbn [mbind result_bind] in Hm.
    destruct (Z.eqb_spec t1 0) as [|Ht1]; [done|]. injection Hm as <-.
    destruct (parameter_loop_sound _ _ _ _ _ _ _ _ collected_default Ep)
      as (pairs & topics & Hd & Ht & Hc & -> & Hl). exists pairs, topics. split; [|done]. split; [done|].
    exists query. split_and!; [done| |done|done|by intros ->].
    destruct Hl as [Hl|]; [by rewrite Hl|lia].
  - intros pairs topics (_ & query & Heq & Hl & Hd & Ht & Hne).
    rewrite (proj2 (strip_prefix_Some _ _ _) Heq). cbn [ok_or mbind result_bind].
    destruct (parameter_loop_complete _ 0 _ _ _ 0 _ _ collected_default Hd Ht ltac:(lia)) as [m Hm].
    unfold enumerate. rewrite Hm. cbn [mbind result_bind]. destruct (Z.eqb_spec (0 + len topics) 0) as [E|]; [|eauto].
    exfalso. apply Hne, len_zero_inv. lia.
Qed.
End LinkSpec.

Lemma parse_magnet_exact_witness :
  exists pairs topics,
    @accepts Toy.toy_hex (str "magnet:?xt=urn:btih:AAAAAAAAAAAAAAAAAAAAAAAAAAAAAAAA&tr=x%26y&tr=z&n=1") pairs topics
    /\ collected pairs topics
         (mkMagnet [str "0000000000000000000000000000000000000000"] [] [] [] [str "x&y"; str "z"] [] [] [] []
            [(str "n", [str "1"])]).
Proof.
  apply (proj1 (@parse_magnet_exact Toy.toy_hex Toy.toy_hex_laws
    (str "magnet:?xt=urn:btih:AAAAAAAAAAAAAAAAAAAAAAAAAAAAAAAA&tr=x%26y&tr=z&n=1"))).
  vm_compute. reflexivity.
Defined.

(** ** Path components *)

(** The device names of Windows. *)
Definition DEVICES : list (list Z) :=
  [str "CON"; str "PRN"; str "AUX"; str "NUL"]
  ++ (app (str "COM") <$> [str "1"; str "2"; str "3"; str "4"; str "5"; str "6"; str "7"; str "8"; str "9"])
  ++ (app (str "LPT") <$> [str "1"; str "2"; str "3"; str "4"; str "5"; str "6"; str "7"; str "8"; str "9"]).

(** A name is a device name by what precedes its first dot, in either case. *)
Definition device (name : list Z) : Prop :=
  exists stem rest, name = stem ++ rest /\ 46 ∉ stem /\ (rest = [] \/ head rest = Some 46)
    /\ to_ascii_uppercase stem ∈ DEVICES.

Lemma split_head separator l :
  exists stem rest, head (split separator l) = Some stem /\ l = stem ++ rest /\ separator ∉ stem
    /\ (rest = [] \/ head rest = Some separator).
Proof.
  induction l as [|b l (stem & rest & Hh & -> & Hn & Hr)]; cbn [split].
  { exists [], []. split_and!; try done; [by intros ?%elem_of_nil|by left]. }
  destruct (Z.eqb_spec b separator) as [->|Hne].
  - exists [], (separator :: stem ++ rest). split_and!; try done; [by intros ?%elem_of_nil|by right].
  - exists (b :: stem), rest. destruct (split separator (stem ++ rest)) as [|part parts]; [done|].
    simpl in Hh. injection Hh as ->. split_and!; try done. rewrite elem_of_cons. naive_solver.
Qed.

(** What precedes the first separator is unique. *)
Lemma stem_unique separator (a b c d : list Z) :
  a ++ b = c ++ d -> separator ∉ a -> separator ∉ c ->
  (b = [] \/ head b = Some separator) -> (d = [] \/ head d = Some separator) -> a = c.
Proof.
  revert c. induction a as [|x a IH]; intros [|y c] Heq Ha Hc Hb Hd; simpl in *; simplify_eq; [done|..].
  - exfalso. destruct Hb as [?|Hb]; simplify_eq/=. apply Hc. left.
  - exfalso. destruct Hd as [?|Hd]; simplify_eq/=. apply Ha. left.
  - f_equal. rewrite elem_of_cons in Ha, Hc. apply IH; naive_solver.
Qed.

Lemma device_names stem :
  bool_decide (stem ∈ [str "CON"; str "PRN"; str "AUX"; str "NUL"])
  || match (match strip_prefix (str "COM") stem with Some s => Some s | None => strip_prefix (str "LPT") stem end) with
     | Some suffix =>
         bool_decide (suffix ∈ [str "1"; str "2"; str "3"; str "4"; str "5"; str "6"; str "7"; str "8"; str "9"])
     | None => false
     end = true
  <-> stem ∈ DEVICES.
Proof.
  unfold DEVICES. rewrite !elem_of_app, !list_elem_of_fmap, orb_true_iff, bool_decide_eq_true.
  apply or_iff_compat_l. destruct (strip_prefix (str "COM") stem) as [suffix|] eqn:E1.
  - apply strip_prefix_Some in E1 as ->. rewrite bool_decide_eq_true. split; [left; eauto|].
    intros [(s & Heq & Hs)|(s & Heq & _)]; [by apply app_inv_head in Heq as ->|discriminate Heq].
  - pose proof (proj1 (strip_prefix_None _ _) E1) as N1.
    destruct (strip_prefix (str "LPT") stem) as [suffix|] eqn:E2.
    + apply strip_prefix_Some in E2 as ->. rewrite bool_decide_eq_true. split; [right; eauto|].
      intros [(s & Heq & Hs)|(s & Heq & Hs)]; [discriminate Heq|by apply app_inv_head in Heq as ->].
    + pose proof (proj1 (strip_prefix_None _ _) E2) as N2. split; [done|].
      intros [(s & Heq & _)|(s & Heq & _)]; [by destruct (N1 s)|by destruct (N2 s)].
Qed.

Lemma is_windows_device_name_exact name : is_windows_device_name name = true <-> device name.
Proof.
  unfold is_windows_device_name, device. destruct (split_head 46 name) as (stem & rest & -> & Hname & Hn & Hr).
  cbn [default from_option id]. cbv zeta. rewrite device_names. split; [by exists stem, rest|].
  intros (stem' & rest' & Hname' & Hn' & Hr' & Hd). rewrite Hname in Hname'.
  by rewrite (stem_unique 46 stem rest stem' rest').
Qed.

Section Sanitize.
Context `{Nfc} (nfc_idempotent : forall s, nfc (nfc s) = nfc s).

(** A component that names one file of a directory on every platform. *)
Definition safe_component (name : list Z) : Prop :=
  name <> [] /\ name <> str "." /\ name <> str ".." /\ utf8_len name <= MAX_PATH_COMPONENT_BYTES
  /\ Forall (fun c => is_control c = false /\ c ∉ FORBIDDEN) name
  /\ (forall c, last name = Some c -> c <> 32 /\ c <> 46)
  /\ ~ device name.

Lemma sanitize_exact component name :
  sanitize_path_component component = Ok name <-> name = nfc component /\ safe_component name.
Proof.
  unfold sanitize_path_component, safe_component. cbv zeta. set (n := nfc component).
  destruct (Z.gtb_spec (utf8_len n) MAX_PATH_COMPONENT_BYTES) as [|Hlen].
  { split; [done|]. intros (-> & _ & _ & _ & ? & _). lia. }
  destruct (bool_decide (n = []) || bool_decide (n = str ".") || bool_decide (n = str "..")) eqn:Es.
  { split; [done|]. intros (-> & ? & ? & ? & _). rewrite !orb_true_iff, !bool_decide_eq_true in Es. tauto. }
  rewrite !orb_false_iff, !bool_decide_eq_false in Es.
  destruct (any _ n) eqn:Ec.
  { split; [done|]. intros (-> & _ & _ & _ & _ & Hf & _). apply any_true, Exists_exists in Ec as (c & Hc & Hb).
    rewrite Forall_forall in Hf. destruct (Hf c Hc) as [Hctl Hfb]. rewrite Hctl in Hb. cbn in Hb. by to_prop. }
  assert (Forall (fun c => is_control c = false /\ c ∉ FORBIDDEN) n) as Hf.
  { apply Forall_forall. intros c Hc. rewrite <- bool_decide_eq_false, <- orb_false_iff.
    apply not_true_iff_false. intros Hb. apply not_true_iff_false in Ec. apply Ec, any_true, Exists_exists. eauto. }
  rewrite <- is_windows_device_name_exact.
  destruct (match last n with Some c => _ | None => _ end || _) eqn:Ew.
  - split; [done|]. intros (-> & _ & _ & _ & _ & _ & Hlast & Hd). exfalso.
    apply orb_true_iff in Ew as [Ew|Ew]; [|by apply Hd].
    destruct (last n) as [c|]; [|done]. destruct (Hlast c eq_refl). to_prop.
    rewrite !elem_of_cons, elem_of_nil in Ew. tauto.
  - apply orb_false_iff in Ew as [Ew Ed]. split; [intros [= <-]|by intros [-> _]].
    split_and!; try done; try tauto; [|by rewrite Ed]. intros c Hc. rewrite Hc in Ew. to_prop.
    rewrite !elem_of_cons, elem_of_nil in Ew. tauto.
Qed.

(** A component is accepted exactly when its NFC form is safe: not empty, not a
    dot or dot-dot, at most 255 bytes of UTF-8, without control characters,
    separators or characters reserved by any platform, not ending in a dot or a
    space, and not a Windows device name with any extension; the result is that
    form, and sanitizing it again changes nothing. *)
Theorem sanitize_stable component name :
  sanitize_path_component component = Ok name <->
  name = nfc component /\ safe_component name /\ sanitize_path_component name = Ok name.
Proof using nfc_idempotent.
  rewrite !sanitize_exact. split; [|tauto]. intros [-> Hs]. by rewrite nfc_idempotent.
Qed.
End Sanitize.

Lemma sanitize_stable_witness :
  @sanitize_path_component id (str "con.txt") = Err WindowsReserved
  /\ @safe_component (str "content.txt").
Proof.
  split; [vm_compute; reflexivity|].
  destruct (@sanitize_stable id (fun s => eq_refl) (str "content.txt") (str "content.txt")) as [H _].
  apply H. vm_compute. reflexivity.
Defined.
