(* ===== verification/Resume.v ===== *)
(** * Resume: the resumable partial file of a download (crates/triptorrent-cli)

    [ResumeDownload] keeps a partial file and a state file beside the output.  The
    model is a file system in which every primitive may fail, a write possibly after
    writing a prefix: a [World] holds the files and the faults still to come.
    Theorems: whatever fails, what the state file marks as completed is verified in
    the partial file; such a disk reopens where it stopped; [finish] replaces the
    output only with bytes that hash to the content identifier.  The postcard codec
    of the state is a parameter. *)
From stdpp Require Import base tactics list numbers option gmap.
From Stdlib Require Import ZArith Lia.
From S2P Require Import Prelude Bytes Core Instances.
Import stdpp.list.

Local Open Scope Z_scope.

Definition RESUME_VERSION : Z := 0.
Definition MAX_RESUME_STATE_BYTES : Z := 40 * 1024 * 1024.

Record ResumeRecord := mkResumeRecord {
  r_version : Z;
  r_manifest : Manifest;
  r_completed : list bool
}.

Record ResumeDownload := mkResumeDownload {
  part_path : list Z;
  state_path : list Z;
  record : ResumeRecord
}.

(** [postcard::to_allocvec] and [postcard::from_bytes] on [ResumeRecord] *)
Class Postcard := {
  encode_record : ResumeRecord -> list Z;
  decode_record : list Z -> option ResumeRecord
}.

Class PostcardLaws `{Postcard} : Prop := {
  decode_encode_record : forall r, decode_record (encode_record r) = Some r
}.

(** The errors, by their message. *)
Inductive ResumeError :=
| IoFailed
| MalformedManifest (e : ContentError)
| IncompleteData
| StateTooLarge
| MalformedState
| ManifestMismatch
| BadChunkCount
| PartialLength
| OutsideManifest (index : Z)
| OffsetOverflow
| OffsetExceedsLength
| Verification (index : Z) (e : ContentError)
| ContentMismatch.

(** ** The file system *)

(** A fault of the next primitives: [None] succeeds, [Some k] fails, a write after
    [k] bytes (a negative [k]: before opening the file). Past the list all succeed. *)
Record World := mkWorld {
  files : gmap (list Z) (list Z);
  faults : list (option Z)
}.

Abbreviation io := (st World ResumeError).

(** A primitive: its effect when it succeeds, and when it fails after [k] bytes. *)
Definition primitive {A} (success : gmap (list Z) (list Z) -> gmap (list Z) (list Z) * result ResumeError A)
  (failure : Z -> gmap (list Z) (list Z) -> gmap (list Z) (list Z)) : io A := fun w =>
  match faults w with
  | Some k :: rest => (mkWorld (failure k (files w)) rest, Err IoFailed)
  | _ :: rest => let '(fs, r) := success (files w) in (mkWorld fs rest, r)
  | [] => let '(fs, r) := success (files w) in (mkWorld fs [], r)
  end.

Definition no_effect (k : Z) (fs : gmap (list Z) (list Z)) : gmap (list Z) (list Z) := fs.

(** [Path::exists]: an error counts as absent *)
Definition path_exists (path : list Z) : io bool := fun w =>
  match faults w with
  | Some _ :: rest => (mkWorld (files w) rest, Ok false)
  | _ :: rest => (mkWorld (files w) rest, Ok (bool_decide (is_Some (files w !! path))))
  | [] => (w, Ok (bool_decide (is_Some (files w !! path))))
  end.

(** [fs::read], also for [fs::metadata(path).len()] and reads of an open file *)
Definition fs_read (path : list Z) : io (list Z) :=
  primitive (fun fs => (fs, ok_or (fs !! path) IoFailed)) no_effect.

(** [fs::write]: create or truncate, then write *)
Definition fs_write (path data : list Z) : io unit :=
  primitive (fun fs => (<[path := data]> fs, Ok tt))
    (fun k fs => if k <? 0 then fs else <[path := take (Z.to_nat k) data]> fs).

Definition fs_rename (source destination : list Z) : io unit :=
  primitive (fun fs =>
    match fs !! source with
    | Some data => (<[destination := data]> (delete source fs), Ok tt)
    | None => (fs, Err IoFailed)
    end) no_effect.

Definition fs_remove (path : list Z) : io unit :=
  primitive (fun fs =>
    match fs !! path with Some _ => (delete path fs, Ok tt) | None => (fs, Err IoFailed) end) no_effect.

(** [OpenOptions] without [create]; with [create] and [truncate] *)
Definition open_existing (path : list Z) : io unit :=
  primitive (fun fs => (fs, match fs !! path with Some _ => Ok tt | None => Err IoFailed end)) no_effect.
Definition create_truncate (path : list Z) : io unit :=
  primitive (fun fs => (<[path := []]> fs, Ok tt)) no_effect.

(** [File::set_len] *)
Definition resize (n : Z) (content : list Z) : list Z :=
  take (Z.to_nat n) content ++ replicate (Z.to_nat (n - len content)) 0.
Definition set_len (path : list Z) (n : Z) : io unit :=
  primitive (fun fs => (alter (resize n) path fs, Ok tt)) no_effect.

(** [seek] then [write_all]: bytes of the file from [offset] on are overwritten; a
    gap past the end reads as zeroes *)
Definition overwrite (offset : Z) (data content : list Z) : list Z :=
  let content := content ++ replicate (Z.to_nat (offset - len content)) 0 in
  take (Z.to_nat offset) content ++ data ++ drop (Z.to_nat (offset + len data)) content.
Definition write_all_at (path : list Z) (offset : Z) (data : list Z) : io unit :=
  primitive (fun fs => (alter (overwrite offset data) path fs, Ok tt))
    (fun k fs => alter (overwrite offset (take (Z.to_nat k) data)) path fs).

(** [sync_data] and [flush] *)
Definition sync : io unit := primitive (fun fs => (fs, Ok tt)) no_effect.

(** [seek] then [read_exact] *)
Definition read_exact_at (path : list Z) (offset length : Z) : io (list Z) :=
  content ← fs_read path;
  lift (ok_or (slice content offset (offset + length)) IoFailed).

(** ** Operations *)

Definition append_suffix (path suffix : list Z) : list Z := path ++ suffix.

Definition replace_file (source destination : list Z) : io unit := fun w =>
  match fs_rename source destination w with
  | (w, Ok u) => (w, Ok u)
  | (w, Err e) =>
      (there ← path_exists destination;
       if (there : bool) then _ ← fs_remove destination; fs_rename source destination else throw e) w
  end.

Definition expected_chunk_length (m : Manifest) (index : Z) : result ResumeError Z :=
  if match try_from USIZE_MAX index with Some value => value >=? len (m_chunks m) | None => true end
  then Err (OutsideManifest index)
  else
    offset ← ok_or (checked_mul U64_MAX index (m_chunk_size m)) OffsetOverflow;
    remaining ← ok_or (checked_sub U64_MAX (m_length m) offset) OffsetExceedsLength;
    Ok (Z.min remaining (m_chunk_size m)).

Section Operations.
Context `{Blake3} `{Postcard}.

Definition save_state (d : ResumeDownload) : io unit :=
  let temporary := append_suffix (state_path d) (str ".tmp") in
  _ ← fs_write temporary (encode_record (record d));
  replace_file temporary (state_path d).

(** The loop of [validate_resumed_chunks]. *)
Fixpoint validate_loop (path : list Z) (m : Manifest) (completed : list (Z * bool)) : io unit :=
  match completed with
  | [] => mret tt
  | (index, done) :: completed =>
      if negb done then validate_loop path m completed
      else
        index_u32 ← lift (ok_or (try_from U32_MAX index) IoFailed);
        length ← lift (expected_chunk_length m index_u32);
        let offset := sat_mul U64_MAX index_u32 (m_chunk_size m) in
        data ← read_exact_at path offset length;
        id ← lift (ok_or (get (m_chunks m) index) IoFailed);
        _ ← lift (map_err (Verification index) (verify_chunk m (mkChunk index_u32 id data)));
        validate_loop path m completed
  end.

Definition validate_resumed_chunks (path : list Z) (m : Manifest) (completed : list bool) : io unit :=
  validate_loop path m (enumerate completed).

(** [ResumeDownload::open]: the record and the number of chunks resumed; the file
    handle is the partial path. *)
Definition open (output : list Z) (m : Manifest) : io (ResumeDownload * Z) :=
  _ ← lift (map_err MalformedManifest (validate_shape m));
  let part := append_suffix output (str ".triptorrent-part") in
  let state := append_suffix output (str ".triptorrent-state") in
  state_exists ← path_exists state;
  part_exists ← path_exists part;
  if negb (bool_decide (state_exists = part_exists)) then throw IncompleteData
  else if (state_exists : bool) then
    metadata ← fs_read state;
    if len metadata >? MAX_RESUME_STATE_BYTES then throw StateTooLarge
    else
      encoded ← fs_read state;
      rec ← lift (ok_or (decode_record encoded) MalformedState);
      if negb (r_version rec =? RESUME_VERSION) || negb (bool_decide (r_manifest rec = m))
      then throw ManifestMismatch
      else if negb (len (r_completed rec) =? len (m_chunks m)) then throw BadChunkCount
      else
        _ ← open_existing part;
        content ← fs_read part;
        if negb (len content =? m_length m) then throw PartialLength
        else
          _ ← validate_resumed_chunks part m (r_completed rec);
          mret (mkResumeDownload part state rec, count id (r_completed rec))
  else
    _ ← create_truncate part;
    _ ← set_len part (m_length m);
    let resume := mkResumeDownload part state
                    (mkResumeRecord RESUME_VERSION m (replicate (length (m_chunks m)) false)) in
    _ ← save_state resume;
    mret (resume, 0).

(** [ResumeDownload::write_verified_chunk]; the record in memory is returned also
    when saving it fails. *)
Definition write_verified_chunk (d : ResumeDownload) (m : Manifest) (chunk : Chunk) (w : World)
  : World * (ResumeDownload * result ResumeError unit) :=
  let offset := sat_mul U64_MAX (c_index chunk) (m_chunk_size m) in
  match (_ ← lift (map_err (Verification (c_index chunk)) (verify_chunk m chunk));
         _ ← write_all_at (part_path d) offset (c_data chunk);
         sync) w with
  | (w, Err e) => (w, (d, Err e))
  | (w, Ok _) =>
      let r := record d in
      let d := mkResumeDownload (part_path d) (state_path d)
                 (mkResumeRecord (r_version r) (r_manifest r) (set_at (r_completed r) (c_index chunk) true)) in
      let '(w, res) := save_state d w in
      (w, (d, res))
  end.

(** The loop of [finish]: the hasher is the bytes it was fed. *)
Fixpoint hash_loop (buffers : list (list Z)) (hasher : list Z) (total : Z) : list Z * Z :=
  match buffers with
  | [] => (hasher, total)
  | buffer :: buffers => hash_loop buffers (hasher ++ buffer) (sat_add U64_MAX total (len buffer))
  end.

(** [ResumeDownload::finish] *)
Definition finish (d : ResumeDownload) (output : list Z) (content_id : ContentId) : io unit :=
  _ ← sync;
  content ← fs_read (part_path d);
  let '(hasher, total) := hash_loop (chunks (Z.to_nat CHUNK_SIZE) content) [] 0 in
  if negb (total =? m_length (r_manifest (record d))) || negb (bool_decide (blake3_hash hasher = content_id))
  then throw ContentMismatch
  else
    _ ← replace_file (part_path d) output;
    fs_remove (state_path d).
End Operations.

(** ** Ranges of a file *)

Lemma slice_app_l (x y : list Z) i j : j <= len x -> slice (x ++ y) i j = slice x i j.
Proof.
  intros Hj. unfold slice. rewrite len_app. pose_lens.
  destruct (Z.leb_spec 0 i), (Z.leb_spec i j), (Z.leb_spec j (len x)), (Z.leb_spec j (len x + len y));
    simpl; try lia; try done.
  f_equal. rewrite drop_app_le by (unfold len in *; lia). rewrite take_app_le; [done|].
  rewrite length_drop. unfold len in *. lia.
Qed.

Lemma slice_app_r (x y : list Z) i j : len x <= i -> slice (x ++ y) i j = slice y (i - len x) (j - len x).
Proof.
  intros Hi. unfold slice. rewrite len_app. pose_lens.
  destruct (Z.leb_spec 0 i), (Z.leb_spec i j), (Z.leb_spec j (len x + len y)), (Z.leb_spec 0 (i - len x)),
    (Z.leb_spec (i - len x) (j - len x)), (Z.leb_spec (j - len x) (len y)); simpl; try lia; try done.
  f_equal. rewrite drop_app_ge by (unfold len in *; lia).
  f_equal; [lia|]. f_equal. unfold len in *. lia.
Qed.

(** Overwriting inside a file: the file before, between and after. *)
Lemma overwrite_split off data content :
  0 <= off -> off + len data <= len content ->
  exists x y z, content = x ++ y ++ z /\ len x = off /\ len y = len data /\ overwrite off data content = x ++ data ++ z.
Proof.
  intros Hoff Hle. unfold overwrite. replace (off - len content) with (- (len content - off)) by lia.
  pose_lens. replace (Z.to_nat (- (len content - off))) with 0%nat by lia. simpl. rewrite app_nil_r.
  exists (take (Z.to_nat off) content), (take (Z.to_nat (len data)) (drop (Z.to_nat off) content)),
    (drop (Z.to_nat (off + len data)) content). split_and!.
  - rewrite <- (take_drop (Z.to_nat off) content) at 1. f_equal.
    rewrite <- (take_drop (Z.to_nat (len data)) (drop (Z.to_nat off) content)) at 1. f_equal.
    rewrite drop_drop. f_equal. lia.
  - rewrite len_take. lia.
  - rewrite len_take, len_drop. lia.
  - done.
Qed.

Lemma len_overwrite off data content :
  0 <= off -> off + len data <= len content -> len (overwrite off data content) = len content.
Proof.
  intros Ho Hl. destruct (overwrite_split off data content Ho Hl) as (x & y & z & -> & _ & Hy & ->).
  rewrite !len_app. lia.
Qed.

Lemma slice_overwrite_same off data content :
  0 <= off -> off + len data <= len content -> slice (overwrite off data content) off (off + len data) = Some data.
Proof.
  intros Ho Hl. destruct (overwrite_split off data content Ho Hl) as (x & y & z & -> & Hx & Hy & ->).
  apply slice_middle; lia.
Qed.

Lemma slice_overwrite_other off data content i j :
  0 <= off -> off + len data <= len content -> j <= off \/ off + len data <= i ->
  slice (overwrite off data content) i j = slice content i j.
Proof.
  intros Ho Hl Hd. destruct (overwrite_split off data content Ho Hl) as (x & y & z & -> & Hx & Hy & ->).
  destruct Hd as [Hd|Hd].
  - by rewrite !slice_app_l by lia.
  - rewrite !app_assoc. rewrite !slice_app_r by (rewrite len_app; lia). rewrite !len_app. by rewrite Hy.
Qed.

(** ** Chunks of a partial file *)

(** The chunk's place in the file, for a manifest of valid shape. *)
Definition chunk_length (m : Manifest) (i : Z) : Z := Z.min (m_length m - i * m_chunk_size m) (m_chunk_size m).

Lemma chunk_place m i :
  validate_shape m = Ok tt -> 0 <= m_length m -> 0 <= i < len (m_chunks m) ->
  expected_chunk_length m i = Ok (chunk_length m i) /\ 0 < chunk_length m i <= m_chunk_size m
  /\ i * m_chunk_size m + chunk_length m i <= m_length m
  /\ sat_mul U64_MAX i (m_chunk_size m) = i * m_chunk_size m /\ i <= U32_MAX.
Proof.
  intros (Hcs & Hml & Hmc & Hn)%validate_shape_Ok Hpos Hi. unfold expected_chunk_length, chunk_length.
  rewrite Hcs, CHUNK_SIZE_val in *.
  pose proof (div_ceil_spec (m_length m) 32768 Hpos ltac:(lia)) as Hd. rewrite <- Hn in Hd.
  unfold MAX_CONTENT_LENGTH, MAX_MANIFEST_CHUNKS in *.
  rewrite (proj2 (try_from_Some _ i i)) by (unfold USIZE_MAX, U64_MAX; lia).
  destruct (Z.geb_spec i (len (m_chunks m))); [lia|].
  unfold checked_mul, checked_sub.
  rewrite (proj2 (try_from_Some _ (i * 32768) (i * 32768))) by (unfold U64_MAX; lia). cbn [ok_or mbind result_bind].
  rewrite (proj2 (try_from_Some _ (m_length m - i * 32768) (m_length m - i * 32768))) by (unfold U64_MAX; lia).
  cbn [ok_or mbind result_bind]. unfold sat_mul, U64_MAX, U32_MAX. split_and!; [done|lia..].
Qed.

(** Every chunk marked as completed has, at its place in the file, data that
    satisfies [P]. *)
Definition marked (m : Manifest) (content : list Z) (completed : list bool) (P : Z -> list Z -> Prop) : Prop :=
  len completed = len (m_chunks m) /\ len content = m_length m
  /\ forall i, get completed i = Some true ->
       exists data, slice content (i * m_chunk_size m) (i * m_chunk_size m + chunk_length m i) = Some data /\ P i data.

Section Marked.
Context (m : Manifest) (Hshape : validate_shape m = Ok tt) (Hpos : 0 <= m_length m).
Context (P : Z -> list Z -> Prop).

Lemma chunk_size_nonneg : 0 <= m_chunk_size m.
Proof using Hshape. apply validate_shape_Ok in Hshape as (-> & _). rewrite CHUNK_SIZE_val. lia. Qed.

(** Writing (part of) a chunk that is not marked keeps the others. *)
Lemma marked_overwrite content completed i data :
  marked m content completed P -> get completed i <> Some true -> 0 <= i < len (m_chunks m) ->
  len data <= chunk_length m i ->
  marked m (overwrite (i * m_chunk_size m) data content) completed P.
Proof using Hshape Hpos.
  intros (Hlen & Hc & Hver) Hni Hi Hd. pose proof chunk_size_nonneg.
  destruct (chunk_place m i Hshape Hpos Hi) as (_ & Hcl & Hend & _ & _).
  split_and!; [done|rewrite len_overwrite by nia; done|].
  intros j Hj. destruct (Hver j Hj) as (dj & Hsl & Hid). exists dj. split; [|done].
  rewrite slice_overwrite_other; [done|nia|lia|].
  assert (j <> i) by congruence. pose proof (get_Some_range _ _ _ Hj) as Hjr.
  destruct (chunk_place m j Hshape Hpos ltac:(lia)) as (_ & Hclj & _ & _ & _). nia.
Qed.

(** After writing the whole chunk it may be marked. *)
Lemma marked_mark content completed i data :
  marked m content completed P -> get completed i <> Some true -> 0 <= i < len (m_chunks m) ->
  len data = chunk_length m i -> P i data ->
  marked m (overwrite (i * m_chunk_size m) data content) (set_at completed i true) P.
Proof using Hshape Hpos.
  intros Hm Hni Hi Hd HP. pose proof chunk_size_nonneg.
  pose proof (marked_overwrite content completed i data Hm Hni Hi ltac:(lia)) as (Hlen & Hc & Hver).
  destruct (chunk_place m i Hshape Hpos Hi) as (_ & Hcl & Hend & _ & _).
  split_and!; [by rewrite len_set_at|done|].
  intros j Hj. destruct (decide (j = i)) as [->|Hne].
  - exists data. split; [|done]. rewrite <- Hd. apply slice_overwrite_same; [nia|].
    destruct Hm as (_ & -> & _). lia.
  - apply Hver. destruct (proj2 (get_is_Some completed i) ltac:(lia)) as [b Hb].
    rewrite (get_set_at _ _ _ _ _ Hb) in Hj. by rewrite (proj2 (Z.eqb_neq j i)) in Hj.
Qed.
End Marked.

Section Disk.
Context `{Blake3} `{Postcard}.

(** The data hashes to the identifier the manifest lists. *)
Definition verified (m : Manifest) (i : Z) (data : list Z) : Prop :=
  get (m_chunks m) i = Some (ChunkId_digest data).

(** A record that tells the truth about a partial file. *)
Definition truthful (m : Manifest) (content : list Z) (r : ResumeRecord) : Prop :=
  r_version r = RESUME_VERSION /\ r_manifest r = m /\ marked m content (r_completed r) (verified m).

(** The files of a download that can be resumed with a record. *)
Definition disk_ok (m : Manifest) (part state : list Z) (fs : gmap (list Z) (list Z)) (r : ResumeRecord) : Prop :=
  exists content encoded, fs !! part = Some content /\ fs !! state = Some encoded
    /\ decode_record encoded = Some r /\ truthful m content r.

Lemma truthful_overwrite m content r i data :
  validate_shape m = Ok tt -> 0 <= m_length m -> truthful m content r ->
  get (r_completed r) i <> Some true -> 0 <= i < len (m_chunks m) -> len data <= chunk_length m i ->
  truthful m (overwrite (i * m_chunk_size m) data content) r.
Proof. intros Hs Hp (Hv & Hm & Hk) Hni Hi Hd. split_and!; [done|done|]. by apply marked_overwrite. Qed.

Lemma truthful_mark m content r i data :
  validate_shape m = Ok tt -> 0 <= m_length m -> truthful m content r ->
  get (r_completed r) i <> Some true -> len data = chunk_length m i ->
  get (m_chunks m) i = Some (ChunkId_digest data) ->
  truthful m (overwrite (i * m_chunk_size m) data content)
    (mkResumeRecord (r_version r) (r_manifest r) (set_at (r_completed r) i true)).
Proof.
  intros Hs Hp (Hv & Hm & Hk) Hni Hd Hid. split_and!; [done|done|].
  apply marked_mark; try done. by eapply get_Some_range.
Qed.
End Disk.

(** ** Faults *)

(** The faults still to come. *)
Definition fault_count (w : World) : Z := count (fun f => bool_decide (is_Some f)) (faults w).

Lemma fault_count_cons f fs fs' rest :
  fault_count (mkWorld fs (f :: rest)) = (if f is Some _ then 1 else 0) + fault_count (mkWorld fs' rest).
Proof. unfold fault_count. cbn [faults]. rewrite count_cons. by destruct f. Qed.

(** A primitive succeeds, or uses up a fault. *)
Lemma primitive_cases {A} s f (w w' : World) (r : result ResumeError A) :
  primitive s f w = (w', r) ->
  (s (files w) = (files w', r) /\ fault_count w' = fault_count w)
  \/ (exists k, files w' = f k (files w) /\ r = Err IoFailed /\ fault_count w = fault_count w' + 1).
Proof.
  unfold primitive. destruct w as [fs [|[k|] rest]]; cbn [files faults].
  - destruct (s fs) as [fs' r'] eqn:E. intros [= <- <-]. by left.
  - intros [= <- <-]. right. exists k. rewrite (fault_count_cons (Some k) fs (f k fs)). split_and!; [done|done|lia].
  - destruct (s fs) as [fs' r'] eqn:E. intros [= <- <-]. left. rewrite (fault_count_cons None fs fs'). split; [done|lia].
Qed.

Lemma primitive_Ok {A} s f w w' (a : A) : primitive s f w = (w', Ok a) -> s (files w) = (files w', Ok a).
Proof. by intros [[? _]|(k & _ & ? & _)]%primitive_cases. Qed.

Lemma path_exists_cases p w w' b :
  path_exists p w = (w', b) ->
  files w' = files w
  /\ ((b = Ok (bool_decide (is_Some (files w !! p))) /\ fault_count w' = fault_count w)
      \/ (b = Ok false /\ fault_count w = fault_count w' + 1)).
Proof.
  unfold path_exists. destruct w as [fs [|[k|] rest]]; cbn [files faults]; intros [= <- <-]; (split; [done|]).
  - by left.
  - right. rewrite (fault_count_cons (Some k) fs fs). split; [done|lia].
  - left. rewrite (fault_count_cons None fs fs). split; [done|lia].
Qed.

(** Replacing a file: other files stay; the destination becomes the source, or the
    call fails, and then it is kept unless two faults struck. *)
Lemma replace_file_cases source destination w w' r data :
  source <> destination -> files w !! source = Some data ->
  replace_file source destination w = (w', r) ->
  (forall p, p <> source -> p <> destination -> files w' !! p = files w !! p)
  /\ ((r = Ok tt /\ files w' !! destination = Some data /\ files w' !! source = None
       /\ fault_count w' <= fault_count w)
      \/ (is_ok r = false /\ files w' = files w /\ fault_count w' + 1 <= fault_count w)
      \/ (is_ok r = false /\ files w' = delete destination (files w) /\ fault_count w' + 2 <= fault_count w)).
Proof.
  intros Hne Hsrc. unfold replace_file. destruct (fs_rename source destination w) as [w1 r1] eqn:E1.
  apply primitive_cases in E1 as [[E1 Hf1]|(k & E1 & -> & Hf1)].
  - rewrite Hsrc in E1. injection E1 as E1 <-. intros [= <- <-]. rewrite <- E1. split.
    + intros p Hp Hp'. rewrite lookup_insert_ne, lookup_delete_ne by done. done.
    + left. split_and!; [done|by rewrite lookup_insert_eq| |lia]. rewrite lookup_insert_ne by done. apply lookup_delete_eq.
  - unfold no_effect in E1. intros Hr. apply st_bind_inv in Hr as [(w2 & there & E2 & Hr)|(e & E2 & ->)].
    2:{ apply path_exists_cases in E2 as [_ [[? _]|[? _]]]; done. }
    apply path_exists_cases in E2 as [Hw2 Hb].
    assert (fault_count w2 <= fault_count w1) as Hf2 by (destruct Hb as [[_ ?]|[_ ?]]; lia).
    rewrite E1 in Hw2. destruct there.
    2:{ injection Hr as <- <-. rewrite Hw2. split; [done|]. right; left. split_and!; [done|done|lia]. }
    apply st_bind_inv in Hr as [(w3 & u & E3 & Hr)|(e & E3 & ->)].
    + apply primitive_cases in E3 as [[E3 Hf3]|(k' & _ & ? & _)]; [|done]. rewrite Hw2 in E3.
      destruct (files w !! destination) as [old|] eqn:Eold; [|done]. injection E3 as E3 <-.
      apply primitive_cases in Hr as [[Hr Hf4]|(k' & Hr & -> & Hf4)].
      * rewrite <- E3, lookup_delete_ne, Hsrc in Hr by done. injection Hr as Hr <-. rewrite <- Hr. split.
        -- intros p Hp Hp'. by rewrite lookup_insert_ne, !lookup_delete_ne by done.
        -- left. split_and!; [done|by rewrite lookup_insert_eq| |lia].
           rewrite lookup_insert_ne by done. apply lookup_delete_eq.
      * unfold no_effect in Hr. rewrite <- E3 in Hr. rewrite Hr. split; [|right; right; split_and!; [done|done|lia]].
        intros p _ Hp'. by rewrite lookup_delete_ne by done.
    + apply primitive_cases in E3 as [[E3 Hf3]|(k' & E3 & [= ->] & Hf3)].
      * rewrite Hw2 in E3. destruct (files w !! destination) eqn:Eold; [done|]. injection E3 as <-.
        split; [done|]. right; left. split_and!; [done|done|lia].
      * unfold no_effect in E3. rewrite E3, Hw2. split; [done|]. right; left. split_and!; [done|done|lia].
Qed.

Lemma suffix_ne (p s : list Z) : s <> [] -> p <> p ++ s.
Proof. intros Hs Heq. apply (f_equal length) in Heq. rewrite length_app in Heq. destruct s; [done|]. simpl in Heq. lia. Qed.

(** The paths of a download. *)
Definition part_of (output : list Z) : list Z := append_suffix output (str ".triptorrent-part").
Definition state_of (output : list Z) : list Z := append_suffix output (str ".triptorrent-state").
Definition tmp_of (output : list Z) : list Z := append_suffix (state_of output) (str ".tmp").

Lemma paths_distinct output :
  part_of output <> state_of output /\ part_of output <> tmp_of output /\ state_of output <> tmp_of output
  /\ output <> part_of output /\ output <> state_of output /\ output <> tmp_of output.
Proof.
  unfold tmp_of, part_of, state_of, append_suffix. rewrite <- app_assoc. split_and!.
  1-3: intros Heq%app_inv_head; discriminate Heq.
  all: by apply suffix_ne.
Qed.

Section Safety.
Context `{Blake3} `{PostcardLaws}.

(** Saving the state: the state file is the new record, the old one, or lost after
    two faults. *)
Lemma save_state_cases d w w' r :
  let tmp := append_suffix (state_path d) (str ".tmp") in
  save_state d w = (w', r) ->
  (forall p, p <> tmp -> p <> state_path d -> files w' !! p = files w !! p)
  /\ ((r = Ok tt /\ files w' !! state_path d = Some (encode_record (record d)))
      \/ (is_ok r = false /\ files w' !! state_path d = files w !! state_path d)
      \/ (is_ok r = false /\ files w' !! state_path d = None /\ fault_count w' + 2 <= fault_count w)).
Proof.
  intros tmp. assert (state_path d <> tmp) as Hne by (by apply suffix_ne).
  unfold save_state. fold tmp. intros Hr. apply st_bind_inv in Hr as [(w1 & u & E1 & Hr)|(e & E1 & ->)].
  - apply primitive_cases in E1 as [[E1 Hf1]|(? & _ & ? & _)]; [|done]. injection E1 as E1 <-.
    assert (files w1 !! tmp = Some (encode_record (record d))) as Htmp by (rewrite <- E1; apply lookup_insert_eq).
    destruct (replace_file_cases _ _ _ _ _ _ (not_eq_sym Hne) Htmp Hr) as [Ho Hc]. rewrite <- E1 in *. split.
    + intros p Hp Hp'. rewrite Ho by done. by rewrite lookup_insert_ne by done.
    + destruct Hc as [(-> & Hd & _)|[(Hk & -> & _)|(Hk & -> & Hf)]].
      * by left.
      * right; left. by rewrite lookup_insert_ne by done.
      * right; right. split_and!; [done|apply lookup_delete_eq|lia].
  - apply primitive_cases in E1 as [[E1 _]|(k & E1 & _ & _)]; [done|]. rewrite E1. split.
    + intros p Hp _. destruct (k <? 0); [done|]. by rewrite lookup_insert_ne by done.
    + right; left. split; [done|]. destruct (k <? 0); [done|]. by rewrite lookup_insert_ne by done.
Qed.

(** The truth of a record does not depend on what is not marked. *)
Lemma disk_ok_intro m part state fs content encoded r :
  fs !! part = Some content -> fs !! state = Some encoded -> decode_record encoded = Some r ->
  truthful m content r -> disk_ok m part state fs r.
Proof. intros. by exists content, encoded. Qed.

(** The write before the record is updated: nothing happened, or (a prefix of) the
    data of a verified chunk was written at its place. *)
Lemma write_phase m chunk part w w1 r1 :
  (_ ← lift (map_err (Verification (c_index chunk)) (verify_chunk m chunk));
   _ ← write_all_at part (sat_mul U64_MAX (c_index chunk) (m_chunk_size m)) (c_data chunk);
   sync) w = (w1, r1) ->
  fault_count w1 <= fault_count w
  /\ ((verify_chunk m chunk <> Ok tt /\ is_ok r1 = false /\ files w1 = files w)
      \/ (verify_chunk m chunk = Ok tt
          /\ exists data, len data <= len (c_data chunk) /\ (is_ok r1 = true -> data = c_data chunk)
               /\ files w1 = alter (overwrite (sat_mul U64_MAX (c_index chunk) (m_chunk_size m)) data) part (files w))).
Proof.
  intros Hr. destruct (verify_chunk m chunk) as [[]|e] eqn:Ev.
  2:{ injection Hr as <- <-. split; [lia|]. left. done. }
  apply st_bind_inv in Hr as [(w0 & u & E0 & Hr)|(e & E0 & _)]; [|done]. injection E0 as <- <-.
  apply st_bind_inv in Hr as [(w2 & u2 & E2 & Hr)|(e & E2 & ->)].
  - apply primitive_cases in E2 as [[E2 Hf2]|(? & _ & ? & _)]; [|done]. injection E2 as E2 <-.
    apply primitive_cases in Hr as [[E3 Hf3]|(? & E3 & -> & Hf3)].
    + injection E3 as E3 <-. split; [lia|]. right. split; [done|]. exists (c_data chunk). rewrite <- E3, <- E2. done.
    + unfold no_effect in E3. split; [lia|]. right. split; [done|]. exists (c_data chunk). rewrite E3, <- E2. done.
  - apply primitive_cases in E2 as [[E2 _]|(k & E2 & _ & Hf2)]; [done|]. split; [lia|]. right. split; [done|].
    exists (take (Z.to_nat k) (c_data chunk)). split_and!; [rewrite len_take; lia|done|done].
Qed.

(** A successful write, for the loop that downloads the chunks. *)
Lemma write_verified_chunk_Ok output d m chunk w w' d' content :
  part_path d = part_of output -> state_path d = state_of output -> files w !! part_of output = Some content ->
  write_verified_chunk d m chunk w = (w', (d', Ok tt)) ->
  verify_chunk m chunk = Ok tt
  /\ d' = mkResumeDownload (part_of output) (state_of output)
            (mkResumeRecord (r_version (record d)) (r_manifest (record d))
               (set_at (r_completed (record d)) (c_index chunk) true))
  /\ files w' !! part_of output
     = Some (overwrite (sat_mul U64_MAX (c_index chunk) (m_chunk_size m)) (c_data chunk) content)
  /\ files w' !! state_of output = Some (encode_record (record d')).
Proof.
  intros Hpart Hstate Hcont. destruct (paths_distinct output) as (Hps & Hpt & Hst & _).
  unfold write_verified_chunk. intros Hw. rewrite Hpart, Hstate in Hw.
  destruct ((_ ← lift _; _ ← write_all_at _ _ _; sync) w) as [w1 [u|e]] eqn:E1; [|done].
  destruct (write_phase _ _ _ _ _ _ E1) as [_ [(_ & ? & _)|(Hv & data & _ & Hfull & Hfs)]]; [done|].
  specialize (Hfull eq_refl). subst data. destruct (save_state _ w1) as [w2 r2] eqn:E2. injection Hw as <- <- ->.
  pose proof (save_state_cases _ _ _ _ E2) as [Ho Hc]. cbn [state_path record] in Ho, Hc.
  destruct Hc as [(_ & Hs)|[(? & _)|(? & _)]]; [|done..]. split_and!; [done|done| |done].
  rewrite Ho by done. rewrite Hfs, lookup_alter_eq, Hcont. done.
Qed.

(** The state file holds a record. *)
Definition state_holds (output : list Z) (fs : gmap (list Z) (list Z)) (r : ResumeRecord) : Prop :=
  exists encoded, fs !! state_of output = Some encoded /\ decode_record encoded = Some r.

(** A chunk whose data fills its place: the files stay resumable. *)
Lemma sized_chunk_crash_safe m output d chunk w w' d' r content old :
  validate_shape m = Ok tt -> 0 <= m_length m ->
  part_path d = part_of output -> state_path d = state_of output ->
  files w !! part_of output = Some content ->
  disk_ok m (part_of output) (state_of output) (files w) old -> truthful m content (record d) ->
  (forall i, get (r_completed old) i = Some true -> get (r_completed (record d)) i = Some true) ->
  get (r_completed (record d)) (c_index chunk) <> Some true ->
  len (c_data chunk) = chunk_length m (c_index chunk) ->
  write_verified_chunk d m chunk w = (w', (d', r)) ->
  (r = Ok tt -> verify_chunk m chunk = Ok tt
     /\ r_completed (record d') = set_at (r_completed (record d)) (c_index chunk) true
     /\ disk_ok m (part_of output) (state_of output) (files w') (record d'))
  /\ ((exists new, (new = old \/ new = record d') /\ disk_ok m (part_of output) (state_of output) (files w') new)
      \/ (is_ok r = false /\ files w' !! state_of output = None /\ fault_count w' + 2 <= fault_count w)).
Proof.
  intros Hshape Hpos Hpart Hstate Hcontent Hdisk Hmem Hsub Hnew Hlen.
  destruct (paths_distinct output) as (Hps & Hpt & Hst & _).
  destruct Hdisk as (content' & encoded & Hc' & Henc & Hdec & Hold). rewrite Hcontent in Hc'. injection Hc' as <-.
  assert (get (r_completed old) (c_index chunk) <> Some true) as Hnold by (intros ?; by apply Hnew, Hsub).
  unfold write_verified_chunk. intros Hw. rewrite Hpart in Hw.
  destruct ((_ ← lift _; _ ← write_all_at _ _ _; sync) w) as [w1 r1] eqn:E1.
  destruct (write_phase _ _ _ _ _ _ E1) as [Hf1 [(Hv & Hk & Hfs)|(Hv & data & Hdata & Hfull & Hfs)]].
  { destruct r1 as [u|e]; [done|]. injection Hw as <- <- <-. split; [done|]. left. exists old. split; [by left|].
    rewrite Hfs. by apply (disk_ok_intro _ _ _ _ content encoded). }
  apply verify_chunk_Ok in Hv as Hv'. destruct Hv' as (_ & Hid & Hdig). rewrite <- Hdig in Hid.
  pose proof (get_Some_range _ _ _ Hid) as Hi.
  destruct (chunk_place m _ Hshape Hpos Hi) as (_ & Hcl & _ & Hsat & _). rewrite Hsat in Hfs.
  set (content1 := overwrite (c_index chunk * m_chunk_size m) data content) in *.
  assert (files w1 !! part_of output = Some content1) as Hp1 by (rewrite Hfs; rewrite lookup_alter_eq, Hcontent; done).
  assert (files w1 !! state_of output = Some encoded) as Hs1 by (rewrite Hfs; by rewrite lookup_alter_ne).
  assert (truthful m content1 old) as Ht1 by (apply truthful_overwrite; try done; lia).
  destruct r1 as [u|e].
  2:{ injection Hw as <- <- <-. split; [done|]. left. exists old. split; [by left|].
      by apply (disk_ok_intro _ _ _ _ content1 encoded). }
  specialize (Hfull eq_refl). subst data.
  destruct (save_state _ w1) as [w2 r2] eqn:E2. injection Hw as <- <- <-.
  pose proof (save_state_cases _ _ _ _ E2) as [Ho Hc]. cbn [state_path part_path record] in Ho, Hc.
  rewrite Hstate in Ho, Hc. rewrite <- (Ho (part_of output)) in Hp1 by done.
  cbn [record r_completed].
  pose proof (truthful_mark m content (record d) _ _ Hshape Hpos Hmem Hnew Hlen Hid) as Ht2. fold content1 in Ht2.
  destruct Hc as [(-> & Hnewst)|[(Hk & Hkeep)|(Hk & Hgone & Hf2)]].
  - assert (disk_ok m (part_of output) (state_of output) (files w2)
      (mkResumeRecord (r_version (record d)) (r_manifest (record d))
         (set_at (r_completed (record d)) (c_index chunk) true))) as Hd2.
    { eapply disk_ok_intro; [exact Hp1|exact Hnewst|apply decode_encode_record|done]. }
    split; [intros _; by split_and!|]. left. eexists. split; [by right|done].
  - split; [intros ->; done|]. left. exists old. split; [by left|].
    apply (disk_ok_intro _ _ _ _ content1 encoded); try done. by rewrite Hkeep.
  - split; [intros ->; done|]. right. split_and!; [done|done|lia].
Qed.

(** A chunk of any length: what is on the disk afterwards. *)
Lemma write_outcome m output d chunk w w' d' r content old :
  validate_shape m = Ok tt -> 0 <= m_length m -> part_path d = part_of output -> state_path d = state_of output ->
  files w !! part_of output = Some content -> state_holds output (files w) old ->
  write_verified_chunk d m chunk w = (w', (d', r)) ->
  (r = Ok tt -> verify_chunk m chunk = Ok tt
     /\ r_completed (record d') = set_at (r_completed (record d)) (c_index chunk) true
     /\ files w' !! part_of output = Some (overwrite (c_index chunk * m_chunk_size m) (c_data chunk) content)
     /\ state_holds output (files w') (record d'))
  /\ (r <> Ok tt -> state_holds output (files w') old
        \/ (files w' !! state_of output = None /\ fault_count w' + 2 <= fault_count w)).
Proof.
  intros Hshape Hpos Hpart Hstate Hcontent (encoded & Henc & Hdec) Hw.
  destruct (paths_distinct output) as (Hps & Hpt & Hst & _). split.
  - intros ->. destruct (write_verified_chunk_Ok output d m chunk w w' d' content Hpart Hstate Hcontent Hw) as (Hv & Ed & Hp & Hs).
    pose proof Hv as (_ & Hid & Hdig)%verify_chunk_Ok. rewrite <- Hdig in Hid.
    destruct (chunk_place m _ Hshape Hpos (get_Some_range _ _ _ Hid)) as (_ & _ & _ & Hsat & _). rewrite Hsat in Hp.
    split_and!; [done|by rewrite Ed|done|]. exists (encode_record (record d')). split; [done|apply decode_encode_record].
  - intros Hr. unfold write_verified_chunk in Hw. rewrite Hpart in Hw.
    destruct ((_ ← lift _; _ ← write_all_at _ _ _; sync) w) as [w1 r1] eqn:E1.
    assert (files w1 !! state_of output = Some encoded) as Hs1.
    { destruct (write_phase _ _ _ _ _ _ E1) as [_ [(_ & _ & ->)|(_ & data & _ & _ & ->)]]; [done|by rewrite lookup_alter_ne]. }
    pose proof (write_phase _ _ _ _ _ _ E1) as [Hf1 _].
    destruct r1 as [u|e]; [|injection Hw as <- <- <-; left; by exists encoded].
    destruct (save_state _ w1) as [w2 r2] eqn:E2. injection Hw as <- <- <-.
    pose proof (save_state_cases _ _ _ _ E2) as [_ Hc]. cbn [state_path record] in Hc. rewrite Hstate in Hc.
    destruct Hc as [(-> & _)|[(_ & Hk)|(_ & Hgone & Hf2)]]; [done|left; exists encoded; by rewrite Hk|right; split; [done|lia]].
Qed.


Lemma fs_read_Ok p w w' content :
  fs_read p w = (w', Ok content) -> files w' = files w /\ files w !! p = Some content.
Proof.
  intros [[E _]|(? & _ & ? & _)]%primitive_cases; [|done].
  injection E as <- E. split; [done|]. by apply ok_or_Ok in E.
Qed.

(** A resumed chunk was read and verified. *)
Lemma validate_loop_sound p m l w w' content :
  validate_shape m = Ok tt -> 0 <= m_length m -> files w !! p = Some content ->
  validate_loop p m l w = (w', Ok tt) ->
  files w' = files w /\ forall i, (i, true) ∈ l ->
    exists data, slice content (i * m_chunk_size m) (i * m_chunk_size m + chunk_length m i) = Some data
      /\ verified m i data.
Proof.
  intros Hs Hpos. revert w. induction l as [|[i b] l IH]; intros w Hc; cbn [validate_loop].
  { intros [= <-]. split; [done|]. by intros i ?%elem_of_nil. }
  destruct b; cbn [negb].
  2:{ intros [Hf Hv]%IH; [|done]. split; [done|]. intros j [?|?]%elem_of_cons; [done|auto]. }
  intros Hr. apply st_ok_inv in Hr as (w1 & j & E1 & Hr). injection E1 as <- Ej.
  apply ok_or_Ok, try_from_Some in Ej as [-> _].
  apply st_ok_inv in Hr as (w2 & n & E2 & Hr). injection E2 as <- En.
  apply st_ok_inv in Hr as (w3 & data & E3 & Hr). apply st_ok_inv in E3 as (w4 & c & E4 & E3).
  apply fs_read_Ok in E4 as [Hw4 Hc']. rewrite Hc in Hc'. injection Hc' as <-.
  injection E3 as <- Ed. apply ok_or_Ok in Ed.
  apply st_ok_inv in Hr as (w5 & id & E5 & Hr). injection E5 as <- Eid. apply ok_or_Ok in Eid.
  apply st_ok_inv in Hr as (w6 & u & E6 & Hr). injection E6 as <- Ev. destruct u.
  apply map_err_Ok, verify_chunk_Ok in Ev as (_ & _ & Hdig). cbn [c_data c_id] in Hdig.
  destruct (chunk_place m j Hs Hpos (get_Some_range _ _ _ Eid)) as (Hel & _ & _ & Hsat & _).
  rewrite Hel in En. injection En as <-. rewrite Hsat in Ed.
  destruct (IH w4 ltac:(by rewrite Hw4) Hr) as [Hf Hv]. rewrite Hw4 in Hf. split; [done|].
  intros i' [[= ->]|Hin]%elem_of_cons; [|auto]. exists data. split; [done|]. unfold verified. by rewrite Hdig.
Qed.

Lemma world_eta w : faults w = [] -> mkWorld (files w) [] = w.
Proof. destruct w; simpl. by intros ->. Qed.

Lemma fs_read_calm p w : faults w = [] -> fs_read p w = (w, ok_or (files w !! p) IoFailed).
Proof. intros Hf. unfold fs_read, primitive. rewrite Hf. by rewrite world_eta. Qed.

Lemma path_exists_calm p w : faults w = [] -> path_exists p w = (w, Ok (bool_decide (is_Some (files w !! p)))).
Proof. intros Hf. unfold path_exists. by rewrite Hf. Qed.

Lemma validate_loop_complete p m l w content :
  validate_shape m = Ok tt -> 0 <= m_length m -> faults w = [] -> files w !! p = Some content ->
  (forall i, (i, true) ∈ l ->
    exists data, slice content (i * m_chunk_size m) (i * m_chunk_size m + chunk_length m i) = Some data
      /\ verified m i data) ->
  validate_loop p m l w = (w, Ok tt).
Proof.
  intros Hs Hpos Hf Hc. induction l as [|[i b] l IH]; intros Hv; cbn [validate_loop]; [done|].
  assert (validate_loop p m l w = (w, Ok tt)) as Hl by (apply IH; intros j Hj; apply Hv; by right).
  destruct b; cbn [negb]; [|done]. destruct (Hv i ltac:(left)) as (data & Hd & Hid).
  destruct (chunk_place m i Hs Hpos (get_Some_range _ _ _ Hid)) as (Hel & _ & _ & Hsat & Hu32).
  pose proof (get_Some_range _ _ _ Hid).
  erewrite st_bind_Ok by (unfold lift; by rewrite (proj2 (try_from_Some _ i i)) by lia).
  erewrite st_bind_Ok by (unfold lift; by rewrite Hel). rewrite Hsat.
  erewrite st_bind_Ok.
  2:{ unfold read_exact_at. erewrite st_bind_Ok by (rewrite fs_read_calm, Hc by done; reflexivity).
      unfold lift. by rewrite Hd. }
  erewrite st_bind_Ok by (unfold lift; by rewrite Hid).
  erewrite st_bind_Ok; [done|]. unfold lift. f_equal. apply map_err_Ok, verify_chunk_Ok. cbn.
  split_and!; [unfold USIZE_MAX, U64_MAX, U32_MAX in *; lia|done|done].
Qed.

Lemma elem_enumerate_true (l : list bool) i : (i, true) ∈ enumerate l <-> get l i = Some true.
Proof. split; [by intros [? _]%get_enumerate|apply elem_enumerate]. Qed.

(** A fresh record tells the truth about a file of zeroes. *)
Lemma truthful_fresh m content :
  len content = m_length m ->
  truthful m content (mkResumeRecord RESUME_VERSION m (replicate (length (m_chunks m)) false)).
Proof.
  intros Hl. split; [done|split; [done|]]. cbn [r_completed].
  split; [by rewrite len_replicate|split; [done|]].
  intros i Hg%get_elem. by apply elem_of_replicate in Hg as [? _].
Qed.

Lemma count_fresh n : count id (replicate n false) = 0.
Proof. induction n as [|n IH]; [done|]. cbn [replicate]. by rewrite count_cons, IH. Qed.

Lemma len_resize_nil n : 0 <= n -> len (resize n []) = n.
Proof. intros Hn. unfold resize. rewrite take_nil. simpl. rewrite len_replicate. change (len (@nil Z)) with 0. lia. Qed.

(** Creating a new download. *)
Lemma open_fresh_sound m output w w' d :
  0 <= m_length m ->
  (_ ← create_truncate (part_of output);
   _ ← set_len (part_of output) (m_length m);
   let resume := mkResumeDownload (part_of output) (state_of output)
                   (mkResumeRecord RESUME_VERSION m (replicate (length (m_chunks m)) false)) in
   _ ← save_state resume;
   mret (resume, 0)) w = (w', Ok d) ->
  d.2 = 0 /\ d.1 = mkResumeDownload (part_of output) (state_of output)
                    (mkResumeRecord RESUME_VERSION m (replicate (length (m_chunks m)) false))
  /\ disk_ok m (part_of output) (state_of output) (files w') (record d.1).
Proof.
  intros Hpos Hr. destruct (paths_distinct output) as (Hps & Hpt & Hst & _).
  apply st_ok_inv in Hr as (w1 & u1 & E1 & Hr). apply primitive_cases in E1 as [[E1 _]|(? & _ & ? & _)]; [|done].
  apply st_ok_inv in Hr as (w2 & u2 & E2 & Hr). apply primitive_cases in E2 as [[E2 _]|(? & _ & ? & _)]; [|done].
  injection E1 as E1 <-. injection E2 as E2 <-. cbv zeta in Hr.
  apply st_ok_inv in Hr as (w3 & [] & E3 & Hr). injection Hr as <- <-. cbn [fst snd record]. split_and!; [done|done|].
  pose proof (save_state_cases _ _ _ _ E3) as [Ho Hc]. cbn [state_path record] in Ho, Hc.
  destruct Hc as [(_ & Hst')|[(? & _)|(? & _)]]; [|done..].
  eapply disk_ok_intro; [|exact Hst'|apply decode_encode_record|by apply truthful_fresh, len_resize_nil].
  rewrite Ho by done. rewrite <- E2, <- E1. rewrite lookup_alter_eq, lookup_insert_eq. done.
Qed.

(** Reopening an existing download. *)
Lemma open_existing_sound m output w w' d :
  validate_shape m = Ok tt -> 0 <= m_length m ->
  (metadata ← fs_read (state_of output);
   if len metadata >? MAX_RESUME_STATE_BYTES then throw StateTooLarge
   else
     encoded ← fs_read (state_of output);
     rec ← lift (ok_or (decode_record encoded) MalformedState);
     if negb (r_version rec =? RESUME_VERSION) || negb (bool_decide (r_manifest rec = m))
     then throw ManifestMismatch
     else if negb (len (r_completed rec) =? len (m_chunks m)) then throw BadChunkCount
     else
       _ ← open_existing (part_of output);
       content ← fs_read (part_of output);
       if negb (len content =? m_length m) then throw PartialLength
       else
         _ ← validate_resumed_chunks (part_of output) m (r_completed rec);
         mret (mkResumeDownload (part_of output) (state_of output) rec, count id (r_completed rec))) w
    = (w', Ok d) ->
  exists rec, d = (mkResumeDownload (part_of output) (state_of output) rec, count id (r_completed rec))
    /\ files w' = files w /\ disk_ok m (part_of output) (state_of output) (files w') rec.
Proof.
  intros Hs Hpos Hr. apply st_ok_inv in Hr as (w1 & md & E1 & Hr). apply fs_read_Ok in E1 as [Hw1 _].
  destruct (_ >? _); [done|]. apply st_ok_inv in Hr as (w2 & enc & E2 & Hr). apply fs_read_Ok in E2 as [Hw2 Henc].
  apply st_ok_inv in Hr as (w3 & rec & E3 & Hr). injection E3 as <- E3. apply ok_or_Ok in E3.
  destruct (Z.eqb_spec (r_version rec) RESUME_VERSION) as [Hver|]; [|done]. cbn [negb orb] in Hr.
  case_bool_decide as Hm; [|done]. cbn [negb] in Hr.
  destruct (Z.eqb_spec (len (r_completed rec)) (len (m_chunks m))) as [Hlen|]; [|done]. cbn [negb] in Hr.
  apply st_ok_inv in Hr as (w4 & [] & E4 & Hr). apply primitive_cases in E4 as [[E4 _]|(? & _ & ? & _)]; [|done].
  injection E4 as Hw4 _.
  apply st_ok_inv in Hr as (w5 & content & E5 & Hr). apply fs_read_Ok in E5 as [Hw5 Hcont].
  destruct (Z.eqb_spec (len content) (m_length m)) as [Hcl|]; [|done]. cbn [negb] in Hr.
  apply st_ok_inv in Hr as (w6 & [] & E6 & Hr). injection Hr as <- <-.
  rewrite <- Hw5 in Hcont. destruct (validate_loop_sound _ _ _ _ _ _ Hs Hpos Hcont E6) as [Hw6 Hv].
  exists rec. assert (files w6 = files w) as Hfw by congruence. split_and!; [done|done|].
  apply (disk_ok_intro _ _ _ _ content enc); [congruence|congruence|done|].
  split; [done|split; [done|split; [done|split; [done|]]]]. intros i Hi. by apply Hv, elem_enumerate_true.
Qed.

Lemma open_cases m output w :
  0 <= m_length m ->
  (forall w' d n, open output m w = (w', Ok (d, n)) ->
     validate_shape m = Ok tt /\ part_path d = part_of output /\ state_path d = state_of output
     /\ n = count id (r_completed (record d))
     /\ disk_ok m (part_of output) (state_of output) (files w') (record d))
  /\ (forall r encoded, validate_shape m = Ok tt -> faults w = [] ->
       disk_ok m (part_of output) (state_of output) (files w) r ->
       files w !! state_of output = Some encoded -> len encoded <= MAX_RESUME_STATE_BYTES ->
       open output m w = (w, Ok (mkResumeDownload (part_of output) (state_of output) r, count id (r_completed r)))).
Proof.
  intros Hpos. split.
  - intros w' d n Hr. unfold open in Hr. fold (part_of output) in Hr. fold (state_of output) in Hr.
    apply st_ok_inv in Hr as (w0 & [] & E0 & Hr). injection E0 as <- Hs. apply map_err_Ok in Hs.
    apply st_ok_inv in Hr as (w1 & se & E1 & Hr). apply st_ok_inv in Hr as (w2 & pe & E2 & Hr).
    destruct (negb _); [done|]. destruct se.
    + destruct (open_existing_sound _ _ _ _ _ Hs Hpos Hr) as (rec & [= -> ->] & _ & Hd). by split_and!.
    + destruct (open_fresh_sound _ _ _ _ _ Hpos Hr) as (Hn & Hd & Hdisk). cbn [fst snd] in *. subst.
      split_and!; try done. symmetry. apply count_fresh.
  - intros r enc Hs Hf (content & enc' & Hcont & Henc' & Hdec & Ht) Henc Hmax. rewrite Henc in Henc'. injection Henc' as <-.
    destruct Ht as (Hver & Hm & Hlen & Hcl & Hv). unfold open. fold (part_of output). fold (state_of output).
    erewrite st_bind_Ok by (unfold lift; by rewrite Hs). cbv zeta.
    erewrite st_bind_Ok by (by apply path_exists_calm). erewrite st_bind_Ok by (by apply path_exists_calm).
    rewrite Henc, Hcont. rewrite !(bool_decide_eq_true_2 (is_Some _)) by done.
    rewrite bool_decide_eq_true_2 by done. cbn [negb].
    erewrite st_bind_Ok by (rewrite fs_read_calm, Henc by done; reflexivity).
    destruct (Z.gtb_spec (len enc) MAX_RESUME_STATE_BYTES); [lia|].
    erewrite st_bind_Ok by (rewrite fs_read_calm, Henc by done; reflexivity).
    erewrite st_bind_Ok by (unfold lift; by rewrite Hdec). rewrite Hver, Hm, Hlen, !Z.eqb_refl.
    rewrite (bool_decide_eq_true_2 (m = m)) by done. cbn [negb orb].
    erewrite st_bind_Ok by (unfold open_existing, primitive; rewrite Hf, Hcont, world_eta by done; reflexivity).
    erewrite st_bind_Ok by (rewrite fs_read_calm, Hcont by done; reflexivity). rewrite Hcl, Z.eqb_refl. cbn [negb].
    erewrite st_bind_Ok; [reflexivity|]. apply (validate_loop_complete _ _ _ _ content); try done.
    intros i Hi. by apply Hv, elem_enumerate_true.
Qed.

(** [open] never returns a record that is not backed by the disk: when it
    succeeds, every chunk it reports as completed is verified in a partial file of
    the manifest's length, and the count is their number. Conversely, a resumable
    disk reopens exactly where it stopped, without touching the files. *)
Theorem open_contract m output w :
  0 <= m_length m ->
  (forall w' d n, open output m w = (w', Ok (d, n)) ->
     validate_shape m = Ok tt /\ part_path d = part_of output /\ state_path d = state_of output
     /\ n = count id (r_completed (record d))
     /\ disk_ok m (part_of output) (state_of output) (files w') (record d))
  /\ (forall r encoded, validate_shape m = Ok tt -> faults w = [] ->
       disk_ok m (part_of output) (state_of output) (files w) r ->
       files w !! state_of output = Some encoded -> len encoded <= MAX_RESUME_STATE_BYTES ->
       open output m w = (w, Ok (mkResumeDownload (part_of output) (state_of output) r, count id (r_completed r)))).
Proof. apply open_cases. Qed.

Lemma hash_loop_concat buffers hasher total :
  0 <= total <= U64_MAX ->
  hash_loop buffers hasher total = (hasher ++ concat buffers, Z.min U64_MAX (total + len (concat buffers))).
Proof.
  revert hasher total. induction buffers as [|b buffers IH]; intros hasher total Ht; cbn [hash_loop concat].
  { rewrite app_nil_r. f_equal. change (len (@nil Z)) with 0. lia. }
  rewrite IH by (unfold sat_add; pose_lens; lia). rewrite <- app_assoc, len_app. f_equal. unfold sat_add. pose_lens. lia.
Qed.

(** The check of [finish]: the length of the manifest and the content identifier. *)
Lemma finish_check (m : Manifest) content content_id :
  validate_shape m = Ok tt ->
  let '(hasher, total) := hash_loop (chunks (Z.to_nat CHUNK_SIZE) content) [] 0 in
  negb (total =? m_length m) || negb (bool_decide (blake3_hash hasher = content_id)) = false
  <-> len content = m_length m /\ blake3_hash content = content_id.
Proof.
  intros (_ & Hml & _ & _)%validate_shape_Ok. rewrite hash_loop_concat by done.
  rewrite concat_chunks by apply CHUNK_SIZE_pos. cbn [app].
  rewrite orb_false_iff, !negb_false_iff, bool_decide_eq_true, Z.eqb_eq.
  unfold MAX_CONTENT_LENGTH, U64_MAX in *. split; intros [? ?]; (split; [lia|done]).
Qed.

Lemma fault_count_nonneg w : 0 <= fault_count w.
Proof. apply count_nonneg. Qed.

Lemma fault_count_calm w : faults w = [] -> fault_count w = 0.
Proof. unfold fault_count. by intros ->. Qed.

(** The replacement at the end of [finish]. *)
Lemma finish_replace output w w' r content :
  files w !! part_of output = Some content ->
  (_ ← replace_file (part_of output) output; fs_remove (state_of output)) w = (w', r) ->
  fault_count w' <= fault_count w
  /\ (r = Ok tt -> files w' !! output = Some content
        /\ files w' !! part_of output = None /\ files w' !! state_of output = None)
  /\ (is_ok r = false -> files w' !! output = files w !! output \/ files w' !! output = Some content
        \/ (files w' !! output = None /\ fault_count w' + 2 <= fault_count w))
  /\ (fault_count w = 0 -> is_Some (files w !! state_of output) -> r = Ok tt).
Proof.
  intros Hcont Hr. destruct (paths_distinct output) as (Hps & _ & _ & Hop & Hos & _).
  pose proof (fault_count_nonneg w') as Hnn.
  apply st_bind_inv in Hr as [(w1 & u & E1 & Hr)|(e & E1 & ->)].
  - destruct (replace_file_cases _ _ _ _ _ _ (not_eq_sym Hop) Hcont E1) as [Ho [(_ & Hout & Hp & Hf1)|[[? _]|[? _]]]]; [|done..].
    apply primitive_cases in Hr as [[E2 Hf2]|(k & E2 & -> & Hf2)].
    + rewrite Ho in E2 by done. destruct (files w !! state_of output) as [st|] eqn:Est; injection E2 as E2 <-.
      * rewrite <- E2. split_and!; [lia| |done|done].
        intros _. rewrite !lookup_delete_ne by done. split_and!; [done|done|apply lookup_delete_eq].
      * rewrite <- E2. split_and!; [lia|done|by auto|by intros _ [? ?]].
    + unfold no_effect in E2. rewrite E2. split_and!; [lia|done|by auto|]. intros. lia.
  - destruct (replace_file_cases _ _ _ _ _ _ (not_eq_sym Hop) Hcont E1) as [Ho [(? & _)|[(_ & Hfs & Hf)|(_ & Hfs & Hf)]]]; [done|..].
    + rewrite Hfs. split_and!; [lia|done|by left|lia].
    + rewrite Hfs. split_and!; [lia|done| |lia]. intros _. right; right. split; [apply lookup_delete_eq|done].
Qed.

Lemma finish_cases d output content_id w w' r content :
  validate_shape (r_manifest (record d)) = Ok tt ->
  part_path d = part_of output -> state_path d = state_of output ->
  files w !! part_of output = Some content ->
  finish d output content_id w = (w', r) ->
  let good := len content = m_length (r_manifest (record d)) /\ blake3_hash content = content_id in
  (r = Ok tt -> good /\ files w' !! output = Some content
     /\ files w' !! part_of output = None /\ files w' !! state_of output = None)
  /\ (is_ok r = false -> files w' !! output = files w !! output
        \/ (good /\ (files w' !! output = Some content
                     \/ files w' !! output = None /\ fault_count w' + 2 <= fault_count w)))
  /\ (good -> faults w = [] -> is_Some (files w !! state_of output) -> r = Ok tt).
Proof.
  intros Hs Hpart Hstate Hcont Hr good. unfold finish in Hr. rewrite Hpart, Hstate in Hr.
  pose proof (finish_check _ content content_id Hs) as Hgood. fold good in Hgood.
  pose proof (fault_count_nonneg w') as Hnn.
  apply st_bind_inv in Hr as [(w1 & u & E1 & Hr)|(e & E1 & ->)].
  2:{ apply primitive_cases in E1 as [[E1 _]|(k & E1 & _ & Hf)]; [done|]. unfold no_effect in E1.
      split_and!; [done|rewrite E1; by left|]. intros _ Hz%fault_count_calm _. lia. }
  apply primitive_cases in E1 as [[E1 Hf1]|(? & _ & ? & _)]; [|done]. injection E1 as E1 _.
  rewrite E1 in *. rewrite <- Hf1.
  apply st_bind_inv in Hr as [(w2 & c & E2 & Hr)|(e & E2 & ->)].
  2:{ apply primitive_cases in E2 as [[E2 _]|(k & E2 & _ & Hf)]; [by rewrite Hcont in E2|]. unfold no_effect in E2.
      split_and!; [done|rewrite E2; by left|]. intros _ Hz%fault_count_calm _. lia. }
  apply primitive_cases in E2 as [[E2 Hf2]|(? & _ & ? & _)]; [|done]. rewrite Hcont in E2. injection E2 as E2 <-.
  rewrite E2 in *. rewrite <- Hf2. destruct (hash_loop _ _ _) as [hasher total].
  destruct (negb _ || negb _).
  { injection Hr as <- <-. split_and!; [done|by left|]. intros Hg. by apply Hgood in Hg. }
  destruct (finish_replace _ _ _ _ _ Hcont Hr) as (Hf3 & Hok & Herr & Hcalm).
  assert good as Hg by (by apply Hgood). split_and!.
  - intros Hr'. split; [done|]. by apply Hok.
  - intros Hr'. destruct (Herr Hr') as [?|[?|[? ?]]]; [by left|right; auto..].
  - intros _ Hz%fault_count_calm Hst. apply Hcalm; [lia|done].
Qed.

(** [finish] returns [Ok] only after reading the partial file. *)
Lemma finish_reads d output content_id w w' u :
  finish d output content_id w = (w', Ok u) -> exists content, files w !! part_path d = Some content.
Proof.
  unfold finish. intros Hr. apply st_ok_inv in Hr as (w1 & u1 & E1 & Hr).
  apply primitive_cases in E1 as [[E1 _]|(? & _ & ? & _)]; [|done]. injection E1 as E1 _. rewrite E1.
  apply st_ok_inv in Hr as (w2 & c & E2 & _). apply fs_read_Ok in E2 as [_ ?]. eauto.
Qed.

Lemma finish_no_part d output content_id w w' r :
  files w !! part_path d = None -> finish d output content_id w = (w', r) -> files w' = files w.
Proof.
  unfold finish. intros Hnone Hr. apply st_bind_inv in Hr as [(w1 & u1 & E1 & Hr)|(e & E1 & _)].
  - apply primitive_cases in E1 as [[E1 _]|(? & _ & ? & _)]; [|done]. injection E1 as E1 _.
    apply st_bind_inv in Hr as [(w2 & c & E2 & _)|(e & E2 & _)].
    + apply fs_read_Ok in E2 as [_ Hc]. rewrite <- E1, Hnone in Hc. done.
    + apply primitive_cases in E2 as [[E2 _]|(k & E2 & _ & _)]; [injection E2 as E2 _|unfold no_effect in E2]; congruence.
  - apply primitive_cases in E1 as [[E1 _]|(k & E1 & _ & _)]; [done|]. by unfold no_effect in E1.
Qed.

(** [finish] replaces the output only with a partial file whose length is the
    manifest's and whose hash is the requested content identifier, and then removes
    the partial and the state file. When it fails, the output is as before, or
    already that verified content, or (after two faults around the rename) absent.
    Without faults it succeeds on every such partial file. *)
Theorem finish_contract d output content_id w w' r content :
  validate_shape (r_manifest (record d)) = Ok tt ->
  part_path d = part_of output -> state_path d = state_of output ->
  files w !! part_of output = Some content ->
  finish d output content_id w = (w', r) ->
  let good := len content = m_length (r_manifest (record d)) /\ blake3_hash content = content_id in
  (r = Ok tt -> good /\ files w' !! output = Some content
     /\ files w' !! part_of output = None /\ files w' !! state_of output = None)
  /\ (is_ok r = false -> files w' !! output = files w !! output
        \/ (good /\ (files w' !! output = Some content
                     \/ files w' !! output = None /\ fault_count w' + 2 <= fault_count w)))
  /\ (good -> faults w = [] -> is_Some (files w !! state_of output) -> r = Ok tt).
Proof. apply finish_cases. Qed.
End Safety.

(** ** Frames: the files an operation leaves alone *)

Definition frames {A} (p : list Z) (c : io A) : Prop :=
  forall w, files (c w).1 !! p = files w !! p /\ fault_count (c w).1 <= fault_count w.

Lemma frames_bind {A B} p (c : io A) (f : A -> io B) :
  frames p c -> (forall a, frames p (f a)) -> frames p (c ≫= f).
Proof.
  intros Hc Hf w. unfold mbind, st_bind. specialize (Hc w). destruct (c w) as [w1 [a|e]]; [|done].
  destruct Hc as [Hc Hn], (Hf a w1) as [Hf1 Hn1]. cbn [fst] in *. split; [by rewrite Hf1|lia].
Qed.

Lemma frames_primitive {A} p success failure :
  (forall fs, (success fs).1 !! p = fs !! p) -> (forall k fs, failure k fs !! p = fs !! p) ->
  frames p (@primitive A success failure).
Proof.
  intros Hs Hf w. specialize (Hs (files w)). destruct (primitive success failure w) as [w' r] eqn:E. cbn [fst].
  apply primitive_cases in E as [[E Hn]|(k & E & _ & Hn)]; (split; [|lia]).
  - by rewrite E in Hs.
  - rewrite E. apply Hf.
Qed.

Lemma frames_pure {A} p (r : result ResumeError A) : frames p (lift r).
Proof. by split. Qed.

Lemma frames_ret {A} p (a : A) : frames p (mret a : io A).
Proof. by split. Qed.

Lemma frames_exists p q : frames p (path_exists q).
Proof.
  intros w. destruct (path_exists q w) as [w' b] eqn:E. apply path_exists_cases in E as [Hf Hc]. cbn [fst].
  rewrite Hf. split; [done|]. destruct Hc as [[_ ?]|[_ ?]]; lia.
Qed.

Lemma frames_read p q : frames p (fs_read q).
Proof. by apply frames_primitive. Qed.

Lemma frames_write p q data : q <> p -> frames p (fs_write q data).
Proof.
  intros Hne. apply frames_primitive; intros; cbn [fst]; [by rewrite lookup_insert_ne|].
  destruct (_ <? 0); [done|]. by rewrite lookup_insert_ne.
Qed.

Lemma frames_rename p a b : a <> p -> b <> p -> frames p (fs_rename a b).
Proof.
  intros Ha Hb. apply frames_primitive; [|done]. intros fs. destruct (fs !! a); [|done]. cbn [fst].
  by rewrite lookup_insert_ne, lookup_delete_ne.
Qed.

Lemma frames_remove p q : q <> p -> frames p (fs_remove q).
Proof.
  intros Hne. apply frames_primitive; [|done]. intros fs. destruct (fs !! q); [|done]. cbn [fst].
  by rewrite lookup_delete_ne.
Qed.

Lemma frames_alter p q f g : q <> p ->
  frames p (primitive (fun fs => (alter f q fs, Ok tt)) (fun k fs => alter (g k) q fs)).
Proof. intros Hne. apply frames_primitive; intros; cbn [fst]; by rewrite lookup_alter_ne. Qed.

Lemma frames_replace p a b : a <> p -> b <> p -> frames p (replace_file a b).
Proof.
  intros Ha Hb w. unfold replace_file. pose proof (frames_rename p a b Ha Hb w) as Hr.
  destruct (fs_rename a b w) as [w1 [u|e]]; [done|]. cbn [fst] in Hr. destruct Hr as [Hr Hn].
  match goal with |- files (?c w1).1 !! p = _ /\ _ => assert (frames p c) as Hc; [|destruct (Hc w1) as [H1 H2]] end.
  2:{ split; [by rewrite H1|lia]. }
  apply frames_bind; [apply frames_exists|]. intros []; [|apply frames_pure].
  apply frames_bind; [by apply frames_remove|]. intros _. by apply frames_rename.
Qed.

Section FrameOperations.
Context `{Blake3} `{Postcard} (output : list Z).

Lemma frames_save d : state_path d = state_of output -> frames output (save_state d).
Proof.
  intros Hs. destruct (paths_distinct output) as (_ & _ & _ & _ & Hos & Hot). unfold save_state. rewrite Hs.
  apply frames_bind; [by apply frames_write, not_eq_sym|]. intros _. by apply frames_replace; apply not_eq_sym.
Qed.

Lemma frames_validate p q m l : frames p (validate_loop q m l).
Proof.
  induction l as [|[i b] l IH]; [apply frames_ret|]. cbn [validate_loop]. destruct (negb b); [done|].
  apply frames_bind; [apply frames_pure|intros j]. apply frames_bind; [apply frames_pure|intros n].
  apply frames_bind; [apply frames_bind; [apply frames_read|intros; apply frames_pure]|intros data].
  apply frames_bind; [apply frames_pure|intros id]. apply frames_bind; [apply frames_pure|done].
Qed.

Lemma frames_open m : frames output (open output m).
Proof.
  destruct (paths_distinct output) as (_ & _ & _ & Hop & Hos & _). unfold open.
  fold (part_of output). fold (state_of output).
  apply frames_bind; [apply frames_pure|intros _]. cbv zeta.
  apply frames_bind; [apply frames_exists|intros se]. apply frames_bind; [apply frames_exists|intros pe].
  destruct (negb _); [apply frames_pure|]. destruct se.
  - apply frames_bind; [apply frames_read|intros md]. destruct (_ >? _); [apply frames_pure|].
    apply frames_bind; [apply frames_read|intros enc]. apply frames_bind; [apply frames_pure|intros rec].
    destruct (_ || _); [apply frames_pure|]. destruct (negb _); [apply frames_pure|].
    apply frames_bind; [by apply frames_primitive|intros _]. apply frames_bind; [apply frames_read|intros content].
    destruct (negb _); [apply frames_pure|]. apply frames_bind; [apply frames_validate|intros; apply frames_ret].
  - apply frames_bind; [apply frames_primitive; [|done]; intros fs; cbn [fst]; by rewrite lookup_insert_ne by (by apply not_eq_sym)|intros _].
    apply frames_bind; [apply frames_primitive; [|done]; intros fs; cbn [fst]; by rewrite lookup_alter_ne by (by apply not_eq_sym)|intros _].
    apply frames_bind; [by apply frames_save|intros; apply frames_ret].
Qed.

(** Writing a chunk touches neither the output nor what the record says of itself. *)
Lemma write_verified_chunk_frame d m chunk w :
  part_path d = part_of output -> state_path d = state_of output ->
  let out := write_verified_chunk d m chunk w in
  files out.1 !! output = files w !! output /\ fault_count out.1 <= fault_count w
  /\ part_path out.2.1 = part_of output /\ state_path out.2.1 = state_of output
  /\ r_manifest (record out.2.1) = r_manifest (record d) /\ r_version (record out.2.1) = r_version (record d).
Proof.
  intros Hp Hs. destruct (paths_distinct output) as (_ & _ & _ & Hop & _). unfold write_verified_chunk.
  match goal with |- context [match ?c w with _ => _ end] => assert (frames output c) as Hc end.
  { apply frames_bind; [apply frames_pure|intros _]. rewrite Hp.
    apply frames_bind; [apply frames_alter; by apply not_eq_sym|intros _; by apply frames_primitive]. }
  specialize (Hc w). match type of Hc with files (?c w).1 !! _ = _ /\ _ => destruct (c w) as [w1 [u|e]] end;
    cbn [fst snd] in *; destruct Hc as [Hc Hn]; [|done].
  set (d1 := mkResumeDownload _ _ _). pose proof (frames_save d1 Hs w1) as Hsave.
  destruct (save_state d1 w1) as [w2 r2]. cbn [fst snd] in *. destruct Hsave as [Hsave Hn2].
  split_and!; try done; [by rewrite Hsave|lia].
Qed.
End FrameOperations.

(** ** Instances and samples *)

Module ToyPostcard.
(** A codec of the record: its fields, numbered. *)
#[export] Instance manifest_countable : Countable Manifest.
Proof.
  refine (inj_countable' (fun m => (m_content_id m, m_length m, m_chunk_size m, m_chunks m))
    (fun '(a, b, c, d) => mkManifest a b c d) _). by intros [].
Defined.
#[export] Instance resume_record_eq_dec : EqDecision ResumeRecord.
Proof. solve_decision. Defined.
#[export] Instance resume_record_countable : Countable ResumeRecord.
Proof.
  refine (inj_countable' (fun r => (r_version r, r_manifest r, r_completed r))
    (fun '(a, b, c) => mkResumeRecord a b c) _). by intros [].
Defined.

#[export] Instance toy_postcard : Postcard := {|
  encode_record r := [Z.pos (encode r)];
  decode_record l := match l with [Z.pos p] => decode p | _ => None end
|}.
#[export] Instance toy_postcard_laws : PostcardLaws.
Proof. split. intros r. apply decode_encode. Qed.
End ToyPostcard.
Import Toy ToyPostcard.

Definition sample_output : list Z := str "o".
Definition sample_record : ResumeRecord := mkResumeRecord 0 sample_manifest [false].
Definition sample_download : ResumeDownload :=
  mkResumeDownload (part_of sample_output) (state_of sample_output) sample_record.
Definition sample_files : gmap (list Z) (list Z) :=
  {[ part_of sample_output := [0; 0; 0]; state_of sample_output := encode_record sample_record ]}.

Lemma sample_shape : validate_shape sample_manifest = Ok tt.
Proof. vm_compute. reflexivity. Qed.

Lemma sample_truthful : truthful sample_manifest [0; 0; 0] sample_record.
Proof. by apply (truthful_fresh sample_manifest [0; 0; 0]). Qed.

Lemma sample_disk : disk_ok sample_manifest (part_of sample_output) (state_of sample_output) sample_files sample_record.
Proof.
  apply (disk_ok_intro _ _ _ _ [0; 0; 0] (encode_record sample_record));
    [vm_compute; reflexivity|vm_compute; reflexivity|apply decode_encode_record|apply sample_truthful].
Qed.


(** A manifest of three bytes whose chunk is the digest of two: the two bytes are accepted and
    marked, and the next [open] refuses the state. *)
Example short_chunk_stops_resume :
  let m := mkManifest (ContentId_digest [1; 2]) 3 CHUNK_SIZE [ChunkId_digest [1; 2]] in
  let chunk := mkChunk 0 (ChunkId_digest [1; 2]) [1; 2] in
  let d := mkResumeDownload (part_of sample_output) (state_of sample_output) (mkResumeRecord RESUME_VERSION m [false]) in
  let w := mkWorld {[ part_of sample_output := [0; 0; 0]; state_of sample_output := encode_record (record d) ]} [] in
  let out := write_verified_chunk d m chunk w in
  validate_shape m = Ok tt /\ out.2.2 = Ok tt /\ r_completed (record out.2.1) = [true]
  /\ (open sample_output m out.1).2 = Err (Verification 0 (InvalidChunk 0)).
Proof. split_and!; vm_compute; reflexivity. Qed.

(** Two faults around the rename of the state lose it: the partial file stays, and
    the next [open] refuses it. *)
Lemma resume_state_lost :
  let out := write_verified_chunk sample_download sample_manifest sample_chunk
    (mkWorld sample_files [None; None; None; Some 0; None; None; Some 0]) in
  files out.1 !! state_of sample_output = None
  /\ (open sample_output sample_manifest out.1).2 = Err IncompleteData.
Proof. split; vm_compute; reflexivity. Qed.

Lemma open_contract_witness :
  open sample_output sample_manifest (mkWorld sample_files []) = (mkWorld sample_files [], Ok (sample_download, 0)).
Proof.
  refine (proj2 (open_contract sample_manifest sample_output (mkWorld sample_files []) _)
    sample_record (encode_record sample_record) sample_shape eq_refl sample_disk _ _).
  - vm_compute. discriminate.
  - vm_compute. reflexivity.
  - vm_compute. discriminate.
Defined.

Lemma finish_contract_witness :
  let w := mkWorld (<[part_of sample_output := str "abc"]> sample_files) [] in
  (finish sample_download sample_output (Toy.checksum (str "abc")) w).2 = Ok tt.
Proof.
  cbv zeta.
  destruct (finish sample_download sample_output (Toy.checksum (str "abc"))
    (mkWorld (<[part_of sample_output := str "abc"]> sample_files) [])) as [w' r] eqn:E. cbn [snd].
  refine (proj2 (proj2 (finish_contract sample_download sample_output (Toy.checksum (str "abc"))
    (mkWorld (<[part_of sample_output := str "abc"]> sample_files) []) w' r (str "abc") _ _ _ _ E)) _ _ _).
  - exact sample_shape.
  - reflexivity.
  - reflexivity.
  - vm_compute. reflexivity.
  - split; vm_compute; reflexivity.
  - reflexivity.
  - vm_compute. eexists. reflexivity.
Defined.
