(* ===== verification/Transfer.v ===== *)
(** * Transfer: the conversations of peers (crates/triptorrent-cli)

    A session is a [Channel]: the messages that will arrive and the messages sent,
    in order, with the sends that will fail.  [send_content] and [receive_content]
    are the single-provider transfer, [serve_swarm_session] and [worker_fetch] the two
    sides of a swarm session.  Theorems: a receiver returns only content with the
    requested identifier and gets the sender's file; a provider serves a swarm session
    to its end, and its answers verify. *)
From stdpp Require Import base tactics list numbers option gmap.
From Stdlib Require Import ZArith Lia.
From S2P Require Import Prelude Bytes Core Instances Availability Wire WireFacts Swarm Resume.
Import stdpp.list.

Local Open Scope Z_scope.

(** ** Sessions *)

Inductive TransferError :=
| SessionFailed
| DifferentContent
| NotARequest
| Rejected (text : list Z)
| NoManifest
| UnsupportedChunkSize
| InconsistentLength
| MalformedAvailability
| Content (e : ContentError)
| Unexpected
| SharingStopped
| OutsideChunks
| NotAvailable (index : Z)
| Encoding (e : ProtocolError).

Record Channel := mkChannel {
  incoming : list Message;
  sent : list Message;
  (** the outcome of the next sends: [true] fails; past the list they succeed *)
  send_fails : list bool
}.

Abbreviation session := (st Channel TransferError).

(** [EncryptedSession::receive]: an error when the peer is gone *)
Definition receive : session Message := fun c =>
  match incoming c with
  | [] => (c, Err SessionFailed)
  | message :: rest => (mkChannel rest (sent c) (send_fails c), Ok message)
  end.

(** [EncryptedSession::send] once the message is encoded *)
Definition deliver (message : Message) : session unit := fun c =>
  match send_fails c with
  | true :: rest => (mkChannel (incoming c) (sent c) rest, Err SessionFailed)
  | _ :: rest => (mkChannel (incoming c) (sent c ++ [message]) rest, Ok tt)
  | [] => (mkChannel (incoming c) (sent c ++ [message]) [], Ok tt)
  end.

(** [EncryptedSession::send]: a message the encoder refuses is not sent *)
Definition send (message : Message) : session unit :=
  _ ← lift (map_err Encoding (encode message));
  deliver message.

Fixpoint send_all (messages : list Message) : session unit :=
  match messages with
  | [] => mret tt
  | message :: messages => _ ← send message; send_all messages
  end.

Definition not_shared : list Z := str "content ID is not shared on this route".

Section Conversations.
Context `{Blake3}.

(** ** One provider *)

Definition send_content (manifest : Manifest) (chunks : list Chunk) : session unit :=
  request ← receive;
  _ ← match request with
      | Request requested =>
          if bool_decide (requested = m_content_id manifest) then mret tt
          else _ ← send (MError not_shared); throw DifferentContent
      | _ => throw NotARequest
      end;
  _ ← send (MManifest manifest);
  _ ← send_all (map MChunk chunks);
  send Complete.

(** The loop of [receive_content]. *)
Fixpoint receive_loop (manifest : Manifest) (messages : list Message) (chunks : list Chunk)
  : list Message * result TransferError (list Chunk) :=
  match messages with
  | [] => ([], Err SessionFailed)
  | message :: messages =>
      match message with
      | MChunk chunk =>
          match verify_chunk manifest chunk with
          | Ok _ => receive_loop manifest messages (chunks ++ [chunk])
          | Err e => (messages, Err (Content e))
          end
      | Complete => (messages, Ok chunks)
      | MError text => (messages, Err (Rejected text))
      | _ => (messages, Err Unexpected)
      end
  end.

Definition receive_chunks (manifest : Manifest) : session (list Chunk) := fun c =>
  let '(rest, r) := receive_loop manifest (incoming c) [] in
  (mkChannel rest (sent c) (send_fails c), r).

(** [receive_content] up to the reconstructed bytes *)
Definition receive_content (content_id : ContentId) : session (list Z) :=
  _ ← send (Request content_id);
  answer ← receive;
  manifest ← match answer with
             | MManifest manifest =>
                 if bool_decide (m_content_id manifest = content_id) then mret manifest
                 else throw DifferentContent
             | MError text => throw (Rejected text)
             | _ => throw NoManifest
             end;
  if negb (bool_decide (try_from USIZE_MAX (m_chunk_size manifest) = Some CHUNK_SIZE))
  then throw UnsupportedChunkSize
  else
    chunks ← receive_chunks manifest;
    lift (map_err Content (reconstruct manifest chunks)).

(** the end of [receive_content]: write beside the output, then rename *)
Definition store_output (temporary output bytes : list Z) : io unit :=
  _ ← fs_write temporary bytes;
  fs_rename temporary output.

(** ** Swarm sessions *)

Record ProviderContent := mkProviderContent {
  pc_manifest : Manifest;
  pc_chunks : list Chunk;
  pc_availability : PieceAvailability;
  pc_corrupt_chunks : list bool
}.

(** [chunk.data[0] ^= 0xff] for a chunk marked by the test hook *)
Definition corrupt (data : list Z) : list Z :=
  match data with b :: data => Z.lxor b 255 :: data | [] => [] end.

(** The body of the provider loop for one message: [None] goes on. *)
Definition serve_message (content : ProviderContent) (message : Message)
  : session (option unit) :=
  match message with
  | ChunkRequest index =>
      if contains (pc_availability content) index then
        chunk_index ← lift (ok_or (try_from USIZE_MAX index) OutsideChunks);
        chunk ← lift (ok_or (get (pc_chunks content) chunk_index) OutsideChunks);
        let chunk :=
          if default false (get (pc_corrupt_chunks content) chunk_index) && negb (bool_decide (c_data chunk = []))
          then mkChunk (c_index chunk) (c_id chunk) (corrupt (c_data chunk)) else chunk in
        _ ← send (MChunk chunk);
        mret None
      else
        _ ← send (ChunkUnavailable index);
        mret None
  | SwarmComplete => mret (Some tt)
  | _ => throw Unexpected
  end.

(** The provider loop; [running] holds what the stop flag reads in each iteration,
    [true] past its end. *)
Fixpoint serve_loop (content : ProviderContent) (running : list bool) (fuel : nat) : session unit :=
  match fuel with
  | O => throw SessionFailed
  | S fuel =>
      if negb (default true (head running)) then throw SharingStopped
      else
        message ← receive;
        next ← serve_message content message;
        match next with
        | Some tt => mret tt
        | None => serve_loop content (tail running) fuel
        end
  end.

(** Every iteration receives a message: one more unit of fuel than messages is
    enough. *)
Definition serve_all (content : ProviderContent) (running : list bool) : session unit := fun c =>
  serve_loop content running (S (length (incoming c))) c.

Definition serve_swarm_session (content : ProviderContent) (running : list bool) : session unit :=
  request ← receive;
  _ ← match request with
      | SwarmRequest content_id =>
          if bool_decide (content_id = m_content_id (pc_manifest content)) then mret tt
          else _ ← send (MError not_shared); throw DifferentContent
      | _ => throw NotARequest
      end;
  _ ← send (SwarmManifest (pc_manifest content) (pc_availability content));
  serve_all content running.

Definition validate_swarm_manifest (manifest : Manifest) (availability : PieceAvailability)
  (content_id : ContentId) : result TransferError unit :=
  if negb (bool_decide (m_content_id manifest = content_id)) then Err DifferentContent
  else if negb (bool_decide (try_from USIZE_MAX (m_chunk_size manifest) = Some CHUNK_SIZE))
  then Err UnsupportedChunkSize
  else
    let expected_chunks := div_ceil (m_length manifest) (m_chunk_size manifest) in
    if negb (bool_decide (try_from USIZE_MAX expected_chunks = Some (len (m_chunks manifest))))
    then Err InconsistentLength
    else if negb (chunk_count availability =? default U32_MAX (try_from U32_MAX (len (m_chunks manifest))))
            || negb (is_valid availability)
    then Err MalformedAvailability
    else Ok tt.

(** [connect_swarm_provider] once the session stands *)
Definition open_swarm_session (content_id : ContentId) : session (Manifest * PieceAvailability) :=
  _ ← send (SwarmRequest content_id);
  answer ← receive;
  '(manifest, availability) ← match answer with
      | SwarmManifest manifest availability => mret (manifest, availability)
      | MError text => throw (Rejected text)
      | _ => throw NoManifest
      end;
  _ ← lift (validate_swarm_manifest manifest availability content_id);
  mret (manifest, availability).

(** One [Fetch] command of a worker *)
Definition worker_fetch (index : Z) : session Chunk :=
  _ ← send (ChunkRequest index);
  answer ← receive;
  match answer with
  | MChunk chunk => mret chunk
  | ChunkUnavailable unavailable =>
      if unavailable =? index then throw (NotAvailable index) else throw Unexpected
  | _ => throw Unexpected
  end.
End Conversations.

(** ** Conversations *)

Section ConversationFacts.
Context `{Blake3}.

(** A message that the encoder takes. *)
Definition encodable (message : Message) : Prop := is_ok (encode message) = true.

Lemma send_deliver message c : encodable message -> send message c = deliver message c.
Proof. unfold encodable, send, mbind, st_bind, lift. by destruct (encode message). Qed.

(** A send delivers the message or fails, and takes nothing from what arrives. *)
Lemma send_cases message c c' r : send message c = (c', r) ->
  incoming c' = incoming c /\ match r with Ok _ => sent c' = sent c ++ [message] | Err _ => sent c' = sent c end.
Proof.
  unfold send, mbind, st_bind, lift, deliver. destruct (encode message); cbn [map_err]; [|by intros [= <- <-]].
  destruct (send_fails c) as [|[|] ?]; by intros [= <- <-].
Qed.

Lemma send_calm message inc out : encodable message ->
  send message (mkChannel inc out []) = (mkChannel inc (out ++ [message]) [], Ok tt).
Proof. intros Hm. by rewrite send_deliver. Qed.

Lemma send_all_calm messages inc out : Forall encodable messages ->
  send_all messages (mkChannel inc out []) = (mkChannel inc (out ++ messages) [], Ok tt).
Proof.
  intros Hm. revert out. induction Hm as [|x l Hx _ IH]; intros out; cbn [send_all]; [by rewrite app_nil_r|].
  rewrite (st_bind_Ok _ _ _ _ tt (send_calm x inc out Hx)), IH. by rewrite <- app_assoc.
Qed.

Lemma send_incoming message c : incoming (fst (send message c)) = incoming c.
Proof. destruct (send message c) as [c' r] eqn:E. cbn [fst]. by apply send_cases in E as [-> _]. Qed.

Lemma encodable_valid message : message_ok message -> validate_message message = Ok tt -> encodable message.
Proof. intros Hm Hv. unfold encodable. by rewrite encode_wire, Hv. Qed.

Lemma encodable_small message :
  match message with Complete | SwarmComplete => True | ChunkRequest i | ChunkUnavailable i => True | _ => False end ->
  encodable message.
Proof. by destruct message. Qed.

Lemma serve_message_incoming content message c :
  incoming (fst (serve_message content message c)) = incoming c.
Proof.
  unfold serve_message. destruct message; try done.
  destruct (contains _ _); unfold mbind, st_bind, lift.
  - destruct (ok_or (try_from _ _) _) as [i|]; [|done]. destruct (ok_or (get _ i) _) as [chunk|]; [|done].
    match goal with |- context [send ?x c] => pose proof (send_incoming x c); by destruct (send x c) as [? []] end.
  - match goal with |- context [send ?x c] => pose proof (send_incoming x c); by destruct (send x c) as [? []] end.
Qed.

(** The provider loop never stops for want of fuel: any amount above the number of
    messages gives the same outcome. *)
Lemma serve_loop_fuel content running fuel c :
  (length (incoming c) < fuel)%nat -> serve_loop content running fuel c = serve_all content running c.
Proof.
  unfold serve_all. intros Hf. assert (length (incoming c) < S (length (incoming c)))%nat as Hf' by lia.
  revert Hf Hf'. generalize (S (length (incoming c))). intros fuel'. revert running fuel' c.
  induction fuel as [|fuel IH]; intros running [|fuel'] c H1 H2; try lia.
  cbn [serve_loop]. destruct (negb _); [done|]. unfold mbind at 1 3, st_bind at 1 3, receive.
  destruct c as [[|message inc] out fails]; [done|]. cbn [incoming sent send_fails length] in *.
  unfold mbind, st_bind. pose proof (serve_message_incoming content message (mkChannel inc out fails)) as Hi.
  destruct (serve_message content message _) as [c1 [[[]|]|]]; [done| |done].
  cbn [fst incoming] in Hi. apply IH; rewrite Hi; lia.
Qed.

(** The loop collects the verified chunks up to [Complete]. *)
Lemma receive_loop_all m chunks rest acc :
  Forall (fun c => verify_chunk m c = Ok tt) chunks ->
  receive_loop m (map MChunk chunks ++ Complete :: rest) acc = (rest, Ok (acc ++ chunks)).
Proof.
  intros Hc. revert acc. induction Hc as [|c chunks Hc _ IH]; intros acc; cbn [map app receive_loop].
  { by rewrite app_nil_r. }
  rewrite Hc, IH. by rewrite <- app_assoc.
Qed.

Lemma honest_chunks_verify bytes :
  len bytes <= MAX_CONTENT_LENGTH ->
  Forall (fun c => verify_chunk (honest_manifest bytes) c = Ok tt) (honest_chunks bytes).
Proof.
  intros Hlen. apply Forall_forall. intros c Hc. apply elem_get in Hc as [i Hi].
  pose proof (proj1 (Forall_forall _ _) (honest_chunks_good bytes) (i, c) (elem_enumerate _ _ _ Hi)) as (Hci & Hg & Hd).
  cbn [fst snd] in *. apply verify_chunk_Ok. rewrite Hci. split_and!; try done.
  apply get_Some_range in Hi. rewrite len_honest_chunks in Hi.
  pose proof (div_ceil_chunk_bound (len bytes) ltac:(len_lia)).
  unfold USIZE_MAX, U64_MAX, MAX_MANIFEST_CHUNKS in *. lia.
Qed.

(** The messages of a file are encodable, its manifest when it is within the bound. *)
Lemma honest_chunk_messages `{!Blake3Laws} bytes : bytes_ok bytes -> len bytes <= MAX_CONTENT_LENGTH ->
  Forall encodable (map MChunk (honest_chunks bytes)).
Proof.
  intros Hb Hlen. apply Forall_fmap, Forall_forall. intros c Hc. pose proof (honest_chunks_data bytes) as Hd.
  apply elem_get in Hc as [i Hi]. pose proof (get_Some_range _ _ _ Hi) as Hr. rewrite len_honest_chunks in Hr.
  pose proof (div_ceil_chunk_bound (len bytes) ltac:(len_lia)) as Hmax.
  pose proof (proj1 (Forall_forall _ _) (honest_chunks_good bytes) (i, c) (elem_enumerate _ _ _ Hi)) as (Hci & _ & Hid). cbn [fst snd] in *.
  assert (c_data c ∈ chunks (Z.to_nat CHUNK_SIZE) bytes) as Hin.
  { apply get_elem in Hi. unfold honest_chunks in Hi. apply list_elem_of_In, in_map_iff in Hi as ([j d] & <- & Hj%list_elem_of_In).
    apply enumerate_from_elem in Hj as (k & Hk & _). by eapply list_elem_of_lookup_2. }
  apply encodable_valid.
  - split_and!; [rewrite Hci; unfold MAX_MANIFEST_CHUNKS, U32_MAX in *; lia|rewrite Hci; unfold MAX_MANIFEST_CHUNKS, U32_MAX in *; lia|rewrite <- Hid; split; [apply blake3_len|apply blake3_bytes]|].
    pose proof (chunks_Forall (Z.to_nat CHUNK_SIZE) ltac:(rewrite CHUNK_SIZE_val; lia) is_byte bytes Hb) as Hf.
    by apply (proj1 (Forall_forall _ _) Hf).
  - cbn [validate_message]. pose proof (chunks_size (Z.to_nat CHUNK_SIZE) ltac:(rewrite CHUNK_SIZE_val; lia) bytes) as Hf.
    pose proof (proj1 (Forall_forall _ _) Hf _ Hin) as Hs. destruct (Z.gtb_spec (len (c_data c)) CHUNK_SIZE); [|done].
    unfold len in *. rewrite CHUNK_SIZE_val in *. lia.
Qed.

Lemma honest_manifest_message `{!Blake3Laws} bytes : len bytes <= MAX_CONTENT_LENGTH ->
  manifest_ok (honest_manifest bytes)
  /\ validate_manifest (honest_manifest bytes)
     = if len (honest_chunks bytes) <=? MAX_TESTNET_MANIFEST_CHUNKS then Ok tt
       else Err (InvalidMessage "manifest exceeds Testnet v1 record bound").
Proof.
  intros Hlen. split.
  - split_and!; try (split; [apply blake3_len|apply blake3_bytes]); cbn [honest_manifest m_length m_chunk_size m_chunks];
      try (unfold MAX_CONTENT_LENGTH, U64_MAX, U32_MAX in *; len_lia).
    apply Forall_fmap, Forall_fmap, Forall_forall. intros [i d] _. split; [apply blake3_len|apply blake3_bytes].
  - unfold validate_manifest. rewrite honest_manifest_shape by done. cbn [map_err mbind result_bind honest_manifest m_chunks]. rewrite len_map.
    destruct (Z.gtb_spec (len (honest_chunks bytes)) MAX_TESTNET_MANIFEST_CHUNKS), (Z.leb_spec (len (honest_chunks bytes)) MAX_TESTNET_MANIFEST_CHUNKS); done || lia.
Qed.

(** The bytes of any successful reconstruction hash to the content identifier. *)
Lemma reconstruct_digest m chunks b : reconstruct m chunks = Ok b -> ContentId_digest b = m_content_id m.
Proof.
  unfold reconstruct. destruct (negb _); [done|]. destruct (reconstruct_loop _ _ _) as [b'|]; [|done].
  cbn [mbind result_bind]. destruct (bool_decide_reflect (ContentId_digest b' = m_content_id m)) as [Hd|];
    [|by rewrite orb_true_r]. destruct (negb _); [done|]. by intros [= <-].
Qed.

Lemma receive_content_digest id c c' b : receive_content id c = (c', Ok b) -> blake3_hash b = id.
Proof.
  unfold receive_content. intros Hr. apply st_ok_inv in Hr as (c1 & u & _ & Hr).
  apply st_ok_inv in Hr as (c2 & answer & _ & Hr). apply st_ok_inv in Hr as (c3 & m & Hm & Hr).
  assert (m_content_id m = id) as Hid.
  { destruct answer; try done. destruct (bool_decide_reflect (m_content_id manifest = id)); [|done]. by inversion Hm; subst. }
  destruct (negb _); [done|]. apply st_ok_inv in Hr as (c4 & chunks & _ & Hr). injection Hr as _ Hr.
  apply map_err_Ok, reconstruct_digest in Hr. by rewrite <- Hid.
Qed.

(** The receiver of the messages of a file. *)
Lemma receive_honest bytes : id_ok (blake3_hash bytes) -> len bytes <= MAX_CONTENT_LENGTH ->
  let id := blake3_hash bytes in
  receive_content id (mkChannel (MManifest (honest_manifest bytes) :: map MChunk (honest_chunks bytes) ++ [Complete]) [] [])
  = (mkChannel [] [Request id] [], Ok bytes).
Proof.
  intros Hid Hlen. cbv zeta. set (id := blake3_hash bytes) in *. unfold receive_content.
  rewrite (st_bind_Ok _ _ _ _ tt (send_calm _ _ _ (encodable_valid (Request id) Hid eq_refl))).
  set (rest := map MChunk (honest_chunks bytes) ++ [Complete]).
  rewrite (st_bind_Ok receive _ _ (mkChannel rest [Request id] []) (MManifest (honest_manifest bytes))) by reflexivity.
  rewrite (bool_decide_eq_true_2 (m_content_id _ = id)) by done.
  rewrite (st_bind_Ok _ _ _ (mkChannel rest [Request id] []) (honest_manifest bytes)) by reflexivity.
  rewrite bool_decide_eq_true_2 by (rewrite CHUNK_SIZE_val; reflexivity). cbn [negb].
  erewrite st_bind_Ok.
  2:{ unfold receive_chunks, rest. cbn [incoming]. rewrite receive_loop_all by (by apply honest_chunks_verify). reflexivity. }
  unfold lift. cbn [app]. by rewrite (honest_reconstruct bytes Hlen).
Qed.

(** The receiver when the session ends, or with a refusal, after its request. *)
Lemma receive_nothing id : id_ok id ->
  receive_content id (mkChannel [] [] []) = (mkChannel [] [Request id] [], Err SessionFailed)
  /\ receive_content id (mkChannel [MError not_shared] [] []) = (mkChannel [] [Request id] [], Err (Rejected not_shared)).
Proof.
  intros Hid. unfold receive_content. by split; rewrite (st_bind_Ok _ _ _ _ tt (send_calm _ _ _ (encodable_valid (Request id) Hid eq_refl))).
Qed.

(** C30: whatever the peer sends, [receive_content] returns only bytes that hash to
    the requested identifier.  Run against [send_content] of a file, with the messages
    of each delivered to the other, it returns the file when the manifest is within the 2,036
    chunks that a message may list; for a longer file the encoder refuses the manifest, so
    that the sender sends nothing and fails, and the receiver finds the session ended.  A
    sender asked for another identifier sends nothing but a refusal, which both sides
    report. *)
Theorem transfer_delivers `{!Blake3Laws} (bytes : list Z) (m : Manifest) (chunks : list Chunk) :
  bytes_ok bytes -> Manifest_from_bytes bytes = Ok (m, chunks) ->
  (forall id c c' b, receive_content id c = (c', Ok b) -> blake3_hash b = id)
  /\ (forall id, id_ok id ->
       let sender := send_content m chunks (mkChannel [Request id] [] []) in
       let receiver := receive_content id (mkChannel (sent sender.1) [] []) in
       sent receiver.1 = [Request id]
       /\ if bool_decide (id = m_content_id m) then
            if len chunks <=? MAX_TESTNET_MANIFEST_CHUNKS
            then sender.2 = Ok tt /\ receiver = (mkChannel [] [Request id] [], Ok bytes)
            else sent sender.1 = []
                 /\ sender.2 = Err (Encoding (InvalidMessage "manifest exceeds Testnet v1 record bound"))
                 /\ receiver.2 = Err SessionFailed
          else sent sender.1 = [MError not_shared] /\ sender.2 = Err DifferentContent
               /\ receiver.2 = Err (Rejected not_shared)).
Proof.
  intros Hb (Hlen & -> & ->)%from_bytes_Ok. split; [apply receive_content_digest|]. intros id Hid.
  destruct (receive_nothing id Hid) as [Hnone Hrefused]. destruct (honest_manifest_message bytes Hlen) as [Hm Hv].
  unfold send_content. rewrite (st_bind_Ok _ _ _ (mkChannel [] [] []) (Request id)) by done.
  case_bool_decide as Heq.
  2:{ assert (encodable (MError not_shared)) as He by (vm_compute; reflexivity).
      unfold mbind, st_bind. rewrite send_calm by done. cbn [throw fst snd sent app]. by rewrite Hrefused. }
  rewrite (st_bind_Ok _ _ _ (mkChannel [] [] []) tt) by done.
  destruct (Z.leb_spec (len (honest_chunks bytes)) MAX_TESTNET_MANIFEST_CHUNKS).
  - assert (encodable (MManifest (honest_manifest bytes))) as He by (by apply encodable_valid).
    rewrite (st_bind_Ok _ _ _ _ tt (send_calm _ _ _ He)).
    rewrite (st_bind_Ok _ _ _ _ tt (send_all_calm _ _ _ (honest_chunk_messages bytes Hb Hlen))).
    rewrite send_calm by (by apply encodable_small). cbn [fst snd sent]. cbn [app]. subst id.
    change (m_content_id (honest_manifest bytes)) with (blake3_hash bytes) in *. by rewrite (receive_honest bytes Hid Hlen).
  - assert (send (MManifest (honest_manifest bytes)) (mkChannel [] [] [])
      = (mkChannel [] [] [], Err (Encoding (InvalidMessage "manifest exceeds Testnet v1 record bound")))) as Hs.
    { unfold send, encode. cbn [validate_message]. by rewrite Hv. }
    unfold mbind, st_bind. rewrite Hs. cbn [fst snd sent]. by rewrite Hnone.
Qed.

(** The answer of a provider without the test hook. *)
Definition reply (chunks : list Chunk) (av : PieceAvailability) (i : Z) : Message :=
  if contains av i then match get chunks i with Some chunk => MChunk chunk | None => SwarmComplete end
  else ChunkUnavailable i.

Lemma serve_loop_replies m chunks av indices rest out fuel :
  Forall (fun i => contains av i = true -> 0 <= i <= USIZE_MAX /\ exists chunk, get chunks i = Some chunk /\ encodable (MChunk chunk)) indices ->
  (length indices < fuel)%nat ->
  serve_loop (mkProviderContent m chunks av []) [] fuel
    (mkChannel (map ChunkRequest indices ++ SwarmComplete :: rest) out [])
  = (mkChannel rest (out ++ map (reply chunks av) indices) [], Ok tt).
Proof.
  intros Hav. revert out fuel. induction Hav as [|i indices Hav _ IH]; intros out [|fuel] Hf; simpl in Hf; try lia.
  { cbn [map app serve_loop head tail default from_option id negb].
    rewrite (st_bind_Ok receive _ _ (mkChannel rest out []) SwarmComplete) by reflexivity.
    rewrite (st_bind_Ok (serve_message _ _) _ _ (mkChannel rest out []) (Some tt)) by reflexivity.
    by rewrite app_nil_r. }
  cbn [map app serve_loop head tail default from_option id negb].
  set (inc := map ChunkRequest indices ++ SwarmComplete :: rest).
  rewrite (st_bind_Ok receive _ _ (mkChannel inc out []) (ChunkRequest i)) by reflexivity.
  assert (serve_message (mkProviderContent m chunks av []) (ChunkRequest i) (mkChannel inc out [])
    = (mkChannel inc (out ++ [reply chunks av i]) [], Ok None)) as Hs.
  { cbn [serve_message pc_availability pc_chunks pc_corrupt_chunks]. unfold reply.
    destruct (contains av i) eqn:Ec; [|reflexivity].
    destruct (Hav eq_refl) as (Hr & chunk & Hg & He). rewrite (proj2 (try_from_Some _ i i)) by lia.
    rewrite (st_bind_Ok _ _ _ (mkChannel inc out []) i) by reflexivity. rewrite Hg.
    rewrite (st_bind_Ok _ _ _ (mkChannel inc out []) chunk) by reflexivity.
    assert (get (@nil bool) i = None) as -> by (unfold get; by destruct (0 <=? i)). cbn [default from_option andb]. by rewrite (st_bind_Ok _ _ _ _ tt (send_calm _ _ _ He)). }
  rewrite (st_bind_Ok _ _ _ _ _ Hs). unfold inc. rewrite IH by lia. by rewrite <- app_assoc.
Qed.

Lemma validate_honest bytes av :
  len bytes <= MAX_CONTENT_LENGTH -> chunk_count av = len (honest_chunks bytes) -> is_valid av = true ->
  validate_swarm_manifest (honest_manifest bytes) av (blake3_hash bytes) = Ok tt.
Proof.
  intros Hlen Hcc Hv. pose proof (honest_manifest_shape bytes Hlen) as Hs.
  apply validate_shape_Ok in Hs as (Hcs & _ & Hmax & Hn). unfold validate_swarm_manifest.
  rewrite (bool_decide_eq_true_2 (m_content_id _ = _)) by done. cbn [negb]. rewrite Hcs.
  rewrite (bool_decide_eq_true_2 (try_from _ CHUNK_SIZE = _)) by (rewrite CHUNK_SIZE_val; reflexivity). cbn [negb].
  rewrite <- Hn. pose_lens. unfold MAX_MANIFEST_CHUNKS in Hmax.
  rewrite (proj2 (try_from_Some USIZE_MAX _ (len (m_chunks (honest_manifest bytes)))))
    by (split; [done|]; unfold USIZE_MAX, U64_MAX; len_lia).
  rewrite bool_decide_eq_true_2 by done. cbn [negb].
  rewrite (proj2 (try_from_Some U32_MAX _ (len (m_chunks (honest_manifest bytes)))))
    by (split; [done|]; unfold U32_MAX; len_lia).
  cbn [default from_option id]. cbn [honest_manifest m_chunks]. rewrite len_map, Hcc, Z.eqb_refl, Hv. done.
Qed.

Lemma worker_refused i out :
  (worker_fetch i (mkChannel [ChunkUnavailable i] out [])).2 = Err (NotAvailable i).
Proof.
  unfold worker_fetch. rewrite (st_bind_Ok _ _ _ _ tt (send_calm _ _ _ (encodable_small (ChunkRequest i) I))).
  rewrite (st_bind_Ok receive _ _ (mkChannel [] (out ++ [ChunkRequest i]) []) (ChunkUnavailable i)) by reflexivity.
  by rewrite Z.eqb_refl.
Qed.

(** A provider of a file that the protocol can describe serves a swarm session to its end: the opening
    exchange gives the client the manifest and the availability, which it accepts;
    every request for a chunk the provider advertises is answered with that chunk,
    which verifies, and every other request with an explicit refusal. *)
Theorem swarm_session_serves `{!Blake3Laws} (bytes : list Z) (m : Manifest) (chunks : list Chunk) (av : PieceAvailability)
  (indices : list Z) :
  bytes_ok bytes -> Manifest_from_bytes bytes = Ok (m, chunks) -> len chunks <= MAX_TESTNET_MANIFEST_CHUNKS ->
  chunk_count av = len chunks -> is_valid av = true -> availability_ok av ->
  Forall (fun i => 0 <= i <= U32_MAX) indices ->
  let provider := serve_swarm_session (mkProviderContent m chunks av []) []
    (mkChannel (SwarmRequest (m_content_id m) :: map ChunkRequest indices ++ [SwarmComplete]) [] []) in
  provider.2 = Ok tt
  /\ exists replies, sent provider.1 = SwarmManifest m av :: replies
     /\ (open_swarm_session (m_content_id m) (mkChannel [SwarmManifest m av] [] [])).2 = Ok (m, av)
     /\ Forall2 (fun i answer =>
          let fetched := (worker_fetch i (mkChannel [answer] [] [])).2 in
          if contains av i then exists chunk, fetched = Ok chunk /\ c_index chunk = i /\ verify_chunk m chunk = Ok tt
          else fetched = Err (NotAvailable i)) indices replies.
Proof.
  intros Hbytes (Hlen & -> & ->)%from_bytes_Ok Hbound Hcc Hv Hok Hidx.
  pose proof (div_ceil_chunk_bound (len bytes) ltac:(len_lia)) as Hb. pose proof (len_honest_chunks bytes) as Hlc.
  assert (Forall (fun i => contains av i = true -> 0 <= i <= USIZE_MAX
    /\ exists chunk, get (honest_chunks bytes) i = Some chunk /\ encodable (MChunk chunk)) indices) as Hav.
  { eapply Forall_impl; [exact Hidx|]. intros i Hi Hc. cbv beta in Hi. apply contains_iff in Hc as (_ & Hr & _); [|lia]. rewrite Hcc in Hr.
    unfold MAX_MANIFEST_CHUNKS, USIZE_MAX, U64_MAX in *. split; [lia|].
    assert (is_Some (get (honest_chunks bytes) i)) as [chunk Hg] by (apply get_is_Some; lia). exists chunk. split; [done|].
    pose proof (honest_chunk_messages bytes Hbytes Hlen) as Hc. rewrite Forall_fmap in Hc. apply (proj1 (Forall_forall _ _) Hc). by eapply get_elem. }
  assert (id_ok (m_content_id (honest_manifest bytes))) as Hid by (split; [apply blake3_len|apply blake3_bytes]).
  assert (encodable (SwarmManifest (honest_manifest bytes) av)) as Hman.
  { destruct (honest_manifest_message bytes Hlen) as [Hm Hval]. apply encodable_valid; [done|]. cbn [validate_message]. rewrite Hval.
    rewrite (proj2 (Z.leb_le _ _)) by done. cbn [mbind result_bind honest_manifest m_chunks]. rewrite len_map.
    rewrite (proj2 (try_from_Some U32_MAX _ (len (honest_chunks bytes)))) by (split; [done|]; unfold MAX_TESTNET_MANIFEST_CHUNKS, U32_MAX in *; len_lia).
    cbn [default from_option id]. by rewrite Hcc, Z.eqb_refl, Hv. }
  unfold serve_swarm_session. set (content := mkProviderContent _ _ _ _).
  set (inc := map ChunkRequest indices ++ [SwarmComplete]).
  rewrite (st_bind_Ok receive _ _ (mkChannel inc [] []) (SwarmRequest (m_content_id (honest_manifest bytes)))) by reflexivity.
  rewrite bool_decide_eq_true_2 by done.
  rewrite (st_bind_Ok (mret tt) _ _ (mkChannel inc [] []) tt) by reflexivity.
  rewrite (st_bind_Ok _ _ _ _ tt (send_calm _ _ _ Hman)). unfold serve_all, content, inc. cbn [incoming app].
  rewrite serve_loop_replies by (first [done|rewrite length_app, length_map; simpl; lia]). cbv zeta. split; [done|].
  exists (map (reply (honest_chunks bytes) av) indices). split_and!; [done| |].
  - unfold open_swarm_session.
    rewrite (st_bind_Ok _ _ _ _ tt (send_calm _ _ _ (encodable_valid (SwarmRequest (m_content_id (honest_manifest bytes))) Hid eq_refl))).
    erewrite (st_bind_Ok receive) by reflexivity. cbn match. erewrite st_bind_Ok by reflexivity. cbn match.
    erewrite st_bind_Ok; [reflexivity|]. unfold lift. f_equal. by apply (validate_honest bytes av).
  - rewrite Forall_forall in Hav. apply Forall2_fmap_r, Forall_Forall2_diag, Forall_forall. intros i Hi. unfold compose, reply. cbv beta zeta.
    destruct (contains av i) eqn:Ec; [|by rewrite worker_refused].
    destruct (Hav i Hi Ec) as (_ & chunk & Hg & _). rewrite Hg. exists chunk. split_and!; [done| |].
    + pose proof (proj1 (Forall_forall _ _) (honest_chunks_good bytes) (i, chunk) (elem_enumerate _ _ _ Hg)) as [Hci _]. done.
    + apply (proj1 (Forall_forall _ _) (honest_chunks_verify bytes Hlen) chunk). by eapply get_elem.
Qed.
End ConversationFacts.

(** ** Samples *)

#[local] Existing Instance Toy.toy_blake3.
#[local] Existing Instance Toy.toy_blake3_laws.

Lemma transfer_delivers_witness :
  let sender := send_content sample_manifest [sample_chunk]
    (mkChannel [Request (Toy.checksum (str "abc"))] [] []) in
  receive_content (Toy.checksum (str "abc")) (mkChannel (sent sender.1) [] [])
  = (mkChannel [] [Request (Toy.checksum (str "abc"))] [], Ok (str "abc")).
Proof.
  refine (proj2 (proj2 (proj2 (transfer_delivers (str "abc") sample_manifest [sample_chunk] (bytes_ok_str _) _)
    (Toy.checksum (str "abc")) _))).
  - vm_compute. reflexivity.
  - split; [vm_compute; reflexivity|apply blake3_bytes].
Defined.

Lemma swarm_session_serves_witness :
  (serve_swarm_session (mkProviderContent sample_manifest [sample_chunk] (availability_all 1) []) []
    (mkChannel (SwarmRequest (Toy.checksum (str "abc")) :: map ChunkRequest [0; 5] ++ [SwarmComplete]) [] [])).2 = Ok tt.
Proof.
  refine (proj1 (swarm_session_serves (str "abc") sample_manifest [sample_chunk] (availability_all 1) [0; 5] (bytes_ok_str _) _ _ _ _ _ _)).
  - vm_compute. reflexivity.
  - vm_compute. discriminate.
  - vm_compute. reflexivity.
  - vm_compute. reflexivity.
  - split; [vm_compute; split; discriminate|]. apply bytes_okb_true. vm_compute. reflexivity.
  - repeat constructor; vm_compute; discriminate.
Defined.
