(* ===== verification/Download.v ===== *)
(** * Download: the swarm download loop (crates/triptorrent-cli)

    [receive_swarm] opens the resumable download, runs [download_chunks] over the
    scheduler of crates/triptorrent-swarm and finishes.  What the loop observes of
    its environment is a list of [Round]s: the stop flag, which worker threads still
    take commands, and the next result on the channel; a result answers the
    outstanding request of its worker.  Workers.v models the threads that produce these
    observations and WorkersFacts.v proves that every interleaving of them is a list of
    rounds.  The wall clock and log lines are not modelled.  Theorems: whatever the providers send and whatever fails, a download
    that succeeds has put bytes with the requested identifier into the output; with
    an honest manifest the loop ends within as many rounds as chunks and
    providers, and on success the partial file is the content. *)
From stdpp Require Import base tactics list numbers option gmap.
From Stdlib Require Import ZArith Lia.
From S2P Require Import Prelude Bytes Core Instances Availability Swarm Resume.
Import stdpp.list.

Local Open Scope Z_scope.

Record VerifiedTransferProgress := mkProgress {
  bytes_total : Z;
  verified_bytes : Z;
  total_chunks : Z;
  verified_chunks : Z;
  provider_count : Z;
  retry_count : Z;
  rejected_chunks : Z
}.

Inductive DownloadError :=
| FetchStopped
| ResumeFailed (e : ResumeError)
| NoHealthyProvider
| TimedOut
| ScheduleFailed (e : ScheduleError)
| NoHonestProvider
| InconsistentManifests
| NotCovered.

(** What one iteration observes. *)
Record Round := mkRound {
  should_continue : bool;
  (** [worker.sender.send(..).is_ok()], by slot *)
  alive : list bool;
  (** the worker whose result arrives, and its response; [None]: timeout *)
  arrival : option (Z * option Chunk)
}.

(** The variables of the loop, with the request each worker has not answered and the
    progress reported. *)
Record Download := mkDownload {
  scheduler : Scheduler;
  resume : ResumeDownload;
  world : World;
  pending : list (option Z);
  reports : list VerifiedTransferProgress
}.

Abbreviation dl := (st Download DownloadError).

Definition with_scheduler (s : Scheduler) (d : Download) : Download :=
  mkDownload s (resume d) (world d) (pending d) (reports d).

Section Loop.
Context `{Blake3} `{Postcard}.

(** The loop of [report_verified_progress]. *)
Fixpoint progress_loop (m : Manifest) (completed : list (Z * bool)) (bytes chunks : Z)
  : result DownloadError (Z * Z) :=
  match completed with
  | [] => Ok (bytes, chunks)
  | (index, done) :: completed =>
      if (done : bool) then
        index ← ok_or (try_from U32_MAX index) (ResumeFailed IoFailed);
        length ← map_err ResumeFailed (expected_chunk_length m index);
        progress_loop m completed (sat_add U64_MAX bytes length) (chunks + 1)
      else progress_loop m completed bytes chunks
  end.

Definition rejected_requests (s : Scheduler) (provider_count : Z) : Z :=
  sum (fun slot => match provider_stats s (Z.of_nat slot) with Some stats => stats_rejected stats | None => 0 end)
    (seq 0 (Z.to_nat provider_count)).

Definition report_verified_progress (m : Manifest) (providers retries rejected : Z) : dl unit := fun d =>
  let completed := r_completed (record (resume d)) in
  match progress_loop m (enumerate completed) 0 0 with
  | Err e => (d, Err e)
  | Ok (bytes, chunks) =>
      (mkDownload (scheduler d) (resume d) (world d) (pending d)
         (reports d ++ [mkProgress (m_length m) bytes (len (m_chunks m)) chunks providers retries rejected]), Ok tt)
  end.

(** One worker of the assignment loop: whether a request was handed out. *)
Definition assign_worker (m : Manifest) (r : Round) (slot : Z) : dl bool := fun d =>
  let '(s, choice) := assign (scheduler d) slot in
  match choice with
  | None => (with_scheduler s d, Ok false)
  | Some index =>
      match expected_chunk_length m index with
      | Err e => (with_scheduler s d, Err (ResumeFailed e))
      | Ok _ =>
          if default false (get (alive r) slot)
          then (mkDownload s (resume d) (world d) (set_at (pending d) slot (Some index)) (reports d), Ok true)
          else (with_scheduler (reject s slot) d, Ok false)
      end
  end.

Fixpoint assign_workers (m : Manifest) (r : Round) (slots : list Z) (assigned : bool) : dl bool :=
  match slots with
  | [] => mret assigned
  | slot :: slots =>
      a ← assign_worker m r slot;
      assign_workers m r slots (assigned || a)
  end.

(** [results.recv_timeout]: the worker, the request it answers and its response *)
Definition next_result (r : Round) (pending : list (option Z)) : option (Z * Z * option Chunk) :=
  match arrival r with
  | None => None
  | Some (slot, response) =>
      match get pending slot with Some (Some index) => Some (slot, index, response) | _ => None end
  end.

(** The [match] on a result. *)
Definition take_result (m : Manifest) (workers provider requested : Z) (response : option Chunk) : dl unit := fun d =>
  let d := mkDownload (scheduler d) (resume d) (world d) (set_at (pending d) provider None) (reports d) in
  let report := report_verified_progress m workers in
  match response with
  | Some chunk =>
      if (c_index chunk =? requested) && is_ok (verify_chunk m chunk) then
        let '(w, (resume', res)) := write_verified_chunk (resume d) m chunk (world d) in
        let d := mkDownload (scheduler d) resume' w (pending d) (reports d) in
        match res with
        | Err e => (d, Err (ResumeFailed e))
        | Ok _ =>
            let '(s, res) := accept (scheduler d) provider (c_index chunk) in
            match res with
            | Err e => (with_scheduler s d, Err (ScheduleFailed e))
            | Ok _ => report (retries s) (rejected_requests s workers) (with_scheduler s d)
            end
        end
      else
        let s := reject (scheduler d) provider in
        (_ ← report (retries s) (rejected_requests s workers);
         if negb (can_finish s) then throw NoHonestProvider else mret tt) (with_scheduler s d)
  | None =>
      let s := reject (scheduler d) provider in
      (_ ← report (retries s) (rejected_requests s workers);
       if negb (can_finish s) then throw NoHonestProvider else mret tt) (with_scheduler s d)
  end.

Definition slots (workers : Z) : list Z := map Z.of_nat (seq 0 (Z.to_nat workers)).

(** One iteration: [true] when the loop breaks. *)
Definition run_round (m : Manifest) (workers : Z) (r : Round) : dl bool := fun d =>
  if negb (should_continue r) then (d, Err FetchStopped)
  else
    match assign_workers m r (slots workers) false d with
    | (d, Err e) => (d, Err e)
    | (d, Ok assigned) =>
        if is_complete (scheduler d) then (d, Ok true)
        else if negb (has_in_flight (scheduler d)) && negb assigned then (d, Err NoHealthyProvider)
        else
          match next_result r (pending d) with
          | None => (d, Err TimedOut)
          | Some (provider, requested, response) =>
              (_ ← take_result m workers provider requested response; mret false) d
          end
    end.

(** [None]: the loop still runs after the rounds. *)
Fixpoint download_chunks (m : Manifest) (workers : Z) (rounds : list Round) (d : Download)
  : Download * option (result DownloadError unit) :=
  if is_complete (scheduler d) then (d, Some (Ok tt))
  else
    match rounds with
    | [] => (d, None)
    | r :: rounds =>
        match run_round m workers r d with
        | (d, Err e) => (d, Some (Err e))
        | (d, Ok true) => (d, Some (Ok tt))
        | (d, Ok false) => download_chunks m workers rounds d
        end
    end.

(** [receive_swarm]: the providers with their manifest and availability; the result
    carries the final state of the scheduler, from which the statistics are read. *)
Definition receive_swarm (first : Manifest * PieceAvailability) (others : list (Manifest * PieceAvailability))
  (content_id : ContentId) (output : list Z) (rounds : list Round) (w : World)
  : World * option (result DownloadError Scheduler) :=
  let providers := first :: others in
  let m := first.1 in
  if any (fun p => negb (bool_decide (p.1 = m))) providers then (w, Some (Err InconsistentManifests))
  else
    match open output m w with
    | (w, Err e) => (w, Some (Err (ResumeFailed e)))
    | (w, Ok (opened, _)) =>
        let completed := r_completed (record opened) in
        match progress_loop m (enumerate completed) 0 0 with
        | Err e => (w, Some (Err e))
        | Ok (bytes, chunks) =>
            let report := mkProgress (m_length m) bytes (len (m_chunks m)) chunks (len providers) 0 0 in
            match Scheduler_new (len (m_chunks m)) (map snd providers) completed with
            | Err e => (w, Some (Err (ScheduleFailed e)))
            | Ok s =>
                if negb (can_finish s) then (w, Some (Err NotCovered))
                else
                  let d := mkDownload s opened w (replicate (length providers) None) [report] in
                  match download_chunks m (len providers) rounds d with
                  | (d, None) => (world d, None)
                  | (d, Some (Err e)) => (world d, Some (Err e))
                  | (d, Some (Ok _)) =>
                      match finish (resume d) output content_id (world d) with
                      | (w, Err e) => (w, Some (Err (ResumeFailed e)))
                      | (w, Ok _) => (w, Some (Ok (scheduler d)))
                      end
                  end
            end
        end
    end.
End Loop.

(** ** What the loop leaves alone *)

Section Frame.
Context `{Blake3} `{PostcardLaws} (output : list Z) (m : Manifest).

(** The download of a manifest into an output. *)
Definition owns (d : Download) : Prop :=
  part_path (resume d) = part_of output /\ state_path (resume d) = state_of output
  /\ r_manifest (record (resume d)) = m.

(** [d'] was reached from [d]: the same download, the output untouched. *)
Definition reached (d d' : Download) : Prop :=
  owns d -> owns d' /\ files (world d') !! output = files (world d) !! output
    /\ fault_count (world d') <= fault_count (world d).

#[local] Instance reached_preorder : PreOrder reached.
Proof.
  split; [by intros d Ho|]. intros d1 d2 d3 H12 H23 Ho. destruct (H12 Ho) as (Ho2 & Hf & Hn).
  destruct (H23 Ho2) as (Ho3 & Hf' & Hn'). split_and!; [apply Ho3..|by rewrite Hf'|lia].
Qed.

Lemma reached_bind {A B} (c : dl A) (f : A -> dl B) d :
  (forall d, reached d (c d).1) -> (forall a d, reached d (f a d).1) -> reached d ((c ≫= f) d).1.
Proof.
  intros Hc Hf. unfold mbind, st_bind. specialize (Hc d). destruct (c d) as [d1 [a|e]]; [|done].
  transitivity d1; [done|apply Hf].
Qed.

Lemma reached_report providers retries rejected d : reached d (report_verified_progress m providers retries rejected d).1.
Proof. unfold report_verified_progress. by destruct (progress_loop _ _ _ _) as [[? ?]|?]. Qed.

Lemma reached_assign_worker r slot d : reached d (assign_worker m r slot d).1.
Proof. unfold assign_worker. repeat case_match; done. Qed.

Lemma reached_assign_workers r l assigned d : reached d (assign_workers m r l assigned d).1.
Proof.
  revert assigned d. induction l as [|slot l IH]; intros assigned d; [done|]. cbn [assign_workers].
  apply reached_bind; [apply reached_assign_worker|intros; apply IH].
Qed.

Lemma reached_take workers provider requested response d :
  reached d (take_result m workers provider requested response d).1.
Proof.
  assert (forall s d0, reached d0 ((_ ← report_verified_progress m workers (retries s) (rejected_requests s workers);
    if negb (can_finish s) then throw NoHonestProvider else mret tt) d0).1) as Hrej.
  { intros s d0. apply reached_bind; [apply reached_report|]. intros _ d1. by destruct (negb _). }
  unfold take_result. destruct response as [chunk|]; [|by etransitivity; [|apply Hrej]].
  destruct (_ && _); [|by etransitivity; [|apply Hrej]]. cbn [resume world scheduler pending reports].
  destruct (write_verified_chunk (resume d) m chunk (world d)) as [w [rd res]] eqn:Ew.
  assert (reached d (mkDownload (scheduler d) rd w (set_at (pending d) provider None) (reports d))) as Hw.
  { intros (Hp & Hs & Hm). pose proof (write_verified_chunk_frame output _ m chunk (world d) Hp Hs) as Hf.
    rewrite Ew in Hf. cbn [fst snd] in Hf. destruct Hf as (Hf & Hn & Hp' & Hs' & Hm' & _).
    split; [split_and!; [done|done|]; cbn; by rewrite Hm'|done]. }
  destruct res as [u|e]; [|done]. destruct (accept _ _ _) as [s [u'|e]]; [|done].
  etransitivity; [exact Hw|]. etransitivity; [|apply reached_report]. done.
Qed.

Lemma reached_round workers r d : reached d (run_round m workers r d).1.
Proof.
  unfold run_round. destruct (negb _); [done|]. pose proof (reached_assign_workers r (slots workers) false d) as Ha.
  destruct (assign_workers m r (slots workers) false d) as [d1 [a|e]]; [|done].
  destruct (is_complete _); [done|]. destruct (_ && _); [done|].
  destruct (next_result _ _) as [[[p i] response]|]; [|done]. etransitivity; [exact Ha|].
  apply reached_bind; [intros; apply reached_take|done].
Qed.

Lemma reached_download workers rounds d : reached d (download_chunks m workers rounds d).1.
Proof.
  revert d. induction rounds as [|r rounds IH]; intros d; cbn [download_chunks]; destruct (is_complete _); try done.
  pose proof (reached_round workers r d) as Hr. destruct (run_round m workers r d) as [d1 [[]|e]]; [done| |done].
  etransitivity; [exact Hr|apply IH].
Qed.
End Frame.

(** ** Safety of a download *)

Section DownloadSafety.
Context `{Blake3} `{PostcardLaws}.

Lemma receive_swarm_cases first others content_id output rounds w w' r :
  0 <= m_length first.1 ->
  receive_swarm first others content_id output rounds w = (w', r) ->
  let good := exists content, files w' !! output = Some content /\ blake3_hash content = content_id
                /\ len content = m_length first.1 in
  (forall s, r = Some (Ok s) ->
     good /\ files w' !! part_of output = None /\ files w' !! state_of output = None)
  /\ ((forall s, r <> Some (Ok s)) -> files w' !! output = files w !! output \/ good
        \/ (files w' !! output = None /\ 2 <= fault_count w)).
Proof.
  intros Hpos Hr good. subst good. unfold receive_swarm in Hr.
  destruct (any _ _). { injection Hr as <- <-. split; [done|]. by left. }
  pose proof (frames_open output first.1 w) as Hopen. pose proof (open_cases first.1 output w Hpos) as [Hsound _].
  destruct (open output first.1 w) as [w1 [[rd n]|e]] eqn:Eo; cbn [fst] in Hopen; destruct Hopen as [Hf1 Hn1].
  2:{ injection Hr as <- <-. split; [done|]. by left. }
  destruct (Hsound _ _ _ eq_refl) as (Hshape & Hp & Hs & _ & content0 & enc0 & _ & _ & _ & _ & Hm & _).
  destruct (progress_loop _ _ _ _) as [[vb vc]|e]; [|injection Hr as <- <-; split; [done|by left]].
  destruct (Scheduler_new _ _ _) as [s0|e]; [|injection Hr as <- <-; split; [done|by left]].
  destruct (negb _); [injection Hr as <- <-; split; [done|by left]|].
  set (d0 := mkDownload s0 rd w1 _ _) in *.
  destruct (reached_download output first.1 (len (first :: others)) rounds d0) as (Ho & Hf2 & Hn2); [by split_and!|].
  destruct (download_chunks _ _ _ d0) as [d1 [[u|e]|]]; cbn [fst] in *.
  2-3: injection Hr as <- <-; split; [done|]; left; by rewrite Hf2.
  destruct (finish (resume d1) output content_id (world d1)) as [w2 [u2|e]] eqn:Ef; injection Hr as <- <-.
  - destruct (finish_reads _ _ _ _ _ _ Ef) as [content Hc]. destruct Ho as (Hp1 & Hs1 & Hm1). rewrite Hp1 in Hc. destruct u2.
    destruct (finish_cases (resume d1) output content_id (world d1) w2 (Ok tt) content) as [Hok _];
      [by rewrite Hm1|done..|]. destruct (Hok eq_refl) as ([Hl Hb] & Hout & Hpg & Hsg). rewrite Hm1 in Hl.
    split; [|intros Hno; by destruct (Hno (scheduler d1))]. intros s _. split_and!; [eauto|done|done].
  - split; [done|]. intros _. destruct Ho as (Hp1 & Hs1 & Hm1).
    destruct (files (world d1) !! part_of output) as [content|] eqn:Hc.
    2:{ left. rewrite <- Hp1 in Hc. rewrite (finish_no_part _ _ _ _ _ _ Hc Ef). rewrite Hf2. done. }
    destruct (finish_cases (resume d1) output content_id (world d1) w2 (Err e) content) as (_ & Herr & _);
      [by rewrite Hm1|done..|]. rewrite Hm1 in Herr. pose proof (fault_count_nonneg w2).
    destruct (Herr eq_refl) as [Hk|[[Hl Hb] [Hout|[Hout Hn3]]]].
    + left. by rewrite Hk, Hf2.
    + right; left. eauto.
    + right; right. split; [done|]. cbn [world d0] in Hn2. lia.
Qed.

(** Whatever the providers send and whatever input or output operation fails,
    [receive_swarm] succeeds only with the output holding bytes that hash to the
    requested content identifier and have the manifest's length, the partial and the
    state file removed. Until then the output is not touched: when it does not
    succeed, the output is as before, or already such content (the removal of the
    state file failed), or absent after two faults around the final rename. *)
Theorem receive_swarm_safe first others content_id output rounds w w' r :
  0 <= m_length first.1 ->
  receive_swarm first others content_id output rounds w = (w', r) ->
  let good := exists content, files w' !! output = Some content /\ blake3_hash content = content_id
                /\ len content = m_length first.1 in
  (forall s, r = Some (Ok s) ->
     good /\ files w' !! part_of output = None /\ files w' !! state_of output = None)
  /\ ((forall s, r <> Some (Ok s)) -> files w' !! output = files w !! output \/ good
        \/ (files w' !! output = None /\ 2 <= fault_count w)).
Proof. apply receive_swarm_cases. Qed.
End DownloadSafety.

(** ** The loop with an honest manifest *)

Section Honest.
Context `{Blake3} `{PostcardLaws} (output bytes : list Z) (Hbytes : len bytes <= MAX_CONTENT_LENGTH).

Abbreviation m := (honest_manifest bytes).
Abbreviation pieces := (chunks (Z.to_nat CHUNK_SIZE) bytes).

(** The data is the piece of the content at its index. *)
Definition exact (i : Z) (data : list Z) : Prop := get pieces i = Some data.

(** No data seen collides with a piece of the content. *)
Definition no_collision (seen : list (list Z)) : Prop :=
  forall data, data ∈ seen -> forall i piece, exact i piece -> blake3_hash data = blake3_hash piece -> data = piece.

Definition responses (rounds : list Round) : list (list Z) :=
  omap (fun r => match arrival r with Some (_, Some c) => Some (c_data c) | _ => None end) rounds.

Lemma honest_chunk_id i id : get (m_chunks m) i = Some id <-> exists piece, exact i piece /\ id = blake3_hash piece.
Proof.
  unfold exact. cbn [honest_manifest m_chunks]. unfold honest_chunks. rewrite map_map, get_map. unfold get.
  destruct (Z.leb_spec 0 i); [|split; [done|by intros (? & ? & _)]].
  unfold enumerate. rewrite enumerate_from_lookup. destruct (pieces !! Z.to_nat i) as [piece|]; simpl; naive_solver.
Qed.

Lemma honest_sizes : m_length m = len bytes /\ m_chunk_size m = CHUNK_SIZE /\ validate_shape m = Ok tt
  /\ len (m_chunks m) = len pieces /\ 0 <= m_length m.
Proof using Hbytes.
  pose proof (honest_manifest_shape bytes Hbytes) as Hs. split_and!; try done.
  - cbn [honest_manifest m_chunks]. rewrite len_map. unfold honest_chunks. rewrite len_map. unfold enumerate.
    apply len_enumerate_from.
  - cbn. apply len_nonneg.
Qed.

(** A chunk of a file, as a slice. *)
Lemma chunk_slice (content : list Z) i data :
  len content = len bytes -> get (chunks (Z.to_nat CHUNK_SIZE) content) i = Some data ->
  slice content (i * m_chunk_size m) (i * m_chunk_size m + chunk_length m i) = Some data
  /\ len data = chunk_length m i.
Proof using Hbytes.
  intros Hl Hg. destruct honest_sizes as (Hml & Hcs & Hs & Hn & Hpos). pose proof (get_Some_range _ _ _ Hg) as Hi.
  rewrite len_chunks in Hi by apply CHUNK_SIZE_pos.
  rewrite len_chunks in Hn by apply CHUNK_SIZE_pos. rewrite Hl, <- Hn in Hi.
  destruct (chunk_place m i Hs Hpos Hi) as (_ & Hcl & Hend & _ & _).
  apply get_lookup, chunks_lookup in Hg; [|apply CHUNK_SIZE_pos].
  assert (0 <= CHUNK_SIZE) by (rewrite CHUNK_SIZE_val; lia). rewrite Hcs, Hml in *.
  assert (Z.of_nat (Z.to_nat i * Z.to_nat CHUNK_SIZE) = i * CHUNK_SIZE) as Hoff by nia.
  assert (len data = chunk_length m i) as Hdl.
  { rewrite Hg, len_take, len_drop, Hoff, Z2Nat.id by lia. unfold chunk_length in *. rewrite Hcs, Hml in *. lia. }
  split; [|done]. unfold slice.
  rewrite (proj2 (Z.leb_le 0 _)), (proj2 (Z.leb_le (i * CHUNK_SIZE) _)), (proj2 (Z.leb_le _ (len content))) by lia.
  cbn [andb]. f_equal. replace (i * CHUNK_SIZE + chunk_length m i - i * CHUNK_SIZE) with (len data) by lia.
  replace (Z.to_nat (i * CHUNK_SIZE)) with (Z.to_nat i * Z.to_nat CHUNK_SIZE)%nat by lia.
  rewrite Hg at 2. rewrite <- (take_drop (Z.to_nat CHUNK_SIZE) (drop _ content)) at 1.
  rewrite <- Hg. unfold len. rewrite Nat2Z.id. apply take_app_length.
Qed.

Lemma exact_length i data : exact i data -> len data = chunk_length m i.
Proof using Hbytes. intros Hd. by apply (chunk_slice bytes). Qed.

(** A file all of whose chunks are the pieces is the content. *)
Lemma marked_all content completed :
  marked m content completed exact -> Forall (fun b => b = true) completed -> content = bytes.
Proof using Hbytes.
  intros (Hlen & Hc & Hm) Hall. destruct honest_sizes as (Hml & _ & _ & Hn & _). rewrite Hml in Hc. rewrite Hn in Hlen.
  rewrite <- (concat_chunks (Z.to_nat CHUNK_SIZE) CHUNK_SIZE_pos content),
    <- (concat_chunks (Z.to_nat CHUNK_SIZE) CHUNK_SIZE_pos bytes). f_equal.
  pose proof (len_chunks _ CHUNK_SIZE_pos content) as Hlc. pose proof (len_chunks _ CHUNK_SIZE_pos bytes) as Hlb.
  rewrite Hc, <- Hlb in Hlc.
  apply list_eq_same_length with (n := length pieces); [done|unfold len in Hlc; lia|].
  intros k x y Hk Hx Hy.
  rewrite <- get_of_nat in Hx, Hy. destruct (proj2 (get_is_Some completed (Z.of_nat k))) as [b Hb]; [unfold len in *; lia|].
  rewrite Forall_forall in Hall. rewrite (Hall b (get_elem _ _ _ Hb)) in Hb.
  destruct (Hm _ Hb) as (data & Hsl & Hex). destruct (chunk_slice content _ _ Hc Hx) as [Hsx _].
  unfold exact in Hex. congruence.
Qed.

(** The invariant of the loop. *)
Record loop_inv (base : Z) (d : Download) : Prop := {
  l_owns : owns output m d;
  l_file : exists content, files (world d) !! part_of output = Some content
             /\ marked m content (r_completed (record (resume d))) exact;
  l_sched : sched_inv base (scheduler d);
  l_len : len (s_chunks (scheduler d)) = len (m_chunks m);
  (** the scheduler's complete chunks are the ones marked in the record *)
  l_done : forall i, get (s_chunks (scheduler d)) i = Some ChunkComplete
             <-> get (r_completed (record (resume d))) i = Some true;
  (** a worker's outstanding request is in flight with it *)
  l_pending : forall p i, get (pending d) p = Some (Some i) -> get (s_chunks (scheduler d)) i = Some (InFlight p)
}.

(** What is left: chunks to complete and providers to lose. *)
Definition left (s : Scheduler) : Z :=
  len (s_chunks s) - count is_done (s_chunks s) + count active (s_providers s).

(** Rejecting an active provider loses it. *)
Lemma reject_left base s p st :
  sched_inv base s -> get (s_providers s) p = Some st -> active st = true -> left (reject s p) = left s - 1.
Proof.
  intros Hs Hst Ha. destruct (reject_cases _ _ p Hs) as [(st' & Hst' & ->)|[? _]]; [|congruence].
  rewrite Hst in Hst'. injection Hst' as <-. unfold left. cbn [s_chunks s_providers].
  rewrite len_map, count_map_done, (count_set_at _ _ _ _ _ Hst). cbn [active]. rewrite Ha. lia.
Qed.

(** A provider without a request has no chunk in flight. *)
Lemma idle_not_pending base d p st :
  loop_inv base d -> get (s_providers (scheduler d)) p = Some st -> busy st = false ->
  forall i, get (pending d) p <> Some (Some i).
Proof.
  intros Hl Hp Hb i Hi. apply (l_pending _ _ Hl) in Hi.
  destruct (inv_offered _ _ (l_sched _ _ Hl) i p Hi) as (st' & Hst & Hb' & _). congruence.
Qed.

Lemma get_set_at_inv {A} (l : list A) i j x y :
  0 <= i -> get (set_at l i x) j = Some y -> (j = i /\ y = x) \/ (j <> i /\ get l j = Some y).
Proof.
  intros Hi Hg. destruct (decide (j = i)) as [->|Hne].
  - left. split; [done|]. assert (is_Some (get l i)) as [z Hz]
      by (apply get_is_Some; apply get_Some_range in Hg; by rewrite len_set_at in Hg).
    rewrite (get_set_at _ _ _ _ _ Hz), Z.eqb_refl in Hg. congruence.
  - right. split; [done|]. unfold get, set_at in *. destruct (Z.leb_spec 0 j); [|done].
    by rewrite list_lookup_insert_ne in Hg by lia.
Qed.

(** Handing a chunk to a provider keeps the invariant. *)
Lemma assigned_inv base d p st i :
  loop_inv base d -> 0 <= p -> get (s_providers (scheduler d)) p = Some st -> active st = true -> busy st = false ->
  get (s_chunks (scheduler d)) i = Some Missing ->
  forall s', (assign (scheduler d) p).1 = s' ->
  s' = mkScheduler (set_at (s_chunks (scheduler d)) i (InFlight p))
         (set_at (s_providers (scheduler d)) p (set_busy true st)) (s_retries (scheduler d)) ->
  loop_inv base (mkDownload s' (resume d) (world d) (set_at (pending d) p (Some i)) (reports d))
  /\ loop_inv base (with_scheduler (reject s' p) d)
  /\ left s' = left (scheduler d) /\ left (reject s' p) < left (scheduler d).
Proof.
  intros Hl Hp Hst Ha Hb Hi s' Hs' ->. destruct Hl as [Ho Hf Hs Hlen Hdone Hpend] eqn:El.
  pose proof (assign_inv _ _ p Hs) as Hs1. rewrite Hs' in Hs1. pose proof (reject_inv _ _ p Hs1) as Hs2.
  assert (forall q j, get (pending d) q = Some (Some j) -> q <> p /\ j <> i) as Hother.
  { intros q j Hq. split.
    - intros ->. by apply (idle_not_pending _ _ _ _ Hl Hst Hb) in Hq.
    - intros ->. apply Hpend in Hq. congruence. }
  set (s1 := mkScheduler _ _ _) in *. split_and!.
  - split; cbn [owns resume world scheduler pending s1 s_chunks]; try done.
    + by rewrite len_set_at.
    + intros j. rewrite (get_set_at _ _ _ _ _ Hi), <- Hdone. destruct (Z.eqb_spec j i) as [->|]; [|done].
      rewrite Hi. split; done.
    + intros q j [[-> [= ->]]|[Hne Hq]]%get_set_at_inv; [|..|done].
      * by rewrite (get_set_at _ _ _ _ _ Hi), Z.eqb_refl.
      * rewrite (get_set_at _ _ _ _ _ Hi). destruct (Hother q j Hq) as [_ Hj].
        rewrite (proj2 (Z.eqb_neq j i) Hj). by apply Hpend.
  - split; cbn [with_scheduler owns resume world scheduler pending]; try done.
    + rewrite reject_chunks, len_map. unfold s1. cbn [s_chunks]. by rewrite len_set_at.
    + intros j. rewrite reject_chunks, get_map. unfold s1. cbn [s_chunks].
      rewrite (get_set_at _ _ _ _ _ Hi), <- Hdone. destruct (Z.eqb_spec j i) as [->|].
      * rewrite Hi. simpl. unfold held_by. rewrite bool_decide_eq_true_2 by done. split; done.
      * destruct (get (s_chunks (scheduler d)) j) as [c|]; simpl; [|done]. destruct (held_by p c) eqn:Eh; [|done].
        apply held_by_true in Eh as ->. split; done.
    + intros q j Hq. destruct (Hother q j Hq) as [Hqp Hj]. apply Hpend in Hq.
      rewrite reject_chunks, get_map. unfold s1. cbn [s_chunks]. rewrite (get_set_at _ _ _ _ _ Hi).
      rewrite (proj2 (Z.eqb_neq j i) Hj), Hq. simpl. by rewrite held_by_false by congruence.
  - unfold left, s1. cbn [s_chunks s_providers].
    rewrite len_set_at, (count_set_at _ _ _ _ _ Hi), (count_set_at _ _ _ _ _ Hst). cbn. lia.
  - assert (left s1 = left (scheduler d)) as Hleft.
    { unfold left, s1. cbn [s_chunks s_providers].
      rewrite len_set_at, (count_set_at _ _ _ _ _ Hi), (count_set_at _ _ _ _ _ Hst). cbn. lia. }
    rewrite (reject_left base s1 p (set_busy true st)); [lia|done| |done].
    unfold s1. cbn [s_providers]. by rewrite (get_set_at _ _ _ _ _ Hst), Z.eqb_refl.
Qed.

Lemma with_scheduler_self d : with_scheduler (scheduler d) d = d.
Proof. by destruct d. Qed.

Lemma assign_worker_inv base r slot d d' a :
  loop_inv base d -> 0 <= slot -> assign_worker m r slot d = (d', Ok a) ->
  loop_inv base d' /\ left (scheduler d') <= left (scheduler d).
Proof.
  intros Hl Hslot. unfold assign_worker. destruct (assign (scheduler d) slot) as [s' choice] eqn:Ea.
  destruct (assign_Some _ _ _ _ _ (l_sched _ _ Hl) Ea) as [[-> ->]|(st & i & Hst & Hact & Hb & Hi & _ & _ & -> & Hs')].
  { intros [= <- <-]. rewrite with_scheduler_self. split; [done|lia]. }
  destruct (expected_chunk_length m i); [|done].
  destruct (assigned_inv _ _ _ _ _ Hl Hslot Hst Hact Hb Hi s' ltac:(by rewrite Ea) Hs') as (Hinv1 & Hinv2 & Hle1 & Hle2).
  destruct (default false _); intros [= <- <-]; (split; [done|cbn [scheduler with_scheduler]; lia]).
Qed.

Lemma assign_workers_inv base r l assigned d d' a :
  loop_inv base d -> Forall (fun slot => 0 <= slot) l -> assign_workers m r l assigned d = (d', Ok a) ->
  loop_inv base d' /\ left (scheduler d') <= left (scheduler d).
Proof.
  intros Hl Hs. revert d assigned Hl. induction Hs as [|slot l Hslot _ IH]; intros d assigned Hl; cbn [assign_workers].
  { intros [= <- <-]. split; [done|lia]. }
  intros Hr. apply st_ok_inv in Hr as (d1 & b & E1 & Hr).
  destruct (assign_worker_inv _ _ _ _ _ _ Hl Hslot E1) as [Hl1 Hle1].
  destruct (IH _ _ Hl1 Hr) as [Hl2 Hle2]. split; [done|lia].
Qed.

(** Reporting changes only the reports. *)
Lemma report_same m0 providers retries0 rejected0 d d' u :
  report_verified_progress m0 providers retries0 rejected0 d = (d', Ok u) ->
  scheduler d' = scheduler d /\ resume d' = resume d /\ world d' = world d /\ pending d' = pending d.
Proof. unfold report_verified_progress. destruct (progress_loop _ _ _ _) as [[? ?]|?]; [|done]. by intros [= <- _]. Qed.

Lemma loop_inv_same base d d' :
  scheduler d' = scheduler d /\ resume d' = resume d /\ world d' = world d /\ pending d' = pending d ->
  loop_inv base d -> loop_inv base d'.
Proof.
  destruct d, d'; simpl. intros (-> & -> & -> & ->) [Ho Hf Hs Hlen Hdone Hpend]. by split.
Qed.

(** A provider whose response is refused is lost. *)
Lemma refused_inv base d p i :
  loop_inv base d -> 0 <= p -> get (pending d) p = Some (Some i) ->
  loop_inv base (with_scheduler (reject (scheduler d) p)
    (mkDownload (scheduler d) (resume d) (world d) (set_at (pending d) p None) (reports d)))
  /\ left (reject (scheduler d) p) < left (scheduler d).
Proof.
  intros [Ho Hf Hs Hlen Hdone Hpend] Hp Hpi. pose proof (Hpend _ _ Hpi) as Hi. split.
  - split; cbn [with_scheduler owns resume world scheduler pending]; try done.
    + by apply reject_inv.
    + by rewrite reject_chunks, len_map.
    + intros j. rewrite reject_chunks, get_map, <- Hdone.
      destruct (get (s_chunks (scheduler d)) j) as [c|]; simpl; [|done]. destruct (held_by p c) eqn:Eh; [|done].
      apply held_by_true in Eh as ->. split; done.
    + intros q j [[_ ?]|[Hne Hq]]%get_set_at_inv; [done| |done]. apply Hpend in Hq.
      rewrite reject_chunks, get_map, Hq. simpl. by rewrite held_by_false by congruence.
  - destruct (inv_offered _ _ Hs i p Hi) as (st & Hst & _ & Ha & _). rewrite (reject_left _ _ _ _ Hs Hst Ha). lia.
Qed.

(** A verified chunk is written and completed. *)
Lemma accepted_inv base d p chunk w' rd' s' u :
  loop_inv base d -> 0 <= p -> get (pending d) p = Some (Some (c_index chunk)) -> no_collision [c_data chunk] ->
  write_verified_chunk (resume d) m chunk (world d) = (w', (rd', Ok tt)) ->
  accept (scheduler d) p (c_index chunk) = (s', Ok u) ->
  loop_inv base (mkDownload s' rd' w' (set_at (pending d) p None) (reports d)) /\ left s' < left (scheduler d).
Proof using Hbytes.
  intros [Ho Hf Hs Hlen Hdone Hpend] Hp Hpi Hnc Hw Hacc. set (i := c_index chunk) in *.
  pose proof (Hpend _ _ Hpi) as Hi. destruct Ho as (Hpart & Hstate & Hman). destruct Hf as (content & Hc & Hmark).
  destruct (write_verified_chunk_Ok output _ _ _ _ _ _ _ Hpart Hstate Hc Hw) as (Hv & -> & Hc' & _).
  destruct honest_sizes as (_ & _ & Hshape & _ & Hpos).
  apply verify_chunk_Ok in Hv as (_ & Hid & Hdig). fold i in Hid. pose proof (get_Some_range _ _ _ Hid) as Hir.
  apply honest_chunk_id in Hid as (piece & Hex & Hpid).
  assert (c_data chunk = piece) as <-
    by (apply (Hnc (c_data chunk) ltac:(by left) i piece Hex); unfold ChunkId_digest in Hdig; congruence).
  destruct (chunk_place m i Hshape Hpos Hir) as (_ & _ & _ & Hsat & _). fold i in Hc'. rewrite Hsat in Hc'.
  assert (get (r_completed (record (resume d))) i <> Some true) as Hni by (rewrite <- Hdone, Hi; done).
  destruct (accept_cases _ _ p i Hs) as [(_ & _ & st & Hst & Hb & Heq)|[? _]]; [|done].
  rewrite Heq in Hacc. injection Hacc as <- _. pose proof (accept_inv _ _ p i Hs) as Hs'. rewrite Heq in Hs'. split.
  - split; cbn [owns resume world scheduler pending record r_completed r_manifest part_path state_path s_chunks fst] in *; try done.
    + eexists. split; [exact Hc'|]. apply marked_mark; try done. by apply exact_length.
    + by rewrite len_set_at.
    + intros j. destruct (proj2 (get_is_Some (r_completed (record (resume d))) i)) as [b Hbi].
      { destruct Hmark as (-> & _). lia. }
      rewrite (get_set_at _ _ _ _ _ Hi), (get_set_at _ _ _ _ _ Hbi). destruct (Z.eqb_spec j i); [split; done|apply Hdone].
    + intros q j [[_ ?]|[Hne Hq]]%get_set_at_inv; [done| |done]. apply Hpend in Hq.
      rewrite (get_set_at _ _ _ _ _ Hi). destruct (Z.eqb_spec j i) as [->|]; [congruence|done].
  - unfold left. cbn [s_chunks s_providers]. rewrite len_set_at, (count_set_at _ _ _ _ _ Hi), (count_set_at _ _ _ _ _ Hst).
    cbn. lia.
Qed.

Lemma take_result_inv base workers p i response d d' u :
  loop_inv base d -> get (pending d) p = Some (Some i) ->
  (forall c, response = Some c -> no_collision [c_data c]) ->
  take_result m workers p i response d = (d', Ok u) ->
  loop_inv base d' /\ left (scheduler d') < left (scheduler d).
Proof using Hbytes.
  intros Hl Hpi Hnc. pose proof (proj1 (get_Some_range _ _ _ Hpi)) as Hp.
  destruct (refused_inv _ _ _ _ Hl Hp Hpi) as [Href Hless].
  assert (forall s0 d0 d1 u1, (_ ← report_verified_progress m workers (retries s0) (rejected_requests s0 workers);
    if negb (can_finish s0) then throw NoHonestProvider else mret tt) d0 = (d1, Ok u1) ->
    scheduler d1 = scheduler d0 /\ resume d1 = resume d0 /\ world d1 = world d0 /\ pending d1 = pending d0) as Hrej.
  { intros s0 d0 d1 u1 Hr. apply st_ok_inv in Hr as (d2 & u2 & E2 & Hr). apply report_same in E2.
    destruct (negb _); [done|]. unfold mret, st_ret in Hr. by injection Hr as <- _. }
  unfold take_result. destruct response as [chunk|].
  2:{ intros Hs%Hrej. split; [by eapply loop_inv_same|]. destruct Hs as (-> & _). done. }
  destruct (Z.eqb_spec (c_index chunk) i) as [<-|_]; cbn [andb].
  2:{ intros Hs%Hrej. split; [by eapply loop_inv_same|]. destruct Hs as (-> & _). done. }
  destruct (is_ok (verify_chunk m chunk)).
  2:{ intros Hs%Hrej. split; [by eapply loop_inv_same|]. destruct Hs as (-> & _). done. }
  cbn [resume world scheduler pending reports].
  destruct (write_verified_chunk (resume d) m chunk (world d)) as [w' [rd' [[]|e]]] eqn:Ew; [|done].
  destruct (accept (scheduler d) p (c_index chunk)) as [s' [u'|e]] eqn:Ea; [|done].
  destruct (accepted_inv _ _ _ _ _ _ _ _ Hl Hp Hpi (Hnc _ eq_refl) Ew Ea) as [Hinv Hlt].
  intros Hs%report_same. split; [by eapply loop_inv_same|]. destruct Hs as (-> & _). done.
Qed.

Lemma run_round_inv base workers r d d' b :
  loop_inv base d -> no_collision (responses [r]) -> run_round m workers r d = (d', Ok b) ->
  loop_inv base d' /\ (b = true -> is_complete (scheduler d') = true)
  /\ (b = false -> left (scheduler d') < left (scheduler d)).
Proof using Hbytes.
  intros Hl Hnc. unfold run_round. destruct (negb _); [done|].
  destruct (assign_workers m r (slots workers) false d) as [d1 [a|e]] eqn:Ea; [|done].
  destruct (assign_workers_inv base r (slots workers) false d d1 a Hl) as [Hl1 Hle]; [|done|].
  { apply Forall_forall. intros slot Hs. unfold slots in Hs. apply list_elem_of_In, in_map_iff in Hs as (k & <- & _). lia. }
  destruct (is_complete (scheduler d1)) eqn:Ec; [by intros [= <- <-]|].
  destruct (_ && _); [done|]. unfold next_result.
  destruct (arrival r) as [[p response]|] eqn:Earr; [|done].
  destruct (get (pending d1) p) as [[i|]|] eqn:Epi; [|done..]. intros Hr.
  apply st_ok_inv in Hr as (d2 & u & E2 & Hr). unfold mret, st_ret in Hr. injection Hr as <- <-.
  destruct (take_result_inv base workers p i response d1 d2 u Hl1 Epi) as [Hl2 Hlt]; [|done|].
  - intros c ->. unfold responses in Hnc. cbn in Hnc. by rewrite Earr in Hnc.
  - split_and!; [done|done|]. intros _. lia.
Qed.

Lemma responses_cons r rounds data :
  data ∈ responses [r] \/ data ∈ responses rounds -> data ∈ responses (r :: rounds).
Proof.
  unfold responses. cbn [omap list_omap]. destruct (match arrival r with Some _ => _ | None => _ end); cbn.
  - rewrite !elem_of_cons, elem_of_nil. tauto.
  - rewrite elem_of_nil. tauto.
Qed.

(** A loop whose scheduler is complete has the content in the partial file. *)
Lemma complete_content base d :
  loop_inv base d -> is_complete (scheduler d) = true ->
  files (world d) !! part_of output = Some bytes /\ Forall (fun b => b = true) (r_completed (record (resume d))).
Proof using Hbytes.
  intros [Ho Hf Hs Hlen Hdone Hpend] Hc. destruct Hf as (content & Hcont & Hmark).
  assert (Forall (fun b => b = true) (r_completed (record (resume d)))) as Hall.
  { apply Forall_forall. intros b Hb. apply elem_get in Hb as [i Hi].
    destruct (proj2 (get_is_Some (s_chunks (scheduler d)) i)) as [c Hci].
    { apply get_Some_range in Hi. destruct Hmark as (Hl & _). lia. }
    unfold is_complete in Hc. rewrite all_true, Forall_forall in Hc. specialize (Hc c (get_elem _ _ _ Hci)).
    to_prop. subst c. apply Hdone in Hci. congruence. }
  split; [|done]. by rewrite <- (marked_all _ _ Hmark Hall).
Qed.

Lemma left_zero base d : loop_inv base d -> left (scheduler d) <= 0 -> is_complete (scheduler d) = true.
Proof.
  intros _ Hz. unfold left in Hz. pose proof (count_nonneg active (s_providers (scheduler d))).
  pose proof (count_le_len is_done (s_chunks (scheduler d))).
  assert (count is_done (s_chunks (scheduler d)) = len (s_chunks (scheduler d))) as Hall by lia.
  apply count_all in Hall. unfold is_complete. apply all_true. eapply Forall_impl; [exact Hall|].
  intros [] Hd; try done.
Qed.

Lemma download_chunks_inv base workers rounds d :
  loop_inv base d -> no_collision (responses rounds) -> left (scheduler d) <= len rounds ->
  exists d' res, download_chunks m workers rounds d = (d', Some res)
    /\ (res = Ok tt -> loop_inv base d' /\ is_complete (scheduler d') = true).
Proof using Hbytes.
  revert d. induction rounds as [|r rounds IH]; intros d Hl Hnc Hle; cbn [download_chunks];
    destruct (is_complete (scheduler d)) eqn:Ec; try (eexists _, _; by split).
  { by rewrite (left_zero _ _ Hl) in Ec. }
  rewrite len_cons in Hle.
  assert (no_collision (responses [r]) /\ no_collision (responses rounds)) as [Hnc1 Hnc2]
    by (split; intros data Hd; apply Hnc, responses_cons; auto).
  destruct (run_round m workers r d) as [d1 [b|e]] eqn:Er.
  2:{ eexists _, _. split; [done|]. done. }
  destruct (run_round_inv _ _ _ _ _ _ Hl Hnc1 Er) as (Hl1 & Ht & Hlt). destruct b.
  - eexists _, _. split; [done|]. intros _. auto.
  - apply IH; [done|done|]. specialize (Hlt eq_refl). lia.
Qed.

Lemma new_shape n av completed s :
  Scheduler_new n av completed = Ok s ->
  n = len completed /\ s = mkScheduler (map (fun done : bool => if done then ChunkComplete else Missing) completed)
         (map (fun pieces => mkProviderState pieces true false 0 0) av) 0.
Proof.
  unfold Scheduler_new. destruct (Z.eqb_spec (len completed) n) as [<-|]; [|done]. cbn [negb].
  destruct (ok_or _ _); [|done]. cbn [mbind result_bind]. destruct (any _ av); [done|]. by intros [= <-].
Qed.

Lemma new_left n av completed s :
  Scheduler_new n av completed = Ok s -> left s = n - count id completed + len av.
Proof.
  intros [-> ->]%new_shape. unfold left. cbn [s_chunks s_providers]. rewrite len_map.
  assert (count is_done (map (fun done : bool => if done then ChunkComplete else Missing) completed)
    = count id completed) as ->.
  { induction completed as [|[] l IH]; [done|..]; cbn [map]; rewrite !count_cons, IH; done. }
  assert (count active (map (fun pieces => mkProviderState pieces true false 0 0) av) = len av) as ->; [|lia].
  rewrite <- (len_map (fun pieces => mkProviderState pieces true false 0 0) av). apply count_all.
  apply Forall_forall. intros p Hp. by apply list_elem_of_In, in_map_iff in Hp as (? & <- & _).
Qed.

(** The state in which [receive_swarm] enters the loop. *)
Lemma start_inv d content av :
  owns output m d -> files (world d) !! part_of output = Some content ->
  truthful m content (record (resume d)) ->
  Scheduler_new (len (m_chunks m)) av (r_completed (record (resume d))) = Ok (scheduler d) ->
  pending d = replicate (length av) None ->
  no_collision (chunks (Z.to_nat CHUNK_SIZE) content) ->
  exists base, loop_inv base d.
Proof using Hbytes.
  intros Ho Hc (_ & _ & Hl & Hcl & Hv) Hnew Hpend Hnc. eexists. pose proof (new_inv _ _ _ _ Hnew) as Hinv.
  destruct (new_shape _ _ _ _ Hnew) as [Hn Hs]. destruct honest_sizes as (Hml & _ & _ & Hnp & _).
  split; [done| |exact Hinv|..].
  - exists content. split; [done|]. split_and!; [done|done|]. intros i Hi. destruct (Hv i Hi) as (data & Hsl & Hid).
    exists data. split; [done|]. unfold verified in Hid. apply honest_chunk_id in Hid as (piece & Hex & Hpid).
    unfold ChunkId_digest in Hpid. rewrite Hml in Hcl.
    destruct (proj2 (get_is_Some (chunks (Z.to_nat CHUNK_SIZE) content) i)) as [c Hg].
    { apply get_Some_range in Hex. rewrite len_chunks in * by apply CHUNK_SIZE_pos. by rewrite Hcl. }
    destruct (chunk_slice content i c Hcl Hg) as [Hsc _]. rewrite Hsl in Hsc. injection Hsc as <-.
    by rewrite (Hnc data (get_elem _ _ _ Hg) i piece Hex Hpid).
  - rewrite Hs. cbn [s_chunks]. by rewrite len_map, <- Hn.
  - intros i. rewrite Hs. cbn [s_chunks]. rewrite get_map.
    destruct (get (r_completed (record (resume d))) i) as [[]|]; simpl; split; done.
  - intros p i Hp. rewrite Hpend in Hp. apply get_elem, elem_of_replicate in Hp as [? _]. done.
Qed.
End Honest.

Section Completion.
Context `{Blake3} `{PostcardLaws}.

(** C10: with the manifest of a content, and as long as no data received or
    resumed collides with a piece of it, the download loop always ends: within as
    many iterations as there are chunks to complete and providers to lose. When it
    ends without an error, every chunk is marked in the record and the partial file
    is the content, so that the check of [finish] holds. *)
Theorem download_complete (output bytes content : list Z) (d : Download) (av : list PieceAvailability)
  (rounds : list Round) :
  let m := honest_manifest bytes in
  len bytes <= MAX_CONTENT_LENGTH ->
  owns output m d -> files (world d) !! part_of output = Some content -> truthful m content (record (resume d)) ->
  Scheduler_new (len (m_chunks m)) av (r_completed (record (resume d))) = Ok (scheduler d) ->
  pending d = replicate (length av) None ->
  no_collision bytes (responses rounds ++ chunks (Z.to_nat CHUNK_SIZE) content) ->
  (len (m_chunks m) - count id (r_completed (record (resume d)))) + len av <= len rounds ->
  exists d' res, download_chunks m (len av) rounds d = (d', Some res)
    /\ (res = Ok tt -> files (world d') !! part_of output = Some bytes
          /\ Forall (fun b => b = true) (r_completed (record (resume d')))).
Proof.
  intros m Hbytes Ho Hc Ht Hnew Hpend Hnc Hle.
  assert (no_collision bytes (responses rounds)) as Hnc1 by (intros data Hd; apply Hnc, elem_of_app; auto).
  assert (no_collision bytes (chunks (Z.to_nat CHUNK_SIZE) content)) as Hnc2
    by (intros data Hd; apply Hnc, elem_of_app; auto).
  destruct (start_inv output bytes Hbytes d content av Ho Hc Ht Hnew Hpend Hnc2) as [base Hl].
  destruct (download_chunks_inv output bytes Hbytes base (len av) rounds d Hl Hnc1) as (d' & res & Hd & Hres).
  { rewrite (new_left _ _ _ _ Hnew). done. }
  exists d', res. split; [done|]. intros Hok. destruct (Hres Hok) as [Hl' Hcomp]. by eapply complete_content.
Qed.
End Completion.

(** ** Samples *)

Import Toy ToyPostcard.

(** One provider, one chunk, one round. *)
Definition sample_rounds : list Round := [mkRound true [true] (Some (0, Some sample_chunk)); mkRound true [true] None].

Lemma receive_swarm_safe_witness :
  let out := receive_swarm (sample_manifest, availability_all 1) [] (Toy.checksum (str "abc")) sample_output
    sample_rounds (mkWorld ∅ []) in
  exists content, files out.1 !! sample_output = Some content /\ blake3_hash content = Toy.checksum (str "abc")
    /\ len content = 3.
Proof.
  cbv zeta.
  destruct (receive_swarm (sample_manifest, availability_all 1) [] (Toy.checksum (str "abc")) sample_output
    sample_rounds (mkWorld ∅ [])) as [w' r] eqn:E. cbn [fst].
  assert (r = (w', r).2) as Hr by reflexivity. rewrite <- E in Hr. vm_compute in Hr.
  refine (proj1 (proj1 (receive_swarm_safe (sample_manifest, availability_all 1) [] (Toy.checksum (str "abc"))
    sample_output sample_rounds (mkWorld ∅ []) w' r _ E) _ Hr)).
  vm_compute. discriminate.
Defined.

Definition sample_start : Download :=
  mkDownload (default (mkScheduler [] [] 0) (match Scheduler_new 1 [availability_all 1] [false] with Ok s => Some s | _ => None end))
    sample_download (mkWorld sample_files []) [None] [].

Lemma sample_no_collision :
  no_collision (str "abc") (responses sample_rounds ++ chunks (Z.to_nat CHUNK_SIZE) [0; 0; 0]).
Proof.
  intros data Hd i piece Hp Heq.
  assert (piece = str "abc") as ->.
  { unfold exact in Hp. apply get_elem in Hp.
    change (chunks (Z.to_nat CHUNK_SIZE) (str "abc")) with (chunks (Z.to_nat CHUNK_SIZE) (str "abc")) in Hp.
    assert (chunks (Z.to_nat CHUNK_SIZE) (str "abc") = [str "abc"]) as E by (vm_compute; reflexivity).
    rewrite E in Hp. by apply list_elem_of_singleton in Hp. }
  assert (responses sample_rounds ++ chunks (Z.to_nat CHUNK_SIZE) [0; 0; 0] = [str "abc"; [0; 0; 0]]) as E
    by (vm_compute; reflexivity).
  rewrite E in Hd. apply elem_of_cons in Hd as [->|Hd]; [done|]. apply list_elem_of_singleton in Hd as ->.
  vm_compute in Heq. discriminate Heq.
Qed.

Lemma download_complete_witness :
  exists d' res, download_chunks (honest_manifest (str "abc")) 1 sample_rounds sample_start = (d', Some res)
    /\ (res = Ok tt -> files (world d') !! part_of sample_output = Some (str "abc")
          /\ Forall (fun b => b = true) (r_completed (record (resume d')))).
Proof.
  refine (download_complete sample_output (str "abc") [0; 0; 0] sample_start [availability_all 1] sample_rounds
    _ _ _ _ _ _ sample_no_collision _).
  - vm_compute. discriminate.
  - split; [reflexivity|split; [reflexivity|vm_compute; reflexivity]].
  - vm_compute. reflexivity.
  - assert (honest_manifest (str "abc") = sample_manifest) as -> by (vm_compute; reflexivity). exact sample_truthful.
  - vm_compute. reflexivity.
  - reflexivity.
  - vm_compute. discriminate.
Defined.
