(* ===== verification/NodeConfig.v ===== *)
(** * NodeConfig: the persistent node's configuration (crates/triptorrent-node)

    [NodeConfig] is read from a TOML file, then overridden by environment variables, then
    by command line values, and validated; [create] writes a new file and [load] reads it
    back, as does the API client for its own two fields.  Files are those of Resume.v; the
    TOML codec is a parameter.  Errors are their messages.  Theorems: a merge succeeds
    exactly when every environment value parses and the layered result is safe, and then
    is that result; a configuration that was created loads back, for node and client. *)
From stdpp Require Import base tactics list numbers option gmap.
From Stdlib Require Import ZArith Lia.
Import stdpp.list.
From S2P Require Import Prelude Bytes Text NetAddr Instances Core Json Http Resume.

Local Open Scope Z_scope.

Definition MAX_CONFIG_BYTES : Z := 64 * 1024.

Record NodeConfig := mkNodeConfig {
  data_dir : list Z;
  nc_api_listen : SocketAddr;
  bootstrap : option SocketAddr;
  download_limit : Z;
  upload_limit : Z;
  max_concurrent_transfers : Z;
  log_level : list Z;
  nc_api_token : list Z
}.

Record ConfigOverrides := mkOverrides {
  o_data_dir : option (list Z);
  o_api_listen : option SocketAddr;
  o_bootstrap : option SocketAddr;
  o_download_limit : option Z;
  o_upload_limit : option Z;
  o_max_concurrent_transfers : option Z;
  o_log_level : option (list Z)
}.

Definition no_overrides : ConfigOverrides := mkOverrides None None None None None None None.

(** [NodeConfig::default] *)
Definition default_config : NodeConfig :=
  mkNodeConfig (str "triptorrent-data") (mkSocketAddr (V4 [127; 0; 0; 1]) 0 7331) None 0 0 4 (str "info") [].

(** [NodeConfig::initialized]: [random] is what [getrandom::fill] delivered *)
Definition initialized `{Hex} (dir : list Z) (random : option (list Z)) : result (list Z) NodeConfig :=
  token_bytes ← ok_or random (str "failed to generate API token");
  let d := default_config in
  Ok (mkNodeConfig dir (nc_api_listen d) (bootstrap d) (download_limit d) (upload_limit d)
        (max_concurrent_transfers d) (log_level d) (hex_encode token_bytes)).

Definition validate (c : NodeConfig) : result (list Z) unit :=
  _ ← guard_err (negb (is_loopback (sa_ip (nc_api_listen c)))) (str "local API address must be loopback");
  _ ← guard_err (len (nc_api_token c) <? 32) (str "api_token must contain at least 32 characters");
  _ ← guard_err (max_concurrent_transfers c =? 0) (str "max_concurrent_transfers must be at least one");
  _ ← guard_err (max_concurrent_transfers c >? 128) (str "max_concurrent_transfers must not exceed 128");
  guard_err ((len (nc_api_token c) >? 512) || (len (log_level c) >? 256))
    (str "configuration text field exceeds its limit").

(** ** Layers *)

Definition Environment : Type := gmap (list Z) (list Z).

(** [if let Some(value) = environment.get(name) { field = parse(value)?; }] *)
Definition env_field {A} (env : Environment) (name : list Z) (parse : list Z -> option A) (message : list Z)
  (current : A) : result (list Z) A :=
  match env !! name with
  | Some value => ok_or (parse value) message
  | None => Ok current
  end.

Definition merge (c : NodeConfig) (env : Environment) (o : ConfigOverrides) : result (list Z) NodeConfig :=
  dir ← env_field env (str "TRIPTORRENT_DATA_DIR") Some [] (data_dir c);
  listen ← env_field env (str "TRIPTORRENT_API_LISTEN") parse_socket_addr
             (str "invalid TRIPTORRENT_API_LISTEN") (nc_api_listen c);
  boot ← env_field env (str "TRIPTORRENT_BOOTSTRAP") (fun v => Some <$> parse_socket_addr v)
           (str "invalid TRIPTORRENT_BOOTSTRAP") (bootstrap c);
  download ← env_field env (str "TRIPTORRENT_DOWNLOAD_LIMIT") (parse_unsigned U64_MAX)
               (str "invalid TRIPTORRENT_DOWNLOAD_LIMIT") (download_limit c);
  upload ← env_field env (str "TRIPTORRENT_UPLOAD_LIMIT") (parse_unsigned U64_MAX)
             (str "invalid TRIPTORRENT_UPLOAD_LIMIT") (upload_limit c);
  transfers ← env_field env (str "TRIPTORRENT_MAX_CONCURRENT_TRANSFERS") (parse_unsigned USIZE_MAX)
                (str "invalid TRIPTORRENT_MAX_CONCURRENT_TRANSFERS") (max_concurrent_transfers c);
  log ← env_field env (str "TRIPTORRENT_LOG") Some [] (log_level c);
  let c :=
    mkNodeConfig (default dir (o_data_dir o)) (default listen (o_api_listen o))
      (match o_bootstrap o with Some b => Some b | None => boot end)
      (default download (o_download_limit o)) (default upload (o_upload_limit o))
      (default transfers (o_max_concurrent_transfers o)) (default log (o_log_level o)) (nc_api_token c) in
  _ ← validate c;
  Ok c.

(** [environment_values]: the seven variables among those of the process *)
Definition environment_names : list (list Z) :=
  [str "TRIPTORRENT_DATA_DIR"; str "TRIPTORRENT_API_LISTEN"; str "TRIPTORRENT_BOOTSTRAP";
   str "TRIPTORRENT_DOWNLOAD_LIMIT"; str "TRIPTORRENT_UPLOAD_LIMIT";
   str "TRIPTORRENT_MAX_CONCURRENT_TRANSFERS"; str "TRIPTORRENT_LOG"].
Definition environment_values (process : Environment) : Environment :=
  list_to_map (omap (fun name => (fun value => (name, value)) <$> process !! name) environment_names).

(** ** Files *)

(** [toml::to_string_pretty] and [toml::from_str], at the node's and the client's types *)
Class Toml := {
  toml_encode : NodeConfig -> list Z;
  toml_decode : list Z -> option NodeConfig;
  toml_decode_connection : list Z -> option LocalApiConnection
}.

Class TomlLaws `{Toml} : Prop := {
  toml_utf8 : forall c, utf8_valid (toml_encode c) = true;
  toml_decode_encode : forall c, toml_decode (toml_encode c) = Some c;
  (** the client's type picks its two fields of the same document *)
  toml_connection_encode : forall c,
    toml_decode_connection (toml_encode c) = Some (mkConnection (nc_api_listen c) (nc_api_token c))
}.

(** Operations on files whose errors are messages. *)
Definition fsio := st World (list Z).

Definition with_context {A} (message : list Z) (c : io A) : fsio A := fun w =>
  let '(w, r) := c w in (w, map_err (fun _ => message) r).

Section Files.
Context `{Toml}.

Definition read_to_string (path : list Z) : fsio (list Z) :=
  encoded ← with_context (str "failed to read node config") (fs_read path);
  if utf8_valid encoded then mret encoded else throw (str "failed to read node config").

Definition load (path : list Z) (process : Environment) (o : ConfigOverrides) : fsio NodeConfig :=
  metadata ← with_context (str "no metadata") (fs_read path);
  if len metadata >? MAX_CONFIG_BYTES then throw (str "node config exceeds 64 KiB limit")
  else
    encoded ← read_to_string path;
    config ← lift (ok_or (toml_decode encoded) (str "invalid node config"));
    lift (merge config (environment_values process) o).

(** [OpenOptions] with [create_new] *)
Definition create_new (path : list Z) : io unit :=
  primitive (fun fs => match fs !! path with
                       | Some _ => (fs, Err IoFailed)
                       | None => (<[path := []]> fs, Ok tt)
                       end) no_effect.

(** [NodeConfig::create]; [fs::create_dir_all] does not touch files *)
Definition create (c : NodeConfig) (path : list Z) : fsio unit :=
  _ ← lift (validate c);
  there ← with_context [] (path_exists path);
  if (there : bool) then throw (str "config already exists")
  else
    _ ← with_context (str "create_dir_all") sync;
    _ ← with_context (str "open") (create_new path);
    _ ← with_context (str "write") (write_all_at path 0 (toml_encode c));
    with_context (str "flush") sync.

(** [LocalApiConnection::from_config] *)
Definition connection_from_config (path : list Z) : fsio LocalApiConnection :=
  encoded ← read_to_string path;
  c ← lift (ok_or (toml_decode_connection encoded) (str "invalid node config"));
  if negb (is_loopback (sa_ip (api_listen c))) then throw (str "local API address must be loopback")
  else if len (api_token c) <? 32 then throw (str "node API token is missing or invalid")
  else mret c.
End Files.

(** ** Layering *)

(** One layer over a configuration. *)
Definition overlay (o : ConfigOverrides) (c : NodeConfig) : NodeConfig :=
  mkNodeConfig (default (data_dir c) (o_data_dir o)) (default (nc_api_listen c) (o_api_listen o))
    (match o_bootstrap o with Some b => Some b | None => bootstrap c end)
    (default (download_limit c) (o_download_limit o)) (default (upload_limit c) (o_upload_limit o))
    (default (max_concurrent_transfers c) (o_max_concurrent_transfers o))
    (default (log_level c) (o_log_level o)) (nc_api_token c).

(** A variable that is absent leaves the field, one that is present must parse. *)
Definition env_reads {A} (env : Environment) (name : list Z) (parse : list Z -> option A) (o : option A) : Prop :=
  match env !! name with
  | Some value => exists a, parse value = Some a /\ o = Some a
  | None => o = None
  end.

(** The environment as a layer. *)
Definition environment_reads (env : Environment) (e : ConfigOverrides) : Prop :=
  env_reads env (str "TRIPTORRENT_DATA_DIR") Some (o_data_dir e)
  /\ env_reads env (str "TRIPTORRENT_API_LISTEN") parse_socket_addr (o_api_listen e)
  /\ env_reads env (str "TRIPTORRENT_BOOTSTRAP") parse_socket_addr (o_bootstrap e)
  /\ env_reads env (str "TRIPTORRENT_DOWNLOAD_LIMIT") (parse_unsigned U64_MAX) (o_download_limit e)
  /\ env_reads env (str "TRIPTORRENT_UPLOAD_LIMIT") (parse_unsigned U64_MAX) (o_upload_limit e)
  /\ env_reads env (str "TRIPTORRENT_MAX_CONCURRENT_TRANSFERS") (parse_unsigned USIZE_MAX)
       (o_max_concurrent_transfers e)
  /\ env_reads env (str "TRIPTORRENT_LOG") Some (o_log_level e).

Definition safe (c : NodeConfig) : Prop :=
  is_loopback (sa_ip (nc_api_listen c)) = true /\ 32 <= len (nc_api_token c) <= 512
  /\ max_concurrent_transfers c <> 0 /\ max_concurrent_transfers c <= 128 /\ len (log_level c) <= 256.

Lemma validate_Ok c : validate c = Ok tt <-> safe c.
Proof.
  unfold validate, safe. split.
  - intros Hv. invert_ok. to_prop. rewrite !Z.gtb_ltb in *. to_prop. split_and!; (done || lia).
  - intros (-> & ? & ? & ? & ?). rewrite !Z.gtb_ltb.
    repeat match goal with
    | |- context [?x <? ?y] => destruct (Z.ltb_spec x y); [lia|]
    | |- context [?x =? ?y] => destruct (Z.eqb_spec x y); [lia|]
    end. done.
Qed.

Lemma env_field_Ok {A} env name (parse : list Z -> option A) message current x :
  env_field env name parse message current = Ok x <->
  exists o, env_reads env name parse o /\ x = default current o.
Proof.
  unfold env_field, env_reads. destruct (env !! name) as [value|].
  - rewrite ok_or_Ok. split; [intros Hp; exists (Some x); eauto|]. by intros (? & (a & Hp & ->) & ->).
  - split; [intros [= <-]; by exists None|]. by intros (? & -> & ->).
Qed.

Lemma env_field_bootstrap env name message (current : option SocketAddr) x :
  env_field env name (fun v => Some <$> parse_socket_addr v) message current = Ok x <->
  exists o, env_reads env name parse_socket_addr o /\ x = match o with Some b => Some b | None => current end.
Proof.
  rewrite env_field_Ok. unfold env_reads. destruct (env !! name) as [value|].
  - destruct (parse_socket_addr value) as [a|]; cbn; split.
    + intros (? & (? & [= <-] & ->) & ->). exists (Some a). eauto.
    + intros (? & (? & [= <-] & ->) & ->). exists (Some (Some a)). eauto.
    + by intros (? & (? & ? & _) & _).
    + by intros (? & (? & ? & _) & _).
  - split; intros (? & -> & ->); by eexists None.
Qed.

(** Run one [env_field] whose variable reads as [o]. *)
Ltac env_step o :=
  match goal with
  | |- (env_field ?env ?name ?parse ?message ?current ≫= _) = _ =>
      first [rewrite (proj2 (env_field_bootstrap env name message current _)) by (exists o; done)
            |rewrite (proj2 (env_field_Ok env name parse message current _)) by (exists o; done)];
      cbn [mbind result_bind]
  end.

Lemma merge_sound c c' env o :
  merge c env o = Ok c' -> exists e, environment_reads env e /\ c' = overlay o (overlay e c) /\ safe c'.
Proof.
  unfold merge. intros Hm. do 7 (apply bind_Ok in Hm as (? & Hf & Hm);
    (apply env_field_bootstrap in Hf as (? & ? & ->) || apply env_field_Ok in Hf as (? & ? & ->))).
  apply bind_Ok in Hm as ([] & Hv & Hm). apply Ok_inj in Hm as <-. apply validate_Ok in Hv.
  eexists (mkOverrides _ _ _ _ _ _ _). split; [|split; [reflexivity|exact Hv]]. split_and!; done.
Qed.

Lemma merge_complete c c' env o :
  (exists e, environment_reads env e /\ c' = overlay o (overlay e c) /\ safe c') -> merge c env o = Ok c'.
Proof.
  unfold merge. intros ([d l b dl ul mt lg] & (H1 & H2 & H3 & H4 & H5 & H6 & H7) & -> & Hs).
  cbn [o_data_dir o_api_listen o_bootstrap o_download_limit o_upload_limit o_max_concurrent_transfers
    o_log_level] in *.
  env_step d. env_step l. env_step b. env_step dl. env_step ul. env_step mt. env_step lg.
  unfold overlay in Hs |- *. cbn in Hs |- *.
  rewrite (proj2 (validate_Ok _) Hs). done.
Qed.

(** The layers of the configuration.  [merge] succeeds exactly when every environment
    variable that is set parses and the file overridden by the environment overridden by
    the command line is safe (a loopback address, a token of 32 to 512 bytes, 1 to 128
    transfers, a short log directive); the result is that layered configuration, whose
    token is always the file's. *)
Theorem merge_exact (c c' : NodeConfig) (env : Environment) (o : ConfigOverrides) :
  merge c env o = Ok c' <->
  exists e, environment_reads env e /\ c' = overlay o (overlay e c) /\ safe c'.
Proof. split; [apply merge_sound|apply merge_complete]. Qed.

(** ** Creating and loading *)

Section Roundtrip.
Context `{TomlLaws}.

Lemma overlay_none c : overlay no_overrides c = c.
Proof using Type. by destruct c. Qed.

Lemma merge_nothing c : safe c -> merge c ∅ no_overrides = Ok c.
Proof using Type.
  intros Hs. apply merge_complete. exists no_overrides. rewrite !overlay_none. split_and!; done.
Qed.

Lemma with_context_Ok {A} message (c : io A) w w' a :
  with_context message c w = (w', Ok a) <-> c w = (w', Ok a).
Proof using Type.
  unfold with_context. destruct (c w) as [w1 r]. split.
  - intros [= <- Hr]. by apply map_err_Ok in Hr as ->.
  - by intros [= <- ->].
Qed.

Lemma overwrite_empty data : overwrite 0 data [] = data.
Proof using Type.
  unfold overwrite. change (Z.to_nat (0 - len (@nil Z))) with 0%nat. cbn [replicate app take Z.to_nat].
  by rewrite drop_nil, app_nil_r.
Qed.

(** What [create] leaves. *)
Lemma create_Ok c path w w' :
  create c path w = (w', Ok tt) ->
  safe c /\ files w !! path = None /\ files w' = <[path := toml_encode c]> (files w).
Proof using Type.
  unfold create. intros Hc. apply st_ok_inv in Hc as (w1 & [] & Hv & Hc). injection Hv as <- Hv.
  apply validate_Ok in Hv. apply st_ok_inv in Hc as (w2 & there & He & Hc).
  apply with_context_Ok, path_exists_cases in He as [He _]. destruct there; [done|].
  apply st_ok_inv in Hc as (w3 & [] & Hd%with_context_Ok%primitive_Ok & Hc). injection Hd as Hd.
  apply st_ok_inv in Hc as (w4 & [] & Hn%with_context_Ok%primitive_Ok & Hc).
  apply st_ok_inv in Hc as (w5 & [] & Hw%with_context_Ok%primitive_Ok & Hc). injection Hw as Hw.
  apply with_context_Ok, primitive_Ok in Hc. injection Hc as Hc.
  rewrite <- Hd, He in Hn. destruct (files w !! path) eqn:Ep; [done|]. injection Hn as Hn.
  split_and!; [done|done|]. rewrite <- Hc, <- Hw, <- Hn, alter_insert_eq. by rewrite overwrite_empty.
Qed.

Lemma read_to_string_calm path w text :
  faults w = [] -> files w !! path = Some text -> utf8_valid text = true -> read_to_string path w = (w, Ok text).
Proof using Type.
  intros Hf Hp Hu. unfold read_to_string. erewrite st_bind_Ok.
  2:{ apply with_context_Ok. rewrite fs_read_calm, Hp by done. reflexivity. }
  by rewrite Hu.
Qed.

(** [create] writes a file only for a safe configuration and only where there is
    none, and changes nothing else; read back without input failures, that file, if
    within 64 KiB, loads as the same configuration, and the API client takes its address
    and token from it. *)
Theorem config_roundtrip (c : NodeConfig) (path : list Z) (w w' : World) :
  create c path w = (w', Ok tt) ->
  safe c /\ files w !! path = None /\ files w' = <[path := toml_encode c]> (files w)
  /\ (faults w' = [] -> len (toml_encode c) <= MAX_CONFIG_BYTES ->
      load path ∅ no_overrides w' = (w', Ok c)
      /\ connection_from_config path w' = (w', Ok (mkConnection (nc_api_listen c) (nc_api_token c)))).
Proof.
  intros Hc. destruct (create_Ok _ _ _ _ Hc) as (Hs & Hn & Hw). split_and!; [done..|]. intros Hf Hl.
  assert (files w' !! path = Some (toml_encode c)) as Hp by (by rewrite Hw, lookup_insert_eq).
  pose proof (read_to_string_calm _ _ _ Hf Hp (toml_utf8 c)) as Hr. split.
  - unfold load. erewrite st_bind_Ok.
    2:{ apply with_context_Ok. rewrite fs_read_calm, Hp by done. reflexivity. }
    destruct (Z.gtb_spec (len (toml_encode c)) MAX_CONFIG_BYTES); [lia|].
    erewrite st_bind_Ok by exact Hr. erewrite st_bind_Ok by (unfold lift; by rewrite toml_decode_encode).
    unfold lift. f_equal. by apply merge_nothing.
  - unfold connection_from_config. erewrite st_bind_Ok by exact Hr.
    erewrite st_bind_Ok by (unfold lift; by rewrite toml_connection_encode). cbn [api_listen api_token].
    destruct Hs as (-> & Ht & _). cbn [negb]. by rewrite (proj2 (Z.ltb_ge _ _)) by lia.
Qed.
End Roundtrip.

(** ** A concrete document format *)

Module ToyToml.

(** The fields of a configuration as one tree, printed like the documents of Json.v. *)
Definition addr_value (a : SocketAddr) : Value :=
  match sa_ip a with
  | V4 o => Array [Number 4; Array (map Number o); Number (sa_scope a); Number (sa_port a)]
  | V6 g => Array [Number 6; Array (map Number g); Number (sa_scope a); Number (sa_port a)]
  end.

Definition number_of (v : Value) : Z := match v with Number n => n | _ => 0 end.

Definition value_addr (v : Value) : option SocketAddr :=
  match v with
  | Array [Number 4; Array o; Number s; Number p] => Some (mkSocketAddr (V4 (map number_of o)) s p)
  | Array [Number 6; Array g; Number s; Number p] => Some (mkSocketAddr (V6 (map number_of g)) s p)
  | _ => None
  end.

Lemma value_addr_value a : value_addr (addr_value a) = Some a.
Proof.
  destruct a as [[o|g] s p]; unfold addr_value; cbn; do 3 f_equal;
    rewrite map_map; cbn [number_of]; apply map_id.
Qed.

Definition config_value (c : NodeConfig) : Value :=
  Array [Text (data_dir c); addr_value (nc_api_listen c);
         match bootstrap c with Some a => addr_value a | None => Null end;
         Number (download_limit c); Number (upload_limit c); Number (max_concurrent_transfers c);
         Text (log_level c); Text (nc_api_token c)].

Definition value_config (v : Value) : option NodeConfig :=
  match v with
  | Array [Text dir; listen; boot; Number dl; Number ul; Number mt; Text log; Text token] =>
      listen ← value_addr listen; Some (mkNodeConfig dir listen (value_addr boot) dl ul mt log token)
  | _ => None
  end.

Lemma value_config_value c : value_config (config_value c) = Some c.
Proof.
  unfold config_value, value_config. rewrite value_addr_value. cbn. f_equal. destruct c as [? ? [b|] ? ? ? ? ?]; cbn;
    [by rewrite value_addr_value|done].
Qed.

#[export] Instance toy_toml : Toml := {
  toml_encode := fun c => ToyJson.toy_to_vec (config_value c);
  toml_decode := fun l => ToyJson.toy_from_slice l ≫= value_config;
  toml_decode_connection := fun l =>
    c ← ToyJson.toy_from_slice l ≫= value_config; Some (mkConnection (nc_api_listen c) (nc_api_token c))
}.

#[export] Instance toy_toml_laws : TomlLaws.
Proof.
  constructor; intros c; cbn [toml_encode toml_decode toml_decode_connection toy_toml].
  - apply utf8_valid_ascii. unfold ToyJson.toy_to_vec. pose proof (decimal_visible (Z.pos (countable.encode (ToyJson.tree (config_value c)))) ltac:(lia)) as Hv.
    apply all_true in Hv. eapply Forall_impl; [exact Hv|]. intros b ?%visible_range. lia.
  - rewrite ToyJson.toy_roundtrip. cbn [mbind option_bind]. apply value_config_value.
  - rewrite ToyJson.toy_roundtrip. cbn [mbind option_bind]. by rewrite value_config_value.
Qed.
End ToyToml.

Import ToyToml.

Definition sample_config : NodeConfig :=
  mkNodeConfig (str "data") (mkSocketAddr (V4 [127; 0; 0; 1]) 0 7331) None 0 0 4 (str "info") (replicate 32 97).

Definition sample_created : World := mkWorld {[str "node.toml" := toml_encode sample_config]} [].

Lemma config_roundtrip_witness :
  load (str "node.toml") ∅ no_overrides sample_created = (sample_created, Ok sample_config).
Proof.
  apply (config_roundtrip sample_config (str "node.toml") (mkWorld ∅ []) sample_created).
  - vm_compute. reflexivity.
  - reflexivity.
  - vm_compute. congruence.
Defined.
