(* ===== verification/NodeStore.v ===== *)
(** * NodeStore: the index and the managed files of the node (crates/triptorrent-node)

    [Store] keeps a SQLite database beside the managed copies of content.  A table is the
    list of its rows (content by key, transfers by identifier); a statement of the source
    is a function on tables which takes effect as a whole or fails.  Files, and the
    failures of files and statements, are those of Resume.v.  [now] is [unix_time]; the
    lock of the connection is not poisoned.  Error messages omit the values the source formats
    into them.  Theorems are in NodeStoreFacts.v. *)
From stdpp Require Import base tactics list numbers option gmap.
From Stdlib Require Import ZArith Lia.
Import stdpp.list.
From S2P Require Import Prelude Bytes Text BTree Instances Core Json Resume.

Local Open Scope Z_scope.

Definition SCHEMA_VERSION : Z := 2.

(** ** The database *)

Record ContentRow := mkContentRow {
  ct_length : Z;
  ct_chunk_count : Z;
  ct_data_path : list Z;
  ct_manifest_path : list Z;
  ct_shared : Z;
  ct_complete : Z;
  ct_integrity : list Z;
  ct_created_at : Z
}.

Record TransferRow := mkTransferRow {
  tr_id : Z;
  tr_content_id : list Z;
  tr_direction : list Z;
  tr_status : list Z;
  tr_bytes_total : Z;
  tr_bytes_transferred : Z;
  tr_verified_chunks : Z;
  tr_total_chunks : Z;
  tr_current_rate_bps : Z;
  tr_provider_count : Z;
  tr_retry_count : Z;
  tr_rejected_chunks : Z;
  tr_provider_contributions : list Z;
  tr_resumed_chunks : Z;
  tr_error : option (list Z);
  tr_share_on_complete : Z;
  tr_network_path : list Z;
  tr_created_at : Z;
  tr_updated_at : Z
}.

(** [schema] is the row of [schema_version], [None] when the table is new; [columns] are
    those columns of [transfers] that version 1 did not have, [None] when the table is
    new; [sequence] is the last identifier given out. *)
Record Database := mkDatabase {
  schema : option Z;
  columns : option (list (list Z));
  content : list (list Z * ContentRow);
  transfers : list TransferRow;
  sequence : Z
}.

Record Store := mkStore {
  root : list Z;
  db : Database;
  disk : World
}.

Definition sio := st Store (list Z).

(** An operation on files. *)
Definition on_disk {A} (message : list Z) (c : io A) : sio A := fun s =>
  let '(w, r) := c (disk s) in (mkStore (root s) (db s) w, map_err (fun _ => message) r).

(** A statement. *)
Definition execute {A} (f : Database -> Database * result (list Z) A) : sio A := fun s =>
  match faults (disk s) with
  | Some _ :: rest => (mkStore (root s) (db s) (mkWorld (files (disk s)) rest), Err (str "database"))
  | _ :: rest => let '(d, r) := f (db s) in (mkStore (root s) d (mkWorld (files (disk s)) rest), r)
  | [] => let '(d, r) := f (db s) in (mkStore (root s) d (mkWorld (files (disk s)) []), r)
  end.

Definition query {A} (f : Database -> result (list Z) A) : sio A := execute (fun d => (d, f d)).

Definition set_content (f : list (list Z * ContentRow) -> list (list Z * ContentRow)) (d : Database) : Database :=
  mkDatabase (schema d) (columns d) (f (content d)) (transfers d) (sequence d).
Definition set_transfers (f : list TransferRow -> list TransferRow) (d : Database) : Database :=
  mkDatabase (schema d) (columns d) (content d) (f (transfers d)) (sequence d).

(** ** Paths *)

(** [Path::join] of a relative path *)
Definition join_path (base rest : list Z) : list Z :=
  if bool_decide (base = []) then rest
  else if bool_decide (last base = Some 47) then base ++ rest else base ++ 47 :: rest.

Definition get_root : sio (list Z) := fun s => (s, Ok (root s)).

Definition content_directory (root content_id : list Z) : list Z :=
  join_path (join_path root (str "content")) content_id.

(** [relative_string]: the part below the root *)
Definition relative_string (root path : list Z) : result (list Z) (list Z) :=
  rest ← ok_or (strip_prefix (join_path root []) path) (str "managed path escaped the data directory");
  Ok (map (fun b => if b =? 92 then 47 else b) rest).

(** [components().all(|part| matches!(part, Component::Normal(_)))]: no root, no parent,
    no leading current directory *)
Definition all_normal (relative : list Z) : bool :=
  let parts := split 47 relative in
  negb (bool_decide (head relative = Some 47)) && negb (bool_decide (head parts = Some (str ".")))
  && all (fun part => negb (bool_decide (part = str ".."))) parts.

Definition managed_path (root relative : list Z) : option (list Z) :=
  if all_normal relative then Some (join_path root relative) else None.

(** [fs::remove_dir_all]: the files below the directory; a call that fails may have removed
    some of them *)
Definition below (directory path : list Z) : bool := starts_with (directory ++ [47]) path.
Definition remove_dir_all (directory : list Z) : io unit :=
  primitive (fun fs => (filter (fun e => below directory e.1 = false) fs, Ok tt))
    (fun k fs => foldr delete fs (take (Z.to_nat k) (List.filter (below directory) (map_to_list fs).*1))).

(** [directory.exists()] of a directory that was made for its files *)
Definition dir_exists (directory : list Z) : io bool := fun w =>
  match faults w with
  | Some _ :: rest => (mkWorld (files w) rest, Ok false)
  | _ :: rest => (mkWorld (files w) rest, Ok (any (fun e => below directory e.1) (map_to_list (files w))))
  | [] => (w, Ok (any (fun e => below directory e.1) (map_to_list (files w))))
  end.

(** ** Records *)

Record ContentIdentity := mkIdentity {
  namespace : list Z;
  id_value : list Z;
  verification : list Z
}.

Record ContentRecord := mkContentRecord {
  cr_content_id : list Z;
  cr_identities : list ContentIdentity;
  cr_length : Z;
  cr_chunk_count : Z;
  cr_data_path : list Z;
  cr_shared : bool;
  cr_advertised : bool;
  cr_complete : bool;
  cr_integrity : list Z
}.

Record ProviderContribution := mkContribution {
  provider_id : list Z;
  pc_verified_chunks : Z;
  pc_rejected_requests : Z
}.

Record TransferRecord := mkTransferRecord {
  t_id : Z;
  t_content_id : list Z;
  t_direction : list Z;
  t_status : list Z;
  t_bytes_total : Z;
  t_bytes_transferred : Z;
  t_verified_chunks : Z;
  t_total_chunks : Z;
  t_current_rate_bps : Z;
  t_provider_count : Z;
  t_retry_count : Z;
  t_rejected_chunks : Z;
  t_provider_contributions : list ProviderContribution;
  t_resumed_chunks : Z;
  t_error : option (list Z);
  t_share_on_complete : bool;
  t_network_path : list Z
}.

Record PersistentFetchStats := mkFetchStats {
  fs_resumed_chunks : Z;
  fs_provider_contributions : list ProviderContribution;
  fs_retry_count : Z;
  fs_rejected_chunks : Z
}.

Record VerifiedProgress := mkVerifiedProgress {
  vp_bytes_total : Z;
  vp_verified_bytes : Z;
  vp_total_chunks : Z;
  vp_verified_chunks : Z;
  vp_provider_count : Z;
  vp_retry_count : Z;
  vp_rejected_chunks : Z
}.

(** [postcard] on [Manifest], [serde_json] on the contributions *)
Class StoreCodec := {
  encode_manifest : Manifest -> list Z;
  decode_manifest : list Z -> option Manifest;
  encode_contributions : list ProviderContribution -> list Z;
  decode_contributions : list Z -> option (list ProviderContribution)
}.

Class StoreCodecLaws `{StoreCodec} : Prop := {
  decode_encode_manifest : forall m, decode_manifest (encode_manifest m) = Some m;
  decode_encode_contributions : forall l, decode_contributions (encode_contributions l) = Some l;
  (** the column's default *)
  decode_no_contributions : decode_contributions (str "[]") = Some []
}.

Definition to_i64 (v : Z) : result (list Z) Z := ok_or (try_from I64_MAX v) (str "out of range integral type conversion attempted").

Section Store.
Context `{Blake3} `{Hex} `{StoreCodec}.

(** ** Rows as records *)

(** A canonical identifier: it parses and prints as itself. *)
Definition canonical_id (content_id : list Z) : bool :=
  match ContentId_from_str content_id with
  | Ok parsed => bool_decide (ContentId_to_string parsed = content_id)
  | Err _ => false
  end.

Definition content_from_row (root content_id : list Z) (row : ContentRow) : result (list Z) ContentRecord :=
  if negb (canonical_id content_id) then Err (str "invalid stored content ID")
  else
    length ← ok_or (try_from U64_MAX (ct_length row)) (str "negative length");
    chunk_count ← ok_or (try_from USIZE_MAX (ct_chunk_count row)) (str "negative chunk count");
    data_path ← ok_or (managed_path root (ct_data_path row)) (str "indexed content path escapes managed storage");
    Ok (mkContentRecord content_id [mkIdentity (str "triptorrent") content_id (str "verified")] length chunk_count
          data_path (negb (ct_shared row =? 0)) false (negb (ct_complete row =? 0)) (ct_integrity row)).

Definition statuses : list (list Z) :=
  [str "running"; str "pausing"; str "paused"; str "interrupted"; str "completed"; str "failed"].

(** [checked_sql_u64] and [checked_sql_usize] *)
Definition checked_sql (v : Z) : result (list Z) Z := ok_or (try_from U64_MAX v) (str "negative unsigned field").

Definition transfer_from_row (row : TransferRow) : result (list Z) TransferRecord :=
  contributions ← ok_or (decode_contributions (tr_provider_contributions row)) (str "invalid contributions");
  if negb (is_ok (ContentId_from_str (tr_content_id row))) then Err (str "invalid transfer content ID")
  else if negb (bool_decide (tr_direction row = str "download")) || negb (bool_decide (tr_status row ∈ statuses))
  then Err (str "invalid transfer state")
  else
    bytes_total ← checked_sql (tr_bytes_total row);
    bytes_transferred ← checked_sql (tr_bytes_transferred row);
    verified_chunks ← checked_sql (tr_verified_chunks row);
    total_chunks ← checked_sql (tr_total_chunks row);
    current_rate_bps ← checked_sql (tr_current_rate_bps row);
    provider_count ← checked_sql (tr_provider_count row);
    retry_count ← checked_sql (tr_retry_count row);
    rejected_chunks ← checked_sql (tr_rejected_chunks row);
    resumed_chunks ← checked_sql (tr_resumed_chunks row);
    Ok (mkTransferRecord (tr_id row) (tr_content_id row) (tr_direction row) (tr_status row) bytes_total
          bytes_transferred verified_chunks total_chunks current_rate_bps provider_count retry_count
          rejected_chunks contributions resumed_chunks (tr_error row) (negb (tr_share_on_complete row =? 0))
          (tr_network_path row)).

(** ** Integrity *)

Inductive IntegrityFailure := Missing | Corrupt.

(** The checks of [verify_stored_content] on the bytes of both files. *)
Definition stored_verdict (bytes encoded content_id : list Z) : option IntegrityFailure :=
  match decode_manifest encoded with
  | None => Some Corrupt
  | Some manifest =>
      if negb (bool_decide (ContentId_to_string (m_content_id manifest) = content_id)) then Some Corrupt
      else match Manifest_from_bytes bytes with
           | Err _ => Some Corrupt
           | Ok (_, chunks) =>
               if negb (is_ok (reconstruct manifest chunks))
                  || negb (bool_decide (ContentId_digest bytes = m_content_id manifest))
               then Some Corrupt else None
           end
  end.

(** [verify_stored_content]; an error of [fs::read] is reported as missing. *)
Definition verify_stored_content (data_path manifest_path content_id : list Z)
  (w : World) : World * option IntegrityFailure :=
  match fs_read data_path w with
  | (w, Err _) => (w, Some Missing)
  | (w, Ok bytes) =>
      match fs_read manifest_path w with
      | (w, Err _) => (w, Some Missing)
      | (w, Ok encoded) => (w, stored_verdict bytes encoded content_id)
      end
  end.

Definition verified (data_path manifest_path content_id : list Z) : sio (option IntegrityFailure) := fun s =>
  let '(w, r) := verify_stored_content data_path manifest_path content_id (disk s) in
  (mkStore (root s) (db s) w, Ok r).

(** [UPDATE content SET ... WHERE content_id=?] *)
Definition update_content (content_id : list Z) (f : ContentRow -> ContentRow) : sio unit :=
  execute (fun d => (set_content (map (fun '(k, row) => (k, if bool_decide (k = content_id) then f row else row))) d, Ok tt)).

Definition set_integrity (state : list Z) (shared : option Z) (row : ContentRow) : ContentRow :=
  mkContentRow (ct_length row) (ct_chunk_count row) (ct_data_path row) (ct_manifest_path row)
    (default (ct_shared row) shared) (ct_complete row) state (ct_created_at row).

(** One row of [verify_all]. *)
Definition verify_row (content_id : list Z) (row : ContentRow) : sio unit :=
  root ← get_root;
  if negb (is_ok (ContentId_from_str content_id)) then throw (str "invalid content ID indexed in local state")
  else if negb (canonical_id content_id) then throw (str "non-canonical content ID indexed in local state")
  else
    data_path ← lift (ok_or (managed_path root (ct_data_path row)) (str "invalid data path indexed"));
    manifest_path ← lift (ok_or (managed_path root (ct_manifest_path row)) (str "invalid manifest path indexed"));
    integrity ← verified data_path manifest_path content_id;
    match integrity with
    | None => update_content content_id (set_integrity (str "ok") None)
    | Some Missing => update_content content_id (set_integrity (str "missing") (Some 0))
    | Some Corrupt => update_content content_id (set_integrity (str "corrupt") (Some 0))
    end.

Fixpoint verify_rows (rows : list (list Z * ContentRow)) : sio unit :=
  match rows with
  | [] => mret tt
  | (content_id, row) :: rows => _ ← verify_row content_id row; verify_rows rows
  end.

Definition verify_all : sio unit :=
  rows ← query (fun d => Ok (List.filter (fun e => ct_complete e.2 =? 1) (content d)));
  verify_rows rows.

(** ** Content *)

Definition get_content (content_id : list Z) : sio (option ContentRecord) :=
  root ← get_root;
  query (fun d => match bt_get content_id (content d) with
                  | None => Ok None
                  | Some row => Some <$> content_from_row root content_id row
                  end).

Definition content_exists (content_id : list Z) : sio bool :=
  found ← get_content content_id;
  mret (bool_decide (is_Some found)).

Definition list_content : sio (list ContentRecord) :=
  _ ← verify_all;
  root ← get_root;
  query (fun d => map_result (fun '(k, row) => content_from_row root k row) (content d)).

(** [INSERT INTO content]: a conflict on the key fails *)
Definition insert_content (content_id : list Z) (row : ContentRow) : sio unit :=
  execute (fun d => if bt_contains content_id (content d) then (d, Err (str "UNIQUE constraint failed"))
                    else (set_content (bt_insert content_id row) d, Ok tt)).

(** [ON CONFLICT(content_id) DO UPDATE]: all but [created_at] *)
Definition upsert_content (content_id : list Z) (row : ContentRow) : sio unit :=
  execute (fun d =>
    let row := match bt_get content_id (content d) with
               | Some old => mkContentRow (ct_length row) (ct_chunk_count row) (ct_data_path row)
                               (ct_manifest_path row) (ct_shared row) 1 (str "ok") (ct_created_at old)
               | None => row
               end in
    (set_content (bt_insert content_id row) d, Ok tt)).

(** The row of a verified manifest. *)
Definition content_row (root data_path manifest_path : list Z) (m : Manifest) (shared : bool) (now : Z)
  : result (list Z) ContentRow :=
  length ← to_i64 (m_length m);
  chunks ← to_i64 (len (m_chunks m));
  data ← relative_string root data_path;
  manifest ← relative_string root manifest_path;
  Ok (mkContentRow length chunks data manifest (if shared then 1 else 0) 1 (str "ok") now).

Definition add_content (source : list Z) (shared : bool) (now : Z) : sio ContentRecord :=
  bytes ← on_disk (str "failed to read imported file") (fs_read source);
  '(manifest, _) ← lift (map_err (fun _ => str "content") (Manifest_from_bytes bytes));
  let content_id := ContentId_to_string (m_content_id manifest) in
  there ← content_exists content_id;
  if (there : bool) then throw (str "content is already indexed")
  else
    root ← get_root;
    let directory := content_directory root content_id in
    _ ← on_disk (str "create_dir_all") sync;
    let data_path := join_path directory (str "data") in
    let temporary := join_path directory (str "data.importing") in
    _ ← on_disk (str "write") (fs_write temporary bytes);
    copy ← on_disk (str "read") (fs_read temporary);
    if negb (bool_decide (ContentId_digest copy = m_content_id manifest))
    then throw (str "managed copy failed content-ID verification")
    else
      _ ← on_disk (str "rename") (replace_file temporary data_path);
      let manifest_path := join_path directory (str "manifest.postcard") in
      _ ← on_disk (str "write") (fs_write manifest_path (encode_manifest manifest));
      row ← lift (content_row root data_path manifest_path manifest shared now);
      _ ← insert_content content_id row;
      found ← get_content content_id;
      lift (ok_or found (str "new content was not indexed")).

Definition complete_download (content_id : ContentId) (shared : bool) (now : Z) : sio ContentRecord :=
  root ← get_root;
  let id := ContentId_to_string content_id in
  let data_path := join_path (content_directory root id) (str "data") in
  bytes ← on_disk (str "read") (fs_read data_path);
  '(manifest, _) ← lift (map_err (fun _ => str "content") (Manifest_from_bytes bytes));
  if negb (bool_decide (m_content_id manifest = content_id))
  then throw (str "completed download does not match requested content ID")
  else
    let manifest_path := join_path (content_directory root id) (str "manifest.postcard") in
    _ ← on_disk (str "write") (fs_write manifest_path (encode_manifest manifest));
    row ← lift (content_row root data_path manifest_path manifest shared now);
    _ ← upsert_content id row;
    found ← get_content id;
    lift (ok_or found (str "completed content was not indexed")).

Definition remove_content (content_id : list Z) (delete_bytes : bool) : sio unit :=
  parsed ← lift (map_err (fun _ => str "invalid content ID") (ContentId_from_str content_id));
  let content_id := ContentId_to_string parsed in
  found ← get_content content_id;
  if negb (bool_decide (is_Some found)) then throw (str "unknown content ID")
  else
    _ ← execute (fun d => (set_content (bt_remove content_id) d, Ok tt));
    root ← get_root;
    if delete_bytes then
      let directory := content_directory root content_id in
      there ← on_disk [] (dir_exists directory);
      if (there : bool) then on_disk (str "remove_dir_all") (remove_dir_all directory) else mret tt
    else mret tt.

(** Stored and shared content. *)
Definition counts : sio (Z * Z) :=
  stored ← query (fun d => Ok (len (content d)));
  shared ← query (fun d => Ok (count (fun e => (ct_shared e.2 =? 1) && bool_decide (ct_integrity e.2 = str "ok")) (content d)));
  mret (stored, shared).
End Store.

(** ** Transfers *)

(** The columns each [UPDATE transfers] sets. *)
Definition set_state (status : list Z) (error : option (list Z)) (now : Z) (r : TransferRow) : TransferRow :=
  mkTransferRow (tr_id r) (tr_content_id r) (tr_direction r) status (tr_bytes_total r) (tr_bytes_transferred r)
    (tr_verified_chunks r) (tr_total_chunks r) 0 (tr_provider_count r) (tr_retry_count r) (tr_rejected_chunks r)
    (tr_provider_contributions r) (tr_resumed_chunks r) error (tr_share_on_complete r) (tr_network_path r)
    (tr_created_at r) now.

Definition set_running (status : list Z) (total transferred resumed : Z) (error : option (list Z)) (now : Z)
  (r : TransferRow) : TransferRow :=
  mkTransferRow (tr_id r) (tr_content_id r) (tr_direction r) status total transferred
    (tr_verified_chunks r) (tr_total_chunks r) 0 (tr_provider_count r) (tr_retry_count r) (tr_rejected_chunks r)
    (tr_provider_contributions r) resumed error (tr_share_on_complete r) (tr_network_path r)
    (tr_created_at r) now.

Definition set_progress (p : VerifiedProgress) (rate now : Z) (r : TransferRow) : TransferRow :=
  mkTransferRow (tr_id r) (tr_content_id r) (tr_direction r) (tr_status r) (vp_bytes_total p) (vp_verified_bytes p)
    (vp_verified_chunks p) (vp_total_chunks p) rate (vp_provider_count p) (vp_retry_count p) (vp_rejected_chunks p)
    (tr_provider_contributions r) (tr_resumed_chunks r) (tr_error r) (tr_share_on_complete r) (tr_network_path r)
    (tr_created_at r) now.

Definition set_completed (length chunks retry rejected : Z) (contributions : list Z) (resumed now : Z)
  (r : TransferRow) : TransferRow :=
  mkTransferRow (tr_id r) (tr_content_id r) (tr_direction r) (str "completed") length length chunks chunks 0
    (tr_provider_count r) retry rejected contributions resumed None (tr_share_on_complete r) (tr_network_path r)
    (tr_created_at r) now.

Definition set_interrupted (now : Z) (r : TransferRow) : TransferRow :=
  mkTransferRow (tr_id r) (tr_content_id r) (tr_direction r) (str "interrupted") (tr_bytes_total r)
    (tr_bytes_transferred r) (tr_verified_chunks r) (tr_total_chunks r) 0 (tr_provider_count r) (tr_retry_count r)
    (tr_rejected_chunks r) (tr_provider_contributions r) (tr_resumed_chunks r) (tr_error r)
    (tr_share_on_complete r) (tr_network_path r) (tr_created_at r) now.

(** [status IN ('running','pausing')] and the four statuses of an unfinished transfer *)
Definition working (r : TransferRow) : bool := bool_decide (tr_status r ∈ [str "running"; str "pausing"]).
Definition unfinished (r : TransferRow) : bool :=
  bool_decide (tr_status r ∈ [str "running"; str "pausing"; str "paused"; str "interrupted"]).

(** [UPDATE transfers SET ... WHERE id=? AND ...] *)
Definition update_rows (where_ : TransferRow -> bool) (f : TransferRow -> TransferRow) : sio unit :=
  execute (fun d => (set_transfers (map (fun r => if where_ r then f r else r)) d, Ok tt)).

Definition has_id (id : Z) (r : TransferRow) : bool := tr_id r =? id.

(** A row of [INSERT INTO transfers], with the defaults of the other columns. *)
Definition new_transfer (id : Z) (content_id : list Z) (share : bool) (now : Z) : TransferRow :=
  mkTransferRow id content_id (str "download") (str "running") 0 0 0 0 0 0 0 0 (str "[]") 0 None
    (if share then 1 else 0) (str "encrypted_relayed_swarm") now now.

Definition create_transfer (content_id : list Z) (share : bool) (now : Z) : sio Z :=
  active ← query (fun d => Ok (count (fun r => bool_decide (tr_content_id r = content_id) && unfinished r) (transfers d)));
  if negb (active =? 0) then throw (str "a resumable transfer already exists")
  else
    execute (fun d =>
      let id := sequence d + 1 in
      if id >? I64_MAX then (d, Err (str "database or disk is full"))
      else (mkDatabase (schema d) (columns d) (content d) (transfers d ++ [new_transfer id content_id share now]) id, Ok id)).

Definition update_transfer (id : Z) (status : list Z) (bytes_total bytes_transferred resumed_chunks : Z)
  (error : option (list Z)) (now : Z) : sio unit :=
  total ← lift (to_i64 bytes_total);
  transferred ← lift (to_i64 bytes_transferred);
  resumed ← lift (to_i64 resumed_chunks);
  update_rows (has_id id) (set_running status total transferred resumed error now).

Definition update_progress (id : Z) (p : VerifiedProgress) (rate now : Z) : sio unit :=
  total ← lift (to_i64 (vp_bytes_total p));
  verified ← lift (to_i64 (vp_verified_bytes p));
  verified_chunks ← lift (to_i64 (vp_verified_chunks p));
  total_chunks ← lift (to_i64 (vp_total_chunks p));
  rate ← lift (to_i64 rate);
  providers ← lift (to_i64 (vp_provider_count p));
  retries ← lift (to_i64 (vp_retry_count p));
  rejected ← lift (to_i64 (vp_rejected_chunks p));
  update_rows (fun r => has_id id r && working r)
    (set_progress (mkVerifiedProgress total verified total_chunks verified_chunks providers retries rejected) rate now).

Definition set_transfer_status (id : Z) (status : list Z) (error : option (list Z)) (now : Z) : sio unit :=
  update_rows (has_id id) (set_state status error now).

Section Transfers.
Context `{Hex} `{StoreCodec}.

Definition complete_transfer (id content_length content_chunks : Z) (stats : PersistentFetchStats) (now : Z) : sio unit :=
  length ← lift (to_i64 content_length);
  chunks ← lift (to_i64 content_chunks);
  retry ← lift (to_i64 (fs_retry_count stats));
  rejected ← lift (to_i64 (fs_rejected_chunks stats));
  resumed ← lift (to_i64 (fs_resumed_chunks stats));
  update_rows (has_id id)
    (set_completed length chunks retry rejected (encode_contributions (fs_provider_contributions stats)) resumed now).

Definition list_transfers : sio (list TransferRecord) :=
  query (fun d => map_result transfer_from_row (transfers d)).

Definition get_transfer (id : Z) : sio (option TransferRecord) :=
  query (fun d => match List.find (has_id id) (transfers d) with
                  | None => Ok None
                  | Some row => Some <$> transfer_from_row row
                  end).

Definition mark_running_interrupted (now : Z) : sio unit := update_rows working (set_interrupted now).

Definition recoverable_transfers (now : Z) : sio (list TransferRecord) :=
  _ ← update_rows working (set_interrupted now);
  query (fun d => map_result transfer_from_row
                    (List.filter (fun r => bool_decide (tr_status r = str "interrupted")) (transfers d))).
End Transfers.

(** ** Opening *)

(** The columns version 2 adds, in the order of the migration, each with what
    [ALTER TABLE ... ADD COLUMN ... DEFAULT] makes of a row. *)
Definition set_column (name : list Z) (r : TransferRow) : TransferRow :=
  let pick {A} (column : list Z) (new old : A) : A := if bool_decide (name = column) then new else old in
  mkTransferRow (tr_id r) (tr_content_id r) (tr_direction r) (tr_status r) (tr_bytes_total r)
    (tr_bytes_transferred r) (pick (str "verified_chunks") 0 (tr_verified_chunks r))
    (pick (str "total_chunks") 0 (tr_total_chunks r)) (pick (str "current_rate_bps") 0 (tr_current_rate_bps r))
    (pick (str "provider_count") 0 (tr_provider_count r)) (pick (str "retry_count") 0 (tr_retry_count r))
    (pick (str "rejected_chunks") 0 (tr_rejected_chunks r))
    (pick (str "provider_contributions") (str "[]") (tr_provider_contributions r))
    (tr_resumed_chunks r) (tr_error r) (tr_share_on_complete r)
    (pick (str "network_path") (str "encrypted_relayed_swarm") (tr_network_path r))
    (tr_created_at r) (tr_updated_at r).

Definition new_columns : list (list Z) :=
  [str "verified_chunks"; str "total_chunks"; str "current_rate_bps"; str "provider_count"; str "retry_count";
   str "rejected_chunks"; str "provider_contributions"; str "network_path"].

Definition add_column (name : list Z) : sio unit :=
  execute (fun d =>
    match columns d with
    | None => (d, Err (str "no such table"))
    | Some present =>
        if bool_decide (name ∈ present) then (d, Err (str "duplicate column name"))
        else (mkDatabase (schema d) (Some (present ++ [name])) (content d) (map (set_column name) (transfers d))
                (sequence d), Ok tt)
    end).

Fixpoint add_columns (names : list (list Z)) : sio unit :=
  match names with
  | [] => mret tt
  | name :: names => _ ← add_column name; add_columns names
  end.

Section Open.
Context `{Blake3} `{Hex} `{StoreCodec}.

(** The statements of [execute_batch] run one by one; those that create a table do so
    only when it is new. *)
Definition open_index : sio unit :=
  _ ← execute (fun d => (mkDatabase (Some (default SCHEMA_VERSION (schema d))) (columns d) (content d) (transfers d) (sequence d), Ok tt));
  _ ← execute (fun d => (mkDatabase (schema d) (Some (default new_columns (columns d))) (content d) (transfers d) (sequence d), Ok tt));
  version ← query (fun d => Ok (default SCHEMA_VERSION (schema d)));
  if version =? 1 then
    _ ← add_columns new_columns;
    execute (fun d => (mkDatabase (Some 2) (columns d) (content d) (transfers d) (sequence d), Ok tt))
  else if version =? SCHEMA_VERSION then mret tt
  else throw (str "unsupported node index schema version").

(** [Store::open] on the database found below [root] *)
Definition open_store (root : list Z) (d : Database) (w : World) : Store * result (list Z) unit :=
  (_ ← on_disk (str "create_dir_all") sync;
   _ ← on_disk (str "create_dir_all") sync;
   _ ← execute (fun d => (d, Ok tt));
   _ ← open_index;
   verify_all) (mkStore root d w).
End Open.
