(* ===== verification/Paths.v ===== *)
(** * Paths: the standard library's operations on paths

    A path is its text; equal paths have the same components ([Path] compares them so), and
    an operation that takes a path apart returns the text of the components that remain. *)
From stdpp Require Import base tactics list numbers option.
From Stdlib Require Import ZArith Lia.
Import stdpp.list.
From S2P Require Import Prelude Bytes Text NetAddr NodeStore.

Local Open Scope Z_scope.

(** The directory and the components of a path; [.] counts only at its start. *)
Definition is_absolute (path : list Z) : bool := bool_decide (head path = Some 47).
Definition components (path : list Z) : list (list Z) :=
  let parts := split 47 path in
  let inner := List.filter (fun p => negb (bool_decide (p = [])) && negb (bool_decide (p = str "."))) parts in
  if bool_decide (head parts = Some (str ".")) then str "." :: inner else inner.

(** The path of some components, after a root or not. *)
Definition path_of (absolute : bool) (parts : list (list Z)) : list Z :=
  (if absolute then [47] else []) ++ join [47] parts.

(** [Path::parent], up to the equality of paths *)
Definition parent (path : list Z) : option (list Z) :=
  match components path with
  | [] => None
  | parts => Some (path_of (is_absolute path) (removelast parts))
  end.

(** [Path::with_file_name] *)
Definition with_file_name (path name : list Z) : list Z :=
  match last (components path) with
  | Some part =>
      if bool_decide (part = str "..") || bool_decide (part = str ".") then join_path path name
      else join_path (default [] (parent path)) name
  | None => join_path path name
  end.

(** The position of the last [b] of a text: what is before it. *)
Fixpoint before_last (b : Z) (l : list Z) : option (list Z) :=
  match l with
  | [] => None
  | x :: l =>
      match before_last b l with
      | Some p => Some (x :: p)
      | None => if x =? b then Some [] else None
      end
  end.

(** [Path::file_stem]: the name up to its last dot, unless that dot starts it *)
Definition file_stem (name : list Z) : list Z :=
  match before_last 46 name with Some (x :: p) => x :: p | _ => name end.

(** [Path::with_extension] *)
Definition with_extension (path extension : list Z) : list Z :=
  match last (components path) with
  | Some name =>
      if bool_decide (name = str "..") || bool_decide (name = str ".") then path
      else path_of (is_absolute path) (removelast (components path) ++ [file_stem name ++ str "." ++ extension])
  | None => path
  end.
