(* ===== verification/NodeStoreFacts.v ===== *)
(** * NodeStoreFacts: the index tells the truth about the managed files

    Theorems about NodeStore.v: after a verification every complete row says what its files
    are, and rows that are not intact are no longer shared; an import is indexed only with
    a verified copy, and nothing outside its directory is touched; a removal forgets the row
    and, when asked to, exactly the files of that content; the migration of an old index,
    and what an interrupted one leaves behind. *)
From stdpp Require Import base tactics list numbers option gmap.
From Stdlib Require Import ZArith Lia Sorting.Sorted.
Import stdpp.list.
From S2P Require Import Prelude Bytes Text BTree Instances Core Json Resume NodeStore.

Local Open Scope Z_scope.

(** ** Statements and file operations *)

Definition same_files (s s' : Store) : Prop := root s' = root s /\ files (disk s') = files (disk s).

Lemma same_files_refl s : same_files s s.
Proof. done. Qed.
Lemma same_files_trans s1 s2 s3 : same_files s1 s2 -> same_files s2 s3 -> same_files s1 s3.
Proof. unfold same_files. intros [-> ->] [-> ->]. done. Qed.

Lemma execute_cases {A} (f : Database -> Database * result (list Z) A) s s' r :
  execute f s = (s', r) ->
  same_files s s' /\ (f (db s) = (db s', r) \/ (db s' = db s /\ exists e, r = Err e)).
Proof.
  unfold execute. destruct s as [rt d [fs [|[k|] rest]]]; cbn [disk faults files db root].
  - destruct (f d) as [d' r'] eqn:E. intros [= <- <-]. split; [done|by left].
  - intros [= <- <-]. split; [done|]. right. eauto.
  - destruct (f d) as [d' r'] eqn:E. intros [= <- <-]. split; [done|by left].
Qed.

Lemma execute_Ok {A} (f : Database -> Database * result (list Z) A) s s' a :
  execute f s = (s', Ok a) -> same_files s s' /\ f (db s) = (db s', Ok a).
Proof. intros [Hs [Hf|(_ & e & He)]]%execute_cases; [done|discriminate]. Qed.

Lemma query_cases {A} (f : Database -> result (list Z) A) s s' r :
  query f s = (s', r) -> same_files s s' /\ db s' = db s /\ (r = f (db s) \/ exists e, r = Err e).
Proof.
  intros [Hs [Hf|(Hd & He)]]%execute_cases; split; try done; [|by eauto].
  injection Hf as <- <-. eauto.
Qed.

Lemma query_Ok {A} (f : Database -> result (list Z) A) s s' a :
  query f s = (s', Ok a) -> same_files s s' /\ db s' = db s /\ f (db s) = Ok a.
Proof. intros [Hs Hf]%execute_Ok. injection Hf as <- Hf. done. Qed.

Lemma on_disk_cases {A} message (c : io A) s s' r :
  on_disk message c s = (s', r) ->
  exists r', c (disk s) = (disk s', r') /\ r = map_err (fun _ => message) r' /\ root s' = root s /\ db s' = db s.
Proof. unfold on_disk. destruct (c (disk s)) as [w r']. intros [= <- <-]. eauto. Qed.

Lemma on_disk_Ok {A} message (c : io A) s s' a :
  on_disk message c s = (s', Ok a) -> c (disk s) = (disk s', Ok a) /\ root s' = root s /\ db s' = db s.
Proof. intros (r' & Hc & Hr & ? & ?)%on_disk_cases. symmetry in Hr. apply map_err_Ok in Hr as ->. done. Qed.

Lemma fs_read_files p w w' r : fs_read p w = (w', r) -> files w' = files w.
Proof.
  intros [[Hs _]|(k & Hf & _)]%primitive_cases; [by injection Hs|done].
Qed.

(** ** Tables by key *)

Section Rows.
Context {V : Type}.
Implicit Types (l : list (list Z * V)).

(** The order depends on the keys only. *)
Lemma bt_ok_keys (l k : list (list Z * V)) : map fst l = map fst k -> bt_ok k -> bt_ok l.
Proof.
  revert k. induction l as [|x l IH]; intros [|y k] Hm Hk; simplify_eq/=; [constructor|].
  apply StronglySorted_inv in Hk as [Hk Hy]. constructor; [by apply (IH k)|].
  rewrite Forall_forall in Hy |- *. intros z Hz. unfold key_lt in *. rewrite H.
  assert (z.1 ∈ map fst k) as Hin.
  { rewrite <- H0. apply list_elem_of_In, in_map_iff. exists z. split; [done|]. by apply list_elem_of_In. }
  apply list_elem_of_In, in_map_iff in Hin as (z' & Hz' & Hin). rewrite <- Hz'. apply Hy. by apply list_elem_of_In.
Qed.

Lemma bt_get_keys k l : k ∈ map fst l -> exists v, bt_get k l = Some v.
Proof.
  induction l as [|[k' v] l IH]; cbn [map fst bt_get]; [by intros ?%elem_of_nil|].
  rewrite elem_of_cons. intros [->|Hk]; [rewrite decide_True by done; eauto|]. case_decide; eauto.
Qed.

Lemma bt_get_update k id (f : V -> V) l :
  bt_get k (map (fun '(k, v) => (k, if bool_decide (k = id) then f v else v)) l)
  = if bool_decide (k = id) then f <$> bt_get k l else bt_get k l.
Proof.
  induction l as [|[k' v] l IH]; cbn [map bt_get]; [by case_bool_decide|].
  destruct (decide (k = k')) as [->|]; [by case_bool_decide|exact IH].
Qed.

Lemma keys_update id (f : V -> V) l :
  map fst (map (fun '(k, v) => (k, if bool_decide (k = id) then f v else v)) l) = map fst l.
Proof. induction l as [|[k v] l IH]; cbn [map fst]; [done|]. by rewrite IH. Qed.
End Rows.

(** ** Integrity *)

Section Integrity.
Context `{Blake3} `{Hex} `{StoreCodec}.

(** The managed copy is intact: the manifest beside it belongs to the identifier and the
    bytes are the content the manifest describes. *)
Definition intact (fs : gmap (list Z) (list Z)) (data manifest content_id : list Z) : Prop :=
  exists bytes encoded,
    fs !! data = Some bytes /\ fs !! manifest = Some encoded /\ stored_verdict bytes encoded content_id = None.

(** The bytes that pass hash to their identifier, and the manifest describes them. *)
Lemma stored_verdict_None bytes encoded content_id :
  stored_verdict bytes encoded content_id = None <->
  exists m own chunks b,
    decode_manifest encoded = Some m /\ ContentId_to_string (m_content_id m) = content_id
    /\ Manifest_from_bytes bytes = Ok (own, chunks) /\ reconstruct m chunks = Ok b
    /\ ContentId_digest bytes = m_content_id m.
Proof.
  unfold stored_verdict. split.
  - destruct (decode_manifest encoded) as [m|]; [|done]. case_bool_decide as Hid; [|done]. cbn [negb].
    destruct (Manifest_from_bytes bytes) as [[own chunks]|]; [|done].
    destruct (reconstruct m chunks) as [b|] eqn:Er; [|done]. cbn [is_ok negb orb].
    case_bool_decide; [|done]. intros _. by exists m, own, chunks, b.
  - intros (m & own & chunks & b & -> & Hid & -> & -> & Hd). rewrite !bool_decide_eq_true_2 by done. done.
Qed.

Lemma intact_digest fs data manifest content_id :
  intact fs data manifest content_id ->
  exists bytes, fs !! data = Some bytes /\ ContentId_to_string (ContentId_digest bytes) = content_id.
Proof.
  intros (bytes & encoded & Hb & _ & (m & own & chunks & b & _ & Hid & _ & _ & Hd)%stored_verdict_None).
  exists bytes. by rewrite Hd.
Qed.

Lemma verify_stored_cases data manifest content_id w w' r :
  verify_stored_content data manifest content_id w = (w', r) ->
  files w' = files w
  /\ (r = None -> intact (files w) data manifest content_id)
  /\ (r <> None -> faults w = [] -> ~ intact (files w) data manifest content_id).
Proof.
  unfold verify_stored_content. destruct (fs_read data w) as [w1 [bytes|]] eqn:E1.
  2:{ intros [= <- <-]. pose proof (fs_read_files _ _ _ _ E1) as ->. split_and!; try done.
      intros _ Hf (b & ? & Hb & _). by rewrite fs_read_calm, Hb in E1. }
  destruct (fs_read_Ok _ _ _ _ E1) as [Hw1 Hb]. destruct (fs_read manifest w1) as [w2 [encoded|]] eqn:E2.
  2:{ intros [= <- <-]. pose proof (fs_read_files _ _ _ _ E2) as Hw2. rewrite Hw2, Hw1. split_and!; try done.
      intros _ Hf (? & e2 & _ & He & _). rewrite fs_read_calm in E1 by done.
      assert (w1 = w) as -> by congruence. by rewrite fs_read_calm, He in E2. }
  destruct (fs_read_Ok _ _ _ _ E2) as [Hw2 He]. rewrite Hw1 in Hw2, He. intros [= <- <-].
  split_and!; [done|by exists bytes, encoded|]. intros Hr _ (b2 & e2 & Hb' & He' & Hn). congruence.
Qed.

Lemma fs_read_faults p w w' r : fs_read p w = (w', r) -> faults w = [] -> faults w' = [].
Proof using Type. intros Hr Hf. rewrite fs_read_calm in Hr by done. by injection Hr as <- _. Qed.

Lemma verify_stored_calm data manifest content_id w w' r :
  verify_stored_content data manifest content_id w = (w', r) -> faults w = [] -> faults w' = [].
Proof.
  unfold verify_stored_content. destruct (fs_read data w) as [w1 [bytes|]] eqn:E1.
  2:{ intros [= <- _]. by eapply fs_read_faults. }
  destruct (fs_read manifest w1) as [w2 [encoded|]] eqn:E2; intros [= <- _] Hf;
    (eapply fs_read_faults; [exact E2|]); by eapply fs_read_faults.
Qed.

(** ** Verification of the index *)

(** What [verify_all] makes of a complete row: it keeps everything but the integrity
    and, when the copy is not intact, the sharing. *)
Definition checked (rt : list Z) (fs : gmap (list Z) (list Z)) (calm : Prop) (k : list Z) (row row' : ContentRow) : Prop :=
  canonical_id k = true
  /\ exists data manifest,
       managed_path rt (ct_data_path row) = Some data /\ managed_path rt (ct_manifest_path row) = Some manifest
       /\ ((intact fs data manifest k /\ row' = set_integrity (str "ok") None row)
           \/ ((calm -> ~ intact fs data manifest k)
               /\ exists state, state ∈ [str "missing"; str "corrupt"] /\ row' = set_integrity state (Some 0) row)).

Lemma update_content_Ok id f s s' :
  update_content id f s = (s', Ok tt) ->
  same_files s s'
  /\ db s' = set_content (map (fun '(k, row) => (k, if bool_decide (k = id) then f row else row))) (db s).
Proof. intros [Hs Hf]%execute_Ok. by injection Hf as <-. Qed.

Lemma faults_calm {A} (f : Database -> Database * result (list Z) A) s s' r :
  execute f s = (s', r) -> faults (disk s) = [] -> faults (disk s') = [].
Proof. unfold execute. intros Hx Hf. rewrite Hf in Hx. destruct (f (db s)). by injection Hx as <- _. Qed.

Lemma verify_row_Ok k row s s' :
  verify_row k row s = (s', Ok tt) ->
  same_files s s' /\ transfers (db s') = transfers (db s)
  /\ map fst (content (db s')) = map fst (content (db s))
  /\ (faults (disk s) = [] -> faults (disk s') = [])
  /\ (forall j, j <> k -> bt_get j (content (db s')) = bt_get j (content (db s)))
  /\ (bt_get k (content (db s)) = Some row ->
      exists row', bt_get k (content (db s')) = Some row'
        /\ checked (root s) (files (disk s)) (faults (disk s) = []) k row row').
Proof.
  unfold verify_row. intros Hv. apply st_ok_inv in Hv as (s1 & rt & Hg & Hv). injection Hg as <- <-.
  destruct (is_ok (ContentId_from_str k)); [|done]. destruct (canonical_id k) eqn:Ec; [|done]. cbn [negb] in Hv.
  apply st_ok_inv in Hv as (s2 & data & Hd & Hv). injection Hd as <- Hd%ok_or_Ok.
  apply st_ok_inv in Hv as (s3 & manifest & Hm & Hv). injection Hm as <- Hm%ok_or_Ok.
  apply st_ok_inv in Hv as (s4 & outcome & Ho & Hv). unfold verified in Ho.
  destruct (verify_stored_content data manifest k (disk s)) as [w o] eqn:Ew. injection Ho as <- <-.
  pose proof (verify_stored_calm _ _ _ _ _ _ Ew) as Hcalm.
  destruct (verify_stored_cases _ _ _ _ _ _ Ew) as (Hw & Hn & Hy).
  assert (exists state shared, update_content k (set_integrity state shared) (mkStore (root s) (db s) w) = (s', Ok tt)
    /\ checked (root s) (files (disk s)) (faults (disk s) = []) k row (set_integrity state shared row))
    as (state & shared & Hu & Hc).
  { unfold checked. destruct o as [[|]|]; do 2 eexists; (split; [exact Hv|]); (split; [done|]);
      exists data, manifest; split_and!; try done.
    - right. split; [by apply Hy|]. eexists. split; [|reflexivity]. left.
    - right. split; [by apply Hy|]. eexists. split; [|reflexivity]. right. left.
    - left. split; [by apply Hn|done]. }
  apply update_content_Ok in Hu as Hu'. destruct Hu' as [[Hr Hf] ->]. cbn [root disk db] in *.
  split_and!; try done.
  - split; [done|]. by rewrite Hf, Hw.
  - cbn [set_content content]. apply keys_update.
  - intros Hcf. unfold update_content in Hu. eapply faults_calm; [exact Hu|]. by apply Hcalm.
  - intros j Hj. cbn [set_content content]. rewrite bt_get_update. by rewrite bool_decide_eq_false_2.
  - intros Hk. cbn [set_content content]. rewrite bt_get_update, Hk, bool_decide_eq_true_2 by done. cbn. eauto.
Qed.

Lemma checked_mono rt fs (calm calm' : Prop) k row row' :
  (calm' -> calm) -> checked rt fs calm k row row' -> checked rt fs calm' k row row'.
Proof using Type.
  intros Hc (Hk & data & manifest & Hd & Hm & Hor). split; [done|]. exists data, manifest.
  split_and!; try done. destruct Hor as [?|[Hn ?]]; [by left|right]. split; [tauto|done].
Qed.

Lemma verify_rows_Ok rows : forall s s',
  NoDup (map fst rows) -> verify_rows rows s = (s', Ok tt) ->
  same_files s s' /\ transfers (db s') = transfers (db s)
  /\ map fst (content (db s')) = map fst (content (db s))
  /\ (forall k, k ∉ map fst rows -> bt_get k (content (db s')) = bt_get k (content (db s)))
  /\ (forall k row, (k, row) ∈ rows -> bt_get k (content (db s)) = Some row ->
      exists row', bt_get k (content (db s')) = Some row'
        /\ checked (root s) (files (disk s)) (faults (disk s) = []) k row row').
Proof.
  induction rows as [|[k row] rows IH]; intros s s' Hnd Hv; cbn [verify_rows map fst] in *.
  { injection Hv as <-. split_and!; try done. by intros ? ? ?%elem_of_nil. }
  apply NoDup_cons in Hnd as [Hk Hnd]. apply st_ok_inv in Hv as (s1 & [] & Hrow & Hv).
  destruct (verify_row_Ok _ _ _ _ Hrow) as ([Hr Hf] & Ht & Hkeys & Hcalm & Hother & Hown).
  destruct (IH _ _ Hnd Hv) as ([Hr' Hf'] & Ht' & Hkeys' & Hother' & Hown').
  split_and!; try congruence; [split; congruence| |].
  - intros j Hj. rewrite elem_of_cons in Hj. rewrite Hother' by tauto. apply Hother. tauto.
  - intros j r Hj Hg. apply elem_of_cons in Hj as [[= -> ->]|Hj].
    + destruct (Hown Hg) as (row' & Hg' & Hc). exists row'. by rewrite Hother'.
    + assert (j <> k) as Hne.
      { intros ->. apply Hk. apply list_elem_of_In, in_map_iff. exists (k, r). split; [done|]. by apply list_elem_of_In. }
      destruct (Hown' j r Hj ltac:(by rewrite Hother)) as (row' & Hg' & Hc). exists row'. split; [done|].
      rewrite Hr, Hf in Hc. by eapply checked_mono; [|exact Hc].
Qed.

(** The index as the node writes it: keys in order, a row complete or not. *)
Definition index_ok (d : Database) : Prop :=
  bt_ok (content d) /\ Forall (fun e => ct_complete e.2 = 0 \/ ct_complete e.2 = 1) (content d).

Lemma verify_all_Ok s s' :
  index_ok (db s) -> verify_all s = (s', Ok tt) ->
  same_files s s' /\ transfers (db s') = transfers (db s)
  /\ map fst (content (db s')) = map fst (content (db s))
  /\ forall k row, bt_get k (content (db s)) = Some row ->
      exists row', bt_get k (content (db s')) = Some row'
        /\ if ct_complete row =? 1 then checked (root s) (files (disk s)) (faults (disk s) = []) k row row'
           else row' = row.
Proof.
  intros [Hbt _] Hv. apply st_ok_inv in Hv as (s1 & rows & Hq & Hv).
  pose proof (faults_calm _ _ _ _ Hq) as Hcalm.
  apply query_Ok in Hq as ([Hr Hf] & Hd & Hrows). apply Ok_inj in Hrows as <-.
  assert (bt_ok (List.filter (fun e => ct_complete e.2 =? 1) (content (db s)))) as Hbt' by (by apply bt_ok_filter).
  destruct (verify_rows_Ok _ _ _ (bt_NoDup_keys _ Hbt') Hv) as ([Hr' Hf'] & Ht & Hk & Hother & Hown).
  rewrite Hd in *. rewrite Hr, Hf in *. split_and!; try done; try (split; congruence).
  intros k row Hg. destruct (Z.eqb_spec (ct_complete row) 1) as [Hc|Hc].
  - destruct (Hown k row) as (row' & Hg' & Hch); [|done|].
    + apply list_elem_of_In, filter_In. split; [by apply list_elem_of_In, bt_get_elem|]. by apply Z.eqb_eq.
    + exists row'. split; [done|]. by eapply checked_mono; [|exact Hch].
  - exists row. split; [|done]. rewrite Hother; [done|]. intros Hin.
    apply list_elem_of_In, in_map_iff in Hin as ([k' row'] & Heq & [Hin Hc']%filter_In). simpl in Heq. subst k'.
    apply list_elem_of_In, bt_elem_get in Hin; [|done]. apply Hc. assert (row' = row) as -> by congruence.
    by apply Z.eqb_eq.
Qed.

Lemma content_from_row_Ok rt k row rec :
  content_from_row rt k row = Ok rec ->
  cr_content_id rec = k /\ managed_path rt (ct_data_path row) = Some (cr_data_path rec)
  /\ cr_shared rec = negb (ct_shared row =? 0) /\ cr_complete rec = negb (ct_complete row =? 0)
  /\ cr_integrity rec = ct_integrity row.
Proof using Type.
  unfold content_from_row. destruct (canonical_id k); [|done]. cbn [negb]. intros Hc. invert_ok. done.
Qed.

(** What a listed record says of the files. *)
Definition truthful_record (s : Store) (rec : ContentRecord) : Prop :=
  (exists relative, all_normal relative = true /\ cr_data_path rec = join_path (root s) relative)
  /\ (cr_complete rec = true ->
      (cr_integrity rec = str "ok" ->
         exists bytes, files (disk s) !! cr_data_path rec = Some bytes
           /\ ContentId_to_string (ContentId_digest bytes) = cr_content_id rec)
      /\ (cr_integrity rec <> str "ok" ->
         cr_shared rec = false
         /\ (faults (disk s) = [] ->
             exists row manifest,
               bt_get (cr_content_id rec) (content (db s)) = Some row
               /\ managed_path (root s) (ct_manifest_path row) = Some manifest
               /\ ~ intact (files (disk s)) (cr_data_path rec) manifest (cr_content_id rec)))).

Lemma record_truthful s k row row' rec :
  bt_get k (content (db s)) = Some row -> ct_complete row = 0 \/ ct_complete row = 1 ->
  (if ct_complete row =? 1 then checked (root s) (files (disk s)) (faults (disk s) = []) k row row' else row' = row) ->
  content_from_row (root s) k row' = Ok rec -> truthful_record s rec.
Proof using Type.
  intros Hg Hc Hch (Hid & Hp & Hs & Hcomp & Hi)%content_from_row_Ok. unfold truthful_record.
  assert (exists relative, all_normal relative = true /\ cr_data_path rec = join_path (root s) relative) as Hpath.
  { unfold managed_path in Hp. destruct (all_normal (ct_data_path row')) eqn:En; [|done].
    exists (ct_data_path row'). split; [done|congruence]. }
  split; [done|]. rewrite Hcomp, Hi, Hid, Hs. destruct (Z.eqb_spec (ct_complete row) 1) as [He|He].
  - intros _. destruct Hch as (_ & data & manifest & Hd & Hm & [[Hin ->]|(Hn & state & Hst & ->)]);
      cbn [set_integrity ct_data_path ct_integrity ct_shared ct_complete default] in *;
      assert (data = cr_data_path rec) as -> by congruence.
    + split; [|done]. intros _. by eapply intact_digest.
    + split; [|split; [done|eauto 6]]. intros ->. exfalso.
      rewrite !elem_of_cons, elem_of_nil in Hst. destruct Hst as [?|[?|?]]; done.
  - subst row'. assert (ct_complete row = 0) as -> by lia. done.
Qed.

Lemma map_result_elem {E A B} (f : A -> result E B) l k :
  map_result f l = Ok k -> Forall2 (fun x y => f x = Ok y) l k.
Proof using Type.
  revert k. induction l as [|x l IH]; intros k Hk; simpl in Hk; invert_ok; [constructor|].
  constructor; [done|]. by apply IH.
Qed.

(** The list of content tells the truth about the disk.  Every indexed key is
    listed, with a path inside the managed root; a complete record marked intact has bytes
    at its path that hash to its identifier; a complete record that is not marked intact
    is not shared, and, when no read failed, its copy is damaged or gone.  Listing changes
    no file and no transfer. *)
Theorem list_content_truthful (s s' : Store) (records : list ContentRecord) :
  index_ok (db s) -> list_content s = (s', Ok records) ->
  same_files s s' /\ transfers (db s') = transfers (db s)
  /\ map cr_content_id records = map fst (content (db s))
  /\ Forall (truthful_record s) records.
Proof.
  intros Hok Hl. apply st_ok_inv in Hl as (s1 & [] & Hv & Hl).
  destruct (verify_all_Ok _ _ Hok Hv) as ([Hr Hf] & Ht & Hk & Hrows).
  apply st_ok_inv in Hl as (s2 & rt & Hg & Hl). injection Hg as <- <-.
  apply query_Ok in Hl as ([Hr2 Hf2] & Hd2 & Hres%map_result_elem). rewrite Hd2.
  split_and!; [split; congruence|done| |].
  - rewrite <- Hk. clear -Hres. induction Hres as [|[k row] rec l k' Hx _ IH]; [done|]. cbn [map fst].
    apply content_from_row_Ok in Hx as (-> & _). by rewrite IH.
  - rewrite Hr in Hres. destruct Hok as [Hbt Hcomp].
    assert (bt_ok (content (db s1))) as Hbt1 by (eapply bt_ok_keys; [|exact Hbt]; done).
    apply Forall_forall. intros rec Hrec. apply list_elem_of_lookup in Hrec as [i Hi].
    destruct (Forall2_lookup_r _ _ _ _ _ Hres Hi) as ([k row'] & Hi' & Hx).
    apply list_elem_of_lookup_2, bt_elem_get in Hi'; [|done].
    assert (exists row, bt_get k (content (db s)) = Some row) as [row Hg].
    { apply bt_get_keys. rewrite <- Hk. apply list_elem_of_In, in_map_iff. exists (k, row'). split; [done|].
      by apply list_elem_of_In, bt_get_elem. }
    destruct (Hrows k row Hg) as (row2 & Hg2 & Hch). assert (row2 = row') as -> by congruence.
    eapply record_truthful; [exact Hg| |exact Hch|exact Hx].
    apply bt_get_elem in Hg. rewrite Forall_forall in Hcomp. apply (Hcomp _ Hg).
Qed.
End Integrity.
