(* ===== verification/NodeImport.v ===== *)
(** * NodeImport: importing and removing content, and opening an old index

    Theorems about NodeStore.v: an import is indexed only with a verified copy, and nothing
    outside its directory is touched, whatever fails; a removal forgets the row and, when
    asked to, exactly the files of that content; the migration of an old index, and what an
    interrupted one leaves behind. *)
From stdpp Require Import base tactics list numbers option gmap.
From Stdlib Require Import ZArith Lia Sorting.Sorted.
Import stdpp.list.
From S2P Require Import Prelude Bytes Text BTree Instances Core Json Resume NodeStore NodeStoreFacts.

Local Open Scope Z_scope.

(** ** Paths below the root *)

Section Paths.
Context `{HexLaws}.

Definition hex_digit (c : Z) : Prop := 48 <= c <= 57 \/ 97 <= c <= 102.

(** The text of an identifier names a directory: it is not empty and has no separator. *)
Lemma id_text (id : ContentId) :
  id_ok id -> ContentId_to_string id <> [] /\ Forall hex_digit (ContentId_to_string id)
  /\ canonical_id (ContentId_to_string id) = true.
Proof.
  intros [Hl Hb]. unfold canonical_id, ContentId_from_str, ContentId_to_string. split_and!.
  - intros Hn. pose proof (hex_encode_len id) as He. rewrite Hn, Hl in He. done.
  - pose proof (hex_encode_digits id Hb) as Hd. rewrite all_true in Hd. eapply Forall_impl; [exact Hd|].
    intros c Hc. unfold hex_digit, in_range in *. lia.
  - rewrite hex_decode_encode by done. cbn. rewrite Hl. cbn. by rewrite bool_decide_eq_true_2.
Qed.

Lemma join_path_app base rest : join_path base rest = join_path base [] ++ rest.
Proof.
  unfold join_path. case_bool_decide as Hb; [done|]. case_bool_decide; [by rewrite app_nil_r|].
  by rewrite <- app_assoc.
Qed.

Lemma join_path_sep base rest : base <> [] -> last base <> Some 47 -> join_path base rest = base ++ 47 :: rest.
Proof. intros Hb Hl. unfold join_path. by rewrite !bool_decide_eq_false_2. Qed.

(** A managed file: its path and how the index spells it. *)
Definition spelled (t name : list Z) : list Z := str "content/" ++ t ++ 47 :: name.

Lemma managed_file rt t name :
  t <> [] -> Forall hex_digit t ->
  join_path (content_directory rt t) name = join_path rt [] ++ spelled t name
  /\ join_path (content_directory rt t) name = content_directory rt t ++ 47 :: name.
Proof.
  intros Hne Ht. unfold content_directory.
  rewrite (join_path_app rt (str "content")), (join_path_sep (_ ++ str "content")).
  2:{ by intros [_ ?]%app_eq_nil. }
  2:{ rewrite last_app. cbn. done. }
  rewrite join_path_sep; [split; [|done]; unfold spelled; rewrite <- !app_assoc; done| |].
  - by intros [_ ?]%app_eq_nil.
  - rewrite last_app, last_cons. destruct (last t) as [c|] eqn:El; [|by apply last_None in El].
    apply last_Some_elem_of in El. rewrite Forall_forall in Ht. specialize (Ht _ El). intros [= ->].
    unfold hex_digit in Ht. lia.
Qed.

Definition plain (name : list Z) : Prop :=
  name <> str ".." /\ Forall (fun c => c <> 47 /\ c <> 92) name.

Lemma index_path rt t name :
  t <> [] -> Forall hex_digit t -> plain name ->
  relative_string rt (join_path (content_directory rt t) name) = Ok (spelled t name)
  /\ managed_path rt (spelled t name) = Some (join_path (content_directory rt t) name).
Proof.
  intros Hne Ht [Hname Hplain]. destruct (managed_file rt t name Hne Ht) as [-> _]. split.
  - unfold relative_string. rewrite strip_prefix_app. cbn [ok_or mbind result_bind].
    unfold mbind, result_bind. f_equal. unfold spelled. rewrite !map_app. cbn [map].
    assert (forall l, Forall (fun c => c <> 92) l -> map (fun b => if b =? 92 then 47 else b) l = l) as Hid.
    { induction 1 as [|c l Hc _ IH]; [done|]. cbn [map]. rewrite IH, (proj2 (Z.eqb_neq c 92) Hc). done. }
    rewrite (Hid t), (Hid name); [done| |].
    + eapply Forall_impl; [exact Hplain|]. naive_solver.
    + eapply Forall_impl; [exact Ht|]. unfold hex_digit. lia.
  - unfold managed_path. rewrite (join_path_app rt (spelled t name)).
    assert (split 47 (spelled t name) = [str "content"; t; name]) as Hs.
    { unfold spelled. change (str "content/") with (str "content" ++ [47]). rewrite <- app_assoc. cbn [app].
      rewrite split_first by (repeat (constructor; [done|]); constructor).
      rewrite split_first by (eapply Forall_impl; [exact Ht|]; unfold hex_digit; lia).
      rewrite split_none by (eapply Forall_impl; [exact Hplain|]; naive_solver). done. }
    unfold all_normal. rewrite Hs. cbn [head]. rewrite !bool_decide_eq_false_2; [|done..].
    assert (all (fun part => negb (bool_decide (part = str ".."))) [str "content"; t; name] = true) as ->; [|done].
    apply all_true. repeat constructor; apply negb_true_iff, bool_decide_eq_false_2; try done.
    intros ->. inversion Ht as [|? ? Hc]. unfold hex_digit in Hc. lia.
Qed.
End Paths.

(** ** What an operation leaves alone *)

(** Only files below [directory] differ. *)
Definition outside (directory : list Z) (s s' : Store) : Prop :=
  root s' = root s /\ forall p, below directory p = false -> files (disk s') !! p = files (disk s) !! p.

#[global] Instance outside_preorder directory : PreOrder (outside directory).
Proof.
  split; [done|]. intros s1 s2 s3 [Hr Hf] [Hr' Hf']. split; [congruence|]. intros p Hp. by rewrite Hf', Hf.
Qed.

Lemma same_outside directory s s' : same_files s s' -> outside directory s s'.
Proof. intros [Hr Hf]. split; [done|]. intros p _. by rewrite Hf. Qed.

Lemma on_disk_outside {A} directory message (c : io A) s s' r :
  (forall p, below directory p = false -> frames p c) -> on_disk message c s = (s', r) ->
  outside directory s s' /\ db s' = db s.
Proof.
  intros Hc (r' & Hd & _ & Hr & Hdb)%on_disk_cases. split; [|done]. split; [done|].
  intros p Hp. destruct (Hc p Hp (disk s)) as [Hf _]. by rewrite Hd in Hf.
Qed.

Lemma below_ne directory name p : below directory p = false -> directory ++ 47 :: name <> p.
Proof.
  intros Hb <-. unfold below, starts_with in Hb. apply bool_decide_eq_false in Hb. apply Hb.
  change (47 :: name) with ([47] ++ name). rewrite app_assoc. apply take_app_length.
Qed.

Section Importing.
Context `{Blake3Laws} `{HexLaws} `{StoreCodecLaws}.

(** The text of the identifier of [bytes], and the files of its directory. *)
Definition text_of (bytes : list Z) : list Z := ContentId_to_string (ContentId_digest bytes).
Definition data_of (rt bytes : list Z) : list Z := join_path (content_directory rt (text_of bytes)) (str "data").
Definition importing_of (rt bytes : list Z) : list Z :=
  join_path (content_directory rt (text_of bytes)) (str "data.importing").
Definition manifest_of (rt bytes : list Z) : list Z :=
  join_path (content_directory rt (text_of bytes)) (str "manifest.postcard").

(** The row an import writes. *)
Definition imported_row (bytes : list Z) (shared : bool) (now : Z) : ContentRow :=
  mkContentRow (len bytes) (len (honest_chunks bytes)) (spelled (text_of bytes) (str "data"))
    (spelled (text_of bytes) (str "manifest.postcard")) (if shared then 1 else 0) 1 (str "ok") now.

Lemma text_of_ok bytes :
  text_of bytes <> [] /\ Forall hex_digit (text_of bytes) /\ canonical_id (text_of bytes) = true.
Proof. apply id_text. split; [apply blake3_len|apply blake3_bytes]. Qed.

Lemma plain_data : plain (str "data").
Proof. split; [done|]. repeat (constructor; [done|]). constructor. Qed.
Lemma plain_manifest : plain (str "manifest.postcard").
Proof. split; [done|]. repeat (constructor; [done|]). constructor. Qed.

Lemma content_row_honest rt bytes shared now :
  len bytes <= MAX_CONTENT_LENGTH ->
  content_row rt (data_of rt bytes) (manifest_of rt bytes) (honest_manifest bytes) shared now
  = Ok (imported_row bytes shared now).
Proof.
  intros Hlen. destruct (text_of_ok bytes) as (Hne & Hd & _). unfold content_row, to_i64, data_of, manifest_of.
  pose proof (div_ceil_chunk_bound (len bytes) ltac:(len_lia)). cbn [honest_manifest m_length m_chunks].
  rewrite len_map, len_honest_chunks. unfold MAX_CONTENT_LENGTH, MAX_MANIFEST_CHUNKS in *.
  rewrite (proj2 (try_from_Some I64_MAX (len bytes) (len bytes))) by (unfold I64_MAX; len_lia).
  rewrite (proj2 (try_from_Some I64_MAX (div_ceil (len bytes) CHUNK_SIZE) (div_ceil (len bytes) CHUNK_SIZE))) by (unfold I64_MAX; len_lia).
  cbn [ok_or]. unfold mbind, result_bind.
  rewrite (proj1 (index_path rt _ _ Hne Hd plain_data)), (proj1 (index_path rt _ _ Hne Hd plain_manifest)).
  unfold imported_row. by rewrite len_honest_chunks.
Qed.

(** A copy written with its own manifest passes the verification. *)
Lemma honest_intact fs rt bytes :
  len bytes <= MAX_CONTENT_LENGTH ->
  fs !! data_of rt bytes = Some bytes -> fs !! manifest_of rt bytes = Some (encode_manifest (honest_manifest bytes)) ->
  intact fs (data_of rt bytes) (manifest_of rt bytes) (text_of bytes).
Proof.
  intros Hlen Hd Hm. do 2 eexists. split_and!; [exact Hd|exact Hm|]. apply stored_verdict_None.
  exists (honest_manifest bytes), (honest_manifest bytes), (honest_chunks bytes), bytes.
  rewrite decode_encode_manifest, from_bytes_accepts, honest_reconstruct by done. done.
Qed.

Lemma imported_record rt bytes shared now :
  len bytes <= MAX_CONTENT_LENGTH ->
  content_from_row rt (text_of bytes) (imported_row bytes shared now)
  = Ok (mkContentRecord (text_of bytes) [mkIdentity (str "triptorrent") (text_of bytes) (str "verified")]
          (len bytes) (len (honest_chunks bytes)) (data_of rt bytes) shared false true (str "ok")).
Proof.
  intros Hlen. destruct (text_of_ok bytes) as (Hne & Hd & Hc). unfold content_from_row. rewrite Hc. cbn [negb].
  pose proof (div_ceil_chunk_bound (len bytes) ltac:(len_lia)). rewrite len_honest_chunks.
  unfold MAX_CONTENT_LENGTH, MAX_MANIFEST_CHUNKS in *.
  cbn [imported_row ct_length ct_chunk_count ct_data_path ct_shared ct_complete ct_integrity].
  rewrite (proj2 (try_from_Some U64_MAX (len bytes) (len bytes))) by (unfold U64_MAX; len_lia).
  rewrite len_honest_chunks.
  rewrite (proj2 (try_from_Some USIZE_MAX (div_ceil (len bytes) CHUNK_SIZE) (div_ceil (len bytes) CHUNK_SIZE))) by (unfold USIZE_MAX, U64_MAX; len_lia).
  cbn [ok_or]. unfold mbind, result_bind. rewrite (proj2 (index_path rt _ _ Hne Hd plain_data)). cbn [ok_or].
  by destruct shared.
Qed.

Lemma get_content_cases k s s' r :
  get_content k s = (s', r) ->
  same_files s s' /\ db s' = db s
  /\ ((exists e, r = Err e)
      \/ (r = Ok None /\ bt_get k (content (db s)) = None)
      \/ exists row rec, r = Ok (Some rec) /\ bt_get k (content (db s)) = Some row
                         /\ content_from_row (root s) k row = Ok rec).
Proof using Type.
  unfold get_content. intros Hg. apply st_bind_inv in Hg as [(s1 & rt & Hr & Hg)|(e & Hr & ->)]; [|done].
  injection Hr as <- <-. apply query_cases in Hg as (Hs & Hd & [->|He]); (split; [done|]); (split; [done|]); [|eauto].
  destruct (bt_get k (content (db s))) as [row|] eqn:Eg; [|by eauto].
  destruct (content_from_row (root s) k row) as [rec|e] eqn:Ec; cbn; [right; right|]; eauto 7.
Qed.

(** The paths of the directory, and that writing them leaves all others alone. *)
Lemma managed_names rt bytes :
  let dir := content_directory rt (text_of bytes) in
  data_of rt bytes = dir ++ 47 :: str "data" /\ importing_of rt bytes = dir ++ 47 :: str "data.importing"
  /\ manifest_of rt bytes = dir ++ 47 :: str "manifest.postcard".
Proof.
  destruct (text_of_ok bytes) as (Hne & Hdig & _). cbv zeta.
  split_and!; exact (proj2 (managed_file rt _ _ Hne Hdig)).
Qed.

Lemma managed_distinct rt bytes :
  importing_of rt bytes <> data_of rt bytes /\ manifest_of rt bytes <> data_of rt bytes.
Proof.
  destruct (managed_names rt bytes) as (-> & -> & ->). split; intros [=]%app_inv_head.
Qed.

Lemma managed_frames rt bytes p data encoded :
  below (content_directory rt (text_of bytes)) p = false ->
  frames p sync /\ frames p (fs_write (importing_of rt bytes) data) /\ frames p (fs_read (importing_of rt bytes))
  /\ frames p (replace_file (importing_of rt bytes) (data_of rt bytes))
  /\ frames p (fs_write (manifest_of rt bytes) encoded).
Proof.
  intros Hp. destruct (managed_names rt bytes) as (-> & -> & ->).
  split_and!; [by apply frames_primitive|apply frames_write; by apply below_ne|apply frames_read
    |apply frames_replace; by apply below_ne|apply frames_write; by apply below_ne].
Qed.

(** A step of a run on files below [dir]: it ends the run with an error, or goes on. *)
Lemma disk_step {A B} dir message (c : io A) (f : A -> sio B) s0 s s' r :
  (forall p, below dir p = false -> frames p c) ->
  outside dir s0 s /\ db s = db s0 ->
  (on_disk message c ≫= f) s = (s', r) ->
  (outside dir s0 s' /\ db s' = db s0 /\ is_ok r = false)
  \/ exists s1 a, c (disk s) = (disk s1, Ok a) /\ (outside dir s0 s1 /\ db s1 = db s0) /\ f a s1 = (s', r).
Proof using Type.
  intros Hc [Ho Hd] Hrun. apply st_bind_inv in Hrun as [(s1 & a & Hs & Hrun)|(e & Hs & ->)];
    destruct (on_disk_outside dir _ _ _ _ _ Hc Hs) as [Ho1 Hd1].
  - right. exists s1, a. apply on_disk_Ok in Hs as (Hs & _). split_and!; try done; [by etransitivity|congruence].
  - left. split_and!; [by etransitivity|congruence|done].
Qed.

(** Writing the managed copy and its manifest, with any continuation. *)
Lemma copy_phase {A} rt bytes (k : sio A) s s' r :
  len bytes <= MAX_CONTENT_LENGTH ->
  (_ ← on_disk (str "create_dir_all") sync;
   _ ← on_disk (str "write") (fs_write (importing_of rt bytes) bytes);
   copy ← on_disk (str "read") (fs_read (importing_of rt bytes));
   if negb (bool_decide (ContentId_digest copy = ContentId_digest bytes))
   then throw (str "managed copy failed content-ID verification")
   else
     _ ← on_disk (str "rename") (replace_file (importing_of rt bytes) (data_of rt bytes));
     _ ← on_disk (str "write") (fs_write (manifest_of rt bytes) (encode_manifest (honest_manifest bytes)));
     k) s = (s', r) ->
  let dir := content_directory rt (text_of bytes) in
  (outside dir s s' /\ db s' = db s /\ is_ok r = false)
  \/ exists s1, (outside dir s s1 /\ db s1 = db s) /\ k s1 = (s', r)
       /\ intact (files (disk s1)) (data_of rt bytes) (manifest_of rt bytes) (text_of bytes).
Proof.
  intros Hlen Hrun dir. revert Hrun. pose proof (fun p => managed_frames rt bytes p bytes (encode_manifest (honest_manifest bytes))) as F.
  intros Hrun.
  apply (disk_step dir _ _ _ s) in Hrun as [?|(s1 & [] & _ & P1 & Hrun)]; [by left| |by intros p (?&_)%F|done].
  apply (disk_step dir _ _ _ s) in Hrun as [?|(s2 & [] & E2 & P2 & Hrun)]; [by left| |by intros p (_&?&_)%F|done].
  apply (disk_step dir _ _ _ s) in Hrun as [?|(s3 & copy & E3 & P3 & Hrun)]; [by left| |by intros p (_&_&?&_)%F|done].
  apply primitive_Ok in E2. injection E2 as E2. apply fs_read_Ok in E3 as [W3 C3].
  assert (copy = bytes) as ->. { rewrite <- E2, lookup_insert_eq in C3. congruence. }
  rewrite bool_decide_eq_true_2 in Hrun by done. cbn [negb] in Hrun.
  apply (disk_step dir _ _ _ s) in Hrun as [?|(s4 & [] & E4 & P4 & Hrun)]; [by left| |by intros p (_&_&_&?&_)%F|done].
  apply (disk_step dir _ _ _ s) in Hrun as [?|(s5 & [] & E5 & P5 & Hrun)]; [by left| |by intros p (_&_&_&_&?)%F|done].
  right. exists s5. split_and!; try apply P5; [done|].
  apply primitive_Ok in E5. injection E5 as E5. destruct (managed_distinct rt bytes) as [Hneq Hneq'].
  destruct (replace_file_cases _ _ _ _ _ bytes Hneq ltac:(by rewrite W3) E4) as [_ [(_ & Hd & _)|[(? & _)|(? & _)]]]; [|done..].
  apply honest_intact; [done| |]; rewrite <- E5; [by rewrite lookup_insert_ne|by rewrite lookup_insert_eq].
Qed.

(** The record of an imported row. *)
Definition imported_content (rt bytes : list Z) (shared : bool) : ContentRecord :=
  mkContentRecord (text_of bytes) [mkIdentity (str "triptorrent") (text_of bytes) (str "verified")]
    (len bytes) (len (honest_chunks bytes)) (data_of rt bytes) shared false true (str "ok").

(** Reading an indexed row back. *)
Lemma read_back bytes shared now message s s' r :
  len bytes <= MAX_CONTENT_LENGTH ->
  bt_get (text_of bytes) (content (db s)) = Some (imported_row bytes shared now) ->
  (found ← get_content (text_of bytes); lift (ok_or found message)) s = (s', r) ->
  same_files s s' /\ db s' = db s /\ forall rec, r = Ok rec -> rec = imported_content (root s) bytes shared.
Proof.
  intros Hlen Hrow Hrun. apply st_bind_inv in Hrun as [(s1 & found & Hg & Hrun)|(e & Hg & ->)];
    apply get_content_cases in Hg as (Hs & Hd & Hg); [|by split_and!].
  injection Hrun as <- <-. split_and!; [done|done|]. intros rec Hrec%ok_or_Ok.
  destruct Hg as [[e ?]|[[? _]|(row & rec' & [= ->] & Hg & Hr)]]; [done|simplify_eq|].
  rewrite Hrow in Hg. injection Hg as <-. rewrite imported_record in Hr by done. injection Hr as <-.
  by injection Hrec as <-.
Qed.

(** Indexing the row of a verified copy. *)
Lemma index_phase rt bytes shared now s s' r :
  rt = root s -> len bytes <= MAX_CONTENT_LENGTH ->
  (row ← lift (content_row rt (data_of rt bytes) (manifest_of rt bytes) (honest_manifest bytes) shared now);
   _ ← insert_content (text_of bytes) row;
   found ← get_content (text_of bytes);
   lift (ok_or found (str "new content was not indexed"))) s = (s', r) ->
  same_files s s'
  /\ ((db s' = db s /\ is_ok r = false)
      \/ (bt_get (text_of bytes) (content (db s)) = None
          /\ db s' = set_content (bt_insert (text_of bytes) (imported_row bytes shared now)) (db s)
          /\ forall rec, r = Ok rec -> rec = imported_content rt bytes shared)).
Proof.
  intros -> Hlen Hrun. rewrite content_row_honest in Hrun by done.
  apply st_bind_inv in Hrun as [(s1 & row & Hl & Hrun)|(e & Hl & ->)]; [|done]. injection Hl as <- <-.
  apply st_bind_inv in Hrun as [(s2 & [] & Hi & Hrun)|(e & Hi & ->)].
  2:{ apply execute_cases in Hi as [Hs [Hi|[Hd _]]]; (split; [done|left]); [|done].
      destruct (bt_contains _ _); [|done]. by injection Hi as <-. }
  apply execute_Ok in Hi as [Hs Hi]. destruct (bt_contains _ _) eqn:Ec; [done|]. apply bt_contains_false in Ec.
  injection Hi as Hi. pose proof Hs as [Hr Hf].
  apply (read_back bytes shared now) in Hrun as (Hs' & Hd & Hrec); [|done|].
  - split; [by eapply same_files_trans|right]. rewrite Hr in Hrec. split_and!; [done|congruence|done].
  - rewrite <- Hi. apply bt_get_insert_eq.
Qed.

Lemma content_exists_cases k s s' r :
  content_exists k s = (s', r) ->
  same_files s s' /\ db s' = db s /\ (r = Ok false -> bt_get k (content (db s)) = None).
Proof using Type.
  unfold content_exists. intros Hc. apply st_bind_inv in Hc as [(s1 & found & Hg & Hc)|(e & Hg & ->)];
    apply get_content_cases in Hg as (Hs & Hd & Hg); [|by split_and!].
  injection Hc as <- <-. split_and!; [done|done|]. destruct Hg as [[e ?]|[[_ ?]|(row & rec & [= ->] & _)]]; [done|done|].
  intros [=]%Ok_inj.
Qed.

(** Without failures every step goes through. *)
Lemma on_disk_calm {A B} message (c : io A) (f : A -> sio B) rt d fs fs' a :
  c (mkWorld fs []) = (mkWorld fs' [], Ok a) ->
  (on_disk message c ≫= f) (mkStore rt d (mkWorld fs [])) = f a (mkStore rt d (mkWorld fs' [])).
Proof using Type. intros Hc. apply st_bind_Ok. unfold on_disk. cbn [disk root db]. by rewrite Hc. Qed.

Lemma sio_bind_Ok {A B} (c : sio A) (f : A -> sio B) s s1 a : c s = (s1, Ok a) -> (c ≫= f) s = f a s1.
Proof using Type. apply st_bind_Ok. Qed.

Lemma get_content_calm rt d fs k :
  get_content k (mkStore rt d (mkWorld fs []))
  = (mkStore rt d (mkWorld fs []), match bt_get k (content d) with
                                   | None => Ok None
                                   | Some row => Some <$> content_from_row rt k row
                                   end).
Proof using Type. done. Qed.

Lemma content_exists_calm rt d fs k :
  bt_get k (content d) = None ->
  content_exists k (mkStore rt d (mkWorld fs [])) = (mkStore rt d (mkWorld fs []), Ok false).
Proof using Type.
  intros Hk. unfold content_exists. rewrite (sio_bind_Ok _ _ _ (mkStore rt d (mkWorld fs [])) None); [done|].
  by rewrite get_content_calm, Hk.
Qed.

Lemma import_calm s bytes source shared now :
  faults (disk s) = [] -> files (disk s) !! source = Some bytes -> len bytes <= MAX_CONTENT_LENGTH ->
  bt_get (text_of bytes) (content (db s)) = None ->
  is_ok (add_content source shared now s).2 = true.
Proof.
  intros Hf Hsrc Hlen Hnew. destruct s as [rt d [fs fl]]. cbn [disk files faults db] in *. subst fl.
  destruct (managed_distinct rt bytes) as [Hd1 Hd2]. unfold add_content.
  rewrite (on_disk_calm _ _ _ _ _ _ fs bytes) by (rewrite fs_read_calm by done; cbn [files]; by rewrite Hsrc).
  rewrite from_bytes_accepts by done. cbn [map_err]. erewrite st_bind_Ok by reflexivity. lazy beta iota.
  change (ContentId_to_string (m_content_id (honest_manifest bytes))) with (text_of bytes).
  rewrite (sio_bind_Ok _ _ _ _ _ (content_exists_calm rt d fs _ Hnew)). erewrite (sio_bind_Ok get_root) by reflexivity. cbn [root].
  rewrite (on_disk_calm _ _ _ _ _ _ fs tt) by done.
  fold (importing_of rt bytes) (data_of rt bytes) (manifest_of rt bytes).
  rewrite (on_disk_calm _ _ _ _ _ _ (<[importing_of rt bytes := bytes]> fs) tt) by done.
  rewrite (on_disk_calm _ _ _ _ _ _ (<[importing_of rt bytes := bytes]> fs) bytes)
    by (rewrite fs_read_calm by done; cbn [files]; by rewrite lookup_insert_eq).
  rewrite bool_decide_eq_true_2 by done. cbn [negb].
  set (fs2 := <[data_of rt bytes := bytes]> (delete (importing_of rt bytes) (<[importing_of rt bytes := bytes]> fs))).
  rewrite (on_disk_calm _ _ _ _ _ _ fs2 tt).
  2:{ unfold replace_file, fs_rename, primitive. cbn [faults files]. by rewrite lookup_insert_eq. }
  rewrite (on_disk_calm _ _ _ _ _ _ (<[manifest_of rt bytes := encode_manifest (honest_manifest bytes)]> fs2) tt) by done.
  rewrite content_row_honest by done. erewrite st_bind_Ok by reflexivity.
  erewrite sio_bind_Ok; cycle 1.
  { unfold insert_content, execute. cbn [disk faults files db root]. rewrite (proj2 (bt_contains_false _ _) Hnew). reflexivity. }
  erewrite sio_bind_Ok; cycle 1.
  { rewrite get_content_calm. cbn [set_content content]. rewrite bt_get_insert_eq, imported_record by done. reflexivity. }
  done.
Qed.

(** C31: an import and its copy.  Without the source nothing happens.  With it only the
    files below the directory of its identifier change, and whatever fails, the index is
    either as before, with an error returned, or has exactly one new row, whose copy
    and manifest then pass the verification of [verify_stored_content]; a returned record
    describes that copy.  Content that is already indexed is refused; the import succeeds
    when no file operation and no statement fails. *)
Theorem import_contract (s s' : Store) (source : list Z) (shared : bool) (now : Z) (r : result (list Z) ContentRecord) :
  add_content source shared now s = (s', r) ->
  match files (disk s) !! source with
  | None => same_files s s' /\ db s' = db s /\ is_ok r = false
  | Some bytes =>
      outside (content_directory (root s) (text_of bytes)) s s'
      /\ ((db s' = db s /\ is_ok r = false)
          \/ (len bytes <= MAX_CONTENT_LENGTH
              /\ bt_get (text_of bytes) (content (db s)) = None
              /\ db s' = set_content (bt_insert (text_of bytes) (imported_row bytes shared now)) (db s)
              /\ intact (files (disk s')) (data_of (root s) bytes) (manifest_of (root s) bytes) (text_of bytes)
              /\ forall rec, r = Ok rec -> rec = imported_content (root s) bytes shared))
      /\ (faults (disk s) = [] -> len bytes <= MAX_CONTENT_LENGTH ->
          bt_get (text_of bytes) (content (db s)) = None -> is_ok r = true)
  end.
Proof.
  destruct (files (disk s) !! source) as [bytes|] eqn:Hsrc; intros Hrun.
  - apply (proj1 (Logic.and_assoc _ _ _)). split; [|intros Hf Hlen Hnew; by rewrite <- (import_calm _ _ source shared now Hf Hsrc Hlen Hnew), Hrun].
    apply (disk_step (content_directory (root s) (text_of bytes)) _ _ _ s) in Hrun
      as [(? & ? & ?)|(s1 & copy & Hc & [Ho Hd] & Hrun)]; [by eauto| |intros; apply frames_read|done].
    apply fs_read_Ok in Hc as [_ Hc]. assert (copy = bytes) as -> by congruence.
    destruct (Manifest_from_bytes bytes) as [[m cs]|e] eqn:Em; cbn [map_err] in Hrun.
    2:{ injection Hrun as <- <-. by eauto. }
    apply from_bytes_Ok in Em as (Hlen & -> & ->). erewrite st_bind_Ok in Hrun by reflexivity. lazy beta iota in Hrun.
    change (ContentId_to_string (m_content_id (honest_manifest bytes))) with (text_of bytes) in Hrun.
    apply st_bind_inv in Hrun as [(s2 & there & He & Hrun)|(e & He & ->)];
      apply content_exists_cases in He as (Hs2 & Hd2 & He).
    2:{ split; [etransitivity; [exact Ho|]; by apply same_outside|]. left. split; [congruence|done]. }
    assert (outside (content_directory (root s) (text_of bytes)) s s2) as Ho2.
    { etransitivity; [exact Ho|]. by apply same_outside. }
    destruct there. { injection Hrun as <- <-. split; [done|]. left. split; [congruence|done]. }
    apply st_bind_inv in Hrun as [(s3 & rt & Hg & Hrun)|(e & Hg & ->)]; [|done]. injection Hg as <- <-.
    assert (root s2 = root s) as Hroot by apply Ho2. rewrite Hroot in Hrun.
    apply copy_phase in Hrun as [(Ho3 & Hd3 & Hr)|(s3 & [Ho3 Hd3] & Hrun & Hin)]; [..|done].
    { split; [by etransitivity|]. left. split; [congruence|done]. }
    apply index_phase in Hrun as ([Hr4 Hf4] & Hor); [|destruct Ho3; congruence|done].
    assert (db s3 = db s) as Hd03 by congruence. rewrite Hd03 in Hor.
    split. { etransitivity; [exact Ho2|]. etransitivity; [exact Ho3|]. by apply same_outside. }
    destruct Hor as [?|(Hn & Hdb & Hrec)]; [by left|right]. rewrite Hf4. by split_and!.
  - apply st_bind_inv in Hrun as [(s1 & a & Hc & Hrun)|(e & Hc & ->)].
    + apply on_disk_Ok in Hc as (Hc%fs_read_Ok & _). destruct Hc; congruence.
    + apply on_disk_cases in Hc as (r' & Hc%fs_read_files & _ & Hr & Hd). by split_and!.
Qed.

(** ** Finished downloads *)

(** The row written for a finished download: the creation time of an old row stays. *)
Definition downloaded_row (d : Database) (bytes : list Z) (shared : bool) (now : Z) : ContentRow :=
  match bt_get (text_of bytes) (content d) with
  | Some old => imported_row bytes shared (ct_created_at old)
  | None => imported_row bytes shared now
  end.

Lemma upsert_cases k row s s' r :
  upsert_content k row s = (s', r) ->
  same_files s s'
  /\ ((db s' = db s /\ is_ok r = false)
      \/ (r = Ok tt /\ db s' = set_content (bt_insert k (match bt_get k (content (db s)) with
            | Some old => mkContentRow (ct_length row) (ct_chunk_count row) (ct_data_path row)
                            (ct_manifest_path row) (ct_shared row) 1 (str "ok") (ct_created_at old)
            | None => row end)) (db s))).
Proof using Type.
  intros [Hs [Hu|[Hd [e ->]]]]%execute_cases; (split; [done|]); [right|by left]. by injection Hu as <- <-.
Qed.

(** A finished download is indexed only when its bytes hash to the requested identifier;
    then its copy is intact. *)
Lemma complete_download_cases (content_id : ContentId) shared now s s' r :
  id_ok content_id -> complete_download content_id shared now s = (s', r) ->
  outside (content_directory (root s) (ContentId_to_string content_id)) s s'
  /\ ((db s' = db s /\ is_ok r = false)
      \/ exists bytes, content_id = ContentId_digest bytes /\ len bytes <= MAX_CONTENT_LENGTH
           /\ files (disk s) !! data_of (root s) bytes = Some bytes
           /\ intact (files (disk s')) (data_of (root s) bytes) (manifest_of (root s) bytes) (text_of bytes)
           /\ db s' = set_content (bt_insert (text_of bytes) (downloaded_row (db s) bytes shared now)) (db s)
           /\ forall rec, r = Ok rec -> rec = imported_content (root s) bytes shared).
Proof.
  intros Hid Hrun. apply st_bind_inv in Hrun as [(s0 & rt & Hg & Hrun)|(e & Hg & ->)]; [|done]. injection Hg as <- <-.
  set (dir := content_directory (root s) (ContentId_to_string content_id)). revert Hrun. intros Hrun.
  apply (disk_step dir _ _ _ s) in Hrun as [(? & ? & ?)|(s1 & bytes & Hc & P1 & Hrun)];
    [by eauto| |intros; apply frames_read|done].
  apply fs_read_Ok in Hc as [Hw1 Hc].
  destruct (Manifest_from_bytes bytes) as [[m cs]|e] eqn:Em; cbn [map_err] in Hrun; [|by injection Hrun as <- <-; destruct P1; eauto].
  apply from_bytes_Ok in Em as (Hlen & -> & ->). erewrite st_bind_Ok in Hrun by reflexivity. lazy beta iota in Hrun.
  destruct (bool_decide_reflect (m_content_id (honest_manifest bytes) = content_id)) as [Heq|]; cbn [negb] in Hrun;
    [|by injection Hrun as <- <-; destruct P1; eauto].
  cbn [honest_manifest m_content_id] in Heq. subst content_id. fold (text_of bytes) in *.
  fold (data_of (root s) bytes) (manifest_of (root s) bytes) in *.
  apply (disk_step dir _ _ _ s) in Hrun as [(? & ? & ?)|(s2 & [] & Hm & P2 & Hrun)];
    [by eauto| |intros p Hp; by apply (managed_frames (root s) bytes p [] _ Hp)|done].
  destruct P2 as [Ho2 Hd2]. rewrite content_row_honest in Hrun by done.
  apply st_bind_inv in Hrun as [(s2' & row & Hl & Hrun)|(e & Hl & ->)]; [|done]. injection Hl as <- <-.
  apply primitive_Ok in Hm. injection Hm as Hm. destruct (managed_distinct (root s) bytes) as [_ Hne].
  assert (intact (files (disk s2)) (data_of (root s) bytes) (manifest_of (root s) bytes) (text_of bytes)) as Hin.
  { apply honest_intact; [done|..]; rewrite <- Hm, Hw1; [by rewrite lookup_insert_ne|by rewrite lookup_insert_eq]. }
  apply st_bind_inv in Hrun as [(s3 & [] & Hu & Hrun)|(e & Hu & ->)];
    apply upsert_cases in Hu as (Hs3 & [[Hd3 Hok]|[Hok Hd3]]); try done.
  2:{ split; [|left; split; [congruence|done]]. etransitivity; [exact Ho2|]. by apply same_outside. }
  rewrite Hd2 in Hd3.
  assert (db s3 = set_content (bt_insert (text_of bytes) (downloaded_row (db s) bytes shared now)) (db s)) as Hd03.
  { rewrite Hd3. unfold downloaded_row. by destruct (bt_get (text_of bytes) (content (db s))). }
  assert (exists t, downloaded_row (db s) bytes shared now = imported_row bytes shared t) as [t Ht].
  { unfold downloaded_row. destruct (bt_get _ _); eauto. }
  apply (read_back bytes shared t) in Hrun as (Hs4 & Hd4 & Hrec); [|done|rewrite Hd03, Ht; apply bt_get_insert_eq].
  pose proof (same_files_trans _ _ _ Hs3 Hs4) as Hs34. split; [etransitivity; [exact Ho2|]; by apply same_outside|].
  right. exists bytes. destruct Hs34 as [_ ->]. destruct Hs3 as [Hr3 _]. rewrite Hr3, (proj1 Ho2) in Hrec.
  split_and!; try done; congruence.
Qed.
End Importing.

(** ** Removal *)

Section Removal.
Context `{Blake3} `{Hex} `{StoreCodec}.

Lemma remove_dir_all_files (directory : list Z) (fs : gmap (list Z) (list Z)) (p : list Z) :
  filter (fun e : list Z * list Z => below directory e.1 = false) fs !! p
  = if below directory p then None else fs !! p.
Proof using Type.
  destruct (below directory p) eqn:Eb.
  - apply map_lookup_filter_None. right. intros x _ Hx. cbn [fst] in Hx. congruence.
  - destruct (fs !! p) as [x|] eqn:Ex; [by apply map_lookup_filter_Some|]. apply map_lookup_filter_None. by left.
Qed.

Lemma remove_dir_all_cases (directory : list Z) w w' r :
  remove_dir_all directory w = (w', r) ->
  (r = Ok tt /\ files w' = filter (fun e : list Z * list Z => below directory e.1 = false) (files w))
  \/ (is_ok r = false /\ (forall p, below directory p = false -> files w' !! p = files w !! p) /\ faults w <> []).
Proof using Type.
  unfold remove_dir_all, primitive. destruct w as [fs [|[k|] rest]]; cbn [files faults];
    intros [= <- <-]; [by left| |by left]. right. split_and!; [done| |done]. intros p Hp. cbn [files].
  assert (p ∉ take (Z.to_nat k) (List.filter (below directory) (map_to_list fs).*1)) as Hni.
  { intros (i & Hx & _)%elem_of_take. apply list_elem_of_lookup_2, list_elem_of_In, filter_In in Hx as [_ Hx]. congruence. }
  induction (take _ _) as [|q l IH]; [done|]. cbn [foldr]. apply not_elem_of_cons in Hni as [Hne Hni].
  rewrite lookup_delete_ne by done. by apply IH.
Qed.

Lemma dir_exists_cases directory w w' r :
  dir_exists directory w = (w', r) ->
  files w' = files w
  /\ ((r = Ok false /\ (faults w = [] -> forall p, below directory p = true -> files w !! p = None))
      \/ r = Ok true) /\ (faults w = [] -> faults w' = []).
Proof using Type.
  assert (forall fs : gmap (list Z) (list Z), any (fun e => below directory e.1) (map_to_list fs) = false ->
    forall p, below directory p = true -> fs !! p = None) as Hany.
  { intros fs Ha p Hp. destruct (fs !! p) as [x|] eqn:Ex; [|done]. exfalso.
    apply elem_of_map_to_list in Ex. apply not_true_iff_false in Ha. apply Ha, any_true, Exists_exists. by exists (p, x). }
  unfold dir_exists. destruct w as [fs [|[k|] rest]]; cbn [files faults]; intros [= <- <-]; (split; [done|]);
    (split; [|done]).
  - destruct (any _ _) eqn:E; [by right|left]. eauto.
  - by left.
  - destruct (any _ _) eqn:E; [by right|left]. by split.
Qed.

Lemma get_content_faults k s s' r : get_content k s = (s', r) -> faults (disk s) = [] -> faults (disk s') = [].
Proof using Type.
  intros Hg. apply st_bind_inv in Hg as [(s1 & rt & Hr & Hg)|(e & Hr & ->)]; [|done]. injection Hr as <- <-.
  by eapply faults_calm.
Qed.

(** The deletion of the managed files. *)
Lemma remove_files_cases directory (delete_bytes : bool) s s' r :
  (if delete_bytes then
     there ← on_disk [] (dir_exists directory);
     if (there : bool) then on_disk (str "remove_dir_all") (remove_dir_all directory) else mret tt
   else mret tt : sio unit) s = (s', r) ->
  db s' = db s /\ outside directory s s' /\ (delete_bytes = false -> same_files s s')
  /\ (faults (disk s) = [] -> r = Ok tt
      /\ (delete_bytes = true -> forall p, below directory p = true -> files (disk s') !! p = None)).
Proof using Type.
  destruct delete_bytes; intros Hrun; [|by injection Hrun as <- <-].
  apply st_bind_inv in Hrun as [(s1 & there & He & Hrun)|(e & He & ->)];
    apply on_disk_cases in He as (r1 & He & Hr1 & Hroot & Hdb);
    apply dir_exists_cases in He as (Hf & Hor & Hcalm).
  2:{ destruct Hor as [[-> _]| ->]; done. }
  destruct there.
  - apply on_disk_cases in Hrun as (r2 & Hx & -> & Hroot2 & Hdb2).
    apply remove_dir_all_cases in Hx as [[-> Hx]|(Hok & Hx & Hfault)]; rewrite Hf in Hx;
      (split; [congruence|]); (split; [split; [congruence|]; intros p Hp; rewrite Hx|]); try done.
    + by rewrite remove_dir_all_files, Hp.
    + split; [done|]. intros _. split; [done|]. intros _ p Hp. by rewrite Hx, remove_dir_all_files, Hp.
    + split; [done|]. intros Hcf. exfalso. auto.
  - injection Hrun as <- <-. split; [done|]. split; [split; [done|]; intros p _; by rewrite Hf|].
    split; [done|]. intros Hcf. split; [done|]. rewrite Hf.
    destruct Hor as [[-> Hnone]| ->]; [auto|]. discriminate.
Qed.

(** C32: a removal.  A text that is no identifier is refused and nothing changes.  Otherwise
    only files below the directory of that content can change, and none of them when the
    bytes are kept.  Either the index is as before, no file has changed and an error is
    returned, or exactly the row of that content is gone from it, and then, when
    nothing failed and the bytes were to be deleted, so is every file of its directory. *)
Theorem removal_contract (s s' : Store) (text : list Z) (delete_bytes : bool) (r : result (list Z) unit) :
  remove_content text delete_bytes s = (s', r) ->
  match ContentId_from_str text with
  | Err _ => s' = s /\ is_ok r = false
  | Ok parsed =>
      let id := ContentId_to_string parsed in
      let directory := content_directory (root s) id in
      outside directory s s'
      /\ (delete_bytes = false -> same_files s s')
      /\ ((db s' = db s /\ same_files s s' /\ is_ok r = false)
          \/ (is_Some (bt_get id (content (db s)))
              /\ db s' = set_content (bt_remove id) (db s)
              /\ (faults (disk s) = [] -> r = Ok tt
                  /\ (delete_bytes = true -> forall p, below directory p = true -> files (disk s') !! p = None))))
  end.
Proof using Type.
  unfold remove_content. destruct (ContentId_from_str text) as [parsed|e]; cbn [map_err]; intros Hrun.
  2:{ by injection Hrun as <- <-. }
  erewrite st_bind_Ok in Hrun by reflexivity. lazy zeta in Hrun |- *. set (id := ContentId_to_string parsed) in *.
  apply st_bind_inv in Hrun as [(s1 & found & Hg & Hrun)|(e & Hg & ->)].
  2:{ apply get_content_cases in Hg as (Hs & Hd & _). split_and!; [by apply same_outside|done|by left]. }
  pose proof (get_content_faults _ _ _ _ Hg) as Hcalm1. apply get_content_cases in Hg as (Hs1 & Hd1 & Hg).
  destruct Hg as [[e ?]|[[[= ->] _]|(row & rec & [= ->] & Hg & _)]]; [done|..].
  { injection Hrun as <- <-. split_and!; [by apply same_outside|done|by left]. }
  rewrite bool_decide_eq_true_2 in Hrun by done. cbn [negb] in Hrun.
  apply st_bind_inv in Hrun as [(s2 & [] & Hx & Hrun)|(e & Hx & ->)].
  2:{ apply execute_cases in Hx as (Hs2 & [[=]|[Hd2 _]]). pose proof (same_files_trans _ _ _ Hs1 Hs2).
      split_and!; [by apply same_outside|done|left]. split_and!; [congruence|done|done]. }
  pose proof (faults_calm _ _ _ _ Hx) as Hcalm2. apply execute_Ok in Hx as (Hs2 & Hx). injection Hx as Hx.
  pose proof (same_files_trans _ _ _ Hs1 Hs2) as Hs. rewrite Hd1 in Hx.
  apply st_bind_inv in Hrun as [(s2' & rt & Hr & Hrun)|(e & Hr & ->)]; [|done]. injection Hr as <- <-.
  destruct (remove_files_cases _ _ _ _ _ Hrun) as (Hdb & Ho & Hk & Hgone). rewrite (proj1 Hs) in *.
  split_and!.
  - etransitivity; [by apply same_outside|exact Ho].
  - intros Hf. eapply same_files_trans; [exact Hs|]. by apply Hk.
  - right. split_and!; [eauto|congruence|]. intros Hf. apply Hgone. auto.
Qed.
End Removal.

(** ** Migration *)

(** A database of version 1, before any new column was added. *)
Definition version_1 (d : Database) : Prop := schema d = Some 1 /\ columns d = Some [].

(** An index no version of the node can open again: it still says version 1, but the
    first column of the migration is there already. *)
Definition stuck (d : Database) : Prop :=
  schema d = Some 1 /\ exists present, columns d = Some present /\ str "verified_chunks" ∈ present.

Lemma add_column_Ok name s s' :
  add_column name s = (s', Ok tt) ->
  same_files s s' /\ exists present, columns (db s) = Some present /\ name ∉ present
    /\ db s' = mkDatabase (schema (db s)) (Some (present ++ [name])) (content (db s))
                 (map (set_column name) (transfers (db s))) (sequence (db s)).
Proof.
  intros [Hs Hx]%execute_Ok. split; [done|]. destruct (columns (db s)) as [present|]; [|done].
  case_bool_decide; [done|]. injection Hx as <-. eauto.
Qed.

Lemma add_column_Err name s s' e : add_column name s = (s', Err e) -> same_files s s' /\ db s' = db s.
Proof.
  intros [Hs [Hx|[Hd _]]]%execute_cases; (split; [done|]); [|done].
  destruct (columns (db s)) as [present|]; [case_bool_decide; [|done]|]; by injection Hx.
Qed.

(** The columns that were added, when the additions stop early. *)
Lemma add_columns_cases names : forall s s' r present,
  columns (db s) = Some present -> add_columns names s = (s', r) ->
  same_files s s' /\ schema (db s') = schema (db s) /\ content (db s') = content (db s)
  /\ exists added, added `prefix_of` names /\ columns (db s') = Some (present ++ added)
     /\ transfers (db s') = foldl (fun l name => map (set_column name) l) (transfers (db s)) added
     /\ (added = [] -> db s' = db s) /\ (r = Ok tt -> added = names).
Proof.
  induction names as [|name names IH]; intros s s' r present Hc Hrun; cbn [add_columns] in Hrun.
  { injection Hrun as <- <-. split_and!; try done. exists []. by rewrite app_nil_r. }
  apply st_bind_inv in Hrun as [(s1 & [] & Ha & Hrun)|(e & Ha & ->)].
  - apply add_column_Ok in Ha as (Hs & present' & Hc' & _ & Hd). assert (present' = present) as -> by congruence.
    destruct (IH s1 s' r (present ++ [name])) as (Hs' & Hsc & Hct & added & Hp & Hcol & Ht & _ & Hall); [by rewrite Hd|done|].
    rewrite Hd in Hsc, Hct, Ht. split_and!; [by eapply same_files_trans|done|done|]. exists (name :: added). split_and!.
    + by apply prefix_cons.
    + by rewrite Hcol, <- app_assoc.
    + done.
    + done.
    + intros Hr. by rewrite Hall.
  - apply add_column_Err in Ha as [Hs ->]. split_and!; try done. exists []. rewrite app_nil_r.
    split_and!; try done. apply prefix_nil.
Qed.

(** The first statements of [open_index] leave an index of version 1 as it is. *)
Lemma open_index_version_1 s s' r present :
  schema (db s) = Some 1 -> columns (db s) = Some present -> open_index s = (s', r) ->
  (same_files s s' /\ db s' = db s /\ is_ok r = false)
  \/ exists s1, same_files s s1 /\ db s1 = db s
     /\ (_ ← add_columns new_columns;
         execute (fun d => (mkDatabase (Some 2) (columns d) (content d) (transfers d) (sequence d), Ok tt))) s1 = (s', r).
Proof.
  assert (forall f s0 s0' r0, f (db s0) = db s0 ->
    execute (fun d => (f d, Ok tt)) s0 = (s0', r0) -> same_files s0 s0' /\ db s0' = db s0) as Hid.
  { intros f s0 s0' r0 Hf [Hs [Hx|[Hd _]]]%execute_cases; (split; [done|]); [|done].
    injection Hx as Hx _. by rewrite <- Hx, Hf. }
  intros Hsc Hcol Hrun. unfold open_index in Hrun.
  apply st_bind_inv in Hrun as [(s1 & [] & Hx & Hrun)|(e & Hx & ->)];
    (apply Hid in Hx as [Hs1 Hd1]; [|rewrite Hsc; destruct (db s); simplify_eq/=; done]); [|by left].
  rewrite <- Hd1 in Hcol.
  apply st_bind_inv in Hrun as [(s2 & [] & Hx & Hrun)|(e & Hx & ->)];
    (apply Hid in Hx as [Hs2 Hd2]; [|rewrite Hcol; destruct (db s1); simplify_eq/=; done]).
  2:{ left. split_and!; [by eapply same_files_trans|congruence|done]. }
  pose proof (same_files_trans _ _ _ Hs1 Hs2) as Hs12. assert (db s2 = db s) as Hd12 by congruence.
  apply st_bind_inv in Hrun as [(s3 & version & Hq & Hrun)|(e & Hq & ->)];
    apply query_cases in Hq as (Hs3 & Hd3 & Hv).
  2:{ left. split_and!; [by eapply same_files_trans|congruence|done]. }
  destruct Hv as [Hv|[e ?]]; [|done]. apply Ok_inj in Hv. rewrite Hd12, Hsc in Hv. cbn [default] in Hv. subst version.
  right. exists s3. split_and!; [by eapply same_files_trans|congruence|exact Hrun].
Qed.

Lemma open_index_stuck s s' r : stuck (db s) -> open_index s = (s', r) -> is_ok r = false /\ db s' = db s.
Proof.
  intros (Hsc & present & Hcol & Hin) Hrun.
  destruct (open_index_version_1 _ _ _ _ Hsc Hcol Hrun) as [(_ & ? & ?)|(s1 & _ & Hd & Hadd)]; [done|].
  apply st_bind_inv in Hadd as [(s2 & [] & Hx & _)|(e & Hx & ->)]; unfold new_columns in Hx; cbn [add_columns] in Hx;
    apply st_bind_inv in Hx as [(s3 & [] & Ha & Hx)|(e' & Ha & He)]; try done;
    try (apply add_column_Ok in Ha as (_ & p' & Hp & Hn & _); exfalso; apply Hn; congruence).
  apply add_column_Err in Ha as [_ ->]. done.
Qed.

(** C33: opening an index of version 1.  It becomes version 2 with all new columns and
    their defaults; or it fails and leaves the index as it was; or it fails after a
    column was added, and from then on no attempt to open the index succeeds or changes it,
    for the statements of the migration are not one transaction. *)
Theorem migration_outcomes (s s' : Store) (r : result (list Z) unit) :
  version_1 (db s) -> open_index s = (s', r) ->
  same_files s s' /\ content (db s') = content (db s)
  /\ ((r = Ok tt /\ schema (db s') = Some 2 /\ columns (db s') = Some new_columns
       /\ transfers (db s') = foldl (fun l name => map (set_column name) l) (transfers (db s)) new_columns)
      \/ (is_ok r = false /\ db s' = db s)
      \/ (is_ok r = false
          /\ forall w again result', open_index (mkStore (root s') (db s') w) = (again, result') ->
               is_ok result' = false /\ db again = db s')).
Proof.
  intros [Hsc Hcol] Hrun. destruct (open_index_version_1 _ _ _ _ Hsc Hcol Hrun) as [(Hs & Hd & Hr)|(s1 & Hs & Hd & Hadd)].
  { rewrite Hd. split_and!; [done|done|]. right. by left. }
  rewrite <- Hd in Hcol.
  apply st_bind_inv in Hadd as [(s2 & [] & Hx & Hu)|(e & Hx & ->)];
    destruct (add_columns_cases _ _ _ _ _ Hcol Hx) as (Hs2 & Hsc2 & Hct & added & Hp & Hc2 & Ht & Hnil & Hall);
    pose proof (same_files_trans _ _ _ Hs Hs2) as Hs12; rewrite Hd in *.
  - rewrite (Hall eq_refl) in *. apply execute_cases in Hu as [Hs3 [Hu|[Hd3 [e ->]]]];
      (split; [by eapply same_files_trans|]).
    + injection Hu as Hu <-. rewrite <- Hu. cbn [content schema columns transfers]. split; [done|]. by left.
    + rewrite Hd3. split; [done|]. right; right. split; [done|]. intros w again r' Ha. apply open_index_stuck in Ha; [done|].
      split; [cbn [db]; congruence|]. exists new_columns. split; [done|]. left.
  - split_and!; [done|done|]. right. destruct added as [|name added]; [left; by rewrite Hnil|right]. split; [done|].
    intros w again r' Ha. apply open_index_stuck in Ha; [done|]. split; [cbn [db]; congruence|]. exists (name :: added). split; [done|].
    apply prefix_cons_inv_1 in Hp as ->. left.
Qed.

(** ** The properties at concrete inputs *)

Module ToyCodec.
Import ToyPostcard.

#[export] Instance contribution_eq_dec : EqDecision ProviderContribution.
Proof. solve_decision. Defined.
#[export] Instance contribution_countable : Countable ProviderContribution.
Proof.
  refine (inj_countable' (fun c => (provider_id c, pc_verified_chunks c, pc_rejected_requests c))
    (fun '(a, b, c) => mkContribution a b c) _). by intros [].
Defined.

(** A codec of manifests and contributions by their numbers. *)
#[export] Instance toy_codec : StoreCodec := {|
  encode_manifest m := [Z.pos (encode m)];
  decode_manifest l := match l with [Z.pos p] => decode p | _ => None end;
  encode_contributions l := if bool_decide (l = []) then str "[]" else [Z.pos (encode l)];
  decode_contributions l :=
    if bool_decide (l = str "[]") then Some [] else match l with [Z.pos p] => decode p | _ => None end
|}.
#[export] Instance toy_codec_laws : StoreCodecLaws.
Proof.
  split; [intros m; apply decode_encode| |done].
  intros l. cbn [encode_contributions decode_contributions toy_codec]. destruct (bool_decide_reflect (l = [])) as [->|Hl]; [done|].
  rewrite bool_decide_eq_false_2 by done. apply decode_encode.
Qed.
End ToyCodec.
Import Toy ToyPostcard ToyCodec.

Definition sample_root : list Z := str "d".
Definition sample_source : list Z := str "src".
Definition empty_index : Database := mkDatabase (Some 2) (Some new_columns) [] [] 0.
Definition sample_store : Store := mkStore sample_root empty_index (mkWorld {[ sample_source := str "abc" ]} []).

(** The store after the import of a file. *)
Definition imported_store : Store := (add_content sample_source true 7 sample_store).1.

Lemma import_contract_witness :
  intact (files (disk imported_store)) (data_of sample_root (str "abc")) (manifest_of sample_root (str "abc"))
    (text_of (str "abc"))
  /\ is_ok (add_content sample_source true 7 sample_store).2 = true.
Proof.
  unfold imported_store. destruct (add_content sample_source true 7 sample_store) as [s' r] eqn:E. cbn [fst snd].
  pose proof (import_contract sample_store s' sample_source true 7 r E) as Hc.
  change (files (disk sample_store) !! sample_source) with (Some (str "abc")) in Hc. cbv iota in Hc.
  destruct Hc as (_ & Hor & Hok). assert (is_ok r = true) as Hr.
  { apply Hok; [reflexivity|vm_compute; discriminate|reflexivity]. }
  split; [|exact Hr]. destruct Hor as [[_ Hn]|(_ & _ & _ & Hin & _)]; [|exact Hin].
  rewrite Hr in Hn. discriminate Hn.
Defined.

Lemma list_content_truthful_witness :
  exists s' records, list_content imported_store = (s', Ok records) /\ map cr_integrity records = [str "ok"]
    /\ Forall (truthful_record imported_store) records.
Proof.
  destruct (list_content imported_store) as [s' [records|e]] eqn:E.
  - exists s', records. split; [reflexivity|]. split.
    + apply (f_equal snd) in E. vm_compute in E. injection E as <-. reflexivity.
    + refine (proj2 (proj2 (proj2 (list_content_truthful imported_store s' records _ E)))).
      split; [repeat constructor|]. apply List.Forall_cons; [right; vm_compute; reflexivity|constructor].
  - exfalso. apply (f_equal snd) in E. vm_compute in E. discriminate E.
Defined.

(** Removal with the bytes: the managed files are gone, the source stays. *)
Lemma removal_contract_witness :
  let id := text_of (str "abc") in
  let out := remove_content id true imported_store in
  db out.1 = set_content (bt_remove id) (db imported_store)
  /\ files (disk out.1) !! data_of sample_root (str "abc") = None.
Proof.
  cbv zeta. destruct (remove_content (text_of (str "abc")) true imported_store) as [s' r] eqn:E. cbn [fst].
  pose proof (removal_contract imported_store s' (text_of (str "abc")) true r E) as Hc.
  assert (ContentId_from_str (text_of (str "abc")) = Ok (ContentId_digest (str "abc"))) as Hid by (vm_compute; reflexivity).
  rewrite Hid in Hc. cbv zeta in Hc. destruct Hc as (_ & _ & [(_ & _ & Hn)|(_ & Hdb & Hgone)]).
  - exfalso. apply (f_equal (fun x => is_ok x.2)) in E. cbn [snd] in E. rewrite Hn in E. vm_compute in E. discriminate E.
  - split; [exact Hdb|]. apply Hgone; [vm_compute; reflexivity|reflexivity|vm_compute; reflexivity].
Defined.

(** A failure of the third statement of the migration leaves an index that opens no more. *)
Definition old_store (faults : list (option Z)) : Store :=
  mkStore sample_root (mkDatabase (Some 1) (Some []) [] [] 0) (mkWorld ∅ faults).

Lemma migration_outcomes_witness :
  is_ok (open_index (old_store [])).2 = true
  /\ (let s' := (open_index (old_store [None; None; None; None; Some 0])).1 in
      forall w, is_ok (open_index (mkStore (root s') (db s') w)).2 = false).
Proof.
  split; [vm_compute; reflexivity|]. cbv zeta. intros w.
  destruct (open_index (old_store [None; None; None; None; Some 0])) as [s' r] eqn:E. cbn [fst].
  destruct (migration_outcomes (old_store [None; None; None; None; Some 0]) s' r (conj eq_refl eq_refl) E)
    as (_ & _ & [(Hr & _)|[[_ Hd]|[_ Hstuck]]]).
  - exfalso. subst r. apply (f_equal (fun x => is_ok x.2)) in E. vm_compute in E. discriminate E.
  - exfalso. apply (f_equal (fun x => columns (db x.1))) in E. cbn [fst] in E. rewrite Hd in E. vm_compute in E. discriminate E.
  - destruct (open_index (mkStore (root s') (db s') w)) as [again r'] eqn:E'. exact (proj1 (Hstuck _ _ _ E')).
Defined.
