(* ===== verification/ApiRecords.v ===== *)
(** * ApiRecords: the documents and the typed client of the local API
      (crates/triptorrent-node-api)

    The derived [Serialize] and [Deserialize] of the records as functions to and from a
    document: an object has the fields of the struct; a decoder finds a field by its
    name, ignores other fields, refuses a missing one unless it has a default, and refuses
    a number outside the type of the field.  A typed call of the client is the method,
    the target and the body it sends.  Theorems: records survive the trip through their
    documents. *)
From stdpp Require Import base tactics list numbers option.
From Stdlib Require Import ZArith Lia.
Import stdpp.list.
From S2P Require Import Prelude Bytes Text BTree NetAddr Core Json Http NodeStore.

Local Open Scope Z_scope.

(** ** Documents *)

(** [json!] and the derived objects: entries in key order *)
Definition object (entries : list (list Z * Value)) : Value :=
  Object (fold_left (fun m e => bt_insert e.1 e.2 m) entries []).

(** A [PathBuf] that is not UTF-8 has no document. *)
Definition path_value (path : list Z) : result (list Z) Value :=
  if utf8_valid path then Ok (Text path) else Err (str "path contains invalid UTF-8 characters").

Definition addr_text (a : option SocketAddr) : Value :=
  match a with Some a => Text (display_socket_addr a) | None => Null end.

Definition identity_value (i : ContentIdentity) : Value :=
  object [(str "namespace", Text (namespace i)); (str "value", Text (id_value i));
          (str "verification", Text (verification i))].

Definition content_value (c : ContentRecord) : result (list Z) Value :=
  path ← path_value (cr_data_path c);
  Ok (object
    [(str "content_id", Text (cr_content_id c)); (str "identities", Array (map identity_value (cr_identities c)));
     (str "length", Number (cr_length c)); (str "chunk_count", Number (cr_chunk_count c)); (str "data_path", path);
     (str "shared", Bool (cr_shared c)); (str "advertised", Bool (cr_advertised c));
     (str "complete", Bool (cr_complete c)); (str "integrity", Text (cr_integrity c))]).

Definition contribution_value (c : ProviderContribution) : Value :=
  object [(str "provider_id", Text (provider_id c)); (str "verified_chunks", Number (pc_verified_chunks c));
          (str "rejected_requests", Number (pc_rejected_requests c))].

Definition transfer_value (t : TransferRecord) : Value :=
  object
    [(str "id", Number (t_id t)); (str "content_id", Text (t_content_id t)); (str "direction", Text (t_direction t));
     (str "status", Text (t_status t)); (str "bytes_total", Number (t_bytes_total t));
     (str "bytes_transferred", Number (t_bytes_transferred t)); (str "verified_chunks", Number (t_verified_chunks t));
     (str "total_chunks", Number (t_total_chunks t)); (str "current_rate_bps", Number (t_current_rate_bps t));
     (str "provider_count", Number (t_provider_count t)); (str "retry_count", Number (t_retry_count t));
     (str "rejected_chunks", Number (t_rejected_chunks t));
     (str "provider_contributions", Array (map contribution_value (t_provider_contributions t)));
     (str "resumed_chunks", Number (t_resumed_chunks t));
     (str "error", match t_error t with Some e => Text e | None => Null end);
     (str "share_on_complete", Bool (t_share_on_complete t)); (str "network_path", Text (t_network_path t))].

(** ** Decoding *)

Definition as_u64 (v : Value) : option Z := match v with Number n => try_from U64_MAX n | _ => None end.
Definition as_i64 (v : Value) : option Z :=
  match v with Number n => if (- (I64_MAX + 1) <=? n) && (n <=? I64_MAX) then Some n else None | _ => None end.
Definition as_bool (v : Value) : option bool := match v with Bool b => Some b | _ => None end.
Definition as_list {A} (decode : Value -> option A) (v : Value) : option (list A) :=
  match v with Array l => mapM decode l | _ => None end.
Definition as_option {A} (decode : Value -> option A) (v : Value) : option (option A) :=
  match v with Null => Some None | v => Some <$> decode v end.

(** A required field, and one with [#[serde(default)]] *)
Definition required {A} (name : list Z) (decode : Value -> option A) (v : Value) : option A :=
  x ← field name v; decode x.
Definition or_default {A} (name : list Z) (decode : Value -> option A) (dflt : A) (v : Value) : option A :=
  match field name v with Some x => decode x | None => Some dflt end.

Definition value_identity (v : Value) : option ContentIdentity :=
  ns ← required (str "namespace") as_str v;
  value ← required (str "value") as_str v;
  verif ← required (str "verification") as_str v;
  Some (mkIdentity ns value verif).

Definition value_content (v : Value) : option ContentRecord :=
  id ← required (str "content_id") as_str v;
  identities ← or_default (str "identities") (as_list value_identity) [] v;
  length ← required (str "length") as_u64 v;
  chunk_count ← required (str "chunk_count") as_u64 v;
  data_path ← required (str "data_path") as_str v;
  shared ← required (str "shared") as_bool v;
  advertised ← or_default (str "advertised") as_bool false v;
  complete ← required (str "complete") as_bool v;
  integrity ← required (str "integrity") as_str v;
  Some (mkContentRecord id identities length chunk_count data_path shared advertised complete integrity).

Definition value_contribution (v : Value) : option ProviderContribution :=
  id ← required (str "provider_id") as_str v;
  verified ← required (str "verified_chunks") as_u64 v;
  rejected ← required (str "rejected_requests") as_u64 v;
  Some (mkContribution id verified rejected).

Definition default_network_path : list Z := str "encrypted_relayed_swarm".

(** An absent [Option] field is [None]. *)
Definition value_transfer (v : Value) : option TransferRecord :=
  id ← required (str "id") as_i64 v;
  content_id ← required (str "content_id") as_str v;
  direction ← required (str "direction") as_str v;
  status ← required (str "status") as_str v;
  bytes_total ← required (str "bytes_total") as_u64 v;
  bytes_transferred ← required (str "bytes_transferred") as_u64 v;
  verified_chunks ← or_default (str "verified_chunks") as_u64 0 v;
  total_chunks ← or_default (str "total_chunks") as_u64 0 v;
  current_rate_bps ← or_default (str "current_rate_bps") as_u64 0 v;
  provider_count ← or_default (str "provider_count") as_u64 0 v;
  retry_count ← or_default (str "retry_count") as_u64 0 v;
  rejected_chunks ← or_default (str "rejected_chunks") as_u64 0 v;
  contributions ← or_default (str "provider_contributions") (as_list value_contribution) [] v;
  resumed_chunks ← required (str "resumed_chunks") as_u64 v;
  error ← or_default (str "error") (as_option as_str) None v;
  share_on_complete ← required (str "share_on_complete") as_bool v;
  network_path ← or_default (str "network_path") as_str default_network_path v;
  Some (mkTransferRecord id content_id direction status bytes_total bytes_transferred verified_chunks total_chunks
          current_rate_bps provider_count retry_count rejected_chunks contributions resumed_chunks error
          share_on_complete network_path).

(** ** The typed client *)

(** What a method of [LocalApiClient] sends: [GET] by [get], the others by [send]. *)
Inductive ApiCall :=
| Health | Status | Node | Content
| AddContent (path : list Z) (shared : bool)
| RemoveContent (content_id : list Z) (delete_bytes : bool)
| StartFetch (content_id : list Z) (shared : bool)
| Transfers
| TransferOf (id : Z)
| PauseTransfer (id : Z)
| ResumeTransfer (id : Z)
| Diagnostics | NetworkPrivacy | Shutdown.

(** [i64] formatted *)
Definition display_i64 (n : Z) : list Z := if n <? 0 then 45 :: decimal (- n) else decimal n.

Definition call_request (c : ApiCall) : list Z * list Z * option Value :=
  match c with
  | Health => (str "GET", str "/v1/health", None)
  | Status => (str "GET", str "/v1/status", None)
  | Node => (str "GET", str "/v1/node", None)
  | Content => (str "GET", str "/v1/content", None)
  | AddContent path shared => (str "POST", str "/v1/content", Some (add_body path shared))
  | RemoveContent id delete_bytes =>
      (str "DELETE",
       str "/v1/content/" ++ id ++ str "?delete_bytes=" ++ (if delete_bytes then str "true" else str "false"), None)
  | StartFetch id shared => (str "POST", str "/v1/fetches", Some (fetch_body id shared))
  | Transfers => (str "GET", str "/v1/transfers", None)
  | TransferOf id => (str "GET", str "/v1/transfers/" ++ display_i64 id, None)
  | PauseTransfer id => (str "POST", str "/v1/transfers/" ++ display_i64 id ++ str "/pause", Some (Object []))
  | ResumeTransfer id => (str "POST", str "/v1/transfers/" ++ display_i64 id ++ str "/resume", Some (Object []))
  | Diagnostics => (str "GET", str "/v1/diagnostics", None)
  | NetworkPrivacy => (str "GET", str "/v1/network-privacy", None)
  | Shutdown => (str "POST", str "/v1/shutdown", Some (Object []))
  end.

(** ** Round trips *)

(** Records within the ranges of their types. *)
Definition u64_ok (n : Z) : Prop := 0 <= n <= U64_MAX.
Definition content_ok (c : ContentRecord) : Prop := u64_ok (cr_length c) /\ u64_ok (cr_chunk_count c).
Definition contribution_ok (c : ProviderContribution) : Prop :=
  u64_ok (pc_verified_chunks c) /\ u64_ok (pc_rejected_requests c).
Definition transfer_ok (t : TransferRecord) : Prop :=
  - (I64_MAX + 1) <= t_id t <= I64_MAX
  /\ Forall u64_ok [t_bytes_total t; t_bytes_transferred t; t_verified_chunks t; t_total_chunks t;
                    t_current_rate_bps t; t_provider_count t; t_retry_count t; t_rejected_chunks t; t_resumed_chunks t]
  /\ Forall contribution_ok (t_provider_contributions t).

Lemma as_u64_Number n : u64_ok n -> as_u64 (Number n) = Some n.
Proof. intros Hn. cbn [as_u64]. apply try_from_Some. unfold u64_ok in Hn. lia. Qed.

Lemma as_list_map {A} (decode : Value -> option A) (encode : A -> Value) l :
  Forall (fun x => decode (encode x) = Some x) l -> as_list decode (Array (map encode l)) = Some l.
Proof.
  intros Hl. cbn [as_list]. induction Hl as [|x l Hx Hl IH]; [done|]. cbn [map]. simpl. by rewrite Hx, IH.
Qed.

(** A field of an object with distinct names is the entry of that name. *)
Fixpoint pick (k : list Z) (l : list (list Z * Value)) : option Value :=
  match l with
  | [] => None
  | (k', v) :: l => if bool_decide (k = k') then Some v else pick k l
  end.

Lemma field_object k l :
  NoDup (map fst l) -> field k (object l) = pick k l.
Proof.
  unfold object, field. intros Hnd.
  assert (forall l m, NoDup (map fst l) -> (forall k', k' ∈ map fst l -> bt_get k' m = None) ->
    bt_get k (fold_left (fun m e => bt_insert e.1 e.2 m) l m) = match pick k l with Some v => Some v | None => bt_get k m end)
    as Hfold.
  { clear l Hnd. induction l as [|[k' v] l IH]; intros m Hnd Hm; [done|]. cbn [fold_left map fst snd pick] in *.
    apply NoDup_cons in Hnd as [Hk' Hnd]. rewrite IH; [|done|].
    - case_bool_decide as Hk; [subst k'|by rewrite bt_get_insert_ne]. rewrite bt_get_insert_eq.
      assert (pick k l = None) as ->; [|done]. clear -Hk'. induction l as [|[k2 v2] l IH]; [done|].
      cbn [pick map fst] in *. rewrite elem_of_cons in Hk'. rewrite bool_decide_eq_false_2 by naive_solver. naive_solver.
    - intros j Hj. rewrite bt_get_insert_ne by (intros ->; done). apply Hm. by right. }
  rewrite Hfold; [by destruct (pick k l)|done|done].
Qed.

Lemma pick_here k v l : pick k ((k, v) :: l) = Some v.
Proof. cbn [pick]. by rewrite bool_decide_eq_true_2. Qed.
Lemma pick_skip k k' v l : bool_decide (k = k') = false -> pick k ((k', v) :: l) = pick k l.
Proof. intros Hk. cbn [pick]. by rewrite Hk. Qed.

(** Read the fields of an object whose names are literals. *)
Ltac read_fields :=
  repeat (rewrite field_object by (apply (bool_decide_unpack _); vm_compute; exact I));
  repeat first [rewrite pick_here | rewrite pick_skip by (vm_compute; reflexivity)].

Lemma value_identity_value i : value_identity (identity_value i) = Some i.
Proof. unfold value_identity, required, identity_value. read_fields. by destruct i. Qed.

Lemma contribution_roundtrip c : contribution_ok c -> value_contribution (contribution_value c) = Some c.
Proof.
  intros [Hv Hr]. unfold value_contribution, required, contribution_value. read_fields.
  cbn [mbind option_bind as_str]. rewrite !as_u64_Number by done. by destruct c.
Qed.

(** The records of the local API survive their documents: what the client decodes
    from the document of a content or transfer record is that record, for all records
    within the ranges of their types and a data path in UTF-8; other paths have no document. *)
Theorem records_roundtrip :
  (forall c : ContentRecord, content_ok c ->
     match content_value c with
     | Ok v => utf8_valid (cr_data_path c) = true /\ value_content v = Some c
     | Err _ => utf8_valid (cr_data_path c) = false
     end)
  /\ (forall t : TransferRecord, transfer_ok t -> value_transfer (transfer_value t) = Some t).
Proof.
  split.
  - intros c [Hn Hk]. unfold content_value, path_value. destruct (utf8_valid (cr_data_path c)); [|done].
    cbn [mbind result_bind]. split; [done|]. unfold value_content, required, or_default. read_fields.
    cbn [mbind option_bind as_str as_bool]. rewrite !as_u64_Number by done.
    rewrite as_list_map by (apply Forall_forall; intros; apply value_identity_value). by destruct c.
  - intros t (Hid & Hall & Hcs). repeat (apply Forall_cons_iff in Hall as [? Hall]).
    unfold value_transfer, required, or_default, transfer_value. read_fields.
    assert (as_i64 (Number (t_id t)) = Some (t_id t)) as Hi.
    { cbn [as_i64]. by rewrite (proj2 (Z.leb_le _ _)), (proj2 (Z.leb_le _ _)) by lia. }
    cbn [mbind option_bind as_str as_bool]. rewrite Hi, !as_u64_Number by done.
    rewrite as_list_map by (eapply Forall_impl; [exact Hcs|]; apply contribution_roundtrip).
    by destruct t as [? ? ? ? ? ? ? ? ? ? ? ? ? ? [|] ? ?].
Qed.

Lemma records_roundtrip_witness :
  value_transfer (transfer_value (mkTransferRecord 3 (str "ab") (str "download") (str "paused") 9 4 1 2 0 1 0 0
    [mkContribution (str "p") 1 0] 1 None true default_network_path))
  = Some (mkTransferRecord 3 (str "ab") (str "download") (str "paused") 9 4 1 2 0 1 0 0
    [mkContribution (str "p") 1 0] 1 None true default_network_path).
Proof.
  apply (proj2 records_roundtrip). split; [vm_compute; split; discriminate|].
  split; repeat (apply List.Forall_cons || apply List.Forall_nil); repeat split; vm_compute; discriminate.
Defined.
