(* ===== verification/NodeRuntime.v ===== *)
(** * NodeRuntime: the daemon's threads and its control API (crates/triptorrent-node)

    [NodeRuntime] is the state the threads share: the store, the maps of provider flags and
    fetch controls, the counters.  A flag or a control is a cell of a heap, so that a map
    and a thread can hold the same one.  A spawned thread is an entry of [threads] which
    says how far it has come; the engine is the [TransferEngine] of the caller, of which
    nothing is assumed: a fetch or an upload may return anything, after any change of the
    files.  The operations here run to their end at once; NodeThreads.v cuts them into the
    actions at which threads can interleave.  Theorems are in NodeRuntimeFacts.v. *)
From stdpp Require Import base tactics list numbers option gmap.
From Stdlib Require Import ZArith Lia.
Import stdpp.list.
From S2P Require Import Prelude Bytes Text BTree NetAddr Instances Core Json Http Resume NodeConfig NodeStore ApiRecords.

Local Open Scope Z_scope.

Definition FETCH_RUNNING : Z := 0.
Definition FETCH_PAUSED : Z := 1.
Definition FETCH_INTERRUPTED : Z := 2.

Inductive FetchStopReason := Paused | Interrupted.

(** [FetchControl]: the atomic state, and what its observer captured: the transfer, the
    instant of its start and the first byte count reported *)
Record FetchControl := mkControl {
  fc_state : Z;
  fc_transfer : Z;
  fc_started : Z;
  fc_baseline : option Z
}.

Definition should_continue (c : FetchControl) : bool := fc_state c =? FETCH_RUNNING.

Definition stop_reason (c : FetchControl) : option FetchStopReason :=
  if fc_state c =? FETCH_PAUSED then Some Paused
  else if fc_state c =? FETCH_INTERRUPTED then Some Interrupted
  else None.

Definition set_fetch (state : Z) (c : FetchControl) : FetchControl :=
  mkControl state (fc_transfer c) (fc_started c) (fc_baseline c).
Definition pause : FetchControl -> FetchControl := set_fetch FETCH_PAUSED.
Definition interrupt : FetchControl -> FetchControl := set_fetch FETCH_INTERRUPTED.

(** Threads, with the local variables they still use. *)
Inductive Thread :=
| Fetching (transfer : TransferRecord) (content_id : ContentId) (control : nat)
| Stopped (transfer : TransferRecord) (content_id : ContentId) (control : nat)
    (outcome : result (list Z) PersistentFetchStats)
| Ending
| Providing (content : ContentRecord) (enabled : nat)
| Serving (content : ContentRecord) (enabled : nat).

Record Counters := mkCounters {
  active_downloads : Z;
  active_uploads : Z;
  bytes_downloaded : Z;
  bytes_uploaded : Z;
  completed_transfers : Z;
  failed_transfers : Z
}.

(** [now] is [unix_time()] and [elapsed] the milliseconds of the monotonic clock. *)
Record NodeRuntime := mkRuntime {
  config : NodeConfig;
  store : Store;
  now : Z;
  elapsed : Z;
  shutdown_requested : bool;
  flags : list bool;
  providers : gmap (list Z) nat;
  controls : list FetchControl;
  downloads : gmap Z nat;
  threads : list Thread;
  counters : Counters
}.

Definition with_store (s : Store) (rt : NodeRuntime) : NodeRuntime :=
  mkRuntime (config rt) s (now rt) (elapsed rt) (shutdown_requested rt) (flags rt) (providers rt) (controls rt)
    (downloads rt) (threads rt) (counters rt).
Definition with_shutdown (b : bool) (rt : NodeRuntime) : NodeRuntime :=
  mkRuntime (config rt) (store rt) (now rt) (elapsed rt) b (flags rt) (providers rt) (controls rt)
    (downloads rt) (threads rt) (counters rt).
Definition with_providers (f : list bool) (p : gmap (list Z) nat) (rt : NodeRuntime) : NodeRuntime :=
  mkRuntime (config rt) (store rt) (now rt) (elapsed rt) (shutdown_requested rt) f p (controls rt)
    (downloads rt) (threads rt) (counters rt).
Definition with_downloads (c : list FetchControl) (d : gmap Z nat) (rt : NodeRuntime) : NodeRuntime :=
  mkRuntime (config rt) (store rt) (now rt) (elapsed rt) (shutdown_requested rt) (flags rt) (providers rt) c
    d (threads rt) (counters rt).
Definition with_threads (t : list Thread) (rt : NodeRuntime) : NodeRuntime :=
  mkRuntime (config rt) (store rt) (now rt) (elapsed rt) (shutdown_requested rt) (flags rt) (providers rt) (controls rt)
    (downloads rt) t (counters rt).
Definition with_counters (f : Counters -> Counters) (rt : NodeRuntime) : NodeRuntime :=
  mkRuntime (config rt) (store rt) (now rt) (elapsed rt) (shutdown_requested rt) (flags rt) (providers rt) (controls rt)
    (downloads rt) (threads rt) (f (counters rt)).

(** [fetch_add] wraps around; [fetch_sub] is [fetch_add] of the opposite. *)
Definition fetch_add (n v : Z) : Z := (n + v) mod 2 ^ 64.

Definition add_downloads (v : Z) (c : Counters) : Counters :=
  mkCounters (fetch_add (active_downloads c) v) (active_uploads c) (bytes_downloaded c) (bytes_uploaded c)
    (completed_transfers c) (failed_transfers c).
Definition add_uploads (v : Z) (c : Counters) : Counters :=
  mkCounters (active_downloads c) (fetch_add (active_uploads c) v) (bytes_downloaded c) (bytes_uploaded c)
    (completed_transfers c) (failed_transfers c).
Definition add_completed (downloaded uploaded : Z) (c : Counters) : Counters :=
  mkCounters (active_downloads c) (active_uploads c) (fetch_add (bytes_downloaded c) downloaded)
    (fetch_add (bytes_uploaded c) uploaded) (fetch_add (completed_transfers c) 1) (failed_transfers c).
Definition add_failed (c : Counters) : Counters :=
  mkCounters (active_downloads c) (active_uploads c) (bytes_downloaded c) (bytes_uploaded c)
    (completed_transfers c) (fetch_add (failed_transfers c) 1).

Definition rio := st NodeRuntime (list Z).

Definition gets {A} (f : NodeRuntime -> A) : rio A := fun rt => (rt, Ok (f rt)).
Definition modify (f : NodeRuntime -> NodeRuntime) : rio unit := fun rt => (f rt, Ok tt).
Definition on_store {A} (c : sio A) : rio A := fun rt =>
  let '(s, r) := c (store rt) in (with_store s rt, r).
(** [let _ = ..] *)
Definition ignore {A} (c : rio A) : rio unit := fun rt => ((c rt).1, Ok tt).

Definition thread_spawn (t : Thread) : rio unit := modify (fun rt => with_threads (threads rt ++ [t]) rt).

Section Runtime.
Context `{Blake3} `{Hex} `{StoreCodec}.

(** ** Providers *)

Definition start_provider (content : ContentRecord) : rio unit :=
  c ← gets config;
  match bootstrap c with
  | None => mret tt
  | Some _ =>
      p ← gets providers;
      if bool_decide (is_Some (p !! cr_content_id content)) then mret tt
      else
        f ← gets flags;
        let enabled := length f in
        _ ← modify (with_providers (f ++ [true]) (<[cr_content_id content := enabled]> p));
        thread_spawn (Providing content enabled)
  end.

Definition stop_provider (content_id : list Z) : rio unit :=
  modify (fun rt =>
    match providers rt !! content_id with
    | Some enabled => with_providers (<[enabled := false]> (flags rt)) (delete content_id (providers rt)) rt
    | None => rt
    end).

Definition enabled_flag (rt : NodeRuntime) (enabled : nat) : bool := default false (flags rt !! enabled).

(** ** Content *)

Definition set_advertised (b : bool) (c : ContentRecord) : ContentRecord :=
  mkContentRecord (cr_content_id c) (cr_identities c) (cr_length c) (cr_chunk_count c) (cr_data_path c)
    (cr_shared c) b (cr_complete c) (cr_integrity c).

Definition add_content (path : list Z) (shared : bool) : rio ContentRecord :=
  t ← gets now;
  content ← on_store (NodeStore.add_content path shared t);
  _ ← (if shared then start_provider content else mret tt);
  p ← gets providers;
  mret (set_advertised (bool_decide (is_Some (p !! cr_content_id content))) content).

Definition remove_content (content_id : list Z) (delete_bytes : bool) : rio unit :=
  _ ← stop_provider content_id;
  on_store (NodeStore.remove_content content_id delete_bytes).

Definition list_content : rio (list ContentRecord) :=
  p ← gets providers;
  content ← on_store NodeStore.list_content;
  mret (map (fun c => set_advertised (bool_decide (is_Some (p !! cr_content_id c))) c) content).

(** ** Downloads *)

(** [prepare_download] without the control it makes *)
Definition prepare_download (transfer : TransferRecord) : rio (ContentId * FetchControl) :=
  c ← gets config;
  _ ← lift (ok_or (bootstrap c) (str "node has no bootstrap configured"));
  content_id ← lift (map_err (fun _ => str "content ID") (ContentId_from_str (t_content_id transfer)));
  _ ← on_store (on_disk (str "create_dir_all") sync);
  t ← gets now;
  _ ← on_store (update_transfer (t_id transfer) (str "running") (t_bytes_total transfer) (t_bytes_transferred transfer)
                  (t_resumed_chunks transfer) None t);
  started ← gets elapsed;
  mret (content_id, mkControl FETCH_RUNNING (t_id transfer) started None).

Definition spawn_download (transfer : TransferRecord) : rio unit :=
  '(content_id, control) ← prepare_download transfer;
  old ← gets downloads;
  heap ← gets controls;
  let cell := length heap in
  _ ← modify (with_downloads (heap ++ [control]) (<[t_id transfer := cell]> old));
  if bool_decide (is_Some (old !! t_id transfer)) then throw (str "transfer already has an active worker")
  else
    _ ← modify (with_counters (add_downloads 1));
    thread_spawn (Fetching transfer content_id cell).

Definition start_fetch (content_id : ContentId) (share : bool) : rio Z :=
  c ← gets config;
  if negb (bool_decide (is_Some (bootstrap c))) then throw (str "node has no bootstrap configured")
  else
    there ← on_store (content_exists (ContentId_to_string content_id));
    if (there : bool) then throw (str "content is already stored")
    else
      k ← gets counters;
      if active_downloads k >=? max_concurrent_transfers c then throw (str "maximum concurrent transfers reached")
      else
        t ← gets now;
        id ← on_store (create_transfer (ContentId_to_string content_id) share t);
        found ← on_store (get_transfer id);
        transfer ← lift (ok_or found (str "new transfer missing"));
        _ ← spawn_download transfer;
        mret id.

(** The observer of a control: the rate is the bytes since the first report over the time
    since the start. *)
Definition progress_rate (c : FetchControl) (at_ms verified_bytes : Z) : Z :=
  let baseline := default verified_bytes (fc_baseline c) in
  let elapsed_millis := Z.max (Z.min (at_ms - fc_started c) U64_MAX) 1 in
  sat_mul U64_MAX (sat_sub verified_bytes baseline) 1000 / elapsed_millis.

Definition report (cell : nat) (progress : VerifiedProgress) : rio unit :=
  heap ← gets controls;
  match heap !! cell with
  | None => mret tt
  | Some c =>
      ms ← gets elapsed;
      let rate := progress_rate c ms (vp_verified_bytes progress) in
      let c' := mkControl (fc_state c) (fc_transfer c) (fc_started c)
                  (Some (default (vp_verified_bytes progress) (fc_baseline c))) in
      d ← gets downloads;
      _ ← modify (with_downloads (<[cell := c']> heap) d);
      t ← gets now;
      ignore (on_store (update_progress (fc_transfer c) progress rate t))
  end.

Definition fail_transfer (id : Z) (failure : list Z) : rio unit :=
  t ← gets now;
  _ ← ignore (on_store (set_transfer_status id (str "failed") (Some failure) t));
  modify (with_counters add_failed).

(** [complete_download] and what follows it, for [result] *)
Definition finish_download (transfer : TransferRecord) (content_id : ContentId) (stats : PersistentFetchStats)
  : rio unit := fun rt =>
  match on_store (complete_download content_id (t_share_on_complete transfer) (now rt)) rt with
  | (rt, Ok content) =>
      (_ ← ignore (on_store (complete_transfer (t_id transfer) (cr_length content) (cr_chunk_count content) stats (now rt)));
       _ ← modify (with_counters (add_completed (cr_length content) 0));
       if cr_shared content then ignore (start_provider content) else mret tt) rt
  | (rt, Err error) => fail_transfer (t_id transfer) error rt
  end.

Definition finish_stopped_download (transfer : TransferRecord) (control : nat) (error : list Z) : rio unit :=
  heap ← gets controls;
  t ← gets now;
  match heap !! control ≫= stop_reason with
  | Some Paused => ignore (on_store (set_transfer_status (t_id transfer) (str "paused") None t))
  | Some Interrupted => ignore (on_store (set_transfer_status (t_id transfer) (str "interrupted") None t))
  | None => fail_transfer (t_id transfer) error
  end.

Definition pause_transfer (id : Z) : rio unit :=
  found ← on_store (get_transfer id);
  transfer ← lift (ok_or found (str "unknown transfer"));
  if negb (bool_decide (t_status transfer = str "running")) && negb (bool_decide (t_status transfer = str "pausing"))
  then throw (str "only a running download can be paused")
  else
    d ← gets downloads;
    cell ← lift (ok_or (d !! id) (str "transfer worker is unavailable"));
    heap ← gets controls;
    _ ← modify (with_downloads (alter pause cell heap) d);
    t ← gets now;
    on_store (set_transfer_status id (str "pausing") None t).

Definition resume_transfer (id : Z) : rio unit :=
  c ← gets config;
  k ← gets counters;
  if active_downloads k >=? max_concurrent_transfers c then throw (str "maximum concurrent transfers reached")
  else
    found ← on_store (get_transfer id);
    transfer ← lift (ok_or found (str "unknown transfer"));
    if negb (bool_decide (t_status transfer = str "paused"))
    then throw (str "only an explicitly paused download can be resumed")
    else spawn_download transfer.

(** [NodeRuntime::shutdown] *)
Definition shutdown : rio unit :=
  _ ← modify (with_shutdown true);
  _ ← modify (fun rt => with_providers
        (imap (fun i b => if bool_decide (i ∈ (map_to_list (providers rt)).*2) then false else b) (flags rt))
        (providers rt) rt);
  _ ← modify (fun rt => with_downloads
        (imap (fun i c => if bool_decide (i ∈ (map_to_list (downloads rt)).*2) then interrupt c else c) (controls rt))
        (downloads rt) rt);
  t ← gets now;
  ignore (on_store (mark_running_interrupted t)).

(** ** Start-up *)

Fixpoint start_providers (records : list ContentRecord) : rio unit :=
  match records with
  | [] => mret tt
  | content :: records =>
      _ ← (if cr_shared content && bool_decide (cr_integrity content = str "ok") then start_provider content else mret tt);
      start_providers records
  end.

Fixpoint recover (records : list TransferRecord) : rio unit :=
  match records with
  | [] => mret tt
  | transfer :: records =>
      c ← gets config;
      _ ← (if bool_decide (is_Some (bootstrap c)) then spawn_download transfer else mret tt);
      recover records
  end.

Definition new_runtime (c : NodeConfig) (s : Store) (t ms : Z) : NodeRuntime :=
  mkRuntime c s t ms false [] ∅ [] ∅ [] (mkCounters 0 0 0 0 0 0).

(** [NodeRuntime::create] on the database and the files below [data_dir] *)
Definition create (c : NodeConfig) (d : Database) (w : World) (t ms : Z) : NodeRuntime * result (list Z) unit :=
  match open_store (data_dir c) d w with
  | (s, Err e) => (new_runtime c s t ms, Err e)
  | (s, Ok _) =>
      (content ← on_store NodeStore.list_content;
       _ ← start_providers content;
       transfers ← on_store (recoverable_transfers t);
       recover transfers) (new_runtime c s t ms)
  end.
End Runtime.
