(* ===== verification/NodeApi.v ===== *)
(** * NodeApi: the routes of the local API and the daemon as a transition system
      (crates/triptorrent-node)

    [handle_connection] reads one request, checks the peer and the token, and routes it to
    the operations of NodeRuntime.v; its result is the status and the document that
    [write_response] sends.  [step] is one step of the daemon while requests do not overlap:
    a whole connection, a step of a worker thread, the passage of time, the end of the
    accept loop; NodeThreads.v interleaves the threads of connections.  Theorems are in
    NodeRuntimeFacts.v and NodeDaemon.v. *)
From stdpp Require Import base tactics list numbers option gmap.
From Stdlib Require Import ZArith Lia.
Import stdpp.list.
From S2P Require Import Prelude Bytes Text BTree NetAddr Instances Core Json Http Resume NodeConfig NodeStore ApiRecords NodeRuntime.

Local Open Scope Z_scope.

Section Api.
Context `{Blake3} `{Hex} `{StoreCodec} `{Json}.

(** ** Documents *)

Definition status : rio Value :=
  '(stored, shared) ← on_store counts;
  ms ← gets elapsed;
  c ← gets counters;
  mret (object
    [(str "uptime_ms", Number (Z.min ms U64_MAX)); (str "store_initialized", Bool true); (str "api_ready", Bool true);
     (str "stored_content", Number stored); (str "shared_content", Number shared);
     (str "active_downloads", Number (active_downloads c)); (str "active_uploads", Number (active_uploads c));
     (str "bytes_downloaded", Number (bytes_downloaded c)); (str "bytes_uploaded", Number (bytes_uploaded c));
     (str "completed_transfers", Number (completed_transfers c)); (str "failed_transfers", Number (failed_transfers c))]).

Definition texts (l : list (list Z)) : Value := Array (map Text l).

(** [NetworkPrivacyStatus::current_prototype] *)
Definition current_prototype : Value := object
  [(str "network_mode", Text (str "triptorrent_public_testnet_1"));
   (str "discovery", Text (str "centralized_m2_derived_testnet_bootstrap"));
   (str "data_path", Text (str "end_to_end_encrypted_relayed_swarm"));
   (str "direct_peer_connection", Bool false);
   (str "relay_visibility", texts [str "peer_endpoints"; str "route"; str "timing"; str "traffic_volume"]);
   (str "bootstrap_visibility",
      texts [str "peer_ip_addresses"; str "content_advertisements_and_queries"; str "routes"; str "timing"]);
   (str "compatibility", object [(str "classic_bittorrent_active", Bool false);
                                 (str "m3_private_discovery_implemented", Bool false)]);
   (str "anonymity_guarantee", Bool false)].

(** ** Handlers *)

Definition reply : Set := (Z * Value)%type.

Definition add_content_request (request : HttpRequest) : rio reply :=
  '(path, shared) ← lift (ok_or (decode_add (body request)) (str "invalid content-add JSON"));
  record ← add_content path shared;
  value ← lift (content_value record);
  mret (201, value).

Definition fetch_request (request : HttpRequest) : rio reply :=
  '(id, shared) ← lift (ok_or (decode_fetch (body request)) (str "invalid fetch JSON"));
  content_id ← lift (map_err (fun _ => str "content ID") (ContentId_from_str id));
  transfer ← start_fetch content_id shared;
  mret (202, object [(str "transfer_id", Number transfer); (str "status", Text (str "running"))]).

(** The loop over the query parameters of a removal. *)
Fixpoint delete_parameters (parameters : list (list Z)) (delete_bytes : option bool)
  : result (list Z) (option bool) :=
  match parameters with
  | [] => Ok delete_bytes
  | parameter :: parameters =>
      '(name, value) ← ok_or (split_once 61 parameter) (str "malformed query parameter");
      if negb (bool_decide (name = str "delete_bytes")) || bool_decide (is_Some delete_bytes)
      then Err (str "unknown or duplicate query parameter")
      else
        b ← ok_or (parse_bool value) (str "invalid delete_bytes value");
        delete_parameters parameters (Some b)
  end.

Definition delete_content_request (path query : list Z) : rio reply :=
  let content_id := trim_start_matches (str "/v1/content/") path in
  parsed ← lift (delete_parameters (List.filter nonempty (split 38 query)) None);
  let delete_bytes := default false parsed in
  _ ← remove_content content_id delete_bytes;
  mret (200, object [(str "removed", Text content_id); (str "deleted_managed_bytes", Bool delete_bytes)]).

Definition transfer_action_id (path action : list Z) : result (list Z) Z :=
  ok_or (parse_signed (trim_end_matches action (trim_start_matches (str "/v1/transfers/") path)))
    (str "invalid transfer ID").

Definition pause_request (path : list Z) : rio reply :=
  id ← lift (transfer_action_id path (str "/pause"));
  _ ← pause_transfer id;
  mret (202, object [(str "transfer_id", Number id); (str "status", Text (str "pausing"))]).

Definition resume_request (path : list Z) : rio reply :=
  id ← lift (transfer_action_id path (str "/resume"));
  _ ← resume_transfer id;
  mret (202, object [(str "transfer_id", Number id); (str "status", Text (str "running"))]).

Definition transfer_request (path : list Z) : rio reply :=
  id ← lift (ok_or (parse_signed (trim_start_matches (str "/v1/transfers/") path)) (str "invalid transfer ID"));
  found ← on_store (get_transfer id);
  match found with
  | Some record => mret (200, transfer_value record)
  | None => mret (404, error_json (str "not_found") (str "unknown transfer"))
  end.

(** [split_once('?')], or the whole target and an empty query *)
Definition split_target (target : list Z) : list Z * list Z := default (target, []) (split_once 63 target).

Definition node_summary : rio reply :=
  c ← gets config;
  dir ← lift (path_value (data_dir c));
  mret (200, object
    [(str "api_listen", Text (display_socket_addr (nc_api_listen c))); (str "data_dir", dir);
     (str "bootstrap", addr_text (bootstrap c));
     (str "protocol_peer_identity", Text (str "ephemeral-per-advertisement"))]).

Definition diagnostics : rio reply :=
  c ← gets config;
  p ← gets providers;
  mret (200, object
    [(str "bootstrap", addr_text (bootstrap c));
     (str "bootstrap_configured", Bool (bool_decide (is_Some (bootstrap c))));
     (str "provider_workers", Number (Z.of_nat (size p))); (str "known_relays", Null);
     (str "api_version", Text (str "v1")); (str "node_version", Text (str "0.0.0"));
     (str "wire_protocol_version", Number PROTOCOL_VERSION); (str "network", Text NETWORK_ID);
     (str "discovery_profile", Text DISCOVERY_PROFILE);
     (str "active_transfer_protocol", Text (str "relayed-swarm-v1"))]).

Definition content_reply : rio reply :=
  records ← list_content;
  values ← lift (map_result content_value records);
  mret (200, Array values).

Definition transfers_reply : rio reply :=
  records ← on_store list_transfers;
  mret (200, Array (map transfer_value records)).

Definition route_request_inner (request : HttpRequest) : rio reply :=
  let '(path, query) := split_target (target request) in
  let via m := bool_decide (method request = m) in
  let at_ p := bool_decide (path = p) in
  if via (str "GET") && at_ (str "/v1/health") then
    mret (200, object [(str "alive", Bool true); (str "store_initialized", Bool true); (str "api_ready", Bool true)])
  else if via (str "GET") && at_ (str "/v1/status") then v ← status; mret (200, v)
  else if via (str "GET") && at_ (str "/v1/node") then node_summary
  else if via (str "GET") && at_ (str "/v1/content") then content_reply
  else if via (str "POST") && at_ (str "/v1/content") then add_content_request request
  else if via (str "POST") && at_ (str "/v1/fetches") then fetch_request request
  else if via (str "GET") && at_ (str "/v1/transfers") then transfers_reply
  else if via (str "GET") && at_ (str "/v1/diagnostics") then diagnostics
  else if via (str "GET") && at_ (str "/v1/network-privacy") then mret (200, current_prototype)
  else if via (str "POST") && at_ (str "/v1/shutdown") then
    _ ← modify (with_shutdown true);
    mret (202, object [(str "status", Text (str "stopping"))])
  else if via (str "DELETE") && starts_with (str "/v1/content/") path then delete_content_request path query
  else if via (str "POST") && starts_with (str "/v1/transfers/") path && ends_with (str "/pause") path then pause_request path
  else if via (str "POST") && starts_with (str "/v1/transfers/") path && ends_with (str "/resume") path then resume_request path
  else if via (str "GET") && starts_with (str "/v1/transfers/") path then transfer_request path
  else mret (404, error_json (str "not_found") (str "unknown API route")).

Definition route_request (request : HttpRequest) (rt : NodeRuntime) : NodeRuntime * reply :=
  match route_request_inner request rt with
  | (rt, Ok result) => (rt, result)
  | (rt, Err error) => (rt, (400, error_json (str "invalid_operation") error))
  end.

Definition mutating (request : HttpRequest) : bool :=
  bool_decide (method request = str "POST") || bool_decide (method request = str "DELETE").

Definition authorized (rt : NodeRuntime) (request : HttpRequest) : bool :=
  bool_decide (authorization request = Some (str "Bearer " ++ nc_api_token (config rt))).

Definition handle_connection (stream : Incoming) (remote : IpAddr) (rt : NodeRuntime) : NodeRuntime * reply :=
  if negb (is_loopback remote) then (rt, (403, error_json (str "forbidden") (str "loopback clients only")))
  else
    match read_request stream with
    | Err error => (rt, (400, error_json (str "malformed_request") error))
    | Ok request =>
        if mutating request && negb (authorized rt request)
        then (rt, (401, error_json (str "unauthorized") (str "valid bearer token required")))
        else route_request request rt
    end.

(** ** The daemon *)

Definition with_disk (w : World) (rt : NodeRuntime) : NodeRuntime :=
  with_store (mkStore (root (store rt)) (db (store rt)) w) rt.
Definition with_time (t ms : Z) (rt : NodeRuntime) : NodeRuntime :=
  mkRuntime (config rt) (store rt) t ms (shutdown_requested rt) (flags rt) (providers rt) (controls rt)
    (downloads rt) (threads rt) (counters rt).

(** Thread [i] goes on as [t]. *)
Definition becomes (i : nat) (t : Thread) (rt : NodeRuntime) : NodeRuntime := with_threads (<[i := t]> (threads rt)) rt.
Definition ends (i : nat) (rt : NodeRuntime) : NodeRuntime := with_threads (delete i (threads rt)) rt.

(** After [engine.fetch] returns: the control leaves the map. *)
Definition fetched (i : nat) (transfer : TransferRecord) (content_id : ContentId) (control : nat)
  (outcome : result (list Z) PersistentFetchStats) (rt : NodeRuntime) : NodeRuntime :=
  becomes i (Stopped transfer content_id control outcome)
    (with_downloads (controls rt) (delete (t_id transfer) (downloads rt)) rt).

(** The match of [run_download] on the outcome. *)
Definition finish_fetch (transfer : TransferRecord) (content_id : ContentId) (control : nat)
  (outcome : result (list Z) PersistentFetchStats) : rio unit :=
  match outcome with
  | Ok stats => finish_download transfer content_id stats
  | Err error => finish_stopped_download transfer control error
  end.

(** The loop of a provider thread: its condition, and what follows [serve_once]. *)
Definition may_serve (rt : NodeRuntime) (enabled : nat) : bool :=
  enabled_flag rt enabled && negb (shutdown_requested rt).
Definition served (i : nat) (content : ContentRecord) (enabled : nat) (outcome : result (list Z) unit)
  (rt : NodeRuntime) : NodeRuntime :=
  let rt := with_counters (add_uploads (-1)) rt in
  match outcome with
  | Ok _ => becomes i (Providing content enabled) (with_counters (add_completed 0 (cr_length content)) rt)
  | Err _ => if negb (enabled_flag rt enabled) then ends i rt else becomes i (Providing content enabled) rt
  end.

(** A step while the requests do not overlap: a connection is handled in one. *)
Inductive step : NodeRuntime -> NodeRuntime -> Prop :=
| step_connection rt stream remote : step rt (handle_connection stream remote rt).1
| step_time rt t ms : step rt (with_time t ms rt)
| step_files rt w : step rt (with_disk w rt)
| step_report rt i transfer content_id control progress :
    threads rt !! i = Some (Fetching transfer content_id control) -> step rt (report control progress rt).1
| step_fetched rt i transfer content_id control outcome :
    threads rt !! i = Some (Fetching transfer content_id control) ->
    step rt (fetched i transfer content_id control outcome rt)
| step_finish rt i transfer content_id control outcome :
    threads rt !! i = Some (Stopped transfer content_id control outcome) ->
    step rt (becomes i Ending (finish_fetch transfer content_id control outcome rt).1)
| step_ended rt i :
    threads rt !! i = Some Ending -> step rt (ends i (with_counters (add_downloads (-1)) rt))
| step_serve rt i content enabled :
    threads rt !! i = Some (Providing content enabled) -> may_serve rt enabled = true ->
    step rt (becomes i (Serving content enabled) (with_counters (add_uploads 1) rt))
| step_unprovide rt i content enabled :
    threads rt !! i = Some (Providing content enabled) -> may_serve rt enabled = false -> step rt (ends i rt)
| step_served rt i content enabled outcome :
    threads rt !! i = Some (Serving content enabled) -> step rt (served i content enabled outcome rt)
| step_shutdown rt : shutdown_requested rt = true -> step rt (shutdown rt).1.

(** The daemon from its start. *)
Inductive reachable (c : NodeConfig) (d : Database) : NodeRuntime -> Prop :=
| reachable_start w t ms rt : create c d w t ms = (rt, Ok tt) -> reachable c d rt
| reachable_step rt rt' : reachable c d rt -> step rt rt' -> reachable c d rt'.

(** ** The accept loop *)

Definition API_MAX_CONNECTIONS : Z := 64.

(** [run_daemon]: the runtime, the counter [api_connections] and the connections whose
    threads have not ended *)
Record Server := mkServer {
  sv_runtime : NodeRuntime;
  api_connections : Z;
  sv_open : list (Incoming * IpAddr)
}.

(** [run_daemon] up to its loop *)
Definition start_server (c : NodeConfig) (d : Database) (w : World) (t ms : Z) : result (list Z) Server :=
  _ ← validate c;
  match create c d w t ms with
  | (rt, Ok _) => Ok (mkServer rt 0 [])
  | (_, Err e) => Err e
  end.

(** A connection is dropped, or gets a thread. *)
Definition accept_connection (stream : Incoming) (remote : IpAddr) (s : Server) : Server :=
  if api_connections s >=? API_MAX_CONNECTIONS then s
  else mkServer (sv_runtime s) (fetch_add (api_connections s) 1) (sv_open s ++ [(stream, remote)]).

(** The thread of connection [i] handles it and ends. *)
Definition finish_connection (i : nat) (stream : Incoming) (remote : IpAddr) (s : Server) : Server :=
  mkServer (handle_connection stream remote (sv_runtime s)).1 (fetch_add (api_connections s) (-1)) (delete i (sv_open s)).

(** Connections as the loop serves them; the other steps of the daemon, between them. *)
Inductive server_step : Server -> Server -> Prop :=
| server_accept s stream remote :
    shutdown_requested (sv_runtime s) = false -> server_step s (accept_connection stream remote s)
| server_finish s i stream remote :
    sv_open s !! i = Some (stream, remote) -> server_step s (finish_connection i stream remote s)
| server_worker s rt : step (sv_runtime s) rt -> server_step s (mkServer rt (api_connections s) (sv_open s)).

Inductive served_from (c : NodeConfig) (d : Database) : Server -> Prop :=
| served_start w t ms s : start_server c d w t ms = Ok s -> served_from c d s
| served_step s s' : served_from c d s -> server_step s s' -> served_from c d s'.
End Api.
