(* ===== verification/NodeRuntimeFacts.v ===== *)
(** * NodeRuntimeFacts: what the daemon keeps true

    The invariant of the daemon over all its steps, and the parts it is built from: which
    operations leave transfers and workers alone, what a spawned download changes.  The
    API changes nothing without the token of the configuration. *)
From stdpp Require Import base tactics list numbers option gmap.
From Stdlib Require Import ZArith Lia Sorting.Sorted.
Import stdpp.list.
From S2P Require Import Prelude Bytes Text BTree NetAddr Instances Core Json Http Resume NodeConfig NodeStore NodeStoreFacts NodeImport ApiRecords NodeRuntime NodeApi.

Local Open Scope Z_scope.

(** ** What concerns transfers *)

Definition is_download (t : Thread) : bool :=
  match t with Fetching _ _ _ | Stopped _ _ _ _ | Ending => true | _ => false end.

(** The transfer a thread still works for; the control it polls. *)
Definition live (t : Thread) : option Z :=
  match t with Fetching tr _ _ | Stopped tr _ _ _ => Some (t_id tr) | _ => None end.
Definition fetching (t : Thread) : option (Z * nat) :=
  match t with Fetching tr _ c => Some (t_id tr, c) | _ => None end.

Record View := mkView {
  v_rows : list TransferRow;
  v_sequence : Z;
  v_cells : nat;
  v_downloads : gmap Z nat;
  v_live : list Z;
  v_fetching : list (Z * nat);
  v_workers : Z;
  v_active : Z
}.

Definition view (rt : NodeRuntime) : View :=
  mkView (transfers (db (store rt))) (sequence (db (store rt))) (length (controls rt)) (downloads rt)
    (omap live (threads rt)) (omap fetching (threads rt)) (count is_download (threads rt))
    (active_downloads (counters rt)).

(** ** Operations that leave it alone *)

Definition keeps_transfers {A} (c : sio A) : Prop :=
  forall s, transfers (db (c s).1) = transfers (db s) /\ sequence (db (c s).1) = sequence (db s).

Definition quiet {A} (c : rio A) : Prop := forall rt, view (c rt).1 = view rt.

Lemma keeps_bind {A B} (c : sio A) (f : A -> sio B) :
  keeps_transfers c -> (forall a, keeps_transfers (f a)) -> keeps_transfers (c ≫= f).
Proof.
  intros Hc Hf s. unfold mbind, st_bind. specialize (Hc s). destruct (c s) as [s1 [a|e]]; [|done].
  cbn [fst] in *. destruct Hc as [<- <-]. apply Hf.
Qed.
Lemma keeps_lift {A} (r : result (list Z) A) : keeps_transfers (lift r).
Proof. done. Qed.
Lemma keeps_throw {A} e : keeps_transfers (throw e : sio A).
Proof. done. Qed.
Lemma keeps_ret {A} (a : A) : keeps_transfers (mret a).
Proof. done. Qed.
Lemma keeps_root : keeps_transfers get_root.
Proof. done. Qed.
Lemma keeps_on_disk {A} m (c : io A) : keeps_transfers (on_disk m c).
Proof. intros s. unfold on_disk. by destruct (c (disk s)). Qed.
Lemma keeps_execute {A} (f : Database -> Database * result (list Z) A) :
  (forall d, transfers (f d).1 = transfers d /\ sequence (f d).1 = sequence d) -> keeps_transfers (execute f).
Proof.
  intros Hf s. specialize (Hf (db s)). unfold execute. destruct (f (db s)).
  by destruct (faults (disk s)) as [|[]].
Qed.
Lemma keeps_query {A} (f : Database -> result (list Z) A) : keeps_transfers (query f).
Proof. by apply keeps_execute. Qed.

Create HintDb quiet.
#[export] Hint Resolve keeps_lift keeps_throw keeps_ret keeps_root keeps_on_disk keeps_query : quiet.

(** Split binds and case analyses, and finish with the database. *)
Ltac quietly := repeat match goal with
  | |- keeps_transfers (_ ≫= _) => apply keeps_bind
  | |- keeps_transfers (match ?x with _ => _ end) => destruct x
  | |- forall _, _ => intros ?
  | |- keeps_transfers _ => solve [eauto 3 with quiet nocore]
  end.

Section Keeps.
Context `{Blake3} `{Hex} `{StoreCodec}.

Lemma keeps_get_content k : keeps_transfers (get_content k).
Proof. unfold get_content. quietly. Qed.
#[local] Hint Resolve keeps_get_content : quiet.
Lemma keeps_content_exists k : keeps_transfers (content_exists k).
Proof. unfold content_exists. quietly. Qed.
#[local] Hint Resolve keeps_content_exists : quiet.

Lemma keeps_add_content p b t : keeps_transfers (NodeStore.add_content p b t).
Proof. unfold NodeStore.add_content, insert_content. quietly. apply keeps_execute. intros d. by case_match. Qed.

Lemma keeps_complete_download id b t : keeps_transfers (complete_download id b t).
Proof. unfold complete_download, upsert_content. quietly. by apply keeps_execute. Qed.

Lemma keeps_remove_content id b : keeps_transfers (NodeStore.remove_content id b).
Proof. unfold NodeStore.remove_content. quietly. all: by apply keeps_execute. Qed.

Lemma keeps_update_content k f : keeps_transfers (update_content k f).
Proof. by apply keeps_execute. Qed.

Lemma keeps_verified a b c : keeps_transfers (verified a b c).
Proof. intros s. unfold verified. by destruct (verify_stored_content _ _ _ _). Qed.
#[local] Hint Resolve keeps_update_content keeps_verified : quiet.

Lemma keeps_verify_all : keeps_transfers verify_all.
Proof.
  apply keeps_bind; [apply keeps_query|]. induction a as [|[k row] rows IH]; cbn [verify_rows]; [quietly|].
  apply keeps_bind; [|done]. unfold verify_row. quietly.
Qed.
#[local] Hint Resolve keeps_verify_all : quiet.

Lemma keeps_list_content : keeps_transfers NodeStore.list_content.
Proof. unfold NodeStore.list_content. quietly. Qed.

Lemma keeps_counts : keeps_transfers counts.
Proof. unfold counts. quietly. Qed.
Lemma keeps_get_transfer id : keeps_transfers (get_transfer id).
Proof. unfold get_transfer. quietly. Qed.
Lemma keeps_list_transfers : keeps_transfers list_transfers.
Proof. unfold list_transfers. quietly. Qed.
End Keeps.
#[export] Hint Resolve keeps_get_content keeps_content_exists keeps_add_content keeps_complete_download
  keeps_remove_content keeps_list_content keeps_counts keeps_get_transfer keeps_list_transfers : quiet.

Lemma quiet_bind {A B} (c : rio A) (f : A -> rio B) : quiet c -> (forall a, quiet (f a)) -> quiet (c ≫= f).
Proof.
  intros Hc Hf rt. unfold mbind, st_bind. specialize (Hc rt). destruct (c rt) as [rt1 [a|e]]; [|done].
  cbn [fst] in *. rewrite <- Hc. apply Hf.
Qed.
Lemma quiet_lift {A} (r : result (list Z) A) : quiet (lift r).
Proof. done. Qed.
Lemma quiet_throw {A} e : quiet (throw e : rio A).
Proof. done. Qed.
Lemma quiet_ret {A} (a : A) : quiet (mret a).
Proof. done. Qed.
Lemma quiet_gets {A} (f : NodeRuntime -> A) : quiet (gets f).
Proof. done. Qed.
Lemma quiet_modify f : (forall rt, view (f rt) = view rt) -> quiet (modify f).
Proof. intros Hf rt. apply Hf. Qed.
Lemma quiet_ignore {A} (c : rio A) : quiet c -> quiet (ignore c).
Proof. intros Hc rt. apply Hc. Qed.
Lemma quiet_on_store {A} (c : sio A) : keeps_transfers c -> quiet (on_store c).
Proof.
  intros Hc rt. unfold on_store. destruct (Hc (store rt)) as [H1 H2]. destruct (c (store rt)) as [s r].
  cbn [fst] in *. unfold view, with_store. cbn [store threads controls downloads counters]. by rewrite H1, H2.
Qed.
#[export] Hint Resolve quiet_lift quiet_throw quiet_ret quiet_gets quiet_ignore quiet_on_store : quiet.

Ltac quietly ::= repeat match goal with
  | |- keeps_transfers (_ ≫= _) => apply keeps_bind
  | |- keeps_transfers (match ?x with _ => _ end) => destruct x
  | |- quiet (_ ≫= _) => apply quiet_bind
  | |- quiet (match ?x with _ => _ end) => destruct x
  | |- forall _, _ => intros ?
  | |- keeps_transfers _ => solve [eauto 3 with quiet nocore]
  | |- quiet _ => solve [eauto 3 with quiet nocore]
  end.

Lemma view_thread t rt : is_download t = false -> view (with_threads (threads rt ++ [t]) rt) = view rt.
Proof.
  intros Ht. unfold view, with_threads. cbn [store threads controls downloads counters].
  rewrite !omap_app, count_app. destruct t; try done; cbn; by rewrite !app_nil_r, Z.add_0_r.
Qed.

Section Quiet.
Context `{Blake3} `{Hex} `{StoreCodec} `{Json}.

Lemma quiet_start_provider c : quiet (start_provider c).
Proof.
  unfold start_provider. quietly. all: try (by apply quiet_modify). unfold thread_spawn. apply quiet_modify.
  intros rt. by apply view_thread.
Qed.
Lemma quiet_stop_provider c : quiet (stop_provider c).
Proof. unfold stop_provider. apply quiet_modify. intros rt. by case_match. Qed.
#[local] Hint Resolve quiet_start_provider quiet_stop_provider : quiet.

Lemma quiet_add_content p b : quiet (add_content p b).
Proof. unfold add_content. quietly. Qed.
Lemma quiet_remove_content p b : quiet (remove_content p b).
Proof. unfold remove_content. quietly. Qed.
Lemma quiet_list_content : quiet list_content.
Proof. unfold list_content. quietly. Qed.
#[local] Hint Resolve quiet_add_content quiet_remove_content quiet_list_content : quiet.

Lemma quiet_start_providers l : quiet (start_providers l).
Proof. induction l; cbn [start_providers]; quietly. Qed.
End Quiet.

(** ** The invariant *)

Definition live_status (s : list Z) : Prop := s ∈ [str "running"; str "pausing"; str "interrupted"].

(** The table of transfers: identifiers are given out once, and a content has at most one
    transfer that is not finished. *)
Definition rows_ok (rows : list TransferRow) (last_id : Z) : Prop :=
  NoDup (map tr_id rows) /\ Forall (fun r => tr_id r <= last_id) rows
  /\ forall r1 r2, r1 ∈ rows -> r2 ∈ rows -> unfinished r1 = true -> unfinished r2 = true ->
       tr_content_id r1 = tr_content_id r2 -> tr_id r1 = tr_id r2.

Record Inv (v : View) : Prop := {
  inv_active : v_active v = v_workers v mod 2 ^ 64;
  inv_rows : rows_ok (v_rows v) (v_sequence v);
  inv_live : NoDup (v_live v);
  inv_status : forall id, id ∈ v_live v -> exists r, r ∈ v_rows v /\ tr_id r = id /\ live_status (tr_status r);
  inv_downloads : forall id cell, v_downloads v !! id = Some cell <-> (id, cell) ∈ v_fetching v;
  inv_cells : forall id cell, (id, cell) ∈ v_fetching v -> (cell < v_cells v)%nat /\ id ∈ v_live v;
  inv_distinct : NoDup (v_fetching v).*2
}.

Lemma live_unfinished r : live_status (tr_status r) -> unfinished r = true.
Proof.
  unfold live_status, unfinished. intros Hs. apply bool_decide_eq_true_2.
  rewrite !elem_of_cons, elem_of_nil in Hs. rewrite !elem_of_cons. tauto.
Qed.

Lemma rows_same_id rows r1 r2 : NoDup (map tr_id rows) -> r1 ∈ rows -> r2 ∈ rows -> tr_id r1 = tr_id r2 -> r1 = r2.
Proof.
  intros Hnd H1 H2 He. apply list_elem_of_lookup in H1 as [i H1], H2 as [j H2].
  assert (i = j) as ->; [|congruence].
  apply (NoDup_lookup (map tr_id rows) i j (tr_id r1)); [exact Hnd| |]; rewrite list_lookup_fmap; [by rewrite H1|].
  by rewrite H2, He.
Qed.

(** Changing rows in place. *)
Lemma rows_ok_map g rows n :
  (forall r, r ∈ rows -> tr_id (g r) = tr_id r /\ tr_content_id (g r) = tr_content_id r
    /\ (unfinished (g r) = true -> unfinished r = true)) ->
  rows_ok rows n -> rows_ok (map g rows) n.
Proof.
  intros Hg (Hnd & Hle & Hone). split_and!.
  - replace (map tr_id (map g rows)) with (map tr_id rows); [done|]. rewrite map_map. apply map_ext_in.
    intros r Hr%list_elem_of_In. symmetry. by apply Hg.
  - apply Forall_forall. intros r Hr. apply list_elem_of_fmap in Hr as (r0 & -> & Hr). rewrite Forall_forall in Hle.
    rewrite (proj1 (Hg _ Hr)). by apply Hle.
  - intros r1 r2 Hr1 Hr2 U1 U2. apply list_elem_of_fmap in Hr1 as (x1 & -> & Hr1), Hr2 as (x2 & -> & Hr2).
    destruct (Hg _ Hr1) as (-> & -> & F1), (Hg _ Hr2) as (-> & -> & F2). apply Hone; auto.
Qed.

Definition set_rows (rows : list TransferRow) (v : View) : View :=
  mkView rows (v_sequence v) (v_cells v) (v_downloads v) (v_live v) (v_fetching v) (v_workers v) (v_active v).

Lemma Inv_map g v :
  (forall r, r ∈ v_rows v -> tr_id (g r) = tr_id r /\ tr_content_id (g r) = tr_content_id r
    /\ (unfinished (g r) = true -> unfinished r = true)
    /\ (tr_id r ∈ v_live v -> live_status (tr_status r) -> live_status (tr_status (g r)))) ->
  Inv v -> Inv (set_rows (map g (v_rows v)) v).
Proof.
  intros Hg [Ha Hr Hl Hs Hd Hc Hx]. split; cbn [set_rows v_active v_workers v_rows v_sequence v_live v_downloads v_fetching v_cells]; try done.
  - apply rows_ok_map; [|done]. naive_solver.
  - intros id Hid. destruct (Hs id Hid) as (r & Hin & <- & Hst). exists (g r). destruct (Hg r Hin) as (-> & _ & _ & Hlive).
    split_and!; [|done|by apply Hlive]. apply list_elem_of_fmap. by exists r.
Qed.

(** A statement on rows takes effect or fails. *)
Lemma update_rows_cases w f s s' r :
  update_rows w f s = (s', r) ->
  same_files s s' /\ content (db s') = content (db s) /\ sequence (db s') = sequence (db s)
  /\ ((r = Ok tt /\ transfers (db s') = map (fun r => if w r then f r else r) (transfers (db s)))
      \/ (is_ok r = false /\ transfers (db s') = transfers (db s))).
Proof.
  intros [Hs [Hx|[Hd [e ->]]]]%execute_cases; [|rewrite Hd; split_and!; (done || by right)].
  injection Hx as Hx <-. rewrite <- Hx. cbn [content sequence transfers set_transfers]. split_and!; try done. by left.
Qed.

Lemma view_rows rt rt' rows :
  controls rt' = controls rt -> downloads rt' = downloads rt -> threads rt' = threads rt ->
  active_downloads (counters rt') = active_downloads (counters rt) ->
  sequence (db (store rt')) = sequence (db (store rt)) -> transfers (db (store rt')) = rows ->
  view rt' = set_rows rows (view rt).
Proof. unfold view, set_rows. cbn. by intros -> -> -> -> -> ->. Qed.

(** An operation that changes rows in place, each by [P], or not at all. *)
Definition patches {A} (P : TransferRow -> TransferRow -> Prop) (c : sio A) : Prop := forall s,
  sequence (db (c s).1) = sequence (db s)
  /\ (transfers (db (c s).1) = transfers (db s)
      \/ exists g, (forall r, P r (g r)) /\ transfers (db (c s).1) = map g (transfers (db s))).

Lemma patches_update P (w : TransferRow -> bool) (f : TransferRow -> TransferRow) :
  (forall r, P r (if w r then f r else r)) -> patches P (update_rows w f).
Proof.
  intros Hp s. destruct (update_rows w f s) as [s' r] eqn:E. cbn [fst].
  apply update_rows_cases in E as (_ & _ & Hq & [[_ Ht]|[_ Ht]]); (split; [done|]); [right|by left]. by exists (fun r => if w r then f r else r).
Qed.

Lemma patches_lift {A B} P (r : result (list Z) A) (f : A -> sio B) :
  (forall a, patches P (f a)) -> patches P (lift r ≫= f).
Proof. intros Hf s. unfold mbind, st_bind, lift. destruct r as [a|e]; [apply Hf|]. cbn [fst]. auto. Qed.

(** The statements of the store. *)
Definition keeps_status (r r' : TransferRow) : Prop :=
  tr_id r' = tr_id r /\ tr_content_id r' = tr_content_id r /\ tr_status r' = tr_status r.
Definition sets_status (id : Z) (s : list Z) (r r' : TransferRow) : Prop :=
  if tr_id r =? id then tr_id r' = tr_id r /\ tr_content_id r' = tr_content_id r /\ tr_status r' = s else r' = r.
Definition interrupts (r r' : TransferRow) : Prop :=
  if working r then tr_id r' = tr_id r /\ tr_content_id r' = tr_content_id r /\ tr_status r' = str "interrupted"
  else r' = r.

Lemma patches_progress id p rate t : patches keeps_status (update_progress id p rate t).
Proof. unfold update_progress. repeat (apply patches_lift; intros ?). apply patches_update. intros r. by destruct (_ && _). Qed.
Lemma patches_transfer id s a b c e t : patches (sets_status id s) (update_transfer id s a b c e t).
Proof.
  unfold update_transfer. repeat (apply patches_lift; intros ?). apply patches_update. intros r.
  unfold sets_status, has_id. by destruct (tr_id r =? id).
Qed.
Lemma patches_state id s e t : patches (sets_status id s) (set_transfer_status id s e t).
Proof. apply patches_update. intros r. unfold sets_status, has_id. by destruct (tr_id r =? id). Qed.
Lemma patches_complete `{StoreCodec} id n k stats t :
  patches (sets_status id (str "completed")) (complete_transfer id n k stats t).
Proof.
  unfold complete_transfer. repeat (apply patches_lift; intros ?). apply patches_update. intros r.
  unfold sets_status, has_id. by destruct (tr_id r =? id).
Qed.
Lemma patches_mark t : patches interrupts (mark_running_interrupted t).
Proof. apply patches_update. intros r. unfold interrupts. by destruct (working r). Qed.

(** Their effect on the view. *)
Lemma on_store_patches {A} P (c : sio A) rt :
  patches P c ->
  threads (on_store c rt).1 = threads rt
  /\ (view (on_store c rt).1 = view rt
      \/ exists g, (forall r, P r (g r)) /\ view (on_store c rt).1 = set_rows (map g (v_rows (view rt))) (view rt)).
Proof.
  intros Hc. specialize (Hc (store rt)). unfold on_store. destruct (c (store rt)) as [s r]. cbn [fst] in *.
  split; [done|]. destruct Hc as [Hq [Ht|(g & Hg & Ht)]]; [left|right].
  - unfold view, with_store. cbn [store threads controls downloads counters]. by rewrite Hq, Ht.
  - exists g. split; [done|]. by apply view_rows.
Qed.

(** Preservation by a change of one row whose transfer was not finished, when the new
    status suits its worker. *)
Lemma Inv_sets id s g v :
  (forall r, sets_status id s r (g r)) -> Inv v ->
  (forall r, r ∈ v_rows v -> tr_id r = id -> unfinished r = true) ->
  (id ∈ v_live v -> live_status s) -> Inv (set_rows (map g (v_rows v)) v).
Proof.
  intros Hg Hinv Hu Hs. apply Inv_map; [|done]. intros r Hr. specialize (Hg r). unfold sets_status in Hg.
  destruct (Z.eqb_spec (tr_id r) id) as [Hid|Hid]; [|by rewrite Hg].
  destruct Hg as (-> & -> & ->). split_and!; [done..|intros _; by apply Hu|]. intros Hl _. apply Hs. by rewrite <- Hid.
Qed.

(** The row of a live transfer is not finished. *)
Lemma live_row v id r : Inv v -> id ∈ v_live v -> r ∈ v_rows v -> tr_id r = id -> live_status (tr_status r).
Proof.
  intros Hinv Hl Hr Hid. destruct (inv_status v Hinv id Hl) as (r' & Hr' & Hid' & Hs).
  destruct (inv_rows v Hinv) as [Hnd _]. assert (r = r') as ->; [|done]. eapply rows_same_id; try done. congruence.
Qed.

(** ** Threads *)

Lemma thread_split rt i t :
  threads rt !! i = Some t ->
  exists l1 l2, threads rt = l1 ++ t :: l2
    /\ (forall t' extra, <[i := t']> (threads rt ++ extra) = l1 ++ t' :: l2 ++ extra)
    /\ delete i (threads rt) = l1 ++ l2.
Proof.
  intros Ht. exists (take i (threads rt)), (drop (S i) (threads rt)).
  pose proof (lookup_lt_Some _ _ _ Ht) as Hi. split_and!.
  - symmetry. by apply take_drop_middle.
  - intros t' extra. rewrite insert_app_l by done. rewrite insert_take_drop by done.
    by rewrite <- app_assoc.
  - apply delete_take_drop.
Qed.

(** A thread goes on; the rest of the pool stays. *)
Lemma omap_middle {A B} (f : A -> option B) l1 x l2 :
  omap f (l1 ++ x :: l2) = omap f l1 ++ match f x with Some y => [y] | None => [] end ++ omap f l2.
Proof. rewrite omap_app. cbn. by destruct (f x). Qed.

Lemma live_fetching (l : list Thread) (id : Z) (cell : nat) : (id, cell) ∈ omap fetching l -> id ∈ omap live l.
Proof.
  rewrite !list_elem_of_omap. intros (t & Ht & Hf). exists t. split; [done|]. destruct t; by simplify_eq/=.
Qed.

(** ** Steps of the workers *)

Section Steps.
Context `{Blake3} `{Hex} `{StoreCodec} `{Json}.

Lemma report_Inv control progress rt : Inv (view rt) -> Inv (view (report control progress rt).1).
Proof using Type.
  intros Hinv. unfold report, mbind, st_bind, gets, modify. cbn [fst].
  destruct (controls rt !! control) as [c|]; [|done]. unfold ignore. cbn [fst].
  match goal with |- context [on_store _ ?r] => set (rt1 := r) end.
  assert (view rt1 = view rt) as Hv.
  { unfold rt1, view, with_downloads. cbn [store threads controls downloads counters]. by rewrite length_insert. }
  match goal with |- context [on_store ?c rt1] =>
    destruct (on_store_patches keeps_status c rt1) as [_ [->|(g & Hg & ->)]]; [apply patches_progress|..] end;
    rewrite Hv; [done|].
  apply Inv_map; [|done]. intros r _. unfold unfinished. destruct (Hg r) as (-> & -> & ->). by split_and!.
Qed.

Lemma fetched_Inv i transfer content_id control outcome rt :
  threads rt !! i = Some (Fetching transfer content_id control) ->
  Inv (view rt) -> Inv (view (fetched i transfer content_id control outcome rt)).
Proof using Type.
  intros Ht Hinv. destruct (thread_split _ _ _ Ht) as (l1 & l2 & Hl & Hins & _). specialize (Hins (Stopped transfer content_id control outcome) []).
  rewrite !app_nil_r in Hins. unfold fetched, becomes, with_downloads, with_threads. cbn [threads].
  destruct Hinv as [Ha Hr Hlive Hs Hd Hc Hx]. unfold view in *. cbn [v_active v_workers v_rows v_sequence v_live v_downloads v_fetching v_cells] in *.
  cbn [store threads controls downloads counters]. rewrite Hins. rewrite Hl in *.
  rewrite !omap_middle, ?count_app, ?count_cons in *. cbn [live fetching is_download app] in *.
  assert (t_id transfer ∉ omap live l1 ++ omap live l2) as Hni.
  { rewrite elem_of_app. apply NoDup_app in Hlive as (_ & Hdis & [Hn _]%NoDup_cons). intros [Hi|Hi]; [|done].
    apply (Hdis _ Hi). left. }
  split; cbn [v_active v_workers v_rows v_sequence v_live v_downloads v_fetching v_cells]; try done.
  - intros id cell. rewrite lookup_delete_Some, Hd, !elem_of_app, elem_of_cons. split; [naive_solver|].
    intros Hin. split; [|tauto]. intros <-. apply Hni. rewrite elem_of_app. destruct Hin as [Hi|Hi]; [left|right]; by apply live_fetching in Hi.
  - intros id cell Hin. apply Hc. rewrite elem_of_app in Hin |- *. rewrite elem_of_cons. tauto.
  - rewrite fmap_app, fmap_cons in Hx. rewrite fmap_app. apply NoDup_app in Hx as (N1 & N2 & [_ N3]%NoDup_cons).
    apply NoDup_app. split_and!; try done. intros x Hx1 Hx2. apply (N2 x Hx1). by right.
Qed.

(** Operations that change at most the row of one transfer, and spawn only providers. *)
Definition only_row (id : Z) (r r' : TransferRow) : Prop :=
  tr_id r' = tr_id r /\ tr_content_id r' = tr_content_id r /\ (tr_id r <> id -> r' = r).

Definition touches (id : Z) (rt rt' : NodeRuntime) : Prop :=
  (exists extra, Forall (fun t => is_download t = false) extra /\ threads rt' = threads rt ++ extra)
  /\ exists g, (forall r, only_row id r (g r)) /\ view rt' = set_rows (map g (v_rows (view rt))) (view rt).

Lemma set_rows_same v : set_rows (map (fun r => r) (v_rows v)) v = v.
Proof using Type. rewrite map_id. by destruct v. Qed.

Lemma touches_quiet id rt rt' extra :
  Forall (fun t => is_download t = false) extra -> threads rt' = threads rt ++ extra -> view rt' = view rt ->
  touches id rt rt'.
Proof using Type.
  intros He Ht Hv. split; [by exists extra|]. exists (fun r => r). rewrite set_rows_same. by repeat split.
Qed.

Lemma touches_same id rt rt' : threads rt' = threads rt -> view rt' = view rt -> touches id rt rt'.
Proof using Type. intros Ht. apply (touches_quiet id rt rt' []); [constructor|by rewrite app_nil_r]. Qed.

#[local] Instance touches_preorder id : PreOrder (touches id).
Proof using Type.
  split; [intros rt; by apply touches_same|].
  intros r1 r2 r3 [(e1 & F1 & T1) (g1 & G1 & V1)] [(e2 & F2 & T2) (g2 & G2 & V2)]. split.
  - exists (e1 ++ e2). rewrite T2, T1, app_assoc. split; [by apply Forall_app|done].
  - exists (fun r => g2 (g1 r)). split.
    + intros r. destruct (G1 r) as (A1 & B1 & C1), (G2 (g1 r)) as (A2 & B2 & C2). split_and!; [congruence..|].
      intros Hn. rewrite C2 by congruence. by apply C1.
    + rewrite V2, V1. unfold set_rows. cbn. by rewrite map_map.
Qed.

Definition touching {A} (id : Z) (c : rio A) : Prop := forall rt, touches id rt (c rt).1.

Lemma touching_bind {A B} id (c : rio A) (f : A -> rio B) :
  touching id c -> (forall a, touching id (f a)) -> touching id (c ≫= f).
Proof using Type.
  intros Hc Hf rt. unfold mbind, st_bind. specialize (Hc rt). destruct (c rt) as [rt1 [a|e]]; [|done].
  cbn [fst] in *. etransitivity; [exact Hc|apply Hf].
Qed.
Lemma touching_ignore {A} id (c : rio A) : touching id c -> touching id (ignore c).
Proof using Type. done. Qed.
Lemma touching_pure {A} id (c : rio A) : (forall rt, (c rt).1 = rt) -> touching id c.
Proof using Type. intros Hc rt. rewrite Hc. done. Qed.
Lemma touching_counters id f : (forall c, active_downloads (f c) = active_downloads c) -> touching id (modify (with_counters f)).
Proof using Type. intros Hf rt. apply touches_same; [done|]. unfold view, with_counters. cbn. by rewrite Hf. Qed.
Lemma touching_keeps {A} id (c : sio A) : keeps_transfers c -> touching id (on_store c).
Proof using Type.
  intros Hc rt. apply touches_same; [|by apply quiet_on_store]. unfold on_store. by destruct (c (store rt)).
Qed.
Lemma touching_sets {A} id s (c : sio A) : patches (sets_status id s) c -> touching id (on_store c).
Proof using Type.
  intros Hc rt. destruct (on_store_patches _ _ rt Hc) as [Ht [Hv|(g & Hg & Hv)]]; [by apply touches_same|].
  split; [exists []; rewrite app_nil_r; split; [constructor|done]|]. exists g. split; [|done]. intros r. specialize (Hg r).
  unfold sets_status in Hg. unfold only_row. destruct (Z.eqb_spec (tr_id r) id); [naive_solver|]. by rewrite Hg.
Qed.
Lemma touching_start_provider id c : touching id (start_provider c).
Proof using Type.
  intros rt. unfold start_provider. unfold mbind, st_bind, gets. destruct (bootstrap (config rt)); [|done].
  case_bool_decide; [done|]. cbn [modify thread_spawn fst]. apply (touches_quiet id _ _ [Providing c (length (flags rt))]).
  - by repeat constructor.
  - done.
  - rewrite view_thread by done. done.
Qed.

Lemma touching_fail id e : touching id (fail_transfer id e).
Proof using Type.
  unfold fail_transfer. apply touching_bind; [by apply touching_pure|]. intros t. apply touching_bind.
  - apply touching_ignore. eapply touching_sets, patches_state.
  - intros _. by apply touching_counters.
Qed.

Lemma touching_finish transfer content_id control outcome :
  touching (t_id transfer) (finish_fetch transfer content_id control outcome).
Proof using Type.
  destruct outcome as [stats|error]; cbn [finish_fetch].
  - intros rt. unfold finish_download.
    pose proof (touching_keeps (t_id transfer) _ (keeps_complete_download content_id (t_share_on_complete transfer) (now rt)) rt) as Ht.
    destruct (on_store _ rt) as [rt1 [content|e]]; cbn [fst] in Ht; (etransitivity; [exact Ht|]); [|apply touching_fail].
    apply (touching_bind (t_id transfer)); [eapply touching_ignore, touching_sets, patches_complete|]. intros _.
    apply (touching_bind (t_id transfer)); [by apply touching_counters|]. intros _.
    destruct (cr_shared content); [apply touching_ignore, touching_start_provider|by apply touching_pure].
  - unfold finish_stopped_download. apply touching_bind; [by apply touching_pure|]. intros heap.
    apply touching_bind; [by apply touching_pure|]. intros t.
    destruct (heap !! control ≫= stop_reason) as [[|]|]; [eapply touching_ignore, touching_sets, patches_state..|apply touching_fail].
Qed.

Lemma omap_none {B} (f : Thread -> option B) l :
  (forall t, is_download t = false -> f t = None) -> Forall (fun t => is_download t = false) l -> omap f l = [].
Proof using Type. intros Hf. induction 1 as [|t l Ht _ IH]; [done|]. cbn. by rewrite Hf. Qed.

Lemma count_none l : Forall (fun t => is_download t = false) l -> count is_download l = 0.
Proof using Type. induction 1 as [|t l Ht _ IH]; [done|]. by rewrite count_cons, Ht, IH. Qed.

(** A worker that has finished no longer counts as live. *)
Lemma Inv_unlive v id l1 l2 :
  v_live v = l1 ++ id :: l2 -> (forall cell, (id, cell) ∉ v_fetching v) -> Inv v ->
  Inv (mkView (v_rows v) (v_sequence v) (v_cells v) (v_downloads v) (l1 ++ l2) (v_fetching v) (v_workers v) (v_active v)).
Proof using Type.
  intros Hl Hf [Ha Hr Hlive Hs Hd Hc Hx]. rewrite Hl in *. apply NoDup_app in Hlive as (N1 & N2 & [_ N3]%NoDup_cons).
  split; cbn [v_active v_workers v_rows v_sequence v_live v_downloads v_fetching v_cells]; try done.
  - apply NoDup_app. split_and!; try done. intros x Hx1 Hx2. apply (N2 x Hx1). by right.
  - intros j Hj. apply Hs. rewrite elem_of_app in Hj |- *. rewrite elem_of_cons. tauto.
  - intros j cell Hj. destruct (Hc j cell Hj) as [Hlt Hin]. split; [done|].
    rewrite elem_of_app, elem_of_cons in Hin. rewrite elem_of_app. destruct Hin as [?|[->|?]]; [tauto| |tauto].
    by apply Hf in Hj.
Qed.

Lemma finish_Inv i transfer content_id control outcome rt :
  threads rt !! i = Some (Stopped transfer content_id control outcome) -> Inv (view rt) ->
  Inv (view (becomes i Ending (finish_fetch transfer content_id control outcome rt).1)).
Proof using Type.
  intros Ht Hinv. destruct (touching_finish transfer content_id control outcome rt) as [(extra & He & Hth) (g & Hg & Hv)].
  set (rt' := (finish_fetch transfer content_id control outcome rt).1) in *.
  destruct (thread_split _ _ _ Ht) as (l1 & l2 & Hl & Hins & _).
  assert (omap live (threads rt) = omap live l1 ++ t_id transfer :: omap live l2) as Hlive by (rewrite Hl, omap_middle; done).
  assert (NoDup (omap live (threads rt))) as Hnd by apply (inv_live _ Hinv).
  assert (forall cell, (t_id transfer, cell) ∉ omap fetching (threads rt)) as Hnf.
  { intros cell Hin. rewrite Hl, omap_middle in Hin. cbn [fetching app] in Hin.
    rewrite Hlive in Hnd. apply NoDup_app in Hnd as (_ & N2 & [N3 _]%NoDup_cons).
    rewrite elem_of_app in Hin. destruct Hin as [Hin|Hin]; apply live_fetching in Hin; [|done]. apply (N2 _ Hin). left. }
  assert (Inv (mkView (v_rows (view rt)) (v_sequence (view rt)) (v_cells (view rt)) (v_downloads (view rt))
    (omap live l1 ++ omap live l2) (v_fetching (view rt)) (v_workers (view rt)) (v_active (view rt)))) as Hinv1.
  { eapply Inv_unlive; [exact Hlive|exact Hnf|done]. }
  assert (view (becomes i Ending rt') = set_rows (map g (v_rows (view rt)))
    (mkView (v_rows (view rt)) (v_sequence (view rt)) (v_cells (view rt)) (v_downloads (view rt))
    (omap live l1 ++ omap live l2) (v_fetching (view rt)) (v_workers (view rt)) (v_active (view rt)))) as ->.
  { unfold view, set_rows in Hv. injection Hv as V1 V2 V3 V4 V5 V6 V7 V8.
    unfold view, becomes, with_threads, set_rows. cbn [store threads controls downloads counters v_rows v_sequence v_cells v_downloads v_fetching v_workers v_active].
    rewrite V1, V2, V3, V4, V8, Hth, Hins, Hl.
    change (l1 ++ Ending :: l2 ++ extra) with (l1 ++ [Ending] ++ l2 ++ extra).
    rewrite !omap_app, !count_app, (omap_none live extra), (omap_none fetching extra), (count_none extra); try done;
      try (intros []; by intros). cbn [omap list_omap live fetching app v_live]. rewrite !app_nil_r, !count_cons.
    change (count is_download []) with 0. cbn [is_download]. f_equal. lia. }
  apply (Inv_map g) in Hinv1; [done|]. intros r Hr. cbn [v_rows v_live] in *. destruct (Hg r) as (A & B & C).
  destruct (decide (tr_id r = t_id transfer)) as [E|E]; [|by rewrite (C E)].
  split_and!; [done|done| |].
  - intros _. apply live_unfinished. eapply (live_row (view rt)); [done| |exact Hr|exact E].
    cbn [view v_live]. rewrite Hlive, elem_of_app, elem_of_cons. tauto.
  - intros Hin _. exfalso. rewrite E in Hin. rewrite Hlive in Hnd. apply NoDup_app in Hnd as (_ & N2 & [N3 _]%NoDup_cons).
    apply elem_of_app in Hin as [Hin|Hin]; [|done]. apply (N2 _ Hin). left.
Qed.

Lemma ended_Inv i rt :
  threads rt !! i = Some Ending -> Inv (view rt) -> Inv (view (ends i (with_counters (add_downloads (-1)) rt))).
Proof using Type.
  intros Ht [Ha Hr Hlive Hs Hd Hc Hx]. destruct (thread_split _ _ _ Ht) as (l1 & l2 & Hl & _ & Hdel).
  unfold view, ends, with_threads, with_counters in *. cbn [store threads controls downloads counters active_downloads add_downloads] in *.
  rewrite Hdel. rewrite Hl in *. rewrite !omap_middle, !count_app, ?count_cons in *. cbn [live fetching is_download app] in *.
  cbn [v_active v_workers v_rows v_sequence v_live v_downloads v_fetching v_cells] in *.
  split; cbn [v_active v_workers v_rows v_sequence v_live v_downloads v_fetching v_cells]; rewrite ?omap_app, ?count_app; try done.
  unfold fetch_add. rewrite Ha, Zplus_mod_idemp_l. f_equal. lia.
Qed.

(** Threads of providers come and go unnoticed. *)
Lemma view_provider i t rt :
  threads rt !! i = Some t -> is_download t = false ->
  view (ends i rt) = view rt /\ forall t', is_download t' = false -> view (becomes i t' rt) = view rt.
Proof using Type.
  intros Ht Hp. destruct (thread_split _ _ _ Ht) as (l1 & l2 & Hl & Hins & Hdel).
  assert (forall t, is_download t = false -> live t = None /\ fetching t = None) as Hn by (by intros []).
  destruct (Hn _ Hp) as [L F]. split.
  - unfold view, ends, with_threads. cbn [store threads controls downloads counters]. rewrite Hdel, Hl.
    by rewrite !omap_middle, !omap_app, L, F, !count_app, count_cons, Hp.
  - intros t' Hp'. destruct (Hn _ Hp') as [L' F']. unfold view, becomes, with_threads. cbn [store threads controls downloads counters].
    specialize (Hins t' []). rewrite !app_nil_r in Hins. rewrite Hins, Hl.
    by rewrite !omap_middle, L, F, L', F', !count_app, !count_cons, Hp, Hp'.
Qed.

Lemma shutdown_Inv rt : Inv (view rt) -> Inv (view (shutdown rt).1).
Proof using Type.
  intros Hinv. unfold shutdown, mbind, st_bind, modify, gets, ignore. cbn [fst].
  match goal with |- context [on_store _ ?r] => set (rt1 := r) end.
  assert (view rt1 = view rt) as Hv.
  { unfold rt1, view. cbn. by rewrite length_imap. }
  match goal with |- context [on_store ?c rt1] =>
    destruct (on_store_patches interrupts c rt1) as [_ [->|(g & Hg & ->)]]; [apply patches_mark|..] end; rewrite Hv; [done|].
  apply Inv_map; [|done]. intros r _. specialize (Hg r). unfold interrupts in Hg.
  destruct (working r) eqn:Ew; [|by rewrite Hg]. destruct Hg as (-> & -> & ->). split_and!; try done.
  - intros _. unfold working in Ew. apply bool_decide_eq_true in Ew. apply live_unfinished. unfold live_status.
    rewrite !elem_of_cons, elem_of_nil in Ew. rewrite !elem_of_cons. tauto.
  - intros _ _. right. right. left.
Qed.

(** ** Starting a download *)

Lemma on_store_keeps {A} (c : sio A) rt rt' r :
  keeps_transfers c -> on_store c rt = (rt', r) -> view rt' = view rt.
Proof using Type. intros Hc Hx. pose proof (quiet_on_store c Hc rt) as Hq. by rewrite Hx in Hq. Qed.

Lemma update_transfer_Ok id s a b c e t st st' :
  update_transfer id s a b c e t st = (st', Ok tt) ->
  sequence (db st') = sequence (db st)
  /\ exists g, (forall r, sets_status id s r (g r)) /\ transfers (db st') = map g (transfers (db st)).
Proof using Type.
  unfold update_transfer. intros Hx. do 3 (apply st_ok_inv in Hx as (? & ? & [= <- _] & Hx)).
  apply update_rows_cases in Hx as (_ & _ & Hq & [[_ Ht]|[? _]]); [|done]. split; [done|].
  eexists. split; [|exact Ht]. intros r. unfold sets_status, has_id. by destruct (tr_id r =? id).
Qed.

Lemma prepare_cases transfer rt rt' r :
  prepare_download transfer rt = (rt', r) ->
  (is_ok r = false /\ view rt' = view rt)
  \/ (exists content_id control g, r = Ok (content_id, control)
        /\ threads rt' = threads rt /\ downloads rt' = downloads rt /\ controls rt' = controls rt
        /\ (forall r, sets_status (t_id transfer) (str "running") r (g r))
        /\ view rt' = set_rows (map g (v_rows (view rt))) (view rt)).
Proof using Type.
  unfold prepare_download. intros Hx.
  apply st_bind_inv in Hx as [(rt0 & c & [= <- <-] & Hx)|(e & [=] & ->)].
  apply st_bind_inv in Hx as [(rt0 & u & [= <- _] & Hx)|(e & [= <- _] & ->)]; [|by left].
  apply st_bind_inv in Hx as [(rt0 & content_id & [= <- _] & Hx)|(e & [= <- _] & ->)]; [|by left].
  apply st_bind_inv in Hx as [(rt1 & u1 & Hd & Hx)|(e & Hd & ->)].
  2:{ left. split; [done|]. by eapply (on_store_keeps (on_disk _ sync)), Hd; apply keeps_on_disk. }
  assert (threads rt1 = threads rt /\ downloads rt1 = downloads rt /\ controls rt1 = controls rt) as (T1 & D1 & C1).
  { unfold on_store in Hd. destruct (on_disk _ sync (store rt)). by injection Hd as <- _. }
  assert (view rt1 = view rt) as V1. { by eapply (on_store_keeps (on_disk _ sync)), Hd; apply keeps_on_disk. }
  apply st_bind_inv in Hx as [(rt2 & t & [= <- <-] & Hx)|(e & [=] & ->)].
  apply st_bind_inv in Hx as [(rt2 & [] & Hu & Hx)|(e & Hu & ->)]; unfold on_store in Hu;
    destruct (update_transfer _ _ _ _ _ _ _ _) as [s r0] eqn:E; injection Hu as <- Hr0.
  2:{ left. split; [done|]. rewrite <- V1. subst r0. unfold update_transfer in E.
      repeat (apply st_bind_inv in E as [(? & ? & [= <- _] & E)|(? & [= <- _] & ?)]; [|done]).
      apply update_rows_cases in E as (_ & _ & Hq & [[? _]|[_ Ht]]); [done|].
      unfold view, with_store. cbn [store threads controls downloads counters]. by rewrite Hq, Ht. }
  subst r0. apply update_transfer_Ok in E as (Hq & g & Hg & Ht).
  injection Hx as <- <-. right. do 2 eexists. exists g. split_and!; try done. rewrite <- V1. by apply view_rows.
Qed.

(** A new worker with a new control. *)
Definition spawned (id : Z) (v : View) : View :=
  mkView (v_rows v) (v_sequence v) (S (v_cells v)) (<[id := v_cells v]> (v_downloads v)) (v_live v ++ [id])
    (v_fetching v ++ [(id, v_cells v)]) (v_workers v + 1) (fetch_add (v_active v) 1).

Lemma Inv_spawned id v :
  Inv v -> id ∉ v_live v -> (exists r, r ∈ v_rows v /\ tr_id r = id /\ live_status (tr_status r)) -> Inv (spawned id v).
Proof using Type.
  intros [Ha Hr Hlive Hs Hd Hc Hx] Hn Hrow. assert (forall cell, (id, cell) ∉ v_fetching v) as Hnf.
  { intros cell Hin. by apply Hc in Hin as [_ ?]. }
  split; cbn [spawned v_active v_workers v_rows v_sequence v_live v_downloads v_fetching v_cells]; try done.
  - unfold fetch_add. by rewrite Ha, Zplus_mod_idemp_l.
  - apply NoDup_app. split_and!; [done| |apply NoDup_singleton]. intros x Hx1 ->%list_elem_of_singleton. done.
  - intros j. rewrite elem_of_app, list_elem_of_singleton. intros [Hj| ->]; [by apply Hs|done].
  - intros j cell. rewrite lookup_insert_Some, elem_of_app, list_elem_of_singleton, Hd. split.
    + intros [[<- <-]|[_ Hj]]; [by right|by left].
    + intros [Hj|[= -> ->]]; [|by left]. right. split; [|done]. intros <-. by apply Hnf in Hj.
  - intros j cell. rewrite elem_of_app, list_elem_of_singleton. intros [Hj|[= -> ->]].
    + destruct (Hc _ _ Hj) as [? ?]. split; [lia|]. apply elem_of_app. by left.
    + split; [lia|]. apply elem_of_app. right. by apply list_elem_of_singleton.
  - rewrite fmap_app. cbn. apply NoDup_app. split_and!; [done| |apply NoDup_singleton].
    intros x Hx1 ->%list_elem_of_singleton. apply list_elem_of_fmap in Hx1 as ([j cell] & Hcell & Hin).
    cbn in Hcell. apply Hc in Hin as [? _]. lia.
Qed.

(** A spawned download: the invariant holds again, other transfers stay as they are, and the worker is
    refused only when the preparation failed. *)
Lemma spawn_Inv transfer rt rt' res :
  spawn_download transfer rt = (rt', res) -> Inv (view rt) ->
  t_id transfer ∉ v_live (view rt) ->
  (exists row, row ∈ v_rows (view rt) /\ tr_id row = t_id transfer /\ unfinished row = true) ->
  Inv (view rt')
  /\ (exists g, (forall r, only_row (t_id transfer) r (g r)) /\ v_rows (view rt') = map g (v_rows (view rt)))
  /\ ((v_live (view rt') = v_live (view rt) /\ v_workers (view rt') = v_workers (view rt) /\ is_ok res = false)
      \/ (v_live (view rt') = v_live (view rt) ++ [t_id transfer]
          /\ v_workers (view rt') = v_workers (view rt) + 1 /\ res = Ok tt)).
Proof using Type.
  unfold spawn_download. intros Hx Hinv Hnl (row & Hrow & Hid & Hu).
  apply st_bind_inv in Hx as [(rt1 & [content_id control] & Hp & Hx)|(e & Hp & ->)]; apply prepare_cases in Hp.
  2:{ destruct Hp as [[_ ->]|(? & ? & ? & ? & _)]; [|done]. split; [done|]. split; [|by left].
      exists (fun r => r). rewrite map_id. by repeat split. }
  destruct Hp as [[? _]|(cid & ctl & g & [= <- <-] & T1 & D1 & C1 & Hg & V1)]; [done|].
  destruct (inv_rows _ Hinv) as (Hnd & _ & _).
  assert (Inv (view rt1)) as Hinv1.
  { rewrite V1. apply (Inv_sets (t_id transfer) (str "running")); [done|done| |done].
    intros r Hr Hri. assert (r = row) as ->; [|done]. eapply rows_same_id; try done. congruence. }
  assert (forall r, only_row (t_id transfer) r (g r)) as Honly.
  { intros r. specialize (Hg r). unfold sets_status in Hg. unfold only_row.
    destruct (Z.eqb_spec (tr_id r) (t_id transfer)); [naive_solver|]. by rewrite Hg. }
  assert (downloads rt1 !! t_id transfer = None) as Hnone.
  { destruct (downloads rt1 !! t_id transfer) as [cell|] eqn:E; [|done]. exfalso. apply Hnl.
    apply (inv_downloads _ Hinv1) in E. apply (inv_cells _ Hinv1) in E as [_ E]. by rewrite V1 in E. }
  unfold mbind, st_bind, gets, modify, thread_spawn in Hx. rewrite bool_decide_eq_false_2 in Hx by (rewrite Hnone; by intros [? ?]).
  injection Hx as <- <-.
  match goal with |- Inv (view ?x) /\ _ => assert (view x = spawned (t_id transfer) (view rt1)) as Hv end.
  { unfold view, spawned. cbn [with_threads with_counters with_downloads store threads controls downloads counters
      add_downloads active_downloads v_rows v_sequence v_cells v_downloads v_live v_fetching v_workers v_active].
    rewrite !omap_app, count_app, length_app. cbn [length]. f_equal; [lia|done..]. }
  rewrite Hv. split_and!.
  - apply Inv_spawned; [done|by rewrite V1|]. rewrite V1. cbn [set_rows v_rows]. exists (g row). specialize (Hg row).
    unfold sets_status in Hg. rewrite Hid, Z.eqb_refl in Hg. destruct Hg as (-> & _ & ->). split_and!; [|done|left].
    apply list_elem_of_fmap. by exists row.
  - exists g. rewrite V1. done.
  - right. rewrite V1. done.
Qed.

(** ** Requests *)

Lemma transfer_from_row_Ok row rec :
  transfer_from_row row = Ok rec ->
  t_id rec = tr_id row /\ t_status rec = tr_status row /\ t_content_id rec = tr_content_id row.
Proof using Type.
  unfold transfer_from_row. intros Hx. apply bind_Ok in Hx as (cs & _ & Hx).
  destruct (negb _); [done|]. destruct (_ || _); [done|]. invert_ok. done.
Qed.

Lemma get_transfer_row id rt rt' rec :
  on_store (get_transfer id) rt = (rt', Ok (Some rec)) ->
  view rt' = view rt /\ threads rt' = threads rt /\ config rt' = config rt
  /\ exists row, row ∈ v_rows (view rt) /\ tr_id row = id /\ t_id rec = id /\ t_status rec = tr_status row.
Proof using Type.
  intros Hx. split; [eapply on_store_keeps; [|exact Hx]; apply keeps_get_transfer|].
  unfold on_store in Hx. destruct (get_transfer id (store rt)) as [s r] eqn:E. injection Hx as <- ->.
  split; [done|]. split; [done|]. apply query_Ok in E as (_ & _ & E).
  destruct (List.find (has_id id) (transfers (db (store rt)))) as [row|] eqn:Ef; [|done].
  apply find_some in Ef as [Hin Hid%Z.eqb_eq]. apply fmap_Ok in E as (rec' & Hrec & [= <-]).
  apply transfer_from_row_Ok in Hrec as (A & B & _). exists row. cbn [view v_rows]. split_and!; [by apply list_elem_of_In|done|congruence|done].
Qed.

(** What a request may do to the workers: at most one more, and only below the limit. *)
Definition within_limit (rt rt' : NodeRuntime) : Prop :=
  v_workers (view rt') = v_workers (view rt)
  \/ (v_workers (view rt') = v_workers (view rt) + 1
      /\ v_active (view rt) < max_concurrent_transfers (config rt)).

Lemma pause_Inv id rt rt' res :
  pause_transfer id rt = (rt', res) -> Inv (view rt) -> Inv (view rt') /\ within_limit rt rt'.
Proof using Type.
  unfold pause_transfer, within_limit. intros Hx Hinv.
  apply st_bind_inv in Hx as [(rt1 & found & Hf & Hx)|(e & Hf & ->)];
    [|apply (on_store_keeps _ _ _ _ (keeps_get_transfer id)) in Hf as ->; eauto].
  apply st_bind_inv in Hx as [(rt2 & rec & [= <- Hrec%ok_or_Ok] & Hx)|(e & [= <- _] & ->)];
    [subst found|apply (on_store_keeps _ _ _ _ (keeps_get_transfer id)) in Hf as ->; eauto].
  apply get_transfer_row in Hf as (V1 & _ & _ & row & Hrow & Hid & Hrid & Hst).
  destruct (negb _ && negb _) eqn:Estatus; [injection Hx as <- <-; rewrite V1; eauto|].
  apply st_bind_inv in Hx as [(rt2 & d & [= <- <-] & Hx)|(e & [=] & ->)].
  apply st_bind_inv in Hx as [(rt2 & cell & [= <- _] & Hx)|(e & [= <- _] & ->)]; [|rewrite V1; eauto].
  unfold mbind, st_bind, gets, modify in Hx.
  match type of Hx with on_store ?c ?r = _ => set (rt2 := r) in Hx end.
  match type of Hx with on_store ?c rt2 = _ =>
    pose proof (on_store_patches (sets_status id (str "pausing")) c rt2 (patches_state _ _ _ _)) as [_ Hp] end.
  rewrite Hx in Hp. cbn [fst] in Hp. assert (view rt2 = view rt) as V2.
  { rewrite <- V1. unfold rt2, view. cbn. by rewrite length_alter. }
  rewrite V2 in Hp. destruct Hp as [->|(g & Hg & ->)]; [eauto|]. split; [|by left].
  apply (Inv_sets id (str "pausing")); [done|done| |intros _; right; left].
  intros r Hr Hr'. assert (r = row) as ->. { destruct (inv_rows _ Hinv) as [Hnd _]. eapply rows_same_id; try done. congruence. }
  apply live_unfinished. unfold live_status. rewrite Hst in Estatus.
  destruct (bool_decide_reflect (tr_status row = str "running")) as [->|]; [left|].
  destruct (bool_decide_reflect (tr_status row = str "pausing")) as [->|]; [right; left|done].
Qed.

Lemma spawn_request transfer rt rt1 rt' res :
  view rt1 = view rt -> config rt1 = config rt -> spawn_download transfer rt1 = (rt', res) -> Inv (view rt) ->
  t_id transfer ∉ v_live (view rt) ->
  (exists row, row ∈ v_rows (view rt) /\ tr_id row = t_id transfer /\ unfinished row = true) ->
  v_active (view rt) < max_concurrent_transfers (config rt) -> Inv (view rt') /\ within_limit rt rt'.
Proof using Type.
  intros V C Hx Hinv Hn Hrow Hlt. rewrite <- V in Hinv, Hn, Hrow.
  destruct (spawn_Inv _ _ _ _ Hx Hinv Hn Hrow) as (Hinv' & _ & Hw). split; [done|]. unfold within_limit. rewrite V in Hw.
  destruct Hw as [(_ & Hw & _)|(_ & Hw & _)]; [by left|by right].
Qed.

Lemma resume_Inv id rt rt' res :
  resume_transfer id rt = (rt', res) -> Inv (view rt) -> Inv (view rt') /\ within_limit rt rt'.
Proof using Type.
  unfold resume_transfer. intros Hx Hinv. unfold within_limit.
  apply st_bind_inv in Hx as [(rt1 & c & [= <- <-] & Hx)|(e & [=] & ->)].
  apply st_bind_inv in Hx as [(rt1 & k & [= <- <-] & Hx)|(e & [=] & ->)].
  destruct (Z.geb_spec (active_downloads (counters rt)) (max_concurrent_transfers (config rt))) as [|Hlt];
    [injection Hx as <- <-; eauto|].
  apply st_bind_inv in Hx as [(rt1 & found & Hf & Hx)|(e & Hf & ->)];
    [|apply (on_store_keeps _ _ _ _ (keeps_get_transfer id)) in Hf as ->; eauto].
  apply st_bind_inv in Hx as [(rt2 & rec & [= <- Hrec%ok_or_Ok] & Hx)|(e & [= <- _] & ->)];
    [subst found|apply (on_store_keeps _ _ _ _ (keeps_get_transfer id)) in Hf as ->; eauto].
  apply get_transfer_row in Hf as (V1 & _ & C1 & row & Hrow & Hid & Hrid & Hst).
  destruct (bool_decide_reflect (t_status rec = str "paused")) as [Hp|]; cbn [negb] in Hx;
    [|injection Hx as <- <-; rewrite V1; eauto].
  eapply spawn_request; [exact V1|exact C1|exact Hx|done| | |done].
  - rewrite Hrid. intros Hl. pose proof (live_row _ _ _ Hinv Hl Hrow Hid) as Hs. rewrite <- Hst, Hp in Hs.
    unfold live_status in Hs. rewrite !elem_of_cons, elem_of_nil in Hs. naive_solver.
  - exists row. split_and!; [done|congruence|]. unfold unfinished. apply bool_decide_eq_true_2. rewrite <- Hst, Hp.
    right. right. left.
Qed.

(** A new row. *)
Definition appended (row : TransferRow) (v : View) : View :=
  mkView (v_rows v ++ [row]) (tr_id row) (v_cells v) (v_downloads v) (v_live v) (v_fetching v) (v_workers v) (v_active v).

Lemma Inv_appended row v :
  Inv v -> tr_id row = v_sequence v + 1 ->
  (forall r, r ∈ v_rows v -> unfinished r = true -> tr_content_id r <> tr_content_id row) ->
  Inv (appended row v) /\ tr_id row ∉ v_live v.
Proof using Type.
  intros [Ha (Hnd & Hle & Hone) Hlive Hs Hd Hc Hx] Hid Hnew. rewrite Forall_forall in Hle. split.
  - split; cbn [appended v_active v_workers v_rows v_sequence v_live v_downloads v_fetching v_cells]; try done.
    + split_and!.
      * rewrite map_app. apply NoDup_app. split_and!; [done| |apply NoDup_singleton].
        intros x Hx1 ->%list_elem_of_singleton. apply list_elem_of_fmap in Hx1 as (r & Hr & Hin).
        specialize (Hle _ Hin). cbn beta in Hle. lia.
      * apply Forall_app. split; [|by repeat constructor]. apply Forall_forall. intros r Hr. specialize (Hle _ Hr).
        cbn beta in *. lia.
      * intros r1 r2 I1 I2 U1 U2 Heq. rewrite elem_of_app, list_elem_of_singleton in I1, I2.
        destruct I1 as [I1| ->], I2 as [I2| ->]; [by apply Hone| | |done];
          exfalso; [apply (Hnew r1)|apply (Hnew r2)]; done.
    + intros j Hj. destruct (Hs j Hj) as (r & Hr & ?). exists r. split; [|done]. apply elem_of_app. by left.
  - intros Hin. destruct (Hs _ Hin) as (r & Hr & He & _). specialize (Hle _ Hr). cbn beta in Hle. lia.
Qed.

Lemma create_transfer_cases content_id share t s s' r :
  create_transfer content_id share t s = (s', r) ->
  (is_ok r = false /\ transfers (db s') = transfers (db s) /\ sequence (db s') = sequence (db s))
  \/ (r = Ok (sequence (db s) + 1) /\ sequence (db s') = sequence (db s) + 1
      /\ transfers (db s') = transfers (db s) ++ [new_transfer (sequence (db s) + 1) content_id share t]
      /\ forall row, row ∈ transfers (db s) -> unfinished row = true -> tr_content_id row <> content_id).
Proof using Type.
  unfold create_transfer. intros Hx. apply st_bind_inv in Hx as [(s1 & n & Hq & Hx)|(e & Hq & ->)];
    apply query_cases in Hq as (_ & Hd & Hq); [|left; by rewrite Hd].
  destruct Hq as [Hq|[? ?]]; [|done]. apply Ok_inj in Hq.
  destruct (Z.eqb_spec n 0) as [Hn|]; cbn [negb] in Hx; [|injection Hx as <- <-; left; by rewrite Hd].
  apply execute_cases in Hx as (_ & [Hx|[Hd2 [e ->]]]); [|left; by rewrite Hd2, Hd]. rewrite Hd in Hx.
  destruct (_ >? _); injection Hx as Hx <-; rewrite <- Hx; [by left|right]. split_and!; [done..|].
  intros row Hin Hu Hc.
  assert (0 < count (fun r => bool_decide (tr_content_id r = content_id) && unfinished r) (transfers (db s))); [|lia].
  apply count_pos, Exists_exists. exists row. split; [done|]. by rewrite bool_decide_eq_true_2.
Qed.

Lemma start_fetch_Inv content_id share rt rt' res :
  start_fetch content_id share rt = (rt', res) -> Inv (view rt) -> Inv (view rt') /\ within_limit rt rt'.
Proof using Type.
  unfold start_fetch. intros Hx Hinv. unfold within_limit.
  apply st_bind_inv in Hx as [(rt1 & c & [= <- <-] & Hx)|(e & [=] & ->)].
  destruct (negb _); [injection Hx as <- <-; eauto|].
  apply st_bind_inv in Hx as [(rt1 & there & He & Hx)|(e & He & ->)];
    pose proof (on_store_keeps _ _ _ _ (keeps_content_exists _) He) as V1; [|rewrite V1; eauto].
  assert (config rt1 = config rt) as C1.
  { unfold on_store in He. destruct (content_exists _ (store rt)). by injection He as <- _. }
  destruct there; [injection Hx as <- <-; rewrite V1; eauto|].
  apply st_bind_inv in Hx as [(rt2 & k & [= <- <-] & Hx)|(e & [=] & ->)].
  destruct (Z.geb_spec (active_downloads (counters rt1)) (max_concurrent_transfers (config rt))) as [|Hlt];
    [injection Hx as <- <-; rewrite V1; eauto|].
  change (v_active (view rt1) < max_concurrent_transfers (config rt)) in Hlt. rewrite V1 in Hlt.
  apply st_bind_inv in Hx as [(rt2 & t & [= <- <-] & Hx)|(e & [=] & ->)].
  apply st_bind_inv in Hx as [(rt2 & id & Hcr & Hx)|(e & Hcr & ->)]; unfold on_store in Hcr;
    destruct (create_transfer _ _ _ _) as [s r] eqn:E; injection Hcr as <- Hr; subst r;
    apply create_transfer_cases in E as [(Hok & Et & Eq)|(Hok & Eq & Et & Hnew)]; try done.
  2:{ assert (view (with_store s rt1) = view rt) as ->; [|eauto].
      rewrite <- V1. unfold view, with_store. cbn [store threads controls downloads counters]. by rewrite Et, Eq. }
  apply Ok_inj in Hok.
  assert (view (with_store s rt1) = appended (new_transfer id (ContentId_to_string content_id) share (now rt1)) (view rt1)) as V2.
  { unfold view, with_store, appended. cbn [store threads controls downloads counters v_rows v_cells v_downloads v_live v_fetching v_workers v_active].
    by rewrite Et, Eq, Hok. }
  destruct (Inv_appended (new_transfer id (ContentId_to_string content_id) share (now rt1)) (view rt1)) as [Hinv2 Hfresh];
    [by rewrite V1|done|done|]. rewrite <- V2 in Hinv2.
  assert (v_workers (view (with_store s rt1)) = v_workers (view rt)) as W2 by (rewrite V2, <- V1; done).
  apply st_bind_inv in Hx as [(rt3 & found & Hf & Hx)|(e & Hf & ->)];
    [|apply (on_store_keeps _ _ _ _ (keeps_get_transfer id)) in Hf as ->; eauto].
  apply st_bind_inv in Hx as [(rt4 & rec & [= <- Hrec%ok_or_Ok] & Hx)|(e & [= <- _] & ->)];
    [subst found|apply (on_store_keeps _ _ _ _ (keeps_get_transfer id)) in Hf as ->; eauto].
  apply get_transfer_row in Hf as (V3 & _ & C3 & row & Hrow & Hid & Hrid & Hst).
  assert (row = new_transfer id (ContentId_to_string content_id) share (now rt1)) as ->.
  { destruct (inv_rows _ Hinv2) as [Hnd _]. eapply rows_same_id; [exact Hnd|done| |by rewrite Hid].
    rewrite V2. cbn [appended v_rows]. apply elem_of_app. right. by apply list_elem_of_singleton. }
  assert (exists res', spawn_download rec rt3 = (rt', res')) as [res' Hsp].
  { apply st_bind_inv in Hx as [(rt5 & [] & Hsp & [= <- _])|(e & Hsp & _)]; eauto. }
  rewrite <- V3 in Hinv2.
  destruct (spawn_Inv _ _ _ _ Hsp Hinv2) as (Hinv' & _ & Hw).
  - rewrite V3, V2, Hrid. done.
  - rewrite V3. eexists. split_and!; [exact Hrow|by rewrite Hid|done].
  - split; [done|]. rewrite V3, W2 in Hw. destruct Hw as [(_ & Hw & _)|(_ & Hw & _)]; [by left|by right].
Qed.

(** ** Start-up *)

Lemma recover_Inv records : forall rt rt' res,
  recover records rt = (rt', res) -> Inv (view rt) -> NoDup (map t_id records) ->
  (forall t, t ∈ records -> t_id t ∉ v_live (view rt)
     /\ exists row, row ∈ v_rows (view rt) /\ tr_id row = t_id t /\ unfinished row = true) ->
  Inv (view rt').
Proof using Type.
  induction records as [|x records IH]; intros rt rt' res Hx Hinv Hnd Hall; cbn [recover] in Hx; [by injection Hx as <- _|].
  apply st_bind_inv in Hx as [(rt1 & c & [= <- <-] & Hx)|(e & [=] & ->)]. apply NoDup_cons in Hnd as [Hnx Hnd].
  destruct (bool_decide (is_Some (bootstrap (config rt)))).
  - destruct (Hall x ltac:(left)) as [Hnl Hrow].
    apply st_bind_inv in Hx as [(rt1 & [] & Hs & Hx)|(e & Hs & ->)];
      destruct (spawn_Inv _ _ _ _ Hs Hinv Hnl Hrow) as (Hinv1 & (g & Hg & Hrows) & Hlive); [|done].
    eapply IH; [exact Hx|done|done|]. intros t Ht. destruct (Hall t ltac:(by right)) as [Hnt (row & Hin & Hid & Hu)].
    assert (t_id t <> t_id x) as Hne. { intros He. apply Hnx. rewrite <- He. apply list_elem_of_fmap. by exists t. }
    split.
    + destruct Hlive as [(_ & _ & ?)|(-> & _ & _)]; [done|]. rewrite elem_of_app, list_elem_of_singleton. naive_solver.
    + exists row. rewrite Hrows. split_and!; try done. apply list_elem_of_fmap. exists row. split; [|done].
      symmetry. apply Hg. congruence.
  - eapply IH; [exact Hx|done|done|]. intros t Ht. apply Hall. by right.
Qed.

Lemma patches_weaken {A} (P Q : TransferRow -> TransferRow -> Prop) (c : sio A) :
  (forall r r', P r r' -> Q r r') -> patches P c -> patches Q c.
Proof using Type. intros HPQ Hc s. destruct (Hc s) as [Hq [Ht|(g & Hg & Ht)]]; (split; [done|]); [by left|right; eauto]. Qed.

Lemma patches_bind {A B} (P : TransferRow -> TransferRow -> Prop) (c : sio A) (f : A -> sio B) :
  Transitive P -> patches P c -> (forall a, patches P (f a)) -> patches P (c ≫= f).
Proof using Type.
  intros HP Hc Hf s. unfold mbind, st_bind. specialize (Hc s). destruct (c s) as [s1 [a|e]]; [|done]. cbn [fst] in Hc.
  destruct Hc as [Hq Ht], (Hf a s1) as [Hq' Ht']. split; [congruence|].
  destruct Ht as [Ht|(g & Hg & Ht)], Ht' as [Ht'|(g' & Hg' & Ht')]; rewrite ?Ht in Ht'; [by left|right; eauto..|right].
  exists (fun r => g' (g r)). split; [intros r; by etransitivity|]. by rewrite Ht', map_map.
Qed.

Lemma patches_keeps {A} P (c : sio A) : keeps_transfers c -> patches P c.
Proof using Type. intros Hc s. destruct (Hc s) as [-> ->]. auto. Qed.

#[local] Instance keeps_status_trans : Transitive keeps_status.
Proof using Type. unfold keeps_status. intros x y z. intuition congruence. Qed.

Lemma patches_open_index : patches keeps_status open_index.
Proof using Type.
  unfold open_index. apply patches_bind; [apply _|by apply patches_keeps, keeps_execute|]. intros _.
  apply patches_bind; [apply _|by apply patches_keeps, keeps_execute|]. intros _.
  apply patches_bind; [apply _|by apply patches_keeps, keeps_query|]. intros version.
  destruct (version =? 1); [|destruct (version =? SCHEMA_VERSION); by apply patches_keeps].
  apply patches_bind; [apply _| |intros _; by apply patches_keeps, keeps_execute].
  induction new_columns as [|name names IH]; cbn [add_columns]; [by apply patches_keeps|].
  apply patches_bind; [apply _| |intros _; exact IH]. intros s. unfold add_column.
  destruct (execute _ s) as [s' r] eqn:E. cbn [fst]. apply execute_cases in E as (_ & [E|[-> _]]); [|by auto].
  destruct (columns (db s)) as [present|]; [case_bool_decide|]; injection E as E _; rewrite <- E; [by auto| |by auto].
  split; [done|]. right. exists (set_column name). split; [|done]. by intros row.
Qed.

Lemma patches_open root d w s r :
  open_store root d w = (s, r) ->
  sequence (db s) = sequence d
  /\ (transfers (db s) = transfers d
      \/ exists g, (forall r, keeps_status r (g r)) /\ transfers (db s) = map g (transfers d)).
Proof using Type.
  unfold open_store. intros Hx. match type of Hx with ?c ?s0 = _ => assert (patches keeps_status c) as Hp end.
  { repeat (apply patches_bind; [apply _|by apply patches_keeps; first [apply keeps_on_disk|apply keeps_execute]|intros ?]).
    apply patches_bind; [apply _|apply patches_open_index|]. intros _. apply patches_keeps, keeps_verify_all. }
  specialize (Hp (mkStore root d w)). by rewrite Hx in Hp.
Qed.

Lemma new_runtime_Inv c s t ms : rows_ok (transfers (db s)) (sequence (db s)) -> Inv (view (new_runtime c s t ms)).
Proof using Type.
  intros Hr. split; cbn; try done; try apply NoDup_nil_2.
  - intros id Hid. by apply elem_of_nil in Hid.
  - intros id cell. rewrite lookup_empty. split; [done|]. intros Hid. by apply elem_of_nil in Hid.
  - intros id cell Hid. by apply elem_of_nil in Hid.
Qed.

Lemma filter_sublist {A} (p : A -> bool) (l : list A) : List.filter p l `sublist_of` l.
Proof using Type. induction l as [|x l IH]; cbn; [constructor|]. destruct (p x); by constructor. Qed.

Lemma map_sublist {A B} (f : A -> B) (l k : list A) : l `sublist_of` k -> map f l `sublist_of` map f k.
Proof using Type. induction 1; cbn; by constructor. Qed.

Lemma recoverable_cases t s s' records :
  recoverable_transfers t s = (s', Ok records) ->
  sequence (db s') = sequence (db s)
  /\ (exists g, (forall r, interrupts r (g r)) /\ transfers (db s') = map g (transfers (db s)))
  /\ exists rows, rows `sublist_of` transfers (db s') /\ Forall (fun r => tr_status r = str "interrupted") rows
       /\ Forall2 (fun r rec => transfer_from_row r = Ok rec) rows records.
Proof using Type.
  unfold recoverable_transfers. intros Hx. apply st_ok_inv in Hx as (s1 & [] & Hu & Hx).
  apply update_rows_cases in Hu as (_ & _ & Hq & [[_ Ht]|[? _]]); [|done].
  apply query_Ok in Hx as (_ & Hd & Hx%map_result_elem). rewrite Hd. split_and!; [done| |].
  - eexists. split; [|exact Ht]. intros r. unfold interrupts. by destruct (working r).
  - eexists. split_and!; [| |exact Hx].
    + apply filter_sublist.
    + apply Forall_forall. intros r Hr%list_elem_of_In. apply filter_In in Hr as [_ Hr]. by apply bool_decide_eq_true in Hr.
Qed.

Lemma create_Inv c d w t ms rt :
  rows_ok (transfers d) (sequence d) -> create c d w t ms = (rt, Ok tt) -> Inv (view rt).
Proof using Type.
  intros Hrows. unfold create. destruct (open_store (data_dir c) d w) as [s [u|e]] eqn:Eo; [|done]. intros Hx.
  apply patches_open in Eo as [Hq Ho].
  assert (rows_ok (transfers (db s)) (sequence (db s))) as Hrows1.
  { rewrite Hq. destruct Ho as [->|(g & Hg & ->)]; [done|]. apply rows_ok_map; [|done]. intros r _.
    unfold unfinished. destruct (Hg r) as (-> & -> & ->). by split_and!. }
  apply st_ok_inv in Hx as (rt1 & content & Hl & Hx). apply on_store_keeps in Hl as V1; [|apply keeps_list_content].
  apply st_ok_inv in Hx as (rt2 & [] & Hp & Hx).
  pose proof (quiet_start_providers content rt1) as V2. rewrite Hp in V2. cbn [fst] in V2.
  apply st_ok_inv in Hx as (rt3 & records & Hr & Hx). unfold on_store in Hr.
  destruct (recoverable_transfers t (store rt2)) as [s3 r3] eqn:E. injection Hr as <- ->.
  apply recoverable_cases in E as (Eq & (g & Hg & Et) & rows & Hsub & Hst & Hrec).
  assert (Inv (view rt2)) as Hinv2 by (rewrite V2, V1; by apply new_runtime_Inv).
  assert (view (with_store s3 rt2) = set_rows (map g (v_rows (view rt2))) (view rt2)) as V3 by (by apply view_rows).
  assert (v_live (view rt2) = []) as Hlive by (rewrite V2, V1; done).
  assert (Inv (view (with_store s3 rt2))) as Hinv3.
  { rewrite V3. apply Inv_map; [|done]. intros r _. specialize (Hg r). unfold interrupts in Hg. rewrite Hlive.
    destruct (working r) eqn:Ew; [|rewrite Hg; by split_and!].
    destruct Hg as (-> & -> & _). split_and!; [done..| |by intros ?%elem_of_nil].
    intros _. unfold working in Ew. apply bool_decide_eq_true in Ew. apply live_unfinished. unfold live_status.
    rewrite !elem_of_cons, elem_of_nil in Ew. rewrite !elem_of_cons. tauto. }
  eapply recover_Inv; [exact Hx|done| |].
  - destruct (inv_rows _ Hinv3) as [Hnd _]. change (v_rows (view (with_store s3 rt2))) with (transfers (db s3)) in Hnd.
    replace (map t_id records) with (map tr_id rows).
    + eapply sublist_NoDup; [exact Hnd|]. by apply map_sublist.
    + clear -Hrec. induction Hrec as [|r rec l k Hr _ IH]; [done|]. cbn [map]. apply transfer_from_row_Ok in Hr as (-> & _). by rewrite IH.
  - intros tr Htr. split; [rewrite V3; cbn [set_rows v_live]; rewrite Hlive; by intros ?%elem_of_nil|].
    apply list_elem_of_lookup in Htr as [i Hi]. destruct (Forall2_lookup_r _ _ _ _ _ Hrec Hi) as (row & Hri & Hr).
    apply list_elem_of_lookup_2 in Hri. exists row. split_and!.
    + change (row ∈ transfers (db s3)). eapply sublist_subseteq; [exact Hsub|done].
    + by apply transfer_from_row_Ok in Hr as (-> & _).
    + rewrite Forall_forall in Hst. unfold unfinished. apply bool_decide_eq_true_2. rewrite (Hst _ Hri). right. right. right. left.
Qed.
End Steps.
