(* ===== verification/NodeDaemon.v ===== *)
(** * NodeDaemon: the properties of the daemon while its requests do not overlap

    Over the runs of [step], in which a request is handled in one step, whatever the engine
    returns and whatever fails: the counter of downloads counts its workers, the map of
    downloads holds exactly the controls that are polled, and no content has two unfinished
    transfers; a request starts a worker only below the limit; a pause reaches the worker.
    Requests that overlap can break what is said of the map, the limit and the pause
    (NodeThreadsFacts.v has such runs, and what holds in all of them).  Without the token a connection changes nothing.  A completed
    download is verified. *)
From stdpp Require Import base tactics list numbers option gmap.
From Stdlib Require Import ZArith Lia Sorting.Sorted.
Import stdpp.list.
From S2P Require Import Prelude Bytes Text BTree NetAddr Instances Core Json Http Resume NodeConfig NodeStore NodeStoreFacts NodeImport ApiRecords NodeRuntime NodeApi NodeRuntimeFacts.

Local Open Scope Z_scope.

Section Daemon.
Context `{Blake3} `{Hex} `{StoreCodec} `{Json}.

(** ** Every route keeps the invariant *)

Definition tame {A} (c : rio A) : Prop := forall rt rt' res,
  c rt = (rt', res) -> Inv (view rt) -> Inv (view rt') /\ within_limit rt rt'.

Lemma tame_quiet {A} (c : rio A) : quiet c -> tame c.
Proof using Type.
  intros Hc rt rt' res Hx Hinv. specialize (Hc rt). rewrite Hx in Hc. cbn [fst] in Hc. unfold within_limit.
  rewrite Hc. eauto.
Qed.
Lemma tame_lift {A B} (r : result (list Z) A) (f : A -> rio B) : (forall a, tame (f a)) -> tame (lift r ≫= f).
Proof using Type.
  intros Hf rt rt' res Hx. apply st_bind_inv in Hx as [(rt1 & a & [= <- _] & Hx)|(e & [= <- _] & ->)]; [by apply Hf in Hx|].
  unfold within_limit. eauto.
Qed.
Lemma tame_then {A B} (c : rio A) (f : A -> B) : tame c -> tame (x ← c; mret (f x)).
Proof using Type.
  intros Hc rt rt' res Hx. apply st_bind_inv in Hx as [(rt1 & a & Hx & [= <- _])|(e & Hx & ->)]; by apply Hc in Hx.
Qed.

Lemma quiet_route_list : quiet content_reply /\ quiet transfers_reply /\ quiet node_summary /\ quiet diagnostics /\ quiet status.
Proof using Type.
  split_and!; [unfold content_reply|unfold transfers_reply|unfold node_summary|unfold diagnostics|unfold status]; quietly.
  apply quiet_list_content.
Qed.

Lemma tame_route request : tame (route_request_inner request).
Proof using Type.
  unfold route_request_inner. destruct (split_target (target request)) as [path query].
  destruct quiet_route_list as (Q1 & Q2 & Q3 & Q4 & Q5).
  repeat match goal with |- tame (if ?b then _ else _) => destruct b end; try (apply tame_quiet; quietly; done).
  - apply tame_quiet. unfold add_content_request. quietly. apply quiet_add_content.
  - unfold fetch_request. apply tame_lift. intros [id shared]. apply tame_lift. intros content_id.
    apply tame_then. intros rt rt' res. apply start_fetch_Inv.
  - apply tame_quiet. unfold delete_content_request. quietly. apply quiet_remove_content.
  - unfold pause_request. apply tame_lift. intros id. apply tame_then. intros rt rt' res. apply pause_Inv.
  - unfold resume_request. apply tame_lift. intros id. apply tame_then. intros rt rt' res. apply resume_Inv.
  - apply tame_quiet. unfold transfer_request. quietly.
Qed.

Lemma handle_Inv stream remote rt :
  Inv (view rt) -> Inv (view (handle_connection stream remote rt).1) /\ within_limit rt (handle_connection stream remote rt).1.
Proof using Type.
  intros Hinv. assert (Inv (view rt) /\ within_limit rt rt) as Hsame by (unfold within_limit; eauto).
  unfold handle_connection. destruct (negb _); [done|]. destruct (read_request stream) as [request|e]; [|done].
  destruct (_ && _); [done|]. unfold route_request. destruct (route_request_inner request rt) as [rt' [r|e]] eqn:E;
    exact (tame_route _ _ _ _ E Hinv).
Qed.

Lemma step_Inv rt rt' : step rt rt' -> Inv (view rt) -> Inv (view rt').
Proof using Type.
  intros Hstep Hinv. destruct Hstep; try done.
  - by apply handle_Inv.
  - by apply report_Inv.
  - by apply fetched_Inv.
  - by apply finish_Inv.
  - by apply ended_Inv.
  - pose proof (view_provider i (Providing content enabled) (with_counters (add_uploads 1) rt) H3 eq_refl) as [_ Hv].
    by rewrite Hv.
  - pose proof (view_provider i (Providing content enabled) rt H3 eq_refl) as [Hv _]. by rewrite Hv.
  - unfold served. destruct outcome as [u|e].
    + pose proof (view_provider i (Serving content enabled) (with_counters (add_completed 0 (cr_length content)) (with_counters (add_uploads (-1)) rt)) H3 eq_refl) as [_ Hv].
      by rewrite Hv.
    + pose proof (view_provider i (Serving content enabled) (with_counters (add_uploads (-1)) rt) H3 eq_refl) as [Hv Hv'].
      destruct (negb _); [by rewrite Hv|by rewrite Hv'].
  - by apply shutdown_Inv.
Qed.

Lemma reachable_Inv c d rt : rows_ok (transfers d) (sequence d) -> reachable c d rt -> Inv (view rt).
Proof using Type.
  intros Hrows Hr. induction Hr as [w t ms rt Hc|rt rt' Hr IH Hs]; [by eapply create_Inv|by eapply step_Inv].
Qed.

(** ** Properties *)

(** The map of downloads holds the controls that workers poll, under their transfers. *)
Definition controls_polled (rt : NodeRuntime) : Prop :=
  forall id cell, downloads rt !! id = Some cell <->
    exists transfer content_id, Fetching transfer content_id cell ∈ threads rt /\ t_id transfer = id.

(** The worker of a transfer, with its control. *)
Definition worker_of (rt : NodeRuntime) (id : Z) (cell : nat) (control : FetchControl) : Prop :=
  exists transfer content_id, Fetching transfer content_id cell ∈ threads rt /\ t_id transfer = id
    /\ controls rt !! cell = Some control.

(** Over every run whose requests do not overlap, from an index whose transfers have
    distinct identifiers and at most one unfinished transfer per content, with any engine,
    any requests and any failures: [active_downloads] is the number of download workers,
    modulo the width of the counter; the map of downloads holds exactly the controls that
    workers are polling, each worker its own; no two workers fetch the same transfer; and
    a content still has at most one unfinished transfer. *)
Theorem serial_invariant (c : NodeConfig) (d : Database) (rt : NodeRuntime) :
  rows_ok (transfers d) (sequence d) -> reachable c d rt ->
  active_downloads (counters rt) = count is_download (threads rt) mod 2 ^ 64
  /\ controls_polled rt
  /\ NoDup (omap fetching (threads rt)).*2
  /\ NoDup (omap live (threads rt))
  /\ rows_ok (transfers (db (store rt))) (sequence (db (store rt))).
Proof using Type.
  intros Hrows Hr. apply reachable_Inv in Hr as [Ha Hro Hlive Hs Hd Hc Hx]; [|done]. split_and!; try done.
  intros id cell. rewrite (Hd id cell). cbn [view v_fetching]. rewrite list_elem_of_omap. split.
  - intros (t & Ht & Hf). destruct t; simplify_eq/=. eauto.
  - intros (transfer & content_id & Ht & <-). by eexists.
Qed.

(** The accept loop serves a validated configuration, at most 64 connections at a time:
    in every state it reaches, the counter is the number of connections whose threads have
    not ended and at most the limit, and the runtime is one the daemon reaches. *)
Theorem connections_bounded (c : NodeConfig) (d : Database) (s : Server) :
  served_from c d s ->
  validate c = Ok tt /\ reachable c d (sv_runtime s)
  /\ api_connections s = len (sv_open s) /\ len (sv_open s) <= API_MAX_CONNECTIONS.
Proof using Type.
  induction 1 as [w t ms s Hs|s s' _ (Hv & Hr & Hc & Hm) Hstep].
  - unfold start_server in Hs. destruct (validate c) as [[]|e]; [|done]. cbn [mbind result_bind] in Hs.
    destruct (create c d w t ms) as [rt [[]|e]] eqn:E; [|done]. injection Hs as <-. split_and!; try done. by eapply reachable_start.
  - destruct Hstep as [s stream remote _|s i stream remote Hi|s rt Hstep].
    + unfold accept_connection. destruct (Z.geb_spec (api_connections s) API_MAX_CONNECTIONS); [done|].
      cbn [sv_runtime api_connections sv_open]. rewrite len_app. change (len [(stream, remote)]) with 1.
      unfold fetch_add, API_MAX_CONNECTIONS in *. pose proof (len_nonneg (sv_open s)). rewrite Z.mod_small by lia.
      split_and!; try done; lia.
    + assert (len (delete i (sv_open s)) = len (sv_open s) - 1 /\ 0 < len (sv_open s)) as [Hl Hpos].
      { pose proof (lookup_lt_Some _ _ _ Hi). unfold len. rewrite length_delete by eauto. lia. }
      cbn [finish_connection sv_runtime api_connections sv_open]. rewrite Hl.
      unfold fetch_add, API_MAX_CONNECTIONS in *. rewrite Z.mod_small by lia. split_and!; [done| |lia..].
      eapply reachable_step; [exact Hr|constructor].
    + cbn [sv_runtime api_connections sv_open]. split_and!; try done. by eapply reachable_step.
Qed.

(** A connection starts at most one download, and only below the configured limit: with
    fewer workers than the counter can tell apart, the number of workers after a request
    is at most the number before it or the limit. *)
Theorem api_transfer_limit (c : NodeConfig) (d : Database) (rt : NodeRuntime) (stream : Incoming) (remote : IpAddr) :
  rows_ok (transfers d) (sequence d) -> reachable c d rt -> count is_download (threads rt) < 2 ^ 64 ->
  count is_download (threads (handle_connection stream remote rt).1)
  <= Z.max (count is_download (threads rt)) (max_concurrent_transfers (config rt)).
Proof using Type.
  intros Hrows Hr Hlt. apply reachable_Inv in Hr as Hinv; [|done].
  destruct (handle_Inv stream remote rt Hinv) as [_ [Hw|[Hw Hmax]]]; cbn [view v_workers] in Hw; [lia|].
  rewrite (inv_active _ Hinv) in Hmax. cbn [view v_workers] in Hmax. pose proof (count_nonneg is_download (threads rt)).
  rewrite Z.mod_small in Hmax by lia. lia.
Qed.

(** A pause that succeeds reaches the worker: the download of that transfer is being
    fetched, its own control, and no other, now says paused, so that the engine's next
    [should_continue] is false, and the row says [pausing]. *)
Theorem pause_reaches_worker (c : NodeConfig) (d : Database) (rt rt' : NodeRuntime) (id : Z) :
  rows_ok (transfers d) (sequence d) -> reachable c d rt -> pause_transfer id rt = (rt', Ok tt) ->
  exists cell control,
    worker_of rt' id cell control /\ should_continue control = false /\ stop_reason control = Some Paused
    /\ (forall other, other <> cell -> controls rt' !! other = controls rt !! other)
    /\ exists row, row ∈ transfers (db (store rt')) /\ tr_id row = id /\ tr_status row = str "pausing".
Proof using Type.
  intros Hrows Hr Hx. apply reachable_Inv in Hr as Hinv; [|done]. unfold pause_transfer in Hx.
  apply st_ok_inv in Hx as (rt1 & found & Hf & Hx). apply st_ok_inv in Hx as (rt2 & rec & [= <- ->%ok_or_Ok] & Hx).
  pose proof Hf as Hf'. apply get_transfer_row in Hf as (V1 & T1 & _ & row & Hrow & Hid & Hrid & Hst).
  assert (transfers (db (store rt1)) = transfers (db (store rt))) as R1 by exact (f_equal v_rows V1).
  assert (controls rt1 = controls rt) as C1.
  { unfold on_store in Hf'. destruct (get_transfer id (store rt)). by injection Hf' as <- _. }
  destruct (negb _ && negb _); [done|]. apply st_ok_inv in Hx as (rt2 & dl & [= <- <-] & Hx).
  apply st_ok_inv in Hx as (rt2 & cell & [= <- Hcell%ok_or_Ok] & Hx). unfold mbind, st_bind, gets, modify in Hx.
  unfold on_store in Hx. destruct (set_transfer_status _ _ _ _ _) as [s r] eqn:E. injection Hx as <- ->.
  cbn [with_store with_downloads threads controls store] in *.
  change (downloads rt1) with (v_downloads (view rt1)) in Hcell. rewrite V1 in Hcell.
  apply (inv_downloads _ Hinv) in Hcell as Hfet. pose proof (inv_cells _ Hinv _ _ Hfet) as [Hlt _].
  cbn [view v_fetching v_cells] in *. apply list_elem_of_omap in Hfet as (t & Ht & Hft).
  destruct t as [transfer content_id control| | | |]; simplify_eq/=.
  destruct (lookup_lt_is_Some_2 (controls rt) cell Hlt) as [ctl Hctl].
  exists cell, (pause ctl). split_and!; try done.
  - exists transfer, content_id. cbn [with_store with_downloads threads controls]. rewrite T1, C1, list_lookup_alter, decide_True, Hctl by done. done.
  - intros other Hne. cbn [with_store with_downloads controls]. by rewrite C1, list_lookup_alter_ne.
  - apply update_rows_cases in E as (_ & _ & _ & [[_ Et]|[? _]]); [|done]. cbn [with_downloads store] in Et. rewrite Et.
    exists (set_state (str "pausing") None (now rt1) row). split_and!; [|done|done].
    apply list_elem_of_fmap. exists row. unfold has_id. rewrite Z.eqb_refl. split; [done|].
    by rewrite R1.
Qed.

(** ** What a connection may change *)

(** A verification changes the integrity of a row and may withdraw it from sharing. *)
Definition rechecked (e e' : list Z * ContentRow) : Prop :=
  e'.1 = e.1 /\ e'.2 = set_integrity (ct_integrity e'.2) (Some (ct_shared e'.2)) e.2
  /\ (ct_shared e'.2 = ct_shared e.2 \/ ct_shared e'.2 = 0).

(** Looking at the store: files and transfers stay, content is at most rechecked. *)
Definition looked (s s' : Store) : Prop :=
  same_files s s' /\ transfers (db s') = transfers (db s) /\ sequence (db s') = sequence (db s)
  /\ schema (db s') = schema (db s) /\ columns (db s') = columns (db s)
  /\ Forall2 rechecked (content (db s)) (content (db s')).

#[local] Instance rechecked_preorder : PreOrder rechecked.
Proof using Type.
  split.
  - intros [k []]. by repeat split; left.
  - intros [k r1] [k2 r2] [k3 r3] (Ha & Hb & Hc) (Ha' & Hb' & Hc'). cbn [fst snd] in *. subst k2 k3. split_and!; [done| |].
    + cbn [snd]. by rewrite Hb', Hb.
    + cbn [snd]. rewrite Hb in Hc'. cbn [set_integrity ct_shared default] in Hc'. destruct Hc' as [->|]; [done|by right].
Qed.

#[local] Instance looked_preorder : PreOrder looked.
Proof using Type.
  split; [by intros s|]. intros s1 s2 s3 (F & A & B & C & D & E) (F' & A' & B' & C' & D' & E').
  split_and!; try congruence; [by eapply same_files_trans|by etransitivity].
Qed.

Definition looking {A} (c : sio A) : Prop := forall s, looked s (c s).1.

Lemma looking_bind {A B} (c : sio A) (f : A -> sio B) : looking c -> (forall a, looking (f a)) -> looking (c ≫= f).
Proof using Type.
  intros Hc Hf s. unfold mbind, st_bind. specialize (Hc s). destruct (c s) as [s1 [a|e]]; [|done].
  cbn [fst] in *. etransitivity; [exact Hc|apply Hf].
Qed.
Lemma looking_pure {A} (c : sio A) : (forall s, (c s).1 = s) -> looking c.
Proof using Type. intros Hc s. by rewrite Hc. Qed.
Lemma looking_query {A} (f : Database -> result (list Z) A) : looking (query f).
Proof using Type.
  intros s. destruct (query f s) as [s' r] eqn:E. apply query_cases in E as ([Hr Hf] & Hd & _). cbn [fst].
  assert (looked s s) as (_ & L) by done. split; [done|]. by rewrite Hd.
Qed.

Lemma looking_update k f :
  (forall r, rechecked (k, r) (k, f r)) -> looking (update_content k f).
Proof using Type.
  intros Hf s. destruct (update_content k f s) as [s' r] eqn:E. cbn [fst].
  apply execute_cases in E as (Hs & [E|[Hd _]]).
  - injection E as E _. unfold looked. rewrite <- E. split_and!; try done. cbn [set_content content].
    induction (content (db s)) as [|[k' r'] l IH]; cbn [map]; constructor; [|done].
    case_bool_decide as Hk; [subst; apply Hf|reflexivity].
  - assert (looked s s) as (_ & L) by done. split; [done|]. by rewrite Hd.
Qed.

Lemma looking_list_content : looking NodeStore.list_content.
Proof using Type.
  apply looking_bind; [|intros _; apply looking_bind; [by apply looking_pure|intros ?; apply looking_query]].
  apply looking_bind; [apply looking_query|]. intros rows. induction rows as [|[k row] rows IH]; cbn [verify_rows]; [by apply looking_pure|].
  apply looking_bind; [|intros _; exact IH]. unfold verify_row. apply looking_bind; [by apply looking_pure|]. intros rt.
  destruct (negb _); [by apply looking_pure|]. destruct (negb _); [by apply looking_pure|].
  apply looking_bind; [by apply looking_pure|]. intros data. apply looking_bind; [by apply looking_pure|]. intros manifest.
  apply looking_bind.
  - intros s. unfold verified. destruct (verify_stored_content data manifest k (disk s)) as [w o] eqn:E. cbn [fst].
    apply verify_stored_cases in E as (Hw & _ & _). assert (looked s s) as (_ & L) by done. split; [|done]. by split.
  - intros [[|]|]; apply looking_update; intros r; repeat split; first [by left|by right].
Qed.

Definition observes {A} (c : rio A) : Prop := forall rt, exists s, (c rt).1 = with_store s rt /\ looked (store rt) s.

Lemma with_store_store rt : with_store (store rt) rt = rt.
Proof using Type. by destruct rt. Qed.

Lemma observes_pure {A} (c : rio A) : (forall rt, (c rt).1 = rt) -> observes c.
Proof using Type. intros Hc rt. exists (store rt). by rewrite Hc, with_store_store. Qed.
Lemma observes_bind {A B} (c : rio A) (f : A -> rio B) : observes c -> (forall a, observes (f a)) -> observes (c ≫= f).
Proof using Type.
  intros Hc Hf rt. unfold mbind, st_bind. destruct (Hc rt) as (s & Hs & Hl). destruct (c rt) as [rt1 [a|e]]; [|by exists s].
  cbn [fst] in Hs. subst rt1. destruct (Hf a (with_store s rt)) as (s2 & Hs2 & Hl2). exists s2. split; [by rewrite Hs2|].
  etransitivity; [exact Hl|exact Hl2].
Qed.
Lemma observes_store {A} (c : sio A) : looking c -> observes (on_store c).
Proof using Type.
  intros Hc rt. specialize (Hc (store rt)). unfold on_store. destruct (c (store rt)) as [s r]. by exists s.
Qed.

Ltac observe := repeat first
  [ apply observes_store, looking_query
  | apply observes_store, looking_list_content
  | apply observes_bind; [|intros ?]
  | by apply observes_pure
  | match goal with |- observes (match ?x with _ => _ end) => destruct x end ].

Lemma observes_get request : mutating request = false -> observes (route_request_inner request).
Proof using Type.
  unfold mutating. intros [Hp Hd]%orb_false_iff. unfold route_request_inner.
  destruct (split_target (target request)) as [path query]. rewrite Hp, Hd. cbn [andb].
  repeat match goal with |- observes (if ?b then _ else _) => destruct b end; try (by apply observes_pure).
  - unfold status, counts. apply observes_bind; [|intros ?; by apply observes_pure]. apply observes_bind.
    + apply observes_store. apply looking_bind; [apply looking_query|intros ?]. apply looking_bind; [apply looking_query|intros ?]. by apply looking_pure.
    + intros [stored shared]. observe.
  - unfold node_summary. observe.
  - unfold content_reply, list_content. observe.
  - unfold transfers_reply, list_transfers. observe.
  - unfold transfer_request, get_transfer. observe.
Qed.

(** C3: what a connection may change.  Nothing, when the peer is not on the loopback interface,
    when the request is malformed, or when it is a POST or DELETE without the token of the
    configuration; the status then says so.  A request with another method leaves the
    files, the transfers, the workers and the providers as they are and at most rechecks
    the stored content, which can only end its sharing. *)
Theorem api_guard (stream : Incoming) (remote : IpAddr) (rt : NodeRuntime) :
  let '(rt', (code, _)) := handle_connection stream remote rt in
  if is_loopback remote then
    match read_request stream with
    | Err _ => rt' = rt /\ code = 400
    | Ok request =>
        if mutating request
        then authorization request = Some (str "Bearer " ++ nc_api_token (config rt)) \/ (rt' = rt /\ code = 401)
        else exists s, rt' = with_store s rt /\ looked (store rt) s
    end
  else rt' = rt /\ code = 403.
Proof using Type.
  unfold handle_connection. destruct (is_loopback remote); cbn [negb]; [|done].
  destruct (read_request stream) as [request|e]; [|done]. destruct (mutating request) eqn:Em; cbn [andb].
  - unfold authorized. case_bool_decide as Ha; cbn [negb]; [|by right].
    destruct (route_request request rt) as [rt' [code v]]. by left.
  - pose proof (observes_get request Em rt) as Ho. unfold route_request.
    by destruct (route_request_inner request rt) as [rt' [[code v]|e]].
Qed.
End Daemon.

(** ** A finished download *)

Section Completion.
Context `{Blake3Laws} `{HexLaws} `{StoreCodecLaws}.

Lemma start_provider_store content rt :
  store (start_provider content rt).1 = store rt /\ counters (start_provider content rt).1 = counters rt.
Proof using Type.
  unfold start_provider, mbind, st_bind, gets. destruct (bootstrap (config rt)); [|done]. by case_bool_decide.
Qed.

(** The tail of [finish_download]: the files and the index stay, the counters move. *)
Lemma completion_tail id rec stats (rt : NodeRuntime) :
  let rt' := ((_ ← ignore (on_store (complete_transfer id (cr_length rec) (cr_chunk_count rec) stats (now rt)));
               _ ← modify (with_counters (add_completed (cr_length rec) 0));
               if cr_shared rec then ignore (start_provider rec) else mret tt) rt).1 in
  same_files (store rt) (store rt') /\ content (db (store rt')) = content (db (store rt))
  /\ counters rt' = add_completed (cr_length rec) 0 (counters rt).
Proof using Type.
  cbv zeta. unfold mbind, st_bind, modify, ignore. cbn [fst].
  destruct (on_store _ rt) as [rt2 r2] eqn:E2. cbn [fst].
  assert (same_files (store rt) (store rt2) /\ content (db (store rt2)) = content (db (store rt)) /\ counters rt2 = counters rt)
    as (Hs & Hc & Hk).
  { unfold on_store in E2. destruct (complete_transfer _ _ _ _ _ _) as [s2 r3] eqn:E3. injection E2 as <- _.
    cbn [with_store store counters]. unfold complete_transfer in E3.
    repeat (apply st_bind_inv in E3 as [(? & ? & [= <- _] & E3)|(? & [= <- _] & ?)]; [|done]).
    by apply update_rows_cases in E3 as (? & ? & _). }
  destruct (cr_shared rec).
  - cbn [fst]. destruct (start_provider_store rec (with_counters (add_completed (cr_length rec) 0) rt2)) as [-> ->].
    cbn [with_counters store counters]. by rewrite Hk.
  - cbn. by rewrite Hk.
Qed.

(** The bytes were in the content's file, their copy passes the verification, and the index
    lists it, shared or not. *)
Definition stored_and_listed (share : bool) (bytes : list Z) (rt rt' : NodeRuntime) : Prop :=
  let s := store rt in let s' := store rt' in
  files (disk s) !! data_of (root s) bytes = Some bytes
  /\ intact (files (disk s')) (data_of (root s) bytes) (manifest_of (root s) bytes) (text_of bytes)
  /\ bt_get (text_of bytes) (content (db s')) = Some (downloaded_row (db s) bytes share (now rt)).

(** When the store takes the download, it counts as completed. *)
Lemma finish_download_stored transfer content_id stats rt s1 rec :
  id_ok content_id -> complete_download content_id (t_share_on_complete transfer) (now rt) (store rt) = (s1, Ok rec) ->
  let rt' := (finish_download transfer content_id stats rt).1 in
  outside (content_directory (root (store rt)) (ContentId_to_string content_id)) (store rt) (store rt')
  /\ exists bytes, content_id = ContentId_digest bytes /\ counters rt' = add_completed (len bytes) 0 (counters rt)
       /\ stored_and_listed (t_share_on_complete transfer) bytes rt rt'.
Proof.
  intros Hid E. cbv zeta. remember ((finish_download transfer content_id stats rt).1) as rt' eqn:Hrt.
  unfold finish_download, on_store at 1 in Hrt. rewrite E in Hrt. apply complete_download_cases in E as (Ho & Hor); [|done].
  destruct Hor as [[_ ?]|(bytes & Hd & Hlen & Hfile & Hin & Hdb & Hrec)]; [done|].
  pose proof (completion_tail (t_id transfer) rec stats (with_store s1 rt)) as Ht. cbv zeta in Ht.
  match type of Ht with same_files _ (store ?y) /\ _ => change (rt' = y) in Hrt end. rewrite <- Hrt in Ht.
  destruct Ht as ([Hr Hf] & Hc & Hk).
  cbn [with_store store counters now] in Hr, Hf, Hc, Hk. split.
  - etransitivity; [exact Ho|]. by apply same_outside.
  - exists bytes. unfold stored_and_listed. cbv zeta. rewrite Hf, Hc, Hk, Hdb, (Hrec rec eq_refl). split_and!; try done.
    cbn [set_content content]. apply bt_get_insert_eq.
Qed.

(** C2: a download counts as completed only with a verified copy.  Whatever the engine
    left behind, finishing a download either counts a failure, or counts a completion of
    exactly as many bytes as the stored file has; then the file hashes to the identifier
    that was asked for, its copy passes the verification, and the index lists it, shared as
    the transfer wanted.  Only files of that content change. *)
Theorem completed_is_verified (transfer : TransferRecord) (content_id : ContentId) (stats : PersistentFetchStats)
  (rt : NodeRuntime) :
  id_ok content_id ->
  let rt' := (finish_download transfer content_id stats rt).1 in
  let s := store rt in let s' := store rt' in
  outside (content_directory (root s) (ContentId_to_string content_id)) s s'
  /\ (counters rt' = add_failed (counters rt)
      \/ exists bytes, content_id = ContentId_digest bytes
           /\ counters rt' = add_completed (len bytes) 0 (counters rt)
           /\ stored_and_listed (t_share_on_complete transfer) bytes rt rt').
Proof.
  intros Hid. cbv zeta. destruct (complete_download content_id (t_share_on_complete transfer) (now rt) (store rt)) as [s1 [rec|e]] eqn:E.
  - destruct (finish_download_stored transfer content_id stats rt s1 rec Hid E) as [Ho Hst]. split; [done|by right].
  - remember ((finish_download transfer content_id stats rt).1) as rt' eqn:Hrt. unfold finish_download, on_store at 1 in Hrt. rewrite E in Hrt.
    apply complete_download_cases in E as (Ho & _); [|done].
    unfold fail_transfer, mbind, st_bind, gets, ignore, modify in Hrt. cbn [fst] in Hrt. subst rt'.
    destruct (on_store _ (with_store s1 rt)) as [rt2 r2] eqn:E2. unfold on_store in E2.
    destruct (set_transfer_status _ _ _ _ _) as [s2 r3] eqn:E3. injection E2 as <- _.
    apply update_rows_cases in E3 as (Hs & _). cbn [with_store with_counters store counters fst] in *. split; [|by left].
    etransitivity; [exact Ho|]. by apply same_outside.
Qed.
End Completion.

(** ** The properties at concrete inputs *)

Import Toy ToyPostcard ToyCodec ToyJson.

Definition sample_config : NodeConfig :=
  mkNodeConfig sample_root (mkSocketAddr (V4 [127; 0; 0; 1]) 0 7331) (Some (mkSocketAddr (V4 [127; 0; 0; 1]) 0 7332))
    0 0 1 (str "info") (replicate 32 97).

(** An index left by a daemon that was stopped with two downloads. *)
Definition interrupted_index : Database :=
  mkDatabase (Some 2) (Some new_columns) []
    [set_interrupted 5 (new_transfer 1 (text_of (str "abc")) true 4);
     set_interrupted 5 (new_transfer 2 (text_of (str "abd")) true 4)] 2.

Definition sample_daemon : NodeRuntime := (create sample_config interrupted_index (mkWorld ∅ []) 6 0).1.

Lemma interrupted_rows : rows_ok (transfers interrupted_index) (sequence interrupted_index).
Proof.
  split_and!.
  - apply (bool_decide_unpack _). vm_compute. exact I.
  - repeat constructor; vm_compute; congruence.
  - intros r1 r2 H1 H2 _ _ Hc. unfold interrupted_index in *. cbn [transfers] in *. rewrite !elem_of_cons, elem_of_nil in H1, H2.
    destruct H1 as [->|[->|[]]], H2 as [->|[->|[]]]; try reflexivity; exfalso; vm_compute in Hc; congruence.
Qed.

Lemma sample_reachable : reachable sample_config interrupted_index sample_daemon.
Proof. apply (reachable_start _ _ (mkWorld ∅ []) 6 0). vm_compute. reflexivity. Qed.

Lemma serial_invariant_witness :
  active_downloads (counters sample_daemon) = count is_download (threads sample_daemon) mod 2 ^ 64
  /\ count is_download (threads sample_daemon) = 2.
Proof.
  split; [|vm_compute; reflexivity].
  exact (proj1 (serial_invariant sample_config interrupted_index sample_daemon interrupted_rows sample_reachable)).
Defined.

(** The limit holds for requests only: recovery starts both downloads although one is allowed. *)
Lemma recovery_exceeds_limit :
  max_concurrent_transfers sample_config < count is_download (threads sample_daemon).
Proof. vm_compute. reflexivity. Qed.

Lemma api_transfer_limit_witness :
  count is_download (threads (handle_connection (mkIncoming [] []) (V4 [127; 0; 0; 1]) sample_daemon).1) <= 2.
Proof.
  etransitivity; [apply (api_transfer_limit sample_config interrupted_index sample_daemon)|vm_compute; discriminate].
  - exact interrupted_rows.
  - exact sample_reachable.
  - vm_compute. reflexivity.
Defined.

Lemma pause_reaches_worker_witness :
  let rt' := (pause_transfer 1 sample_daemon).1 in
  exists cell control, worker_of rt' 1 cell control /\ should_continue control = false.
Proof.
  cbv zeta. destruct (pause_transfer 1 sample_daemon) as [rt' r] eqn:E. cbn [fst].
  assert (r = Ok tt) as Hr by (apply (f_equal snd) in E; vm_compute in E; exact (eq_sym E)). subst r.
  destruct (pause_reaches_worker sample_config interrupted_index sample_daemon rt' 1 interrupted_rows sample_reachable E)
    as (cell & control & Hw & Hs & _).
  exists cell, control. split; assumption.
Defined.

(** The fetch of the first download left its bytes: the completion is counted and indexed. *)
Definition fetched_daemon : NodeRuntime :=
  with_disk (mkWorld {[ data_of sample_root (str "abc") := str "abc" ]} []) sample_daemon.
Definition sample_transfer : TransferRecord :=
  mkTransferRecord 1 (text_of (str "abc")) (str "download") (str "running") 0 0 0 0 0 0 0 0 [] 0 None true
    (str "encrypted_relayed_swarm").

Lemma completed_is_verified_witness :
  let rt' := (finish_download sample_transfer (ContentId_digest (str "abc")) (mkFetchStats 0 [] 0 0) fetched_daemon).1 in
  counters rt' = add_completed 3 0 (counters fetched_daemon)
  /\ exists bytes, ContentId_digest (str "abc") = ContentId_digest bytes
       /\ intact (files (disk (store rt'))) (data_of sample_root bytes) (manifest_of sample_root bytes) (text_of bytes).
Proof.
  cbv zeta. split; [vm_compute; reflexivity|].
  destruct (completed_is_verified sample_transfer (ContentId_digest (str "abc")) (mkFetchStats 0 [] 0 0) fetched_daemon)
    as [_ [Hn|(bytes & Hb & _ & _ & Hin & _)]].
  - split; [reflexivity|]. apply Toy.toy_blake3_laws.
  - exfalso. apply (f_equal failed_transfers) in Hn. vm_compute in Hn. discriminate Hn.
  - exists bytes. split; [exact Hb|exact Hin].
Defined.

(** The daemon of a valid configuration takes a connection. *)
Lemma connections_bounded_witness :
  exists s, start_server sample_config interrupted_index (mkWorld ∅ []) 6 0 = Ok s
    /\ len (sv_open (accept_connection (mkIncoming [] []) (V4 [127; 0; 0; 1]) s)) = 1
    /\ api_connections (accept_connection (mkIncoming [] []) (V4 [127; 0; 0; 1]) s) <= API_MAX_CONNECTIONS.
Proof.
  destruct (start_server sample_config interrupted_index (mkWorld ∅ []) 6 0) as [s|e] eqn:E;
    [|exfalso; vm_compute in E; discriminate E].
  assert (sv_open s = [] /\ api_connections s = 0 /\ shutdown_requested (sv_runtime s) = false) as (Ho & Hn & Hd).
  { vm_compute in E. injection E as <-. repeat split. }
  exists s. split; [reflexivity|].
  destruct (connections_bounded sample_config interrupted_index (accept_connection (mkIncoming [] []) (V4 [127; 0; 0; 1]) s))
    as (_ & _ & Hc & Hm).
  - apply served_step with s; [exact (served_start _ _ _ _ _ _ E)|constructor; exact Hd].
  - split; [|rewrite Hc; exact Hm]. unfold accept_connection. rewrite Hn. cbn. rewrite Ho. reflexivity.
Defined.
