(* ===== verification/NodeThreads.v ===== *)
(** * NodeThreads: the daemon with its threads interleaved (crates/triptorrent-node)

    [run_daemon] gives every connection a thread of its own, beside the thread of the accept
    loop, the download workers and the providers.  A thread is a [proc]: a program whose
    actions are what the source does without a point at which another thread could be seen
    to intervene, that is one operation on the disk, one statement or locked group of
    statements of the index, one section under the lock of a map, one atomic load or store.
    [perform] lets one thread take one action; a run is any sequence of them.  [run_alone] takes
    the actions of one thread without a pause, and then the procs are the operations of
    NodeRuntime.v and NodeApi.v ([run_connection]).

    Two groups of actions of the source are one action here: [fetch_add] with the spawning
    of the worker it counts, and the insertion of a provider with the spawning of its
    thread, since a thread that has not taken a step yet cannot be seen.  Where the source
    holds the lock of a map while it uses the store ([list_content], [pause_transfer]) the
    model lets go of it before, which only adds runs. *)
From stdpp Require Import base tactics list numbers option gmap.
From Stdlib Require Import ZArith Lia.
Import stdpp.list.
From S2P Require Import Prelude Bytes Text BTree NetAddr Instances Core Json Http Resume NodeConfig NodeStore NodeStoreFacts NodeImport ApiRecords NodeRuntime NodeApi NodeRuntimeFacts NodeDaemon.

Local Open Scope Z_scope.

(** ** Programs of a thread *)

(** [Launch]: [fetch_add] on [active_downloads] and [thread::spawn] of the worker. *)
Inductive proc (A : Type) : Type :=
| Done (r : result (list Z) A)
| Atom {B : Set} (c : rio B) (k : result (list Z) B -> proc A)
| Launch (transfer : TransferRecord) (content_id : ContentId) (control : nat) (k : proc A).
Arguments Done {A} _.
Arguments Atom {A B} _ _.
Arguments Launch {A} _ _ _ _.

#[export] Instance proc_ret : MRet proc := fun A a => Done (Ok a).
#[export] Instance proc_bind : MBind proc := fun A B f =>
  fix bind (p : proc A) : proc B :=
    match p with
    | Done (Ok a) => f a
    | Done (Err e) => Done (Err e)
    | Atom c k => Atom c (fun r => bind (k r))
    | Launch transfer content_id control k => Launch transfer content_id control (bind k)
    end.

(** The result as a value, errors included. *)
Fixpoint catch {A} (p : proc A) : proc (result (list Z) A) :=
  match p with
  | Done r => Done (Ok r)
  | Atom c k => Atom c (fun r => catch (k r))
  | Launch transfer content_id control k => Launch transfer content_id control (catch k)
  end.

Definition atomic {A : Set} (c : rio A) : proc A := Atom c Done.
Definition in_store {A : Set} (c : sio A) : proc A := atomic (on_store c).

Definition launch_worker (transfer : TransferRecord) (content_id : ContentId) (control : nat) (rt : NodeRuntime) : NodeRuntime :=
  with_threads (threads rt ++ [Fetching transfer content_id control]) (with_counters (add_downloads 1) rt).

(** One action. *)
Definition take_action {A} (p : proc A) (rt : NodeRuntime) : NodeRuntime * proc A :=
  match p with
  | Done r => (rt, Done r)
  | Atom c k => let '(rt', r) := c rt in (rt', k r)
  | Launch transfer content_id control k => (launch_worker transfer content_id control rt, k)
  end.

(** All of them, without a pause. *)
Fixpoint run_alone {A} (p : proc A) : rio A := fun rt =>
  match p with
  | Done r => (rt, r)
  | Atom c k => let '(rt', r) := c rt in run_alone (k r) rt'
  | Launch transfer content_id control k => run_alone k (launch_worker transfer content_id control rt)
  end.

Section Threads.
Context `{Blake3} `{Hex} `{StoreCodec} `{Json}.

(** ** The store *)

Definition add_content_store (source : list Z) (shared : bool) : proc ContentRecord :=
  bytes ← in_store (on_disk (str "failed to read imported file") (fs_read source));
  '(manifest, _) ← Done (map_err (fun _ => str "content") (Manifest_from_bytes bytes));
  let content_id := ContentId_to_string (m_content_id manifest) in
  there ← in_store (content_exists content_id);
  if (there : bool) then Done (Err (str "content is already indexed"))
  else
    root ← in_store get_root;
    let directory := content_directory root content_id in
    _ ← in_store (on_disk (str "create_dir_all") sync);
    let data_path := join_path directory (str "data") in
    let temporary := join_path directory (str "data.importing") in
    _ ← in_store (on_disk (str "write") (fs_write temporary bytes));
    copy ← in_store (on_disk (str "read") (fs_read temporary));
    if negb (bool_decide (ContentId_digest copy = m_content_id manifest))
    then Done (Err (str "managed copy failed content-ID verification"))
    else
      _ ← in_store (on_disk (str "rename") (replace_file temporary data_path));
      let manifest_path := join_path directory (str "manifest.postcard") in
      _ ← in_store (on_disk (str "write") (fs_write manifest_path (encode_manifest manifest)));
      _ ← atomic (t ← gets now;
               row ← lift (content_row root data_path manifest_path manifest shared t);
               on_store (insert_content content_id row));
      found ← in_store (get_content content_id);
      Done (ok_or found (str "new content was not indexed")).

Definition complete_download_store (content_id : ContentId) (shared : bool) : proc ContentRecord :=
  root ← in_store get_root;
  let id := ContentId_to_string content_id in
  let data_path := join_path (content_directory root id) (str "data") in
  bytes ← in_store (on_disk (str "read") (fs_read data_path));
  '(manifest, _) ← Done (map_err (fun _ => str "content") (Manifest_from_bytes bytes));
  if negb (bool_decide (m_content_id manifest = content_id))
  then Done (Err (str "completed download does not match requested content ID"))
  else
    let manifest_path := join_path (content_directory root id) (str "manifest.postcard") in
    _ ← in_store (on_disk (str "write") (fs_write manifest_path (encode_manifest manifest)));
    _ ← atomic (t ← gets now;
             row ← lift (content_row root data_path manifest_path manifest shared t);
             on_store (upsert_content id row));
    found ← in_store (get_content id);
    Done (ok_or found (str "completed content was not indexed")).

Definition remove_content_store (content_id : list Z) (delete_bytes : bool) : proc unit :=
  parsed ← Done (map_err (fun _ => str "invalid content ID") (ContentId_from_str content_id));
  let content_id := ContentId_to_string parsed in
  found ← in_store (get_content content_id);
  if negb (bool_decide (is_Some found)) then Done (Err (str "unknown content ID"))
  else
    _ ← in_store (execute (fun d => (set_content (bt_remove content_id) d, Ok tt)));
    root ← in_store get_root;
    if delete_bytes then
      let directory := content_directory root content_id in
      there ← in_store (on_disk [] (dir_exists directory));
      if (there : bool) then in_store (on_disk (str "remove_dir_all") (remove_dir_all directory)) else mret tt
    else mret tt.

Definition verify_row_store (content_id : list Z) (row : ContentRow) : proc unit :=
  root ← in_store get_root;
  if negb (is_ok (ContentId_from_str content_id)) then Done (Err (str "invalid content ID indexed in local state"))
  else if negb (canonical_id content_id) then Done (Err (str "non-canonical content ID indexed in local state"))
  else
    data_path ← Done (ok_or (managed_path root (ct_data_path row)) (str "invalid data path indexed"));
    manifest_path ← Done (ok_or (managed_path root (ct_manifest_path row)) (str "invalid manifest path indexed"));
    integrity ← in_store (verified data_path manifest_path content_id);
    in_store (match integrity with
              | None => update_content content_id (set_integrity (str "ok") None)
              | Some Missing => update_content content_id (set_integrity (str "missing") (Some 0))
              | Some Corrupt => update_content content_id (set_integrity (str "corrupt") (Some 0))
              end).

Fixpoint verify_rows_store (rows : list (list Z * ContentRow)) : proc unit :=
  match rows with
  | [] => mret tt
  | (content_id, row) :: rows => _ ← verify_row_store content_id row; verify_rows_store rows
  end.

Definition verify_all_store : proc unit :=
  rows ← in_store (query (fun d => Ok (List.filter (fun e => ct_complete e.2 =? 1) (content d))));
  verify_rows_store rows.

Definition list_content_store : proc (list ContentRecord) :=
  _ ← verify_all_store;
  root ← in_store get_root;
  in_store (query (fun d => map_result (fun '(k, row) => content_from_row root k row) (content d))).

(** ** The operations of the runtime *)

(** [providers.contains_key(..)] *)
Definition advertised (content_id : list Z) (rt : NodeRuntime) : bool := bool_decide (is_Some (providers rt !! content_id)).

Definition add_content_proc (path : list Z) (shared : bool) : proc ContentRecord :=
  content ← add_content_store path shared;
  _ ← (if shared then atomic (start_provider content) else mret tt);
  there ← atomic (gets (advertised (cr_content_id content)));
  mret (set_advertised there content).

Definition remove_content_proc (content_id : list Z) (delete_bytes : bool) : proc unit :=
  _ ← atomic (stop_provider content_id);
  remove_content_store content_id delete_bytes.

Definition list_content_proc : proc (list ContentRecord) :=
  there ← atomic (gets (fun rt content_id => advertised content_id rt));
  content ← list_content_store;
  mret (map (fun c => set_advertised (there (cr_content_id c)) c) content).

(** A statement that stores the time. *)
Definition timed {A : Set} (c : Z -> sio A) : rio A := t ← gets now; on_store (c t).

Definition prepare_download_proc (transfer : TransferRecord) : proc (ContentId * FetchControl) :=
  c ← atomic (gets config);
  _ ← Done (ok_or (bootstrap c) (str "node has no bootstrap configured"));
  content_id ← Done (map_err (fun _ => str "content ID") (ContentId_from_str (t_content_id transfer)));
  _ ← in_store (on_disk (str "create_dir_all") sync);
  _ ← atomic (timed (update_transfer (t_id transfer) (str "running") (t_bytes_total transfer) (t_bytes_transferred transfer)
                    (t_resumed_chunks transfer) None));
  started ← atomic (gets elapsed);
  mret (content_id, mkControl FETCH_RUNNING (t_id transfer) started None).

(** [downloads.insert(..)] under its lock: the cell of the control, and whether the map
    had one for the transfer *)
Definition insert_control (id : Z) (control : FetchControl) : rio (nat * bool) := fun rt =>
  let cell := length (controls rt) in
  (with_downloads (controls rt ++ [control]) (<[id := cell]> (downloads rt)) rt,
   Ok (cell, bool_decide (is_Some (downloads rt !! id)))).

Definition spawn_download_proc (transfer : TransferRecord) : proc unit :=
  '(content_id, control) ← prepare_download_proc transfer;
  '(cell, replaced) ← atomic (insert_control (t_id transfer) control);
  if (replaced : bool) then Done (Err (str "transfer already has an active worker"))
  else Launch transfer content_id cell (mret tt).

Definition start_fetch_proc (content_id : ContentId) (share : bool) : proc Z :=
  c ← atomic (gets config);
  if negb (bool_decide (is_Some (bootstrap c))) then Done (Err (str "node has no bootstrap configured"))
  else
    there ← in_store (content_exists (ContentId_to_string content_id));
    if (there : bool) then Done (Err (str "content is already stored"))
    else
      k ← atomic (gets counters);
      if active_downloads k >=? max_concurrent_transfers c then Done (Err (str "maximum concurrent transfers reached"))
      else
        id ← atomic (timed (create_transfer (ContentId_to_string content_id) share));
        found ← in_store (get_transfer id);
        transfer ← Done (ok_or found (str "new transfer missing"));
        _ ← spawn_download_proc transfer;
        mret id.

(** [downloads.get(&id)] and [control.pause()] under the lock of the map *)
Definition pause_control (id : Z) : rio unit :=
  d ← gets downloads;
  cell ← lift (ok_or (d !! id) (str "transfer worker is unavailable"));
  heap ← gets controls;
  modify (with_downloads (alter pause cell heap) d).

Definition pause_transfer_proc (id : Z) : proc unit :=
  found ← in_store (get_transfer id);
  transfer ← Done (ok_or found (str "unknown transfer"));
  if negb (bool_decide (t_status transfer = str "running")) && negb (bool_decide (t_status transfer = str "pausing"))
  then Done (Err (str "only a running download can be paused"))
  else
    _ ← atomic (pause_control id);
    atomic (timed (set_transfer_status id (str "pausing") None)).

Definition resume_transfer_proc (id : Z) : proc unit :=
  c ← atomic (gets config);
  k ← atomic (gets counters);
  if active_downloads k >=? max_concurrent_transfers c then Done (Err (str "maximum concurrent transfers reached"))
  else
    found ← in_store (get_transfer id);
    transfer ← Done (ok_or found (str "unknown transfer"));
    if negb (bool_decide (t_status transfer = str "paused"))
    then Done (Err (str "only an explicitly paused download can be resumed"))
    else spawn_download_proc transfer.

(** ** The end of a worker *)

Definition fail_transfer_proc (id : Z) (failure : list Z) : proc unit :=
  _ ← atomic (ignore (timed (set_transfer_status id (str "failed") (Some failure))));
  atomic (modify (with_counters add_failed)).

Definition finish_download_proc (transfer : TransferRecord) (content_id : ContentId) (stats : PersistentFetchStats) : proc unit :=
  result ← catch (complete_download_store content_id (t_share_on_complete transfer));
  match result with
  | Ok content =>
      _ ← atomic (ignore (timed (complete_transfer (t_id transfer) (cr_length content) (cr_chunk_count content) stats)));
      _ ← atomic (modify (with_counters (add_completed (cr_length content) 0)));
      if cr_shared content then atomic (ignore (start_provider content)) else mret tt
  | Err error => fail_transfer_proc (t_id transfer) error
  end.

(** [control.stop_reason()] *)
Definition reason_of (control : nat) (rt : NodeRuntime) : option FetchStopReason := controls rt !! control ≫= stop_reason.

Definition finish_stopped_proc (transfer : TransferRecord) (control : nat) (error : list Z) : proc unit :=
  reason ← atomic (gets (reason_of control));
  match reason with
  | Some Paused => atomic (ignore (timed (set_transfer_status (t_id transfer) (str "paused") None)))
  | Some Interrupted => atomic (ignore (timed (set_transfer_status (t_id transfer) (str "interrupted") None)))
  | None => fail_transfer_proc (t_id transfer) error
  end.

Definition finish_fetch_proc (transfer : TransferRecord) (content_id : ContentId) (control : nat)
  (outcome : result (list Z) PersistentFetchStats) : proc unit :=
  match outcome with
  | Ok stats => finish_download_proc transfer content_id stats
  | Err error => finish_stopped_proc transfer control error
  end.

(** ** The thread of [run_daemon] *)

Definition shutdown_proc : proc unit :=
  _ ← atomic (modify (with_shutdown true));
  _ ← atomic (modify (fun rt => with_providers
        (imap (fun i b => if bool_decide (i ∈ (map_to_list (providers rt)).*2) then false else b) (flags rt))
        (providers rt) rt));
  _ ← atomic (modify (fun rt => with_downloads
        (imap (fun i c => if bool_decide (i ∈ (map_to_list (downloads rt)).*2) then interrupt c else c) (controls rt))
        (downloads rt) rt));
  atomic (ignore (timed mark_running_interrupted)).

Fixpoint start_providers_proc (records : list ContentRecord) : proc unit :=
  match records with
  | [] => mret tt
  | content :: records =>
      _ ← (if cr_shared content && bool_decide (cr_integrity content = str "ok") then atomic (start_provider content) else mret tt);
      start_providers_proc records
  end.

Fixpoint recover_proc (records : list TransferRecord) : proc unit :=
  match records with
  | [] => mret tt
  | transfer :: records =>
      c ← atomic (gets config);
      _ ← (if bool_decide (is_Some (bootstrap c)) then spawn_download_proc transfer else mret tt);
      recover_proc records
  end.

(** [NodeRuntime::create] after [Store::open] *)
Definition create_proc : proc unit :=
  content ← list_content_store;
  _ ← start_providers_proc content;
  transfers ← atomic (timed recoverable_transfers);
  recover_proc transfers.

(** ** Requests *)

(** Every counter is loaded on its own. *)
Definition status_proc : proc Value :=
  '(stored, shared) ← in_store counts;
  ms ← atomic (gets elapsed);
  downloads ← atomic (gets (fun rt => active_downloads (counters rt)));
  uploads ← atomic (gets (fun rt => active_uploads (counters rt)));
  downloaded ← atomic (gets (fun rt => bytes_downloaded (counters rt)));
  uploaded ← atomic (gets (fun rt => bytes_uploaded (counters rt)));
  completed ← atomic (gets (fun rt => completed_transfers (counters rt)));
  failed ← atomic (gets (fun rt => failed_transfers (counters rt)));
  mret (object
    [(str "uptime_ms", Number (Z.min ms U64_MAX)); (str "store_initialized", Bool true); (str "api_ready", Bool true);
     (str "stored_content", Number stored); (str "shared_content", Number shared);
     (str "active_downloads", Number downloads); (str "active_uploads", Number uploads);
     (str "bytes_downloaded", Number downloaded); (str "bytes_uploaded", Number uploaded);
     (str "completed_transfers", Number completed); (str "failed_transfers", Number failed)]).

Definition add_content_request_proc (request : HttpRequest) : proc reply :=
  '(path, shared) ← Done (ok_or (decode_add (body request)) (str "invalid content-add JSON"));
  record ← add_content_proc path shared;
  value ← Done (content_value record);
  mret (201, value).

Definition fetch_request_proc (request : HttpRequest) : proc reply :=
  '(id, shared) ← Done (ok_or (decode_fetch (body request)) (str "invalid fetch JSON"));
  content_id ← Done (map_err (fun _ => str "content ID") (ContentId_from_str id));
  transfer ← start_fetch_proc content_id shared;
  mret (202, object [(str "transfer_id", Number transfer); (str "status", Text (str "running"))]).

Definition delete_content_request_proc (path query : list Z) : proc reply :=
  let content_id := trim_start_matches (str "/v1/content/") path in
  parsed ← Done (delete_parameters (List.filter nonempty (split 38 query)) None);
  let delete_bytes := default false parsed in
  _ ← remove_content_proc content_id delete_bytes;
  mret (200, object [(str "removed", Text content_id); (str "deleted_managed_bytes", Bool delete_bytes)]).

Definition pause_request_proc (path : list Z) : proc reply :=
  id ← Done (transfer_action_id path (str "/pause"));
  _ ← pause_transfer_proc id;
  mret (202, object [(str "transfer_id", Number id); (str "status", Text (str "pausing"))]).

Definition resume_request_proc (path : list Z) : proc reply :=
  id ← Done (transfer_action_id path (str "/resume"));
  _ ← resume_transfer_proc id;
  mret (202, object [(str "transfer_id", Number id); (str "status", Text (str "running"))]).

Definition content_reply_proc : proc reply :=
  records ← list_content_proc;
  values ← Done (map_result content_value records);
  mret (200, Array values).

(** The routes that take one action are the ones of NodeApi.v. *)
Definition route_request_inner_proc (request : HttpRequest) : proc reply :=
  let '(path, query) := split_target (target request) in
  let via m := bool_decide (method request = m) in
  let at_ p := bool_decide (path = p) in
  if via (str "GET") && at_ (str "/v1/health") then
    mret (200, object [(str "alive", Bool true); (str "store_initialized", Bool true); (str "api_ready", Bool true)])
  else if via (str "GET") && at_ (str "/v1/status") then v ← status_proc; mret (200, v)
  else if via (str "GET") && at_ (str "/v1/node") then atomic node_summary
  else if via (str "GET") && at_ (str "/v1/content") then content_reply_proc
  else if via (str "POST") && at_ (str "/v1/content") then add_content_request_proc request
  else if via (str "POST") && at_ (str "/v1/fetches") then fetch_request_proc request
  else if via (str "GET") && at_ (str "/v1/transfers") then atomic transfers_reply
  else if via (str "GET") && at_ (str "/v1/diagnostics") then atomic diagnostics
  else if via (str "GET") && at_ (str "/v1/network-privacy") then mret (200, current_prototype)
  else if via (str "POST") && at_ (str "/v1/shutdown") then
    _ ← atomic (modify (with_shutdown true));
    mret (202, object [(str "status", Text (str "stopping"))])
  else if via (str "DELETE") && starts_with (str "/v1/content/") path then delete_content_request_proc path query
  else if via (str "POST") && starts_with (str "/v1/transfers/") path && ends_with (str "/pause") path then pause_request_proc path
  else if via (str "POST") && starts_with (str "/v1/transfers/") path && ends_with (str "/resume") path then resume_request_proc path
  else if via (str "GET") && starts_with (str "/v1/transfers/") path then atomic (transfer_request path)
  else mret (404, error_json (str "not_found") (str "unknown API route")).

Definition route_request_proc (request : HttpRequest) : proc reply :=
  result ← catch (route_request_inner_proc request);
  mret (match result with Ok r => r | Err error => (400, error_json (str "invalid_operation") error) end).

(** The thread of a connection, up to its response *)
Definition connection_proc (stream : Incoming) (remote : IpAddr) : proc reply :=
  if negb (is_loopback remote) then mret (403, error_json (str "forbidden") (str "loopback clients only"))
  else
    match read_request stream with
    | Err error => mret (400, error_json (str "malformed_request") error)
    | Ok request =>
        allowed ← atomic (gets (fun rt => authorized rt request));
        if mutating request && negb allowed
        then mret (401, error_json (str "unauthorized") (str "valid bearer token required"))
        else route_request_proc request
    end.

(** ** The daemon *)

(** The thread of [run_daemon]: in [NodeRuntime::create], in its loop, in
    [NodeRuntime::shutdown], or gone, and the process with it *)
Inductive Main := Starting (p : proc unit) | Accepting | Stopping (p : proc unit) | Ended.

(** [dn_workers]: download workers whose fetch has returned.  Workers that fetch and
    providers are [threads] of the runtime. *)
Record Daemon := mkDaemon {
  dn_runtime : NodeRuntime;
  dn_connections : Z;
  dn_main : Main;
  dn_handlers : list (proc reply);
  dn_workers : list (proc unit)
}.

(** Which thread goes on, or what happens outside. *)
Inductive Action :=
| GoMain
| GoAccept (stream : Incoming) (remote : IpAddr)
| GoHandler (i : nat)
| GoWorker (i : nat)
| GoFetched (i : nat) (outcome : result (list Z) PersistentFetchStats)
| GoReport (i : nat) (progress : VerifiedProgress)
| GoProvider (i : nat) (outcome : result (list Z) unit)
| GoTime (t ms : Z)
| GoFiles (w : World).

Definition on_runtime (rt : NodeRuntime) (x : Daemon) : Daemon :=
  mkDaemon rt (dn_connections x) (dn_main x) (dn_handlers x) (dn_workers x).
Definition with_main (rt : NodeRuntime) (m : Main) (x : Daemon) : Daemon :=
  mkDaemon rt (dn_connections x) m (dn_handlers x) (dn_workers x).

(** A failing [accept] ends the process, and with it the run. *)
Definition main_step (x : Daemon) : option Daemon :=
  let rt := dn_runtime x in
  match dn_main x with
  | Starting (Done (Ok _)) => Some (with_main rt Accepting x)
  | Starting (Done (Err _)) => Some (with_main rt Ended x)
  | Starting p => let '(rt, p) := take_action p rt in Some (with_main rt (Starting p) x)
  | Accepting => if shutdown_requested rt then Some (with_main rt (Stopping shutdown_proc) x) else None
  | Stopping (Done _) => Some (with_main rt Ended x)
  | Stopping p => let '(rt, p) := take_action p rt in Some (with_main rt (Stopping p) x)
  | Ended => None
  end.

(** A connection beyond the limit is dropped.  The flag of the loop may have been set since
    it was read. *)
Definition accept_step (stream : Incoming) (remote : IpAddr) (x : Daemon) : option Daemon :=
  match dn_main x with
  | Accepting =>
      if dn_connections x >=? API_MAX_CONNECTIONS then Some x
      else Some (mkDaemon (dn_runtime x) (fetch_add (dn_connections x) 1) (dn_main x)
                   (dn_handlers x ++ [connection_proc stream remote]) (dn_workers x))
  | _ => None
  end.

Definition handler_step (i : nat) (x : Daemon) : option Daemon :=
  match dn_handlers x !! i with
  | None => None
  | Some (Done _) =>
      Some (mkDaemon (dn_runtime x) (fetch_add (dn_connections x) (-1)) (dn_main x) (delete i (dn_handlers x)) (dn_workers x))
  | Some p =>
      let '(rt, p) := take_action p (dn_runtime x) in
      Some (mkDaemon rt (dn_connections x) (dn_main x) (<[i := p]> (dn_handlers x)) (dn_workers x))
  end.

Definition worker_step (i : nat) (x : Daemon) : option Daemon :=
  match dn_workers x !! i with
  | None => None
  | Some (Done _) =>
      Some (mkDaemon (with_counters (add_downloads (-1)) (dn_runtime x)) (dn_connections x) (dn_main x) (dn_handlers x)
              (delete i (dn_workers x)))
  | Some p =>
      let '(rt, p) := take_action p (dn_runtime x) in
      Some (mkDaemon rt (dn_connections x) (dn_main x) (dn_handlers x) (<[i := p]> (dn_workers x)))
  end.

(** [engine.fetch] returns and the control leaves the map. *)
Definition fetched_step (i : nat) (outcome : result (list Z) PersistentFetchStats) (x : Daemon) : option Daemon :=
  let rt := dn_runtime x in
  match threads rt !! i with
  | Some (Fetching transfer content_id control) =>
      Some (mkDaemon (ends i (with_downloads (controls rt) (delete (t_id transfer) (downloads rt)) rt)) (dn_connections x)
              (dn_main x) (dn_handlers x) (dn_workers x ++ [finish_fetch_proc transfer content_id control outcome]))
  | _ => None
  end.

Definition report_step (i : nat) (progress : VerifiedProgress) (x : Daemon) : option Daemon :=
  match threads (dn_runtime x) !! i with
  | Some (Fetching _ _ control) => Some (on_runtime (report control progress (dn_runtime x)).1 x)
  | _ => None
  end.

(** A turn of a provider: its condition and [fetch_add], or the return of [serve_once]. *)
Definition provider_step (i : nat) (outcome : result (list Z) unit) (x : Daemon) : option Daemon :=
  let rt := dn_runtime x in
  match threads rt !! i with
  | Some (Providing content enabled) =>
      Some (on_runtime (if may_serve rt enabled then becomes i (Serving content enabled) (with_counters (add_uploads 1) rt)
                        else ends i rt) x)
  | Some (Serving content enabled) => Some (on_runtime (served i content enabled outcome rt) x)
  | _ => None
  end.

(** No thread goes on once the process has ended. *)
Definition perform (a : Action) (x : Daemon) : option Daemon :=
  match dn_main x with
  | Ended => None
  | _ =>
      match a with
      | GoMain => main_step x
      | GoAccept stream remote => accept_step stream remote x
      | GoHandler i => handler_step i x
      | GoWorker i => worker_step i x
      | GoFetched i outcome => fetched_step i outcome x
      | GoReport i progress => report_step i progress x
      | GoProvider i outcome => provider_step i outcome x
      | GoTime t ms => Some (on_runtime (with_time t ms (dn_runtime x)) x)
      | GoFiles w => Some (on_runtime (with_disk w (dn_runtime x)) x)
      end
  end.

(** [run_daemon] when the store has been opened *)
Definition open_daemon (c : NodeConfig) (d : Database) (w : World) (t ms : Z) : result (list Z) Daemon :=
  match validate c with
  | Err e => Err e
  | Ok _ =>
      match open_store (data_dir c) d w with
      | (s, Ok _) => Ok (mkDaemon (new_runtime c s t ms) 0 (Starting create_proc) [] [])
      | (_, Err e) => Err e
      end
  end.

Inductive daemon_run (c : NodeConfig) (d : Database) : Daemon -> Prop :=
| run_start w t ms x : open_daemon c d w t ms = Ok x -> daemon_run c d x
| run_step a x y : daemon_run c d x -> perform a x = Some y -> daemon_run c d y.

(** A schedule, for concrete runs. *)
Fixpoint schedule (actions : list Action) (x : Daemon) : option Daemon :=
  match actions with
  | [] => Some x
  | a :: actions => match perform a x with Some y => schedule actions y | None => None end
  end.
End Threads.
