(* ===== verification/NodeThreadsFacts.v ===== *)
(** * NodeThreadsFacts: what holds however the threads of the daemon interleave

    A thread that is not interrupted does what NodeRuntime.v and NodeApi.v say
    ([run_connection]), so the runs there are runs of the daemon.  Over all interleavings:
    the counters count the threads, a transfer never has two workers that fetch it, and the
    map of downloads names exactly the transfers that are being fetched or are about to be.
    What only holds while requests do not overlap is in NodeDaemon.v; [race_of_resumes] shows
    why. *)
From stdpp Require Import base tactics list numbers option gmap.
From Stdlib Require Import ZArith Lia.
Import stdpp.list.
From S2P Require Import Prelude Bytes Text BTree NetAddr Instances Core Json Http Resume NodeConfig NodeStore NodeStoreFacts NodeImport ApiRecords NodeRuntime NodeApi NodeRuntimeFacts NodeDaemon NodeThreads.

Local Open Scope Z_scope.

(** ** Running without a pause *)

Definition runs {A} (p : proc A) (c : rio A) : Prop := forall rt, run_alone p rt = c rt.

(** The same for an operation of the store at a time. *)
Definition runs_at {A} (t : Z) (p : proc A) (c : sio A) : Prop := forall rt, now rt = t -> run_alone p rt = on_store c rt.

Lemma run_bind {A B} (p : proc A) (f : A -> proc B) rt : run_alone (p ≫= f) rt = (run_alone p ≫= (fun a => run_alone (f a))) rt.
Proof.
  revert rt. induction p as [[a|e]|X c k IH|tr id cell k IH]; intros rt; [done|done| |exact (IH _)].
  change (run_alone (Atom c k ≫= f) rt) with (let '(rt', r) := c rt in run_alone (k r ≫= f) rt').
  change ((run_alone (Atom c k) ≫= (fun a => run_alone (f a))) rt)
    with (match (let '(rt', r) := c rt in run_alone (k r) rt') with (rt1, Ok a) => run_alone (f a) rt1 | (rt1, Err e) => (rt1, Err e) end).
  destruct (c rt) as [rt' r]. rewrite IH. reflexivity.
Qed.

Lemma run_catch {A} (p : proc A) rt : run_alone (catch p) rt = ((run_alone p rt).1, Ok (run_alone p rt).2).
Proof.
  revert rt. induction p as [r|X c k IH|tr id cell k IH]; intros rt; cbn [catch run_alone]; [done| |apply IH].
  destruct (c rt) as [rt' r]. apply IH.
Qed.

Lemma runs_bind {A B} (p : proc A) (c : rio A) (f : A -> proc B) (g : A -> rio B) :
  runs p c -> (forall a, runs (f a) (g a)) -> runs (p ≫= f) (c ≫= g).
Proof.
  intros Hp Hf rt. rewrite run_bind. unfold mbind, st_bind. rewrite Hp. destruct (c rt) as [rt1 [a|e]]; [apply Hf|done].
Qed.
Lemma runs_act {A : Set} (c : rio A) : runs (atomic c) c.
Proof. intros rt. cbn. by destruct (c rt). Qed.
Lemma runs_lift {A} (r : result (list Z) A) : runs (Done r) (lift r).
Proof. done. Qed.
Lemma runs_ret {A} (a : A) : runs (mret a) (mret a).
Proof. done. Qed.
Lemma runs_throw {A} e : runs (Done (Err e) : proc A) (throw e).
Proof. done. Qed.

Lemma runs_at_bind {A B} t (p : proc A) (c : sio A) (f : A -> proc B) (g : A -> sio B) :
  runs_at t p c -> (forall a, runs_at t (f a) (g a)) -> runs_at t (p ≫= f) (c ≫= g).
Proof.
  intros Hp Hf rt Ht. rewrite run_bind. unfold mbind, st_bind. rewrite (Hp rt Ht). unfold on_store.
  destruct (c (store rt)) as [s [a|e]]; [|done]. by rewrite (Hf a (with_store s rt) Ht).
Qed.
Lemma runs_at_in_store {A : Set} t (c : sio A) : runs_at t (in_store c) c.
Proof. intros rt _. apply runs_act. Qed.
Lemma runs_at_lift {A} t (r : result (list Z) A) : runs_at t (Done r) (lift r).
Proof. intros rt _. by destruct rt. Qed.
Lemma runs_at_ret {A} t (a : A) : runs_at t (mret a) (mret a).
Proof. intros rt _. by destruct rt. Qed.
Lemma runs_at_throw {A} t e : runs_at t (Done (Err e) : proc A) (throw e).
Proof. intros rt _. by destruct rt. Qed.

(** A statement that takes the time where it is executed, and one that was given it. *)
Lemma runs_at_row {A B : Set} {C} t (row : Z -> result (list Z) A) (c : A -> sio B) (f : B -> proc C) (g : B -> sio C) :
  (forall b, runs_at t (f b) (g b)) ->
  runs_at t (atomic (t ← gets now; r ← lift (row t); on_store (c r)) ≫= f) (r ← lift (row t); b ← c r; g b).
Proof.
  intros Hf rt Ht. rewrite run_bind. unfold mbind, st_bind. rewrite (runs_act _ rt).
  unfold gets. rewrite Ht. unfold lift, on_store. destruct (row t) as [r|e]; [|by destruct rt].
  destruct (c r (store rt)) as [s [b|e]] eqn:E; [|done]. by rewrite (Hf b (with_store s rt) Ht).
Qed.

Lemma runs_timed {A : Set} {B} (c : Z -> sio A) (f : A -> proc B) (g : A -> rio B) :
  (forall a, runs (f a) (g a)) -> runs (atomic (timed c) ≫= f) (t ← gets now; a ← on_store (c t); g a).
Proof. intros Hf. apply (runs_bind (atomic (timed c)) (timed c) f g (runs_act _)) in Hf. intros rt. rewrite Hf. by unfold timed, mbind, st_bind, gets. Qed.

Lemma runs_store {A B} (p : proc A) (c : Z -> sio A) (f : A -> proc B) (g : A -> rio B) :
  (forall t, runs_at t p (c t)) -> (forall a, runs (f a) (g a)) -> runs (p ≫= f) (t ← gets now; a ← on_store (c t); g a).
Proof.
  intros Hp Hf rt. rewrite run_bind. unfold mbind, st_bind, gets. rewrite (Hp (now rt) rt eq_refl).
  destruct (on_store (c (now rt)) rt) as [rt1 [a|e]]; [apply Hf|done].
Qed.

Create HintDb same.
#[export] Hint Resolve runs_act runs_lift runs_ret runs_throw runs_at_in_store runs_at_lift runs_at_ret runs_at_throw : same.

(** Both sides are written alike. *)
Ltac same := repeat match goal with
  | |- forall _, _ => intros ?
  | |- runs_at _ (atomic (mbind _ _) ≫= _) _ => apply runs_at_row
  | |- runs_at _ (_ ≫= _) _ => apply runs_at_bind
  | |- runs (atomic (timed _) ≫= _) _ => apply runs_timed
  | |- runs (_ ≫= _) _ => apply runs_bind
  | |- runs_at _ (match ?x with _ => _ end) _ => destruct x
  | |- runs (match ?x with _ => _ end) _ => destruct x
  | |- runs_at _ _ _ => solve [eauto 2 with same nocore]
  | |- runs _ _ => solve [eauto 2 with same nocore]
  end.

Section Serial.
Context `{Blake3} `{Hex} `{StoreCodec} `{Json}.

Lemma run_add_store t path shared : runs_at t (add_content_store path shared) (NodeStore.add_content path shared t).
Proof. unfold add_content_store, NodeStore.add_content. same. Qed.
Lemma run_complete_store t id shared : runs_at t (complete_download_store id shared) (complete_download id shared t).
Proof. unfold complete_download_store, complete_download. same. Qed.
Lemma run_remove_store t id b : runs_at t (remove_content_store id b) (NodeStore.remove_content id b).
Proof. unfold remove_content_store, NodeStore.remove_content. same. Qed.

Lemma run_verify_store t : runs_at t verify_all_store verify_all.
Proof.
  apply runs_at_bind; [apply runs_at_in_store|]. intros rows.
  induction rows as [|[k row] rows IH]; cbn [verify_rows_store verify_rows]; [same|].
  apply runs_at_bind; [|intros _; exact IH]. unfold verify_row_store, verify_row. same.
Qed.
Lemma run_list_store t : runs_at t list_content_store NodeStore.list_content.
Proof. unfold list_content_store, NodeStore.list_content. same. apply run_verify_store. Qed.

(** ** The operations *)

Lemma runs_list_store : runs list_content_store (on_store NodeStore.list_content).
Proof. intros rt. by apply (run_list_store (now rt)). Qed.

Lemma run_add path shared : runs (add_content_proc path shared) (add_content path shared).
Proof. unfold add_content_proc, add_content. apply runs_store; [intros t; apply run_add_store|]. intros content. apply runs_bind; [same|]. by intros _ rt. Qed.
Lemma run_remove id b : runs (remove_content_proc id b) (remove_content id b).
Proof. unfold remove_content_proc, remove_content. same. intros rt. by apply (run_remove_store (now rt)). Qed.
Lemma run_list : runs list_content_proc list_content.
Proof. intros rt. by apply (runs_bind list_content_store (on_store NodeStore.list_content) _ (fun content => mret _) runs_list_store). Qed.

Lemma run_prepare transfer : runs (prepare_download_proc transfer) (prepare_download transfer).
Proof. unfold prepare_download_proc, prepare_download. same. Qed.

Lemma run_spawn transfer : runs (spawn_download_proc transfer) (spawn_download transfer).
Proof.
  unfold spawn_download_proc, spawn_download. apply runs_bind; [apply run_prepare|]. intros [content_id control] rt.
  rewrite run_bind. unfold mbind, st_bind. rewrite (runs_act _ rt). unfold insert_control, gets, modify.
  by destruct (bool_decide _).
Qed.

Lemma run_start_fetch content_id share : runs (start_fetch_proc content_id share) (start_fetch content_id share).
Proof. unfold start_fetch_proc, start_fetch. same. apply run_spawn. Qed.

Lemma run_resume id : runs (resume_transfer_proc id) (resume_transfer id).
Proof. unfold resume_transfer_proc, resume_transfer. same. apply run_spawn. Qed.

Lemma run_pause id : runs (pause_transfer_proc id) (pause_transfer id).
Proof.
  unfold pause_transfer_proc, pause_transfer. same. intros rt. rewrite run_bind. unfold mbind at 1, st_bind at 1.
  rewrite (runs_act _ rt). unfold pause_control, mbind, st_bind, gets, lift, modify.
  destruct (ok_or (downloads rt !! id) _) as [cell|e]; [|done]. by rewrite (runs_act _ _).
Qed.

Lemma run_fail id failure : runs (fail_transfer_proc id failure) (fail_transfer id failure).
Proof. intros rt. unfold fail_transfer_proc. rewrite run_bind. unfold mbind, st_bind. rewrite (runs_act _ rt). unfold ignore at 1. by rewrite (runs_act _ _). Qed.

Lemma run_finish transfer content_id control outcome :
  runs (finish_fetch_proc transfer content_id control outcome) (finish_fetch transfer content_id control outcome).
Proof.
  destruct outcome as [stats|error]; cbn [finish_fetch_proc finish_fetch]; intros rt.
  - unfold finish_download_proc, finish_download. rewrite run_bind. unfold mbind at 1, st_bind at 1. rewrite run_catch.
    rewrite (run_complete_store (now rt) content_id _ rt eq_refl). destruct (on_store _ rt) as [rt1 [rec|e]] eqn:E; cbn [fst snd]; [|apply run_fail].
    rewrite run_bind. unfold mbind, st_bind. rewrite (runs_act _ rt1). unfold ignore at 1 3. rewrite run_bind.
    unfold mbind, st_bind. rewrite (runs_act _ _). unfold modify. destruct (cr_shared rec); [apply runs_act|done].
  - transitivity (match reason_of control rt with
      | Some Paused => ignore (on_store (set_transfer_status (t_id transfer) (str "paused") None (now rt))) rt
      | Some Interrupted => ignore (on_store (set_transfer_status (t_id transfer) (str "interrupted") None (now rt))) rt
      | None => fail_transfer (t_id transfer) error rt
      end).
    + unfold finish_stopped_proc. rewrite run_bind. unfold mbind, st_bind. rewrite (runs_act _ rt). unfold gets.
      destruct (reason_of control rt) as [[]|]; [by rewrite (runs_act _ rt)|by rewrite (runs_act _ rt)|apply run_fail].
    + unfold finish_stopped_download, mbind at 1 2, st_bind at 1 2, gets, reason_of. by destruct (controls rt !! control ≫= stop_reason) as [[]|].
Qed.

Lemma run_shutdown : runs shutdown_proc shutdown.
Proof. unfold shutdown_proc, shutdown. same. Qed.

Lemma run_recover records : runs (recover_proc records) (recover records).
Proof. induction records; cbn [recover_proc recover]; same. apply run_spawn. Qed.
Lemma run_providers records : runs (start_providers_proc records) (start_providers records).
Proof. induction records; cbn [start_providers_proc start_providers]; same. Qed.

(** The start of the daemon, without a pause. *)
Lemma run_create c d w t ms s : open_store (data_dir c) d w = (s, Ok tt) ->
  run_alone create_proc (new_runtime c s t ms) = create c d w t ms.
Proof.
  intros Ho. unfold create. rewrite Ho. unfold create_proc.
  assert (runs (content ← list_content_store; _ ← start_providers_proc content; transfers ← atomic (timed recoverable_transfers); recover_proc transfers)
    (content ← on_store NodeStore.list_content; _ ← start_providers content; t ← gets now; transfers ← on_store (recoverable_transfers t); recover transfers)) as Hr.
  { same; [apply runs_list_store|apply run_providers|apply run_recover]. }
  rewrite Hr. unfold mbind, st_bind. destruct (on_store NodeStore.list_content _) as [rt1 [content|e]] eqn:E1; [|done].
  destruct (start_providers content rt1) as [rt2 [[]|e]] eqn:E2; [|done]. unfold gets.
  assert (now rt2 = t) as ->; [|done].
  assert (now rt1 = t) as <- by (unfold on_store in E1; destruct (NodeStore.list_content _); injection E1 as <- _; done). clear E1. revert rt1 E2.
  induction content as [|x content IH]; intros rt1 E2; [by injection E2 as <-|]. cbn [start_providers] in E2.
  apply st_ok_inv in E2 as (rt3 & [] & E3 & E2). apply IH in E2. rewrite E2. clear E2 IH. destruct (_ && _); [|by injection E3 as <-].
  unfold start_provider, mbind, st_bind, gets in E3. destruct (bootstrap _); [|by injection E3 as <-].
  destruct (bool_decide _); by injection E3 as <-.
Qed.

(** ** Requests *)

Lemma run_status : runs status_proc status.
Proof.
  unfold status_proc, status. apply runs_bind; [apply runs_act|]. intros [stored shared] rt.
  do 7 (rewrite run_bind; unfold mbind at 1, st_bind at 1; rewrite (runs_act _ rt); unfold gets at 1; cbv beta iota). done.
Qed.

Lemma run_route_inner request : runs (route_request_inner_proc request) (route_request_inner request).
Proof.
  unfold route_request_inner_proc, route_request_inner. destruct (split_target _) as [path query].
  repeat match goal with |- runs (if ?b then _ else _) _ => destruct b end; try apply runs_act; try apply runs_ret.
  - same. apply run_status.
  - unfold content_reply_proc, content_reply. same. apply run_list.
  - unfold add_content_request_proc, add_content_request. same. apply run_add.
  - unfold fetch_request_proc, fetch_request. same. apply run_start_fetch.
  - same.
  - unfold delete_content_request_proc, delete_content_request. same. apply run_remove.
  - unfold pause_request_proc, pause_request. same. apply run_pause.
  - unfold resume_request_proc, resume_request. same. apply run_resume.
Qed.

(** A connection whose thread is not interrupted is handled as NodeApi.v says. *)
Theorem run_connection (stream : Incoming) (remote : IpAddr) (rt : NodeRuntime) :
  run_alone (connection_proc stream remote) rt
  = ((handle_connection stream remote rt).1, Ok (handle_connection stream remote rt).2).
Proof.
  unfold connection_proc, handle_connection. destruct (negb _); [done|]. destruct (read_request stream) as [request|e]; [|done].
  rewrite run_bind. unfold mbind at 1, st_bind at 1. rewrite (runs_act _ rt). unfold gets. destruct (_ && _); [done|].
  unfold route_request_proc, route_request. rewrite run_bind. unfold mbind, st_bind. rewrite run_catch, run_route_inner.
  by destruct (route_request_inner request rt) as [rt' [r|e]].
Qed.
End Serial.

(** ** What threads may change *)

Definition is_serving (t : Thread) : bool := match t with Serving _ _ => true | _ => false end.

(** [cv_owner]: the transfers of the controls, cell by cell. *)
Record CView := mkCView {
  cv_downloads : gmap Z nat;
  cv_owner : list Z;
  cv_fetching : list (Z * nat);
  cv_serving : Z;
  cv_active : Z;
  cv_uploads : Z
}.

Definition cview (rt : NodeRuntime) : CView :=
  mkCView (downloads rt) (map fc_transfer (controls rt)) (omap fetching (threads rt)) (count is_serving (threads rt))
    (active_downloads (counters rt)) (active_uploads (counters rt)).

(** Transfers have distinct identifiers, all given out. *)
Definition ids_ok (d : Database) : Prop :=
  NoDup (map tr_id (transfers d)) /\ Forall (fun r => tr_id r <= sequence d) (transfers d).

Definition store_ids {A} (c : sio A) : Prop := forall s, ids_ok (db s) -> ids_ok (db (c s).1).

(** An action that leaves maps, counters and workers as they are. *)
Definition calm {A} (c : rio A) : Prop := forall rt,
  cview (c rt).1 = cview rt /\ (ids_ok (db (store rt)) -> ids_ok (db (store (c rt).1))).

Lemma ids_keeps {A} (c : sio A) : keeps_transfers c -> store_ids c.
Proof. intros Hc s. unfold ids_ok. destruct (Hc s) as [-> ->]. done. Qed.

Lemma ids_patches {A} P (c : sio A) : patches P c -> (forall r r', P r r' -> tr_id r' = tr_id r) -> store_ids c.
Proof.
  intros Hc HP s [Hn Hf]. unfold ids_ok. destruct (Hc s) as (Hq & [->|(g & Hg & ->)]); rewrite Hq; [done|].
  rewrite map_map, (map_ext _ tr_id) by (intros r; by apply HP). split; [done|]. apply Forall_fmap. eapply Forall_impl; [exact Hf|].
  intros r Hr. cbn. by rewrite (HP _ _ (Hg r)).
Qed.

Lemma sets_same_id id s r r' : sets_status id s r r' -> tr_id r' = tr_id r.
Proof. unfold sets_status. destruct (_ =? _); [by intros (-> & _)|by intros ->]. Qed.
Lemma interrupts_same_id r r' : interrupts r r' -> tr_id r' = tr_id r.
Proof. unfold interrupts. destruct (working r); [by intros (-> & _)|by intros ->]. Qed.

Section Ids.
Context `{Blake3} `{Hex} `{StoreCodec}.

Lemma ids_bind {A B} (c : sio A) (f : A -> sio B) : store_ids c -> (forall a, store_ids (f a)) -> store_ids (c ≫= f).
Proof.
  intros Hc Hf s Hs. unfold mbind, st_bind. specialize (Hc s Hs). destruct (c s) as [s1 [a|e]]; [by apply Hf|done].
Qed.

Lemma ids_create content_id share t : store_ids (create_transfer content_id share t).
Proof.
  unfold create_transfer. apply ids_bind; [apply ids_keeps, keeps_query|]. intros active. destruct (negb _); [apply ids_keeps, keeps_throw|].
  intros s Hs. destruct (execute _ s) as [s' r] eqn:E. cbn [fst]. apply execute_cases in E as (_ & [E|[-> _]]); [|done].
  destruct (_ >? _); [by injection E as <- _|]. injection E as <- _. destruct Hs as [Hn Hf].
  unfold ids_ok. cbn [transfers sequence]. rewrite map_app. split.
  - apply NoDup_app. split_and!; [done| |apply NoDup_singleton]. intros id Hid%list_elem_of_fmap Hx%list_elem_of_singleton.
    destruct Hid as (old & -> & Hr). rewrite Forall_forall in Hf. specialize (Hf old Hr). cbn in Hx. lia.
  - apply Forall_app. split; [eapply Forall_impl; [exact Hf|]; cbn; lia|]. repeat constructor. cbn. lia.
Qed.
Lemma ids_transfer id s a b c e t : store_ids (update_transfer id s a b c e t).
Proof. eapply ids_patches; [apply patches_transfer|apply sets_same_id]. Qed.
Lemma ids_state id s e t : store_ids (set_transfer_status id s e t).
Proof. eapply ids_patches; [apply patches_state|apply sets_same_id]. Qed.
Lemma ids_complete id n k stats t : store_ids (complete_transfer id n k stats t).
Proof. eapply ids_patches; [apply patches_complete|apply sets_same_id]. Qed.
Lemma ids_mark t : store_ids (mark_running_interrupted t).
Proof. eapply ids_patches; [apply patches_mark|apply interrupts_same_id]. Qed.
Lemma ids_recoverable t : store_ids (recoverable_transfers t).
Proof. apply ids_bind; [apply (ids_mark t)|]. intros _. apply ids_keeps, keeps_query. Qed.
Lemma ids_progress id p rate t : store_ids (update_progress id p rate t).
Proof. eapply ids_patches; [apply patches_progress|]. by intros r r' (-> & _). Qed.
End Ids.

Lemma calm_bind {A B} (c : rio A) (f : A -> rio B) : calm c -> (forall a, calm (f a)) -> calm (c ≫= f).
Proof.
  intros Hc Hf rt. unfold mbind, st_bind. destruct (Hc rt) as [Hv Hi]. destruct (c rt) as [rt1 [a|e]]; [|done]. cbn [fst] in *.
  destruct (Hf a rt1) as [Hv' Hi']. split; [congruence|auto].
Qed.
Lemma calm_same {A} (c : rio A) : (forall rt, (c rt).1 = rt) -> calm c.
Proof. intros Hc rt. by rewrite Hc. Qed.
Lemma calm_store {A} (c : sio A) : store_ids c -> calm (on_store c).
Proof. intros Hc rt. specialize (Hc (store rt)). unfold on_store. by destruct (c (store rt)). Qed.
Lemma calm_keeps {A} (c : sio A) : keeps_transfers c -> calm (on_store c).
Proof. intros Hc. by apply calm_store, ids_keeps. Qed.
Lemma calm_timed {A : Set} (c : Z -> sio A) : (forall t, store_ids (c t)) -> calm (timed c).
Proof. intros Hc. apply calm_bind; [by apply calm_same|]. intros t. by apply calm_store. Qed.
Lemma calm_ignore {A} (c : rio A) : calm c -> calm (ignore c).
Proof. intros Hc rt. apply Hc. Qed.
Lemma calm_modify f : (forall rt, cview (f rt) = cview rt /\ store (f rt) = store rt) -> calm (modify f).
Proof. intros Hf rt. destruct (Hf rt) as [Hv Hs]. unfold modify. cbn [fst]. by rewrite Hs. Qed.

Section Calm.
Context `{Blake3} `{Hex} `{StoreCodec}.

Lemma calm_start_provider content : calm (start_provider content).
Proof.
  unfold start_provider. apply calm_bind; [by apply calm_same|]. intros c. destruct (bootstrap c); [|by apply calm_same].
  apply calm_bind; [by apply calm_same|]. intros p. destruct (bool_decide _); [by apply calm_same|].
  apply calm_bind; [by apply calm_same|]. intros f. apply calm_bind; [by apply calm_modify|]. intros _. apply calm_modify.
  intros rt. split; [|done]. unfold cview, with_threads. cbn [downloads controls threads counters].
  by rewrite omap_app, count_app, app_nil_r, Z.add_0_r.
Qed.
Lemma calm_stop_provider content_id : calm (stop_provider content_id).
Proof. apply calm_modify. intros rt. by destruct (providers rt !! content_id). Qed.

Lemma calm_controls (f : nat -> FetchControl -> FetchControl) :
  (forall i c, fc_transfer (f i c) = fc_transfer c) ->
  forall rt, cview (with_downloads (imap f (controls rt)) (downloads rt) rt) = cview rt.
Proof.
  intros Hf rt. unfold cview, with_downloads. cbn [downloads controls threads counters]. f_equal.
  apply list_eq. intros i. rewrite !list_lookup_fmap, list_lookup_imap. destruct (controls rt !! i); cbn; [by rewrite Hf|done].
Qed.

Lemma owner_alter f cell (heap : list FetchControl) :
  (forall c, fc_transfer (f c) = fc_transfer c) -> map fc_transfer (alter f cell heap) = map fc_transfer heap.
Proof.
  intros Hf. apply list_eq. intros i. rewrite !list_lookup_fmap. destruct (decide (i = cell)) as [->|Hne].
  - rewrite list_lookup_alter. rewrite decide_True by done. destruct (heap !! cell); cbn; [by rewrite Hf|done].
  - by rewrite list_lookup_alter_ne.
Qed.

Lemma calm_pause_control id : calm (pause_control id).
Proof.
  intros rt. unfold pause_control, mbind, st_bind, gets, lift, modify. destruct (ok_or _ _) as [cell|e]; [|done]. cbn [fst].
  split; [|done]. unfold cview, with_downloads. cbn [downloads controls threads counters]. by rewrite owner_alter.
Qed.

Lemma calm_report cell progress : calm (report cell progress).
Proof.
  intros rt. unfold report, mbind, st_bind, gets, modify. cbv beta iota zeta. destruct (controls rt !! cell) as [c|] eqn:Hc; [|done].
  match goal with |- context [with_downloads ?h _] => set (heap := h) end.
  assert (map fc_transfer heap = map fc_transfer (controls rt)) as Ho.
  { apply list_eq. intros i. unfold heap. rewrite !list_lookup_fmap. destruct (decide (i = cell)) as [->|Hne].
    - rewrite list_lookup_insert_eq by (by eapply lookup_lt_Some). by rewrite Hc.
    - by rewrite list_lookup_insert_ne. }
  destruct (calm_ignore _ (calm_store _ (ids_progress (fc_transfer c) progress (progress_rate c (elapsed rt) (vp_verified_bytes progress)) (now rt)))
    (with_downloads heap (downloads rt) rt)) as [Hv Hi].
  split; [|exact Hi]. etransitivity; [exact Hv|]. unfold cview, with_downloads. cbn [downloads controls threads counters]. by rewrite Ho.
Qed.
End Calm.

(** ** Well-behaved programs *)

(** The worker a thread is about to launch. *)
Definition pending {A} (p : proc A) : option (Z * nat) :=
  match p with Launch transfer _ cell _ => Some (t_id transfer, cell) | _ => None end.

(** A control for [id] in the next cell, under [id] in the map. *)
Definition claim (id : Z) (v : CView) : CView :=
  mkCView (<[id := length (cv_owner v)]> (cv_downloads v)) (cv_owner v ++ [id]) (cv_fetching v) (cv_serving v) (cv_active v)
    (cv_uploads v).

(** An action changes nothing, or replaces a control; only the insertion of the first
    control of a transfer lets a thread launch its worker. *)
Definition changes (v v' : CView) (next : option (Z * nat)) : Prop :=
  match next with
  | None => v' = v \/ exists id, is_Some (cv_downloads v !! id) /\ v' = claim id v
  | Some (id, cell) => cv_downloads v !! id = None /\ cell = length (cv_owner v) /\ v' = claim id v
  end.

Fixpoint good {A} (p : proc A) : Prop :=
  match p with
  | Done _ => True
  | Atom c k => forall rt,
      good (k (c rt).2) /\ changes (cview rt) (cview (c rt).1) (pending (k (c rt).2))
      /\ (ids_ok (db (store rt)) -> ids_ok (db (store (c rt).1)))
  | Launch _ _ _ k => good k /\ pending k = None
  end.

(** [good], and not yet about to launch. *)
Definition fresh {A} (p : proc A) : Prop := good p /\ pending p = None.

(** Every value it may return. *)
Fixpoint yields {A} (Q : A -> Prop) (p : proc A) : Prop :=
  match p with
  | Done (Ok a) => Q a
  | Done (Err _) => True
  | Atom c k => forall r, yields Q (k r)
  | Launch _ _ _ k => yields Q k
  end.

Lemma yields_bind {A B} (Q : B -> Prop) (p : proc A) (f : A -> proc B) : (forall a, yields Q (f a)) -> yields Q (p ≫= f).
Proof. intros Hf. induction p as [[a|e]|X c k IH|tr id cell k IH]; [apply Hf|done|exact IH|exact IH]. Qed.
Lemma yields_any {A} (p : proc A) : yields (fun _ => True) p.
Proof. induction p as [[a|e]|X c k IH|tr id cell k IH]; done. Qed.

Lemma fresh_then {A B} (Q : A -> Prop) (p : proc A) (f : A -> proc B) :
  fresh p -> yields Q p -> (forall a, Q a -> fresh (f a)) -> fresh (p ≫= f).
Proof.
  intros [Hp Hn] Hq Hf. assert (good (p ≫= f) /\ pending (p ≫= f) = pending p) as [Hg Hpe]; [|split; congruence].
  clear Hn. induction p as [[a|e]|X c k IH|tr id cell k IH]; [by apply Hf|done| |].
  - split; [|done]. intros rt. destruct (Hp rt) as (Hk & Hc & Hi). destruct (IH _ Hk (Hq _)) as [Hg Hn].
    change (good (k (c rt).2 ≫= f) /\ changes (cview rt) (cview (c rt).1) (pending (k (c rt).2 ≫= f))
      /\ (ids_ok (db (store rt)) -> ids_ok (db (store (c rt).1)))). by rewrite Hn.
  - destruct Hp as [Hk Hn]. destruct (IH Hk Hq) as [Hg Hp]. split; [|done]. split; [exact Hg|]. by rewrite <- Hn, <- Hp.
Qed.
Lemma fresh_bind {A B} (p : proc A) (f : A -> proc B) : fresh p -> (forall a, fresh (f a)) -> fresh (p ≫= f).
Proof. intros Hp Hf. apply (fresh_then (fun _ => True)); [done|apply yields_any|by intros a _]. Qed.
Lemma fresh_catch {A} (p : proc A) : fresh p -> fresh (catch p).
Proof.
  assert (good p -> good (catch p) /\ pending (catch p) = pending p) as Hc; [|intros [Hp Hn]; destruct (Hc Hp); split; congruence].
  induction p as [r|X c k IH|tr id cell k IH]; intros Hp; [done| |].
  - split; [|done]. intros rt. destruct (Hp rt) as (Hk & Hch & Hi). destruct (IH _ Hk) as [Hg Hn]. by rewrite Hn.
  - destruct Hp as [Hk Hn]. destruct (IH Hk) as [Hg Hp]. by repeat split; [|congruence].
Qed.
Lemma fresh_done {A} (r : result (list Z) A) : fresh (Done r).
Proof. done. Qed.
Lemma fresh_ret {A} (a : A) : fresh (mret a).
Proof. done. Qed.
Lemma fresh_act {A : Set} (c : rio A) : calm c -> fresh (atomic c).
Proof. intros Hc. split; [|done]. intros rt. destruct (Hc rt) as [Hv Hi]. split_and!; [done|by left|done]. Qed.
Lemma fresh_gets {A : Set} (f : NodeRuntime -> A) : fresh (atomic (gets f)).
Proof. by apply fresh_act, calm_same. Qed.
Lemma fresh_keeps {A : Set} (c : sio A) : keeps_transfers c -> fresh (in_store c).
Proof. intros Hc. by apply fresh_act, calm_keeps. Qed.
Lemma fresh_timed {A : Set} (c : Z -> sio A) : (forall t, store_ids (c t)) -> fresh (atomic (timed c)).
Proof. intros Hc. by apply fresh_act, calm_timed. Qed.
Lemma fresh_ignored {A : Set} (c : Z -> sio A) : (forall t, store_ids (c t)) -> fresh (atomic (ignore (timed c))).
Proof. intros Hc. by apply fresh_act, calm_ignore, calm_timed. Qed.

Create HintDb fresh.
#[export] Hint Resolve fresh_done fresh_ret fresh_gets : fresh.

Ltac freshly := repeat match goal with
  | |- forall _, _ => intros ?
  | |- fresh (_ ≫= _) => apply fresh_bind
  | |- fresh (match ?x with _ => _ end) => destruct x
  | |- fresh (in_store (on_disk _ _)) => apply fresh_keeps, keeps_on_disk
  | |- fresh (in_store (query _)) => apply fresh_keeps, keeps_query
  | |- fresh (in_store _) => apply fresh_keeps; solve [eauto 3 with quiet nocore]
  | |- fresh _ => solve [eauto 2 with fresh nocore]
  end.

Section Fresh.
Context `{Blake3} `{Hex} `{StoreCodec} `{Json}.

Lemma fresh_add_store path shared : fresh (add_content_store path shared).
Proof.
  unfold add_content_store. freshly. apply fresh_act. apply calm_bind; [by apply calm_same|]. intros t.
  apply calm_bind; [by apply calm_same|]. intros row. apply calm_keeps. unfold insert_content. apply keeps_execute. intros d. by case_match.
Qed.
Lemma fresh_complete_store id shared : fresh (complete_download_store id shared).
Proof.
  unfold complete_download_store. freshly. apply fresh_act. apply calm_bind; [by apply calm_same|]. intros t.
  apply calm_bind; [by apply calm_same|]. intros row. apply calm_keeps. unfold upsert_content. by apply keeps_execute.
Qed.
Lemma fresh_remove_store id b : fresh (remove_content_store id b).
Proof. unfold remove_content_store. freshly. all: apply fresh_keeps; by apply keeps_execute. Qed.
Lemma fresh_verify_row k row : fresh (verify_row_store k row).
Proof.
  unfold verify_row_store. freshly; apply fresh_keeps; [apply keeps_verified|]. repeat case_match; apply keeps_update_content.
Qed.
Lemma fresh_list_store : fresh list_content_store.
Proof.
  unfold list_content_store, verify_all_store. freshly. induction a as [|[k row] rows IH]; [done|].
  cbn [verify_rows_store]. apply fresh_bind; [apply fresh_verify_row|intros _; exact IH].
Qed.
#[local] Hint Resolve fresh_add_store fresh_complete_store fresh_remove_store fresh_list_store : fresh.

Lemma fresh_provider content : fresh (atomic (start_provider content)).
Proof. apply fresh_act, calm_start_provider. Qed.
#[local] Hint Resolve fresh_provider : fresh.

Lemma fresh_insert transfer control content_id : fc_transfer control = t_id transfer ->
  fresh ('(cell, replaced) ← atomic (insert_control (t_id transfer) control);
         if (replaced : bool) then Done (Err (str "transfer already has an active worker"))
         else Launch transfer content_id cell (mret tt)).
Proof.
  intros Hc. split; [|done]. intros rt.
  assert (cview (insert_control (t_id transfer) control rt).1 = claim (t_id transfer) (cview rt)) as Hv.
  { unfold insert_control, cview, claim, with_downloads. cbn [fst downloads controls threads counters cv_owner cv_downloads cv_fetching cv_serving cv_active cv_uploads].
    rewrite map_app, length_map. cbn [map]. by rewrite Hc. }
  change (good (if bool_decide (is_Some (downloads rt !! t_id transfer)) then Done (Err (str "transfer already has an active worker")) else Launch transfer content_id (length (controls rt)) (mret tt))
    /\ changes (cview rt) (cview (insert_control (t_id transfer) control rt).1)
         (pending (if bool_decide (is_Some (downloads rt !! t_id transfer)) then Done (Err (str "transfer already has an active worker")) else Launch transfer content_id (length (controls rt)) (mret tt) : proc unit))
    /\ (ids_ok (db (store rt)) -> ids_ok (db (store (insert_control (t_id transfer) control rt).1)))).
  rewrite Hv. case_bool_decide as Hd; split_and!; try done.
  - right. by exists (t_id transfer).
  - cbn [changes pending cview cv_downloads cv_owner]. rewrite length_map. split_and!; try done. by apply eq_None_not_Some.
Qed.

Lemma fresh_spawn transfer : fresh (spawn_download_proc transfer).
Proof.
  unfold spawn_download_proc. apply (fresh_then (fun r => fc_transfer r.2 = t_id transfer)).
  - unfold prepare_download_proc. freshly. apply fresh_timed. intros t. apply ids_transfer.
  - unfold prepare_download_proc. repeat (apply yields_bind; intros ?). done.
  - intros [content_id control] Hc. by apply fresh_insert.
Qed.
#[local] Hint Resolve fresh_spawn : fresh.

Lemma fresh_finish transfer content_id control outcome : fresh (finish_fetch_proc transfer content_id control outcome).
Proof.
  assert (forall id e, fresh (fail_transfer_proc id e)) as Hfail.
  { intros id e. apply fresh_bind; [apply fresh_ignored; intros t; apply ids_state|]. intros _. by apply fresh_act, calm_modify. }
  destruct outcome as [stats|e]; cbn [finish_fetch_proc].
  - apply fresh_bind; [apply fresh_catch, fresh_complete_store|]. intros [rec|e]; [|apply Hfail].
    apply fresh_bind; [apply fresh_ignored; intros t; apply ids_complete|]. intros _.
    apply fresh_bind; [by apply fresh_act, calm_modify|]. intros _. destruct (cr_shared rec); [|done].
    apply fresh_act, calm_ignore, calm_start_provider.
  - apply fresh_bind; [apply fresh_gets|]. intros [[]|]; [| |apply Hfail]; apply fresh_ignored; intros t; apply ids_state.
Qed.

Lemma fresh_shutdown : fresh shutdown_proc.
Proof.
  unfold shutdown_proc. freshly; try (by apply fresh_act, calm_modify).
  - apply fresh_act, calm_modify. intros rt. split; [|done]. apply (calm_controls (fun i c => if bool_decide (i ∈ (map_to_list (downloads rt)).*2) then interrupt c else c)).
    intros i c. by destruct (bool_decide _).
  - apply fresh_ignored. intros t. apply ids_mark.
Qed.

Lemma fresh_create : fresh create_proc.
Proof.
  unfold create_proc. freshly; [| |].
  - induction a as [|x records IH]; cbn [start_providers_proc]; freshly.
  - apply fresh_timed. intros t. apply ids_recoverable.
  - induction a1 as [|x records IH]; cbn [recover_proc]; freshly.
Qed.

Lemma fresh_connection stream remote : fresh (connection_proc stream remote).
Proof.
  unfold connection_proc, route_request_proc. freshly. apply fresh_catch.
  unfold route_request_inner_proc. destruct (split_target _) as [path query].
  repeat match goal with |- fresh (if ?b then _ else _) => destruct b end; try done.
  - unfold status_proc. freshly.
  - by apply fresh_act, calm_same; intros rt; unfold node_summary, mbind, st_bind, gets, lift; destruct (path_value _).
  - unfold content_reply_proc, list_content_proc. freshly.
  - unfold add_content_request_proc, add_content_proc. freshly.
  - unfold fetch_request_proc, start_fetch_proc. freshly. apply fresh_timed. intros t. apply ids_create.
  - apply fresh_act. apply calm_bind; [apply calm_keeps; eauto with quiet|]. intros ?. by apply calm_same.
  - by apply fresh_act, calm_same.
  - freshly. by apply fresh_act, calm_modify.
  - unfold delete_content_request_proc, remove_content_proc. freshly. apply fresh_act, calm_stop_provider.
  - unfold pause_request_proc, pause_transfer_proc. freshly; [apply fresh_act, calm_pause_control|]. apply fresh_timed. intros t. apply ids_state.
  - unfold resume_request_proc, resume_transfer_proc. freshly.
  - apply fresh_act. unfold transfer_request. apply calm_bind; [by apply calm_same|]. intros id.
    apply calm_bind; [apply calm_keeps; eauto with quiet|]. intros [?|]; by apply calm_same.
Qed.
End Fresh.

(** ** The invariant *)

(** [w] workers are past their fetch; [pend] are the workers about to be launched. *)
Record OInv (v : CView) (w : Z) (pend : list (Z * nat)) : Prop := {
  oi_active : cv_active v = (len (cv_fetching v) + w) mod 2 ^ 64;
  oi_uploads : cv_uploads v = cv_serving v mod 2 ^ 64;
  oi_map : forall id, is_Some (cv_downloads v !! id) <-> id ∈ (cv_fetching v ++ pend).*1;
  oi_one : NoDup (cv_fetching v ++ pend).*1;
  oi_cells : NoDup (cv_fetching v ++ pend).*2;
  oi_own : forall id cell, (id, cell) ∈ cv_fetching v ++ pend -> cv_owner v !! cell = Some id;
  oi_entries : forall id cell, cv_downloads v !! id = Some cell -> cv_owner v !! cell = Some id
}.

Lemma OInv_perm v w pend pend' : pend ≡ₚ pend' -> OInv v w pend -> OInv v w pend'.
Proof. intros Hp [A U M O C W E]. split; [done|done|..]; try (setoid_rewrite <- Hp; done). done. Qed.

Lemma claim_replaces v w pend id : is_Some (cv_downloads v !! id) -> OInv v w pend -> OInv (claim id v) w pend.
Proof.
  intros Hid [A U M O C W E]. split; cbn [claim cv_downloads cv_owner cv_fetching cv_serving cv_active cv_uploads]; try done.
  - intros i. rewrite <- M. destruct (decide (i = id)) as [->|Hne]; [rewrite lookup_insert_eq; by split|by rewrite lookup_insert_ne].
  - intros i cell Hi. by apply lookup_app_l_Some, W.
  - intros i cell [[<- <-]|[_ Hc]]%lookup_insert_Some; [by apply list_lookup_middle|by apply lookup_app_l_Some, E].
Qed.

Lemma claim_first v w pend id : cv_downloads v !! id = None -> OInv v w pend -> OInv (claim id v) w ((id, length (cv_owner v)) :: pend).
Proof.
  intros Hid [A U M O C W E].
  assert (cv_fetching v ++ (id, length (cv_owner v)) :: pend ≡ₚ (id, length (cv_owner v)) :: (cv_fetching v ++ pend)) as Hp
    by (symmetry; apply Permutation_middle).
  split; cbn [claim cv_downloads cv_owner cv_fetching cv_serving cv_active cv_uploads]; try done.
  - intros i. rewrite Hp. cbn [fmap list_fmap fst]. rewrite elem_of_cons, <- M.
    destruct (decide (i = id)) as [->|Hne]; [rewrite lookup_insert_eq; naive_solver|rewrite lookup_insert_ne by done; naive_solver].
  - rewrite Hp. cbn [fmap list_fmap fst]. constructor; [|done]. rewrite <- M, Hid. by intros [].
  - rewrite Hp. cbn [fmap list_fmap snd]. constructor; [|done]. intros ([i cell] & Hc & Hi)%list_elem_of_fmap. cbn [snd] in Hc. subst cell.
    apply W, lookup_lt_Some in Hi. lia.
  - intros i cell. rewrite Hp, elem_of_cons. intros [[= -> ->]|Hi]; [by apply list_lookup_middle|by apply lookup_app_l_Some, W].
  - intros i cell [[<- <-]|[_ Hc]]%lookup_insert_Some; [by apply list_lookup_middle|by apply lookup_app_l_Some, E].
Qed.

Lemma mod_add_back a n k : a = n mod 2 ^ 64 -> fetch_add a k = (n + k) mod 2 ^ 64.
Proof. intros ->. unfold fetch_add. by rewrite Z.add_mod_idemp_l. Qed.

Lemma launch_OInv transfer content_id cell rt w pend :
  OInv (cview rt) w ((t_id transfer, cell) :: pend) -> OInv (cview (launch_worker transfer content_id cell rt)) w pend.
Proof.
  intros [A U M O C W E].
  assert (cv_fetching (cview (launch_worker transfer content_id cell rt)) = cv_fetching (cview rt) ++ [(t_id transfer, cell)]) as Hf
    by (unfold launch_worker, cview, with_threads; cbn [threads cv_fetching]; by rewrite omap_app).
  assert (cv_fetching (cview rt) ++ (t_id transfer, cell) :: pend = (cv_fetching (cview rt) ++ [(t_id transfer, cell)]) ++ pend) as Ha
    by (by rewrite <- app_assoc). rewrite Ha in *.
  split; rewrite ?Hf; try done.
  - rewrite len_app. change (len [(t_id transfer, cell)]) with 1. cbn [cview launch_worker cv_active with_threads with_counters counters add_downloads active_downloads].
    etransitivity; [exact (mod_add_back _ _ 1 A)|]. f_equal. lia.
  - cbn [cview cv_uploads cv_serving launch_worker with_threads with_counters counters threads add_downloads active_uploads] in *.
    by rewrite count_app, Z.add_0_r.
Qed.

(** One action of one thread. *)
Lemma advance_OInv {A} (p p' : proc A) rt rt' w pend :
  good p -> OInv (cview rt) w (option_list (pending p) ++ pend) -> ids_ok (db (store rt)) -> take_action p rt = (rt', p') ->
  good p' /\ OInv (cview rt') w (option_list (pending p') ++ pend) /\ ids_ok (db (store rt')).
Proof.
  intros Hg Ho Hi Hx. destruct p as [r|B c k|tr id cell k]; cbn [take_action] in Hx.
  - by injection Hx as <- <-.
  - destruct (Hg rt) as (Hk & Hc & Hids). destruct (c rt) as [rt1 r]. injection Hx as <- <-. cbn [fst snd pending option_list app] in *.
    split; [done|]. split; [|by apply Hids]. unfold changes in Hc. destruct (pending (k r)) as [[id cell]|].
    + destruct Hc as (Hn & -> & ->). by apply claim_first.
    + destruct Hc as [->|(id & Hid & ->)]; [done|by apply claim_replaces].
  - injection Hx as <- <-. destruct Hg as [Hk Hn]. rewrite Hn. cbn [pending option_list app] in *. split; [done|]. split; [by apply launch_OInv|done].
Qed.

(** An element of a list changed or removed, as the rest sees it. *)
Lemma omap_at {A B} (f : A -> option B) l i x :
  l !! i = Some x ->
  omap f l ≡ₚ option_list (f x) ++ omap f (delete i l)
  /\ forall y, omap f (<[i := y]> l) ≡ₚ option_list (f y) ++ omap f (delete i l).
Proof.
  intros Hi. pose proof (lookup_lt_Some _ _ _ Hi) as Hlt. rewrite delete_take_drop, omap_app.
  assert (forall z, omap f (take i l ++ z :: drop (S i) l) ≡ₚ option_list (f z) ++ omap f (take i l) ++ omap f (drop (S i) l)) as Hz.
  { intros z. rewrite omap_middle. destruct (f z) as [b|]; [|done]. symmetry. apply (Permutation_middle (omap f (take i l)) (omap f (drop (S i) l)) b). }
  split; [rewrite <- (take_drop_middle l i x Hi) at 1; apply Hz|]. intros y. rewrite insert_take_drop by done. apply Hz.
Qed.

Lemma count_at {A} (p : A -> bool) l i x :
  l !! i = Some x ->
  count p (delete i l) = count p l - (if p x then 1 else 0)
  /\ forall y, count p (<[i := y]> l) = count p l - (if p x then 1 else 0) + (if p y then 1 else 0).
Proof.
  intros Hi. pose proof (lookup_lt_Some _ _ _ Hi) as Hlt. rewrite delete_take_drop.
  assert (count p l = count p (take i l) + ((if p x then 1 else 0) + count p (drop (S i) l))) as ->
    by (by rewrite <- (take_drop_middle l i x Hi) at 1; rewrite count_app, count_cons).
  split; [|intros y; rewrite insert_take_drop by done]; rewrite count_app, ?count_cons; lia.
Qed.

Lemma len_delete {A} (l : list A) i x : l !! i = Some x -> len (delete i l) = len l - 1.
Proof. intros Hi. pose proof (lookup_lt_Some _ _ _ Hi). unfold len. rewrite length_delete by eauto. lia. Qed.

Lemma fetched_OInv i transfer content_id cell rt w pend :
  threads rt !! i = Some (Fetching transfer content_id cell) -> OInv (cview rt) w pend ->
  OInv (cview (ends i (with_downloads (controls rt) (delete (t_id transfer) (downloads rt)) rt))) (w + 1) pend.
Proof.
  intros Ht [A U M O C W E]. set (rt' := ends _ _).
  assert (cv_fetching (cview rt) ≡ₚ (t_id transfer, cell) :: cv_fetching (cview rt')) as Hf by apply (omap_at fetching _ _ _ Ht).
  assert (len (cv_fetching (cview rt)) = 1 + len (cv_fetching (cview rt'))) as Hl by (unfold len; rewrite Hf; cbn [length]; lia).
  assert (forall id, id ∈ (cv_fetching (cview rt) ++ pend).*1 <-> id = t_id transfer \/ id ∈ (cv_fetching (cview rt') ++ pend).*1) as Hm
    by (intros id; rewrite Hf; cbn [app fmap list_fmap fst]; apply elem_of_cons).
  rewrite Hf in O, C. cbn [app fmap list_fmap fst snd] in O, C. apply NoDup_cons in O as [On O], C as [_ C].
  split; try done.
  - change (cv_active (cview rt')) with (cv_active (cview rt)). rewrite A, Hl. f_equal. lia.
  - change (cv_uploads (cview rt')) with (cv_uploads (cview rt)). rewrite U.
    destruct (count_at is_serving _ _ _ Ht) as [Hd _]. unfold rt', ends, cview, with_threads. cbn [cv_serving threads with_downloads].
    by rewrite Hd, Z.sub_0_r.
  - intros id. change (cv_downloads (cview rt')) with (delete (t_id transfer) (cv_downloads (cview rt))).
    destruct (decide (id = t_id transfer)) as [->|Hne].
    + rewrite lookup_delete_eq. split; [by intros []|]. intros Hx. by destruct On.
    + rewrite lookup_delete_ne, M, Hm by done. naive_solver.
  - intros id c' Hx. apply W. rewrite Hf. by right.
  - intros id c'. change (cv_downloads (cview rt')) with (delete (t_id transfer) (cv_downloads (cview rt))).
    intros [_ Hx]%lookup_delete_Some. by apply E.
Qed.

(** Only the threads and the counter of uploads move. *)
Lemma provider_OInv rt rt' w pend :
  cv_downloads (cview rt') = cv_downloads (cview rt) -> cv_owner (cview rt') = cv_owner (cview rt) ->
  cv_active (cview rt') = cv_active (cview rt) -> cv_fetching (cview rt') ≡ₚ cv_fetching (cview rt) ->
  (exists k, cv_uploads (cview rt') = fetch_add (cv_uploads (cview rt)) k /\ cv_serving (cview rt') = cv_serving (cview rt) + k)
  \/ (cv_uploads (cview rt') = cv_uploads (cview rt) /\ cv_serving (cview rt') = cv_serving (cview rt)) ->
  OInv (cview rt) w pend -> OInv (cview rt') w pend.
Proof.
  intros Hd Ho Ha Hf Hu [A U M O C W E]. assert (len (cv_fetching (cview rt')) = len (cv_fetching (cview rt))) as Hl by (unfold len; by rewrite Hf).
  split; rewrite ?Hd, ?Ho, ?Ha, ?Hl; try done; try (setoid_rewrite Hf; done).
  destruct Hu as [(k & -> & ->)|[-> ->]]; [by apply mod_add_back|done].
Qed.

(** The thread of [run_daemon], as a program. *)
Definition main_proc (m : Main) : proc unit :=
  match m with Starting p | Stopping p => p | _ => mret tt end.

(** The workers that threads of a list are about to launch. *)
Fixpoint pendings {A} (l : list (proc A)) : list (Z * nat) :=
  match l with [] => [] | p :: l => option_list (pending p) ++ pendings l end.

Lemma pendings_app {A} (l k : list (proc A)) : pendings (l ++ k) = pendings l ++ pendings k.
Proof. induction l as [|p l IH]; [done|]. cbn [pendings app]. by rewrite IH, app_assoc. Qed.

Lemma pendings_at {A} (l : list (proc A)) i p :
  l !! i = Some p ->
  pendings l ≡ₚ option_list (pending p) ++ pendings (delete i l)
  /\ forall q, pendings (<[i := q]> l) ≡ₚ option_list (pending q) ++ pendings (delete i l).
Proof.
  intros Hi. pose proof (lookup_lt_Some _ _ _ Hi) as Hlt. rewrite delete_take_drop, pendings_app.
  assert (forall q, pendings (take i l ++ q :: drop (S i) l) ≡ₚ option_list (pending q) ++ pendings (take i l) ++ pendings (drop (S i) l)) as Hz
    by (intros q; rewrite pendings_app; cbn [pendings]; solve_Permutation).
  split; [rewrite <- (take_drop_middle l i p Hi) at 1; apply Hz|]. intros q. rewrite insert_take_drop by done. apply Hz.
Qed.

(** The workers that some thread is about to launch. *)
Definition launching (x : Daemon) : list (Z * nat) :=
  option_list (pending (main_proc (dn_main x))) ++ pendings (dn_handlers x) ++ pendings (dn_workers x).

Record DInv (x : Daemon) : Prop := {
  di_threads : OInv (cview (dn_runtime x)) (len (dn_workers x)) (launching x);
  di_main : good (main_proc (dn_main x));
  di_handlers : Forall good (dn_handlers x);
  di_workers : Forall good (dn_workers x);
  di_connections : dn_connections x = len (dn_handlers x) /\ len (dn_handlers x) <= API_MAX_CONNECTIONS;
  di_ids : ids_ok (db (store (dn_runtime x)))
}.

Section Interleavings.
Context `{Blake3} `{Hex} `{StoreCodec} `{Json}.

Lemma main_DInv x y : DInv x -> main_step x = Some y -> DInv y.
Proof.
  intros [T M Hh W C I] Hx. unfold main_step in Hx.
  assert (forall p rt' p', main_proc (dn_main x) = p -> take_action p (dn_runtime x) = (rt', p') ->
    forall m, main_proc m = p' -> DInv (with_main rt' m x)) as Hgo.
  { intros p rt' p' Hp Ha m Hm. unfold launching in T. rewrite Hp in *. destruct (advance_OInv _ _ _ _ _ _ M T I Ha) as (Hg & Ho & Hi).
    split; unfold launching; cbn [with_main dn_runtime dn_main dn_handlers dn_workers dn_connections]; rewrite ?Hm; done. }
  assert (forall m, pending (main_proc (dn_main x)) = None -> fresh (main_proc m) -> DInv (with_main (dn_runtime x) m x)) as Hnew.
  { intros m Hp [Hg Hn]. split; try done. unfold launching in *. cbn [with_main dn_runtime dn_main dn_handlers dn_workers]. by rewrite Hn; rewrite Hp in T. }
  destruct (dn_main x) as [p| |p|] eqn:Em; cbn [main_proc] in *; [| | |done].
  - destruct p as [[u|e]|B c k|tr id cell k]; [injection Hx as <-; by apply Hnew|injection Hx as <-; by apply Hnew| |];
      (destruct (take_action _ _) as [rt' p'] eqn:Ea; injection Hx as <-; by eapply Hgo).
  - destruct (shutdown_requested _); [|done]. injection Hx as <-. apply Hnew; [done|apply fresh_shutdown].
  - destruct p as [r|B c k|tr id cell k]; [injection Hx as <-; by apply Hnew| |];
      (destruct (take_action _ _) as [rt' p'] eqn:Ea; injection Hx as <-; by eapply Hgo).
Qed.

Lemma accept_DInv stream remote x y : DInv x -> accept_step stream remote x = Some y -> DInv y.
Proof.
  intros [T M Hh W [C1 C2] I] Hx. unfold accept_step in Hx. destruct (dn_main x) eqn:Em; try done.
  destruct (Z.geb_spec (dn_connections x) API_MAX_CONNECTIONS) as [_|Hlt].
  { injection Hx as <-. split; [done|by rewrite Em|done..]. }
  injection Hx as <-. destruct (fresh_connection stream remote) as [Hg Hn].
  split; cbn [dn_runtime dn_main dn_handlers dn_workers dn_connections]; try done.
  - unfold launching in *. cbn [dn_main dn_handlers dn_workers]. rewrite pendings_app. cbn [pendings]. rewrite Hn, !app_nil_r. by rewrite <- Em.
  - by apply Forall_app_2, Forall_singleton.
  - rewrite len_app. change (len [connection_proc stream remote]) with 1. unfold fetch_add, API_MAX_CONNECTIONS in *.
    pose proof (len_nonneg (dn_handlers x)). rewrite Z.mod_small by lia. lia.
Qed.

Lemma handler_DInv i x y : DInv x -> handler_step i x = Some y -> DInv y.
Proof.
  intros [T M Hh W [C1 C2] I] Hx. unfold handler_step in Hx. destruct (dn_handlers x !! i) as [p|] eqn:Hi; [|done].
  pose proof (Forall_lookup_1 _ _ _ _ Hh Hi) as Hg. destruct (pendings_at _ _ _ Hi) as [Hd Hins].
  set (rest := option_list (pending (main_proc (dn_main x))) ++ pendings (delete i (dn_handlers x)) ++ pendings (dn_workers x)).
  assert (launching x ≡ₚ option_list (pending p) ++ rest) as Hl by (unfold launching, rest; rewrite Hd; solve_Permutation).
  apply (OInv_perm _ _ _ _ Hl) in T.
  assert (forall rt' p', take_action p (dn_runtime x) = (rt', p') ->
    DInv (mkDaemon rt' (dn_connections x) (dn_main x) (<[i := p']> (dn_handlers x)) (dn_workers x))) as Hgo.
  { intros rt' p' Ha. destruct (advance_OInv _ _ _ _ _ _ Hg T I Ha) as (Hg' & Ho & Hi').
    split; cbn [dn_runtime dn_main dn_handlers dn_workers dn_connections]; try done.
    - eapply OInv_perm; [|exact Ho]. unfold launching, rest. cbn [dn_main dn_handlers dn_workers]. rewrite Hins. solve_Permutation.
    - by apply Forall_insert.
    - unfold len. by rewrite length_insert. }
  destruct p as [r|B c k|tr id cell k]; [|destruct (take_action _ _) as [rt' p'] eqn:Ea; injection Hx as <-; by apply Hgo..].
  injection Hx as <-. pose proof (len_delete _ _ _ Hi). pose proof (len_nonneg (delete i (dn_handlers x))).
  split; cbn [dn_runtime dn_main dn_handlers dn_workers dn_connections]; try done.
  - by apply Forall_delete.
  - unfold fetch_add, API_MAX_CONNECTIONS in *. rewrite Z.mod_small by lia. lia.
Qed.

Lemma worker_DInv i x y : DInv x -> worker_step i x = Some y -> DInv y.
Proof.
  intros [T M Hh W C I] Hx. unfold worker_step in Hx. destruct (dn_workers x !! i) as [p|] eqn:Hi; [|done].
  pose proof (Forall_lookup_1 _ _ _ _ W Hi) as Hg. destruct (pendings_at _ _ _ Hi) as [Hd Hins].
  set (rest := option_list (pending (main_proc (dn_main x))) ++ pendings (dn_handlers x) ++ pendings (delete i (dn_workers x))).
  assert (launching x ≡ₚ option_list (pending p) ++ rest) as Hl by (unfold launching, rest; rewrite Hd; solve_Permutation).
  apply (OInv_perm _ _ _ _ Hl) in T.
  assert (forall rt' p', take_action p (dn_runtime x) = (rt', p') ->
    DInv (mkDaemon rt' (dn_connections x) (dn_main x) (dn_handlers x) (<[i := p']> (dn_workers x)))) as Hgo.
  { intros rt' p' Ha. destruct (advance_OInv _ _ _ _ _ _ Hg T I Ha) as (Hg' & Ho & Hi').
    split; cbn [dn_runtime dn_main dn_handlers dn_workers dn_connections]; try done.
    - unfold len. rewrite length_insert. eapply OInv_perm; [|exact Ho]. unfold launching, rest. cbn [dn_main dn_handlers dn_workers]. rewrite Hins. solve_Permutation.
    - by apply Forall_insert. }
  destruct p as [r|B c k|tr id cell k]; [|destruct (take_action _ _) as [rt' p'] eqn:Ea; injection Hx as <-; by apply Hgo..].
  injection Hx as <-. split; cbn [dn_runtime dn_main dn_handlers dn_workers dn_connections]; try done; [|by apply Forall_delete].
  destruct T as [A U Mp O Ce Ow E]. split; try done. rewrite (len_delete _ _ _ Hi).
  etransitivity; [exact (mod_add_back _ _ (-1) A)|]. f_equal. cbn [cview cv_fetching with_counters threads]. lia.
Qed.

Lemma fetched_DInv i outcome x y : DInv x -> fetched_step i outcome x = Some y -> DInv y.
Proof.
  intros [T M Hh W C I] Hx. unfold fetched_step in Hx. destruct (threads _ !! i) as [[tr id cell| | | |]|] eqn:Ht; try done. injection Hx as <-.
  destruct (fresh_finish tr id cell outcome) as [Hg Hn]. split; cbn [dn_runtime dn_main dn_handlers dn_workers dn_connections]; try done.
  - unfold launching in *. cbn [dn_main dn_handlers dn_workers]. rewrite pendings_app. cbn [pendings]. rewrite Hn, !app_nil_r.
    rewrite len_app. change (len [finish_fetch_proc tr id cell outcome]) with 1. by eapply fetched_OInv.
  - by apply Forall_app_2, Forall_singleton.
Qed.

Lemma provider_DInv i outcome x y : DInv x -> provider_step i outcome x = Some y -> DInv y.
Proof.
  intros [T M Hh W C I] Hx. unfold provider_step in Hx. set (rt := dn_runtime x) in *.
  assert (forall rt', OInv (cview rt') (len (dn_workers x)) (launching x) -> ids_ok (db (store rt')) -> DInv (on_runtime rt' x)) as Hgo
    by (intros rt' Ho Hi; by split).
  destruct (threads rt !! i) as [[| | |rec flag|rec flag]|] eqn:Ht; try done; injection Hx as <-;
    destruct (omap_at fetching _ _ _ Ht) as [Hd Hins], (count_at is_serving _ _ _ Ht) as [Cd Ci]; cbn [fetching is_serving option_list app] in *.
  - destruct (may_serve rt flag); apply Hgo; try done; (apply (provider_OInv rt); [done|done|done| | |done]).
    + unfold cview. cbn [cv_fetching becomes with_threads threads with_counters]. rewrite (Hins (Serving rec flag)). by rewrite Hd.
    + left. exists 1. split; [done|]. unfold cview. cbn [cv_serving becomes with_threads threads with_counters]. rewrite (Ci (Serving rec flag)). cbn. lia.
    + unfold cview. cbn [cv_fetching ends with_threads threads]. by rewrite Hd.
    + right. split; [done|]. unfold cview. cbn [cv_serving ends with_threads threads]. rewrite Cd. lia.
  - assert (forall rt', counters rt' = add_uploads (-1) (counters rt) \/ counters rt' = add_completed 0 (cr_length rec) (add_uploads (-1) (counters rt)) ->
      downloads rt' = downloads rt -> controls rt' = controls rt -> store rt' = store rt ->
      threads rt' = <[i := Providing rec flag]> (threads rt) \/ threads rt' = delete i (threads rt) -> DInv (on_runtime rt' x)) as Hs.
    { intros rt' Hc Hdl Hct Hst Hth. apply Hgo; [|by rewrite Hst].
      assert (active_downloads (counters rt') = active_downloads (counters rt) /\ active_uploads (counters rt') = fetch_add (active_uploads (counters rt)) (-1)) as [Ea Eu]
        by (by destruct Hc as [-> | ->]).
      apply (provider_OInv rt); [by unfold cview; rewrite Hdl|by unfold cview; rewrite Hct|done| | |done].
      - unfold cview. cbn [cv_fetching]. rewrite Hd. destruct Hth as [-> | ->]; [apply (Hins (Providing rec flag))|done].
      - left. exists (-1). split; [exact Eu|]. unfold cview. cbn [cv_serving]. destruct Hth as [-> | ->]; [rewrite (Ci (Providing rec flag))|rewrite Cd]; cbn [is_serving]; lia. }
    unfold served. destruct outcome as [u|e]; [by apply Hs; auto|]. destruct (negb _); by apply Hs; auto.
Qed.

Lemma perform_DInv a x y : DInv x -> perform a x = Some y -> DInv y.
Proof.
  intros Hi Hx. unfold perform in Hx.
  assert (match a with
      | GoMain => main_step x
      | GoAccept stream remote => accept_step stream remote x
      | GoHandler i => handler_step i x
      | GoWorker i => worker_step i x
      | GoFetched i outcome => fetched_step i outcome x
      | GoReport i progress => report_step i progress x
      | GoProvider i outcome => provider_step i outcome x
      | GoTime t ms => Some (on_runtime (with_time t ms (dn_runtime x)) x)
      | GoFiles w => Some (on_runtime (with_disk w (dn_runtime x)) x)
      end = Some y) as Hy by (by destruct (dn_main x)). clear Hx. destruct a.
  - by eapply main_DInv.
  - by eapply accept_DInv.
  - by eapply handler_DInv.
  - by eapply worker_DInv.
  - by eapply fetched_DInv.
  - unfold report_step in Hy. destruct (threads _ !! i) as [[tr id cell| | | |]|]; try done. injection Hy as <-.
    destruct (calm_report cell progress (dn_runtime x)) as [Hv Hids]. destruct Hi as [T M Hh W C I].
    split; cbn [on_runtime dn_runtime]; try done; [by rewrite Hv|by apply Hids].
  - by eapply provider_DInv.
  - injection Hy as <-. by destruct Hi.
  - injection Hy as <-. by destruct Hi.
Qed.
End Interleavings.

(** The workers that fetch and the ones about to, with their controls. *)
Definition at_work (x : Daemon) : list (Z * nat) := omap fetching (threads (dn_runtime x)) ++ launching x.

Section Properties.
Context `{Blake3} `{Hex} `{StoreCodec} `{Json}.

Lemma start_DInv c d w t ms x : ids_ok d -> open_daemon c d w t ms = Ok x -> DInv x.
Proof.
  intros [Hn Hf] Hx. unfold open_daemon in Hx. destruct (validate c) as [u|e]; [|done].
  destruct (open_store (data_dir c) d w) as [s [v|e]] eqn:Eo; [|done]. injection Hx as <-. apply patches_open in Eo as [Hq Ho].
  destruct fresh_create as [Hg Hp].
  split; cbn [dn_runtime dn_main dn_handlers dn_workers dn_connections main_proc]; try done.
  - unfold launching. cbn [dn_main main_proc dn_handlers dn_workers pendings]. rewrite Hp. cbn [option_list app].
    split; cbn; try done; try apply NoDup_nil_2.
    + intros id. rewrite lookup_empty. split; [by intros []|by intros ?%elem_of_nil].
    + by intros id cell ?%elem_of_nil.
  - unfold ids_ok. cbn [new_runtime store]. rewrite Hq. destruct Ho as [->|(g & Hgk & ->)]; [done|].
    rewrite map_map, (map_ext _ tr_id) by (intros r; apply Hgk). split; [done|]. apply Forall_fmap. eapply Forall_impl; [exact Hf|].
    intros r Hr. cbn. by rewrite (proj1 (Hgk r)).
Qed.

(** C14: over every run of the daemon, with its threads interleaved in any way, from an index
    whose transfers have distinct identifiers, whatever the engine returns, whatever is
    requested and whatever fails.  At most 64 connections have a thread, and their counter
    is exact.  [active_downloads] is the number of workers that fetch or are past their
    fetch, and [active_uploads] the number of providers that serve, modulo the width of the
    counters.  No transfer is fetched by two workers, nor by one while another is about to
    be launched for it, and the map of downloads names exactly these transfers.  Each of
    their workers has a control of its own, made for its transfer, and so is the control
    the map has.  Transfers keep distinct identifiers. *)
Theorem threads_invariant (c : NodeConfig) (d : Database) (x : Daemon) :
  ids_ok d -> daemon_run c d x ->
  let rt := dn_runtime x in
  (dn_connections x = len (dn_handlers x) /\ len (dn_handlers x) <= API_MAX_CONNECTIONS)
  /\ active_downloads (counters rt) = (len (omap fetching (threads rt)) + len (dn_workers x)) mod 2 ^ 64
  /\ active_uploads (counters rt) = count is_serving (threads rt) mod 2 ^ 64
  /\ NoDup (at_work x).*1
  /\ (forall id, is_Some (downloads rt !! id) <-> id ∈ (at_work x).*1)
  /\ NoDup (at_work x).*2
  /\ (forall id cell, downloads rt !! id = Some cell \/ (id, cell) ∈ at_work x ->
       exists control, controls rt !! cell = Some control /\ fc_transfer control = id)
  /\ ids_ok (db (store rt)).
Proof.
  intros Hd Hr. assert (DInv x) as [[A U M O C W E] _ _ _ Hc I].
  { induction Hr as [w t ms x Hs|a x y _ IH Hp]; [by eapply start_DInv|by eapply perform_DInv]. }
  cbv zeta. split_and!; try done; try apply Hc; try apply I. intros id cell Hx.
  assert (map fc_transfer (controls (dn_runtime x)) !! cell = Some id) as Hl by (destruct Hx as [Hx|Hx]; [by apply E|by apply W]).
  rewrite list_lookup_fmap in Hl. apply fmap_Some in Hl as (control & Hl & ->). by exists control.
Qed.

(** A schedule is a run. *)
Lemma schedule_run c d x actions y : daemon_run c d x -> schedule actions x = Some y -> daemon_run c d y.
Proof.
  revert x. induction actions as [|a actions IH]; intros x Hr Hs; cbn [schedule] in Hs; [by injection Hs as <-|].
  destruct (perform a x) as [z|] eqn:Ep; [|done]. apply (IH z); [|done]. by eapply run_step.
Qed.
End Properties.

(** ** A race *)
Import Toy ToyPostcard ToyCodec ToyJson.

(** An index with two paused downloads. *)
Definition paused_index : Database :=
  mkDatabase (Some 2) (Some new_columns) []
    [set_state (str "paused") None 5 (new_transfer 1 (text_of (str "abc")) true 4);
     set_state (str "paused") None 5 (new_transfer 2 (text_of (str "abd")) true 4)] 2.

(** A request on a transfer, in one read. *)
Definition transfer_post (action : list Z) : Incoming :=
  mkIncoming [str "POST /v1/transfers/" ++ action ++ str " HTTP/1.1" ++ CRLF
              ++ str "Authorization: Bearer " ++ replicate 32 97 ++ CRLF ++ str "Content-Length: 0" ++ BLANK] [].
Definition loopback : IpAddr := V4 [127; 0; 0; 1].

(** Two threads read the paused row before either goes on; one launches its worker, the
    other replaces its control and is refused; then the transfer is paused. *)
Definition race : list Action :=
  replicate 5 GoMain
  ++ [GoAccept (transfer_post (str "1/resume")) loopback; GoAccept (transfer_post (str "1/resume")) loopback]
  ++ replicate 4 (GoHandler 0) ++ replicate 4 (GoHandler 1) ++ replicate 7 (GoHandler 0) ++ replicate 6 (GoHandler 0)
  ++ [GoAccept (transfer_post (str "1/pause")) loopback] ++ replicate 4 (GoHandler 0).

Definition from_start (actions : list Action) : option Daemon :=
  match open_daemon sample_config paused_index (mkWorld ∅ []) 6 0 with
  | Ok x => schedule actions x
  | Err _ => None
  end.
Definition raced : option Daemon := from_start race.

(** The worker fetches with the control of cell 0, but the map now has the one of cell 1.
    The pause is accepted and the row says so, but the worker's control still says to go
    on: nothing tells the worker to stop. *)
Example race_of_resumes :
  option_map (fun x =>
      let rt := dn_runtime x in
      (omap fetching (threads rt), downloads rt !! 1, map should_continue (controls rt), map tr_status (transfers (db (store rt))),
       match dn_handlers x with [Done (Ok (code, _))] => code | _ => 0 end)) raced
  = Some ([(1, 0%nat)], Some 1%nat, [true; false], [str "pausing"; str "paused"], 202).
Proof. vm_compute. reflexivity. Qed.

(** Two requests can both find a free place before either takes it: one transfer at a time
    is allowed, and two are fetched. *)
Example race_beyond_limit :
  option_map (fun x => (max_concurrent_transfers (config (dn_runtime x)), omap fetching (threads (dn_runtime x))))
    (from_start (replicate 5 GoMain
       ++ [GoAccept (transfer_post (str "1/resume")) loopback; GoAccept (transfer_post (str "2/resume")) loopback]
       ++ replicate 4 (GoHandler 0) ++ replicate 4 (GoHandler 1) ++ replicate 7 (GoHandler 0) ++ replicate 7 (GoHandler 0)))
  = Some (1, [(1, 0%nat); (2, 1%nat)]).
Proof. vm_compute. reflexivity. Qed.

Lemma paused_ids : ids_ok paused_index.
Proof. split; [apply (bool_decide_unpack _); vm_compute; exact I|]. repeat constructor; vm_compute; congruence. Qed.

Lemma raced_state :
  option_map (fun x => (omap fetching (threads (dn_runtime x)), (at_work x).*1)) raced = Some ([(1, 0%nat)], [1]).
Proof. vm_compute. reflexivity. Qed.

Lemma raced_run x : raced = Some x -> daemon_run sample_config paused_index x.
Proof.
  unfold raced, from_start. destruct (open_daemon sample_config paused_index (mkWorld ∅ []) 6 0) as [y|e] eqn:Es; [|done].
  intros Hs. eapply schedule_run; [|exact Hs]. eapply run_start. exact Es.
Qed.

Lemma threads_invariant_witness :
  exists x, raced = Some x /\ NoDup (at_work x).*1 /\ (at_work x).*1 = [1]
    /\ active_downloads (counters (dn_runtime x)) = (1 + len (dn_workers x)) mod 2 ^ 64.
Proof.
  pose proof raced_state as Ho. pose proof raced_run as Hr. destruct raced as [x|]; [|discriminate Ho].
  exists x. split; [reflexivity|]. injection Ho as Hf Hw.
  destruct (threads_invariant sample_config paused_index x paused_ids (Hr x eq_refl)) as (_ & Ha & _ & Hn & _).
  split; [exact Hn|]. split; [exact Hw|]. rewrite Ha, Hf. reflexivity.
Defined.
