(* ===== verification/NodeTypes.v ===== *)
(** * NodeTypes: the rows the daemon writes are rows it can read

    SQLite does not type the columns of the index; [transfer_from_row] checks every row it
    reads and fails on one that does not fit, which would take the whole list of transfers
    down.  A row is well typed when every column is in the range of the record's field;
    every statement of the store, every handler and every step of the daemon keeps all rows
    well typed, so that the list of transfers is always readable. *)
From stdpp Require Import base tactics list numbers option gmap.
From Stdlib Require Import ZArith Lia.
Import stdpp.list.
From S2P Require Import Prelude Bytes Text BTree NetAddr Instances Core Json Http Resume NodeConfig NodeStore NodeStoreFacts NodeImport ApiRecords NodeRuntime NodeApi NodeRuntimeFacts NodeThreads.

Local Open Scope Z_scope.

Definition i64_ok (n : Z) : Prop := 0 <= n <= I64_MAX.

Section Typed.
Context `{Blake3} `{HexLaws} `{StoreCodecLaws} `{Json}.

Record row_typed (r : TransferRow) : Prop := {
  typed_id : is_ok (ContentId_from_str (tr_content_id r)) = true;
  typed_direction : tr_direction r = str "download";
  typed_status : tr_status r ∈ statuses;
  typed_numbers : Forall i64_ok [tr_bytes_total r; tr_bytes_transferred r; tr_verified_chunks r; tr_total_chunks r;
                                 tr_current_rate_bps r; tr_provider_count r; tr_retry_count r; tr_rejected_chunks r;
                                 tr_resumed_chunks r];
  typed_contributions : is_Some (decode_contributions (tr_provider_contributions r))
}.

Definition typed (s : Store) : Prop := Forall row_typed (transfers (db s)).

(** ** A typed row is readable *)

Lemma checked_sql_typed n : i64_ok n -> checked_sql n = Ok n.
Proof using Type.
  unfold i64_ok, checked_sql. intros Hn. rewrite (proj2 (try_from_Some U64_MAX n n)); [done|].
  unfold I64_MAX, U64_MAX in *. lia.
Qed.

Lemma row_readable r : row_typed r -> exists t, transfer_from_row r = Ok t /\ t_id t = tr_id r /\ t_status t = tr_status r.
Proof using Type.
  intros [Hid Hdir Hst Hnum [cs Hc]]. unfold transfer_from_row. rewrite Hc, Hid, Hdir.
  rewrite (bool_decide_eq_true_2 (str "download" = _)), (bool_decide_eq_true_2 (tr_status r ∈ _)) by done.
  repeat (apply Forall_cons_iff in Hnum as [? Hnum]). cbn [ok_or mbind result_bind negb orb].
  rewrite !checked_sql_typed by done. cbn [mbind result_bind]. eexists. by split.
Qed.

Lemma rows_readable rows :
  Forall row_typed rows -> exists records, map_result transfer_from_row rows = Ok records /\ map t_id records = map tr_id rows.
Proof using Type.
  induction 1 as [|r rows Hr _ (records & IH & Hids)]; [by exists []|].
  destruct (row_readable r Hr) as (t & Ht & Hid & _). exists (t :: records).
  cbn [map_result]. rewrite Ht. cbn [mbind result_bind]. rewrite IH. cbn [map]. by rewrite Hid, Hids.
Qed.

(** ** The statements of the store *)

Definition safe {A} (c : sio A) : Prop := forall s, typed s -> typed (c s).1.

Lemma safe_bind {A B} (c : sio A) (f : A -> sio B) : safe c -> (forall a, safe (f a)) -> safe (c ≫= f).
Proof using Type.
  intros Hc Hf s Hs. unfold mbind, st_bind. specialize (Hc s Hs). destruct (c s) as [s1 [a|e]]; [by apply Hf|done].
Qed.
Lemma safe_keeps {A} (c : sio A) : keeps_transfers c -> safe c.
Proof using Type. intros Hc s Hs. unfold typed. by rewrite (proj1 (Hc s)). Qed.
Lemma safe_lift {A B} (r : result (list Z) A) (f : A -> sio B) : (forall a, r = Ok a -> safe (f a)) -> safe (lift r ≫= f).
Proof using Type. intros Hf s Hs. unfold mbind, st_bind, lift. destruct r as [a|e]; [by apply Hf|done]. Qed.

Lemma safe_update w f : (forall r, row_typed r -> row_typed (f r)) -> safe (update_rows w f).
Proof using Type.
  intros Hf s Hs. destruct (update_rows w f s) as [s' r] eqn:E. unfold typed. cbn [fst].
  apply update_rows_cases in E as (_ & _ & _ & [[_ ->]|[_ ->]]); [|done].
  apply Forall_fmap. eapply Forall_impl; [exact Hs|]. intros x Hx. cbn. destruct (w x); auto.
Qed.

Lemma to_i64_Ok v n : to_i64 v = Ok n -> i64_ok n.
Proof using Type. unfold to_i64. intros Hv%ok_or_Ok%try_from_Some. unfold i64_ok. lia. Qed.

(** The fields of a typed row, where they are needed. *)
Ltac row_fields := intros r Hr; destruct Hr as [Hid Hdir Hst Hnum Hcs];
  repeat (apply Forall_cons_iff in Hnum as [? Hnum]);
  repeat match goal with E : to_i64 _ = Ok _ |- _ => apply to_i64_Ok in E end;
  split; cbn [tr_content_id tr_direction tr_status tr_bytes_total tr_bytes_transferred tr_verified_chunks tr_total_chunks
    tr_current_rate_bps tr_provider_count tr_retry_count tr_rejected_chunks tr_resumed_chunks tr_provider_contributions
    set_state set_running set_progress set_completed set_interrupted vp_bytes_total vp_verified_bytes vp_verified_chunks
    vp_total_chunks vp_provider_count vp_retry_count vp_rejected_chunks];
  try done; repeat (apply Forall_cons_iff; split; [done|]); constructor.

(** A status written out. *)
Ltac known := apply (bool_decide_eq_true_1 _); vm_compute; reflexivity.

Lemma i64_zero : i64_ok 0.
Proof using Type. unfold i64_ok, I64_MAX. lia. Qed.
#[local] Hint Resolve i64_zero : core.

Lemma safe_state id s e t : s ∈ statuses -> safe (set_transfer_status id s e t).
Proof using Type. intros Hs. apply safe_update. row_fields. Qed.
Lemma safe_interrupted t : safe (mark_running_interrupted t).
Proof using Type. apply safe_update. assert (str "interrupted" ∈ statuses) by known. row_fields. Qed.
Lemma safe_transfer id s a b c e t : s ∈ statuses -> safe (update_transfer id s a b c e t).
Proof using Type. intros Hs. unfold update_transfer. repeat (apply safe_lift; intros ? ?). apply safe_update. row_fields. Qed.
Lemma safe_progress id p rate t : safe (update_progress id p rate t).
Proof using Type. unfold update_progress. repeat (apply safe_lift; intros ? ?). apply safe_update. row_fields. Qed.
Lemma safe_complete id n k stats t : safe (complete_transfer id n k stats t).
Proof using H3.
  unfold complete_transfer. repeat (apply safe_lift; intros ? ?). apply safe_update.
  assert (str "completed" ∈ statuses) by known.
  assert (is_Some (decode_contributions (encode_contributions (fs_provider_contributions stats)))) by (rewrite decode_encode_contributions; eauto).
  row_fields.
Qed.

Lemma safe_recoverable t : safe (recoverable_transfers t).
Proof using Type. apply safe_bind; [apply (safe_interrupted t)|]. intros _. apply safe_keeps, keeps_query. Qed.

Lemma safe_create_transfer id share t : is_ok (ContentId_from_str id) = true -> safe (create_transfer id share t).
Proof using H3.
  intros Hid. unfold create_transfer. apply safe_bind; [apply safe_keeps, keeps_query|]. intros active.
  destruct (negb (active =? 0)); [apply safe_keeps, keeps_throw|]. intros s Hs.
  destruct (execute _ s) as [s' r] eqn:E. unfold typed. cbn [fst].
  apply execute_cases in E as [_ [Hx|[-> _]]]; [|done]. destruct (_ >? _); injection Hx as Hx _; rewrite <- Hx; [done|].
  cbn [transfers]. apply Forall_app. split; [done|]. apply Forall_cons_iff. split; [|constructor]. split; cbn; try done.
  - known.
  - repeat (apply Forall_cons_iff; split; [done|]). constructor.
  - rewrite decode_no_contributions. by eexists.
Qed.

Lemma set_column_typed name r : row_typed r -> row_typed (set_column name r).
Proof using H3.
  intros [Hid Hdir Hst Hnum Hcs]. repeat (apply Forall_cons_iff in Hnum as [? Hnum]).
  split; cbn [set_column tr_content_id tr_direction tr_status tr_bytes_total tr_bytes_transferred tr_verified_chunks tr_total_chunks
    tr_current_rate_bps tr_provider_count tr_retry_count tr_rejected_chunks tr_resumed_chunks tr_provider_contributions]; try done.
  - repeat (apply Forall_cons_iff; split; [by repeat case_bool_decide|]). constructor.
  - case_bool_decide; [rewrite decode_no_contributions; by eexists|done].
Qed.

Lemma safe_add_columns names : safe (add_columns names).
Proof using H3.
  induction names as [|name names IH]; [apply safe_keeps, keeps_ret|]. apply safe_bind; [|done]. intros s Hs.
  destruct (add_column name s) as [s' r] eqn:E. unfold typed. cbn [fst].
  apply execute_cases in E as [_ [Hx|[-> _]]]; [|done]. destruct (columns (db s)); [case_bool_decide|];
    injection Hx as Hx _; rewrite <- Hx; [done| |done].
  cbn [transfers]. apply Forall_fmap. eapply Forall_impl; [exact Hs|]. intros x. apply set_column_typed.
Qed.

Lemma safe_open_index : safe open_index.
Proof using H3.
  unfold open_index. do 3 (apply safe_bind; [by apply safe_keeps, keeps_execute|intros ?]).
  destruct (_ =? 1); [|destruct (_ =? _); by apply safe_keeps]. apply safe_bind; [apply safe_add_columns|].
  intros _. by apply safe_keeps, keeps_execute.
Qed.

Lemma open_store_typed root d w : Forall row_typed (transfers d) -> typed (open_store root d w).1.
Proof using H3.
  intros Hd. unfold open_store. match goal with |- typed (?c _).1 => assert (safe c) as Hc end; [|by apply Hc].
  do 2 (apply safe_bind; [apply safe_keeps, keeps_on_disk|intros ?]).
  apply safe_bind; [by apply safe_keeps, keeps_execute|intros ?].
  apply safe_bind; [apply safe_open_index|intros ?]. apply safe_keeps, keeps_verify_all.
Qed.

(** ** The operations of the runtime *)

Definition rsafe {A} (c : rio A) : Prop := forall rt, typed (store rt) -> typed (store (c rt).1).

Lemma rsafe_bind {A B} (c : rio A) (f : A -> rio B) : rsafe c -> (forall a, rsafe (f a)) -> rsafe (c ≫= f).
Proof using Type.
  intros Hc Hf s Hs. unfold mbind, st_bind. specialize (Hc s Hs). destruct (c s) as [s1 [a|e]]; [by apply Hf|done].
Qed.
Lemma rsafe_quiet {A} (c : rio A) : quiet c -> rsafe c.
Proof using Type.
  intros Hc rt Hs. specialize (Hc rt). unfold typed. by rewrite (f_equal v_rows Hc : transfers _ = transfers _).
Qed.
Lemma rsafe_on_store {A} (c : sio A) : safe c -> rsafe (on_store c).
Proof using Type. intros Hc rt Hs. specialize (Hc _ Hs). unfold on_store. by destruct (c (store rt)). Qed.
Lemma rsafe_modify f : (forall rt, store (f rt) = store rt) -> rsafe (modify f).
Proof using Type. intros Hf rt Hs. cbn. by rewrite Hf. Qed.
Lemma rsafe_ignore {A} (c : rio A) : rsafe c -> rsafe (ignore c).
Proof using Type. intros Hc rt. apply Hc. Qed.
Lemma rsafe_lift {A B} (r : result (list Z) A) (f : A -> rio B) : (forall a, r = Ok a -> rsafe (f a)) -> rsafe (lift r ≫= f).
Proof using Type. intros Hf s Hs. unfold mbind, st_bind, lift. destruct r as [a|e]; [by apply Hf|done]. Qed.

Lemma reprint_ok text id : ContentId_from_str text = Ok id -> is_ok (ContentId_from_str (ContentId_to_string id)) = true.
Proof using H1. intros Hid. apply content_id_text_roundtrip in Hid as [_ Hid]. by rewrite (proj1 content_id_text_roundtrip _ Hid). Qed.

#[local] Hint Resolve rsafe_quiet rsafe_on_store rsafe_ignore safe_keeps safe_progress safe_complete safe_interrupted safe_recoverable : quiet.

(** Split binds and case analyses; leave what is special. *)
Ltac soundly := repeat match goal with
  | |- rsafe (lift _ ≫= _) => apply rsafe_lift; intros ? ?
  | |- rsafe (_ ≫= _) => apply rsafe_bind; [|intros ?]
  | |- rsafe (ignore _) => apply rsafe_ignore
  | |- rsafe (match ?x with _ => _ end) => destruct x
  | |- rsafe (modify _) => by apply rsafe_modify
  | |- rsafe (on_store (set_transfer_status _ _ _ _)) => apply rsafe_on_store, safe_state; known
  | |- rsafe (on_store (update_transfer _ _ _ _ _ _ _)) => apply rsafe_on_store, safe_transfer; known
  | |- rsafe _ => solve [eauto 4 with quiet nocore]
  end.

Lemma rsafe_start_provider c : rsafe (start_provider c).
Proof using Type. apply rsafe_quiet, quiet_start_provider. Qed.
Lemma rsafe_spawn_download transfer : rsafe (spawn_download transfer).
Proof using Type. unfold spawn_download, prepare_download, thread_spawn. soundly. Qed.
Lemma rsafe_fail id e : rsafe (fail_transfer id e).
Proof using Type. unfold fail_transfer. soundly. Qed.
#[local] Hint Resolve rsafe_start_provider rsafe_spawn_download rsafe_fail : quiet.

Lemma rsafe_start_fetch content_id share :
  is_ok (ContentId_from_str (ContentId_to_string content_id)) = true -> rsafe (start_fetch content_id share).
Proof using H3. intros Hid. unfold start_fetch. soundly. apply rsafe_on_store. by apply safe_create_transfer. Qed.
Lemma rsafe_pause id : rsafe (pause_transfer id).
Proof using Type. unfold pause_transfer. soundly. Qed.
Lemma rsafe_resume id : rsafe (resume_transfer id).
Proof using Type. unfold resume_transfer. soundly. Qed.
Lemma rsafe_report cell progress : rsafe (report cell progress).
Proof using Type. unfold report. soundly. Qed.
Lemma rsafe_shutdown : rsafe shutdown.
Proof using Type. unfold shutdown. soundly. Qed.
Lemma rsafe_recover records : rsafe (recover records).
Proof using Type. induction records; cbn [recover]; soundly. Qed.
#[local] Hint Resolve rsafe_pause rsafe_resume : quiet.

Lemma rsafe_finish transfer content_id control outcome : rsafe (finish_fetch transfer content_id control outcome).
Proof using H3.
  destruct outcome as [stats|error]; cbn [finish_fetch]; [|unfold finish_stopped_download; soundly].
  intros rt Hs. unfold finish_download.
  pose proof (rsafe_on_store _ (safe_keeps _ (keeps_complete_download content_id (t_share_on_complete transfer) (now rt))) rt Hs) as H1'.
  destruct (on_store _ rt) as [rt1 [c|e]]; cbn [fst] in H1'; [|by apply rsafe_fail].
  match goal with |- typed (store (?c rt1).1) => assert (rsafe c) as Hc end; [soundly|by apply Hc].
Qed.

Lemma rsafe_route request : rsafe (route_request_inner request).
Proof using H1 H3.
  unfold route_request_inner. destruct (split_target (target request)) as [path query].
  repeat match goal with |- rsafe (if ?b then _ else _) => destruct b end.
  all: try (unfold content_reply, transfers_reply, node_summary, diagnostics, status, add_content_request,
    delete_content_request, pause_request, resume_request, transfer_request; apply rsafe_quiet; quietly;
    first [apply quiet_list_content|apply quiet_add_content|apply quiet_remove_content|done]; fail).
  - unfold fetch_request. soundly. apply rsafe_start_fetch.
    match goal with E : map_err _ _ = Ok _ |- _ => apply map_err_Ok in E; by apply reprint_ok in E end.
  - unfold pause_request. soundly.
  - unfold resume_request. soundly.
Qed.

Lemma handle_typed stream remote rt : typed (store rt) -> typed (store (handle_connection stream remote rt).1).
Proof using H1 H3.
  intros Hs. unfold handle_connection. destruct (negb _); [done|]. destruct (read_request stream) as [request|e]; [|done].
  destruct (_ && _); [done|]. unfold route_request. pose proof (rsafe_route request rt Hs) as Hr.
  by destruct (route_request_inner request rt) as [rt' [r|e]].
Qed.

Lemma step_typed rt rt' : step rt rt' -> typed (store rt) -> typed (store rt').
Proof using H1 H3.
  intros Hstep Hs. destruct Hstep; try done.
  - by apply handle_typed.
  - by apply rsafe_report.
  - by apply rsafe_finish.
  - unfold served. destruct outcome; [done|]. by destruct (negb _).
  - by apply rsafe_shutdown.
Qed.

Lemma create_typed c d w t ms : Forall row_typed (transfers d) -> typed (store (create c d w t ms).1).
Proof using H3.
  intros Hd. unfold create. pose proof (open_store_typed (data_dir c) d w Hd) as Ho.
  destruct (open_store (data_dir c) d w) as [s [u|e]]; [|done]. cbn [fst] in Ho.
  match goal with |- typed (store (?f (new_runtime c s t ms)).1) => assert (rsafe f) as Hc end; [|by apply Hc].
  soundly; [apply rsafe_quiet, quiet_start_providers|apply rsafe_recover].
Qed.

(** ** Threads *)

(** Every action of a thread is safe. *)
Fixpoint psafe {A} (p : proc A) : Prop :=
  match p with
  | Done _ => True
  | Atom c k => rsafe c /\ forall r, psafe (k r)
  | Launch _ _ _ k => psafe k
  end.

Lemma psafe_bind {A B} (p : proc A) (f : A -> proc B) : psafe p -> (forall a, psafe (f a)) -> psafe (p ≫= f).
Proof using Type.
  intros Hp Hf. induction p as [[a|e]|X c k IH|tr id cell k IH]; [apply Hf|done| |by apply IH].
  destruct Hp as [Hc Hk]. split; [done|]. intros r. by apply IH.
Qed.
Lemma psafe_done {A B} (r : result (list Z) A) (f : A -> proc B) : (forall a, r = Ok a -> psafe (f a)) -> psafe (Done r ≫= f).
Proof using Type. intros Hf. destruct r as [a|e]; [by apply Hf|done]. Qed.
Lemma psafe_catch {A} (p : proc A) : psafe p -> psafe (catch p).
Proof using Type.
  induction p as [r|X c k IH|tr id cell k IH]; [done| |exact IH]. intros [Hc Hk]. split; [done|]. intros r. by apply IH.
Qed.
Lemma psafe_act {A : Set} (c : rio A) : rsafe c -> psafe (atomic c).
Proof using Type. by intros Hc. Qed.
Lemma rsafe_timed {A : Set} (c : Z -> sio A) : (forall t, safe (c t)) -> rsafe (timed c).
Proof using Type. intros Hc. apply rsafe_bind; [apply rsafe_quiet, quiet_gets|]. intros t. by apply rsafe_on_store. Qed.
Lemma rsafe_same {A} (c : rio A) : (forall rt, store (c rt).1 = store rt) -> rsafe c.
Proof using Type. intros Hc rt Hs. by rewrite Hc. Qed.

Ltac threadwise := repeat match goal with
  | |- forall _, _ => intros ?
  | |- psafe (Done _ ≫= _) => apply psafe_done; intros ? ?
  | |- psafe (_ ≫= _) => apply psafe_bind
  | |- psafe (match ?x with _ => _ end) => destruct x
  | |- psafe (Done _) => exact I
  | |- psafe (mret _) => exact I
  | |- psafe (catch _) => apply psafe_catch
  | |- psafe (atomic (gets _)) => apply psafe_act, rsafe_quiet, quiet_gets
  | |- psafe (atomic (modify _)) => by apply psafe_act, rsafe_modify
  | |- psafe (atomic (start_provider _)) => apply psafe_act, rsafe_start_provider
  | |- psafe (atomic (ignore _)) => apply psafe_act, rsafe_ignore
  | |- psafe (atomic (timed _)) => apply psafe_act
  | |- rsafe (timed _) => apply rsafe_timed
  | |- safe (set_transfer_status _ _ _ _) => apply safe_state; known
  | |- safe (update_transfer _ _ _ _ _ _ _) => apply safe_transfer; known
  | |- safe _ => solve [eauto 3 with quiet nocore]
  | |- psafe (in_store (on_disk _ _)) => apply psafe_act, rsafe_on_store, safe_keeps, keeps_on_disk
  | |- psafe (in_store (query _)) => apply psafe_act, rsafe_on_store, safe_keeps, keeps_query
  | |- psafe (in_store _) => apply psafe_act, rsafe_on_store, safe_keeps; solve [eauto 3 with quiet nocore]
  end.

Lemma psafe_add_store path shared : psafe (add_content_store path shared).
Proof using Type.
  unfold add_content_store. threadwise. apply psafe_act. soundly. apply rsafe_on_store, safe_keeps, keeps_execute. intros d. by case_match.
Qed.
Lemma psafe_complete_store id shared : psafe (complete_download_store id shared).
Proof using Type. unfold complete_download_store. threadwise. apply psafe_act. soundly. by apply rsafe_on_store, safe_keeps, keeps_execute. Qed.
Lemma psafe_remove_store id b : psafe (remove_content_store id b).
Proof using Type. unfold remove_content_store. threadwise. all: by apply psafe_act, rsafe_on_store, safe_keeps, keeps_execute. Qed.
Lemma psafe_list_store : psafe list_content_store.
Proof using Type.
  unfold list_content_store, verify_all_store. threadwise. induction a as [|[k row] rows IH]; [done|]. cbn [verify_rows_store].
  apply psafe_bind; [|intros _; exact IH]. unfold verify_row_store. threadwise; apply psafe_act, rsafe_on_store, safe_keeps; [apply keeps_verified|].
  repeat case_match; apply keeps_update_content.
Qed.
Lemma psafe_spawn transfer : psafe (spawn_download_proc transfer).
Proof using Type.
  unfold spawn_download_proc, prepare_download_proc. threadwise; [by apply psafe_act, rsafe_same|done].
Qed.

Lemma psafe_finish transfer content_id control outcome : psafe (finish_fetch_proc transfer content_id control outcome).
Proof using H3.
  assert (forall id e, psafe (fail_transfer_proc id e)) as Hfail by (intros id e; unfold fail_transfer_proc; threadwise).
  destruct outcome as [stats|e]; cbn [finish_fetch_proc].
  - unfold finish_download_proc. threadwise; [apply psafe_complete_store|apply rsafe_start_provider|apply Hfail].
  - unfold finish_stopped_proc. threadwise. apply Hfail.
Qed.

Lemma psafe_shutdown : psafe shutdown_proc.
Proof using Type. unfold shutdown_proc. threadwise. Qed.
Lemma psafe_create : psafe create_proc.
Proof using Type.
  unfold create_proc. threadwise; [apply psafe_list_store| | ].
  - induction a as [|x records IH]; cbn [start_providers_proc]; threadwise; exact IH.
  - induction a1 as [|x records IH]; cbn [recover_proc]; threadwise; [apply psafe_spawn|exact IH].
Qed.

Lemma psafe_connection stream remote : psafe (connection_proc stream remote).
Proof using H1 H3.
  unfold connection_proc, route_request_proc. threadwise. unfold route_request_inner_proc. destruct (split_target _) as [path query].
  repeat match goal with |- psafe (if ?b then _ else _) => destruct b end; try exact I.
  - unfold status_proc. threadwise.
  - apply psafe_act, rsafe_quiet. unfold node_summary. quietly.
  - unfold content_reply_proc, list_content_proc. threadwise. apply psafe_list_store.
  - unfold add_content_request_proc, add_content_proc. threadwise. apply psafe_add_store.
  - unfold fetch_request_proc, start_fetch_proc. threadwise; [|apply psafe_spawn]. apply safe_create_transfer.
    match goal with E : map_err _ _ = Ok _ |- _ => apply map_err_Ok in E; by apply reprint_ok in E end.
  - apply psafe_act, rsafe_quiet. unfold transfers_reply. quietly.
  - apply psafe_act, rsafe_quiet. unfold diagnostics. quietly.
  - threadwise.
  - unfold delete_content_request_proc, remove_content_proc. threadwise; [apply psafe_act, rsafe_quiet, quiet_stop_provider|apply psafe_remove_store].
  - unfold pause_request_proc, pause_transfer_proc. threadwise. apply psafe_act, rsafe_same.
    intros rt. unfold pause_control, mbind, st_bind, gets, lift, modify.
    destruct (ok_or (downloads rt !! _) _) as [cell|e]; reflexivity.
  - unfold resume_request_proc, resume_transfer_proc. threadwise. apply psafe_spawn.
  - apply psafe_act, rsafe_quiet. unfold transfer_request. quietly.
Qed.

(** The rows, and the programs of all threads. *)
Definition typed_daemon_state (x : Daemon) : Prop :=
  typed (store (dn_runtime x)) /\ Forall psafe (dn_handlers x) /\ Forall psafe (dn_workers x)
  /\ match dn_main x with Starting p | Stopping p => psafe p | _ => True end.

Lemma advance_typed {A} (p p' : proc A) rt rt' :
  psafe p -> typed (store rt) -> take_action p rt = (rt', p') -> psafe p' /\ typed (store rt').
Proof using Type.
  intros Hp Ht Hx. destruct p as [r|B c k|tr id cell k]; cbn [take_action] in Hx; [by injection Hx as <- <-| |by injection Hx as <- <-].
  destruct Hp as [Hc Hk]. specialize (Hc rt Ht). destruct (c rt) as [rt1 r]. injection Hx as <- <-. by split.
Qed.

Lemma main_typed x y : typed_daemon_state x -> main_step x = Some y -> typed_daemon_state y.
Proof using Type.
  intros (Ht & Hh & Hw & Hm) Hx. unfold main_step in Hx. destruct (dn_main x) as [p| |p|] eqn:Em; [| | |done].
  - destruct p as [[u|e]|B c k|tr id cell k]; [by injection Hx as <-|by injection Hx as <-| |];
      (destruct (take_action _ _) as [rt' p'] eqn:Ea; injection Hx as <-; by apply (advance_typed _ _ _ _ Hm Ht) in Ea as [? ?]).
  - destruct (shutdown_requested _); [|done]. injection Hx as <-. split_and!; try done. apply psafe_shutdown.
  - destruct p as [r|B c k|tr id cell k]; [by injection Hx as <-| |];
      (destruct (take_action _ _) as [rt' p'] eqn:Ea; injection Hx as <-; by apply (advance_typed _ _ _ _ Hm Ht) in Ea as [? ?]).
Qed.

(** A thread of a list goes on, or ends. *)
Lemma thread_typed {A} (l : list (proc A)) i p rt :
  Forall psafe l -> l !! i = Some p -> typed (store rt) ->
  Forall psafe (delete i l) /\ forall rt' p', take_action p rt = (rt', p') -> typed (store rt') /\ Forall psafe (<[i := p']> l).
Proof using Type.
  intros Hl Hi Ht. split; [by apply Forall_delete|]. intros rt' p' Ha.
  destruct (advance_typed _ _ _ _ (Forall_lookup_1 _ _ _ _ Hl Hi) Ht Ha) as [Hp Ht']. split; [done|]. by apply Forall_insert.
Qed.

Lemma perform_typed a x y : typed_daemon_state x -> perform a x = Some y -> typed_daemon_state y.
Proof using H1 H3.
  intros Hty Hx. pose proof Hty as (Ht & Hh & Hw & Hm). unfold perform in Hx.
  assert (dn_main x <> Ended) as Hne by (intros He; by rewrite He in Hx). destruct a.
  - apply (main_typed x); [done|]. by destruct (dn_main x).
  - assert (accept_step stream remote x = Some y) as Hy by (by destruct (dn_main x)). unfold accept_step in Hy.
    destruct (dn_main x) eqn:Em; try done. destruct (_ >=? _); injection Hy as <-; [exact Hty|].
    split_and!; try done. apply Forall_app_2; [done|]. apply Forall_singleton, psafe_connection.
  - assert (handler_step i x = Some y) as Hy by (by destruct (dn_main x)). unfold handler_step in Hy.
    destruct (dn_handlers x !! i) as [p|] eqn:Hi; [|done]. destruct (thread_typed _ _ _ _ Hh Hi Ht) as [Hd Hgo].
    destruct p; [by injection Hy as <-|destruct (take_action _ _) as [rt' p'] eqn:Ea; injection Hy as <-; by destruct (Hgo _ _ eq_refl)..].
  - assert (worker_step i x = Some y) as Hy by (by destruct (dn_main x)). unfold worker_step in Hy.
    destruct (dn_workers x !! i) as [p|] eqn:Hi; [|done]. destruct (thread_typed _ _ _ _ Hw Hi Ht) as [Hd Hgo].
    destruct p; [by injection Hy as <-|destruct (take_action _ _) as [rt' p'] eqn:Ea; injection Hy as <-; by destruct (Hgo _ _ eq_refl)..].
  - assert (fetched_step i outcome x = Some y) as Hy by (by destruct (dn_main x)). unfold fetched_step in Hy.
    destruct (threads _ !! i) as [[]|]; try done. injection Hy as <-. split_and!; try done. apply Forall_app_2; [done|]. apply Forall_singleton, psafe_finish.
  - assert (report_step i progress x = Some y) as Hy by (by destruct (dn_main x)). unfold report_step in Hy.
    destruct (threads _ !! i) as [[]|]; try done. injection Hy as <-. split_and!; try done. by apply rsafe_report.
  - assert (provider_step i outcome x = Some y) as Hy by (by destruct (dn_main x)). unfold provider_step in Hy.
    destruct (threads _ !! i) as [[]|]; try done; injection Hy as <-; (split_and!; [|done..]); cbn [on_runtime dn_runtime].
    + by destruct (may_serve _ _).
    + unfold served. destruct outcome; [done|]. by destruct (negb _).
  - assert (Some (on_runtime (with_time t ms (dn_runtime x)) x) = Some y) as [= <-] by (by destruct (dn_main x)). done.
  - assert (Some (on_runtime (with_disk w (dn_runtime x)) x) = Some y) as [= <-] by (by destruct (dn_main x)). done.
Qed.

Lemma run_typed c d x : Forall row_typed (transfers d) -> daemon_run c d x -> typed_daemon_state x.
Proof using H1 H3.
  intros Hd Hr. induction Hr as [w t ms x Hs|a x y _ IH Hp]; [|by eapply perform_typed].
  unfold open_daemon in Hs. destruct (validate c); [|done]. pose proof (open_store_typed (data_dir c) d w Hd) as Ho.
  destruct (open_store (data_dir c) d w) as [s [u|e]]; [|done]. injection Hs as <-. split_and!; try done. apply psafe_create.
Qed.

(** C23: the daemon never writes a transfer row it cannot read.  From an index of well-typed
    rows, through the migration, every request, every step of a worker, every failure and
    the shutdown, in any interleaving of the threads, each row keeps a parsable identifier, a known status, numbers of 63 bits
    and readable contributions; so, whenever the database answers, the list of transfers
    is complete: GET /v1/transfers replies 200 with one document per row. *)
Theorem rows_stay_typed (c : NodeConfig) (d : Database) (rt : NodeRuntime) :
  Forall row_typed (transfers d) -> reachable c d rt \/ (exists x, daemon_run c d x /\ dn_runtime x = rt) ->
  Forall row_typed (transfers (db (store rt)))
  /\ (faults (disk (store rt)) = [] ->
      exists records, map t_id records = map tr_id (transfers (db (store rt)))
        /\ transfers_reply rt = (rt, Ok (200, Array (map transfer_value records)))).
Proof using H1 H3.
  intros Hd Hr. assert (typed (store rt)) as Ht.
  { destruct Hr as [Hr|(x & Hr & <-)]; [|by apply (run_typed c d x)].
    induction Hr as [w t ms rt Hc|rt rt' _ IH Hstep]; [|by eapply step_typed].
    pose proof (create_typed c d w t ms Hd) as Ht. by rewrite Hc in Ht. }
  split; [done|]. intros Hf. destruct (rows_readable _ Ht) as (records & Hrec & Hids). exists records. split; [done|].
  unfold transfers_reply, list_transfers, query, execute, mbind, st_bind, on_store. rewrite Hf, Hrec.
  destruct rt as [? [? ? [? ?]] ? ? ? ? ? ? ? ? ?]. cbn in Hf |- *. by rewrite Hf.
Qed.
End Typed.

(** ** The property at a concrete input *)

Import Toy ToyPostcard ToyCodec ToyJson.

(** A stopped daemon's index with one transfer, and the daemon that recovers it. *)
Definition typed_index : Database :=
  mkDatabase (Some 2) (Some new_columns) [] [set_interrupted 5 (new_transfer 1 (text_of (str "abc")) true 4)] 1.
Definition typed_config : NodeConfig :=
  mkNodeConfig sample_root (mkSocketAddr (V4 [127; 0; 0; 1]) 0 7331) (Some (mkSocketAddr (V4 [127; 0; 0; 1]) 0 7332))
    0 0 1 (str "info") (replicate 32 97).
Definition typed_daemon : NodeRuntime := (create typed_config typed_index (mkWorld ∅ []) 6 0).1.

Lemma rows_stay_typed_witness :
  exists records, map t_id records = [1] /\ (transfers_reply typed_daemon).2 = Ok (200, Array (map transfer_value records)).
Proof.
  assert (Forall row_typed (transfers typed_index)) as Ht.
  { apply List.Forall_cons; [|constructor]. split.
    - vm_compute. reflexivity.
    - reflexivity.
    - apply (bool_decide_eq_true_1 _). vm_compute. reflexivity.
    - repeat constructor; vm_compute; discriminate.
    - vm_compute. eexists. reflexivity. }
  assert (reachable typed_config typed_index typed_daemon) as Hr.
  { apply (reachable_start _ _ (mkWorld ∅ []) 6 0). vm_compute. reflexivity. }
  destruct (proj2 (rows_stay_typed typed_config typed_index typed_daemon Ht (or_introl Hr))) as (records & Hids & Hreply);
    [vm_compute; reflexivity|].
  exists records. rewrite Hreply, Hids. split; [vm_compute; reflexivity|reflexivity].
Defined.
