(* ===== verification/NodeClient.v ===== *)
(** * NodeClient: a call of the typed client reaches its operation

    The composition of the client (ApiRecords.v), the exchange (Http.v) and the daemon's routes
    (NodeApi.v): whatever the cuts of the network, the daemon performs for a method of
    [LocalApiClient] the operation of that name with the arguments of the call, and
    answers with its result. *)
From stdpp Require Import base tactics list numbers option gmap.
From Stdlib Require Import ZArith Lia.
Import stdpp.list.
From S2P Require Import Prelude Bytes Text BTree NetAddr Instances Core Json Http Resume NodeConfig NodeStore NodeImport ApiRecords NodeRuntime NodeApi.

Local Open Scope Z_scope.

(** ** Numbers in targets *)

Lemma decimal_digits n : 0 <= n -> decimal n <> [] /\ Forall (fun b => 48 <= b <= 57) (decimal n).
Proof.
  intros Hn. destruct (decimal_value n Hn) as [(Hne & Hd & _) _]. split; [done|].
  eapply Forall_impl; [exact Hd|]. intros b Hb. by apply is_digit_range in Hb.
Qed.

Definition i64_ok (n : Z) : Prop := - (I64_MAX + 1) <= n <= I64_MAX.

Definition number_char (b : Z) : Prop := 48 <= b <= 57 \/ b = 45.

Lemma display_i64_chars n : display_i64 n <> [] /\ Forall number_char (display_i64 n)
  /\ exists b, last (display_i64 n) = Some b /\ 48 <= b <= 57.
Proof.
  unfold display_i64. destruct (Z.ltb_spec n 0) as [Hn|Hn].
  - destruct (decimal_digits (- n) ltac:(lia)) as [Hne Hd]. split_and!; [done| |].
    + constructor; [by right|]. eapply Forall_impl; [exact Hd|]. by left.
    + destruct (last (decimal (- n))) as [b|] eqn:El; [|by apply last_None in El].
      exists b. rewrite last_cons, El. split; [done|]. apply last_Some_elem_of in El. rewrite Forall_forall in Hd. by apply Hd.
  - destruct (decimal_digits n ltac:(lia)) as [Hne Hd]. split_and!; [done| |].
    + eapply Forall_impl; [exact Hd|]. by left.
    + destruct (last (decimal n)) as [b|] eqn:El; [|by apply last_None in El].
      exists b. split; [done|]. apply last_Some_elem_of in El. rewrite Forall_forall in Hd. by apply Hd.
Qed.

Lemma parse_display_i64 n : i64_ok n -> parse_signed (display_i64 n) = Some n.
Proof.
  unfold i64_ok, display_i64. intros Hn. destruct (Z.ltb_spec n 0) as [Hneg|Hpos].
  - destruct (decimal_value (- n) ltac:(lia)) as [(Hne & Hd & _) Hv].
    destruct (decimal (- n)) as [|b l] eqn:E; [done|]. unfold parse_signed.
    rewrite (proj2 (all_digits_Forall _) Hd), Hv. rewrite (proj2 (Z.leb_le _ _)) by lia. cbn [andb]. f_equal. lia.
  - pose proof (parse_unsigned_decimal I64_MAX n ltac:(lia)) as Hp. destruct (decimal_digits n ltac:(lia)) as [Hne Hd].
    destruct (decimal n) as [|b l]; [done|]. apply Forall_cons_iff in Hd as [Hb _]. unfold parse_signed.
    destruct b as [|p|p]; try lia. repeat (destruct p as [p|p|]; try done; try lia).
Qed.

(** ** Trimming a prefix and a suffix once *)

Lemma trim_start_once p rest : p <> [] -> strip_prefix p rest = None -> trim_start_matches p (p ++ rest) = rest.
Proof.
  intros Hp Hn. unfold trim_start_matches. rewrite length_app. destruct p as [|b p]; [done|]. cbn [length Nat.add trim_prefixes].
  rewrite strip_prefix_app. destruct (length p + length rest)%nat; cbn [trim_prefixes]; [done|]. by rewrite Hn.
Qed.

Lemma trim_end_once s rest :
  s <> [] -> strip_prefix (reverse s) (reverse rest) = None -> trim_end_matches s (rest ++ s) = rest.
Proof.
  intros Hs Hn. unfold trim_end_matches. rewrite reverse_app, length_app.
  assert (length s <> 0%nat) as Hl by (by destruct s). destruct (length rest + length s)%nat as [|n] eqn:E; [lia|].
  cbn [trim_prefixes]. rewrite strip_prefix_app. destruct n as [|n]; cbn [trim_prefixes]; [apply reverse_involutive|].
  rewrite Hn. apply reverse_involutive.
Qed.

Lemma action_id id action :
  i64_ok id -> (exists c tl, reverse action = c :: tl /\ ~ (48 <= c <= 57)) ->
  transfer_action_id (str "/v1/transfers/" ++ display_i64 id ++ action) action = Ok id.
Proof.
  intros Hid (c & tl & Hr & Hc). destruct (display_i64_chars id) as (Hne & Hall & b & Hlast & Hb).
  unfold transfer_action_id. rewrite trim_start_once; [|done|].
  - rewrite trim_end_once; [by rewrite parse_display_i64| |].
    + intros ->. done.
    + rewrite Hr. apply last_Some in Hlast as [l ->]. rewrite reverse_snoc. cbn [strip_prefix].
      by rewrite (proj2 (Z.eqb_neq c b)) by lia.
  - destruct (display_i64 id) as [|x l]; [done|]. apply Forall_cons_iff in Hall as [Hx _]. cbn [app].
    change (str "/v1/transfers/") with (47 :: str "v1/transfers/"). cbn [strip_prefix].
    unfold number_char in Hx. by rewrite (proj2 (Z.eqb_neq 47 x)) by lia.
Qed.

(** ** Calls and operations *)

Section Calls.
Context `{Blake3} `{Hex} `{StoreCodec} `{JsonLaws}.

(** What a method of the client asks for. *)
Definition operation (c : ApiCall) : rio reply :=
  match c with
  | Health =>
      mret (200, object [(str "alive", Bool true); (str "store_initialized", Bool true); (str "api_ready", Bool true)])
  | Status => v ← status; mret (200, v)
  | Node => node_summary
  | Content => content_reply
  | AddContent path shared => record ← add_content path shared; value ← lift (content_value record); mret (201, value)
  | RemoveContent id delete_bytes =>
      _ ← remove_content id delete_bytes;
      mret (200, object [(str "removed", Text id); (str "deleted_managed_bytes", Bool delete_bytes)])
  | StartFetch id shared =>
      content_id ← lift (map_err (fun _ => str "content ID") (ContentId_from_str id));
      transfer ← start_fetch content_id shared;
      mret (202, object [(str "transfer_id", Number transfer); (str "status", Text (str "running"))])
  | Transfers => transfers_reply
  | TransferOf id =>
      found ← on_store (get_transfer id);
      match found with
      | Some record => mret (200, transfer_value record)
      | None => mret (404, error_json (str "not_found") (str "unknown transfer"))
      end
  | PauseTransfer id =>
      _ ← pause_transfer id; mret (202, object [(str "transfer_id", Number id); (str "status", Text (str "pausing"))])
  | ResumeTransfer id =>
      _ ← resume_transfer id; mret (202, object [(str "transfer_id", Number id); (str "status", Text (str "running"))])
  | Diagnostics => diagnostics
  | NetworkPrivacy => mret (200, current_prototype)
  | Shutdown =>
      _ ← modify (with_shutdown true); mret (202, object [(str "status", Text (str "stopping"))])
  end.

(** Arguments the types of the client allow; an identifier is the text of one. *)
Definition call_ok (c : ApiCall) : Prop :=
  match c with
  | AddContent path _ => utf8_valid path = true
  | StartFetch id _ => utf8_valid id = true
  | RemoveContent id _ => Forall hex_digit id
  | TransferOf id | PauseTransfer id | ResumeTransfer id => i64_ok id
  | _ => True
  end.

Definition request_of (c : ApiCall) (auth : option (list Z)) : HttpRequest :=
  let '(m, t, v) := call_request c in mkHttpRequest m t auth (encoded_body v).

Lemma split_target_plain l : Forall (fun b => b <> 63) l -> split_target l = (l, []).
Proof using Type.
  intros Hl. unfold split_target. assert (split_once 63 l = None) as ->; [|done].
  induction Hl as [|b l Hb _ IH]; [done|]. cbn [split_once]. by rewrite (proj2 (Z.eqb_neq _ _) Hb), IH.
Qed.

Lemma route_transfer id suffix :
  Forall (fun b => b <> 63) suffix -> split_target (str "/v1/transfers/" ++ display_i64 id ++ suffix)
  = (str "/v1/transfers/" ++ display_i64 id ++ suffix, []).
Proof using Type.
  intros Hs. apply split_target_plain. rewrite !Forall_app. split_and!; [repeat constructor; done| |done].
  destruct (display_i64_chars id) as (_ & Hc & _). eapply Forall_impl; [exact Hc|]. unfold number_char. lia.
Qed.

(** Decide the comparisons of literal texts. *)
Ltac literals := repeat match goal with
  | |- context [bool_decide (str ?a = str ?b)] =>
      let v := eval vm_compute in (bool_decide (str a = str b)) in change (bool_decide (str a = str b)) with v
  end; cbn [andb].

Lemma starts_with_app p l : starts_with p (p ++ l) = true.
Proof using Type. unfold starts_with. apply bool_decide_eq_true_2. apply take_app_length. Qed.

Lemma ends_with_app s l : ends_with s (l ++ s) = true.
Proof using Type.
  unfold ends_with. apply bool_decide_eq_true_2. rewrite length_app, Nat.add_sub. apply drop_app_length.
Qed.

Lemma not_below p l q : starts_with p q = false -> bool_decide (p ++ l = q) = false.
Proof using Type. intros Hq. apply bool_decide_eq_false_2. intros <-. by rewrite starts_with_app in Hq. Qed.

Lemma ends_with_other (s s' l : list Z) : (length s' <= length s)%nat -> drop (length s - length s') s <> s' ->
  ends_with s' (l ++ s) = false.
Proof using Type.
  intros Hl Hs. unfold ends_with. apply bool_decide_eq_false_2. rewrite length_app.
  rewrite drop_app_ge by lia. by replace (length l + length s - length s' - length l)%nat with (length s - length s')%nat by lia.
Qed.

Lemma route_call c auth rt : call_ok c -> route_request_inner (request_of c auth) rt = operation c rt.
Proof.
  destruct c as [| | | |path shared|id delete_bytes|id shared| |id|id|id| | |]; intros Hok; try reflexivity.
  - transitivity (add_content_request (request_of (AddContent path shared) auth) rt); [reflexivity|].
    unfold add_content_request. cbn [request_of call_request body encoded_body]. by rewrite decode_add_body.
  - unfold route_request_inner. cbn [request_of call_request target method].
    set (flag := if delete_bytes then str "true" else str "false").
    assert (split_target (str "/v1/content/" ++ id ++ str "?delete_bytes=" ++ flag)
      = (str "/v1/content/" ++ id, str "delete_bytes=" ++ flag)) as ->.
    { unfold split_target. change (str "?delete_bytes=" ++ flag) with (63 :: str "delete_bytes=" ++ flag).
      rewrite app_assoc, split_once_first; [done|]. apply Forall_app. split; [repeat constructor; done|].
      eapply Forall_impl; [exact Hok|]. unfold hex_digit. lia. }
    literals. rewrite starts_with_app. unfold delete_content_request.
    rewrite trim_start_once; [|done|].
    + unfold flag. destruct delete_bytes; reflexivity.
    + destruct id as [|x l]; [done|]. apply Forall_cons_iff in Hok as [Hx _].
      change (str "/v1/content/") with (47 :: str "v1/content/"). cbn [strip_prefix]. unfold hex_digit in Hx.
      by rewrite (proj2 (Z.eqb_neq 47 x)) by lia.
  - transitivity (fetch_request (request_of (StartFetch id shared) auth) rt); [reflexivity|].
    unfold fetch_request. cbn [request_of call_request body encoded_body]. by rewrite decode_fetch_body.
  - unfold route_request_inner. cbn [request_of call_request target method].
    pose proof (route_transfer id [] ltac:(constructor)) as Hs. rewrite app_nil_r in Hs. rewrite Hs. literals.
    rewrite !not_below by reflexivity. cbn [andb]. rewrite starts_with_app.
    unfold transfer_request. rewrite trim_start_once; [|done|].
    + by rewrite parse_display_i64.
    + destruct (display_i64_chars id) as (Hne & Hall & _). destruct (display_i64 id) as [|x l]; [done|].
      apply Forall_cons_iff in Hall as [Hx _]. change (str "/v1/transfers/") with (47 :: str "v1/transfers/").
      cbn [strip_prefix]. unfold number_char in Hx. by rewrite (proj2 (Z.eqb_neq 47 x)) by lia.
  - unfold route_request_inner. cbn [request_of call_request target method].
    rewrite route_transfer by (repeat constructor; done). literals.
    rewrite !not_below by reflexivity. cbn [andb]. rewrite starts_with_app, (app_assoc _ _ (str "/pause")), ends_with_app. cbn [andb].
    unfold pause_request. rewrite <- app_assoc, action_id; [done|done|]. exists 101, (reverse (str "/paus")). split; [done|lia].
  - unfold route_request_inner. cbn [request_of call_request target method].
    rewrite route_transfer by (repeat constructor; done). literals.
    rewrite !not_below by reflexivity. cbn [andb]. rewrite starts_with_app, (app_assoc _ _ (str "/resume")), ends_with_app.
    rewrite ends_with_other by (vm_compute; (congruence || lia)). cbn [andb].
    unfold resume_request. rewrite <- app_assoc, action_id; [done|done|]. exists 101, (reverse (str "/resum")). split; [done|lia].
Qed.

Lemma call_request_words c : call_ok c -> word (request_of c None).(method) /\ word (request_of c None).(target).
Proof using Type.
  assert (forall s : list Z, Forall (fun b => 33 <= b <= 126) s -> s <> [] -> word s) as Hw.
  { intros s Hs Hne. split; [done|]. apply all_true. eapply Forall_impl; [exact Hs|]. intros b Hb. by apply visible_range. }
  assert (forall s : list Z, all visible s = true -> Forall (fun b => 33 <= b <= 126) s) as Hl.
  { intros s Hs%all_true. eapply Forall_impl; [exact Hs|]. intros b Hb. by apply visible_range. }
  assert (forall id, Forall (fun b => 33 <= b <= 126) (display_i64 id)) as Hd.
  { intros id. destruct (display_i64_chars id) as (_ & Hc & _). eapply Forall_impl; [exact Hc|]. unfold number_char. lia. }
  destruct c as [| | | |path shared|id delete_bytes|id shared| |id|id|id| | |]; intros Hok;
    cbn [request_of call_request method target]; (split; [by split|]); try (by split);
    (apply Hw; [|done]); rewrite ?Forall_app; split_and!; try apply Hd; try (apply Hl; reflexivity).
  - eapply Forall_impl; [exact Hok|]. unfold hex_digit. lia.
  - destruct delete_bytes; apply Hl; reflexivity.
Qed.

Lemma call_served (conn : LocalApiConnection) (c : ApiCall) (frags rest : list (list Z)) (failure : list Z)
  (remote : IpAddr) (rt : NodeRuntime) :
  connection_ok conn -> api_token conn = nc_api_token (config rt) -> is_loopback remote = true -> call_ok c ->
  let '(m, t, v) := call_request c in
  len t <= API_MAX_TARGET -> len (request_bytes conn m t v) <= API_MAX_REQUEST ->
  Forall filled frags -> concat frags = request_bytes conn m t v ->
  handle_connection (mkIncoming (frags ++ rest) failure) remote rt
  = match operation c rt with
    | (rt', Ok result) => (rt', result)
    | (rt', Err error) => (rt', (400, error_json (str "invalid_operation") error))
    end.
Proof.
  intros Hconn Htoken Hloop Hok. pose proof (call_request_words c Hok) as Hwords.
  pose proof (route_call c (Some (str "Bearer " ++ api_token conn)) rt Hok) as Hroute. unfold request_of in *.
  destruct (call_request c) as [[m t] v]. cbn [method target] in Hwords. destruct Hwords as [Hm Ht].
  intros Htl Hl Hf Hc. unfold handle_connection. rewrite Hloop. cbn [negb].
  rewrite (read_request_complete _ (client_request conn m t v) frags rest); [|done|done|rewrite Hc; by apply client_request_frame].
  unfold authorized. cbn [client_request authorization]. rewrite Htoken, bool_decide_eq_true_2 by done.
  rewrite andb_false_r. unfold route_request, client_request. rewrite Hroute.
  by destruct (operation c rt) as [rt' [r|e]].
Qed.

(** A call of the typed client reaches its operation.  A client that holds the token of
    the daemon's configuration sends a call over the loopback interface, cut by the network
    in any way, within the size limits: the daemon performs the operation of that name
    with the arguments of the call and answers with its result, an error of the
    operation becoming status 400. *)
Theorem client_call_served (conn : LocalApiConnection) (c : ApiCall) (frags rest : list (list Z)) (failure : list Z)
  (remote : IpAddr) (rt : NodeRuntime) :
  connection_ok conn -> api_token conn = nc_api_token (config rt) -> is_loopback remote = true -> call_ok c ->
  let '(m, t, v) := call_request c in
  len t <= API_MAX_TARGET -> len (request_bytes conn m t v) <= API_MAX_REQUEST ->
  Forall filled frags -> concat frags = request_bytes conn m t v ->
  handle_connection (mkIncoming (frags ++ rest) failure) remote rt
  = match operation c rt with
    | (rt', Ok result) => (rt', result)
    | (rt', Err error) => (rt', (400, error_json (str "invalid_operation") error))
    end.
Proof. apply call_served. Qed.
End Calls.

(** ** The property at a concrete input *)

Import Toy ToyPostcard ToyCodec ToyJson.

Definition idle_daemon : NodeRuntime :=
  new_runtime (mkNodeConfig (str "d") (mkSocketAddr (V4 [127; 0; 0; 1]) 0 7331) None 0 0 4 (str "info") (replicate 32 97))
    sample_store 0 0.

Definition add_call : list Z * list Z * option Value := call_request (AddContent sample_source true).

Lemma client_call_served_witness :
  let '(m, t, v) := add_call in
  (handle_connection (mkIncoming [request_bytes sample_connection m t v] []) (V4 [127; 0; 0; 1]) idle_daemon).2.1 = 201.
Proof.
  cbv beta iota delta [add_call call_request].
  refine (eq_trans (f_equal (fun x => x.2.1) (client_call_served sample_connection (AddContent sample_source true)
    [request_bytes sample_connection (str "POST") (str "/v1/content") (Some (add_body sample_source true))] [] []
    (V4 [127; 0; 0; 1]) idle_daemon _ _ _ _ _ _ _ _)) _).
  - split; [|split; [done|reflexivity]]. repeat split; try (vm_compute; congruence).
    all: repeat constructor; vm_compute; congruence.
  - reflexivity.
  - reflexivity.
  - reflexivity.
  - vm_compute. discriminate.
  - vm_compute. discriminate.
  - repeat constructor. vm_compute. congruence.
  - apply (app_nil_r (request_bytes _ _ _ _)).
  - vm_compute. reflexivity.
Defined.
