(* ===== verification/ClientStatus.v ===== *)
(** * ClientStatus: what the typed client reads of the daemon's replies
      (crates/triptorrent-node-api)

    The status records of the local API with their derived decoders, [send] (the reply of a
    request, decoded), and the composition of the daemon's documents (NodeApi.v, ApiRecords.v),
    [write_response] and the client (Http.v): what a method of [LocalApiClient] returns is what
    the daemon's state says. *)
From stdpp Require Import base tactics list numbers option gmap.
From Stdlib Require Import ZArith Lia.
Import stdpp.list.
From S2P Require Import Prelude Bytes Text BTree NetAddr Instances Core Json Http Resume NodeConfig NodeStore NodeStoreFacts NodeImport ApiRecords NodeRuntime NodeApi NodeRuntimeFacts NodeDaemon.

Local Open Scope Z_scope.

(** ** Records *)

Record HealthStatus := mkHealth { hs_alive : bool; hs_store_initialized : bool; hs_api_ready : bool }.

Record NodeStatus := mkNodeStatus {
  ns_uptime_ms : Z;
  ns_store_initialized : bool;
  ns_api_ready : bool;
  ns_stored_content : Z;
  ns_shared_content : Z;
  ns_active_downloads : Z;
  ns_active_uploads : Z;
  ns_bytes_downloaded : Z;
  ns_bytes_uploaded : Z;
  ns_completed_transfers : Z;
  ns_failed_transfers : Z
}.

Record NodeSummary := mkSummary {
  sm_api_listen : SocketAddr;
  sm_data_dir : list Z;
  sm_bootstrap : option SocketAddr;
  sm_protocol_peer_identity : list Z
}.

(** [Diagnostics] *)
Record DiagnosticsReport := mkDiagnostics {
  dg_bootstrap : option SocketAddr;
  dg_bootstrap_configured : bool;
  dg_provider_workers : Z;
  dg_known_relays : option Z;
  dg_api_version : list Z;
  dg_node_version : list Z;
  dg_wire_protocol_version : Z;
  dg_network : list Z;
  dg_discovery_profile : list Z;
  dg_active_transfer_protocol : list Z
}.

Record CompatibilityStatus := mkCompatibility {
  classic_bittorrent_active : bool;
  m3_private_discovery_implemented : bool
}.

Record NetworkPrivacyStatus := mkPrivacy {
  pv_network_mode : list Z;
  pv_discovery : list Z;
  pv_data_path : list Z;
  pv_direct_peer_connection : bool;
  pv_relay_visibility : list (list Z);
  pv_bootstrap_visibility : list (list Z);
  pv_compatibility : CompatibilityStatus;
  pv_anonymity_guarantee : bool
}.

(** ** Decoders *)

Definition as_u16 (v : Value) : option Z := match v with Number n => try_from U16_MAX n | _ => None end.
(** The derived decoder of [SocketAddr] reads its text. *)
Definition as_addr (v : Value) : option SocketAddr := text ← as_str v; parse_socket_addr text.
(** A [None] may be absent. *)
Definition optional {A} (name : list Z) (decode : Value -> option A) (v : Value) : option (option A) :=
  or_default name (as_option decode) None v.

Definition value_health (v : Value) : option HealthStatus :=
  alive ← required (str "alive") as_bool v;
  initialized ← required (str "store_initialized") as_bool v;
  ready ← required (str "api_ready") as_bool v;
  Some (mkHealth alive initialized ready).

Definition value_status (v : Value) : option NodeStatus :=
  uptime_ms ← required (str "uptime_ms") as_u64 v;
  initialized ← required (str "store_initialized") as_bool v;
  ready ← required (str "api_ready") as_bool v;
  stored ← required (str "stored_content") as_u64 v;
  shared ← required (str "shared_content") as_u64 v;
  active_downloads ← required (str "active_downloads") as_u64 v;
  active_uploads ← required (str "active_uploads") as_u64 v;
  bytes_downloaded ← required (str "bytes_downloaded") as_u64 v;
  bytes_uploaded ← required (str "bytes_uploaded") as_u64 v;
  completed ← required (str "completed_transfers") as_u64 v;
  failed ← required (str "failed_transfers") as_u64 v;
  Some (mkNodeStatus uptime_ms initialized ready stored shared active_downloads active_uploads bytes_downloaded
          bytes_uploaded completed failed).

Definition value_summary (v : Value) : option NodeSummary :=
  listen ← required (str "api_listen") as_addr v;
  dir ← required (str "data_dir") as_str v;
  boot ← optional (str "bootstrap") as_addr v;
  identity ← required (str "protocol_peer_identity") as_str v;
  Some (mkSummary listen dir boot identity).

Definition value_diagnostics (v : Value) : option DiagnosticsReport :=
  boot ← optional (str "bootstrap") as_addr v;
  configured ← required (str "bootstrap_configured") as_bool v;
  workers ← required (str "provider_workers") as_u64 v;
  relays ← optional (str "known_relays") as_u64 v;
  api_version ← required (str "api_version") as_str v;
  node_version ← required (str "node_version") as_str v;
  wire ← required (str "wire_protocol_version") as_u16 v;
  network ← required (str "network") as_str v;
  profile ← required (str "discovery_profile") as_str v;
  protocol ← required (str "active_transfer_protocol") as_str v;
  Some (mkDiagnostics boot configured workers relays api_version node_version wire network profile protocol).

Definition value_compatibility (v : Value) : option CompatibilityStatus :=
  classic ← required (str "classic_bittorrent_active") as_bool v;
  m3 ← required (str "m3_private_discovery_implemented") as_bool v;
  Some (mkCompatibility classic m3).

Definition value_privacy (v : Value) : option NetworkPrivacyStatus :=
  mode ← required (str "network_mode") as_str v;
  discovery ← required (str "discovery") as_str v;
  data_path ← required (str "data_path") as_str v;
  direct ← required (str "direct_peer_connection") as_bool v;
  relay ← required (str "relay_visibility") (as_list as_str) v;
  boot ← required (str "bootstrap_visibility") (as_list as_str) v;
  compatibility ← required (str "compatibility") value_compatibility v;
  anonymity ← required (str "anonymity_guarantee") as_bool v;
  Some (mkPrivacy mode discovery data_path direct relay boot compatibility anonymity).

(** The decoder of [start_fetch]'s answer. *)
Definition value_started (v : Value) : option Z := required (str "transfer_id") as_i64 v.

(** [LocalApiClient::send] on the bytes of the response *)
Inductive CallError := CallFailed (e : ClientError) | Incompatible.

Definition send `{Json} {A} (decode : Value -> option A) (response : list Z) : result CallError A :=
  v ← map_err CallFailed (parse_response response);
  ok_or (decode v) Incompatible.

(** ** Documents that can be written *)

Lemma value_ok_object l :
  Forall (fun e => utf8_valid e.1 = true /\ value_ok e.2) l -> value_ok (object l).
Proof.
  intros Hl. unfold object. assert (forall m, Forall (fun e => utf8_valid e.1 = true /\ value_ok e.2) m -> bt_ok m ->
    value_ok (Object (fold_left (fun m e => bt_insert e.1 e.2 m) l m))) as Hfold; [|apply Hfold; [done|apply bt_ok_nil]].
  induction Hl as [|[k v] l [Hk Hv] _ IH]; intros m Hm Hb; cbn [fold_left fst snd].
  - split; [done|]. clear -Hm. induction Hm as [|e m [? ?] _ IH]; [done|]. cbn. done.
  - apply IH; [by apply bt_insert_Forall|by apply bt_ok_insert].
Qed.

Lemma value_ok_array {A} (f : A -> Value) l : Forall (fun x => value_ok (f x)) l -> value_ok (Array (map f l)).
Proof. induction 1 as [|x l Hx _ IH]; [done|]. by split. Qed.

Lemma value_ok_u64 n : u64_ok n -> value_ok (Number n).
Proof. unfold u64_ok. intros Hn. cbn. unfold I64_MAX in *. lia. Qed.

Lemma value_ok_i64 n : - (I64_MAX + 1) <= n <= I64_MAX -> value_ok (Number n).
Proof. cbn. unfold I64_MAX, U64_MAX. lia. Qed.

(** Records whose strings are strings. *)
Definition text_ok (s : list Z) : Prop := utf8_valid s = true.
Definition identity_text (i : ContentIdentity) : Prop :=
  Forall text_ok [namespace i; id_value i; verification i].
Definition content_text (c : ContentRecord) : Prop :=
  Forall text_ok [cr_content_id c; cr_integrity c] /\ Forall identity_text (cr_identities c).
Definition transfer_text (t : TransferRecord) : Prop :=
  Forall text_ok [t_content_id t; t_direction t; t_status t; t_network_path t; default [] (t_error t)]
  /\ Forall (fun c => text_ok (provider_id c)) (t_provider_contributions t).

(** Every entry of a literal object. *)
Ltac entries := apply value_ok_object; repeat (apply List.Forall_cons; [split; [vm_compute; reflexivity|cbn [snd]]|]); [..|apply List.Forall_nil].

Lemma identity_value_ok i : identity_text i -> value_ok (identity_value i).
Proof. intros Hi. repeat (apply Forall_cons_iff in Hi as [? Hi]). unfold identity_value. entries; done. Qed.

Lemma contribution_value_ok c : contribution_ok c -> text_ok (provider_id c) -> value_ok (contribution_value c).
Proof. intros [H1 H2] Ht. unfold contribution_value. entries; [done|by apply value_ok_u64..]. Qed.

Lemma content_value_ok c v : content_ok c -> content_text c -> content_value c = Ok v -> value_ok v.
Proof.
  intros [Hn Hk] [Ht Hi]. repeat (apply Forall_cons_iff in Ht as [? Ht]). unfold content_value, path_value.
  destruct (utf8_valid (cr_data_path c)) eqn:Eu; [|done]. cbn [mbind result_bind]. intros [= <-].
  entries; try done; try (by apply value_ok_u64). apply value_ok_array. eapply Forall_impl; [exact Hi|]. apply identity_value_ok.
Qed.

Lemma transfer_value_ok t : transfer_ok t -> transfer_text t -> value_ok (transfer_value t).
Proof.
  intros (Hid & Hn & Hc) [Ht Hp]. repeat (apply Forall_cons_iff in Hn as [? Hn]). repeat (apply Forall_cons_iff in Ht as [? Ht]).
  unfold transfer_value. entries; try done; try (by apply value_ok_u64).
  - by apply value_ok_i64.
  - apply value_ok_array. apply Forall_forall. intros c Hin. rewrite Forall_forall in Hc, Hp.
    apply contribution_value_ok; [by apply Hc|by apply Hp].
  - by destruct (t_error t).
Qed.

Lemma error_json_ok code message : text_ok code -> utf8_valid message = true -> value_ok (error_json code message).
Proof.
  intros Hc Hm. destruct (bounded_error_spec message Hm) as (rest & _ & Hb & _). unfold error_json.
  split; [repeat constructor|]. split; [vm_compute; reflexivity|]. split; [|exact I]. split; [repeat constructor|].
  repeat split; first [exact Hc|exact Hb|vm_compute; reflexivity].
Qed.

(** ** What the client reads *)

Section Client.
Context `{Blake3} `{Hex} `{StoreCodec} `{JsonLaws}.

Lemma send_response {A} (decode : Value -> option A) code v :
  200 <= code < 300 -> value_ok v -> send decode (response_bytes code v) = ok_or (decode v) Incompatible.
Proof.
  intros Hc Hv. unfold send. rewrite parse_response_bytes by (unfold U16_MAX; done || lia). unfold verdict.
  rewrite (proj2 (Z.leb_le _ _)), (proj2 (Z.ltb_lt _ _)) by lia. done.
Qed.

Lemma map_values_read records values :
  map_result content_value records = Ok values -> Forall content_ok records -> Forall content_text records ->
  value_ok (Array values) /\ as_list value_content (Array values) = Some records.
Proof using Type.
  cbn [as_list]. revert values. induction records as [|c records IH]; intros values Hm Hok Ht.
  { by injection Hm as <-. }
  cbn [map_result] in Hm. destruct (content_value c) as [v|e] eqn:Ev; [|done]. cbn [mbind result_bind] in Hm.
  destruct (map_result content_value records) as [vs|e] eqn:Em; [|done]. injection Hm as <-.
  apply Forall_cons_iff in Hok as [Hc Hok], Ht as [Hct Ht]. destruct (IH vs eq_refl Hok Ht) as [Hvs Hread].
  split; [by split; [apply (content_value_ok c)|]|]. pose proof (proj1 records_roundtrip c Hc) as Hr. rewrite Ev in Hr.
  simpl. rewrite (proj2 Hr). simpl. by rewrite Hread.
Qed.

(** The numbers of the daemon's state are within their types. *)
Definition reportable (rt : NodeRuntime) : Prop :=
  0 <= elapsed rt /\ len (content (db (store rt))) <= U64_MAX
  /\ Forall u64_ok [active_downloads (counters rt); active_uploads (counters rt); bytes_downloaded (counters rt);
                    bytes_uploaded (counters rt); completed_transfers (counters rt); failed_transfers (counters rt)].

Definition current_privacy : NetworkPrivacyStatus :=
  mkPrivacy (str "triptorrent_public_testnet_1") (str "centralized_m2_derived_testnet_bootstrap")
    (str "end_to_end_encrypted_relayed_swarm") false
    [str "peer_endpoints"; str "route"; str "timing"; str "traffic_volume"]
    [str "peer_ip_addresses"; str "content_advertisements_and_queries"; str "routes"; str "timing"]
    (mkCompatibility false false) false.

Definition shared_count (d : Database) : Z :=
  count (fun e => (ct_shared e.2 =? 1) && bool_decide (ct_integrity e.2 = str "ok")) (content d).

Lemma counts_Ok s s' stored shared :
  counts s = (s', Ok (stored, shared)) -> stored = len (content (db s)) /\ shared = shared_count (db s).
Proof using Type.
  intros Hc. apply st_ok_inv in Hc as (s1 & n1 & H1' & Hc). apply st_ok_inv in Hc as (s2 & n2 & H2' & Hc).
  apply query_Ok in H1' as (_ & Hd & [= <-]). apply query_Ok in H2' as (_ & _ & [= <-]). injection Hc as _ <- <-.
  by rewrite Hd.
Qed.

(** The status record of the daemon's state. *)
Definition status_of (rt : NodeRuntime) : NodeStatus :=
  let d := db (store rt) in let c := counters rt in
  mkNodeStatus (Z.min (elapsed rt) U64_MAX) true true (len (content d)) (shared_count d)
    (active_downloads c) (active_uploads c) (bytes_downloaded c) (bytes_uploaded c) (completed_transfers c)
    (failed_transfers c).

Lemma status_reads rt rt' v :
  reportable rt -> status rt = (rt', Ok v) -> value_ok v /\ value_status v = Some (status_of rt).
Proof using Type.
  intros (He & Hl & Hn) Hs. unfold status in Hs. apply st_ok_inv in Hs as (rt1 & [stored shared] & Hc & Hs).
  apply st_ok_inv in Hs as (rt2 & ms & [= <- <-] & Hs). apply st_ok_inv in Hs as (rt2 & c & [= <- <-] & Hs).
  assert (elapsed rt1 = elapsed rt /\ counters rt1 = counters rt /\ stored = len (content (db (store rt))) /\ shared = shared_count (db (store rt)))
    as (E1 & E2 & -> & ->).
  { unfold on_store in Hc. destruct (counts (store rt)) as [s r] eqn:Ec. injection Hc as <- ->. by apply counts_Ok in Ec as [-> ->]. }
  rewrite E1, E2 in Hs. injection Hs as _ <-. unfold status_of. cbv zeta.
  assert (u64_ok (Z.min (elapsed rt) U64_MAX)) by (unfold u64_ok, U64_MAX; lia).
  assert (0 <= shared_count (db (store rt)) <= len (content (db (store rt)))) as Hsh
    by (split; [apply count_nonneg|apply count_le_len]).
  assert (u64_ok (len (content (db (store rt))))) by (unfold u64_ok in *; lia).
  assert (u64_ok (shared_count (db (store rt)))) by (unfold u64_ok in *; lia).
  repeat (apply Forall_cons_iff in Hn as [? Hn]). split.
  - entries; try exact I; by apply value_ok_u64.
  - unfold value_status, required. read_fields. cbn [mbind option_bind as_bool]. rewrite !as_u64_Number by done. done.
Qed.

(** An IPv4 socket address. *)
Definition v4_addr (a : SocketAddr) : Prop :=
  sa_scope a = 0 /\ 0 <= sa_port a <= U16_MAX
  /\ match sa_ip a with
     | V4 octets => length octets = 4%nat /\ Forall (fun b => 0 <= b <= U8_MAX) octets
     | V6 _ => False
     end.

Lemma addr_reads a : v4_addr a -> as_addr (Text (display_socket_addr a)) = Some a /\ value_ok (Text (display_socket_addr a)).
Proof using Type.
  destruct a as [[octets|] scope port]; intros (Hs & Hp & Ha); [|done]. cbn [sa_scope sa_ip sa_port] in *. subst scope.
  destruct Ha as [Hl Ho]. split; [by apply parse_display_v4|].
  apply utf8_valid_ascii. eapply Forall_impl; [apply all_true, display_visible|intros b Hb%visible_range; lia].
  unfold socket_addr_ok. cbn [sa_scope sa_ip sa_port]. split_and!; try done; unfold U32_MAX; lia.
Qed.

Lemma optional_addr_reads a :
  match a with Some a => v4_addr a | None => True end ->
  as_option as_addr (addr_text a) = Some a /\ value_ok (addr_text a).
Proof using Type.
  destruct a as [a|]; [|done]. intros Ha. destruct (addr_reads a Ha) as [Hr Hv]. split; [|done].
  cbn [addr_text as_option]. by rewrite Hr.
Qed.

Definition summary_of (rt : NodeRuntime) : NodeSummary :=
  mkSummary (nc_api_listen (config rt)) (data_dir (config rt)) (bootstrap (config rt)) (str "ephemeral-per-advertisement").
Definition report_of (rt : NodeRuntime) : DiagnosticsReport :=
  mkDiagnostics (bootstrap (config rt)) (bool_decide (is_Some (bootstrap (config rt)))) (Z.of_nat (size (providers rt))) None
    (str "v1") (str "0.0.0") PROTOCOL_VERSION NETWORK_ID DISCOVERY_PROFILE (str "relayed-swarm-v1").

Lemma summary_reads rt rt' code v :
  v4_addr (nc_api_listen (config rt)) -> match bootstrap (config rt) with Some a => v4_addr a | None => True end ->
  node_summary rt = (rt', Ok (code, v)) -> code = 200 /\ value_ok v /\ value_summary v = Some (summary_of rt).
Proof using Type.
  intros Hl Hb Hs. apply st_ok_inv in Hs as (rt1 & c & [= <- <-] & Hs). apply st_ok_inv in Hs as (rt1 & dir & [= <- Hd] & Hs).
  unfold path_value in Hd. destruct (utf8_valid (data_dir (config rt))) eqn:Eu; [|done]. injection Hd as <-.
  injection Hs as _ <- <-. destruct (addr_reads _ Hl) as [Hl1 Hl2], (optional_addr_reads _ Hb) as [Hb1 Hb2].
  split_and!; [done|by entries|]. unfold value_summary, optional, or_default, required. read_fields.
  cbn [mbind option_bind]. rewrite Hl1, Hb1. done.
Qed.

Lemma diagnostics_reads rt rt' code v :
  match bootstrap (config rt) with Some a => v4_addr a | None => True end -> Z.of_nat (size (providers rt)) <= U64_MAX ->
  diagnostics rt = (rt', Ok (code, v)) -> code = 200 /\ value_ok v /\ value_diagnostics v = Some (report_of rt).
Proof using Type.
  intros Hb Hp Hs. apply st_ok_inv in Hs as (rt1 & c & [= <- <-] & Hs). apply st_ok_inv in Hs as (rt1 & p & [= <- <-] & Hs).
  injection Hs as _ <- <-. destruct (optional_addr_reads _ Hb) as [Hb1 Hb2].
  assert (u64_ok (Z.of_nat (size (providers rt)))) as Hsize by (unfold u64_ok; lia).
  split_and!; [done|entries; try done; by apply value_ok_u64|].
  unfold value_diagnostics, optional, or_default, required. read_fields.
  cbn [mbind option_bind]. rewrite Hb1, as_u64_Number by done. done.
Qed.

Lemma privacy_reads : value_ok current_prototype /\ value_privacy current_prototype = Some current_privacy.
Proof using Type. split; [|vm_compute; reflexivity]. unfold current_prototype. entries; try done. entries; done. Qed.

(** C24: what a method of the client returns is what the daemon's state says: the status
    counts its content and gives its counters; the summary and the diagnostics give its
    configuration (IPv4 addresses); the lists of content and transfers are those of the
    store, record for record; the privacy statement claims no anonymity; and an operation
    that failed is reported with its status and its message. *)
Theorem client_reads_daemon (rt : NodeRuntime) :
  reportable rt -> v4_addr (nc_api_listen (config rt)) ->
  match bootstrap (config rt) with Some a => v4_addr a | None => True end -> Z.of_nat (size (providers rt)) <= U64_MAX ->
  (forall rt' v, status rt = (rt', Ok v) -> send value_status (response_bytes 200 v) = Ok (status_of rt))
  /\ (forall rt' code v, node_summary rt = (rt', Ok (code, v)) -> send value_summary (response_bytes code v) = Ok (summary_of rt))
  /\ (forall rt' code v, diagnostics rt = (rt', Ok (code, v)) -> send value_diagnostics (response_bytes code v) = Ok (report_of rt))
  /\ (forall rt' code v records, transfers_reply rt = (rt', Ok (code, v)) -> (list_transfers (store rt)).2 = Ok records ->
       Forall transfer_ok records -> Forall transfer_text records ->
       send (as_list value_transfer) (response_bytes code v) = Ok records)
  /\ (forall rt' code v records, content_reply rt = (rt', Ok (code, v)) -> (list_content rt).2 = Ok records ->
       Forall content_ok records -> Forall content_text records ->
       send (as_list value_content) (response_bytes code v) = Ok records)
  /\ send value_privacy (response_bytes 200 current_prototype) = Ok current_privacy
  /\ (forall (A : Type) (decode : Value -> option A) request rt' message,
       route_request_inner request rt = (rt', Err message) -> utf8_valid message = true ->
       send decode (response_bytes (route_request request rt).2.1 (route_request request rt).2.2)
       = Err (CallFailed (HttpError 400 (bounded_error message)))).
Proof.
  intros Hrep Hl Hb Hp. split_and!.
  - intros rt' v Hs. apply status_reads in Hs as [Hv Hr]; [|done]. by rewrite send_response, Hr by (done || lia).
  - intros rt' code v Hs. apply summary_reads in Hs as (-> & Hv & Hr); [|done|done]. by rewrite send_response, Hr by (done || lia).
  - intros rt' code v Hs. apply diagnostics_reads in Hs as (-> & Hv & Hr); [|done|done]. by rewrite send_response, Hr by (done || lia).
  - intros rt' code v records Hs Hlist Hok Ht. apply st_ok_inv in Hs as (rt1 & l & Hs & [= _ <- <-]).
    assert (l = records) as -> by (unfold on_store in Hs; destruct (list_transfers (store rt)); cbn [snd] in Hlist; congruence).
    rewrite send_response; [|lia|].
    + rewrite as_list_map; [done|]. eapply Forall_impl; [exact Hok|]. apply records_roundtrip.
    + apply value_ok_array, Forall_forall. intros t Hin. rewrite Forall_forall in Hok, Ht. apply transfer_value_ok; auto.
  - intros rt' code v records Hs Hlist Hok Ht. apply st_ok_inv in Hs as (rt1 & l & Hs & Hv). rewrite Hs in Hlist. injection Hlist as ->.
    apply st_ok_inv in Hv as (rt2 & values & [= <- Hm] & [= _ <- <-]).
    destruct (map_values_read _ _ Hm Hok Ht) as [Hvok Hread]. by rewrite send_response, Hread by (done || lia).
  - destruct privacy_reads as [Hv Hr]. by rewrite send_response, Hr by (done || lia).
  - intros A decode request rt' message Hm Hu. unfold route_request. rewrite Hm. cbn [fst snd].
    unfold send. rewrite parse_response_bytes; [done|unfold U16_MAX; lia|]. by apply error_json_ok.
Qed.
End Client.

(** ** The property at a concrete input *)

Import Toy ToyPostcard ToyCodec ToyJson.

(** A recovering daemon, asked for its status and its transfers. *)
Lemma client_reads_daemon_witness :
  (exists v, (status sample_daemon).2 = Ok v
     /\ send value_status (response_bytes 200 v) = Ok (mkNodeStatus 0 true true 0 0 2 0 0 0 0 0))
  /\ exists v records, (transfers_reply sample_daemon).2 = Ok (200, v) /\ map t_id records = [1; 2]
     /\ send (as_list value_transfer) (response_bytes 200 v) = Ok records.
Proof.
  assert (config sample_daemon = sample_config) as Hc by (vm_compute; reflexivity).
  assert (forall port, 0 <= port <= U16_MAX -> v4_addr (mkSocketAddr (V4 [127; 0; 0; 1]) 0 port)) as Hv4.
  { intros port Hp. split; [reflexivity|]. split; [exact Hp|]. split; [reflexivity|]. repeat constructor; discriminate. }
  destruct (client_reads_daemon sample_daemon) as (Hs & _ & _ & Ht & _).
  - split; [vm_compute; discriminate|]. split; [vm_compute; discriminate|]. repeat constructor; vm_compute; discriminate.
  - rewrite Hc. apply Hv4. split; discriminate.
  - rewrite Hc. apply Hv4. split; discriminate.
  - vm_compute. discriminate.
  - split.
    + destruct (status sample_daemon) as [rt' [v|e]] eqn:E; [|exfalso; apply (f_equal snd) in E; vm_compute in E; discriminate E].
      exists v. split; [reflexivity|]. rewrite (Hs rt' v eq_refl). vm_compute. reflexivity.
    + destruct (transfers_reply sample_daemon) as [rt' [[code v]|e]] eqn:E;
        [|exfalso; apply (f_equal snd) in E; vm_compute in E; discriminate E].
      destruct (list_transfers (store sample_daemon)) as [s [records|e]] eqn:El;
        [|exfalso; apply (f_equal snd) in El; vm_compute in El; discriminate El].
      assert (code = 200) as -> by (apply (f_equal snd) in E; vm_compute in E; injection E as <- _; reflexivity).
      exists v, records. split; [reflexivity|]. apply (f_equal snd) in El. vm_compute in El. injection El as <-.
      split; [reflexivity|]. apply (Ht rt' 200 v); [reflexivity|vm_compute; reflexivity|..].
      * repeat constructor; vm_compute; discriminate.
      * repeat constructor; vm_compute; reflexivity.
Defined.
