(* ===== verification/Desktop.v ===== *)
(** * Desktop: the controller of the desktop client (crates/triptorrent-desktop)

    The controller owns the snapshot the window shows, loads the connection data of the
    node, polls the local API and starts the node as a child process when it does not
    answer.  [run_controller] is the loop of its thread: [turn] is one round of it.

    What the operating system, the node and the user do is a parameter ([Outside]): an
    answer for every interaction, numbered in the order in which they happen.  The theorems
    hold for all answers.  Times are nanoseconds; sleeping moves the clock by at least
    the time slept. *)
From stdpp Require Import base tactics list numbers option.
From Stdlib Require Import ZArith Lia.
Import stdpp.list.
From S2P Require Import Prelude Bytes Text NetAddr Json Http NodeStore Paths ApiRecords ClientStatus.

Local Open Scope Z_scope.

(** [Duration::from_millis] and [Duration::from_secs] *)
Definition from_millis (n : Z) : Z := n * 1000000.
Definition from_secs (n : Z) : Z := n * 1000000000.

(** ** Options *)

Record DesktopOptions := mkOptions {
  config_path : list Z;
  do_data_dir : list Z;
  node_binary : list Z;
  do_api_listen : SocketAddr;
  do_bootstrap : option SocketAddr;
  poll_interval : Z;
  startup_timeout : Z;
  reconnect_backoff : Z
}.

(** The environment variables of the process. *)
Definition Variables : Type := list Z -> option (list Z).

(** [default_user_root], on a system that is neither Windows nor macOS *)
Definition default_user_root (var : Variables) : result (list Z) (list Z) :=
  match var (str "TRIPTORRENT_HOME") with
  | Some override_root => Ok override_root
  | None =>
      let base :=
        match var (str "XDG_CONFIG_HOME") with
        | Some path => Some path
        | None => (fun path => join_path path (str ".config")) <$> var (str "HOME")
        end in
      ok_or ((fun path => join_path path (str "triptorrent")) <$> base)
        (str "cannot determine a per-user TripTorrent directory")
  end.

Definition system_default (var : Variables) (current_exe : option (list Z)) : result (list Z) DesktopOptions :=
  root ← default_user_root var;
  executable ← ok_or current_exe (str "cannot locate desktop executable");
  let sidecar := with_file_name executable (str "triptorrent") in
  Ok (mkOptions (join_path root (str "triptorrent.toml")) (join_path root (str "data")) sidecar
        (mkSocketAddr (V4 [127; 0; 0; 1]) 0 7331) None (from_millis 750) (from_secs 8) (from_secs 2)).

(** The arguments of the executable. *)
Record Args := mkArgs {
  a_config : option (list Z);
  a_node_binary : option (list Z);
  a_data_dir : option (list Z);
  a_api_listen : option SocketAddr;
  a_bootstrap : option SocketAddr
}.

(** [x.or_else(|| y)] *)
Definition or_else {A} (x y : option A) : option A := match x with Some a => Some a | None => y end.

(** The options [main] starts the controller with. *)
Definition main_options (args : Args) (var : Variables) (current_exe : option (list Z)) : result (list Z) DesktopOptions :=
  o ← system_default var current_exe;
  Ok (mkOptions (default (config_path o) (or_else (a_config args) (var (str "TRIPTORRENT_CONFIG"))))
        (default (do_data_dir o) (a_data_dir args))
        (default (node_binary o) (or_else (a_node_binary args) (var (str "TRIPTORRENT_NODE_BINARY"))))
        (default (do_api_listen o) (a_api_listen args)) (a_bootstrap args)
        (poll_interval o) (startup_timeout o) (reconnect_backoff o)).

(** ** The snapshot *)

Inductive ConnectionState := Starting | Connected | Disconnected | Unhealthy | Stopped.

#[export] Instance connection_state_eq_dec : EqDecision ConnectionState.
Proof. solve_decision. Defined.

Definition connection_label (c : ConnectionState) : list Z :=
  match c with
  | Starting => str "Starting"
  | Connected => str "Connected"
  | Disconnected => str "Disconnected"
  | Unhealthy => str "Unhealthy"
  | Stopped => str "Stopped"
  end.

Record DesktopSnapshot := mkSnapshot {
  connection : ConnectionState;
  ds_status : option NodeStatus;
  ds_node : option NodeSummary;
  ds_content : list ContentRecord;
  ds_transfers : list TransferRecord;
  ds_diagnostics : option DiagnosticsReport;
  network_privacy : NetworkPrivacyStatus;
  last_error : option (list Z);
  notice : option (list Z);
  daemon_started_by_desktop : bool;
  daemon_launch_count : Z;
  ds_config_path : list Z
}.

Definition initial (path : list Z) : DesktopSnapshot :=
  mkSnapshot Starting None None [] [] None current_privacy None None false 0 path.

(** *** Diagnostics *)

(** [writeln!] *)
Definition writeln (parts : list (list Z)) : list Z := concat parts ++ [10].
(** [{:?}] of an option, and [{}] of a boolean *)
Definition debug_option {A} (show : A -> list Z) (o : option A) : list Z :=
  match o with Some a => str "Some(" ++ show a ++ str ")" | None => str "None" end.
Definition display_bool (b : bool) : list Z := if b then str "true" else str "false".

Definition node_lines (n : NodeSummary) : list Z :=
  writeln [str "API: "; display_socket_addr (sm_api_listen n)]
  ++ writeln [str "Data directory: "; sm_data_dir n]
  ++ writeln [str "Bootstrap: "; debug_option display_socket_addr (sm_bootstrap n)].

Definition status_lines (s : NodeStatus) : list Z :=
  writeln [str "Uptime ms: "; decimal (ns_uptime_ms s)]
  ++ writeln [str "Stored/shared: "; decimal (ns_stored_content s); str "/"; decimal (ns_shared_content s)]
  ++ writeln [str "Active downloads/uploads: "; decimal (ns_active_downloads s); str "/"; decimal (ns_active_uploads s)]
  ++ writeln [str "Downloaded/uploaded bytes: "; decimal (ns_bytes_downloaded s); str "/"; decimal (ns_bytes_uploaded s)]
  ++ writeln [str "Completed/failed: "; decimal (ns_completed_transfers s); str "/"; decimal (ns_failed_transfers s)].

Definition report_lines (d : DiagnosticsReport) : list Z :=
  writeln [str "API/node version: "; dg_api_version d; str "/"; dg_node_version d]
  ++ writeln [str "Provider workers: "; decimal (dg_provider_workers d)]
  ++ writeln [str "Known relays: "; debug_option decimal (dg_known_relays d)]
  ++ writeln [str "Wire protocol: "; decimal (dg_wire_protocol_version d)]
  ++ writeln [str "Network: "; dg_network d]
  ++ writeln [str "Discovery profile: "; dg_discovery_profile d]
  ++ writeln [str "Transfer protocol: "; dg_active_transfer_protocol d].

(** The lines of something that may be absent. *)
Definition when_some {A} (lines : A -> list Z) (o : option A) : list Z :=
  match o with Some a => lines a | None => [] end.

(** [diagnostic_text], for paths that are UTF-8 *)
Definition diagnostic_text (s : DesktopSnapshot) : list Z :=
  writeln [str "TripTorrent desktop "; str "0.0.0"]
  ++ writeln [str "Connection: "; connection_label (connection s)]
  ++ writeln [str "Config: "; ds_config_path s]
  ++ when_some node_lines (ds_node s)
  ++ when_some status_lines (ds_status s)
  ++ when_some report_lines (ds_diagnostics s)
  ++ writeln [str "Network mode: "; pv_network_mode (network_privacy s)]
  ++ writeln [str "Discovery: "; pv_discovery (network_privacy s)]
  ++ writeln [str "Data path: "; pv_data_path (network_privacy s)]
  ++ writeln [str "Anonymity guarantee: "; display_bool (pv_anonymity_guarantee (network_privacy s))]
  ++ str "Content IDs, paths, endpoints, routes, and timestamps may be privacy-sensitive." ++ [10].

(** ** Commands *)

Module Command.
Inductive ControllerCommand :=
| AddContent (path : list Z) (shared : bool)
| RemoveContent (content_id : list Z) (delete_bytes : bool)
| StartFetch (content_id : list Z) (shared : bool)
| Pause (transfer_id : Z)
| Resume (transfer_id : Z)
| StopNode
| StartNode
| Refresh.
End Command.
Notation ControllerCommand := Command.ControllerCommand.

(** ** The outside *)

Record ExitStatus := mkExit { es_success : bool; es_text : list Z }.

(** The answers to the interactions, by their number. *)
Class Outside := {
  (** [Instant::now], without the time slept *)
  clock : nat -> Z;
  (** a request and its response, or the text of a failed connection *)
  exchange : nat -> LocalApiConnection -> ApiCall -> result (list Z) (list Z);
  (** [Command::spawn]: the text of an error *)
  spawned : nat -> list (list Z) -> option (list Z);
  (** [Child::try_wait] *)
  waited : nat -> nat -> result (list Z) (option ExitStatus);
  path_there : nat -> list Z -> bool;
  (** [fs::create_dir_all]: the text of an error *)
  dir_created : nat -> list Z -> option (list Z);
  (** [LocalApiClient::from_config] *)
  loaded : nat -> list Z -> result (list Z) LocalApiConnection;
  (** the commands that one drain of the channel receives *)
  received : nat -> list ControllerCommand;
  (** the text of an error of the standard library *)
  std_text : ClientError -> list Z
}.

(** Time does not go backwards. *)
Class OutsideLaws `{Outside} : Prop := clock_monotone : forall i j, (i <= j)%nat -> clock i <= clock j.

(** What happened: a request, an attempt to start a process, a process killed, and a started
    node whose API answered. *)
Inductive Event :=
| Called (call : ApiCall)
| Spawned (args : list (list Z))
| Killed (process : nat)
| Answered (process : nat).

(** The variables of [run_controller] with the shared snapshot; the number of the next
    interaction, the time slept and the events so far, the latest first. *)
Record Controller := mkController {
  client : option LocalApiConnection;
  child : option nat;
  desired_running : bool;
  next_refresh : Z;
  next_launch : Z;
  state : DesktopSnapshot;
  ticks : nat;
  slept : Z;
  events : list (Z * Event)
}.

Definition with_client (v : option LocalApiConnection) (c : Controller) : Controller :=
  mkController v (child c) (desired_running c) (next_refresh c) (next_launch c) (state c) (ticks c) (slept c) (events c).
Definition with_child (v : option nat) (c : Controller) : Controller :=
  mkController (client c) v (desired_running c) (next_refresh c) (next_launch c) (state c) (ticks c) (slept c) (events c).
Definition with_desired (v : bool) (c : Controller) : Controller :=
  mkController (client c) (child c) v (next_refresh c) (next_launch c) (state c) (ticks c) (slept c) (events c).
Definition with_refresh (v : Z) (c : Controller) : Controller :=
  mkController (client c) (child c) (desired_running c) v (next_launch c) (state c) (ticks c) (slept c) (events c).
Definition with_launch (v : Z) (c : Controller) : Controller :=
  mkController (client c) (child c) (desired_running c) (next_refresh c) v (state c) (ticks c) (slept c) (events c).
Definition with_state (f : DesktopSnapshot -> DesktopSnapshot) (c : Controller) : Controller :=
  mkController (client c) (child c) (desired_running c) (next_refresh c) (next_launch c) (f (state c)) (ticks c) (slept c) (events c).
Definition with_outside (t : nat) (s : Z) (e : list (Z * Event)) (c : Controller) : Controller :=
  mkController (client c) (child c) (desired_running c) (next_refresh c) (next_launch c) (state c) t s e.

Definition ctl (A : Type) : Type := st Controller (list Z) A.

Definition reads {A} (f : Controller -> A) : ctl A := fun c => (c, Ok (f c)).
Definition update (f : Controller -> Controller) : ctl unit := fun c => (f c, Ok tt).
(** A fallible operation whose error is a value. *)
Definition attempt {A} (m : ctl A) : ctl (result (list Z) A) := fun c => let '(c, r) := m c in (c, Ok r).

(** [set_connection], [set_error], [set_operation_error], [set_notice] *)
Definition put_connection (v : ConnectionState) (s : DesktopSnapshot) : DesktopSnapshot :=
  mkSnapshot v (ds_status s) (ds_node s) (ds_content s) (ds_transfers s) (ds_diagnostics s) (network_privacy s)
    (last_error s) (notice s) (daemon_started_by_desktop s) (daemon_launch_count s) (ds_config_path s).
Definition put_error (v : option (list Z)) (s : DesktopSnapshot) : DesktopSnapshot :=
  mkSnapshot (connection s) (ds_status s) (ds_node s) (ds_content s) (ds_transfers s) (ds_diagnostics s)
    (network_privacy s) v (notice s) (daemon_started_by_desktop s) (daemon_launch_count s) (ds_config_path s).
Definition put_notice (v : list Z) (s : DesktopSnapshot) : DesktopSnapshot :=
  mkSnapshot (connection s) (ds_status s) (ds_node s) (ds_content s) (ds_transfers s) (ds_diagnostics s)
    (network_privacy s) (last_error s) (Some v) (daemon_started_by_desktop s) (daemon_launch_count s) (ds_config_path s).

Definition set_connection (v : ConnectionState) : ctl unit := update (with_state (put_connection v)).
Definition set_error (v : ConnectionState) (error : list Z) : ctl unit :=
  update (with_state (fun s => put_error (Some error) (put_connection v s))).
Definition set_operation_error (error : list Z) : ctl unit := update (with_state (put_error (Some error))).
Definition set_notice (message : list Z) : ctl unit := update (with_state (fun s => put_error None (put_notice message s))).

(** A started node, recorded in the snapshot. *)
Definition count_launch (s : DesktopSnapshot) : DesktopSnapshot :=
  mkSnapshot (connection s) (ds_status s) (ds_node s) (ds_content s) (ds_transfers s) (ds_diagnostics s)
    (network_privacy s) None (notice s) true (daemon_launch_count s + 1) (ds_config_path s).

Definition STEP : Z := from_millis 25.

Section Controller.
Context `{Outside} `{Json}.

(** ** Interactions *)

Definition interact {A} (f : nat -> A) : ctl A := fun c =>
  (with_outside (S (ticks c)) (slept c) (events c) c, Ok (f (ticks c))).
Definition now : ctl Z := fun c => (with_outside (S (ticks c)) (slept c) (events c) c, Ok (clock (ticks c) + slept c)).
Definition sleep (d : Z) : ctl unit := update (fun c => with_outside (ticks c) (slept c + d) (events c) c).
Definition record (e : Event) : ctl unit :=
  update (fun c => with_outside (ticks c) (slept c) ((clock (ticks c) + slept c, e) :: events c) c).

(** [error.to_string()] *)
Definition call_error_text (e : CallError) : list Z :=
  match e with
  | CallFailed MalformedHttp => str "local API returned malformed HTTP"
  | CallFailed OmittedStatus => str "local API omitted status"
  | CallFailed InvalidJson => str "local API returned invalid JSON"
  | CallFailed (HttpError status message) => str "local API returned HTTP " ++ decimal status ++ str ": " ++ message
  | CallFailed e => std_text e
  | Incompatible => str "local API returned an incompatible response"
  end.

(** A method of [LocalApiClient]. *)
Definition api {A} (decode : Value -> option A) (conn : LocalApiConnection) (call : ApiCall) : ctl A :=
  _ ← record (Called call);
  r ← interact (fun n => exchange n conn call);
  response ← lift r;
  lift (map_err call_error_text (send decode response)).

(** The event is the attempt: it is there also when [spawned] gives an error.  A process is
    named by the number of the interaction that started it. *)
Definition spawn (args : list (list Z)) (context : list Z) : ctl nat :=
  _ ← record (Spawned args);
  process ← reads ticks;
  r ← interact (fun n => spawned n args);
  match r with Some _ => throw context | None => mret process end.

Definition try_wait (process : nat) : ctl (option ExitStatus) := r ← interact (fun n => waited n process); lift r.

(** [child.kill()] and [child.wait()], their errors ignored *)
Definition kill (process : nat) : ctl unit := record (Killed process).

(** ** Processes *)

(** The rounds in which a loop that sleeps [step] passes [timeout]. *)
Definition rounds (timeout step : Z) : nat := Z.to_nat (timeout / step + 2).

Fixpoint wait_loop (fuel : nat) (process : nat) (deadline : Z) (operation : list Z) : ctl unit :=
  match fuel with
  | O => throw []
  | S fuel =>
      found ← try_wait process;
      match found with
      | Some status =>
          if es_success status then mret tt else throw (operation ++ str " failed with " ++ es_text status)
      | None =>
          t ← now;
          if t >=? deadline
          then _ ← kill process; throw (operation ++ str " timed out")
          else _ ← sleep STEP; wait_loop fuel process deadline operation
      end
  end.

Definition wait_for_exit (process : nat) (timeout : Z) (operation : list Z) : ctl unit :=
  t ← now;
  wait_loop (rounds timeout STEP) process (t + timeout) operation.

Definition init_args (o : DesktopOptions) : list (list Z) :=
  [node_binary o; str "node"; str "init"; str "--config"; config_path o; str "--data-dir"; do_data_dir o;
   str "--api-listen"; display_socket_addr (do_api_listen o)]
  ++ match do_bootstrap o with Some b => [str "--bootstrap"; display_socket_addr b] | None => [] end.

Definition ensure_config (o : DesktopOptions) : ctl unit :=
  there ← interact (fun n => path_there n (config_path o));
  if (there : bool) then mret tt
  else
    _ ← match parent (config_path o) with
        | Some directory =>
            r ← interact (fun n => dir_created n directory);
            match r with Some e => throw e | None => mret tt end
        | None => mret tt
        end;
    process ← spawn (init_args o) (str "cannot run node sidecar " ++ node_binary o);
    _ ← wait_for_exit process (startup_timeout o) (str "node configuration initialization");
    there ← interact (fun n => path_there n (config_path o));
    if (there : bool) then mret tt else throw (str "node initializer exited without creating configuration").

Definition health (conn : LocalApiConnection) : ctl HealthStatus := api value_health conn Health.

Definition start_args (o : DesktopOptions) : list (list Z) :=
  [node_binary o; str "node"; str "start"; str "--config"; config_path o].

Definition POLL : Z := from_millis 50.

Fixpoint startup_loop (fuel : nat) (conn : LocalApiConnection) (process : nat) (deadline : Z) : ctl nat :=
  match fuel with
  | O => throw []
  | S fuel =>
      h ← attempt (health conn);
      if is_ok h then _ ← record (Answered process); mret process
      else
        found ← try_wait process;
        match found with
        | Some status => throw (str "node exited during startup with " ++ es_text status)
        | None =>
            t ← now;
            if t >=? deadline
            then _ ← kill process; throw (str "node API was not ready before the startup timeout")
            else _ ← sleep POLL; startup_loop fuel conn process deadline
        end
  end.

Definition start_daemon (o : DesktopOptions) (conn : LocalApiConnection) : ctl nat :=
  h ← attempt (health conn);
  if is_ok h then throw (str "a healthy node is already running")
  else
    process ← spawn (start_args o) (str "cannot launch node sidecar " ++ node_binary o);
    t ← now;
    startup_loop (rounds (startup_timeout o) POLL) conn process (t + startup_timeout o).

(** ** The snapshot's refresh *)

Definition refreshed (status : NodeStatus) (node : NodeSummary) (content : list ContentRecord)
  (transfers : list TransferRecord) (report : DiagnosticsReport) (privacy : NetworkPrivacyStatus)
  (s : DesktopSnapshot) : DesktopSnapshot :=
  mkSnapshot Connected (Some status) (Some node) content transfers (Some report) privacy None (notice s)
    (daemon_started_by_desktop s) (daemon_launch_count s) (ds_config_path s).

Definition refresh_snapshot (conn : LocalApiConnection) : ctl unit :=
  status ← api value_status conn Status;
  node ← api value_summary conn Node;
  content ← api (as_list value_content) conn Content;
  transfers ← api (as_list value_transfer) conn Transfers;
  report ← api value_diagnostics conn Diagnostics;
  privacy ← api value_privacy conn NetworkPrivacy;
  update (with_state (refreshed status node content transfers report privacy)).

(** ** Commands *)

(** The call of an operation, with the notice of its success. *)
Definition operation_call (conn : LocalApiConnection) (command : ControllerCommand) : ctl (list Z) :=
  match command with
  | Command.AddContent path shared =>
      _ ← api value_content conn (AddContent path shared); mret (str "Content imported")
  | Command.RemoveContent id delete =>
      _ ← api Some conn (RemoveContent id delete);
      mret (if delete then str "Content metadata and managed copy removed"
            else str "Content removed; managed copy preserved")
  | Command.StartFetch id shared =>
      transfer ← api value_started conn (StartFetch id shared);
      mret (str "Transfer " ++ display_i64 transfer ++ str " started")
  | Command.Pause id => _ ← api Some conn (PauseTransfer id); mret (str "Pausing transfer " ++ display_i64 id)
  | Command.Resume id =>
      _ ← api Some conn (ResumeTransfer id); mret (str "Transfer " ++ display_i64 id ++ str " resumed")
  | Command.StopNode | Command.StartNode | Command.Refresh => throw []
  end.

(** [client.as_ref().context("node API is unavailable").and_then(f)] *)
Definition with_api {A} (f : LocalApiConnection -> ctl A) : ctl A :=
  conn ← reads client;
  match conn with Some conn => f conn | None => throw (str "node API is unavailable") end.

Definition refresh_now : ctl unit := t ← now; update (with_refresh t).

Definition handle_command (command : ControllerCommand) : ctl unit :=
  match command with
  | Command.StartNode =>
      _ ← update (with_desired true);
      _ ← refresh_now;
      set_connection Starting
  | Command.StopNode =>
      _ ← update (with_desired false);
      r ← attempt (with_api (fun conn => api Some conn Shutdown));
      _ ← match r with
          | Ok _ =>
              _ ← set_notice (str "Node stop requested; it will remain stopped until started again.");
              set_connection Stopped
          | Err error => set_error Disconnected error
          end;
      update (with_child None)
  | Command.Refresh => refresh_now
  | operation =>
      r ← attempt (with_api (fun conn => operation_call conn operation));
      match r with
      | Ok message => _ ← set_notice message; refresh_now
      | Err error => set_operation_error error
      end
  end.

(** ** The loop *)

Fixpoint handle_commands (l : list ControllerCommand) : ctl unit :=
  match l with
  | [] => mret tt
  | command :: l => _ ← handle_command command; handle_commands l
  end.

(** A child that exited is forgotten. *)
Definition reap : ctl unit :=
  process ← reads child;
  match process with
  | None => mret tt
  | Some process =>
      r ← attempt (try_wait process);
      match r with
      | Ok (Some status) =>
          _ ← update (with_child None);
          set_error Disconnected (str "node process exited with " ++ es_text status)
      | _ => mret tt
      end
  end.

Definition load_client (o : DesktopOptions) : ctl unit :=
  r ← attempt (ensure_config o);
  match r with
  | Ok _ =>
      r ← interact (fun n => loaded n (config_path o));
      match r with
      | Ok conn => update (with_client (Some conn))
      | Err error => set_error Unhealthy error
      end
  | Err error => set_error Unhealthy error
  end.

Definition launch (o : DesktopOptions) (conn : LocalApiConnection) : ctl unit :=
  _ ← set_connection Starting;
  r ← attempt (start_daemon o conn);
  _ ← match r with
      | Ok process =>
          _ ← update (with_child (Some process));
          _ ← update (with_state count_launch);
          _ ← attempt (refresh_snapshot conn);
          mret tt
      | Err error => set_error Unhealthy (str "could not start local node: " ++ error)
      end;
  t ← now;
  update (with_launch (t + reconnect_backoff o)).

Definition poll_node (o : DesktopOptions) (conn : LocalApiConnection) : ctl unit :=
  h ← attempt (health conn);
  match h with
  | Ok status =>
      if hs_alive status && hs_api_ready status
      then
        r ← attempt (refresh_snapshot conn);
        match r with Ok _ => mret tt | Err error => set_error Disconnected error end
      else set_error Unhealthy (str "node health check is not ready")
  | Err error =>
      _ ← set_error Disconnected error;
      process ← reads child;
      match process with
      | Some _ => mret tt
      | None =>
          t ← now;
          due ← reads next_launch;
          if t >=? due then launch o conn else mret tt
      end
  end.

Definition poll (o : DesktopOptions) : ctl unit :=
  conn ← reads client;
  _ ← match conn with None => load_client o | Some _ => mret tt end;
  conn ← reads client;
  _ ← match conn with Some conn => poll_node o conn | None => mret tt end;
  t ← now;
  update (with_refresh (t + poll_interval o)).

(** One round of [run_controller]. *)
Definition turn (o : DesktopOptions) : ctl unit :=
  commands ← interact received;
  _ ← handle_commands commands;
  _ ← reap;
  running ← reads desired_running;
  _ ← (if (running : bool)
       then t ← now; due ← reads next_refresh; if t >=? due then poll o else mret tt
       else mret tt);
  sleep STEP.

(** [DesktopController::start]: the variables before the loop *)
Definition start (o : DesktopOptions) : Controller :=
  mkController None None true (clock 0) (clock 1) (initial (config_path o)) 2 0 [].

(** The loop until its [n]-th round, if it is not shut down before. *)
Fixpoint run_controller (n : nat) (o : DesktopOptions) (c : Controller) : Controller :=
  match n with
  | O => c
  | S n => run_controller n o (turn o c).1
  end.
End Controller.
