(* ===== verification/DesktopFacts.v ===== *)
(** * DesktopFacts: what the desktop controller guarantees

    For every behaviour of the node, the operating system and the user: the snapshot says
    "connected" only with data of the node behind it, the node is started at most once in
    every back-off period and never while it answers, a stopped node stays stopped until the
    user starts it, and waiting for a process ends. *)
From stdpp Require Import base tactics list numbers option.
From Stdlib Require Import ZArith Lia.
Import stdpp.list.
From S2P Require Import Prelude Bytes Text NetAddr Json Http NodeStore ApiRecords ClientStatus Desktop.

Local Open Scope Z_scope.

Section Facts.
Context `{OutsideLaws} `{Json}.

(** The time of the next interaction. *)
Definition time (c : Controller) : Z := clock (ticks c) + slept c.

(** ** Interactions with the outside only *)

(** The computation changes nothing but the clock and the events; the events it adds
    satisfy [P] and happen while it runs. *)
Definition quiet (P : Event -> Prop) {A} (m : ctl A) : Prop := forall c, exists t s new,
  (m c).1 = with_outside t s (new ++ events c) c /\ (ticks c <= t)%nat /\ slept c <= s
  /\ Forall (fun e => time c <= e.1 <= clock t + s /\ P e.2) new.

Lemma time_le c t s : (ticks c <= t)%nat -> slept c <= s -> time c <= clock t + s.
Proof. intros Ht Hs. unfold time. pose proof (clock_monotone _ _ Ht). lia. Qed.

Lemma quiet_id P {A} (m : ctl A) : (forall c, (m c).1 = c) -> quiet P m.
Proof. intros Hm c. exists (ticks c), (slept c), []. rewrite Hm. split_and!; [by destruct c|lia|lia|constructor]. Qed.

Lemma quiet_then P {A B} (m : ctl A) (f : A -> ctl B) : quiet P m -> (forall a, quiet P (f a)) -> quiet P (m ≫= f).
Proof.
  intros Hm Hf c. destruct (Hm c) as (t & s & new & Hc & Ht & Hs & Hn). unfold mbind, st_bind. destruct (m c) as [c1 [a|e]] eqn:E; cbn [fst] in Hc.
  - destruct (Hf a c1) as (t' & s' & new' & Hc' & Ht' & Hs' & Hn'). rewrite Hc in Ht', Hs', Hn', Hc'.
    cbn [ticks slept events with_outside] in Ht', Hs', Hc'. exists t', s', (new' ++ new).
    rewrite Hc, Hc', app_assoc. split_and!; [done|lia|lia|]. apply Forall_app. split.
    + eapply Forall_impl; [exact Hn'|]. intros [w e] [Hw HP]. split; [|done]. unfold time at 1 in Hw. cbn [ticks slept with_outside fst snd] in *.
      pose proof (time_le c t s Ht Hs). lia.
    + eapply Forall_impl; [exact Hn|]. intros [w e] [Hw HP]. split; [|done]. cbn [fst] in *. pose proof (clock_monotone _ _ Ht'). lia.
  - exists t, s, new. by rewrite Hc.
Qed.

Lemma quiet_weaken (P Q : Event -> Prop) {A} (m : ctl A) : (forall e, P e -> Q e) -> quiet P m -> quiet Q m.
Proof.
  intros HPQ Hm c. destruct (Hm c) as (t & s & new & Hc & Ht & Hs & Hn). exists t, s, new. split_and!; [done..|].
  eapply Forall_impl; [exact Hn|]. intros e [? ?]. auto.
Qed.

Lemma quiet_interact P {A} (f : nat -> A) : quiet P (interact f).
Proof. intros c. exists (S (ticks c)), (slept c), []. by split_and!; [|lia|lia|constructor]. Qed.

Lemma quiet_now P : quiet P now.
Proof. intros c. exists (S (ticks c)), (slept c), []. by split_and!; [|lia|lia|constructor]. Qed.

Lemma quiet_sleep P d : 0 <= d -> quiet P (sleep d).
Proof. intros Hd c. exists (ticks c), (slept c + d), []. by split_and!; [|lia|lia|constructor]. Qed.

Lemma quiet_record (P : Event -> Prop) e : P e -> quiet P (record e).
Proof.
  intros He c. exists (ticks c), (slept c), [(time c, e)]. split_and!; [done|lia|lia|]. constructor; [|constructor].
  cbn [fst snd]. unfold time. split; [lia|done].
Qed.

Lemma quiet_attempt P {A} (m : ctl A) : quiet P m -> quiet P (attempt m).
Proof. intros Hm c. specialize (Hm c). unfold attempt. by destruct (m c). Qed.

Create HintDb desktop.
Hint Resolve quiet_interact quiet_now quiet_record quiet_attempt : desktop.

(** Take a computation apart. *)
Ltac quietly := repeat match goal with
  | |- quiet _ (_ ≫= _) => apply quiet_then; [|intros ?]
  | |- quiet _ (mret _) => by apply quiet_id
  | |- quiet _ (throw _) => by apply quiet_id
  | |- quiet _ (lift _) => by apply quiet_id
  | |- quiet _ (reads _) => by apply quiet_id
  | |- quiet _ (match ?x with _ => _ end) => destruct x
  | |- quiet _ (sleep _) => apply quiet_sleep; unfold STEP, POLL, from_millis; lia
  | |- quiet _ _ => solve [eauto 3 with desktop nocore]
  end.

Definition is_call (e : Event) : Prop := exists call, e = Called call.
Definition no_spawn (e : Event) : Prop := forall args, e <> Spawned args.

Lemma quiet_api (P : Event -> Prop) {A} (decode : Value -> option A) conn call : P (Called call) -> quiet P (api decode conn call).
Proof. intros HP. unfold api. quietly. Qed.
Hint Resolve quiet_api : desktop.

Lemma quiet_health (P : Event -> Prop) conn : P (Called Health) -> quiet P (health conn).
Proof. apply quiet_api. Qed.
Hint Resolve quiet_health : desktop.

Lemma quiet_spawn (P : Event -> Prop) args context : P (Spawned args) -> quiet P (spawn args context).
Proof. intros HP. unfold spawn. quietly. Qed.

Lemma quiet_try_wait P process : quiet P (try_wait process).
Proof. unfold try_wait. quietly. Qed.
Hint Resolve quiet_spawn quiet_try_wait : desktop.

Lemma quiet_wait_loop (P : Event -> Prop) fuel process deadline operation :
  P (Killed process) -> quiet P (wait_loop fuel process deadline operation).
Proof. intros HP. induction fuel as [|fuel IH]; cbn [wait_loop]; unfold kill; quietly. Qed.

Lemma quiet_wait_for_exit (P : Event -> Prop) process timeout operation :
  P (Killed process) -> quiet P (wait_for_exit process timeout operation).
Proof. intros HP. unfold wait_for_exit. quietly. by apply quiet_wait_loop. Qed.
Hint Resolve quiet_wait_for_exit : desktop.

Lemma quiet_ensure_config (P : Event -> Prop) o :
  P (Spawned (init_args o)) -> (forall process, P (Killed process)) -> quiet P (ensure_config o).
Proof. intros HS HK. unfold ensure_config. quietly. Qed.
Hint Resolve quiet_ensure_config : desktop.

Lemma quiet_startup_loop (P : Event -> Prop) fuel conn process deadline :
  P (Called Health) -> P (Killed process) -> P (Answered process) -> quiet P (startup_loop fuel conn process deadline).
Proof. intros HC HP HA. induction fuel as [|fuel IH]; cbn [startup_loop]; unfold kill; quietly. Qed.

(** ** Waiting ends *)

(** Once the time is up, one more round decides: more rounds do not matter. *)
Lemma wait_loop_enough process deadline operation k n c :
  deadline <= time c + Z.of_nat n * STEP ->
  wait_loop (S n + k) process deadline operation c = wait_loop (S n) process deadline operation c.
Proof.
  revert c. induction n as [|n IH]; intros c Hd; cbn [wait_loop Nat.add]; unfold mbind, st_bind.
  - destruct (try_wait process c) as [c1 [[status|]|e]] eqn:E1; [done| |done].
    pose proof (quiet_try_wait (fun _ => True) process c) as (t & s & new & Hc & Ht & Hs & _). rewrite E1 in Hc. cbn [fst] in Hc. subst c1.
    cbn [now ticks slept with_outside]. pose proof (time_le c t s Ht Hs). destruct (Z.geb_spec (clock t + s) deadline) as [|Hlt]; [done|].
    unfold STEP in Hd. lia.
  - destruct (try_wait process c) as [c1 [[status|]|e]] eqn:E1; [done| |done].
    pose proof (quiet_try_wait (fun _ => True) process c) as (t & s & new & Hc & Ht & Hs & _). rewrite E1 in Hc. cbn [fst] in Hc. subst c1.
    cbn [now ticks slept with_outside]. destruct (Z.geb_spec (clock t + s) deadline) as [|Hlt]; [done|].
    cbn [sleep update]. apply IH. unfold time at 1. cbn [ticks slept with_outside events].
    pose proof (time_le c (S t) s ltac:(lia) Hs). unfold time in *. lia.
Qed.

Lemma startup_loop_enough conn process deadline k n c :
  deadline <= time c + Z.of_nat n * POLL ->
  startup_loop (S n + k) conn process deadline c = startup_loop (S n) conn process deadline c.
Proof.
  assert (forall c h c2, attempt (health conn) c = (c2, h) -> exists t s new,
    c2 = with_outside t s (new ++ events c) c /\ (ticks c <= t)%nat /\ slept c <= s) as Hq.
  { intros c' h c2 E. destruct (quiet_attempt (fun _ => True) _ (quiet_health (fun _ => True) conn I) c') as (t & s & new & Hc & Ht & Hs & _).
    rewrite E in Hc. by exists t, s, new. }
  assert (forall c w c2, try_wait process c = (c2, w) -> exists t s new,
    c2 = with_outside t s (new ++ events c) c /\ (ticks c <= t)%nat /\ slept c <= s) as Hw.
  { intros c' w c2 E. destruct (quiet_try_wait (fun _ => True) process c') as (t & s & new & Hc & Ht & Hs & _).
    rewrite E in Hc. by exists t, s, new. }
  revert c. induction n as [|n IH]; intros c Hd; cbn [startup_loop Nat.add]; unfold mbind, st_bind;
    (destruct (attempt (health conn) c) as [c1 [h|e]] eqn:E1; [|done]); (destruct (is_ok h); [done|]);
    apply Hq in E1 as (t1 & s1 & new1 & -> & Ht1 & Hs1);
    (destruct (try_wait process _) as [c2 [[status|]|e]] eqn:E2; [done| |done]);
    apply Hw in E2 as (t & s & new & -> & Ht & Hs); cbn [ticks slept with_outside] in Ht, Hs; cbn [now ticks slept with_outside events];
    (destruct (Z.geb_spec (clock t + s) deadline) as [|Hlt]; [done|]).
  - pose proof (time_le c t s ltac:(lia) ltac:(lia)). unfold POLL in Hd. lia.
  - cbn [sleep update]. apply IH. unfold time at 1. cbn [ticks slept with_outside events].
    pose proof (time_le c (S t) s ltac:(lia) ltac:(lia)). unfold time in *. lia.
Qed.

Lemma rounds_cover timeout step : 0 <= timeout -> 0 < step -> exists n, rounds timeout step = S n /\ timeout <= Z.of_nat n * step.
Proof.
  intros Ht Hs. pose proof (Z.div_pos timeout step Ht Hs). exists (Z.to_nat (timeout / step + 1)). unfold rounds. split; [lia|].
  pose proof (Z.div_mod timeout step ltac:(lia)). pose proof (Z.mod_pos_bound timeout step Hs). nia.
Qed.

(** Waiting for a process ends.  A loop that waits for the node to answer or for a
    process to exit decides within the rounds that its sleeps need to pass the timeout: it
    returns, reports the exit, or kills the process.  Further rounds would not change its
    outcome, whatever the node and the process do. *)
Theorem waiting_ends (timeout deadline : Z) (k : nat) (c : Controller) (conn : LocalApiConnection) (process : nat) (operation : list Z) :
  0 <= timeout -> deadline <= time c + timeout ->
  wait_loop (rounds timeout STEP + k) process deadline operation c = wait_loop (rounds timeout STEP) process deadline operation c
  /\ startup_loop (rounds timeout POLL + k) conn process deadline c = startup_loop (rounds timeout POLL) conn process deadline c.
Proof.
  intros Ht Hd. split.
  - destruct (rounds_cover timeout STEP Ht ltac:(done)) as (n & -> & Hn). apply wait_loop_enough. lia.
  - destruct (rounds_cover timeout POLL Ht ltac:(done)) as (n & -> & Hn). apply startup_loop_enough. lia.
Qed.

(** ** The invariant *)

(** The times at which the node was started, the latest first. *)
Definition is_launch (o : DesktopOptions) (e : Event) : bool :=
  match e with Spawned args => bool_decide (args = start_args o) | _ => false end.
Definition launches (o : DesktopOptions) (l : list (Z * Event)) : list Z :=
  map fst (List.filter (fun e => is_launch o e.2) l).

Fixpoint spaced (gap : Z) (l : list Z) : Prop :=
  match l with
  | later :: rest => match rest with earlier :: _ => earlier + gap <= later | [] => True end /\ spaced gap rest
  | [] => True
  end.

(** The processes whose API answered after they were started, the latest first. *)
Definition answered (l : list (Z * Event)) : list nat :=
  omap (fun e => match e.2 with Answered process => Some process | _ => None end) l.

(** The reply of the interaction [n] to a call, decoded. *)
Definition reply {A} (decode : Value -> option A) (n : nat) (conn : LocalApiConnection) (call : ApiCall) : result (list Z) A :=
  response ← exchange n conn call;
  map_err call_error_text (send decode response).

(** The snapshot shows what the node replied to six requests in a row, before interaction [n]. *)
Definition shows (n : nat) (s : DesktopSnapshot) : Prop :=
  exists k conn status node content transfers report privacy, (6 + k <= n)%nat
    /\ reply value_status k conn Status = Ok status /\ reply value_summary (1 + k) conn Node = Ok node
    /\ reply (as_list value_content) (2 + k) conn Content = Ok content
    /\ reply (as_list value_transfer) (3 + k) conn Transfers = Ok transfers
    /\ reply value_diagnostics (4 + k) conn Diagnostics = Ok report
    /\ reply value_privacy (5 + k) conn NetworkPrivacy = Ok privacy
    /\ ds_status s = Some status /\ ds_node s = Some node /\ ds_content s = content /\ ds_transfers s = transfers
    /\ ds_diagnostics s = Some report /\ network_privacy s = privacy.

(** A snapshot that says "connected" shows the node. *)
Definition snapshot_ok (n : nat) (s : DesktopSnapshot) : Prop := connection s = Connected -> shows n s.

(** The flag and the counter of the snapshot are about the starts that succeeded. *)
Definition counts_starts (events : list (Z * Event)) (s : DesktopSnapshot) : Prop :=
  daemon_launch_count s = len (answered events) /\ daemon_started_by_desktop s = (0 <? daemon_launch_count s).

(** [settled] unless the node is just being started: then the next start is not yet put off. *)
Record controller_ok (o : DesktopOptions) (settled : bool) (c : Controller) : Prop := {
  co_snapshot : snapshot_ok (ticks c) (state c);
  co_count : counts_starts (events c) (state c);
  co_child : forall process, child c = Some process -> process ∈ answered (events c);
  co_started : Forall (fun process => spawned process (start_args o) = None) (answered (events c));
  co_spaced : spaced (reconnect_backoff o) (launches o (events c));
  co_past : Forall (fun t => t <= time c) (launches o (events c));
  co_next : settled = true -> Forall (fun t => t + reconnect_backoff o <= next_launch c) (launches o (events c))
}.

(** The computation keeps the invariant. *)
Definition sound (o : DesktopOptions) {A} (m : ctl A) : Prop := forall settled c, controller_ok o settled c -> controller_ok o settled (m c).1.

Definition is_answer (e : Event) : bool := match e with Answered _ => true | _ => false end.
Definition no_launch (o : DesktopOptions) (e : Event) : Prop := is_launch o e = false /\ is_answer e = false.

Lemma launches_app o l k : launches o (l ++ k) = launches o l ++ launches o k.
Proof. unfold launches. by rewrite List.filter_app, map_app. Qed.

Lemma launches_none o l : Forall (fun e => no_launch o e.2) l -> launches o l = [].
Proof. unfold launches. induction 1 as [|e l [He _] _ IH]; [done|]. cbn [List.filter]. by rewrite He. Qed.

Lemma answered_none o l : Forall (fun e => no_launch o e.2) l -> answered l = [].
Proof. induction 1 as [|[t e] l [_ He] _ IH]; [done|]. unfold answered. cbn [omap list_omap snd] in *. by destruct e. Qed.

Lemma answered_app l k : answered (l ++ k) = answered l ++ answered k.
Proof. apply omap_app. Qed.

Lemma shows_later n n' s : (n <= n')%nat -> shows n s -> shows n' s.
Proof.
  intros Hn (k & conn & status & node & content & transfers & report & privacy & Hk & Hs).
  exists k, conn, status, node, content, transfers, report, privacy. split; [lia|done].
Qed.

Lemma quiet_sound o {A} (m : ctl A) : quiet (no_launch o) m -> sound o m.
Proof.
  intros Hm settled c [C1 C2 C3 C4 C5 C6 C7]. destruct (Hm c) as (t & s & new & -> & Ht & Hs & Hn).
  assert (Forall (fun e => no_launch o e.2) new) as Hnew by (eapply Forall_impl; [exact Hn|]; by intros e [_ ?]).
  assert (launches o (new ++ events c) = launches o (events c)) as He by (by rewrite launches_app, launches_none).
  assert (answered (new ++ events c) = answered (events c)) as Ha by (by rewrite answered_app, (answered_none o)).
  split; cbn [with_outside state child events next_launch ticks]; unfold counts_starts; rewrite ?He, ?Ha; try done.
  - intros Hc. by eapply shows_later, C1.
  - eapply Forall_impl; [exact C6|]. intros T HT. pose proof (time_le c t s Ht Hs). cbn beta in *. change (time (with_outside t s (new ++ events c) c)) with (clock t + s). lia.
Qed.

Lemma sound_bind o {A B} (m : ctl A) (f : A -> ctl B) : sound o m -> (forall a, sound o (f a)) -> sound o (m ≫= f).
Proof.
  intros Hm Hf settled c Hc. specialize (Hm settled c Hc). unfold mbind, st_bind. destruct (m c) as [c1 [a|e]]; [by apply Hf|done].
Qed.

Lemma sound_attempt o {A} (m : ctl A) : sound o m -> sound o (attempt m).
Proof. intros Hm settled c Hc. specialize (Hm settled c Hc). unfold attempt. by destruct (m c). Qed.

(** A change of the snapshot that does not touch what it shows, and does not connect it. *)
Definition cosmetic (f : DesktopSnapshot -> DesktopSnapshot) : Prop := forall s,
  daemon_launch_count (f s) = daemon_launch_count s /\ daemon_started_by_desktop (f s) = daemon_started_by_desktop s
  /\ (connection (f s) = Connected -> connection s = Connected)
  /\ ds_status (f s) = ds_status s /\ ds_node (f s) = ds_node s /\ ds_content (f s) = ds_content s
  /\ ds_transfers (f s) = ds_transfers s /\ ds_diagnostics (f s) = ds_diagnostics s /\ network_privacy (f s) = network_privacy s.

Lemma cosmetic_shows f n s : cosmetic f -> snapshot_ok n s -> snapshot_ok n (f s).
Proof.
  intros Hf Hs Hc. destruct (Hf s) as (_ & _ & Hcon & E1 & E2 & E3 & E4 & E5 & E6). unfold shows. rewrite E1, E2, E3, E4, E5, E6. exact (Hs (Hcon Hc)).
Qed.

Lemma sound_state o f : cosmetic f -> sound o (update (with_state f)).
Proof.
  intros Hf settled c [C1 C2 C3 C4 C5 C6 C7]. destruct (Hf (state c)) as (E1 & E2 & _).
  split; cbn [update fst with_state state child events next_launch ticks]; try done; [by apply cosmetic_shows|].
  unfold counts_starts. by rewrite E1, E2.
Qed.

Lemma sound_connection o v : v <> Connected -> sound o (set_connection v).
Proof. intros Hv. apply sound_state. by intros s. Qed.

Lemma sound_error o v e : v <> Connected -> sound o (set_error v e).
Proof. intros Hv. apply sound_state. by intros s. Qed.

Lemma sound_operation_error o e : sound o (set_operation_error e).
Proof. apply sound_state. by intros s. Qed.

Lemma sound_notice o e : sound o (set_notice e).
Proof. apply sound_state. by intros s. Qed.

Lemma sound_fields o : (forall v, sound o (update (with_client v))) /\ (forall v, sound o (update (with_desired v)))
  /\ (forall v, sound o (update (with_refresh v))) /\ sound o (update (with_child None)).
Proof. by split_and!; [intros v settled c []..|intros settled c []]; split. Qed.

Hint Extern 1 (no_launch _ _) => (split; reflexivity) : desktop.
Hint Resolve sound_attempt sound_operation_error sound_notice : desktop.

Ltac soundly := repeat match goal with
  | |- sound _ (_ ≫= _) => apply sound_bind; [|intros ?]
  | |- sound _ (match ?x with _ => _ end) => destruct x
  | |- sound _ (set_connection _) => by apply sound_connection
  | |- sound _ (set_error _ _) => by apply sound_error
  | |- sound _ (update (with_client _)) => apply sound_fields
  | |- sound _ (update (with_desired _)) => apply sound_fields
  | |- sound _ (update (with_refresh _)) => apply sound_fields
  | |- sound _ (update (with_child None)) => apply sound_fields
  | |- sound _ _ => solve [eauto 3 with desktop nocore]
  | |- sound _ _ => apply quiet_sound; quietly; done
  end.

Lemma api_reply {A} (decode : Value -> option A) conn call c :
  api decode conn call c
  = (with_outside (S (ticks c)) (slept c) ((clock (ticks c) + slept c, Called call) :: events c) c, reply decode (ticks c) conn call).
Proof. unfold api, reply, mbind, st_bind, record, update, interact, lift. cbn. by destruct (exchange (ticks c) conn call). Qed.

(** [refresh_snapshot] up to the change of the snapshot. *)
Definition fetch_all (conn : LocalApiConnection) : ctl (DesktopSnapshot -> DesktopSnapshot) :=
  status ← api value_status conn Status;
  node ← api value_summary conn Node;
  content ← api (as_list value_content) conn Content;
  transfers ← api (as_list value_transfer) conn Transfers;
  report ← api value_diagnostics conn Diagnostics;
  privacy ← api value_privacy conn NetworkPrivacy;
  mret (refreshed status node content transfers report privacy).

Lemma refresh_split conn c : refresh_snapshot conn c = (fetch_all conn ≫= fun f => update (with_state f)) c.
Proof.
  unfold refresh_snapshot, fetch_all, mbind, st_bind.
  do 6 (match goal with |- context [api ?d conn ?call ?x] => destruct (api d conn call x) as [? []]; [|done] end). done.
Qed.

(** All six replies are read and shown. *)
Lemma fetch_all_shows conn c c' f : fetch_all conn c = (c', Ok f) -> forall s,
  shows (ticks c') (f s) /\ daemon_launch_count (f s) = daemon_launch_count s
  /\ daemon_started_by_desktop (f s) = daemon_started_by_desktop s.
Proof.
  unfold fetch_all.
  do 6 (unfold mbind at 1, st_bind at 1; rewrite api_reply;
    match goal with |- context [reply ?d ?n conn ?call] => destruct (reply d n conn call) eqn:?; [|done] end;
    cbn [ticks with_outside] in *).
  intros [= <- <-] s. split; [|done]. exists (ticks c), conn. do 6 eexists. split; [cbn; lia|]. repeat (split; [first [eassumption|reflexivity]|]). reflexivity.
Qed.

Lemma sound_refresh_snapshot o conn : sound o (refresh_snapshot conn).
Proof.
  intros settled c Hc. rewrite refresh_split. assert (quiet (no_launch o) (fetch_all conn)) as Hq by (unfold fetch_all; quietly).
  pose proof (quiet_sound o _ Hq settled c Hc) as [C1 C2 C3 C4 C5 C6 C7]. unfold mbind, st_bind.
  destruct (fetch_all conn c) as [c1 [f|e]] eqn:E; [|done]. cbn [fst update] in *. pose proof (fetch_all_shows _ _ _ _ E (state c1)) as (Hs & E1 & E2).
  split; cbn [with_state state child events next_launch ticks]; try done; [by intros _|]. unfold counts_starts. by rewrite E1, E2.
Qed.
Hint Resolve sound_refresh_snapshot : desktop.

Lemma sound_handle_command o command : sound o (handle_command command).
Proof. destruct command; cbn [handle_command]; unfold refresh_now, with_api; soundly; apply sound_attempt; soundly; unfold operation_call; soundly. Qed.

Lemma sound_handle_commands o l : sound o (handle_commands l).
Proof. induction l as [|command l IH]; cbn [handle_commands]; soundly. apply sound_handle_command. Qed.

Lemma sound_reap o : sound o reap.
Proof. unfold reap. soundly. Qed.

Lemma init_not_launch o : no_launch o (Spawned (init_args o)).
Proof. split; [|done]. unfold is_launch. apply bool_decide_eq_false. unfold init_args, start_args. cbn [app]. intros [= Hn _]. Qed.
Hint Resolve init_not_launch sound_handle_commands sound_reap : desktop.

Lemma sound_load_client o : sound o (load_client o).
Proof. unfold load_client. soundly. Qed.

(** *** Starting the node *)

Lemma quiet_nothing o {A} (m : ctl A) c : quiet (no_launch o) m -> exists t s new,
  (m c).1 = with_outside t s (new ++ events c) c /\ (ticks c <= t)%nat /\ slept c <= s /\ launches o new = [] /\ answered new = [].
Proof.
  intros Hm. destruct (Hm c) as (t & s & new & Hc & Ht & Hs & Hn). exists t, s, new.
  assert (Forall (fun e => no_launch o e.2) new) as Hq by (eapply Forall_impl; [exact Hn|]; by intros e [_ ?]).
  split_and!; [done..|by apply launches_none|by apply (answered_none o)].
Qed.

(** The loop answers for its process exactly when it returns it, and starts nothing. *)
Lemma startup_loop_spec o fuel conn process deadline c : exists t s new,
  (startup_loop fuel conn process deadline c).1 = with_outside t s (new ++ events c) c /\ (ticks c <= t)%nat /\ slept c <= s
  /\ launches o new = []
  /\ match (startup_loop fuel conn process deadline c).2 with Ok p => p = process /\ answered new = [process] | Err _ => answered new = [] end.
Proof.
  revert c. induction fuel as [|fuel IH]; intros c; cbn [startup_loop].
  { exists (ticks c), (slept c), []. split_and!; [by destruct c|lia|lia|done|done]. }
  destruct (quiet_nothing o (attempt (health conn)) c) as (t & s & new & Hc & Ht & Hs & Hl & Ha); [apply quiet_attempt, quiet_health; by split|].
  unfold mbind, st_bind. destruct (attempt (health conn) c) as [c1 [h|e]]; cbn [fst] in Hc; subst c1; [|by exists t, s, new].
  destruct (is_ok h).
  { eexists t, s, (_ :: new). split; [reflexivity|]. split_and!; [done..|]. split; [done|]. cbn. by rewrite <- Ha. }
  destruct (quiet_nothing o (try_wait process) (with_outside t s (new ++ events c) c)) as (t' & s' & new' & Hc & Ht' & Hs' & Hl' & Ha'); [apply quiet_try_wait|].
  cbn [ticks slept events with_outside] in *.
  assert (launches o (new' ++ new) = [] /\ answered (new' ++ new) = []) as [Hl2 Ha2] by (by rewrite launches_app, answered_app, Hl, Hl', Ha, Ha').
  destruct (try_wait process _) as [c2 [[status|]|e]]; cbn [fst] in Hc; subst c2.
  1,3: exists t', s', (new' ++ new); rewrite <- app_assoc; split_and!; [done|lia|lia|done|done].
  cbn [now ticks slept with_outside]. destruct (clock t' + s' >=? deadline).
  - eexists (S t'), s', (_ :: new' ++ new). cbn. rewrite <- app_assoc. split; [reflexivity|]. split_and!; [lia|lia|done|done].
  - cbn [sleep update]. match goal with |- context [startup_loop fuel conn process deadline ?x] => destruct (IH x) as (t2 & s2 & new2 & E & Ht2 & Hs2 & Hl3 & Hr) end.
    cbn [ticks slept events with_outside] in *. exists t2, s2, (new2 ++ new' ++ new). rewrite E, launches_app, answered_app, Hl2, Ha2, Hl3, !app_nil_r, <- !app_assoc.
    unfold STEP, POLL, from_millis in *. split_and!; [done|lia|lia|done|done].
Qed.

Lemma start_daemon_spec o conn c : exists t s new,
  (start_daemon o conn c).1 = with_outside t s (new ++ events c) c /\ (ticks c <= t)%nat /\ slept c <= s
  /\ match (start_daemon o conn c).2 with
     | Ok process => answered new = [process] /\ spawned process (start_args o) = None
     | Err _ => answered new = []
     end
  /\ (launches o new = [] \/ exists T, launches o new = [T] /\ time c <= T <= clock t + s).
Proof.
  destruct (quiet_nothing o (attempt (health conn)) c) as (t & s & new & Hc & Ht & Hs & Hl & Ha); [apply quiet_attempt, quiet_health; by split|].
  unfold start_daemon, mbind, st_bind. destruct (attempt (health conn) c) as [c1 [h|e]]; cbn [fst] in Hc; subst c1.
  2:{ exists t, s, new. split_and!; try done. by left. }
  destruct (is_ok h); [exists t, s, new; split_and!; try done; by left|].
  pose proof (time_le c t s Ht Hs) as Hle. set (e := (clock t + s, Spawned (start_args o))).
  assert (launches o (e :: new) = [clock t + s] /\ answered (e :: new) = []) as [Hl2 Ha2].
  { unfold launches, answered in *. cbn [List.filter omap list_omap e snd is_launch]. rewrite bool_decide_eq_true_2 by done. cbn [map fst]. by rewrite Hl, Ha. }
  unfold spawn, record, update, reads, interact, mbind, st_bind. cbn [ticks slept events with_outside].
  destruct (spawned t (start_args o)) eqn:Esp.
  { exists (S t), s, (e :: new). cbn. pose proof (clock_monotone t (S t) ltac:(lia)). split_and!; try done; [lia|]. right. eexists. split; [exact Hl2|lia]. }
  cbn [mret st_ret now ticks slept events with_outside]. match goal with |- context [startup_loop ?f conn t ?d ?x] => destruct (startup_loop_spec o f conn t d x) as (t2 & s2 & new2 & E & Ht2 & Hs2 & Hl3 & Hr) end.
  cbn [ticks slept events with_outside] in *. exists t2, s2, (new2 ++ e :: new). rewrite E, launches_app, answered_app, Hl2, Ha2, Hl3, app_nil_r, <- app_assoc.
  pose proof (clock_monotone t t2 ltac:(lia)). split_and!; [done|lia|lia| |].
  - destruct (startup_loop _ _ _ _ _).2; [|done]. destruct Hr as [-> ->]. done.
  - right. eexists. split; [reflexivity|lia].
Qed.

(** Starting the node keeps all but the delay of the next start and, when it succeeds, the
    count of the starts. *)
Record starting_ok (o : DesktopOptions) (r : result (list Z) nat) (c : Controller) : Prop := {
  so_snapshot : snapshot_ok (ticks c) (state c);
  so_count : daemon_launch_count (state c) + (if r then 1 else 0) = len (answered (events c))
    /\ daemon_started_by_desktop (state c) = (0 <? daemon_launch_count (state c));
  so_child : forall process, child c = Some process \/ r = Ok process -> process ∈ answered (events c);
  so_started : Forall (fun process => spawned process (start_args o) = None) (answered (events c));
  so_spaced : spaced (reconnect_backoff o) (launches o (events c));
  so_past : Forall (fun t => t <= time c) (launches o (events c))
}.

Lemma start_daemon_ok o conn c : 0 <= reconnect_backoff o -> controller_ok o true c -> next_launch c <= time c ->
  starting_ok o (start_daemon o conn c).2 (start_daemon o conn c).1.
Proof.
  intros Hb [C1 [C2 C2'] C3 C4 C5 C6 C7] Hdue. specialize (C7 eq_refl). destruct (start_daemon_spec o conn c) as (t & s & new & Hc & Ht & Hs & Hr & Hn).
  rewrite Hc. pose proof (time_le c t s Ht Hs) as Hle.
  assert (Forall (fun T => T <= clock t + s) (launches o (events c))) as Hpast by (eapply Forall_impl; [exact C6|]; cbn; lia).
  assert (forall p, p ∈ answered (events c) -> p ∈ answered (new ++ events c)) as Hin by (intros p Hp; rewrite answered_app; apply elem_of_app; by right).
  split; cbn [with_outside state child events ticks].
  - intros Hcon. by eapply shows_later, C1.
  - split; [|done]. rewrite answered_app, len_app, <- C2. destruct (start_daemon o conn c).2; [destruct Hr as [-> _]|rewrite Hr]; unfold len; cbn [length]; lia.
  - intros p [Hp|Hp]; [by apply Hin, C3|]. rewrite Hp in Hr. destruct Hr as [Hr _]. rewrite answered_app, Hr. apply elem_of_app. left. by apply list_elem_of_singleton.
  - rewrite answered_app. apply Forall_app. split; [|done]. destruct (start_daemon o conn c).2; [destruct Hr as [-> Hr]|rewrite Hr]; by repeat constructor.
  - rewrite launches_app. destruct Hn as [->|(T & -> & HT)]; [done|]. cbn [app spaced]. split; [|done]. destruct C7; [done|]. lia.
  - rewrite launches_app. unfold time. cbn [ticks slept with_outside]. destruct Hn as [->|(T & -> & HT)]; [done|]. constructor; [lia|done].
Qed.

Lemma started_ok o process c : starting_ok o (Ok process) c -> controller_ok o false (with_state count_launch (with_child (Some process) c)).
Proof.
  intros [S1 [S2 S2'] S3 S4 S5 S6]. pose proof (len_nonneg (answered (events c))). split; cbn [with_state with_child state child events next_launch ticks]; try done.
  - unfold counts_starts. cbn. split; [done|]. symmetry. apply Z.ltb_lt.
    assert (process ∈ answered (events c)) as Hp by (apply S3; by right). destruct (answered (events c)); [by apply elem_of_nil in Hp|]. rewrite len_cons in *. pose proof (len_nonneg l). lia.
  - intros p [= <-]. apply S3. by right.
Qed.

Lemma failed_ok o e c : starting_ok o (Err e) c -> controller_ok o false c.
Proof. intros [S1 [S2 S2'] S3 S4 S5 S6]. split; try done; [split; [lia|done]|]. intros p Hp. apply S3. by left. Qed.

Lemma put_off_ok o c : controller_ok o false c -> controller_ok o true ((now ≫= (fun t => update (with_launch (t + reconnect_backoff o)))) c).1.
Proof.
  intros Hc. pose proof (quiet_sound o now (quiet_now _) false c Hc) as [C1 C2 C3 C4 C5 C6 _].
  destruct Hc as [_ _ _ _ _ D6 _]. unfold mbind, st_bind. cbn [now update fst] in *. split; try done.
  intros _. cbn [with_launch next_launch events with_outside] in *. eapply Forall_impl; [exact D6|]. unfold time. cbn. lia.
Qed.

Lemma launch_ok o conn c : 0 <= reconnect_backoff o -> controller_ok o true c -> next_launch c <= time c -> controller_ok o true (launch o conn c).1.
Proof.
  intros Hb Hok Hdue. unfold launch. pose proof (sound_connection o Starting ltac:(done) true c Hok) as Hok1.
  unfold mbind at 1, st_bind at 1. cbn [set_connection update fst] in *. set (c1 := with_state (put_connection Starting) c) in *.
  pose proof (start_daemon_ok o conn c1 Hb Hok1 Hdue) as Hs. unfold mbind at 1, st_bind at 1, attempt at 1.
  destruct (start_daemon o conn c1) as [c2 [process|e]]; cbn [fst snd] in Hs.
  - unfold mbind at 1, st_bind at 1.
    match goal with |- context [match ?x with (_, _) => _ end] => assert (exists c3, x = (c3, Ok tt) /\ controller_ok o false c3) as (c3 & -> & Hc3) end.
    { pose proof (started_ok o process c2 Hs) as H3. pose proof (sound_attempt o _ (sound_refresh_snapshot o conn) false _ H3) as H4.
      unfold mbind, st_bind, update. unfold attempt in *. destruct (refresh_snapshot conn _) as [c3 r]. by exists c3. }
    by apply put_off_ok.
  - unfold mbind at 1, st_bind at 1. cbn [set_error update]. apply put_off_ok. by apply (sound_error o Unhealthy _ ltac:(done) false c2), (failed_ok o e).
Qed.

Definition sound_settled (o : DesktopOptions) {A} (m : ctl A) : Prop := forall c, controller_ok o true c -> controller_ok o true (m c).1.

Lemma sound_poll_node o conn : 0 <= reconnect_backoff o -> sound_settled o (poll_node o conn).
Proof.
  intros Hb c Hc. unfold poll_node. pose proof (quiet_sound o _ (quiet_attempt _ _ (quiet_health (no_launch o) conn (conj eq_refl eq_refl))) true c Hc) as Hc1.
  unfold mbind at 1, st_bind at 1. destruct (attempt (health conn) c) as [c1 [h|e]]; [|done]. cbn [fst] in Hc1. destruct h as [status|error].
  - revert c1 Hc1. change (sound_settled o (if hs_alive status && hs_api_ready status
      then r ← attempt (refresh_snapshot conn); match r with Ok _ => mret tt | Err error => set_error Disconnected error end
      else set_error Unhealthy (str "node health check is not ready"))). intros c1. revert c1. match goal with |- forall c1, _ -> controller_ok _ _ (?m c1).1 => assert (sound o m) as Hm; [soundly|by apply Hm] end.
  - pose proof (sound_error o Disconnected error ltac:(done) true c1 Hc1) as Hc2. unfold mbind at 1, st_bind at 1. cbn [set_error update fst] in *.
    match goal with |- context [reads child ≫= _] => idtac end. unfold mbind at 1, st_bind at 1. cbn [reads]. set (c2 := with_state _ c1) in *.
    destruct (child c2); [done|]. pose proof (quiet_sound o now (quiet_now _) true c2 Hc2) as Hc3. unfold mbind, st_bind. cbn [now reads] in *.
    destruct (Z.geb_spec (clock (ticks c2) + slept c2) (next_launch (with_outside (S (ticks c2)) (slept c2) (events c2) c2))) as [Hle|]; [|done].
    apply launch_ok; [done|done|]. cbn [next_launch with_outside] in *. unfold time. cbn [ticks slept with_outside].
    pose proof (clock_monotone (ticks c2) (S (ticks c2)) ltac:(lia)). lia.
Qed.

Lemma settled_bind o {A B} (m : ctl A) (f : A -> ctl B) : sound_settled o m -> (forall a, sound_settled o (f a)) -> sound_settled o (m ≫= f).
Proof. intros Hm Hf c Hc. specialize (Hm c Hc). unfold mbind, st_bind. destruct (m c) as [c1 [a|e]]; [by apply Hf|done]. Qed.

Lemma sound_is_settled o {A} (m : ctl A) : sound o m -> sound_settled o m.
Proof. intros Hm c. apply Hm. Qed.

Lemma sound_turn o : 0 <= reconnect_backoff o -> sound_settled o (turn o).
Proof.
  intros Hb. pose proof (sound_load_client o). unfold turn, poll. pose proof (fun conn => sound_poll_node o conn Hb).
  repeat match goal with
    | |- sound_settled _ (_ ≫= _) => apply settled_bind; [|intros ?]
    | |- sound_settled _ (match ?x with _ => _ end) => destruct x
    | |- sound_settled _ (poll_node _ _) => auto
    | |- sound_settled _ _ => apply sound_is_settled; soundly; apply quiet_sound; quietly
    end.
Qed.

(** C25: what holds after any number of rounds of the controller, whatever the node, the
    operating system and the user do.  A snapshot that says "connected" shows the status, the
    summary, the content, the transfers, the diagnostics and the privacy status that a node
    gave in reply to six requests in a row.  The snapshot counts the starts that succeeded,
    in which a process was started and the API answered afterwards, and says that the desktop
    started the node exactly when there was one; the process the controller watches is one of
    them.  Two attempts to start the node are never closer than the back-off. *)
Theorem controller_invariant (o : DesktopOptions) (n : nat) :
  0 <= reconnect_backoff o ->
  let c := run_controller n o (start o) in
  (connection (state c) = Connected -> shows (ticks c) (state c))
  /\ daemon_launch_count (state c) = len (answered (events c))
  /\ (daemon_started_by_desktop (state c) = true <-> answered (events c) <> [])
  /\ (forall process, child c = Some process -> process ∈ answered (events c))
  /\ Forall (fun process => spawned process (start_args o) = None) (answered (events c))
  /\ spaced (reconnect_backoff o) (launches o (events c)).
Proof.
  intros Hb. cbv zeta. assert (controller_ok o true (run_controller n o (start o))) as [C1 [C2 C3] C4 C5 C6 _ _].
  { assert (controller_ok o true (start o)) as Hs by (split; cbn; try done; by constructor). revert Hs. generalize (start o).
    induction n as [|n IH]; intros c Hc; [done|]. apply IH. by apply sound_turn. }
  split_and!; try done. rewrite C3, C2, Z.ltb_lt. split.
  - intros Hl E. by rewrite E in Hl.
  - intros Hne. destruct (answered _) as [|p l]; [done|]. rewrite len_cons. pose proof (len_nonneg l). lia.
Qed.

(** ** A stopped node *)

(** Commands that neither start nor stop the node, and the calls they make. *)
Definition ordinary (command : ControllerCommand) : Prop := command <> Command.StartNode /\ command <> Command.StopNode.
Definition is_operation (e : Event) : Prop :=
  match e with
  | Called (AddContent _ _ | RemoveContent _ _ | StartFetch _ _ | PauseTransfer _ | ResumeTransfer _) => True
  | _ => False
  end.

(** The computation leaves the node, its process and the state of the connection alone. *)
Definition idle (P : Event -> Prop) {A} (m : ctl A) : Prop := forall c,
  let c' := (m c).1 in
  desired_running c' = desired_running c /\ child c' = child c /\ connection (state c') = connection (state c)
  /\ exists new, events c' = new ++ events c /\ Forall (fun e => P e.2) new.

Lemma quiet_idle P {A} (m : ctl A) : quiet P m -> idle P m.
Proof.
  intros Hm c. destruct (Hm c) as (t & s & new & Hc & _ & _ & Hn). cbv zeta. rewrite Hc. split_and!; try done.
  exists new. split; [done|]. eapply Forall_impl; [exact Hn|]. by intros e [_ ?].
Qed.

Lemma idle_bind P {A B} (m : ctl A) (f : A -> ctl B) : idle P m -> (forall a, idle P (f a)) -> idle P (m ≫= f).
Proof.
  intros Hm Hf c. destruct (Hm c) as (D1 & D2 & D3 & new & D4 & D5). unfold mbind, st_bind. destruct (m c) as [c1 [a|e]]; cbn [fst] in *.
  - destruct (Hf a c1) as (E1 & E2 & E3 & new' & E4 & E5). cbv zeta. split_and!; [congruence..|]. exists (new' ++ new).
    rewrite E4, D4, app_assoc. split; [done|]. by apply Forall_app.
  - split_and!; try done. by exists new.
Qed.

Lemma idle_attempt P {A} (m : ctl A) : idle P m -> idle P (attempt m).
Proof. intros Hm c. specialize (Hm c). unfold attempt. by destruct (m c). Qed.

Lemma idle_updates P : (forall e, idle P (set_operation_error e)) /\ (forall e, idle P (set_notice e)) /\ idle P refresh_now.
Proof. split_and!; [intros e c..|intros c]; cbv zeta; (split_and!; [done..|]; exists []; by split). Qed.

Ltac idly := repeat match goal with
  | |- idle _ (_ ≫= _) => apply idle_bind; [|intros ?]
  | |- idle _ (attempt _) => apply idle_attempt
  | |- idle _ (match ?x with _ => _ end) => destruct x
  | |- idle _ (set_operation_error _) => apply idle_updates
  | |- idle _ (set_notice _) => apply idle_updates
  | |- idle _ refresh_now => apply idle_updates
  | |- idle _ _ => apply quiet_idle; quietly; apply quiet_api; exact I
  end.

Lemma idle_command command : ordinary command -> idle is_operation (handle_command command).
Proof. intros [H1' H2']. destruct command; try done; cbn [handle_command]; unfold with_api; idly; cbn [operation_call]; idly. Qed.

Lemma idle_commands l : Forall ordinary l -> idle is_operation (handle_commands l).
Proof. induction 1 as [|command l Hc _ IH]; cbn [handle_commands]; idly; [by apply idle_command|done]. Qed.

(** A round in which the node is not wanted. *)
Lemma idle_turn o c : desired_running c = false -> child c = None -> Forall ordinary (received (ticks c)) ->
  let c' := (turn o c).1 in
  desired_running c' = false /\ child c' = None /\ connection (state c') = connection (state c)
  /\ exists new, events c' = new ++ events c /\ Forall (fun e => is_operation e.2) new.
Proof.
  intros Hd Hch Hr. cbv zeta. remember (turn o c) as m eqn:Em. unfold turn in Em. unfold mbind at 1, st_bind at 1 in Em.
  cbn [interact] in Em. set (c0 := with_outside _ _ _ c) in Em.
  destruct (idle_commands _ Hr c0) as (D1 & D2 & D3 & new & D4 & D5). unfold mbind at 1, st_bind at 1 in Em.
  change (desired_running c0) with (desired_running c) in D1. change (child c0) with (child c) in D2.
  change (state c0) with (state c) in D3. change (events c0) with (events c) in D4. rewrite Hd in D1. rewrite Hch in D2.
  destruct (handle_commands (received (ticks c)) c0) as [c1 [[]|e]]; cbn [fst] in *; [|subst m; split_and!; try done; by exists new].
  unfold reap, reads in Em. unfold mbind, st_bind in Em. cbv beta iota in Em. rewrite D2 in Em. cbn [mret st_ret] in Em.
  rewrite ?D2, D1 in Em.
  cbn [mret st_ret sleep update] in Em. subst m. cbn [fst with_outside desired_running child state events].
  split_and!; [done|done|done|]. by exists new.
Qed.

(** The node accepted the request to stop that the controller makes in the state [c]. *)
Definition stop_accepted (c : Controller) : bool :=
  match client c with Some conn => is_ok (reply Some (ticks c) conn Shutdown) | None => false end.

(** What the command does. *)
Lemma stop_node_spec c :
  let stopped := (handle_command Command.StopNode c).1 in
  desired_running stopped = false /\ child stopped = None
  /\ connection (state stopped) = (if stop_accepted c then Stopped else Disconnected)
  /\ events stopped = match client c with Some _ => (time c, Called Shutdown) :: events c | None => events c end.
Proof.
  unfold stop_accepted. cbn [handle_command]. unfold mbind, st_bind, update, attempt, with_api, reads, mbind, st_bind. cbn [client with_desired].
  destruct (client c) as [conn|]; [|done]. rewrite api_reply. change (ticks (with_desired false c)) with (ticks c).
  by destruct (reply Some (ticks c) conn Shutdown).
Qed.

(** C26: a stopped node stays stopped.  When the user asks to stop the node, the controller
    sends the request, if it knows the node, and forgets its process; the window shows the node
    as stopped exactly when the node accepted the request, and as disconnected otherwise.
    In every later round until the user asks to start or to stop the node again it shows the
    same, and the controller starts no process and makes no request of its own: the only
    requests are those of operations the user asks for. *)
Theorem stop_is_final (o : DesktopOptions) (c : Controller) (n : nat) :
  (forall i, Forall ordinary (received i)) ->
  let stopped := (handle_command Command.StopNode c).1 in
  let c' := run_controller n o stopped in
  desired_running c' = false /\ child c' = None
  /\ connection (state c') = (if stop_accepted c then Stopped else Disconnected)
  /\ events stopped = match client c with Some _ => (time c, Called Shutdown) :: events c | None => events c end
  /\ exists new, events c' = new ++ events stopped /\ Forall (fun e => is_operation e.2) new.
Proof.
  intros Hr. cbv zeta. destruct (stop_node_spec c) as (Hd & Hc & Hs & He). rewrite <- Hs.
  set (s := (handle_command Command.StopNode c).1) in *. clearbody s. clear Hs.
  assert (forall n s, desired_running s = false -> child s = None -> desired_running (run_controller n o s) = false
    /\ child (run_controller n o s) = None /\ connection (state (run_controller n o s)) = connection (state s)
    /\ exists new, events (run_controller n o s) = new ++ events s /\ Forall (fun e => is_operation e.2) new) as Hrun.
  { clear n s Hd Hc He. intros n. induction n as [|n IH]; intros s Hd Hc; cbn [run_controller]; [split_and!; try done; by exists []|].
    destruct (idle_turn o s Hd Hc (Hr _)) as (D1 & D2 & D3 & new & D4 & D5). destruct (IH _ D1 D2) as (E1 & E2 & E3 & new' & E4 & E5).
    split_and!; [done|done|congruence|]. exists (new' ++ new). rewrite E4, D4, app_assoc. split; [done|]. by apply Forall_app. }
  destruct (Hrun n s Hd Hc) as (R1 & R2 & R3 & R4). by split_and!.
Qed.
End Facts.

(** ** Witnesses *)
Import ToyJson.

(** A node that never answers; a millisecond passes between two interactions. *)
Definition silent_outside : Outside := {|
  clock := fun n => from_millis (Z.of_nat n);
  exchange := fun _ _ _ => Err (str "failed to connect to local API");
  spawned := fun _ _ => None;
  waited := fun _ _ => Ok None;
  path_there := fun _ _ => true;
  dir_created := fun _ _ => None;
  loaded := fun _ _ => Ok (mkConnection (mkSocketAddr (V4 [127; 0; 0; 1]) 0 7331) (replicate 32 97));
  received := fun _ => [Command.Pause 1];
  std_text := fun _ => []
|}.

#[local] Existing Instance silent_outside.

Lemma silent_laws : OutsideLaws.
Proof. intros i j Hij. unfold clock, silent_outside, from_millis. lia. Qed.

Definition sample_options : DesktopOptions :=
  mkOptions (str "/h/t.toml") (str "/h/d") (str "/b/triptorrent") (mkSocketAddr (V4 [127; 0; 0; 1]) 0 7331) None
    (from_millis 20) (from_millis 200) (from_millis 100).

(** The start of the node is attempted four times in sixteen rounds. *)
Lemma controller_invariant_witness :
  let c := run_controller 16 sample_options (start sample_options) in
  len (launches sample_options (events c)) = 4
  /\ daemon_launch_count (state c) = len (answered (events c))
  /\ spaced (reconnect_backoff sample_options) (launches sample_options (events c)).
Proof.
  split; [vm_compute; reflexivity|].
  destruct (@controller_invariant silent_outside silent_laws _ sample_options 16 ltac:(vm_compute; discriminate)) as (_ & Hc & _ & _ & _ & Hs).
  split; [exact Hc|exact Hs].
Defined.

Lemma waiting_ends_witness :
  wait_loop (rounds (from_millis 200) STEP + 7) 0 (from_millis 200) [] (start sample_options)
  = wait_loop (rounds (from_millis 200) STEP) 0 (from_millis 200) [] (start sample_options).
Proof.
  apply (proj1 (@waiting_ends silent_outside silent_laws _ (from_millis 200) (from_millis 200) 7 (start sample_options)
    (mkConnection (mkSocketAddr (V4 [127; 0; 0; 1]) 0 7331) []) 0 [] ltac:(vm_compute; discriminate) ltac:(vm_compute; discriminate))).
Defined.

(** A node that answers once it was started, and accepts the request to stop. *)
Definition starting_outside : Outside := {|
  clock := fun n => from_millis (Z.of_nat n);
  exchange := fun n _ call =>
    if (n <? 12)%nat then Err (str "failed to connect to local API")
    else Ok (response_bytes 200 (object [(str "alive", Bool true); (str "store_initialized", Bool true); (str "api_ready", Bool true)]));
  spawned := fun _ _ => None;
  waited := fun _ _ => Ok None;
  path_there := fun _ _ => true;
  dir_created := fun _ _ => None;
  loaded := fun _ _ => Ok (mkConnection (mkSocketAddr (V4 [127; 0; 0; 1]) 0 7331) (replicate 32 97));
  received := fun _ => [];
  std_text := fun _ => []
|}.

Lemma starting_laws : @OutsideLaws starting_outside.
Proof. intros i j Hij. unfold clock, starting_outside, from_millis. lia. Qed.

(** One start succeeds and is counted; the request to stop is accepted. *)
Lemma stop_is_final_witness :
  let c := @run_controller starting_outside _ 3 sample_options (@start starting_outside sample_options) in
  let stopped := (@handle_command starting_outside _ Command.StopNode c).1 in
  daemon_launch_count (state c) = 1 /\ connection (state (@run_controller starting_outside _ 5 sample_options stopped)) = Stopped.
Proof.
  cbv zeta. split; [vm_compute; reflexivity|].
  pose proof (@stop_is_final starting_outside starting_laws _ sample_options
    (@run_controller starting_outside _ 3 sample_options (@start starting_outside sample_options)) 5 (fun i => List.Forall_nil _)) as Hstop.
  cbv zeta in Hstop. destruct Hstop as (_ & _ & Hc & _). rewrite Hc.
  assert (@stop_accepted starting_outside _ (@run_controller starting_outside _ 3 sample_options (@start starting_outside sample_options)) = true) as ->
    by (vm_compute; reflexivity). reflexivity.
Defined.

(** A node that does not answer is shown as disconnected, with the error. *)
Example refused_stop_is_disconnected :
  let c := run_controller 16 sample_options (start sample_options) in
  connection (state (handle_command Command.StopNode c).1) = Disconnected
  /\ last_error (state (handle_command Command.StopNode c).1) = Some (str "failed to connect to local API").
Proof. split; vm_compute; reflexivity. Qed.
