(* ===== verification/DesktopView.v ===== *)
(** * DesktopView: the window of the desktop client (crates/triptorrent-desktop)

    An immediate-mode view: every frame reads the snapshot of the controller (Desktop.v),
    draws the current page, and sends commands for what the user did.  The toolkit is a
    parameter of a frame: which widgets were clicked, which files were dropped and what
    was typed ([Input]).  A disabled widget reports no click.  What a frame changes and
    sends is modelled; the layout is not.  Formatting of sizes and progress is exact up
    to the last division, which the source does in floating point. *)
From stdpp Require Import base tactics list numbers option.
From Stdlib Require Import ZArith Lia.
Import stdpp.list.
From S2P Require Import Prelude Bytes Text NetAddr NodeStore ApiRecords ClientStatus Desktop.

Local Open Scope Z_scope.

(** ** The application *)

Inductive Page := TransfersPage | LibraryPage | NetworkPage | DiagnosticsPage.

#[export] Instance page_eq_dec : EqDecision Page.
Proof. solve_decision. Defined.

(** [DesktopApp]; [sent] is what its controller was sent, in order. *)
Record DesktopApp := mkApp {
  page : Page;
  selected_transfer : option Z;
  selected_content : option (list Z);
  fetch_id : list Z;
  import_path : list Z;
  share_import : bool;
  share_fetch : bool;
  confirm_delete : option (list Z);
  sent : list ControllerCommand
}.

(** [DesktopApp::new] *)
Definition new : DesktopApp := mkApp TransfersPage None None [] [] true true None [].

Definition with_page (v : Page) (a : DesktopApp) : DesktopApp :=
  mkApp v (selected_transfer a) (selected_content a) (fetch_id a) (import_path a) (share_import a) (share_fetch a)
    (confirm_delete a) (sent a).
Definition with_transfer (v : option Z) (a : DesktopApp) : DesktopApp :=
  mkApp (page a) v (selected_content a) (fetch_id a) (import_path a) (share_import a) (share_fetch a)
    (confirm_delete a) (sent a).
Definition with_content (v : option (list Z)) (a : DesktopApp) : DesktopApp :=
  mkApp (page a) (selected_transfer a) v (fetch_id a) (import_path a) (share_import a) (share_fetch a)
    (confirm_delete a) (sent a).
Definition with_fetch_id (v : list Z) (a : DesktopApp) : DesktopApp :=
  mkApp (page a) (selected_transfer a) (selected_content a) v (import_path a) (share_import a) (share_fetch a)
    (confirm_delete a) (sent a).
Definition with_import_path (v : list Z) (a : DesktopApp) : DesktopApp :=
  mkApp (page a) (selected_transfer a) (selected_content a) (fetch_id a) v (share_import a) (share_fetch a)
    (confirm_delete a) (sent a).
Definition with_shares (i f : bool) (a : DesktopApp) : DesktopApp :=
  mkApp (page a) (selected_transfer a) (selected_content a) (fetch_id a) (import_path a) i f (confirm_delete a) (sent a).
Definition with_confirm (v : option (list Z)) (a : DesktopApp) : DesktopApp :=
  mkApp (page a) (selected_transfer a) (selected_content a) (fetch_id a) (import_path a) (share_import a)
    (share_fetch a) v (sent a).

(** [DesktopController::send] and its methods, whose errors the view ignores *)
Definition send_command (command : ControllerCommand) (a : DesktopApp) : DesktopApp :=
  mkApp (page a) (selected_transfer a) (selected_content a) (fetch_id a) (import_path a) (share_import a)
    (share_fetch a) (confirm_delete a) (sent a ++ [command]).
Definition add_content (path : list Z) (shared : bool) := send_command (Command.AddContent path shared).
Definition remove_content (id : list Z) (delete_bytes : bool) := send_command (Command.RemoveContent id delete_bytes).
Definition start_fetch (id : list Z) (shared : bool) := send_command (Command.StartFetch id shared).
Definition pause (id : Z) := send_command (Command.Pause id).
Definition resume (id : Z) := send_command (Command.Resume id).
Definition stop_node := send_command Command.StopNode.
Definition start_node := send_command Command.StartNode.
Definition refresh := send_command Command.Refresh.

(** ** Input *)

Inductive Widget :=
| PageLabel (p : Page) | StopButton | StartButton
| FetchButton | TransferRow (id : Z) | PauseButton | ResumeButton
| AddButton | ContentRow (id : list Z) | RemoveButton | DeleteButton
| RefreshButton | CancelButton | ConfirmButton.

(** What the user did since the last frame; the texts and check boxes as they are after it. *)
Record Input := mkInput {
  dropped_files : list (list Z);
  clicked : Widget -> bool;
  fetch_text : option (list Z);
  import_text : option (list Z);
  share_import_box : option bool;
  share_fetch_box : option bool
}.

(** [if ui.add_enabled(enabled, widget).clicked() { f }] *)
Definition on_click (i : Input) (enabled : bool) (w : Widget) (f : DesktopApp -> DesktopApp) (a : DesktopApp) : DesktopApp :=
  if enabled && clicked i w then f a else a.

(** ** Texts *)

(** [str::get(..n)]: a prefix that ends between two characters *)
Definition str_prefix (n : Z) (value : list Z) : option (list Z) :=
  if len value <? n then None
  else
    match get value n with
    | Some b => if in_range 128 191 b then None else Some (take (Z.to_nat n) value)
    | None => Some (take (Z.to_nat n) value)
    end.

Definition short_id (value : list Z) : list Z := default value (str_prefix 12 value).

(** The basis points of [progress_fraction]; the source divides them by ten thousand as
    [f32]. *)
Definition progress_fraction (t : TransferRecord) : Z :=
  if t_bytes_total t =? 0 then 0
  else
    let verified := Z.min (t_bytes_transferred t) (t_bytes_total t) in
    default 10000 (try_from U16_MAX (verified * 10000 / t_bytes_total t)).

Definition UNITS : list (list Z) := [str "B"; str "KiB"; str "MiB"; str "GiB"; str "TiB"].

(** The loop of [format_bytes]: the divisor and its unit. *)
Fixpoint scale (fuel : nat) (bytes divisor unit : Z) : Z * Z :=
  match fuel with
  | O => (divisor, unit)
  | S fuel =>
      if (bytes / divisor >=? 1024) && (unit + 1 <? len UNITS) then scale fuel bytes (divisor * 1024) (unit + 1)
      else (divisor, unit)
  end.

Definition format_bytes (bytes : Z) : option (list Z) :=
  let '(divisor, unit) := scale 5 bytes 1 0 in
  if unit =? 0 then Some (decimal bytes ++ str " B")
  else
    name ← get UNITS unit;
    Some (decimal (bytes / divisor) ++ str "." ++ decimal (bytes mod divisor * 10 / divisor) ++ str " " ++ name).

(** The text of the library for sharing. *)
Definition sharing_label (c : ContentRecord) : list Z :=
  if cr_advertised c then str "Advertised" else if cr_shared c then str "Enabled; offline" else str "Not shared".

(** What a page shows, in order. *)
Definition bytes_label (n : Z) : list Z := default [] (format_bytes n).

Definition top_status (s : DesktopSnapshot) : list (list Z) :=
  [str "TripTorrent"; str "Node: " ++ connection_label (connection s)]
  ++ (if daemon_started_by_desktop s
      then [str "Started by this desktop session; remains running when the window closes"] else [])
  ++ match last_error s with
     | Some error => [error]
     | None => match notice s with Some notice => [notice] | None => [] end
     end.

(** A row of the table of transfers; its bar is at [progress_fraction]. *)
Definition transfer_row (t : TransferRecord) : list (list Z) :=
  [display_i64 (t_id t); short_id (t_content_id t); t_status t;
   bytes_label (t_bytes_transferred t) ++ str " / " ++ bytes_label (t_bytes_total t);
   bytes_label (t_current_rate_bps t) ++ str "/s"].

Definition contribution_label (c : ProviderContribution) : list Z :=
  short_id (provider_id c) ++ str ": " ++ decimal (pc_verified_chunks c) ++ str " chunks ("
  ++ decimal (pc_rejected_requests c) ++ str " rejected)".

Definition transfer_labels (t : TransferRecord) : list (list Z) :=
  [str "Transfer " ++ display_i64 (t_id t); str "TripTorrent ID: " ++ t_content_id t;
   str "Verified: " ++ decimal (t_verified_chunks t) ++ str " chunks, " ++ bytes_label (t_bytes_transferred t);
   str "Providers: " ++ decimal (t_provider_count t) ++ str " · retries: " ++ decimal (t_retry_count t)
     ++ str " · rejected: " ++ decimal (t_rejected_chunks t);
   str "Network path: " ++ t_network_path t;
   str "Resume state: " ++ decimal (t_resumed_chunks t) ++ str " chunks reused"]
  ++ match t_error t with Some error => [error] | None => [] end
  ++ match t_provider_contributions t with
     | [] => []
     | l => str "Verified provider contribution:" :: map contribution_label l
     end.

Definition content_row (c : ContentRecord) : list (list Z) :=
  [short_id (cr_content_id c); bytes_label (cr_length c); cr_integrity c; sharing_label c].

Definition network (s : DesktopSnapshot) : list (list Z * list Z) :=
  let status := network_privacy s in
  [(str "Network mode", str "TripTorrent Public Testnet 1");
   (str "Protocol", str "Testnet v1");
   (str "Discovery", str "Centralized M2-derived testnet bootstrap");
   (str "Data path", str "End-to-end encrypted relayed swarm");
   (str "Direct peer connection", if pv_direct_peer_connection status then str "Yes" else str "No");
   (str "Classic BitTorrent",
      if classic_bittorrent_active (pv_compatibility status) then str "Active" else str "Not implemented / inactive");
   (str "M3 private discovery",
      if m3_private_discovery_implemented (pv_compatibility status) then str "Implemented" else str "Not implemented");
   (str "Anonymity", str "Not guaranteed")].

(** ** Pages *)

Definition dispatch_dropped_files (i : Input) (a : DesktopApp) : DesktopApp :=
  fold_left (fun a path => add_content path (share_import a) a) (dropped_files i) a.

Definition navigation (i : Input) (s : DesktopSnapshot) (a : DesktopApp) : DesktopApp :=
  let a := fold_left (fun a p => on_click i true (PageLabel p) (with_page p) a)
             [TransfersPage; LibraryPage; NetworkPage; DiagnosticsPage] a in
  if bool_decide (connection s = Connected) then on_click i true StopButton stop_node a
  else on_click i true StartButton start_node a.

Definition network_available (s : DesktopSnapshot) : bool :=
  match ds_node s with Some n => match sm_bootstrap n with Some _ => true | None => false end | None => false end.

(** A text field keeps its text unless the user typed. *)
Definition fetch_controls (i : Input) (s : DesktopSnapshot) (a : DesktopApp) : DesktopApp :=
  let available := network_available s in
  let a := if available then with_fetch_id (default (fetch_id a) (fetch_text i)) a else a in
  let a := on_click i (available && negb (bool_decide (trim (fetch_id a) = []))) FetchButton
             (fun a => with_fetch_id [] (start_fetch (trim (fetch_id a)) (share_fetch a) a)) a in
  with_shares (share_import a) (default (share_fetch a) (share_fetch_box i)) a.

Definition transfer_table (i : Input) (s : DesktopSnapshot) (a : DesktopApp) : DesktopApp :=
  fold_left (fun a t => on_click i true (TransferRow (t_id t)) (with_transfer (Some (t_id t))) a) (ds_transfers s) a.

Definition transfer_detail (i : Input) (t : TransferRecord) (a : DesktopApp) : DesktopApp :=
  let a := on_click i (bool_decide (t_status t = str "running")) PauseButton (pause (t_id t)) a in
  on_click i (bool_decide (t_status t = str "paused")) ResumeButton (resume (t_id t)) a.

Definition transfers (i : Input) (s : DesktopSnapshot) (a : DesktopApp) : DesktopApp :=
  let a := transfer_table i s (fetch_controls i s a) in
  match (id ← selected_transfer a; List.find (fun t => t_id t =? id) (ds_transfers s)) with
  | Some t => transfer_detail i t a
  | None => a
  end.

(** The import field of the library, and its table. *)
Definition import_controls (i : Input) (a : DesktopApp) : DesktopApp :=
  let a := with_import_path (default (import_path a) (import_text i)) a in
  let a := on_click i (negb (bool_decide (trim (import_path a) = []))) AddButton
             (fun a => with_import_path [] (add_content (trim (import_path a)) (share_import a) a)) a in
  with_shares (default (share_import a) (share_import_box i)) (share_fetch a) a.

Definition content_table (i : Input) (s : DesktopSnapshot) (a : DesktopApp) : DesktopApp :=
  fold_left (fun a c => on_click i true (ContentRow (cr_content_id c)) (with_content (Some (cr_content_id c))) a)
    (ds_content s) a.

Definition library (i : Input) (s : DesktopSnapshot) (a : DesktopApp) : DesktopApp :=
  let a := content_table i s (import_controls i a) in
  match selected_content a with
  | Some id =>
      let a := on_click i true RemoveButton (fun a => with_content None (remove_content id false a)) a in
      on_click i true DeleteButton (with_confirm (Some id)) a
  | None => a
  end.

Definition diagnostics_page (i : Input) (a : DesktopApp) : DesktopApp := on_click i true RefreshButton refresh a.

Definition delete_confirmation (i : Input) (a : DesktopApp) : DesktopApp :=
  match confirm_delete a with
  | None => a
  | Some id =>
      let a := on_click i true CancelButton (with_confirm None) a in
      on_click i true ConfirmButton (fun a => with_confirm None (with_content None (remove_content id true a))) a
  end.

(** The page that is shown; the network page only shows facts. *)
Definition current_page (i : Input) (s : DesktopSnapshot) (a : DesktopApp) : DesktopApp :=
  match page a with
  | TransfersPage => transfers i s a
  | LibraryPage => library i s a
  | NetworkPage => a
  | DiagnosticsPage => diagnostics_page i a
  end.

Definition render (i : Input) (s : DesktopSnapshot) (a : DesktopApp) : DesktopApp :=
  delete_confirmation i (current_page i s (navigation i s a)).

(** [App::ui]: one frame *)
Definition frame (i : Input) (s : DesktopSnapshot) (a : DesktopApp) : DesktopApp :=
  render i s (dispatch_dropped_files i a).
