(* ===== verification/DesktopViewFacts.v ===== *)
(** * DesktopViewFacts: what the window of the desktop client guarantees

    Every command a frame sends has its cause in the input and in what the window shows;
    the managed copy of a content is deleted only after the user asked for it and confirmed
    it; progress and sizes are shown within their ranges. *)
From stdpp Require Import base tactics list numbers option sets.
From Stdlib Require Import ZArith Lia.
Import stdpp.list.
From S2P Require Import Prelude Bytes Text NetAddr NodeStore ApiRecords NodeApi ClientStatus Desktop DesktopView.

Local Open Scope Z_scope.

(** ** Commands and their causes *)

(** The commands sent are [new] ones after those before; the other fields are unrelated. *)
Definition sends (P : ControllerCommand -> Prop) (a a' : DesktopApp) : Prop :=
  exists more, sent a' = sent a ++ more /\ Forall P more.

Lemma sends_none P a a' : sent a' = sent a -> sends P a a'.
Proof. intros He. exists []. by rewrite app_nil_r. Qed.

Lemma sends_trans P a b c : sends P a b -> sends P b c -> sends P a c.
Proof.
  intros (m1 & E1 & F1) (m2 & E2 & F2). exists (m1 ++ m2). rewrite E2, E1, app_assoc. split; [done|]. by apply Forall_app.
Qed.

Lemma sends_one (P : ControllerCommand -> Prop) command a a' : P command -> sent a' = sent a ++ [command] -> sends P a a'.
Proof. intros HP He. exists [command]. split; [done|]. by constructor. Qed.

Lemma sends_click (P : ControllerCommand -> Prop) i enabled w f a :
  (enabled = true -> clicked i w = true -> sends P a (f a)) -> sends P a (on_click i enabled w f a).
Proof.
  intros Hf. unfold on_click. destruct (enabled && clicked i w) eqn:E; [|by apply sends_none].
  apply andb_true_iff in E as [? ?]. by apply Hf.
Qed.

(** A loop over the rows of a table. *)
Lemma rows_keep {A B} (g : DesktopApp -> B) (f : DesktopApp -> A -> DesktopApp) l a :
  (forall a x, g (f a x) = g a) -> g (fold_left f l a) = g a.
Proof. intros Hf. revert a. induction l as [|x l IH]; intros a; [done|]. cbn [fold_left]. by rewrite IH. Qed.

Lemma click_keeps {B} (g : DesktopApp -> B) i enabled w f a : (forall a, g (f a) = g a) -> g (on_click i enabled w f a) = g a.
Proof. intros Hf. unfold on_click. by destruct (enabled && clicked i w). Qed.

(** Why a frame may send a command. *)
Definition justified (i : Input) (s : DesktopSnapshot) (a : DesktopApp) (command : ControllerCommand) : Prop :=
  match command with
  | Command.AddContent path _ => path ∈ dropped_files i \/ (clicked i AddButton = true /\ path <> [])
  | Command.RemoveContent id false =>
      clicked i RemoveButton = true /\ (selected_content a = Some id \/ id ∈ map cr_content_id (ds_content s))
  | Command.RemoveContent id true =>
      clicked i ConfirmButton = true
      /\ (confirm_delete a = Some id
          \/ (clicked i DeleteButton = true /\ (selected_content a = Some id \/ id ∈ map cr_content_id (ds_content s))))
  | Command.StartFetch id _ => clicked i FetchButton = true /\ network_available s = true /\ id <> []
  | Command.Pause id =>
      clicked i PauseButton = true /\ exists t, t ∈ ds_transfers s /\ t_id t = id /\ t_status t = str "running"
  | Command.Resume id =>
      clicked i ResumeButton = true /\ exists t, t ∈ ds_transfers s /\ t_id t = id /\ t_status t = str "paused"
  | Command.StopNode => clicked i StopButton = true /\ connection s = Connected
  | Command.StartNode => clicked i StartButton = true /\ connection s <> Connected
  | Command.Refresh => clicked i RefreshButton = true
  end.

(** What the window sends without a confirmation. *)
Definition direct (i : Input) (s : DesktopSnapshot) (a : DesktopApp) (command : ControllerCommand) : Prop :=
  justified i s a command /\ forall id, command <> Command.RemoveContent id true.

Lemma dropped_ok i s a0 a : sends (direct i s a0) a (dispatch_dropped_files i a).
Proof.
  unfold dispatch_dropped_files. assert (forall l, l ⊆ dropped_files i -> forall a, sends (direct i s a0) a (fold_left (fun a path => add_content path (share_import a) a) l a)) as Hl.
  { intros l. induction l as [|path l IH]; intros Hl b; cbn [fold_left]; [by apply sends_none|].
    eapply sends_trans; [|apply IH; set_solver]. eapply sends_one; [|reflexivity]. split; [|done]. left. set_solver. }
  by apply Hl.
Qed.

Lemma dropped_keeps {B} (g : DesktopApp -> B) i a : (forall command a, g (send_command command a) = g a) -> g (dispatch_dropped_files i a) = g a.
Proof. intros Hg. unfold dispatch_dropped_files. apply rows_keep. intros b x. apply Hg. Qed.

Lemma navigation_ok i s a0 a : sends (direct i s a0) a (navigation i s a).
Proof.
  unfold navigation. set (a1 := fold_left _ _ a).
  assert (sent a1 = sent a) as E1 by (unfold a1; apply (rows_keep sent); intros b p; by apply click_keeps).
  eapply sends_trans; [apply sends_none, E1|].
  case_bool_decide as Hc; apply sends_click; intros _ Hk; (eapply sends_one; [|reflexivity]); by split; [split|].
Qed.

Lemma navigation_keeps {B} (g : DesktopApp -> B) i s a :
  (forall command a, g (send_command command a) = g a) -> (forall p a, g (with_page p a) = g a) -> g (navigation i s a) = g a.
Proof.
  intros Hg Hp. unfold navigation. case_bool_decide; rewrite click_keeps by (intros b; apply Hg);
    (apply rows_keep; intros b p; apply click_keeps; intros c; apply Hp).
Qed.

Lemma trim_pos i s a0 (l : list Z) shared : negb (bool_decide (trim l = [])) = true -> clicked i AddButton = true ->
  direct i s a0 (Command.AddContent (trim l) shared).
Proof. intros Hn%negb_true_iff%bool_decide_eq_false Hc. split; [|done]. right. by split. Qed.

Lemma transfers_ok i s a0 a : sends (direct i s a0) a (transfers i s a).
Proof.
  unfold transfers. eapply sends_trans with (b := transfer_table i s (fetch_controls i s a)).
  - eapply sends_trans with (b := fetch_controls i s a); [|apply sends_none; unfold transfer_table; apply rows_keep; intros b t; by apply click_keeps].
    unfold fetch_controls. set (a1 := if network_available s then _ else a).
    eapply sends_trans with (b := a1); [apply sends_none; unfold a1; by destruct (network_available s)|].
    eapply sends_trans with (b := on_click _ _ _ _ a1); [|by apply sends_none]. apply sends_click.
    intros [Ha Hn%negb_true_iff%bool_decide_eq_false]%andb_true_iff Hk. eapply sends_one; [|reflexivity]. split; [|done]. by split_and!.
  - set (a1 := transfer_table i s _). destruct (id ← selected_transfer a1; List.find _ _) as [t|] eqn:E; [|by apply sends_none].
    destruct (selected_transfer a1) as [id|]; [|done]. cbn [mbind option_bind] in E. apply find_some in E as [Hin%list_elem_of_In _].
    unfold transfer_detail. eapply sends_trans; apply sends_click; intros Hst%bool_decide_eq_true Hk; (eapply sends_one; [|reflexivity]);
      (split; [|done]; split; [done|]); by exists t.
Qed.

Lemma import_ok i s a0 a : sends (direct i s a0) a (import_controls i a).
Proof.
  unfold import_controls. eapply sends_trans with (b := on_click _ _ _ _ _); [|by apply sends_none].
  eapply sends_trans; [|apply sends_click; intros Hn Hk; eapply sends_one; [by apply trim_pos|reflexivity]]. by apply sends_none.
Qed.

(** The selection that the library shows. *)
Definition shown_selection (i : Input) (s : DesktopSnapshot) (a : DesktopApp) : option (list Z) :=
  selected_content (content_table i s (import_controls i a)).

Lemma import_selection i a : selected_content (import_controls i a) = selected_content a /\ confirm_delete (import_controls i a) = confirm_delete a.
Proof. unfold import_controls, on_click. by case_match. Qed.

Lemma shown_from i s a id : shown_selection i s a = Some id -> selected_content a = Some id \/ id ∈ map cr_content_id (ds_content s).
Proof.
  unfold shown_selection, content_table. rewrite <- (proj1 (import_selection i a)). generalize (import_controls i a). clear a.
  induction (ds_content s) as [|c l IH]; intros a; cbn [fold_left map]; [by left|]. intros Hs. apply IH in Hs as [Hs|Hs]; [|right; by right].
  unfold on_click in Hs. destruct (true && clicked i _); [|by left]. injection Hs as <-. right. left.
Qed.

Lemma table_keeps i s a : sent (content_table i s a) = sent a /\ confirm_delete (content_table i s a) = confirm_delete a.
Proof. unfold content_table. split; apply rows_keep; intros b c; by apply click_keeps. Qed.

(** What the library may ask to delete. *)
Definition asks (i : Input) (s : DesktopSnapshot) (a : DesktopApp) (id : list Z) : Prop :=
  page a = LibraryPage /\ clicked i DeleteButton = true /\ shown_selection i s a = Some id.

Lemma library_ok i s a0 a : selected_content a = selected_content a0 ->
  sends (direct i s a0) a (library i s a)
  /\ forall id, confirm_delete (library i s a) = Some id ->
       confirm_delete a = Some id \/ (clicked i DeleteButton = true /\ shown_selection i s a = Some id).
Proof.
  intros Ha. unfold library. fold (shown_selection i s a). set (a1 := content_table i s (import_controls i a)).
  assert (sends (direct i s a0) a a1) as H1.
  { eapply sends_trans; [apply import_ok|]. apply sends_none. unfold a1. apply table_keeps. }
  assert (confirm_delete a1 = confirm_delete a) as Hc1 by (unfold a1; rewrite (proj2 (table_keeps _ _ _)); apply import_selection).
  destruct (shown_selection i s a) as [id|] eqn:Es; [|split; [done|]; intros id; rewrite Hc1; by left].
  assert (selected_content a0 = Some id \/ id ∈ map cr_content_id (ds_content s)) as Hid by (rewrite <- Ha; by eapply shown_from). split.
  - eapply sends_trans; [exact H1|]. eapply sends_trans; [|apply sends_click; intros _ _; by apply sends_none].
    apply sends_click. intros _ Hk. eapply sends_one; [|reflexivity]. by split; [split|].
  - intros id'. unfold on_click. destruct (true && clicked i DeleteButton) eqn:Ed.
    + intros [= <-]. right. by split.
    + intros Hc. left. rewrite <- Hc1, <- Hc. by destruct (true && clicked i RemoveButton).
Qed.

Lemma page_ok i s a0 a : selected_content a = selected_content a0 ->
  sends (direct i s a0) a (current_page i s a)
  /\ forall id, confirm_delete (current_page i s a) = Some id -> confirm_delete a = Some id \/ asks i s a id.
Proof.
  intros Ha. unfold current_page, asks. destruct (page a) eqn:Ep.
  - split; [apply transfers_ok|]. intros id Hc. left. rewrite <- Hc. symmetry. unfold transfers.
    set (a1 := transfer_table i s (fetch_controls i s a)). assert (confirm_delete a1 = confirm_delete a) as H1.
    { unfold a1, transfer_table. rewrite rows_keep by (intros b t; by apply click_keeps). unfold fetch_controls, on_click.
      repeat case_match; done. }
    destruct (id0 ← selected_transfer a1; _); [|done]. unfold transfer_detail. by rewrite !click_keeps.
  - destruct (library_ok i s a0 a Ha) as [H1 H2]. split; [done|]. intros id Hc. destruct (H2 id Hc); [by left|by right].
  - split; [by apply sends_none|]. by left.
  - unfold diagnostics_page. split; [apply sends_click; intros _ Hk; eapply sends_one; [|reflexivity]; by split|]. intros id. rewrite click_keeps by done. by left.
Qed.

(** The app when the page is drawn. *)
Definition before_page (i : Input) (s : DesktopSnapshot) (a : DesktopApp) : DesktopApp :=
  navigation i s (dispatch_dropped_files i a).

Lemma before_page_keeps {B} (g : DesktopApp -> B) i s a :
  (forall command a, g (send_command command a) = g a) -> (forall p a, g (with_page p a) = g a) -> g (before_page i s a) = g a.
Proof. intros H1 H2. unfold before_page. rewrite navigation_keeps by done. by apply dropped_keeps. Qed.

(** One frame: its commands are justified, a deletion is sent only on confirmation of what
    was asked for, and what waits for confirmation was asked for. *)
Lemma frame_ok i s a :
  sends (justified i s a) a (frame i s a)
  /\ (forall id, confirm_delete (frame i s a) = Some id -> confirm_delete a = Some id \/ asks i s (before_page i s a) id)
  /\ forall id, Command.RemoveContent id true ∈ sent (frame i s a) -> Command.RemoveContent id true ∈ sent a
       \/ (clicked i ConfirmButton = true /\ (confirm_delete a = Some id \/ asks i s (before_page i s a) id)).
Proof.
  unfold frame, render. fold (before_page i s a). set (a1 := before_page i s a).
  assert (sends (direct i s a) a a1) as H1 by (unfold a1, before_page; eapply sends_trans; [apply dropped_ok|apply navigation_ok]).
  assert (selected_content a1 = selected_content a /\ confirm_delete a1 = confirm_delete a) as [Hs1 Hc1] by (split; by apply before_page_keeps).
  destruct (page_ok i s a a1 Hs1) as [H2 Hc2]. rewrite Hc1 in Hc2. set (a2 := current_page i s a1) in *.
  assert (sends (justified i s a) a a2 /\ forall id, Command.RemoveContent id true ∈ sent a2 -> Command.RemoveContent id true ∈ sent a) as [Hj Hold].
  { destruct (sends_trans _ _ _ _ H1 H2) as (more & E & F). split.
    - exists more. split; [done|]. eapply Forall_impl; [exact F|]. by intros command [? _].
    - intros id. rewrite E, elem_of_app. intros [Hin|Hin]; [done|]. rewrite Forall_forall in F. destruct (F _ Hin) as [_ Hd]. by destruct (Hd id). }
  unfold delete_confirmation. destruct (confirm_delete a2) as [id|] eqn:Ec; [|split_and!; [done|intros id; by rewrite Ec|]; intros id Hin; left; by apply Hold].
  specialize (Hc2 id eq_refl). set (a3 := on_click i true CancelButton (with_confirm None) a2).
  assert (sent a3 = sent a2) as E3 by (unfold a3; by apply click_keeps). unfold on_click. destruct (clicked i ConfirmButton) eqn:Ek; cbn [andb].
  - split_and!; [|done|].
    + eapply sends_trans; [exact Hj|]. eapply sends_trans with (b := a3); [by apply sends_none|]. eapply sends_one; [|reflexivity].
      split; [done|]. destruct Hc2 as [?|(_ & Hk & Hsh)]; [by left|]. right. split; [done|]. rewrite <- Hs1. by eapply shown_from.
    + intros id' Hin. change (Command.RemoveContent id' true ∈ sent a3 ++ [Command.RemoveContent id true]) in Hin. rewrite E3 in Hin.
      apply elem_of_app in Hin as [Hin|Hin%list_elem_of_singleton]; [left; by apply Hold|]. injection Hin as ->. by right.
  - split_and!.
    + eapply sends_trans; [exact Hj|]. by apply sends_none.
    + intros id' Hc. unfold a3, on_click in Hc. destruct (true && clicked i CancelButton); [done|]. rewrite Ec in Hc. by injection Hc as <-.
    + intros id'. rewrite E3. left. by apply Hold.
Qed.

(** ** Runs of the window *)

(** The window after some frames. *)
Definition run_frames (l : list (Input * DesktopSnapshot)) : DesktopApp := fold_left (fun a '(i, s) => frame i s a) l new.

(** At some frame of [l] the user pressed the button that asks to delete the managed copy of
    the selected content [id]. *)
Definition asked (l : list (Input * DesktopSnapshot)) (id : list Z) : Prop :=
  exists before i s after, l = before ++ (i, s) :: after /\ asks i s (before_page i s (run_frames before)) id.

Lemma asked_snoc l x id : asked l id -> asked (l ++ [x]) id.
Proof. intros (before & i & s & after & -> & Ha). exists before, i, s, (after ++ [x]). by rewrite <- app_assoc. Qed.

Lemma run_frames_snoc l i s : run_frames (l ++ [(i, s)]) = frame i s (run_frames l).
Proof. unfold run_frames. by rewrite fold_left_app. Qed.

Lemma run_frames_ok l :
  (forall id, confirm_delete (run_frames l) = Some id -> asked l id)
  /\ forall id, Command.RemoveContent id true ∈ sent (run_frames l) ->
       exists before i s after, l = before ++ (i, s) :: after /\ clicked i ConfirmButton = true /\ asked (before ++ [(i, s)]) id.
Proof.
  induction l as [|[i s] l [IH1 IH2]] using rev_ind.
  { split; [done|]. intros id Hin. by apply not_elem_of_nil in Hin. }
  rewrite run_frames_snoc. destruct (frame_ok i s (run_frames l)) as (_ & F2 & F3).
  assert (forall id, confirm_delete (run_frames l) = Some id \/ asks i s (before_page i s (run_frames l)) id -> asked (l ++ [(i, s)]) id) as Hask.
  { intros id [Hc|Ha]; [by apply asked_snoc, IH1|]. by exists l, i, s, []. }
  split; [intros id Hc; by apply Hask, F2|]. intros id Hin. destruct (F3 id Hin) as [Hold|[Hk Hc]].
  - destruct (IH2 id Hold) as (before & i' & s' & after & -> & ? & ?). exists before, i', s', (after ++ [(i, s)]). by rewrite <- app_assoc.
  - exists l, i, s, []. split_and!; [done|done|by apply Hask].
Qed.

(** C27: the window deletes the managed copy of a content only after a confirmation.
    Whatever the user does and the snapshots show: if the window ever sent the deletion of
    [id], then at some frame the user pressed the confirming button, and at that or an earlier
    frame, on the library page with [id] selected, the button that asks for it. *)
Theorem deletion_needs_confirmation (l : list (Input * DesktopSnapshot)) (id : list Z) :
  Command.RemoveContent id true ∈ sent (run_frames l) ->
  exists before i s after, l = before ++ (i, s) :: after /\ clicked i ConfirmButton = true /\ asked (before ++ [(i, s)]) id.
Proof. apply run_frames_ok. Qed.

(** Every command the window sends has its cause.  In a frame, commands are only
    appended; a fetch is sent only when the node has a bootstrap address and an identifier
    was typed, a transfer is paused only while it runs and resumed only while it is paused, the
    node is stopped only when it is connected and started only when it is not, and a
    content is removed only when it is selected and its button was pressed. *)
Theorem commands_justified (i : Input) (s : DesktopSnapshot) (a : DesktopApp) :
  exists more, sent (frame i s a) = sent a ++ more /\ Forall (justified i s a) more.
Proof. apply frame_ok. Qed.

(** ** Formatting *)

(** Progress is a number of basis points, complete exactly at the end. *)
Lemma progress_bounds t : u64_ok (t_bytes_total t) -> u64_ok (t_bytes_transferred t) ->
  0 <= progress_fraction t <= 10000
  /\ (0 < t_bytes_total t -> progress_fraction t = 10000 <-> t_bytes_total t <= t_bytes_transferred t).
Proof.
  unfold u64_ok, progress_fraction. intros Ht Hd. destruct (Z.eqb_spec (t_bytes_total t) 0) as [->|Hne]; [split; [lia|lia]|].
  set (v := Z.min (t_bytes_transferred t) (t_bytes_total t)). set (total := t_bytes_total t) in *.
  assert (0 <= v * 10000 / total <= 10000) as Hq by (split; [apply Z.div_pos; lia|apply Z.div_le_upper_bound; lia]).
  rewrite (proj2 (try_from_Some U16_MAX _ _)) by (split; [reflexivity|unfold U16_MAX; lia]). cbn [from_option]. unfold id. split; [exact Hq|]. intros _.
  pose proof (Z.div_mod (v * 10000) total Hne) as Hdm. pose proof (Z.mod_pos_bound (v * 10000) total ltac:(lia)). split.
  - intros He. rewrite He in Hdm. lia.
  - intros Hle. assert (v = total) as Ev by lia. rewrite Ev, Z.mul_comm. by apply Z.div_mul.
Qed.

Lemma scale_spec fuel bytes divisor unit : 0 <= bytes -> 0 <= unit <= 4 -> divisor = 1024 ^ unit -> (unit = 0 \/ divisor <= bytes) ->
  (Z.to_nat (4 - unit) < fuel)%nat ->
  let '(d, u) := scale fuel bytes divisor unit in
  0 <= u <= 4 /\ d = 1024 ^ u /\ (u = 0 \/ d <= bytes) /\ (u = 4 \/ bytes < 1024 * d).
Proof.
  revert divisor unit. induction fuel as [|fuel IH]; intros divisor unit Hb Hu -> Hd Hf; [lia|]. cbn [scale]. change (len UNITS) with 5.
  pose proof (Z.pow_pos_nonneg 1024 unit ltac:(lia) ltac:(lia)).
  destruct (Z.geb_spec (bytes / 1024 ^ unit) 1024) as [Hge|Hlt]; cbn [andb].
  - assert (1024 ^ unit * 1024 <= bytes) by (pose proof (Z.mul_div_le bytes (1024 ^ unit)); nia). destruct (Z.ltb_spec (unit + 1) 5).
    + apply IH; try lia. rewrite Z.pow_add_r by lia. lia.
    + split_and!; try done; lia.
  - split_and!; try done; try lia. right. pose proof (Z.div_mod bytes (1024 ^ unit) ltac:(lia)). pose proof (Z.mod_pos_bound bytes (1024 ^ unit)). nia.
Qed.

(** Sizes are shown in the greatest unit that fits, up to tebibytes, rounded down to a
    tenth, for every 64-bit size; the arithmetic does not overflow. *)
Theorem format_bytes_exact (bytes : Z) : 0 <= bytes <= U64_MAX ->
  exists unit name, 0 <= unit <= 4 /\ get UNITS unit = Some name
    /\ (unit = 0 \/ 1024 ^ unit <= bytes) /\ (unit = 4 \/ bytes < 1024 ^ (unit + 1))
    /\ bytes mod 1024 ^ unit * 10 <= U64_MAX
    /\ let tenths := bytes * 10 / 1024 ^ unit in
       format_bytes bytes = Some (if unit =? 0 then decimal bytes ++ str " B"
                                  else decimal (tenths / 10) ++ str "." ++ decimal (tenths mod 10) ++ str " " ++ name).
Proof.
  intros Hb. unfold format_bytes. pose proof (scale_spec 5 bytes 1 0 ltac:(lia) ltac:(lia) eq_refl ltac:(by left) ltac:(vm_compute; lia)) as Hs.
  destruct (scale 5 bytes 1 0) as [d u]. destruct Hs as (Hu & -> & Hlo & Hhi).
  destruct (proj2 (get_is_Some UNITS u)) as [name Hn]; [change (len UNITS) with 5; lia|].
  pose proof (Z.pow_pos_nonneg 1024 u ltac:(lia) ltac:(lia)) as Hp. exists u, name. split_and!; try done; try lia.
  - rewrite Z.pow_add_r by lia. lia.
  - pose proof (Z.mod_pos_bound bytes (1024 ^ u) Hp). pose proof (Z.pow_le_mono_r 1024 u 4 ltac:(lia) ltac:(lia)) as H4.
    change (1024 ^ 4) with 1099511627776 in H4. unfold U64_MAX. lia.
  - cbv zeta. destruct (Z.eqb_spec u 0); [done|]. rewrite Hn. cbn [mbind option_bind]. pose proof (Z.div_mod bytes (1024 ^ u) ltac:(lia)) as Hdm.
    set (q := bytes / 1024 ^ u) in *. set (r := bytes mod 1024 ^ u) in *. pose proof (Z.mod_pos_bound bytes (1024 ^ u) Hp) as Hr. fold r in Hr.
    assert (bytes * 10 / 1024 ^ u = 10 * q + r * 10 / 1024 ^ u) as ->.
    { rewrite Hdm. replace ((1024 ^ u * q + r) * 10) with ((10 * q) * 1024 ^ u + r * 10) by lia. by rewrite Z.div_add_l by lia. }
    assert (0 <= r * 10 / 1024 ^ u < 10) as Ht by (split; [apply Z.div_pos; lia|apply Z.div_lt_upper_bound; lia]).
    set (w := r * 10 / 1024 ^ u) in *. rewrite <- (Z.div_unique (10 * q + w) 10 q w), <- (Z.mod_unique (10 * q + w) 10 q w) by lia. done.
Qed.

(** ** Texts *)

(** What a refresh that succeeds shows of the network is what the node says of itself: the
    document it serves, read by the client, gives a page that claims no anonymity, no
    direct connection and no mode that is not implemented. *)
Lemma network_page_truthful `{Json} s privacy :
  value_privacy current_prototype = Some privacy -> network_privacy s = privacy ->
  map snd (network s) = [str "TripTorrent Public Testnet 1"; str "Testnet v1"; str "Centralized M2-derived testnet bootstrap";
    str "End-to-end encrypted relayed swarm"; str "No"; str "Not implemented / inactive"; str "Not implemented"; str "Not guaranteed"].
Proof. intros Hp Hs. rewrite (proj2 privacy_reads) in Hp. injection Hp as <-. unfold network. by rewrite Hs. Qed.

(** ** Witnesses *)

Definition sample_snapshot : DesktopSnapshot :=
  mkSnapshot Connected None None [mkContentRecord (str "abc") [] 3 1 (str "/d") true false true (str "ok")] [] None
    current_privacy None None false 0 [].

Definition clicks (l : Widget -> bool) : Input := mkInput [] l None None None None.

(** The library page, the row of the content and the button that asks. *)
Definition asking : Input :=
  clicks (fun w => match w with PageLabel LibraryPage | ContentRow _ | DeleteButton => true | _ => false end).
Definition confirming : Input := clicks (fun w => match w with ConfirmButton => true | _ => false end).

Lemma deletion_needs_confirmation_witness :
  let l := [(asking, sample_snapshot); (confirming, sample_snapshot)] in
  Command.RemoveContent (str "abc") true ∈ sent (run_frames l)
  /\ exists before i s after, l = before ++ (i, s) :: after /\ clicked i ConfirmButton = true /\ asked (before ++ [(i, s)]) (str "abc").
Proof.
  cbv zeta. assert (Command.RemoveContent (str "abc") true ∈ sent (run_frames [(asking, sample_snapshot); (confirming, sample_snapshot)])) as Hin.
  { assert (sent (run_frames [(asking, sample_snapshot); (confirming, sample_snapshot)]) = [Command.RemoveContent (str "abc") true]) as -> by (vm_compute; reflexivity).
    left. }
  split; [exact Hin|]. apply (deletion_needs_confirmation _ _ Hin).
Defined.

Lemma format_bytes_exact_witness :
  format_bytes 1536 = Some (str "1.5 KiB")
  /\ exists unit name, 0 <= unit <= 4 /\ get UNITS unit = Some name
    /\ (unit = 0 \/ 1024 ^ unit <= 1536) /\ (unit = 4 \/ 1536 < 1024 ^ (unit + 1))
    /\ 1536 mod 1024 ^ unit * 10 <= U64_MAX
    /\ let tenths := 1536 * 10 / 1024 ^ unit in
       format_bytes 1536 = Some (if unit =? 0 then decimal 1536 ++ str " B"
                                 else decimal (tenths / 10) ++ str "." ++ decimal (tenths mod 10) ++ str " " ++ name).
Proof. split; [vm_compute; reflexivity|]. apply (format_bytes_exact 1536). unfold U64_MAX. lia. Defined.
