(* ===== verification/Entry.v ===== *)
(** * Entry: sharing and fetching a file (crates/triptorrent-cli, the public operations)

    How the parts are put together: a sharer registers with the bootstrap service, polls
    for a route, meets the receiver at a relay and serves it; a receiver discovers
    providers, opens a session with each, and hands those that answer to the download loop
    (Download.v).  The network is data: what each poll, discovery and connection gave
    ([Link], [Attempt], [Turn]).  A loop whose data ends is still running ([None]). *)
From stdpp Require Import base tactics list numbers option gmap.
From Stdlib Require Import ZArith Lia.
Import stdpp.list.
From S2P Require Import Prelude Bytes Text NetAddr Core Availability Wire Swarm Resume NodeStore Paths Overlay Transfer Download.

Local Open Scope Z_scope.

Definition OVERLAY_POLL_INTERVAL : Z := 100.
Definition FETCH_MAX_DISCOVERY_ATTEMPTS : nat := 600.
Definition MAX_SWARM_PROVIDERS : Z := 8.

Inductive EntryError :=
| Unreadable (e : ResumeError)
| BadContent (e : ContentError)
| TooManyChunks
| InvalidRangeStart
| InvalidRangeEnd
| RangeOutside (item : list Z)
| InvalidIndex
| IndexOutside (index : Z)
| NoChunkOffered
| InvalidCorruptIndex
| CorruptIndexOutside (index : Z)
| InvalidKey
| KeyLength
| BootstrapFailed (e : OverlayError)
| StoppedSharing
| InvalidRelayAddress
| RelayUnreachable
| NoSession
| SessionError (e : TransferError)
| OutputFailed (e : ResumeError)
| StoppedByControl
| RoutesFailed (e : EntryError)
| NotDiscoverable
| DownloadFailed (e : DownloadError).

(** ** Options *)

Record ShareOptions := mkShareOptions { so_availability : option (list Z); so_upload_limit : option Z }.
Record FetchOptions := mkFetchOptions { fo_download_limit : option Z }.

Definition default_share : ShareOptions := mkShareOptions None None.
Definition default_fetch : FetchOptions := mkFetchOptions None.

Record TransferStats := mkTransferStats {
  accepted_by_provider : list (PeerId * Z);
  rejected_by_provider : list (PeerId * Z);
  ts_retries : Z;
  ts_resumed_chunks : Z
}.

(** [spec.split(',').filter(|item| !item.is_empty())] *)
Definition items (spec : list Z) : list (list Z) := List.filter nonempty (split 44 spec).

(** The indices of one item. *)
Definition parse_item (count : Z) (item : list Z) : result EntryError (list Z) :=
  match split_once 45 item with
  | Some (first, last) =>
      first ← ok_or (parse_unsigned U32_MAX first) InvalidRangeStart;
      last ← ok_or (parse_unsigned U32_MAX last) InvalidRangeEnd;
      if (first >? last) || (last >=? count) then Err (RangeOutside item) else Ok (seqZ first (last - first + 1))
  | None =>
      index ← ok_or (parse_unsigned U32_MAX item) InvalidIndex;
      if index >=? count then Err (IndexOutside index) else Ok [index]
  end.

Definition parse_availability (spec : option (list Z)) (chunk_count : Z) : result EntryError PieceAvailability :=
  count ← ok_or (try_from U32_MAX chunk_count) TooManyChunks;
  match spec with
  | None => Ok (availability_all count)
  | Some spec =>
      if eq_ignore_ascii_case spec (str "all") then Ok (availability_all count)
      else
        indices ← map_result (parse_item count) (items spec);
        let indices := concat indices in
        if bool_decide (indices = []) && (chunk_count >? 0) then Err NoChunkOffered
        else Ok (from_indices count indices)
  end.

(** The hooks for tests: what the environment variable holds, if it is set. *)
Fixpoint mark_corrupt (corrupt : list bool) (l : list (list Z)) : result EntryError (list bool) :=
  match l with
  | [] => Ok corrupt
  | item :: l =>
      index ← ok_or (parse_unsigned USIZE_MAX item) InvalidCorruptIndex;
      if index <? len corrupt then mark_corrupt (set_at corrupt index true) l else Err (CorruptIndexOutside index)
  end.
Definition test_corrupt_chunks (variable : option (list Z)) (chunk_count : Z) : result EntryError (list bool) :=
  let corrupt := replicate (Z.to_nat chunk_count) false in
  match variable with
  | None => Ok corrupt
  | Some spec => mark_corrupt corrupt (items spec)
  end.
(** In milliseconds. *)
Definition test_chunk_delay (variable : option (list Z)) : Z := default 0 (v ← variable; parse_unsigned U64_MAX v).
Definition overlay_poll_interval (variable : option (list Z)) : Z :=
  default OVERLAY_POLL_INTERVAL (v ← variable; parse_unsigned U64_MAX v).
Definition test_idle_marker_after (variable : option (list Z)) : option Z := v ← variable; parse_unsigned USIZE_MAX v.

Definition parse_psk `{Hex} (value : list Z) : result EntryError (list Z) :=
  decoded ← ok_or (hex_decode value) InvalidKey;
  if len decoded =? 32 then Ok decoded else Err KeyLength.

(** ** Rate limits *)

(** [RuntimeLimiter]; times are nanoseconds since the epoch of the process. *)
Record RuntimeLimiter := mkLimiter { rl_epoch : Z; rl_schedule : RateSchedule }.

Definition limiter_enabled (now rate : Z) : RuntimeLimiter := mkLimiter now (RateSchedule_new rate).
Definition limiter_new (now : Z) (rate : option Z) : option RuntimeLimiter :=
  match rate with Some rate => if rate >? 0 then Some (limiter_enabled now rate) else None | None => None end.
(** [wait]: the limiter after the reservation and the time to sleep *)
Definition limiter_wait (l : RuntimeLimiter) (now bytes : Z) : RuntimeLimiter * Z :=
  let '(schedule, delay) := reserve (rl_schedule l) (now - rl_epoch l) bytes in
  (mkLimiter (rl_epoch l) schedule, delay).

(** ** Connections *)

(** What connecting to a relay and the handshake gave. *)
Inductive Link :=
| Unreachable
| NoHandshake
| Established (channel : Channel).

Section Operations.
Context `{Blake3} `{Postcard}.

(** Operations that use files. *)
Definition op (A : Type) : Type := st World EntryError A.
Definition disk {A} (f : ResumeError -> EntryError) (c : io A) : op A := fun w =>
  let '(w, r) := c w in (w, map_err f r).
(** A conversation on an established session; its channel is returned at its end. *)
Definition talk {A} (c : Channel) (conversation : session A) : op A := lift (map_err SessionError (conversation c).2).

Definition identify (path : list Z) : op ContentId :=
  bytes ← disk Unreadable (fs_read path);
  mret (ContentId_digest bytes).

Definition load_content (path : list Z) : op (Manifest * list Chunk) :=
  bytes ← disk Unreadable (fs_read path);
  lift (map_err BadContent (Manifest_from_bytes bytes)).

(** ** Through a given relay *)

Definition share_file (path : list Z) (link : Link) : op ContentId :=
  '(manifest, chunks) ← load_content path;
  match link with
  | Unreachable => throw RelayUnreachable
  | NoHandshake => throw NoSession
  | Established c => _ ← talk c (send_content manifest chunks); mret (m_content_id manifest)
  end.

(** [fetch_file] with the end of [receive_content] *)
Definition fetch_file (link : Link) (content_id : ContentId) (output : list Z) : op unit :=
  match link with
  | Unreachable => throw RelayUnreachable
  | NoHandshake => throw NoSession
  | Established c =>
      bytes ← talk c (receive_content content_id);
      disk OutputFailed (store_output (with_extension output (str "triptorrent-part")) output bytes)
  end.

(** ** Sharing through the overlay *)

(** One poll: the stop flag, and the answer of the bootstrap service. *)
Record Poll := mkPoll { p_running : bool; p_answer : result OverlayError (option RouteAssignment) }.

(** [poll_until_assignment] with the closures of the sharer: the assignment and the number of
    idle polls *)
Fixpoint poll_until_assignment (polls : list Poll) (idle : Z) : option (result EntryError RouteAssignment) * Z :=
  match polls with
  | [] => (None, idle)
  | p :: polls =>
      if negb (p_running p) then (Some (Err StoppedSharing), idle)
      else
        match p_answer p with
        | Err e => (Some (Err (BootstrapFailed e)), idle)
        | Ok (Some assignment) => (Some (Ok assignment), idle)
        | Ok None => poll_until_assignment polls (sat_add USIZE_MAX idle 1)
        end
  end.

(** One turn of the sharer's loop: the flag, its polls, the connection to the relay, and what
    the flag reads while it serves. *)
Record Turn := mkTurn {
  t_running : bool;
  t_polls : list Poll;
  t_link : Link;
  t_flags : list bool
}.

(** The loop: the relays reported as failed and the outcome. *)
Fixpoint share_loop (content : ProviderContent) (turns : list Turn) (idle : Z) (reported : list (list Z))
  : list (list Z) * option (result EntryError ContentId) :=
  match turns with
  | [] => (reported, None)
  | turn :: turns =>
      if negb (t_running turn) then (reported, Some (Err StoppedSharing))
      else
        match poll_until_assignment (t_polls turn) idle with
        | (None, _) => (reported, None)
        | (Some (Err e), _) => (reported, Some (Err e))
        | (Some (Ok assignment), idle) =>
            match parse_socket_addr (relay_address assignment) with
            | None => (reported, Some (Err InvalidRelayAddress))
            | Some _ =>
                match t_link turn with
                | Unreachable => share_loop content turns idle (reported ++ [relay_id assignment])
                | NoHandshake => (reported, Some (Err NoSession))
                | Established c =>
                    match (serve_swarm_session content (t_flags turn) c).2 with
                    | Ok _ => (reported, Some (Ok (m_content_id (pc_manifest content))))
                    | Err e => (reported, Some (Err (SessionError e)))
                    end
                end
            end
        end
  end.

(** What the sharer registers: the peer of the fresh key pair, for one content. *)
Definition advertisement_of (public_key : list Z) (content_id : ContentId) : PeerAdvertisement :=
  mkPeerAdvertisement (PeerId_from_public_key public_key) public_key [SwarmTransferV1] [content_id].

(** [share_file_via_overlay_with_control]: [keypair] is the generated public key, [register] the
    answer to the registration and [corrupt] the variable of the test hook *)
Definition share_file_via_overlay_with_control (path : list Z) (options : ShareOptions) (corrupt : option (list Z))
  (keypair : option (list Z)) (register : PeerAdvertisement -> result OverlayError Z) (turns : list Turn)
  : World -> World * (list (list Z) * option (result EntryError ContentId)) := fun w =>
  let prepared :=
    ('(manifest, chunks) ← load_content path;
     availability ← lift (parse_availability (so_availability options) (len chunks));
     corrupt_chunks ← lift (test_corrupt_chunks corrupt (len chunks));
     public_key ← lift (ok_or keypair NoSession);
     _ ← lift (map_err BootstrapFailed (register (advertisement_of public_key (m_content_id manifest))));
     mret (mkProviderContent manifest chunks availability corrupt_chunks)) w in
  match prepared with
  | (w, Err e) => (w, ([], Some (Err e)))
  | (w, Ok content) => (w, share_loop content turns 0 [])
  end.

(** ** Fetching through the overlay *)

Record ConnectedProvider := mkConnected {
  cp_peer_id : PeerId;
  cp_manifest : Manifest;
  cp_availability : PieceAvailability
}.

Record ProviderConnectFailure := mkConnectFailure { cf_error : EntryError; relay_unreachable : bool }.

Definition connect_swarm_provider (assignment : RouteAssignment) (content_id : ContentId) (link : Link)
  : result ProviderConnectFailure ConnectedProvider :=
  match parse_socket_addr (relay_address assignment) with
  | None => Err (mkConnectFailure InvalidRelayAddress false)
  | Some _ =>
      match link with
      | Unreachable => Err (mkConnectFailure RelayUnreachable true)
      | NoHandshake => Err (mkConnectFailure NoSession false)
      | Established c =>
          match (open_swarm_session content_id c).2 with
          | Ok (manifest, availability) => Ok (mkConnected (Wire.provider_id assignment) manifest availability)
          | Err e => Err (mkConnectFailure (SessionError e) false)
          end
      end
  end.

(** ** Workers *)

Inductive WorkerCommand :=
| WorkerFetch (index expected_bytes : Z)
| WorkerFinish.

Record WorkerResult := mkWorkerResult {
  wr_provider : Z;
  wr_requested_index : Z;
  wr_response : result TransferError Chunk
}.

(** The thread of [spawn_provider_worker], for the commands it receives: its session and the
    results it sends.  [open] says whether the channel of results is still there. *)
Fixpoint worker_loop (slot : Z) (open : bool) (commands : list WorkerCommand) (c : Channel) : Channel * list WorkerResult :=
  match commands with
  | [] => (c, [])
  | WorkerFinish :: _ => ((Transfer.send SwarmComplete c).1, [])
  | WorkerFetch index _ :: commands =>
      let '(c, response) := worker_fetch index c in
      let result := mkWorkerResult slot index response in
      if negb open || negb (is_ok response) then (c, if open then [result] else [])
      else
        let '(c, results) := worker_loop slot open commands c in
        (c, result :: results)
  end.

(** ** Attempts *)

(** One attempt: the monitor, the answer of the bootstrap service, and for every route it
    offers the connection. *)
Record Attempt := mkAttempt {
  at_continue : bool;
  at_routes : result OverlayError (list RouteAssignment);
  at_links : list Link
}.

(** The connections of one attempt: the providers that answered, the relays reported as
    failed, the last error. *)
Fixpoint connect_all (content_id : ContentId) (routes : list RouteAssignment) (links : list Link)
  (last_error : option EntryError) : list ConnectedProvider * list (list Z) * option EntryError :=
  match routes with
  | [] => ([], [], last_error)
  | assignment :: routes =>
      match connect_swarm_provider assignment content_id (default Unreachable (head links)) with
      | Ok provider =>
          let '(providers, reported, last_error) := connect_all content_id routes (tail links) last_error in
          (provider :: providers, reported, last_error)
      | Err failure =>
          let '(providers, reported, last_error) := connect_all content_id routes (tail links) (Some (cf_error failure)) in
          (providers, if relay_unreachable failure then relay_id assignment :: reported else reported, last_error)
      end
  end.

(** [TransferStats] at the end of [receive_swarm] *)
Definition transfer_stats (peers : list PeerId) (s : Scheduler) (resumed : Z) : TransferStats :=
  let by_slot (f : ProviderStats -> Z) :=
    map (fun '(slot, peer) => (peer, match provider_stats s slot with Some stats => f stats | None => 0 end))
      (enumerate peers) in
  mkTransferStats (by_slot stats_accepted) (by_slot stats_rejected) (retries s) resumed.

(** [emit_stats]: the line on the standard error *)
Definition stats_line `{Hex} (stats : TransferStats) : list Z :=
  let counts l := join (str ",") (map (fun '((peer, count) : PeerId * Z) => PeerId_to_string peer ++ str ":" ++ decimal count) l) in
  str "TRIPTORRENT_SWARM_STATS accepted=" ++ counts (accepted_by_provider stats)
  ++ str " rejected=" ++ counts (rejected_by_provider stats)
  ++ str " retries=" ++ decimal (ts_retries stats) ++ str " resumed=" ++ decimal (ts_resumed_chunks stats).

(** The chunks [ResumeDownload::open] finds. *)
Definition resumed_chunks (output : list Z) (m : Manifest) (w : World) : Z :=
  match (Resume.open output m w).2 with Ok (_, n) => n | Err _ => 0 end.

Definition receive_providers (first : ConnectedProvider) (others : list ConnectedProvider) (content_id : ContentId)
  (output : list Z) (rounds : list Round) (w : World) : World * option (result EntryError TransferStats) :=
  let described p := (cp_manifest p, cp_availability p) in
  match receive_swarm (described first) (map described others) content_id output rounds w with
  | (w', None) => (w', None)
  | (w', Some (Err e)) => (w', Some (Err (DownloadFailed e)))
  | (w', Some (Ok s)) =>
      (w', Some (Ok (transfer_stats (map cp_peer_id (first :: others)) s (resumed_chunks output (cp_manifest first) w))))
  end.

(** The loop of [fetch_file_via_overlay_with_monitor]; [n] attempts remain. *)
Fixpoint fetch_loop (n : nat) (content_id : ContentId) (output : list Z) (attempts : list Attempt) (rounds : list Round)
  (last_error : option EntryError) (w : World) : World * list (list Z) * option (result EntryError TransferStats) :=
  match n with
  | O => (w, [], Some (Err (match last_error with Some e => RoutesFailed e | None => NotDiscoverable end)))
  | S n =>
      match attempts with
      | [] => (w, [], None)
      | attempt :: attempts =>
          if negb (at_continue attempt) then (w, [], Some (Err StoppedByControl))
          else
            match at_routes attempt with
            | Err e => (w, [], Some (Err (BootstrapFailed e)))
            | Ok routes =>
                let '(providers, reported, last_error) := connect_all content_id routes (at_links attempt) last_error in
                match providers with
                | [] =>
                    let '(w, more, r) := fetch_loop n content_id output attempts rounds last_error w in
                    (w, reported ++ more, r)
                | first :: others =>
                    let '(w, r) := receive_providers first others content_id output rounds w in
                    (w, reported, r)
                end
            end
      end
  end.

Definition fetch_file_via_overlay_with_monitor (content_id : ContentId) (output : list Z) (attempts : list Attempt)
  (rounds : list Round) : World -> World * list (list Z) * option (result EntryError TransferStats) :=
  fetch_loop FETCH_MAX_DISCOVERY_ATTEMPTS content_id output attempts rounds None.
End Operations.

(** ** The engine of the node (crates/triptorrent-cli/src/main.rs, [CliTransferEngine]) *)

(** [NodeFetchMonitor::verified_progress] *)
Definition node_progress (p : VerifiedTransferProgress) : VerifiedProgress :=
  mkVerifiedProgress (Download.bytes_total p) (Download.verified_bytes p) (Download.total_chunks p)
    (Download.verified_chunks p) (Download.provider_count p) (Download.retry_count p) (Download.rejected_chunks p).

Section Engine.
Context `{Hex}.

Definition contribution_of (stats : TransferStats) (entry : PeerId * Z) : ProviderContribution :=
  let '(provider, verified) := entry in
  mkContribution (PeerId_to_string provider) verified
    (default 0 (snd <$> List.find (fun e => bool_decide (e.1 = provider)) (rejected_by_provider stats))).

(** The statistics that [fetch] returns. *)
Definition engine_stats (stats : TransferStats) : PersistentFetchStats :=
  mkFetchStats (ts_resumed_chunks stats) (map (contribution_of stats) (accepted_by_provider stats)) (ts_retries stats)
    (sum snd (rejected_by_provider stats)).
End Engine.
