(* ===== verification/EntryFacts.v ===== *)
(** * EntryFacts: what sharing and fetching a file guarantee

    The list of offered chunks is read exactly; a fetch through the overlay tries a bounded
    number of times, succeeds only with the requested content in the output, and reports only
    relays it could not reach; a sharer goes on after a relay that fails and returns only
    after a session served to its end; the statistics of the node's engine add up. *)
From stdpp Require Import base tactics list numbers option gmap.
From Stdlib Require Import ZArith Lia.
Import stdpp.list.
From S2P Require Import Prelude Bytes Text NetAddr Instances Core Availability Wire Swarm Resume NodeStore Paths Overlay Transfer Download Entry.

Local Open Scope Z_scope.

(** ** Offered chunks *)

(** The first and the last index an item names. *)
Definition item_range (item : list Z) : option (Z * Z) :=
  match split_once 45 item with
  | Some (first, last) =>
      first ← parse_unsigned U32_MAX first; last ← parse_unsigned U32_MAX last; Some (first, last)
  | None => index ← parse_unsigned U32_MAX item; Some (index, index)
  end.

(** An item that names chunks of a file of [count]. *)
Definition good_item (count : Z) (item : list Z) : Prop :=
  exists first last, item_range item = Some (first, last) /\ first <= last < count.
Definition names (item : list Z) (i : Z) : Prop :=
  exists first last, item_range item = Some (first, last) /\ first <= i <= last.

Lemma parse_item_exact count item l :
  parse_item count item = Ok l <->
  exists first last, item_range item = Some (first, last) /\ 0 <= first <= last /\ last < count /\ l = seqZ first (last - first + 1).
Proof.
  assert (forall text n, parse_unsigned U32_MAX text = Some n -> 0 <= n) as Hpos.
  { intros text n. unfold parse_unsigned. destruct (_ || _); [done|]. rewrite try_from_Some. lia. }
  unfold parse_item, item_range. destruct (split_once 45 item) as [[first last]|].
  - destruct (parse_unsigned U32_MAX first) as [f|] eqn:Ef; cbn [ok_or mbind result_bind option_bind]; [|naive_solver].
    destruct (parse_unsigned U32_MAX last) as [t|] eqn:Et; cbn [ok_or mbind result_bind option_bind]; [|naive_solver].
    apply Hpos in Ef, Et. destruct (Z.gtb_spec f t), (Z.geb_spec t count); cbn [orb]; split; try done;
      try (intros (? & ? & [= <- <-] & ? & ? & _); lia).
    + intros [= <-]. exists f, t. split_and!; try done; lia.
    + intros (? & ? & [= <- <-] & _ & _ & ->). done.
  - destruct (parse_unsigned U32_MAX item) as [i|] eqn:Ei; cbn [ok_or mbind result_bind option_bind]; [|naive_solver].
    apply Hpos in Ei. destruct (Z.geb_spec i count); split; try done; try (intros (? & ? & [= <- <-] & ? & ? & _); lia).
    + intros [= <-]. exists i, i. split_and!; try done; try lia. by replace (i - i + 1) with 1 by lia.
    + intros (? & ? & [= <- <-] & _ & _ & ->). by replace (i - i + 1) with 1 by lia.
Qed.

Lemma parse_items_exact count l indices :
  map_result (parse_item count) l = Ok indices ->
  Forall (good_item count) l /\ Forall (fun j => 0 <= j) (concat indices) /\ forall i, i ∈ concat indices <-> exists item, item ∈ l /\ names item i.
Proof.
  revert indices. induction l as [|item l IH]; intros indices; cbn [map_result].
  { intros [= <-]. split_and!; [constructor|constructor|]. intros i. cbn. rewrite elem_of_nil. split; [done|]. by intros (? & ?%not_elem_of_nil & _). }
  destruct (parse_item count item) as [k|e] eqn:Ek; [|done]. cbn [mbind result_bind].
  destruct (map_result (parse_item count) l) as [ks|e]; [|done]. intros [= <-]. destruct (IH ks eq_refl) as (F & P & E).
  apply parse_item_exact in Ek as (first & last & Hr & Hle & Hc & ->). cbn [concat]. split_and!.
  - constructor; [|done]. exists first, last. split; [done|lia].
  - apply Forall_app. split; [|done]. apply Forall_forall. intros j Hj%elem_of_seqZ. lia.
  - intros i. rewrite elem_of_app, elem_of_seqZ, E. split.
    + intros [Hi|(x & Hx & Hn)]; [exists item; split; [left|]; exists first, last; split; [done|lia]|exists x; split; [by right|done]].
    + intros (x & [->|Hx]%elem_of_cons & Hn); [|right; by exists x]. left. destruct Hn as (f & t & Hr' & Hi). rewrite Hr in Hr'. injection Hr' as <- <-. lia.
Qed.

Lemma parse_items_complete count l : Forall (good_item count) l ->
  (forall item first last, item_range item = Some (first, last) -> 0 <= first) -> exists indices, map_result (parse_item count) l = Ok indices.
Proof.
  intros Hl Hpos. induction Hl as [|item l (first & last & Hr & Hle & Hlt) _ (ks & IH)]; cbn [map_result]; [by eexists|].
  pose proof (Hpos _ _ _ Hr). rewrite (proj2 (parse_item_exact count item (seqZ first (last - first + 1)))) by (exists first, last; split_and!; try done; lia).
  cbn [mbind result_bind]. rewrite IH. by eexists.
Qed.

Lemma item_range_pos item first last : item_range item = Some (first, last) -> 0 <= first.
Proof.
  assert (forall text n, parse_unsigned U32_MAX text = Some n -> 0 <= n) as Hpos.
  { intros text n. unfold parse_unsigned. destruct (_ || _); [done|]. rewrite try_from_Some. lia. }
  unfold item_range. destruct (split_once 45 item) as [[a b]|].
  - destruct (parse_unsigned U32_MAX a) as [x|] eqn:Ex; [|done]. destruct (parse_unsigned U32_MAX b); [|done]. intros [= <- <-]. by eapply Hpos.
  - destruct (parse_unsigned U32_MAX item) as [x|] eqn:Ex; [|done]. intros [= <- <-]. by eapply Hpos.
Qed.

(** The whole file is offered. *)
Definition whole (spec : option (list Z)) : bool :=
  match spec with None => true | Some spec => eq_ignore_ascii_case spec (str "all") end.
Definition offered (spec : option (list Z)) (i : Z) : Prop :=
  whole spec = true \/ exists item, item ∈ items (default [] spec) /\ names item i.

(** The list of chunks to offer is read exactly.  It is accepted if and only if it is
    absent, the word "all", or a list of items, each an index or an ascending range within
    the file, at least one of them unless the file is empty; the bitfield it gives is valid
    and contains exactly the chunks the items name. *)
Theorem parse_availability_exact (spec : option (list Z)) (count : Z) : 0 <= count ->
  (is_ok (parse_availability spec count) = true <->
     count <= U32_MAX
     /\ (whole spec = true \/ (Forall (good_item count) (items (default [] spec)) /\ (items (default [] spec) <> [] \/ count = 0))))
  /\ forall a, parse_availability spec count = Ok a ->
       is_valid a = true /\ chunk_count a = count
       /\ forall i, 0 <= i -> (contains a i = true <-> i < count /\ offered spec i).
Proof.
  intros Hc. unfold parse_availability. destruct (try_from U32_MAX count) as [n|] eqn:En; cbn [ok_or mbind result_bind].
  2:{ apply try_from_None in En. split; [|done]. cbn. split; [done|lia]. }
  apply try_from_Some in En as [<- Hcount].
  assert (forall a, Ok (availability_all count) = Ok (E := EntryError) a -> whole spec = true ->
    is_valid a = true /\ chunk_count a = count /\ forall i, 0 <= i -> (contains a i = true <-> i < count /\ offered spec i)) as Hall.
  { intros a [= <-] Hw. destruct (availability_constructors_exact count [] Hcount ltac:(constructor)) as (_ & Hv & Hi).
    split_and!; [done|apply availability_all_facts; lia|]. intros i Hi0. rewrite (proj2 (Hi i Hi0)). unfold offered. naive_solver. }
  destruct spec as [spec|]; cbn [whole default from_option] in *; unfold id in *.
  2:{ split; [|intros a Ha; by apply Hall]. cbn. split; [intros _; split; [lia|by left]|done]. }
  destruct (eq_ignore_ascii_case spec (str "all")) eqn:Ew.
  { split; [|intros a Ha; by apply Hall]. cbn. split; [intros _; split; [lia|by left]|done]. }
  destruct (map_result (parse_item count) (items spec)) as [indices|e] eqn:Em; cbn [mbind result_bind].
  - destruct (parse_items_exact _ _ _ Em) as (F & P & E).
    assert (concat indices = [] <-> items spec = []) as Hempty.
    { split; [|intros Hn; rewrite Hn in Em; by injection Em as <-]. intros Hn. destruct (items spec) as [|item l]; [done|].
      apply Forall_cons_iff in F as [(first & last & Hr & Hle) _]. assert (first ∈ concat indices) as Hin.
      { apply E. exists item. split; [left|]. exists first, last. split; [done|lia]. } rewrite Hn in Hin. by apply not_elem_of_nil in Hin. }
    case_bool_decide as Hn; cbn [andb].
    + destruct (Z.gtb_spec count 0); split; try done.
      * cbn. split; [done|]. intros (_ & [?|(_ & [?|?])]); [done| |lia]. by destruct (proj1 Hempty Hn).
      * cbn. split; [intros _; split; [lia|right; split; [done|right; lia]]|done].
      * intros a [= <-]. destruct (availability_constructors_exact count (concat indices) Hcount P) as (Hv & _ & Hi).
        split_and!; [done|done|]. intros i Hi0. rewrite (proj1 (Hi i Hi0)), E. unfold offered. cbn [whole]. rewrite Ew. naive_solver.
    + split.
      * cbn. split; [intros _; split; [lia|right; split; [done|left; by rewrite <- Hempty]]|done].
      * intros a [= <-]. destruct (availability_constructors_exact count (concat indices) Hcount P) as (Hv & _ & Hi).
        split_and!; [done|done|]. intros i Hi0. rewrite (proj1 (Hi i Hi0)), E. unfold offered. cbn [whole]. rewrite Ew. naive_solver.
  - split; [|done]. cbn. split; [done|]. intros (_ & [?|(F & _)]); [done|].
    destruct (parse_items_complete count (items spec) F item_range_pos) as [k Hk]. by rewrite Em in Hk.
Qed.

(** ** Fetching *)

Section Fetching.
Context `{Blake3} `{PostcardLaws}.

(** The lengths that arrive are unsigned. *)
Definition link_typed (l : Link) : Prop :=
  match l with
  | Established c => Forall (fun m => match m with SwarmManifest m _ => 0 <= m_length m | _ => True end) (Transfer.incoming c)
  | _ => True
  end.

Lemma open_session_manifest content_id c c' m a : open_swarm_session content_id c = (c', Ok (m, a)) ->
  exists rest, Transfer.incoming c = SwarmManifest m a :: rest.
Proof.
  intros E. unfold open_swarm_session in E. apply st_ok_inv in E as (c1 & u & Hs & E). apply st_ok_inv in E as (c2 & answer & Hr & E).
  assert (Transfer.incoming c1 = Transfer.incoming c) as Hi by (by apply send_cases in Hs as [-> _]).
  unfold Transfer.receive in Hr. rewrite Hi in Hr. destruct (Transfer.incoming c) as [|x rest]; [done|]. injection Hr as <- <-.
  apply st_ok_inv in E as (c3 & [m' a'] & E1 & E). apply st_ok_inv in E as (c4 & u' & _ & E).
  injection E as _ <- <-. destruct x; try done. injection E1 as _ <- <-. by eexists.
Qed.

Lemma connected_ok assignment content_id link p :
  link_typed link -> connect_swarm_provider assignment content_id link = Ok p ->
  0 <= m_length (cp_manifest p) /\ m_content_id (cp_manifest p) = content_id /\ is_valid (cp_availability p) = true.
Proof.
  unfold connect_swarm_provider. intros Ht. destruct (parse_socket_addr _); [|done]. destruct link as [| |c]; [done|done|].
  destruct (open_swarm_session content_id c) as [c' [[m a]|e]] eqn:E; [|done]. cbn [snd]. intros [= <-]. cbn [cp_manifest cp_availability].
  unfold open_swarm_session in E. apply st_ok_inv in E as (c1 & u & Hs & E). apply st_ok_inv in E as (c2 & answer & Hr & E).
  assert (Transfer.incoming c1 = Transfer.incoming c) as Hi by (by apply send_cases in Hs as [-> _]).
  unfold Transfer.receive in Hr. rewrite Hi in Hr. cbn [link_typed] in Ht. destruct (Transfer.incoming c) as [|x rest]; [done|]. injection Hr as <- <-.
  apply Forall_cons_iff in Ht as [Hx _]. apply st_ok_inv in E as (c3 & [m' a'] & E1 & E). apply st_ok_inv in E as (c4 & u' & E2 & E).
  injection E as _ <- <-. destruct x; try done. injection E1 as _ <- <-. injection E2 as _ E2. unfold validate_swarm_manifest in E2.
  destruct (bool_decide (m_content_id _ = content_id)) eqn:B1; [|done]. apply bool_decide_eq_true in B1.
  cbn [negb] in E2. destruct (negb (bool_decide (try_from USIZE_MAX (m_chunk_size _) = _))); [done|].
  destruct (negb (bool_decide (try_from USIZE_MAX (div_ceil _ _) = _))); [done|].
  destruct (is_valid availability) eqn:B2; [by split_and!|]. cbn [negb] in E2. by rewrite orb_true_r in E2.
Qed.

(** A relay that an assignment names and that could not be reached. *)
Definition unreachable_relay (routes : list RouteAssignment) (links : list Link) (id : list Z) : Prop :=
  exists i assignment, routes !! i = Some assignment /\ relay_id assignment = id
    /\ default Unreachable (links !! i) = Unreachable.

Lemma connect_all_ok content_id routes links last_error : Forall link_typed links ->
  let '(providers, reported, _) := connect_all content_id routes links last_error in
  Forall (fun p => 0 <= m_length (cp_manifest p)) providers /\ Forall (unreachable_relay routes links) reported
  /\ (length providers <= length routes)%nat.
Proof.
  revert links last_error. induction routes as [|assignment routes IH]; intros links last_error Hl; cbn [connect_all]; [by split_and!; [constructor|constructor|]|].
  assert (Forall link_typed (tail links)) as Htl by (destruct Hl; [constructor|done]).
  assert (forall l, Forall (unreachable_relay routes (tail links)) l -> Forall (unreachable_relay (assignment :: routes) links) l) as Hshift.
  { intros l Hf. eapply Forall_impl; [exact Hf|]. intros id (i & a & Hi & Hr & Hu). exists (S i), a. split_and!; [done|done|]. by destruct links. }
  destruct (connect_swarm_provider assignment content_id (default Unreachable (head links))) as [p|failure] eqn:E.
  - specialize (IH (tail links) last_error Htl). destruct (connect_all content_id routes (tail links) last_error) as [[providers reported] e].
    destruct IH as (F1 & F2 & F3). split_and!; [constructor; [|done]|by apply Hshift|cbn; lia].
    eapply connected_ok; [|exact E]. destruct Hl; done.
  - specialize (IH (tail links) (Some (cf_error failure)) Htl).
    destruct (connect_all content_id routes (tail links) (Some (cf_error failure))) as [[providers reported] e].
    destruct IH as (F1 & F2 & F3). split_and!; [done| |cbn; lia]. destruct (relay_unreachable failure) eqn:Er; [|by apply Hshift].
    constructor; [|by apply Hshift]. exists 0%nat, assignment. split_and!; [done|done|]. unfold connect_swarm_provider in E.
    destruct links as [|[| |c] links]; try done; cbn [head lookup list_lookup default from_option] in E |- *; unfold id in E;
      destruct (parse_socket_addr _); try (injection E as <-; done). destruct (open_swarm_session content_id c).2 as [[m a]|e']; [done|].
    by injection E as <-.
Qed.

(** The output of a fetch. *)
Definition fetched (content_id : ContentId) (output : list Z) (w : World) : Prop :=
  exists content, files w !! output = Some content /\ blake3_hash content = content_id.

Definition fetch_safe (content_id : ContentId) (output : list Z) (w w' : World) (r : option (result EntryError TransferStats)) : Prop :=
  (forall stats, r = Some (Ok stats) ->
     fetched content_id output w' /\ files w' !! part_of output = None /\ files w' !! state_of output = None)
  /\ ((forall stats, r <> Some (Ok stats)) -> files w' !! output = files w !! output \/ fetched content_id output w'
        \/ (files w' !! output = None /\ 2 <= fault_count w)).

Lemma fetch_untouched content_id output w r : (forall stats, r <> Some (Ok stats)) -> fetch_safe content_id output w w r.
Proof. intros Hr. split; [intros stats ->; by destruct (Hr stats)|]. intros _. by left. Qed.

Lemma receive_providers_ok first others content_id output rounds w :
  0 <= m_length (cp_manifest first) ->
  let '(w', r) := receive_providers first others content_id output rounds w in fetch_safe content_id output w w' r.
Proof.
  intros Hm. unfold receive_providers. destruct (receive_swarm _ _ _ _ _ _) as [w' r] eqn:E.
  destruct (receive_swarm_cases (cp_manifest first, cp_availability first) _ _ _ _ _ _ _ Hm E) as [Hgood Hbad].
  assert (forall e, files w' !! output = files w !! output \/ fetched content_id output w' \/ (files w' !! output = None /\ 2 <= fault_count w) ->
    fetch_safe content_id output w w' (Some (Err e))) as Herr by (intros e Hb; by split).
  destruct r as [[s|e]|].
  - destruct (Hgood s eq_refl) as ((content & Hc & Hd & _) & Hp & Hs). split; [|intros Hno; by destruct (Hno _ eq_refl)].
    intros stats _. split_and!; [by exists content|done|done].
  - apply Herr. destruct (Hbad ltac:(done)) as [?|[(content & ? & ? & _)|?]]; [by left|right; left; by exists content|by right; right].
  - split; [done|]. intros _. destruct (Hbad ltac:(done)) as [?|[(content & ? & ? & _)|?]]; [by left|right; left; by exists content|by right; right].
Qed.

(** Where the relays come from that are reported. *)
Definition reported_ok (attempts : list Attempt) (id : list Z) : Prop :=
  exists attempt routes, attempt ∈ attempts /\ at_routes attempt = Ok routes /\ unreachable_relay routes (at_links attempt) id.

Lemma fetch_loop_ok n content_id output rounds attempts last_error w :
  Forall (fun a => Forall link_typed (at_links a)) attempts ->
  let '(w', reported, r) := fetch_loop n content_id output attempts rounds last_error w in
  fetch_safe content_id output w w' r /\ Forall (reported_ok attempts) reported.
Proof.
  intros Ha. revert attempts last_error Ha. induction n as [|n IH]; intros attempts last_error Ha; cbn [fetch_loop].
  { split; [by apply fetch_untouched|constructor]. }
  destruct attempts as [|attempt attempts]; [split; [by apply fetch_untouched|constructor]|]. apply Forall_cons_iff in Ha as [Hl Ha].
  destruct (negb (at_continue attempt)); [split; [by apply fetch_untouched|constructor]|].
  destruct (at_routes attempt) as [routes|e] eqn:Er; [|split; [by apply fetch_untouched|constructor]].
  pose proof (connect_all_ok content_id routes (at_links attempt) last_error Hl) as Hc.
  destruct (connect_all content_id routes (at_links attempt) last_error) as [[providers reported] error]. destruct Hc as (Hp & Hr & _).
  assert (Forall (reported_ok (attempt :: attempts)) reported) as Hr'.
  { eapply Forall_impl; [exact Hr|]. intros id Hid. exists attempt, routes. split_and!; [left|done|done]. }
  destruct providers as [|first others].
  - specialize (IH attempts error Ha). destruct (fetch_loop n content_id output attempts rounds error w) as [[w' more] r].
    destruct IH as [Hs Hm]. split; [done|]. apply Forall_app. split; [done|]. eapply Forall_impl; [exact Hm|].
    intros id (a & rts & Hin & Hrest). exists a, rts. split; [by right|done].
  - apply Forall_cons_iff in Hp as [Hf _]. pose proof (receive_providers_ok first others content_id output rounds w Hf) as Hs.
    by destruct (receive_providers first others content_id output rounds w) as [w' r].
Qed.

(** Attempts that find no provider. *)
Definition fruitless (content_id : ContentId) (attempt : Attempt) : Prop :=
  at_continue attempt = true /\ exists routes, at_routes attempt = Ok routes
    /\ forall e, (connect_all content_id routes (at_links attempt) e).1.1 = [].

Lemma fetch_gives_up n content_id output rounds attempts last_error w :
  (n <= length attempts)%nat -> Forall (fruitless content_id) attempts ->
  exists reported e, fetch_loop n content_id output attempts rounds last_error w = (w, reported, Some (Err e))
    /\ (e = NotDiscoverable \/ exists e', e = RoutesFailed e').
Proof.
  revert attempts last_error. induction n as [|n IH]; intros attempts last_error Hn Hf; cbn [fetch_loop].
  { eexists _, _. split; [reflexivity|]. destruct last_error; [right; by eexists|by left]. }
  destruct Hf as [|attempt attempts (Hc & routes & Hr & Hnone) Hf]; [cbn in Hn; lia|]. rewrite Hc, Hr. cbn [negb]. specialize (Hnone last_error).
  destruct (connect_all content_id routes (at_links attempt) last_error) as [[providers reported] error]. cbn [fst] in Hnone. subst providers.
  destruct (IH attempts error ltac:(cbn in Hn; lia) Hf) as (more & e & -> & He). by eexists _, _.
Qed.

(** The file beside the output. *)
Definition temporary_of (output : list Z) : list Z := with_extension output (str "triptorrent-part").

Lemma store_output_cases temporary output bytes w w' r : store_output temporary output bytes w = (w', r) ->
  (is_ok r = true -> files w' !! output = Some bytes)
  /\ (is_ok r = false -> temporary <> output -> files w' !! output = files w !! output)
  /\ forall path, path <> temporary -> path <> output -> files w' !! path = files w !! path.
Proof.
  unfold store_output, mbind, st_bind, fs_write, fs_rename, primitive, no_effect.
  assert (forall rest1, (let '(w1, r1) := match rest1 with
      | Some _ :: rest => (mkWorld (<[temporary := bytes]> (files w)) rest, Err IoFailed)
      | _ :: rest => (mkWorld (<[output := bytes]> (delete temporary (<[temporary := bytes]> (files w)))) rest, Ok tt)
      | [] => (mkWorld (<[output := bytes]> (delete temporary (<[temporary := bytes]> (files w)))) [], Ok tt)
      end in (w1, r1)) = (w', r) ->
    (is_ok r = true -> files w' !! output = Some bytes) /\ (is_ok r = false -> temporary <> output -> files w' !! output = files w !! output)
    /\ forall path, path <> temporary -> path <> output -> files w' !! path = files w !! path) as Hsecond.
  { intros [|[k|] rest]; intros [= <- <-]; cbn [files is_ok]; split_and!; intros; try done; simplify_map_eq; done. }
  destruct (faults w) as [|[k|] rest]; cbn [files faults].
  - rewrite lookup_insert_eq. apply (Hsecond []).
  - intros [= <- <-]. cbn [files is_ok]. destruct (k <? 0); split_and!; intros; try done; by rewrite lookup_insert_ne.
  - rewrite lookup_insert_eq. intros E. apply (Hsecond rest). by destruct rest as [|[k|] rest].
Qed.

Lemma manual_fetch_cases (link : Link) (content_id : ContentId) (output : list Z) (w w' : World) (r : result EntryError unit) :
  fetch_file link content_id output w = (w', r) ->
  (is_ok r = true -> fetched content_id output w')
  /\ (is_ok r = false -> temporary_of output <> output -> files w' !! output = files w !! output)
  /\ forall path, path <> temporary_of output -> path <> output -> files w' !! path = files w !! path.
Proof.
  unfold fetch_file. destruct link as [| |c]; [by intros [= <- <-]..|]. unfold mbind at 1, st_bind at 1, talk, lift.
  destruct (receive_content content_id c) as [c' [bytes|e]] eqn:Er; cbn [snd map_err]; [|by intros [= <- <-]].
  apply receive_content_digest in Er. unfold disk. destruct (store_output _ output bytes w) as [w1 r1] eqn:Es. intros [= <- <-].
  destruct (store_output_cases _ _ _ _ _ _ Es) as (Hgood & Hbad & Hrest). split_and!; [|by destruct r1; intros; apply Hbad|done].
  intros Hok. exists bytes. split; [|done]. apply Hgood. by destruct r1.
Qed.

(** A fetch over a given relay.  It succeeds only with the bytes of the requested
    identifier in the output.  When it fails the output is as before, provided that its name
    does not end in the extension of the temporary file, and no other file than these two
    is ever touched, whatever the sender sends and whatever operation on files fails. *)
Theorem manual_fetch_atomic (link : Link) (content_id : ContentId) (output : list Z) (w w' : World) (r : result EntryError unit) :
  fetch_file link content_id output w = (w', r) ->
  (is_ok r = true -> fetched content_id output w')
  /\ (is_ok r = false -> temporary_of output <> output -> files w' !! output = files w !! output)
  /\ forall path, path <> temporary_of output -> path <> output -> files w' !! path = files w !! path.
Proof. apply manual_fetch_cases. Qed.

(** C1: a fetch through the overlay.  Whatever the bootstrap service, the relays and the
    providers do and whatever operation on files fails, a fetch succeeds only with bytes of
    the requested identifier in the output and its temporary files removed; until then the
    output is as before, up to two faults around the final rename.  Relays are reported as
    failed only when they could not be reached on a route the bootstrap service offered.
    After six hundred attempts without a provider the fetch gives up and has touched no
    file. *)
Theorem fetch_overlay_safe (content_id : ContentId) (output : list Z) (attempts : list Attempt) (rounds : list Round) (w : World) :
  Forall (fun a => Forall link_typed (at_links a)) attempts ->
  let '(w', reported, r) := fetch_file_via_overlay_with_monitor content_id output attempts rounds w in
  fetch_safe content_id output w w' r /\ Forall (reported_ok attempts) reported
  /\ ((600 <= length attempts)%nat -> Forall (fruitless content_id) attempts ->
        w' = w /\ exists e, r = Some (Err e) /\ (e = NotDiscoverable \/ exists e', e = RoutesFailed e')).
Proof.
  intros Ha. unfold fetch_file_via_overlay_with_monitor. pose proof (fetch_loop_ok FETCH_MAX_DISCOVERY_ATTEMPTS content_id output rounds attempts None w Ha) as Hok.
  pose proof (fetch_gives_up FETCH_MAX_DISCOVERY_ATTEMPTS content_id output rounds attempts None w) as Hg.
  destruct (fetch_loop FETCH_MAX_DISCOVERY_ATTEMPTS content_id output attempts rounds None w) as [[w' reported] r]. destruct Hok as [Hs Hr].
  split_and!; [done|done|]. intros Hn Hf. destruct (Hg Hn Hf) as (reported' & e & [= <- _ ->] & He). split; [done|]. by exists e.
Qed.
End Fetching.

(** ** Workers *)

Section Workers.
Context `{Blake3}.

(** The chunks a list of commands asks for before its end. *)
Fixpoint requested (commands : list WorkerCommand) : list Z :=
  match commands with
  | WorkerFetch index _ :: commands => index :: requested commands
  | _ => []
  end.

Lemma worker_fetch_sent i c : exists last, sent (worker_fetch i c).1 = sent c ++ last /\ (last = [] \/ last = [ChunkRequest i])
  /\ (is_ok (worker_fetch i c).2 = true -> last = [ChunkRequest i]).
Proof.
  unfold worker_fetch. destruct (Transfer.send (ChunkRequest i) c) as [c1 [[]|e]] eqn:Es.
  - assert (sent c1 = sent c ++ [ChunkRequest i]) as Hc by (by apply send_cases in Es as [_ ?]).
    rewrite (st_bind_Ok _ _ _ _ tt Es). exists [ChunkRequest i]. split_and!; [|by right|done]. unfold mbind, st_bind, Transfer.receive.
    destruct (Transfer.incoming c1) as [|x rest]; [done|]. destruct x; try done. by destruct (_ =? _).
  - assert (sent c1 = sent c) as Hc by (by apply send_cases in Es as [_ ?]).
    unfold mbind, st_bind. rewrite Es. exists []. rewrite app_nil_r. by split_and!; [|left|].
Qed.

(** A worker answers the commands in order, once each, and stops at the first failure: every
    result but the last is a chunk, and only requests for chunks it was told to fetch are
    sent, with [SwarmComplete] only when it is told to finish. *)
Lemma worker_in_order (slot : Z) (commands : list WorkerCommand) (c : Channel) :
  let '(c', results) := worker_loop slot true commands c in
  exists done tail, map wr_requested_index results ++ tail = requested commands
    /\ Forall (fun r => wr_provider r = slot) results
    /\ (forall before r after, results = before ++ r :: after -> after <> [] -> is_ok (wr_response r) = true)
    /\ sent c' = sent c ++ done /\ Forall (fun m => m = SwarmComplete \/ exists i, i ∈ requested commands /\ m = ChunkRequest i) done
    /\ (SwarmComplete ∈ done -> WorkerFinish ∈ commands).
Proof.
  revert c. induction commands as [|[index expected|] commands IH]; intros c; cbn [worker_loop requested].
  - exists [], []. split_and!; try done; try (by constructor); try (by rewrite app_nil_r); try (by intros [] ? ? ?). by intros ?%not_elem_of_nil.
  - destruct (worker_fetch_sent index c) as (last & Hs & Hl & Hok). destruct (worker_fetch index c) as [c1 response]. cbn [fst snd negb orb] in *.
    assert (Forall (fun m => m = SwarmComplete \/ exists i, i ∈ index :: requested commands /\ m = ChunkRequest i) last
      /\ SwarmComplete ∉ last) as [Hlast Hnot].
    { destruct Hl as [-> | ->]; split; try constructor; try (by apply not_elem_of_nil); [right; exists index; split; [left|done]|constructor|].
      rewrite list_elem_of_singleton. done. }
    destruct (is_ok response) eqn:Er; cbn [negb].
    + specialize (IH c1). destruct (worker_loop slot true commands c1) as [c2 results]. destruct IH as (done_ & tail & Hr & Hp & Hbut & Hs2 & Hd & Hf).
      exists (last ++ done_), tail. cbn [map wr_requested_index app]. split_and!.
      * by rewrite Hr.
      * by constructor.
      * intros [|b before] r after Heq Hne; injection Heq as <- Heq; [done|]. by eapply Hbut.
      * by rewrite Hs2, Hs, app_assoc.
      * apply Forall_app. split; [done|]. eapply Forall_impl; [exact Hd|]. intros m [->|(i & Hi & ->)]; [by left|right; exists i; split; [by right|done]].
      * intros [?|Hin]%elem_of_app; [done|]. right. by apply Hf.
    + exists last, (requested commands). split_and!; try done; try (by apply List.Forall_cons; [|apply List.Forall_nil]).
      intros [|b before] r after Heq Hne; [by injection Heq as <- <-|]. injection Heq as _ Heq. by destruct before.
  - exists (drop (length (sent c)) (sent (Transfer.send SwarmComplete c).1)), []. rewrite send_deliver by (by apply encodable_small). unfold Transfer.deliver.
    destruct (send_fails c) as [|[|] ?]; cbn [fst sent]; rewrite ?drop_app_length, ?drop_all; split_and!; try done; try constructor; try by intros [] ? ? ?.
    all: try (by rewrite app_nil_r). all: try (by left). all: try (intros _; left). all: try constructor.
Qed.
End Workers.

(** ** Sharing *)

Section Sharing.
Context `{Blake3} `{Postcard}.

(** A turn that ended at a relay the sharer could not reach. *)
Definition skipped (turn : Turn) (relay : list Z) : Prop :=
  t_running turn = true /\ t_link turn = Unreachable
  /\ exists before answer after idle assignment, t_polls turn = before ++ answer :: after /\ p_answer answer = Ok (Some assignment)
       /\ relay_id assignment = relay /\ (poll_until_assignment (t_polls turn) idle).1 = Some (Ok assignment).

Lemma poll_assigned polls idle assignment idle' : poll_until_assignment polls idle = (Some (Ok assignment), idle') ->
  exists before answer after, polls = before ++ answer :: after /\ p_answer answer = Ok (Some assignment)
    /\ Forall (fun p => p_running p = true /\ p_answer p = Ok None) before /\ p_running answer = true.
Proof.
  revert idle. induction polls as [|p polls IH]; intros idle; cbn [poll_until_assignment]; [done|].
  destruct (p_running p) eqn:Er; [|done]. cbn [negb]. destruct (p_answer p) as [[a|]|e] eqn:Ea; [| |done].
  - intros [= <- _]. exists [], p, polls. by split_and!.
  - intros (before & answer & after & -> & Ha & Hb & Hr)%IH. exists (p :: before), answer, after. by split_and!; [| |constructor|].
Qed.

Lemma share_loop_ok content turns idle reported reported' id :
  share_loop content turns idle reported = (reported', Some (Ok id)) ->
  id = m_content_id (pc_manifest content)
  /\ exists before turn after relays c, turns = before ++ turn :: after /\ Forall2 skipped before relays
       /\ reported' = reported ++ relays /\ t_running turn = true /\ t_link turn = Established c
       /\ (serve_swarm_session content (t_flags turn) c).2 = Ok tt.
Proof.
  revert idle reported. induction turns as [|turn turns IH]; intros idle reported; cbn [share_loop]; [done|].
  destruct (t_running turn) eqn:Er; [|done]. cbn [negb]. destruct (poll_until_assignment (t_polls turn) idle) as [[[assignment|e]|] idle'] eqn:Ep; [|done|done].
  destruct (parse_socket_addr _); [|done]. destruct (t_link turn) as [| |c] eqn:El; [|done|].
  - intros (Hid & before & turn' & after & relays & c & -> & Hs & -> & Hrest)%IH. split; [done|].
    exists (turn :: before), turn', after, (relay_id assignment :: relays), c. rewrite <- app_assoc. split_and!; try done; try apply Hrest.
    constructor; [|done]. split_and!; [done|done|]. destruct (poll_assigned _ _ _ _ Ep) as (b & answer & a & Hpolls & Ha & _).
    exists b, answer, a, idle, assignment. split_and!; [done|done|done|]. by rewrite Ep.
  - destruct (serve_swarm_session content (t_flags turn) c) as [c' [[]|e]] eqn:Es; [|done]. intros [= <- <-]. split; [done|].
    exists [], turn, turns, [], c. rewrite app_nil_r. split_and!; try done. by rewrite Es.
Qed.

(** Sharing reads one file and changes none. *)
Lemma share_keeps_files path options corrupt keypair register turns w :
  files (share_file_via_overlay_with_control path options corrupt keypair register turns w).1 = files w.
Proof.
  unfold share_file_via_overlay_with_control, load_content, disk, lift, mbind, st_bind.
  assert (files (fs_read path w).1 = files w) as Hf by (unfold fs_read, primitive; by destruct (faults w) as [|[k|] rest]).
  destruct (fs_read path w) as [w1 [bytes|e]]; cbn [fst map_err] in *; [|done].
  destruct (Manifest_from_bytes bytes) as [[m cs]|e]; cbn [map_err]; [|done].
  destruct (parse_availability _ _); [|done]. destruct (test_corrupt_chunks _ _); [|done]. destruct keypair; [|done]. cbn [ok_or].
  by destruct (register _).
Qed.

(** A file is shared to the end of a session.  When sharing through the overlay returns
    an identifier, it is that of the file, whose manifest and chunks, with the offered
    availability, were served in a session to its end; before it every turn ended at a relay
    that could not be reached, and exactly those relays were reported, in order; the
    sharer changed no file. *)
Theorem share_overlay_exact (path : list Z) (options : ShareOptions) (corrupt keypair : option (list Z))
  (register : PeerAdvertisement -> result OverlayError Z) (turns : list Turn) (w w' : World) (reported : list (list Z)) (id : ContentId) :
  share_file_via_overlay_with_control path options corrupt keypair register turns w = (w', (reported, Some (Ok id))) ->
  files w' = files w
  /\ exists bytes m chunks availability marks, files w !! path = Some bytes /\ Manifest_from_bytes bytes = Ok (m, chunks)
       /\ id = m_content_id m /\ parse_availability (so_availability options) (len chunks) = Ok availability
       /\ exists before turn after c, turns = before ++ turn :: after /\ Forall2 skipped before reported
            /\ t_running turn = true /\ t_link turn = Established c
            /\ (serve_swarm_session (mkProviderContent m chunks availability marks) (t_flags turn) c).2 = Ok tt.
Proof.
  unfold share_file_via_overlay_with_control. match goal with |- context [match ?p with (_, _) => _ end] => destruct p as [w1 [content|e]] eqn:E end; [|done].
  intros Hs. injection Hs as <- Hs. apply st_ok_inv in E as (w2 & [m chunks] & E1 & E). apply st_ok_inv in E as (w3 & av & [= <- E2] & E).
  apply st_ok_inv in E as (w4 & marks & [= <- E3] & E). apply st_ok_inv in E as (w5 & key & [= <- E4] & E). apply st_ok_inv in E as (w6 & lease & [= <- E5] & E).
  injection E as -> <-. apply st_ok_inv in E1 as (w7 & bytes & E1 & [= <- E6]). apply map_err_Ok in E6.
  assert (files w7 = files w /\ files w !! path = Some bytes) as [Hf Hb].
  { unfold disk in E1. destruct (fs_read path w) as [w8 r] eqn:Er. injection E1 as <- E1. apply map_err_Ok in E1. subst r.
    unfold fs_read, primitive in Er. destruct (faults w) as [|[k|] rest]; [|done|]; injection Er as <- Er; by apply ok_or_Ok in Er. }
  split; [done|]. apply share_loop_ok in Hs as (Hid & before & turn & after & relays & c & Ht & Hsk & Hrep & Hr & Hl & Hok). cbn [app] in Hrep. subst reported.
  exists bytes, m, chunks, av, marks. split_and!; try done. exists before, turn, after, c. by split_and!.
Qed.
End Sharing.

(** ** The engine's statistics *)

Section Engine.
Context `{Hex}.

(** What the scheduler counted for a slot. *)
Definition slot_count (f : ProviderStats -> Z) (s : Scheduler) (slot : Z) : Z :=
  match provider_stats s slot with Some stats => f stats | None => 0 end.

Lemma by_slot_entries (f : ProviderStats -> Z) s (peers : list PeerId) start :
  map (fun '((slot, peer) : Z * PeerId) => (peer, match provider_stats s slot with Some stats => f stats | None => 0 end)) (enumerate_from start peers)
  = imap (fun i (peer : PeerId) => (peer, slot_count f s (start + Z.of_nat i))) peers.
Proof.
  revert start. induction peers as [|peer peers IH]; intros start; [done|]. cbn [enumerate_from map imap]. f_equal; [by rewrite Z.add_0_r|].
  rewrite IH. apply imap_ext. intros i x _. cbn. do 2 f_equal. lia.
Qed.

Lemma find_entry (l : list (PeerId * Z)) provider n : NoDup (map fst l) -> (provider, n) ∈ l ->
  List.find (fun e => bool_decide (e.1 = provider)) l = Some (provider, n).
Proof.
  induction l as [|[p k] l IH]; intros Hn Hin; [by apply not_elem_of_nil in Hin|]. cbn [List.find fst]. cbn [map fst] in Hn. apply NoDup_cons in Hn as [Hp Hn].
  apply elem_of_cons in Hin as [[= -> ->]|Hin]; [by rewrite bool_decide_eq_true_2|]. rewrite bool_decide_eq_false_2; [by apply IH|].
  intros ->. apply Hp. apply list_elem_of_fmap. by exists (provider, n).
Qed.

(** The statistics the node stores for a finished download add up.  With distinct
    providers, the contribution of the provider of a slot has exactly the counts of the
    scheduler for that slot, accepted and rejected, and the total of rejected requests is the
    number the progress reports counted. *)
Theorem engine_stats_exact (peers : list PeerId) (s : Scheduler) (resumed : Z) : NoDup peers ->
  let stats := engine_stats (transfer_stats peers s resumed) in
  fs_provider_contributions stats
  = imap (fun i peer => mkContribution (PeerId_to_string peer) (slot_count stats_accepted s (Z.of_nat i)) (slot_count stats_rejected s (Z.of_nat i))) peers
  /\ fs_rejected_chunks stats = rejected_requests s (len peers)
  /\ fs_retry_count stats = retries s /\ fs_resumed_chunks stats = resumed.
Proof.
  intros Hn. cbv zeta. unfold engine_stats, transfer_stats.
  cbn [accepted_by_provider rejected_by_provider ts_retries ts_resumed_chunks fs_provider_contributions fs_rejected_chunks fs_retry_count fs_resumed_chunks].
  unfold enumerate. rewrite !by_slot_entries. set (rejected := imap (fun i (peer : PeerId) => (peer, slot_count stats_rejected s (0 + Z.of_nat i))) peers).
  assert (map fst rejected = peers) as Hfst.
  { unfold rejected. rewrite fmap_imap. clear. generalize 0 at 1. intros z. apply list_eq. intros i. rewrite list_lookup_imap. by destruct (peers !! i). }
  split_and!; try done.
  - apply list_eq. intros i. rewrite list_lookup_fmap, !list_lookup_imap. destruct (peers !! i) as [peer|] eqn:Ei; [|done]. cbn [fmap option_fmap option_map].
    f_equal. unfold contribution_of. cbn [rejected_by_provider]. rewrite (find_entry rejected peer (slot_count stats_rejected s (0 + Z.of_nat i))); [done|by rewrite Hfst|].
    apply list_elem_of_lookup. exists i. unfold rejected. by rewrite list_lookup_imap, Ei.
  - unfold rejected_requests, rejected. clear. unfold len. rewrite Nat2Z.id.
    assert (forall (start : nat), sum snd (imap (fun i peer => (peer : PeerId, slot_count stats_rejected s (Z.of_nat start + Z.of_nat i))) peers)
      = sum (fun slot => match provider_stats s (Z.of_nat slot) with Some stats => stats_rejected stats | None => 0 end) (seq start (length peers))) as Hs.
    { induction peers as [|peer peers IH]; intros start; [done|]. cbn [imap length seq]. rewrite !sum_cons. f_equal; [by cbn [snd]; rewrite Z.add_0_r|].
      rewrite <- IH. f_equal. apply imap_ext. intros i x _. cbn. do 2 f_equal. lia. }
    apply (Hs 0%nat).
Qed.
End Engine.

(** ** Examples *)

Section Examples.
Import Toy ToyPostcard.

(** Chunks 0 to 2 and 4 of a file of six. *)
Lemma parse_availability_exact_witness :
  exists a, parse_availability (Some (str "0-2,4")) 6 = Ok a /\ is_valid a = true /\ contains a 4 = true /\ contains a 3 = false
    /\ is_ok (parse_availability (Some (str "0-6")) 6) = false.
Proof.
  destruct (parse_availability (Some (str "0-2,4")) 6) as [a|e] eqn:E; [|vm_compute in E; discriminate].
  exists a. split; [reflexivity|]. split; [refine (proj1 (proj2 (parse_availability_exact (Some (str "0-2,4")) 6 _) a E)); lia|].
  vm_compute in E. injection E as <-. repeat split; vm_compute; reflexivity.
Defined.

Definition sample_route : RouteAssignment :=
  mkRouteAssignment (str "provider") (str "key") (str "relay") (str "10.0.0.1:9000") (str "route").
Definition sample_offer : Channel :=
  mkChannel [SwarmManifest sample_manifest (availability_all 1)] [] [].
(** The relay of the first attempt cannot be reached. *)
Definition sample_attempts : list Attempt :=
  [mkAttempt true (Ok [sample_route]) [Unreachable]; mkAttempt true (Ok [sample_route]) [Established sample_offer]].

Lemma fetch_overlay_safe_witness :
  let '(w', reported, r) := fetch_file_via_overlay_with_monitor (Toy.checksum (str "abc")) sample_output sample_attempts
    sample_rounds (mkWorld ∅ []) in
  fetched (Toy.checksum (str "abc")) sample_output w' /\ reported = [str "relay"].
Proof.
  pose proof (fetch_overlay_safe (Toy.checksum (str "abc")) sample_output sample_attempts sample_rounds (mkWorld ∅ [])) as Hs.
  destruct (fetch_file_via_overlay_with_monitor (Toy.checksum (str "abc")) sample_output sample_attempts sample_rounds (mkWorld ∅ []))
    as [[w' reported] r] eqn:E.
  assert ((exists stats, r = Some (Ok stats)) /\ reported = [str "relay"]) as [[stats Hr] Hrep].
  { vm_compute in E. injection E as _ <- <-. split; [by eexists|reflexivity]. }
  split; [|exact Hrep]. refine (proj1 (proj1 (proj1 (Hs _)) stats Hr)).
  repeat constructor; cbn; lia.
Defined.

(** The temporary file of one output is the partial file of another, and an output may be
    its own temporary file. *)
Example temporary_paths :
  temporary_of (str "d/a.bin") = part_of (str "d/a") /\ temporary_of (str "d/a.bin") = temporary_of (str "d/a.txt")
  /\ temporary_of (str "d/a.triptorrent-part") = str "d/a.triptorrent-part".
Proof. repeat split; vm_compute; reflexivity. Qed.

Lemma manual_fetch_atomic_witness :
  fetched (Toy.checksum (str "abc")) sample_output
    (fetch_file (Established (mkChannel [MManifest sample_manifest; MChunk sample_chunk; Complete] [] []))
      (Toy.checksum (str "abc")) sample_output (mkWorld ∅ [])).1.
Proof.
  destruct (fetch_file (Established (mkChannel [MManifest sample_manifest; MChunk sample_chunk; Complete] [] []))
    (Toy.checksum (str "abc")) sample_output (mkWorld ∅ [])) as [w' r] eqn:E.
  refine (proj1 (manual_fetch_atomic _ _ _ _ _ _ E) _). vm_compute in E. injection E as _ <-. reflexivity.
Defined.

(** A sharer that passes over a relay and serves at the next one. *)
Definition sample_request : Channel :=
  mkChannel [SwarmRequest (Toy.checksum (str "abc")); ChunkRequest 0; SwarmComplete] [] [].
Definition sample_turns : list Turn :=
  [mkTurn true [mkPoll true (Ok None); mkPoll true (Ok (Some sample_route))] Unreachable [];
   mkTurn true [mkPoll true (Ok (Some sample_route))] (Established sample_request) []].

Lemma share_overlay_exact_witness :
  exists before turn after c, sample_turns = before ++ turn :: after /\ Forall2 skipped before [str "relay"]
    /\ t_link turn = Established c
    /\ exists marks, (serve_swarm_session (mkProviderContent sample_manifest [sample_chunk] (availability_all 1) marks) (t_flags turn) c).2 = Ok tt.
Proof.
  destruct (share_file_via_overlay_with_control sample_output default_share None (Some (str "key")) (fun _ => Ok 60) sample_turns
    (mkWorld {[sample_output := str "abc"]} [])) as [w' [reported r]] eqn:E.
  assert (exists id, r = Some (Ok id) /\ reported = [str "relay"]) as (id & -> & ->) by (vm_compute in E; injection E as _ <- <-; by eexists).
  destruct (share_overlay_exact _ _ _ _ _ _ _ _ _ _ E) as (_ & bytes & m & chunks & av & marks & Hb & Hm & _ & Ha & before & turn & after & c & Ht & Hs & _ & Hl & Hok).
  vm_compute in Hb. injection Hb as <-. vm_compute in Hm. injection Hm as <- <-. vm_compute in Ha. injection Ha as <-.
  exists before, turn, after, c. split_and!; [done|done|done|]. exists marks. exact Hok.
Defined.

(** The first provider sent one good chunk and one bad one, the second none. *)
Definition sample_finished : Scheduler :=
  mkScheduler [ChunkComplete] [mkProviderState (availability_all 1) true false 1 1; mkProviderState (availability_all 1) true false 0 0] 1.

Lemma engine_stats_exact_witness :
  fs_rejected_chunks (engine_stats (transfer_stats [str "a"; str "b"] sample_finished 0)) = rejected_requests sample_finished 2
  /\ rejected_requests sample_finished 2 = 1.
Proof.
  split; [|vm_compute; reflexivity]. refine (proj1 (proj2 (engine_stats_exact [str "a"; str "b"] sample_finished 0 _))).
  apply (bool_decide_unpack _). vm_compute. exact I.
Defined.
End Examples.
