(* ===== verification/Engine.v ===== *)
(** * Engine: what the node relies on, and what the program gives it

    The node ([run_download] of crates/triptorrent-node) hands a transfer to a
    [TransferEngine] and takes the file it left.  The trait is a class whose law is what the
    node needs; the theorems on the node are proved against it, and the engine of the
    program (CliTransferEngine of crates/triptorrent-cli/src/main.rs) is an instance. *)
From stdpp Require Import base tactics list numbers option gmap.
From Stdlib Require Import ZArith Lia.
Import stdpp.list.
From S2P Require Import Prelude Bytes Text BTree Instances Core Json Availability Wire WireFacts Swarm Resume NodeConfig NodeStore NodeStoreFacts NodeImport ApiRecords NodeRuntime NodeApi NodeRuntimeFacts NodeDaemon NetAddr Overlay Transfer Download Entry EntryFacts.

Local Open Scope Z_scope.

(** ** The trait *)

(** [N] is what the network does during one call, the flags and the limits it reads
    included; [None] is a call that has not returned.  A download limit only delays. *)
Class TransferEngine (N : Type) := {
  engine_serve_once : N -> list Z -> Z -> World -> World * option (result (list Z) unit);
  engine_fetch : N -> ContentId -> list Z -> World -> World * option (result (list Z) PersistentFetchStats)
}.

Class TransferEngineLaws `{Blake3} (N : Type) `{TransferEngine N} := {
  (** what can arrive at all *)
  network_ok : N -> Prop;
  serve_keeps_files : forall n path upload_limit w, files (engine_serve_once n path upload_limit w).1 = files w;
  fetch_verified : forall n content_id output w w' stats, network_ok n ->
    engine_fetch n content_id output w = (w', Some (Ok stats)) ->
    exists bytes, files w' !! output = Some bytes /\ content_id = ContentId_digest bytes /\ len bytes <= MAX_CONTENT_LENGTH
}.

(** ** The node *)

Section Node.
Context `{Blake3Laws} `{HexLaws} `{StoreCodecLaws} {N : Type} `{!TransferEngine N}.

Definition output_of (rt : NodeRuntime) (transfer : TransferRecord) : list Z :=
  join_path (content_directory (root (store rt)) (t_content_id transfer)) (str "data").

(** [run_download], of thread [i], with the path [prepare_download] gives it; [None] while the engine has not returned *)
Definition run_download (n : N) (i : nat) (transfer : TransferRecord) (content_id : ContentId) (output : list Z)
  (control : nat) (rt : NodeRuntime) : option NodeRuntime :=
  let '(w, result) := engine_fetch n content_id output (NodeStore.disk (store rt)) in
  match result with
  | None => None
  | Some outcome =>
      let rt := NodeApi.fetched i transfer content_id control outcome (with_disk w rt) in
      let rt := becomes i Ending (finish_fetch transfer content_id control outcome rt).1 in
      Some (ends i (with_counters (add_downloads (-1)) rt))
  end.

(** A download that is complete on the disk is stored when nothing fails. *)
Lemma complete_download_calm s bytes shared now :
  faults (NodeStore.disk s) = [] -> files (NodeStore.disk s) !! data_of (root s) bytes = Some bytes -> len bytes <= MAX_CONTENT_LENGTH ->
  is_ok (complete_download (ContentId_digest bytes) shared now s).2 = true.
Proof.
  intros Hf Hd Hlen. destruct s as [rt d [fs fl]]. cbn [NodeStore.disk files faults root] in *. subst fl. unfold complete_download.
  erewrite (sio_bind_Ok get_root) by reflexivity. cbn [root]. fold (text_of bytes). fold (data_of rt bytes) (manifest_of rt bytes).
  rewrite (on_disk_calm _ _ _ _ _ _ fs bytes) by (rewrite fs_read_calm by done; cbn [files]; by rewrite Hd).
  rewrite from_bytes_accepts by done. cbn [map_err]. erewrite st_bind_Ok by reflexivity. lazy beta iota.
  rewrite bool_decide_eq_true_2 by done. cbn [negb].
  rewrite (on_disk_calm _ _ _ _ _ _ (<[manifest_of rt bytes := encode_manifest (honest_manifest bytes)]> fs) tt) by done.
  rewrite content_row_honest by done. erewrite st_bind_Ok by reflexivity.
  assert (exists t, downloaded_row d bytes shared now = imported_row bytes shared t) as [t Ht].
  { unfold downloaded_row. destruct (bt_get _ _); eauto. }
  erewrite sio_bind_Ok; cycle 1.
  { unfold upsert_content, execute. cbn [NodeStore.disk faults files db root]. reflexivity. }
  erewrite sio_bind_Ok; cycle 1.
  { rewrite get_content_calm. cbn [set_content content]. rewrite bt_get_insert_eq.
    match goal with |- context [content_from_row rt (text_of bytes) ?row] => assert (row = imported_row bytes shared t) as -> end.
    { rewrite <- Ht. unfold downloaded_row. by destruct (bt_get _ _). }
    rewrite imported_record by done. reflexivity. }
  done.
Qed.

(** Every download the node runs is a run of its steps. *)
Lemma run_download_steps `{Json} n i transfer content_id output control rt rt' :
  threads rt !! i = Some (Fetching transfer content_id control) -> run_download n i transfer content_id output control rt = Some rt' ->
  rtc step rt rt'.
Proof.
  intros Hi. unfold run_download. destruct (engine_fetch n content_id output (NodeStore.disk (store rt))) as [w [outcome|]]; [|done].
  intros [= <-]. eapply rtc_l; [apply (step_files rt w)|].
  eapply rtc_l; [apply (step_fetched (with_disk w rt) i transfer content_id control outcome Hi)|].
  assert (i < length (threads rt))%nat as Hlt by (by eapply lookup_lt_Some).
  assert (threads (NodeApi.fetched i transfer content_id control outcome (with_disk w rt)) !! i = Some (Stopped transfer content_id control outcome)) as Hs.
  { cbn. by rewrite list_lookup_insert_eq. }
  eapply rtc_l; [apply (step_finish _ i transfer content_id control outcome Hs)|]. apply rtc_once, step_ended.
  cbn [becomes with_threads threads]. apply list_lookup_insert_eq.
  destruct (touching_finish transfer content_id control outcome (NodeApi.fetched i transfer content_id control outcome (with_disk w rt)))
    as [(extra & _ & ->) _]. rewrite length_app. cbn. rewrite length_insert. lia.
Qed.

(** C15: what a lawful engine finishes, the node completes.  When the engine of a download
    returns with statistics and no operation on files and no statement fails after it, the
    node stores the file, which has the requested identifier, lists it, shared as the
    transfer wanted, and counts the download and its bytes as completed. *)
Theorem engine_success_completes `{!TransferEngineLaws N} (n : N) (i : nat) (transfer : TransferRecord) (content_id : ContentId) (control : nat)
  (stats : PersistentFetchStats) (rt : NodeRuntime) (w : World) :
  network_ok n -> t_content_id transfer = ContentId_to_string content_id ->
  engine_fetch n content_id (output_of rt transfer) (NodeStore.disk (store rt)) = (w, Some (Ok stats)) -> faults w = [] ->
  exists rt' bytes, run_download n i transfer content_id (output_of rt transfer) control rt = Some rt' /\ content_id = ContentId_digest bytes
    /\ counters rt' = add_downloads (-1) (add_completed (len bytes) 0 (counters rt))
    /\ stored_and_listed (t_share_on_complete transfer) bytes (with_disk w rt) rt'.
Proof.
  intros Hn Hid Hf Hfaults. destruct (fetch_verified _ _ _ _ _ _ Hn Hf) as (bytes & Hfile & -> & Hlen).
  unfold run_download. rewrite Hf. set (rt1 := NodeApi.fetched i transfer _ control _ (with_disk w rt)).
  assert (is_ok (complete_download (ContentId_digest bytes) (t_share_on_complete transfer) (now rt1) (store rt1)).2 = true) as Hok.
  { apply complete_download_calm; [done| |done]. cbn. unfold output_of in Hfile. by rewrite Hid in Hfile. }
  destruct (complete_download _ _ _ (store rt1)) as [s1 [rec|e]] eqn:E; [|done].
  assert (id_ok (ContentId_digest bytes)) as Hidok by (split; [apply blake3_len|apply blake3_bytes]).
  destruct (finish_download_stored transfer _ stats rt1 s1 rec Hidok E) as (_ & bytes' & Hd & Hc & Hst).
  eexists _, bytes'. split_and!; [reflexivity|done| |exact Hst]. cbn [finish_fetch]. cbn [ends becomes with_threads with_counters counters] in *.
  by rewrite Hc.
Qed.
End Node.

(** ** The engine of the program *)

(** What happens on the network during a call: the turns of a sharer, the attempts and the
    rounds of a fetch. *)
Record CliNetwork := mkCliNetwork {
  cn_corrupt : option (list Z);
  cn_keypair : option (list Z);
  cn_register : PeerAdvertisement -> result OverlayError Z;
  cn_turns : list Turn;
  cn_attempts : list Attempt;
  cn_rounds : list Round
}.

Section CliEngine.
Context `{Blake3} `{Hex} `{PostcardLaws}.
(** How an error is displayed. *)
Context (display : EntryError -> list Z).

(** [CliTransferEngine::serve_once] *)
Definition cli_serve_once (n : CliNetwork) (path : list Z) (upload_limit : Z) (w : World) : World * option (result (list Z) unit) :=
  let '(w, (_, r)) := share_file_via_overlay_with_control path (mkShareOptions None (Some upload_limit))
    (cn_corrupt n) (cn_keypair n) (cn_register n) (cn_turns n) w in
  (w, (fun r => map_err display ((fun _ => tt) <$> r)) <$> r).

(** [CliTransferEngine::fetch] *)
Definition cli_fetch (n : CliNetwork) (content_id : ContentId) (output : list Z) (w : World)
  : World * option (result (list Z) PersistentFetchStats) :=
  let '(w, _, r) := fetch_file_via_overlay_with_monitor content_id output (cn_attempts n) (cn_rounds n) w in
  (w, (fun r => map_err display (engine_stats <$> r)) <$> r).

#[global] Instance CliTransferEngine : TransferEngine CliNetwork := {
  engine_serve_once := cli_serve_once;
  engine_fetch := cli_fetch
}.

(** A session delivers only what its decoder accepts. *)
Definition link_decoded (l : Link) : Prop :=
  match l with
  | Established c => Forall (fun m => exists b, bytes_ok b /\ decode b = Ok m) (Transfer.incoming c)
  | _ => True
  end.

Lemma decoded_manifest b m a : bytes_ok b -> decode b = Ok (SwarmManifest m a) -> 0 <= m_length m <= MAX_CONTENT_LENGTH.
Proof.
  intros Hb [Hok He]%decode_iff; [|done]. rewrite encode_wire in He by done. invert_ok. destruct a0.
  apply WireFacts.validate_swarm_manifest in Ha as (Hm & _). apply validate_manifest_Ok in Hm as [Hs _].
  apply validate_shape_Ok in Hs as (_ & Hl & _). destruct Hok as [(_ & Hr & _) _]. lia.
Qed.

Lemma link_decoded_typed l : link_decoded l -> link_typed l.
Proof.
  destruct l as [| |c]; [done|done|]. intros Hc. eapply Forall_impl; [exact Hc|]. intros m (b & Hb & Hd).
  destruct m; try done. by apply (decoded_manifest _ _ _ Hb) in Hd as [? _].
Qed.

Lemma connected_bound assignment content_id l p :
  link_decoded l -> connect_swarm_provider assignment content_id l = Ok p -> 0 <= m_length (cp_manifest p) <= MAX_CONTENT_LENGTH.
Proof.
  unfold connect_swarm_provider. intros Ht. destruct (parse_socket_addr _); [|done]. destruct l as [| |c]; [done|done|].
  destruct (open_swarm_session content_id c) as [c' [[m a]|e]] eqn:E; [|done]. cbn [snd]. intros [= <-]. cbn [cp_manifest].
  apply open_session_manifest in E as [rest Hin]. cbn [link_decoded] in Ht. rewrite Hin in Ht. apply Forall_cons_iff in Ht as [(b & Hb & Hd) _].
  by apply (decoded_manifest _ _ _ Hb) in Hd.
Qed.

Lemma connect_all_bound content_id routes links e : Forall link_decoded links ->
  Forall (fun p => 0 <= m_length (cp_manifest p) <= MAX_CONTENT_LENGTH) (connect_all content_id routes links e).1.1.
Proof.
  revert links e. induction routes as [|assignment routes IH]; intros links e Hl; cbn [connect_all]; [constructor|].
  assert (Forall link_decoded (tail links)) as Htl by (destruct Hl; [constructor|done]).
  destruct (connect_swarm_provider assignment content_id (default Unreachable (head links))) as [p|failure] eqn:E.
  - specialize (IH (tail links) e Htl). destruct (connect_all content_id routes (tail links) e) as [[ps rep] e']. constructor; [|done].
    eapply connected_bound; [|exact E]. by destruct Hl.
  - specialize (IH (tail links) (Some (cf_error failure)) Htl). by destruct (connect_all content_id routes (tail links) _) as [[ps rep] e'].
Qed.

Lemma fetch_loop_bound n content_id output rounds attempts e w w' reported stats :
  Forall (fun a => Forall link_decoded (at_links a)) attempts ->
  fetch_loop n content_id output attempts rounds e w = (w', reported, Some (Ok stats)) ->
  exists bytes, files w' !! output = Some bytes /\ content_id = ContentId_digest bytes /\ len bytes <= MAX_CONTENT_LENGTH.
Proof.
  revert attempts e reported. induction n as [|n IH]; intros attempts e reported Ha; cbn [fetch_loop]; [done|].
  destruct Ha as [|attempt attempts Hl Ha]; [done|]. destruct (negb (at_continue attempt)); [done|]. destruct (at_routes attempt) as [routes|]; [|done].
  pose proof (connect_all_bound content_id routes (at_links attempt) e Hl) as Hc.
  destruct (connect_all content_id routes (at_links attempt) e) as [[[|first others] rep] e']; cbn [fst] in Hc.
  - destruct (fetch_loop n content_id output attempts rounds e' w) as [[w1 more] r] eqn:E. intros [= -> _ ->]. by eapply IH.
  - apply Forall_cons_iff in Hc as [Hf _]. unfold receive_providers. destruct (receive_swarm _ _ _ _ _ _) as [w1 r] eqn:E.
    destruct (receive_swarm_cases (cp_manifest first, cp_availability first) _ _ _ _ _ _ _ (proj1 Hf) E) as [Hgood _].
    destruct r as [[s|?]|]; try done. intros [= -> _ _]. destruct (Hgood s eq_refl) as ((bytes & Hb & Hd & Hn) & _). exists bytes. cbn in Hn. split_and!; [done|done|lia].
Qed.

#[global] Instance CliTransferEngineLaws : TransferEngineLaws CliNetwork.
Proof.
  refine {| network_ok := fun n => Forall (fun a => Forall link_decoded (at_links a)) (cn_attempts n) |}.
  - intros n path upload_limit w. cbn [engine_serve_once CliTransferEngine]. unfold cli_serve_once.
    pose proof (share_keeps_files path (mkShareOptions None (Some upload_limit)) (cn_corrupt n) (cn_keypair n) (cn_register n) (cn_turns n) w) as Hk.
    by destruct (share_file_via_overlay_with_control _ _ _ _ _ _ w) as [w' [rep r]].
  - intros n content_id output w w' stats Hn. cbn [engine_fetch CliTransferEngine]. unfold cli_fetch, fetch_file_via_overlay_with_monitor.
    destruct (fetch_loop _ _ _ _ _ _ w) as [[w1 rep] [[s|e]|]] eqn:E; [|done|done]. intros [= -> _]. by eapply fetch_loop_bound.
Defined.
End CliEngine.

(** ** The property at a concrete input *)

Import Toy ToyPostcard ToyCodec.

(** A relay that cannot be reached, then a provider that serves the one chunk. *)
Definition sample_network : CliNetwork :=
  mkCliNetwork None None (fun _ => Ok 1000) [] sample_attempts sample_rounds.

Lemma sample_offer_decoded : exists b, bytes_ok b /\ Wire.decode b = Ok (SwarmManifest sample_manifest (availability_all 1)).
Proof.
  exists WireFacts.sample_record. split; [apply bytes_okb_true; vm_compute; reflexivity|]. vm_compute. reflexivity.
Qed.

Lemma engine_success_completes_witness :
  exists rt' bytes, run_download (TransferEngine0 := CliTransferEngine (fun _ => [])) sample_network 0 sample_transfer
      (ContentId_digest (str "abc")) (output_of sample_daemon sample_transfer) 0 sample_daemon = Some rt'
    /\ ContentId_digest (str "abc") = ContentId_digest bytes
    /\ counters rt' = add_downloads (-1) (add_completed (len bytes) 0 (counters sample_daemon)).
Proof.
  set (out := engine_fetch (TransferEngine := CliTransferEngine (fun _ => [])) sample_network (ContentId_digest (str "abc"))
    (output_of sample_daemon sample_transfer) (NodeStore.disk (store sample_daemon))).
  assert (exists w stats, out = (w, Some (Ok stats)) /\ faults w = []) as (w & stats & Hout & Hf)
    by (vm_compute; eexists _, _; split; reflexivity).
  destruct (engine_success_completes (TransferEngine0 := CliTransferEngine (fun _ => [])) (TransferEngineLaws0 := CliTransferEngineLaws (fun _ => []))
    sample_network 0 sample_transfer (ContentId_digest (str "abc")) 0 stats sample_daemon w) as (rt' & bytes & Hr & Hb & Hc & _).
  - repeat constructor. apply sample_offer_decoded.
  - reflexivity.
  - exact Hout.
  - exact Hf.
  - exists rt', bytes. split; [exact Hr|]. split; [exact Hb|exact Hc].
Defined.
