(* ===== verification/Workers.v ===== *)
(** * Workers: the threads of a swarm download (crates/triptorrent-cli)

    [receive_swarm] starts one thread per provider.  The loop of [download_chunks] sends a
    thread its requests through a channel of commands; all threads send their results into
    one channel, which the loop reads with a timeout; at the end every thread gets [Finish]
    and is joined.  Download.v describes what the loop observes as a list of rounds; here the
    loop, the threads and the channels are a step relation, one action of one thread per
    step, so a run is an interleaving.  A limiter only delays a thread and has no step. *)
From stdpp Require Import base tactics list numbers option gmap relations.
From Stdlib Require Import ZArith Lia.
From S2P Require Import Prelude Bytes Core Availability Wire Swarm Resume Transfer Download Entry.
Import stdpp.list.

Local Open Scope Z_scope.

(** How long the loop waits for a result, and a session for a message, in nanoseconds. *)
Definition WORKER_TIMEOUT : Z := 10 * 1000000000.
Definition OVERLAY_SESSION_TIMEOUT : Z := 5 * 1000000000.

(** ** State *)

(** Where a thread is: blocked on its commands, between a command and its result, past its
    loop, or gone, with its end of the channel. *)
Inductive Activity :=
| Idle
| Fetching (index : Z)
| Ending
| Ended.

(** [ProviderWorker] with its thread: the commands not yet received and the session. *)
Record ProviderWorker := mkProviderWorker {
  pw_commands : list WorkerCommand;
  pw_session : Channel;
  pw_activity : Activity
}.

(** Where the thread of [receive_swarm] is.  [assigned] is the variable of the loop;
    [outcome] is what [download_chunks] returned. *)
Inductive Phase :=
| Checking
| Assigning (slots : list Z) (assigned : bool)
| Waiting
| Finishing (outcome : result DownloadError unit) (slots : list Z)
| Joining (outcome : result DownloadError unit) (slot : Z) (slots : list Z)
| Returned (outcome : result DownloadError unit).

(** [results] is what the channel of results holds. *)
Record Pool := mkPool {
  phase : Phase;
  job : Download;
  workers : list ProviderWorker;
  results : list WorkerResult
}.

Definition goto (ph : Phase) (p : Pool) : Pool := mkPool ph (job p) (workers p) (results p).

(** [spawn_provider_worker] *)
Definition spawn_provider_worker (session : Channel) : ProviderWorker := mkProviderWorker [] session Idle.

Definition is_ended (t : ProviderWorker) : bool := match pw_activity t with Ended => true | _ => false end.

(** [Sender::send] fails when the receiving thread is gone. *)
Definition send_command (slot : Z) (c : WorkerCommand) (ws : list ProviderWorker) : list ProviderWorker * bool :=
  match get ws slot with
  | Some t =>
      if is_ended t then (ws, false)
      else (set_at ws slot (mkProviderWorker (pw_commands t ++ [c]) (pw_session t) (pw_activity t)), true)
  | None => (ws, false)
  end.

Definition pool_slots (p : Pool) : list Z := slots (len (workers p)).

(** After [download_chunks] every worker is finished in order, by the loop over the workers
    when it succeeded and by [Drop] when it failed. *)
Definition leave (outcome : result DownloadError unit) (p : Pool) : Pool := goto (Finishing outcome (pool_slots p)) p.

Section Steps.
Context `{Blake3} `{Postcard} (m : Manifest).

(** ** The loop of [download_chunks] *)

(** One worker of the assignment loop. *)
Definition assign_to (slot : Z) (rest : list Z) (assigned : bool) (p : Pool) : Pool :=
  let d := job p in
  let '(s, choice) := assign (scheduler d) slot in
  match choice with
  | None => mkPool (Assigning rest assigned) (with_scheduler s d) (workers p) (results p)
  | Some index =>
      match expected_chunk_length m index with
      | Err e => leave (Err (ResumeFailed e)) (mkPool (phase p) (with_scheduler s d) (workers p) (results p))
      | Ok expected_bytes =>
          match send_command slot (WorkerFetch index expected_bytes) (workers p) with
          | (ws, true) =>
              mkPool (Assigning rest true)
                (mkDownload s (resume d) (world d) (set_at (pending d) slot (Some index)) (reports d)) ws (results p)
          | (ws, false) => mkPool (Assigning rest assigned) (with_scheduler (reject s slot) d) ws (results p)
          end
      end
  end.

(** The tests after the assignment loop. *)
Definition after_assignment (assigned : bool) (p : Pool) : Pool :=
  if is_complete (scheduler (job p)) then leave (Ok tt) p
  else if negb (has_in_flight (scheduler (job p))) && negb assigned then leave (Err NoHealthyProvider) p
  else goto Waiting p.

Definition ok {E A} (r : result E A) : option A := match r with Ok a => Some a | Err _ => None end.

(** The [match] on a received result. *)
Definition received (r : WorkerResult) (rest : list WorkerResult) (p : Pool) : Pool :=
  let '(d, outcome) := take_result m (len (workers p)) (wr_provider r) (wr_requested_index r) (ok (wr_response r)) (job p) in
  let p := mkPool Checking d (workers p) rest in
  match outcome with Ok _ => p | Err e => leave (Err e) p end.

(** ** The thread of a worker *)

(** [thread_step slot t t' sent]: one action of the thread in [slot] and the results it
    sends.  The channel of results outlives the threads, so sending succeeds. *)
Inductive thread_step (slot : Z) : ProviderWorker -> ProviderWorker -> list WorkerResult -> Prop :=
| thread_fetch index expected_bytes rest session :
    thread_step slot (mkProviderWorker (WorkerFetch index expected_bytes :: rest) session Idle)
      (mkProviderWorker rest session (Fetching index)) []
| thread_finish rest session :
    thread_step slot (mkProviderWorker (WorkerFinish :: rest) session Idle)
      (mkProviderWorker rest (Transfer.send SwarmComplete session).1 Ending) []
| thread_respond commands session index session' response : worker_fetch index session = (session', response) ->
    thread_step slot (mkProviderWorker commands session (Fetching index))
      (mkProviderWorker commands session' (if is_ok response then Idle else Ending)) [mkWorkerResult slot index response]
| thread_end commands session :
    thread_step slot (mkProviderWorker commands session Ending) (mkProviderWorker commands session Ended) [].

(** ** Steps *)

Inductive pool_step : Pool -> Pool -> Prop :=
| step_complete p : phase p = Checking -> is_complete (scheduler (job p)) = true -> pool_step p (leave (Ok tt) p)
| step_stopped p : phase p = Checking -> is_complete (scheduler (job p)) = false -> pool_step p (leave (Err FetchStopped) p)
| step_continue p : phase p = Checking -> is_complete (scheduler (job p)) = false ->
    pool_step p (goto (Assigning (pool_slots p) false) p)
| step_assign p slot rest assigned : phase p = Assigning (slot :: rest) assigned -> pool_step p (assign_to slot rest assigned p)
| step_assigned p assigned : phase p = Assigning [] assigned -> pool_step p (after_assignment assigned p)
| step_received p r rest : phase p = Waiting -> results p = r :: rest -> pool_step p (received r rest p)
| step_timeout p : phase p = Waiting -> results p = [] -> pool_step p (leave (Err TimedOut) p)
| step_finish p outcome slot rest : phase p = Finishing outcome (slot :: rest) ->
    pool_step p (mkPool (Joining outcome slot rest) (job p) (send_command slot WorkerFinish (workers p)).1 (results p))
| step_join p outcome slot rest t : phase p = Joining outcome slot rest -> get (workers p) slot = Some t -> is_ended t = true ->
    pool_step p (goto (Finishing outcome rest) p)
| step_return p outcome : phase p = Finishing outcome [] -> pool_step p (goto (Returned outcome) p)
| step_worker p slot t t' sent : get (workers p) slot = Some t -> thread_step slot t t' sent ->
    pool_step p (mkPool (phase p) (job p) (set_at (workers p) slot t') (results p ++ sent)).

(** ** The whole of [receive_swarm] *)

Definition start_pool (d : Download) (sessions : list Channel) : Pool :=
  mkPool Checking d (map spawn_provider_worker sessions) [].

(** ** Running a given interleaving *)

Definition thread_act (slot : Z) (t : ProviderWorker) : option (ProviderWorker * list WorkerResult) :=
  match t with
  | mkProviderWorker (WorkerFetch index _ :: rest) session Idle => Some (mkProviderWorker rest session (Fetching index), [])
  | mkProviderWorker (WorkerFinish :: rest) session Idle => Some (mkProviderWorker rest (Transfer.send SwarmComplete session).1 Ending, [])
  | mkProviderWorker [] _ Idle => None
  | mkProviderWorker commands session (Fetching index) =>
      let '(session, response) := worker_fetch index session in
      Some (mkProviderWorker commands session (if is_ok response then Idle else Ending), [mkWorkerResult slot index response])
  | mkProviderWorker commands session Ending => Some (mkProviderWorker commands session Ended, [])
  | mkProviderWorker _ _ Ended => None
  end.

(** The next action of the loop ([None]), which is not stopped, or of a thread. *)
Definition act (who : option Z) (p : Pool) : option Pool :=
  match who with
  | Some slot =>
      t ← get (workers p) slot;
      '(t, sent) ← thread_act slot t;
      Some (mkPool (phase p) (job p) (set_at (workers p) slot t) (results p ++ sent))
  | None =>
      match phase p with
      | Checking =>
          Some (if is_complete (scheduler (job p)) then leave (Ok tt) p else goto (Assigning (pool_slots p) false) p)
      | Assigning (slot :: rest) assigned => Some (assign_to slot rest assigned p)
      | Assigning [] assigned => Some (after_assignment assigned p)
      | Waiting => Some (match results p with r :: rest => received r rest p | [] => leave (Err TimedOut) p end)
      | Finishing outcome (slot :: rest) =>
          Some (mkPool (Joining outcome slot rest) (job p) (send_command slot WorkerFinish (workers p)).1 (results p))
      | Finishing outcome [] => Some (goto (Returned outcome) p)
      | Joining outcome slot rest =>
          t ← get (workers p) slot;
          if is_ended t then Some (goto (Finishing outcome rest) p) else None
      | Returned _ => None
      end
  end.

Fixpoint run_turns (turns : list (option Z)) (p : Pool) : option Pool :=
  match turns with
  | [] => Some p
  | who :: turns => p ← act who p; run_turns turns p
  end.
End Steps.
