(* ===== verification/WorkersFacts.v ===== *)
(** * WorkersFacts: every interleaving of a swarm download is a run of its loop

    Whatever the order in which the threads act, each result answers the request its worker
    has outstanding, no command is sent to a thread that is gone, the loop waits only
    while an answer is under way, and the number of steps is bounded.  So every run of
    [receive_swarm] with its threads ends, with every thread joined, and is the run of
    Download.v for some rounds: what is proved there of all rounds holds of all interleavings. *)
From stdpp Require Import base tactics list numbers option gmap relations.
From Stdlib Require Import ZArith Lia.
From S2P Require Import Prelude Bytes Core Instances Availability Wire Swarm Resume Transfer Download Entry Workers.
Import stdpp.list.

Local Open Scope Z_scope.

(** ** Slots *)

Definition results_of (slot : Z) (rs : list WorkerResult) : list WorkerResult :=
  List.filter (fun r => wr_provider r =? slot) rs.

Lemma results_of_app slot rs rs' : results_of slot (rs ++ rs') = results_of slot rs ++ results_of slot rs'.
Proof. apply List.filter_app. Qed.

(** Where the outstanding request of a worker is: a command, being fetched, or answered. *)
Definition under_way (slot i : Z) (t : ProviderWorker) (rs : list WorkerResult) : Prop :=
  (pw_activity t = Idle /\ (exists e, pw_commands t = [WorkerFetch i e]) /\ rs = [])
  \/ (pw_activity t = Fetching i /\ pw_commands t = [] /\ rs = [])
  \/ exists response, rs = [mkWorkerResult slot i response] /\ pw_commands t = []
       /\ if is_ok response then pw_activity t = Idle else pw_activity t = Ending \/ pw_activity t = Ended.

(** A worker without a request is idle, or leaving and excluded. *)
Definition at_rest (st : ProviderState) (t : ProviderWorker) (rs : list WorkerResult) : Prop :=
  busy st = false /\ pw_commands t = [] /\ rs = []
  /\ (pw_activity t = Idle \/ active st = false /\ (pw_activity t = Ending \/ pw_activity t = Ended)).

Definition slot_ok (s : Scheduler) (pd : list (option Z)) (ws : list ProviderWorker) (rs : list WorkerResult) (slot : Z) : Prop :=
  exists t st q, get ws slot = Some t /\ get (s_providers s) slot = Some st /\ get pd slot = Some q
    /\ match q with
       | Some i => get (s_chunks s) i = Some (InFlight slot) /\ under_way slot i t (results_of slot rs)
       | None => at_rest st t (results_of slot rs)
       end.

Lemma slot_ok_frame s s' pd pd' ws ws' rs rs' q :
  get ws' q = get ws q -> get (s_providers s') q = get (s_providers s) q -> get pd' q = get pd q ->
  results_of q rs' = results_of q rs ->
  (forall i, get (s_chunks s) i = Some (InFlight q) -> get (s_chunks s') i = Some (InFlight q)) ->
  slot_ok s pd ws rs q -> slot_ok s' pd' ws' rs' q.
Proof.
  unfold slot_ok. intros -> -> -> -> Hc (t & st & o & Ht & Hst & Ho & Hq). exists t, st, o.
  split_and!; [done..|]. destruct o; [destruct Hq; auto|done].
Qed.

(** The state of the loop and its threads while the loop runs. *)
Record loop_ok (base : Z) (p : Pool) : Prop := {
  lo_sched : sched_inv base (scheduler (job p));
  lo_slots : forall slot, 0 <= slot < len (workers p) -> slot_ok (scheduler (job p)) (pending (job p)) (workers p) (results p) slot;
  lo_results : Forall (fun r => 0 <= wr_provider r < len (workers p)) (results p);
  lo_providers : len (s_providers (scheduler (job p))) = len (workers p);
  lo_pending : len (pending (job p)) = len (workers p)
}.

Lemma get_set_at_ne {A} (l : list A) i j x y : get l i = Some y -> j <> i -> get (set_at l i x) j = get l j.
Proof. intros Hi Hj. by rewrite (get_set_at _ _ _ _ _ Hi), (proj2 (Z.eqb_neq j i) Hj). Qed.

Lemma get_set_at_eq {A} (l : list A) i x y : get l i = Some y -> get (set_at l i x) i = Some x.
Proof. intros Hi. by rewrite (get_set_at _ _ _ _ _ Hi), Z.eqb_refl. Qed.

(** ** The invariant of the loop *)

(** The action of a thread keeps its slot and leaves the others alone. *)
Lemma thread_slot slot t t' sent : thread_step slot t t' sent -> Forall (fun r => wr_provider r = slot) sent.
Proof. intros []; repeat constructor. Qed.

Lemma results_other slot q sent : q <> slot -> Forall (fun r => wr_provider r = slot) sent -> results_of q sent = [].
Proof. intros Hq. unfold results_of. induction 1 as [|r l Hr _ IH]; [done|]. cbn. rewrite Hr, (proj2 (Z.eqb_neq slot q)); [done|lia]. Qed.

Lemma results_own slot sent : Forall (fun r => wr_provider r = slot) sent -> results_of slot sent = sent.
Proof. unfold results_of. induction 1 as [|r l Hr _ IH]; [done|]. cbn. by rewrite Hr, Z.eqb_refl, IH. Qed.

Lemma thread_under_way slot i t t' sent rs :
  thread_step slot t t' sent -> under_way slot i t rs -> under_way slot i t' (rs ++ sent).
Proof.
  intros [] Hu; destruct Hu as [(Ha & (e & Hc) & ->)|[(Ha & Hc & ->)|(response0 & -> & Hc & Ha)]]; cbn in *; simplify_eq;
    try (by destruct (is_ok response0); naive_solver).
  - right; left. done.
  - right; right. exists response. split_and!; [done..|]. cbn. destruct (is_ok response); auto.
  - right; right. exists response0. split_and!; [done..|]. destruct (is_ok response0); [done|auto].
Qed.

Lemma thread_at_rest slot st t t' sent rs : thread_step slot t t' sent -> at_rest st t rs -> at_rest st t' (rs ++ sent).
Proof.
  intros [] (Hb & Hc & -> & Ha); cbn in *; try done; destruct Ha as [Ha|[Hn [Ha|Ha]]]; try done.
  split_and!; [done..|]. auto.
Qed.

Lemma worker_loop_ok base ph p slot t t' sent :
  loop_ok base p -> get (workers p) slot = Some t -> thread_step slot t t' sent ->
  loop_ok base (mkPool ph (job p) (set_at (workers p) slot t') (results p ++ sent)).
Proof.
  intros [Hs Hslots Hr Hn Hlp] Ht Hstep. pose proof (thread_slot _ _ _ _ Hstep) as Hsent. split; cbn [job workers results]; rewrite ?len_set_at; try done.
  - intros q Hq. destruct (decide (q = slot)) as [->|Hne].
    + destruct (Hslots _ Hq) as (t0 & st & o & Ht0 & Hst & Ho & Hcase). simplify_eq. exists t', st, o.
      rewrite (get_set_at_eq _ _ _ _ Ht), results_of_app, (results_own _ _ Hsent). split_and!; [done..|]. destruct o.
      * destruct Hcase as [Hi Hu]. split; [done|]. by eapply thread_under_way.
      * by eapply thread_at_rest.
    + eapply slot_ok_frame; [..|exact (Hslots _ Hq)]; try done; [by apply (get_set_at_ne _ _ _ _ _ Ht)|].
      by rewrite results_of_app, (results_other _ _ _ Hne Hsent), app_nil_r.
  - apply Forall_app. split; [done|]. eapply Forall_impl; [exact Hsent|]. intros r ->. by apply get_Some_range in Ht.
Qed.

(** What the loop does with a result: the provider gets its chunk accepted or is excluded,
    unless an error ends the loop. *)
Lemma take_result_cases `{Blake3} `{Postcard} m n slot i response d d' o :
  take_result m n slot i response d = (d', o) ->
  pending d' = set_at (pending d) slot None
  /\ ((is_Some response /\ accept (scheduler d) slot i = (scheduler d', Ok tt))
      \/ scheduler d' = reject (scheduler d) slot
      \/ ((scheduler d' = scheduler d \/ scheduler d' = (accept (scheduler d) slot i).1) /\ exists e, o = Err e)).
Proof.
  assert (forall s0 (d0 : Download), let r := (_ ← report_verified_progress m n (retries s0) (rejected_requests s0 n);
    if negb (can_finish s0) then throw NoHonestProvider else mret tt) d0 in
    pending r.1 = pending d0 /\ scheduler r.1 = scheduler d0) as Hrej.
  { intros s0 d0. unfold mbind, st_bind, report_verified_progress. destruct (progress_loop _ _ _ _) as [[? ?]|?]; [|done].
    by destruct (negb _). }
  unfold take_result. cbn [resume world scheduler pending reports].
  assert (forall d0, (_ ← report_verified_progress m n (retries (reject (scheduler d) slot)) (rejected_requests (reject (scheduler d) slot) n);
    if negb (can_finish (reject (scheduler d) slot)) then throw NoHonestProvider else mret tt) (with_scheduler (reject (scheduler d) slot) d0) = (d', o) ->
    pending d' = pending d0 /\ scheduler d' = reject (scheduler d) slot) as Hout.
  { intros d0 Hr. specialize (Hrej (reject (scheduler d) slot) (with_scheduler (reject (scheduler d) slot) d0)). rewrite Hr in Hrej. exact Hrej. }
  destruct response as [chunk|]; [|intros [-> ->]%Hout; auto].
  destruct (Z.eqb_spec (c_index chunk) i) as [<-|_]; cbn [andb]; [|intros [-> ->]%Hout; auto].
  destruct (is_ok (verify_chunk m chunk)); [|intros [-> ->]%Hout; auto].
  destruct (write_verified_chunk (resume d) m chunk (world d)) as [w [rd [u|e]]]; [|intros [= <- <-]; eauto 10].
  destruct (accept (scheduler d) slot (c_index chunk)) as [s [[]|e]] eqn:Ea; [|intros [= <- <-]; cbn; eauto 10].
  unfold report_verified_progress. destruct (progress_loop _ _ _ _) as [[vb vc]|e]; intros [= <- <-]; cbn; eauto 10.
Qed.

Lemma loop_ok_results base p ph : loop_ok base p -> loop_ok base (goto ph p).
Proof. by intros []. Qed.

(** A worker the scheduler may use is idle, and its commands are empty. *)
Lemma assignable base p slot st :
  loop_ok base p -> get (s_providers (scheduler (job p))) slot = Some st -> active st = true -> busy st = false ->
  exists t, get (workers p) slot = Some t /\ pw_activity t = Idle /\ pw_commands t = [] /\ results_of slot (results p) = []
    /\ get (pending (job p)) slot = Some None.
Proof.
  intros [Hs Hslots _ Hn Hlp] Hst Ha Hb. pose proof (get_Some_range _ _ _ Hst) as Hr. rewrite Hn in Hr.
  destruct (Hslots _ Hr) as (t & st' & [i|] & Ht & Hst' & Hq & Hcase); simplify_eq.
  - destruct Hcase as [Hi _]. destruct (inv_offered _ _ Hs i slot Hi) as (st' & ? & ? & _). congruence.
  - destruct Hcase as (_ & Hc & Hrs & [Hidle|[? _]]); [|congruence]. eauto 10.
Qed.

Section Loop.
Context `{Blake3} `{Postcard} (m : Manifest).

(** The assignment of a request: the worker is there and gets the command. *)
Lemma assign_to_cases base p slot rest a :
  loop_ok base p ->
  (assign (scheduler (job p)) slot = (scheduler (job p), None) /\ assign_to m slot rest a p = goto (Assigning rest a) p)
  \/ (exists s index e, assign (scheduler (job p)) slot = (s, Some index) /\ expected_chunk_length m index = Err e
        /\ assign_to m slot rest a p = leave (Err (ResumeFailed e)) (mkPool (phase p) (with_scheduler s (job p)) (workers p) (results p)))
  \/ exists s st t index bytes, assign (scheduler (job p)) slot = (s, Some index) /\ expected_chunk_length m index = Ok bytes
        /\ get (s_providers (scheduler (job p))) slot = Some st /\ get (s_chunks (scheduler (job p))) index = Some Missing
        /\ s = mkScheduler (set_at (s_chunks (scheduler (job p))) index (InFlight slot))
                 (set_at (s_providers (scheduler (job p))) slot (set_busy true st)) (s_retries (scheduler (job p)))
        /\ busy st = false /\ active st = true
        /\ get (workers p) slot = Some t /\ pw_activity t = Idle /\ pw_commands t = [] /\ results_of slot (results p) = []
        /\ get (pending (job p)) slot = Some None
        /\ assign_to m slot rest a p
           = mkPool (Assigning rest true)
               (mkDownload s (resume (job p)) (world (job p)) (set_at (pending (job p)) slot (Some index)) (reports (job p)))
               (set_at (workers p) slot (mkProviderWorker [WorkerFetch index bytes] (pw_session t) Idle)) (results p).
Proof.
  intros Hl. unfold assign_to. destruct (assign (scheduler (job p)) slot) as [s choice] eqn:Ea.
  destruct (assign_Some _ _ _ _ _ (lo_sched _ _ Hl) Ea) as [[-> ->]|(st & i & Hst & Hact & Hb & Hi & _ & _ & -> & Hs)].
  { left. split; [done|]. unfold goto. by rewrite with_scheduler_self. }
  right. destruct (expected_chunk_length m i) as [bytes|e] eqn:Ee; [right|left; eauto 10].
  destruct (assignable _ _ _ _ Hl Hst Hact Hb) as (t & Ht & Hidle & Hc & Hr & Hpd).
  exists s, st, t, i, bytes. split_and!; try done. unfold send_command, is_ended. by rewrite Ht, Hidle, Hc.
Qed.

Lemma assign_to_ok base p slot rest a :
  loop_ok base p -> let p' := assign_to m slot rest a p in
  (exists e, phase p' = Finishing (Err e) (pool_slots p'))
  \/ (loop_ok base p' /\ exists b, phase p' = Assigning rest b
      /\ (b = true -> (a = true /\ p' = goto (Assigning rest a) p) \/ exists i, get (pending (job p')) slot = Some (Some i))).
Proof.
  intros Hl p'. subst p'.
  destruct (assign_to_cases base p slot rest a Hl)
    as [[_ ->]|[(s & i & e & _ & _ & ->)|(s & st & t & i & bytes & Ea & _ & Hst & Hi & Hs & Hb & Hact & Ht & Hidle & Hc & Hr & Hpd & ->)]].
  - right. split; [by apply loop_ok_results|]. exists a. split; [done|]. intros ->. by left.
  - left. eauto.
  - right. pose proof Hl as [Hinv Hslots Hrs Hn Hlp]. pose proof (assign_inv base _ slot Hinv) as Hinv'. rewrite Ea in Hinv'. cbn [fst] in Hinv'.
    split.
    2:{ exists true. split; [done|]. intros _. right. exists i. cbn. by rewrite (get_set_at_eq _ _ _ _ Hpd). }
    split; cbn [job workers results scheduler pending]; rewrite ?len_set_at; try done; [|by rewrite Hs; cbn; rewrite len_set_at].
    intros q Hq. destruct (decide (q = slot)) as [->|Hne].
    + eexists _, _, _. rewrite (get_set_at_eq _ _ _ _ Ht), (get_set_at_eq _ _ _ _ Hpd). subst s. cbn [s_providers s_chunks].
      rewrite (get_set_at_eq _ _ _ _ Hst). split_and!; [done..|]. split; [by rewrite (get_set_at_eq _ _ _ _ Hi)|]. left. cbn. eauto.
    + eapply slot_ok_frame; [..|exact (Hslots _ Hq)]; try done; try (by apply (get_set_at_ne _ _ _ _ _ Ht)); try (by apply (get_set_at_ne _ _ _ _ _ Hpd)).
      * subst s. cbn. by apply (get_set_at_ne _ _ _ _ _ Hst).
      * subst s. cbn. intros j Hj. rewrite (get_set_at_ne _ _ _ _ _ Hi); [done|]. intros ->. congruence.
Qed.

(** The next result answers the request its worker has outstanding. *)
Lemma head_answers base p r rest :
  loop_ok base p -> results p = r :: rest ->
  exists t i, get (workers p) (wr_provider r) = Some t /\ get (pending (job p)) (wr_provider r) = Some (Some i)
    /\ wr_requested_index r = i /\ get (s_chunks (scheduler (job p))) i = Some (InFlight (wr_provider r))
    /\ results_of (wr_provider r) rest = [] /\ pw_commands t = []
    /\ (if is_ok (wr_response r) then pw_activity t = Idle else pw_activity t = Ending \/ pw_activity t = Ended).
Proof.
  intros [Hs Hslots Hr Hn Hlp] Hres. rewrite Hres in *. apply Forall_cons_iff in Hr as [Hrange _].
  destruct (Hslots _ Hrange) as (t & st & q & Ht & _ & Hq & Hcase). unfold results_of in Hcase. cbn [List.filter] in Hcase.
  rewrite Z.eqb_refl in Hcase. destruct q as [i|]; [|by destruct Hcase as (_ & _ & ? & _)].
  destruct Hcase as [Hi [(_ & _ & ?)|[(_ & _ & ?)|(response & [= Hr Hrest] & Hc & Ha)]]]; [done..|].
  exists t, i. rewrite Hr in *. cbn in *. split_and!; done.
Qed.

Lemma set_pending_ok base p slot st' s' d' r rest t i :
  loop_ok base p -> results p = r :: rest -> wr_provider r = slot -> get (workers p) slot = Some t ->
  get (pending (job p)) slot = Some (Some i) -> results_of slot rest = [] ->
  sched_inv base s' -> len (s_providers s') = len (workers p) ->
  get (s_providers s') slot = Some st' -> at_rest st' t [] ->
  (forall q, q <> slot -> get (s_providers s') q = get (s_providers (scheduler (job p))) q
     /\ forall j, get (s_chunks (scheduler (job p))) j = Some (InFlight q) -> get (s_chunks s') j = Some (InFlight q)) ->
  scheduler d' = s' -> pending d' = set_at (pending (job p)) slot None ->
  loop_ok base (mkPool Checking d' (workers p) rest).
Proof.
  intros [Hs Hslots Hr Hn Hlp] Hres Hslot Ht Hpd Hrest Hs' Hlen Hst' Hat Hother Hd Hp. subst s'.
  split; cbn [job workers results]; try done; [|by rewrite Hres in Hr; apply Forall_cons_iff in Hr as [_ ?]|by rewrite Hp, len_set_at].
  intros q Hq. destruct (decide (q = slot)) as [->|Hne].
  - exists t, st', None. rewrite Hp, (get_set_at_eq _ _ _ _ Hpd), Hrest. done.
  - destruct (Hother q Hne) as [Hp' Hc']. eapply slot_ok_frame; [..|exact (Hslots _ Hq)]; try done.
    + by rewrite Hp, (get_set_at_ne _ _ _ _ _ Hpd).
    + rewrite Hres. unfold results_of. cbn [List.filter]. by rewrite Hslot, (proj2 (Z.eqb_neq slot q)) by lia.
Qed.

Lemma received_ok base p r rest :
  loop_ok base p -> results p = r :: rest -> let p' := received m r rest p in
  (exists e, phase p' = Finishing (Err e) (pool_slots p')) \/ (phase p' = Checking /\ loop_ok base p').
Proof.
  intros Hl Hres p'. subst p'. destruct (head_answers _ _ _ _ Hl Hres) as (t & i & Ht & Hpd & Hidx & Hi & Hrest & Hc & Ha).
  unfold received. rewrite Hidx. destruct (take_result _ _ _ _ _ _) as [d' [[]|e]] eqn:E; [right|left; eauto].
  split; [done|]. set (slot := wr_provider r) in *.
  destruct (take_result_cases _ _ _ _ _ _ _ _ E) as [Hp Hcase]. pose proof Hl as [Hs _ _ Hn Hlp].
  destruct (inv_offered _ _ Hs i slot Hi) as (st & Hst & Hb & Hact & _).
  destruct Hcase as [[Hsome Hacc]|[Hrej|[_ [e ?]]]]; [| |done].
  - destruct (accept_cases base _ slot i Hs) as [(_ & _ & st0 & Hst0 & _ & Heq)|[? _]]; [|done]. rewrite Hst in Hst0. injection Hst0 as <-.
    pose proof (accept_inv base _ slot i Hs) as Hs'. rewrite Hacc in Hs', Heq. injection Heq as Heq. cbn [fst] in Hs'.
    eapply (set_pending_ok base p slot); try done; try (rewrite Heq; cbn; by rewrite ?len_set_at).
    + rewrite Heq. cbn. by rewrite (get_set_at_eq _ _ _ _ Hst).
    + destruct (wr_response r) as [c|e0]; cbn in Ha, Hsome; [|by destruct Hsome]. split_and!; try done. by left.
    + intros q Hne. rewrite Heq. cbn. split; [by apply (get_set_at_ne _ _ _ _ _ Hst)|].
      intros j Hj. rewrite (get_set_at_ne _ _ _ _ _ Hi); [done|]. intros ->. congruence.
  - pose proof (reject_inv base _ slot Hs) as Hs'. rewrite <- Hrej in Hs'.
    destruct (reject_cases base _ slot Hs) as [(st0 & Hst0 & Heq)|[? _]]; [|congruence]. rewrite Hst in Hst0. injection Hst0 as <-. rewrite <- Hrej in Heq.
    eapply (set_pending_ok base p slot); try done; try (rewrite Heq; cbn; by rewrite ?len_set_at).
    + rewrite Heq. cbn. by rewrite (get_set_at_eq _ _ _ _ Hst).
    + split_and!; try done. cbn. destruct (is_ok (wr_response r)); [by left|by right].
    + intros q Hne. rewrite Heq. cbn. split; [by apply (get_set_at_ne _ _ _ _ _ Hst)|].
      intros j Hj. rewrite get_map, Hj. cbn. rewrite held_by_false; [done|congruence].
Qed.

(** A chunk in flight is a request outstanding. *)
Lemma in_flight_pending base p : loop_ok base p -> has_in_flight (scheduler (job p)) = true ->
  exists slot i, get (pending (job p)) slot = Some (Some i).
Proof.
  intros [Hs Hslots _ Hn Hlp] Hf. unfold has_in_flight in Hf. apply any_true, Exists_exists in Hf as (c & Hin & Hc).
  destruct c as [|slot|]; [done| |done]. apply elem_get in Hin as [i Hi].
  destruct (inv_offered _ _ Hs i slot Hi) as (st & Hst & Hb & _). exists slot.
  pose proof (get_Some_range _ _ _ Hst) as Hr. rewrite Hn in Hr.
  destruct (Hslots _ Hr) as (t & st' & [j|] & _ & Hst' & Hq & Hcase); [eauto|]. destruct Hcase as (Hb' & _). congruence.
Qed.
End Loop.

(** ** The invariant of the pool *)

Definition can_leave (t : ProviderWorker) : Prop :=
  match pw_activity t with Ended | Ending => True | _ => WorkerFinish ∈ pw_commands t end.

(** The threads that are neither in [rest] nor told to finish have ended. *)
Definition leaving (told : option Z) (rest : list Z) (p : Pool) : Prop :=
  Forall (fun slot => 0 <= slot < len (workers p)) rest
  /\ (forall slot, told = Some slot -> exists t, get (workers p) slot = Some t /\ can_leave t)
  /\ forall slot t, get (workers p) slot = Some t -> slot ∈ rest \/ told = Some slot \/ is_ended t = true.

Definition awaited (p : Pool) : Prop := exists slot i, get (pending (job p)) slot = Some (Some i).

Definition pool_ok (base : Z) (p : Pool) : Prop :=
  match phase p with
  | Checking => loop_ok base p
  | Assigning _ a => loop_ok base p /\ (a = true -> awaited p)
  | Waiting => loop_ok base p /\ awaited p
  | Finishing _ rest => leaving None rest p
  | Joining _ slot rest => leaving (Some slot) rest p
  | Returned _ => leaving None [] p
  end.

Lemma elem_slots n slot : slot ∈ slots n <-> 0 <= slot < n.
Proof.
  unfold slots. rewrite list_elem_of_In, in_map_iff. setoid_rewrite in_seq. split.
  - intros (k & <- & Hk). lia.
  - intros Hr. exists (Z.to_nat slot). lia.
Qed.

Lemma leave_ok base o p : pool_ok base (leave o p).
Proof.
  unfold pool_ok, leave, pool_slots. cbn [goto phase]. split_and!; cbn [goto workers].
  - apply Forall_forall. intros slot. apply elem_slots.
  - done.
  - intros slot t Ht. left. apply elem_slots. by eapply get_Some_range.
Qed.

(** A state that has just left the loop, whatever changed with it. *)
Lemma left_ok base o p : phase p = Finishing o (pool_slots p) -> pool_ok base p.
Proof. intros Hp. pose proof (leave_ok base o p) as Hl. unfold pool_ok, leave, goto in Hl. cbn in Hl. unfold pool_ok. by rewrite Hp. Qed.

Lemma thread_can_leave slot t t' sent : thread_step slot t t' sent -> can_leave t -> can_leave t'.
Proof.
  intros [] Hc; cbn in *; try done; [by apply elem_of_cons in Hc as [?|?]|by destruct (is_ok response)].
Qed.

Lemma thread_not_ended slot t t' sent : thread_step slot t t' sent -> is_ended t = false.
Proof. by intros []. Qed.

Lemma worker_leaving told rest ph p slot t t' sent :
  leaving told rest p -> get (workers p) slot = Some t -> thread_step slot t t' sent ->
  leaving told rest (mkPool ph (job p) (set_at (workers p) slot t') (results p ++ sent)).
Proof.
  intros (Hr & Ht & Hall) Hg Hstep. unfold leaving. cbn [workers]. rewrite !len_set_at. split_and!; [done|..].
  - intros q Hq. destruct (Ht q Hq) as (u & Hu & Hc). destruct (decide (q = slot)) as [->|Hne].
    + simplify_eq. eexists. rewrite (get_set_at_eq _ _ _ _ Hg). split; [done|by eapply thread_can_leave].
    + exists u. by rewrite (get_set_at_ne _ _ _ _ _ Hg Hne).
  - intros q u Hq. destruct (decide (q = slot)) as [->|Hne]; [|rewrite (get_set_at_ne _ _ _ _ _ Hg Hne) in Hq; auto].
    destruct (Hall _ _ Hg) as [?|[?|He]]; [auto..|]. by rewrite (thread_not_ended _ _ _ _ Hstep) in He.
Qed.

(** Sending [Finish]: the thread is told, or has already ended. *)
Lemma finish_leaving slot rest p ph :
  leaving None (slot :: rest) p ->
  leaving (Some slot) rest (mkPool ph (job p) (send_command slot WorkerFinish (workers p)).1 (results p)).
Proof.
  intros (Hr & _ & Hall). apply Forall_cons_iff in Hr as [Hslot Hr].
  destruct (proj2 (get_is_Some (workers p) slot) Hslot) as [t Ht]. unfold leaving, send_command. rewrite Ht. cbn [workers].
  assert (forall q u, get (workers p) q = Some u -> q ∈ rest \/ Some slot = Some q \/ is_ended u = true) as Hoth.
  { intros q u Hq. destruct (Hall _ _ Hq) as [[->|?]%elem_of_cons|[?|?]]; auto. done. }
  destruct (is_ended t) eqn:Ee; cbn [fst]; rewrite ?len_set_at; (split; [done|split; [intros ? [= <-]|]]).
  - exists t. split; [done|]. unfold can_leave, is_ended in *. by destruct (pw_activity t).
  - exact Hoth.
  - eexists. rewrite (get_set_at_eq _ _ _ _ Ht). split; [done|]. unfold can_leave, is_ended in *. cbn.
    destruct (pw_activity t); try done; apply elem_of_app; right; by left.
  - intros q u Hq. destruct (decide (q = slot)) as [->|Hne]; [auto|]. rewrite (get_set_at_ne _ _ _ _ _ Ht Hne) in Hq. by apply Hoth.
Qed.

Section Invariant.
Context `{Blake3} `{Postcard} (m : Manifest) (base : Z).

Lemma after_assignment_ok a p : loop_ok base p -> (a = true -> awaited p) -> pool_ok base (after_assignment a p).
Proof.
  intros Hl Ha. unfold after_assignment. destruct (is_complete _); [apply leave_ok|].
  destruct (has_in_flight (scheduler (job p))) eqn:Ef; cbn [negb andb].
  - split; [by apply loop_ok_results|]. exact (in_flight_pending base p Hl Ef).
  - destruct a; cbn [negb]; [|apply leave_ok]. split; [by apply loop_ok_results|by apply Ha].
Qed.

Lemma pool_step_ok p p' : pool_step m p p' -> pool_ok base p -> pool_ok base p'.
Proof.
  intros [p0 Hp Hc|p0 Hp Hc|p0 Hp Hc|p0 slot rest a Hp|p0 a Hp|p0 r rest Hp Hr|p0 Hp Hr|p0 o slot rest Hp|p0 o slot rest t Hp Ht He|p0 o Hp|p0 slot t t' sent Ht Hstep];
    unfold pool_ok at 1; rewrite ?Hp.
  - intros _. apply leave_ok.
  - intros _. apply leave_ok.
  - intros Hl. split; [by apply loop_ok_results|done].
  - intros [Hl Ha]. destruct (assign_to_ok m base p0 slot rest a Hl) as [[e He]|(Hl' & b & Hb & Hw)]; [by eapply left_ok|].
    unfold pool_ok. rewrite Hb. split; [done|]. intros Hbt. destruct (Hw Hbt) as [[-> ->]|[i Hi]]; [by apply Ha|by exists slot, i].
  - intros [Hl Ha]. by apply after_assignment_ok.
  - intros [Hl _]. destruct (received_ok m base p0 r rest Hl Hr) as [[e He]|[Hc Hl']]; [by eapply left_ok|]. unfold pool_ok. by rewrite Hc.
  - intros _. apply leave_ok.
  - apply finish_leaving.
  - intros (Hr & _ & Hall). split_and!; [done..|]. intros q u Hq. cbn in Hq. destruct (Hall q u Hq) as [?|[[= <-]|?]]; [auto| |auto]. simplify_eq. auto.
  - done.
  - unfold pool_ok. cbn [phase]. destruct (phase p0) as [|rest a| |o rest|o told rest|o]; intros Hl.
    + by eapply worker_loop_ok.
    + destruct Hl as [Hl Ha]. split; [by eapply worker_loop_ok|done].
    + destruct Hl as [Hl Ha]. split; [by eapply worker_loop_ok|done].
    + by eapply worker_leaving.
    + by eapply worker_leaving.
    + by eapply worker_leaving.
Qed.

Lemma pool_steps_ok p p' : rtc (pool_step m) p p' -> pool_ok base p -> pool_ok base p'.
Proof. induction 1; eauto using pool_step_ok. Qed.
End Invariant.

(** ** The runs of the loop *)

Section Simulation.
Context `{Blake3} `{Postcard} (m : Manifest) (n : Z) (d0 : Download).

(** [rounds] lead the loop from [d0] to the check of its condition in [d]. *)
Definition leads (rounds : list Round) (d : Download) : Prop :=
  forall more, download_chunks m n (rounds ++ more) d0 = download_chunks m n more d.

Definition all_alive (r : Round) : Prop := should_continue r = true /\ alive r = replicate (Z.to_nat n) true.

(** In the round that began in [d], the slots in [told] have been assigned. *)
Definition assigning (told : list Z) (a : bool) (d d' : Download) : Prop :=
  is_complete (scheduler d) = false /\ forall r, all_alive r -> assign_workers m r told false d = (d', Ok a).

Definition simulates (p : Pool) : Prop :=
  match phase p with
  | Checking => exists rounds, leads rounds (job p)
  | Assigning rest a => exists rounds d told, leads rounds d /\ slots n = told ++ rest /\ assigning told a d (job p)
  | Waiting => exists rounds d a, leads rounds d /\ assigning (slots n) a d (job p)
      /\ is_complete (scheduler (job p)) = false /\ negb (has_in_flight (scheduler (job p))) && negb a = false
  | Finishing o _ | Joining o _ _ | Returned o => exists rounds, download_chunks m n rounds d0 = (job p, Some o)
  end.

Lemma assign_workers_app r l l' a d d' b :
  assign_workers m r l a d = (d', Ok b) -> assign_workers m r (l ++ l') a d = assign_workers m r l' b d'.
Proof.
  revert a d. induction l as [|slot l IH]; intros a d; cbn [assign_workers app]; [by intros [= <- <-]|].
  unfold mbind, st_bind. destruct (assign_worker m r slot d) as [d1 [c|e]]; [apply IH|done].
Qed.

Lemma leads_snoc rounds d r d' : leads rounds d -> is_complete (scheduler d) = false -> run_round m n r d = (d', Ok false) ->
  leads (rounds ++ [r]) d'.
Proof.
  intros Hl Hc Hr more. rewrite <- app_assoc, Hl. cbn [app download_chunks]. by rewrite Hc, Hr.
Qed.

Lemma leads_end rounds d r d' o : leads rounds d -> is_complete (scheduler d) = false ->
  (run_round m n r d = (d', Ok true) /\ o = Ok tt \/ exists e, run_round m n r d = (d', Err e) /\ o = Err e) ->
  exists rounds, download_chunks m n rounds d0 = (d', Some o).
Proof.
  intros Hl Hc Hr. exists (rounds ++ [r]). rewrite Hl. cbn [download_chunks]. rewrite Hc. by destruct Hr as [[-> ->]|(e & -> & ->)].
Qed.

(** A round in which every worker is there. *)
Definition calm_round (answer : option (Z * option Chunk)) : Round := mkRound true (replicate (Z.to_nat n) true) answer.

Lemma calm_alive answer : all_alive (calm_round answer).
Proof. done. Qed.

Lemma get_alive r slot : all_alive r -> 0 <= slot < n -> get (alive r) slot = Some true.
Proof.
  intros [_ ->] Hs. unfold get. rewrite (proj2 (Z.leb_le 0 slot)) by lia. apply lookup_replicate. split; [done|lia].
Qed.

(** One worker, in the terms of Download.v. *)
Lemma assign_to_simulates base p slot rest a :
  loop_ok base p -> len (workers p) = n -> phase p = Assigning (slot :: rest) a -> simulates p -> simulates (assign_to m slot rest a p).
Proof.
  intros Hl Hn Hph. unfold simulates at 1. rewrite Hph. intros (rounds & d & told & Hlead & Hslots & Hc & Has).
  assert (0 <= slot < n) as Hr by (apply elem_slots; rewrite Hslots; apply elem_of_app; right; left).
  assert (forall a' d', (forall r, all_alive r -> assign_worker m r slot (job p) = (d', Ok a')) ->
    exists rounds0 d1 told0, leads rounds0 d1 /\ slots n = told0 ++ rest /\ assigning told0 (a || a') d1 d') as Hgo.
  { intros a' d' Hw. exists rounds, d, (told ++ [slot]). split_and!; [done|by rewrite <- app_assoc|split; [done|]].
    intros r Hal. rewrite (assign_workers_app _ _ _ _ _ _ _ (Has r Hal)). cbn [assign_workers]. unfold mbind, st_bind. by rewrite (Hw r Hal). }
  destruct (assign_to_cases m base p slot rest a Hl)
    as [[Ea ->]|[(s & i & e & Ea & Ee & ->)|(s & st & t & i & bytes & Ea & Ee & _ & _ & _ & _ & _ & _ & _ & _ & _ & _ & ->)]].
  - unfold simulates. cbn [goto phase job]. replace a with (a || false) by (by destruct a). apply Hgo. intros r Hal.
    unfold assign_worker. by rewrite Ea, with_scheduler_self.
  - unfold simulates, leave. cbn [goto phase job]. apply (leads_end rounds d (calm_round None)); [done..|]. right. eexists. split; [|done].
    unfold run_round. cbn [calm_round should_continue negb]. rewrite Hslots, (assign_workers_app _ _ _ _ _ _ _ (Has _ (calm_alive None))).
    cbn [assign_workers]. unfold mbind, st_bind, assign_worker. by rewrite Ea, Ee.
  - unfold simulates. cbn [phase job]. replace true with (a || true) by (by destruct a). apply Hgo. intros r Hal.
    unfold assign_worker. by rewrite Ea, Ee, (get_alive r slot Hal Hr).
Qed.

(** The round of the loop, when all its assignments are made. *)
Lemma calm_run answer d d' a :
  assigning (slots n) a d d' ->
  run_round m n (calm_round answer) d
  = if is_complete (scheduler d') then (d', Ok true)
    else if negb (has_in_flight (scheduler d')) && negb a then (d', Err NoHealthyProvider)
    else match next_result (calm_round answer) (pending d') with
         | None => (d', Err TimedOut)
         | Some (provider, requested, response) => (_ ← take_result m n provider requested response; mret false) d'
         end.
Proof. intros [_ Has]. unfold run_round. cbn [calm_round should_continue negb]. by rewrite (Has _ (calm_alive answer)). Qed.

Lemma assigned_simulates p a : phase p = Assigning [] a -> simulates p -> simulates (after_assignment a p).
Proof.
  intros Hph. unfold simulates at 1. rewrite Hph. intros (rounds & d & told & Hlead & Hslots & Has). rewrite app_nil_r in Hslots. subst told.
  pose proof (calm_run None _ _ _ Has) as Hrun. pose proof Has as [Hc _]. unfold after_assignment.
  destruct (is_complete (scheduler (job p))) eqn:Ec; [|destruct (negb _ && negb a) eqn:Ef].
  - unfold simulates. cbn. eapply leads_end; [done..|]. left. eauto.
  - unfold simulates. cbn. eapply leads_end; [done..|]. right. eauto.
  - unfold simulates. cbn. eauto 10.
Qed.

Lemma received_simulates base p r rest :
  loop_ok base p -> len (workers p) = n -> phase p = Waiting -> results p = r :: rest -> simulates p -> simulates (received m r rest p).
Proof.
  intros Hl Hn Hph Hres. unfold simulates at 1. rewrite Hph. intros (rounds & d & a & Hlead & Has & Ec & Ef).
  destruct (head_answers _ _ _ _ Hl Hres) as (t & i & _ & Hpd & Hidx & _).
  pose proof (calm_run (Some (wr_provider r, ok (wr_response r))) _ _ _ Has) as Hrun. rewrite Ec, Ef in Hrun.
  unfold next_result in Hrun. cbn [calm_round arrival] in Hrun. rewrite Hpd in Hrun. pose proof Has as [Hc _].
  unfold received. rewrite Hidx, Hn. unfold mbind, st_bind in Hrun.
  destruct (take_result m n (wr_provider r) i (ok (wr_response r)) (job p)) as [d' [u|e]].
  - unfold simulates. cbn. eexists. by eapply leads_snoc.
  - unfold simulates. cbn. eapply leads_end; [done..|]. right. eauto.
Qed.

Lemma timeout_simulates p : phase p = Waiting -> simulates p -> simulates (leave (Err TimedOut) p).
Proof.
  intros Hph. unfold simulates at 1. rewrite Hph. intros (rounds & d & a & Hlead & Has & Ec & Ef).
  pose proof (calm_run None _ _ _ Has) as Hrun. rewrite Ec, Ef in Hrun. pose proof Has as [Hc _].
  unfold simulates. cbn. eapply leads_end; [done..|]. right. eexists. split; [exact Hrun|done].
Qed.

Lemma pool_step_simulates base p p' :
  pool_step m p p' -> pool_ok base p -> len (workers p) = n -> simulates p -> simulates p'.
Proof.
  intros [p0 Hp Hc|p0 Hp Hc|p0 Hp Hc|p0 slot rest a Hp|p0 a Hp|p0 r rest Hp Hr|p0 Hp Hr|p0 o slot rest Hp|p0 o slot rest t Hp Ht He|p0 o Hp|p0 slot t t' sent Ht Hstep] Hok Hn.
  - unfold simulates. rewrite Hp. cbn. intros [rounds Hl]. exists rounds. specialize (Hl []). rewrite app_nil_r in Hl. rewrite Hl. cbn. by rewrite Hc.
  - unfold simulates. rewrite Hp. cbn. intros [rounds Hl]. apply (leads_end rounds (job p0) (mkRound false [] None)); [done..|]. right. eauto.
  - unfold simulates. rewrite Hp. cbn. intros [rounds Hl]. exists rounds, (job p0), []. unfold pool_slots. rewrite Hn. split_and!; [done|done|by split].
  - unfold pool_ok in Hok. rewrite Hp in Hok. destruct Hok. by apply (assign_to_simulates base).
  - by apply assigned_simulates.
  - unfold pool_ok in Hok. rewrite Hp in Hok. destruct Hok. by apply (received_simulates base).
  - by apply timeout_simulates.
  - unfold simulates. by rewrite Hp.
  - unfold simulates. by rewrite Hp.
  - unfold simulates. by rewrite Hp.
  - done.
Qed.
End Simulation.

(** ** The number of steps *)

Definition is_missing (c : ChunkState) : bool := match c with Missing => true | _ => false end.

(** What the scheduler can still cost: a chunk to request, a request under way, a provider
    that can fail. *)
Definition schedule_weight (n : Z) (s : Scheduler) : Z :=
  (n + 5) * count is_missing (s_chunks s) + (n + 3) * count is_in_flight (s_chunks s) + (n + 5) * count active (s_providers s).

Definition worker_weight (t : ProviderWorker) : Z :=
  2 * len (pw_commands t) + match pw_activity t with Ended => 0 | Ending | Idle => 1 | Fetching _ => 2 end.

Definition phase_weight (n : Z) (ph : Phase) : Z :=
  match ph with
  | Checking => 5 * n + 4
  | Assigning rest _ => 4 * n + 3 + len rest
  | Waiting => 4 * n + 2
  | Finishing _ rest => 4 * len rest + 1
  | Joining _ _ rest => 4 * len rest + 2
  | Returned _ => 0
  end.

Definition pool_weight (n : Z) (p : Pool) : Z :=
  phase_weight n (phase p) + schedule_weight n (scheduler (job p)) + sum worker_weight (workers p).

Lemma len_slots n : 0 <= n -> len (slots n) = n.
Proof. intros Hn. unfold slots. rewrite len_map. unfold len. rewrite length_seq. lia. Qed.

Lemma thread_weight slot t t' sent : thread_step slot t t' sent -> worker_weight t' < worker_weight t.
Proof.
  intros []; unfold worker_weight; cbn [pw_commands pw_activity]; rewrite ?len_cons; try lia. destruct (is_ok response); lia.
Qed.

Lemma sent_weight t c : worker_weight (mkProviderWorker (pw_commands t ++ [c]) (pw_session t) (pw_activity t)) = worker_weight t + 2.
Proof. unfold worker_weight. cbn [pw_commands pw_activity]. rewrite len_app, len_cons, len_nil. lia. Qed.

Lemma count_reject_chunks slot l :
  count is_missing (map (fun c => if held_by slot c then Missing else c) l) = count is_missing l + count (held_by slot) l
  /\ count is_in_flight (map (fun c => if held_by slot c then Missing else c) l) = count is_in_flight l - count (held_by slot) l.
Proof.
  induction l as [|c l [IH1 IH2]]; [done|]. cbn [map]. rewrite !count_cons, IH1, IH2. unfold held_by.
  destruct (bool_decide_reflect (c = InFlight slot)) as [->|]; cbn; lia.
Qed.

(** Accepting and excluding pay for the next round. *)
Lemma accept_weight base n s slot i st :
  sched_inv base s -> get (s_providers s) slot = Some st -> get (s_chunks s) i = Some (InFlight slot) ->
  schedule_weight n (accept s slot i).1 = schedule_weight n s - (n + 3).
Proof.
  intros Hs Hst Hi. destruct (accept_cases base s slot i Hs) as [(_ & _ & st0 & Hst0 & _ & ->)|[? _]]; [|done].
  rewrite Hst in Hst0. injection Hst0 as <-. unfold schedule_weight. cbn [fst s_chunks s_providers].
  rewrite !(count_set_at _ _ _ _ _ Hi), (count_set_at _ _ _ _ _ Hst). cbn. destruct (active st); lia.
Qed.

Lemma reject_weight base n s slot st i :
  sched_inv base s -> get (s_providers s) slot = Some st -> get (s_chunks s) i = Some (InFlight slot) ->
  schedule_weight n (reject s slot) = schedule_weight n s - (n + 3).
Proof.
  intros Hs Hst Hi. destruct (inv_offered _ _ Hs i slot Hi) as (st1 & Hst1 & Hb & Hact & _). rewrite Hst in Hst1. injection Hst1 as <-.
  pose proof (inv_held _ _ Hs slot) as Hh. rewrite Hst, Hb in Hh.
  destruct (reject_cases base s slot Hs) as [(st0 & Hst0 & ->)|[? _]]; [|congruence]. rewrite Hst in Hst0. injection Hst0 as <-.
  unfold schedule_weight. cbn [s_chunks s_providers]. destruct (count_reject_chunks slot (s_chunks s)) as [-> ->].
  rewrite (count_set_at _ _ _ _ _ Hst), Hh. cbn. rewrite Hact. lia.
Qed.

Section Measure.
Context `{Blake3} `{Postcard} (m : Manifest) (base n : Z).

Lemma leave_weight o p : len (workers p) = n -> pool_weight n (leave o p) = 4 * n + 1 + schedule_weight n (scheduler (job p)) + sum worker_weight (workers p).
Proof.
  intros Hn. unfold pool_weight, leave, pool_slots. cbn [goto phase job workers phase_weight]. rewrite len_slots; [lia|].
  subst n. apply len_nonneg.
Qed.

Lemma assign_to_weight p slot rest a :
  loop_ok base p -> len (workers p) = n -> phase p = Assigning (slot :: rest) a ->
  pool_weight n (assign_to m slot rest a p) < pool_weight n p.
Proof.
  intros Hl Hn Hph. pose proof (len_nonneg (workers p)). pose proof (len_nonneg rest).
  assert (pool_weight n p = 4 * n + 4 + len rest + schedule_weight n (scheduler (job p)) + sum worker_weight (workers p)) as ->.
  { unfold pool_weight. rewrite Hph. cbn [phase_weight]. rewrite len_cons. lia. }
  assert (forall s i, assign (scheduler (job p)) slot = (s, Some i) -> schedule_weight n s = schedule_weight n (scheduler (job p)) - 2) as Hs.
  { intros s i Ea. destruct (assign_Some _ _ _ _ _ (lo_sched _ _ Hl) Ea) as [[_ ?]|(st & j & Hst & _ & _ & Hj & _ & _ & _ & ->)]; [done|].
    unfold schedule_weight. cbn [s_chunks s_providers]. rewrite !(count_set_at _ _ _ _ _ Hj), (count_set_at _ _ _ _ _ Hst). cbn. lia. }
  destruct (assign_to_cases m base p slot rest a Hl)
    as [[_ ->]|[(s & i & e & Ea & _ & ->)|(s & st & t & i & bytes & Ea & _ & _ & _ & _ & _ & _ & Ht & Hidle & Hc & _ & _ & ->)]].
  - unfold pool_weight. cbn [goto phase job workers phase_weight]. lia.
  - rewrite leave_weight by done. cbn [job workers with_scheduler scheduler]. rewrite (Hs _ _ Ea). lia.
  - unfold pool_weight. cbn [phase job workers phase_weight scheduler]. rewrite (Hs _ _ Ea), (sum_set_at _ _ _ _ _ Ht).
    assert (worker_weight t = 1) as -> by (unfold worker_weight; by rewrite Hidle, Hc).
    match goal with |- context [worker_weight ?u] => change (worker_weight u) with 3 end. lia.
Qed.

Lemma received_weight p r rest :
  loop_ok base p -> len (workers p) = n -> phase p = Waiting -> results p = r :: rest ->
  pool_weight n (received m r rest p) < pool_weight n p.
Proof.
  intros Hl Hn Hph Hres. destruct (head_answers _ _ _ _ Hl Hres) as (t & i & _ & _ & Hidx & Hi & _).
  pose proof (len_nonneg (workers p)). destruct (inv_offered _ _ (lo_sched _ _ Hl) i _ Hi) as (st & Hst & _).
  pose proof (accept_weight _ n _ _ _ _ (lo_sched _ _ Hl) Hst Hi) as Hacc.
  pose proof (reject_weight _ n _ _ _ _ (lo_sched _ _ Hl) Hst Hi) as Hrej.
  assert (pool_weight n p = 4 * n + 2 + schedule_weight n (scheduler (job p)) + sum worker_weight (workers p)) as ->
    by (unfold pool_weight; by rewrite Hph).
  unfold received. rewrite Hidx. destruct (take_result _ _ _ _ _ _) as [d' o] eqn:E.
  destruct (take_result_cases _ _ _ _ _ _ _ _ E) as [_ Hcase].
  assert (schedule_weight n (scheduler d') = schedule_weight n (scheduler (job p)) - (n + 3)
    \/ (schedule_weight n (scheduler d') = schedule_weight n (scheduler (job p)) /\ exists e, o = Err e)) as Hw.
  { destruct Hcase as [[_ Ha]|[->|[[->| ->] He]]]; [rewrite Ha in Hacc; auto|auto..]. }
  destruct o as [u|e].
  - unfold pool_weight. cbn [phase job workers phase_weight]. destruct Hw as [->|[_ [e ?]]]; [lia|done].
  - rewrite leave_weight by done. cbn [job workers]. destruct Hw as [->|[-> _]]; lia.
Qed.

Lemma pool_step_weight p p' :
  pool_step m p p' -> pool_ok base p -> len (workers p) = n -> pool_weight n p' < pool_weight n p.
Proof.
  intros [p0 Hp Hc|p0 Hp Hc|p0 Hp Hc|p0 slot rest a Hp|p0 a Hp|p0 r rest Hp Hr|p0 Hp Hr|p0 o slot rest Hp|p0 o slot rest t Hp Ht He|p0 o Hp|p0 slot t t' sent Ht Hstep] Hok Hn;
    unfold pool_ok in Hok; rewrite ?Hp in Hok; assert (0 <= n) by (rewrite <- Hn; apply len_nonneg).
  - rewrite leave_weight by done. unfold pool_weight. rewrite Hp. cbn [phase_weight]. lia.
  - rewrite leave_weight by done. unfold pool_weight. rewrite Hp. cbn [phase_weight]. lia.
  - unfold pool_weight, pool_slots. rewrite Hp, Hn. cbn [goto phase job workers phase_weight]. rewrite len_slots; lia.
  - destruct Hok. by apply assign_to_weight.
  - unfold after_assignment. destruct (is_complete _); [|destruct (_ && _)].
    1,2: rewrite leave_weight by done; unfold pool_weight; rewrite Hp; cbn [phase_weight]; rewrite len_nil; lia.
    unfold pool_weight. rewrite Hp. cbn [goto phase job workers phase_weight]. rewrite len_nil. lia.
  - destruct Hok. by apply received_weight.
  - rewrite leave_weight by done. unfold pool_weight. rewrite Hp. cbn [phase_weight]. lia.
  - destruct Hok as (Hr & _). apply Forall_cons_iff in Hr as [Hslot _]. destruct (proj2 (get_is_Some _ _) Hslot) as [t Ht].
    unfold pool_weight, send_command. rewrite Hp, Ht. cbn [phase job workers phase_weight]. rewrite len_cons.
    destruct (is_ended t); cbn [fst]; [lia|]. rewrite (sum_set_at _ _ _ _ _ Ht). rewrite sent_weight. lia.
  - unfold pool_weight. rewrite Hp. cbn [goto phase job workers phase_weight]. lia.
  - unfold pool_weight. rewrite Hp. cbn [goto phase job workers phase_weight]. unfold len. cbn [length]. lia.
  - unfold pool_weight. cbn [phase job workers]. rewrite (sum_set_at _ _ _ _ _ Ht). pose proof (thread_weight _ _ _ _ Hstep). lia.
Qed.

Lemma pool_weight_nonneg p : 0 <= n -> 0 <= pool_weight n p.
Proof.
  intros Hn. unfold pool_weight.
  assert (0 <= sum worker_weight (workers p)).
  { apply sum_nonneg. intros t. unfold worker_weight. pose proof (len_nonneg (pw_commands t)). destruct (pw_activity t); lia. }
  assert (0 <= schedule_weight n (scheduler (job p))).
  { unfold schedule_weight. pose proof (count_nonneg is_missing (s_chunks (scheduler (job p)))).
    pose proof (count_nonneg is_in_flight (s_chunks (scheduler (job p)))).
    pose proof (count_nonneg active (s_providers (scheduler (job p)))). nia. }
  destruct (phase p); cbn [phase_weight]; try pose proof (len_nonneg slots); lia.
Qed.
End Measure.

(** ** Progress *)

Section Progress.
Context `{Blake3} `{Postcard} (m : Manifest) (base : Z).

Lemma told_moves slot t : can_leave t -> is_ended t = false -> exists t' sent, thread_step slot t t' sent.
Proof.
  destruct t as [commands session []]; cbn; intros Hc He; try done.
  - destruct commands as [|[index bytes|] rest]; [by apply not_elem_of_nil in Hc|..]; eexists _, _; econstructor.
  - destruct (worker_fetch index session) as [session' response] eqn:E. eexists _, _. by econstructor.
  - eexists _, _. constructor.
Qed.

(** While the loop waits with nothing to read, the thread of an outstanding request acts. *)
Lemma waiting_moves p : loop_ok base p -> awaited p -> results p = [] ->
  exists slot i t t' sent, get (pending (job p)) slot = Some (Some i) /\ get (workers p) slot = Some t /\ thread_step slot t t' sent.
Proof.
  intros [Hs Hslots Hr Hn Hlp] (slot & i & Hp) Hres. pose proof (get_Some_range _ _ _ Hp) as Hrange. rewrite Hlp in Hrange.
  destruct (Hslots _ Hrange) as (t & st & q & Ht & _ & Hq & Hcase). rewrite Hp in Hq. injection Hq as <-.
  destruct Hcase as [_ Hu]. rewrite Hres in Hu. destruct t as [commands session activity].
  destruct Hu as [(Ha & (e & Hc) & _)|[(Ha & Hc & _)|(response & ? & _)]]; cbn in *; simplify_eq.
  - eexists _, _, _, _, _. split_and!; [done..|constructor].
  - destruct (worker_fetch i session) as [session' response] eqn:E. eexists _, _, _, _, _. split_and!; [done..|by constructor].
Qed.

Lemma pool_progress p : pool_ok base p ->
  (exists p', pool_step m p p') \/ exists o, phase p = Returned o /\ Forall (fun t => is_ended t = true) (workers p).
Proof.
  unfold pool_ok. destruct (phase p) as [|[|slot rest] a| |o [|slot rest]|o slot rest|o] eqn:Hp; intros Hok.
  - left. destruct (is_complete (scheduler (job p))) eqn:Hc; eexists; [by apply step_complete|by apply step_continue].
  - left. eexists. by apply step_assigned.
  - left. eexists. by apply step_assign.
  - left. destruct (results p) as [|r rest] eqn:Hr; eexists; [by apply step_timeout|by apply step_received].
  - left. eexists. by apply step_return.
  - left. eexists. by apply step_finish.
  - left. destruct Hok as (_ & Htold & _). destruct (Htold slot eq_refl) as (t & Ht & Hc). destruct (is_ended t) eqn:He.
    + eexists. by eapply step_join.
    + destruct (told_moves slot t Hc He) as (t' & sent & Hstep). eexists. by eapply step_worker.
  - right. exists o. split; [done|]. destruct Hok as (_ & _ & Hall). apply Forall_forall. intros t Hin. apply elem_get in Hin as [slot Ht].
    destruct (Hall _ _ Ht) as [Hin|[?|?]]; [by apply not_elem_of_nil in Hin|done..].
Qed.

Lemma pool_step_len p p' : pool_step m p p' -> len (workers p') = len (workers p).
Proof.
  intros []; cbn; rewrite ?len_set_at; try done.
  - unfold assign_to. destruct (assign _ _) as [s [i|]]; [|done]. destruct (expected_chunk_length m i); [|done].
    unfold send_command. destruct (get _ _) as [t|]; [|done]. destruct (is_ended t); [done|]. cbn. by rewrite len_set_at.
  - unfold after_assignment. destruct (is_complete _); [done|]. by destruct (_ && _).
  - unfold received. by destruct (take_result _ _ _ _ _ _) as [d [u|e]].
  - unfold send_command. destruct (get _ _) as [t|]; [|done]. destruct (is_ended t); [done|]. cbn. by rewrite len_set_at.
Qed.

Lemma nsteps_weight n k p p' : pool_ok base p -> len (workers p) = n -> nsteps (pool_step m) k p p' ->
  pool_ok base p' /\ len (workers p') = n /\ Z.of_nat k + pool_weight n p' <= pool_weight n p.
Proof.
  intros Hok Hn Hs. induction Hs as [p|k p1 p2 p3 H12 _ IH]; [split_and!; [done..|lia]|].
  pose proof (pool_step_weight m base n _ _ H12 Hok Hn). apply (pool_step_ok m base _ _ H12) in Hok.
  rewrite <- (pool_step_len _ _ H12) in Hn. destruct (IH Hok Hn) as (? & ? & ?). split_and!; [done..|lia].
Qed.
End Progress.

(** ** The whole of [receive_swarm] *)

Section Runs.
Context `{Blake3} `{Postcard}.

(** What happens before the threads start. *)
Definition prepare_swarm (first : Manifest * PieceAvailability) (others : list (Manifest * PieceAvailability))
  (output : list Z) (w : World) : World * result DownloadError Download :=
  let providers := first :: others in
  let m := first.1 in
  if any (fun p => negb (bool_decide (p.1 = m))) providers then (w, Err InconsistentManifests)
  else
    match open output m w with
    | (w, Err e) => (w, Err (ResumeFailed e))
    | (w, Ok (opened, _)) =>
        let completed := r_completed (record opened) in
        match progress_loop m (enumerate completed) 0 0 with
        | Err e => (w, Err e)
        | Ok (bytes, chunks) =>
            let report := mkProgress (m_length m) bytes (len (m_chunks m)) chunks (len providers) 0 0 in
            match Scheduler_new (len (m_chunks m)) (map snd providers) completed with
            | Err e => (w, Err (ScheduleFailed e))
            | Ok s =>
                if negb (can_finish s) then (w, Err NotCovered)
                else (w, Ok (mkDownload s opened w (replicate (length providers) None) [report]))
            end
        end
    end.

(** [receive_swarm] with the sessions of its providers, in some interleaving. *)
Inductive receive_run (first : Manifest * PieceAvailability) (others : list (Manifest * PieceAvailability))
  (sessions : list Channel) (content_id : ContentId) (output : list Z) (w : World)
  : World -> result DownloadError Scheduler -> Prop :=
| run_refused w' e : prepare_swarm first others output w = (w', Err e) ->
    receive_run first others sessions content_id output w w' (Err e)
| run_failed w1 d p e : prepare_swarm first others output w = (w1, Ok d) ->
    rtc (pool_step first.1) (start_pool d sessions) p -> phase p = Returned (Err e) ->
    receive_run first others sessions content_id output w (world (job p)) (Err e)
| run_finished w1 d p w' r : prepare_swarm first others output w = (w1, Ok d) ->
    rtc (pool_step first.1) (start_pool d sessions) p -> phase p = Returned (Ok tt) ->
    finish (resume (job p)) output content_id (world (job p)) = (w', r) ->
    receive_run first others sessions content_id output w w'
      (match r with Ok _ => Ok (scheduler (job p)) | Err e => Err (ResumeFailed e) end).
End Runs.

Section Results.
Context `{Blake3} `{Postcard}.

Lemma prepare_swarm_job first others output w w1 d :
  prepare_swarm first others output w = (w1, Ok d) ->
  validate_shape first.1 = Ok tt
  /\ Scheduler_new (len (m_chunks first.1)) (map snd (first :: others)) (r_completed (record (resume d))) = Ok (scheduler d)
  /\ pending d = replicate (length (first :: others)) None.
Proof.
  unfold prepare_swarm. destruct (any _ _); [done|]. destruct (open _ _ _) as [w2 [[opened k]|e]] eqn:Eo; [|done].
  destruct (progress_loop _ _ _ _) as [[bytes chunks]|e]; [|done]. destruct (Scheduler_new _ _ _) as [s|e] eqn:Es; [|done].
  destruct (negb _); [done|]. intros [= <- <-]. split_and!; [|done..].
  unfold open in Eo. apply st_ok_inv in Eo as (w0 & [] & E0 & _). injection E0 as _ Hs. by apply map_err_Ok in Hs.
Qed.

(** The threads start with nothing to do. *)
Lemma start_ok first others output w w1 d sessions :
  prepare_swarm first others output w = (w1, Ok d) -> len sessions = len (first :: others) ->
  exists base, pool_ok base (start_pool d sessions).
Proof.
  intros (_ & Hs & Hp)%prepare_swarm_job Hlen. set (completed := r_completed _) in *. exists (count (fun d => d) completed).
  pose proof (new_inv _ _ _ _ Hs) as Hinv. apply new_shape in Hs as [_ Hs].
  unfold pool_ok, start_pool. cbn [phase]. split; cbn [job workers results]; rewrite ?len_map; try done.
  - intros slot Hr. destruct (proj2 (get_is_Some sessions slot)) as [c Hc]; [done|].
    destruct (proj2 (get_is_Some (first :: others) slot)) as [provider Hprovider]; [lia|].
    eexists _, _, None. rewrite Hs. cbn [s_providers]. rewrite !get_map, Hc, Hprovider. split_and!; [done|done| |].
    + rewrite Hp. unfold get. rewrite (proj2 (Z.leb_le 0 slot)) by lia. apply lookup_replicate. split; [done|]. unfold len in *. lia.
    + split_and!; try done. by left.
  - rewrite Hs. cbn [s_providers]. by rewrite !len_map.
  - rewrite Hp. unfold len in *. rewrite length_replicate. lia.
Qed.

(** [n] providers and [chunks] chunks *)
Definition step_bound (n chunks : Z) : Z := (n + 5) * (chunks + n) + 6 * n + 4.

Lemma start_weight first others output w w1 d sessions :
  prepare_swarm first others output w = (w1, Ok d) -> len sessions = len (first :: others) ->
  pool_weight (len sessions) (start_pool d sessions) <= step_bound (len sessions) (len (m_chunks first.1)).
Proof.
  intros (_ & Hs & Hp)%prepare_swarm_job Hlen. set (completed := r_completed _) in *. apply new_shape in Hs as [Hn Hs]. pose proof (len_nonneg sessions) as Hpos.
  unfold pool_weight, start_pool. cbn [phase phase_weight job workers]. unfold schedule_weight. rewrite Hs. cbn [s_chunks s_providers].
  assert (sum worker_weight (map spawn_provider_worker sessions) = len sessions) as ->.
  { clear. induction sessions as [|c l IH]; [done|]. cbn [map]. rewrite sum_cons, len_cons, IH. change (worker_weight _) with 1. lia. }
  assert (forall l, count is_in_flight (map (fun done : bool => if done then ChunkComplete else Missing) l) = 0) as ->.
  { clear. induction l as [|[] l IH]; [done|..]; cbn [map]; by rewrite count_cons, IH. }
  pose proof (count_le_len active (map (fun pieces => mkProviderState pieces true false 0 0) (map snd (first :: others)))) as Ha.
  rewrite !len_map, <- Hlen in Ha.
  pose proof (count_le_len is_missing (map (fun done : bool => if done then ChunkComplete else Missing) completed)) as Hm.
  rewrite len_map, <- Hn in Hm. unfold step_bound. nia.
Qed.

Lemma start_simulates m n d sessions : simulates m n d (start_pool d sessions).
Proof. by exists []. Qed.

Lemma run_simulates m base d sessions p :
  rtc (pool_step m) (start_pool d sessions) p -> pool_ok base (start_pool d sessions) -> simulates m (len sessions) d p.
Proof.
  intros Hr Hok. assert (len (workers (start_pool d sessions)) = len sessions) as Hn by (cbn; apply len_map).
  pose proof (start_simulates m (len sessions) d sessions) as Hs. revert Hok Hn Hs.
  induction Hr as [p|p1 p2 p3 H12 _ IH]; intros Hok Hn Hs; [done|].
  apply IH; [by eapply pool_step_ok|by rewrite (pool_step_len _ _ _ H12)|by eapply pool_step_simulates].
Qed.

Lemma receive_swarm_prepared first others content_id output rounds w :
  receive_swarm first others content_id output rounds w
  = match prepare_swarm first others output w with
    | (w, Err e) => (w, Some (Err e))
    | (w, Ok d) =>
        match download_chunks first.1 (len (first :: others)) rounds d with
        | (d, None) => (world d, None)
        | (d, Some (Err e)) => (world d, Some (Err e))
        | (d, Some (Ok _)) =>
            match finish (resume d) output content_id (world d) with
            | (w, Err e) => (w, Some (Err (ResumeFailed e)))
            | (w, Ok _) => (w, Some (Ok (scheduler d)))
            end
        end
    end.
Proof.
  unfold receive_swarm, prepare_swarm. destruct (any _ _); [done|]. destruct (open _ _ _) as [w2 [[opened k]|e]]; [|done].
  destruct (progress_loop _ _ _ _) as [[bytes chunks]|e]; [|done]. destruct (Scheduler_new _ _ _) as [s|e]; [|done].
  by destruct (negb _).
Qed.

(** C11: every run of [receive_swarm] with its threads, in whatever order they act, is a run
    of the loop for some rounds: same files, same outcome, same statistics.  In particular a
    result always answers the request its worker has outstanding, and a command never meets
    a thread that is gone. *)
Theorem threads_refine_loop first others sessions content_id output w w' r :
  len sessions = len (first :: others) ->
  receive_run first others sessions content_id output w w' r ->
  exists rounds, receive_swarm first others content_id output rounds w = (w', Some r).
Proof.
  intros Hlen [w1 e Hp|w1 d p e Hp Hrun Hph|w1 d p w2 r0 Hp Hrun Hph Hf]; setoid_rewrite receive_swarm_prepared; rewrite Hp; [by exists []|..];
    destruct (start_ok _ _ _ _ _ _ _ Hp Hlen) as [base Hok]; pose proof (run_simulates _ _ _ _ _ Hrun Hok) as Hs;
    unfold simulates in Hs; rewrite Hph, Hlen in Hs; destruct Hs as [rounds Hs]; exists rounds; rewrite Hs; [done|].
  rewrite Hf. by destruct r0.
Qed.

(** C12: every run of the threads of a download ends.  It has at most [step_bound] steps;
    while the loop has not returned some step is possible, and once it has, every thread
    has ended.  When the loop waits and the channel is empty, the thread of an outstanding
    request is at work: the loop never waits for an answer nobody prepares. *)
Theorem threads_end first others sessions output w w1 d k p :
  len sessions = len (first :: others) ->
  prepare_swarm first others output w = (w1, Ok d) ->
  nsteps (pool_step first.1) k (start_pool d sessions) p ->
  Z.of_nat k <= step_bound (len sessions) (len (m_chunks first.1))
  /\ ((exists p', pool_step first.1 p p') \/ exists o, phase p = Returned o /\ Forall (fun t => is_ended t = true) (workers p))
  /\ (phase p = Waiting -> results p = [] ->
      exists slot i t t' sent, get (pending (job p)) slot = Some (Some i) /\ get (workers p) slot = Some t /\ thread_step slot t t' sent).
Proof.
  intros Hlen Hp Hrun. destruct (start_ok _ _ _ _ _ _ _ Hp Hlen) as [base Hok]. pose proof (start_weight _ _ _ _ _ _ _ Hp Hlen) as Hw.
  destruct (nsteps_weight first.1 base (len sessions) k _ _ Hok ltac:(cbn; apply len_map) Hrun) as (Hok' & Hn & Hk).
  pose proof (pool_weight_nonneg (len sessions) p (len_nonneg _)). split_and!; [lia|by apply (pool_progress _ base)|].
  intros Hph Hres. unfold pool_ok in Hok'. rewrite Hph in Hok'. destruct Hok'. by apply (waiting_moves base).
Qed.
End Results.

(** ** Limits and timeouts *)

(** The schedule of the limiter the threads share, after one reservation of a chunk at each
    of the times. *)
Definition backlog (rate : Z) (times : list Z) : RateSchedule :=
  foldl (fun r now => (reserve r now CHUNK_SIZE).1) (RateSchedule_new rate) times.

Lemma backlog_next rate times :
  0 < rate -> len times * div_ceil (CHUNK_SIZE * 1000000000) rate <= U64_MAX ->
  bytes_per_second (backlog rate times) = rate
  /\ len times * div_ceil (CHUNK_SIZE * 1000000000) rate <= next_available_ns (backlog rate times).
Proof.
  intros Hrate. unfold backlog. induction times as [|now times IH] using rev_ind; [done|].
  rewrite foldl_snoc, len_app, len_cons, len_nil. set (service := div_ceil _ _) in *. intros Hmax.
  assert (0 <= service) by (apply div_ceil_nonneg; [rewrite CHUNK_SIZE_val|]; lia). destruct IH as [Hb Hn]; [lia|].
  set (r := foldl _ _ _) in *. unfold reserve. rewrite Hb, (proj2 (Z.eqb_neq rate 0)), (proj2 (Z.eqb_neq CHUNK_SIZE 0)) by (rewrite ?CHUNK_SIZE_val; lia).
  cbn [orb fst bytes_per_second next_available_ns]. split; [done|].
  replace (sat_mul U128_MAX CHUNK_SIZE 1000000000) with (CHUNK_SIZE * 1000000000) by (by rewrite CHUNK_SIZE_val).
  fold service. unfold sat_add, U128_MAX, U64_MAX in *. lia.
Qed.

(** With a low limit a thread sleeps longer than [patience]: after reservations of as many
    chunks as [times], when their bytes take longer than [now + patience] at the rate. *)
Lemma slow_limit_outlasts rate times now patience :
  0 < rate -> 0 <= now -> 0 <= patience ->
  len times * div_ceil (CHUNK_SIZE * 1000000000) rate <= U64_MAX ->
  (now + patience) * rate < len times * (CHUNK_SIZE * 1000000000) ->
  patience < (reserve (backlog rate times) now CHUNK_SIZE).2.
Proof.
  intros Hrate Hnow Hp Hmax Hslow. destruct (backlog_next rate times Hrate Hmax) as [Hb Hn].
  pose proof (div_ceil_spec (CHUNK_SIZE * 1000000000) rate ltac:(rewrite CHUNK_SIZE_val; lia) Hrate) as Hd.
  pose proof (len_nonneg times). set (service := div_ceil _ _) in *. set (r := backlog rate times) in *.
  assert (now + patience < len times * service) by nia.
  unfold reserve. rewrite Hb, (proj2 (Z.eqb_neq rate 0)), (proj2 (Z.eqb_neq CHUNK_SIZE 0)) by (rewrite ?CHUNK_SIZE_val; lia).
  cbn [orb snd]. unfold duration_from_nanos, try_from, sat_sub. destruct (_ && _); cbn; unfold U64_MAX in *; lia.
Qed.

(** A limit of 3000 bytes per second: the second chunk of a download comes after the loop has
    stopped waiting.  One of 50000 with eight providers: a provider waits for its next
    request longer than its session does. *)
Example limits_defeat_timeouts :
  WORKER_TIMEOUT < (reserve (backlog 3000 [0]) 100000000 CHUNK_SIZE).2
  /\ OVERLAY_SESSION_TIMEOUT < (reserve (backlog 50000 (replicate 8 0)) 100000000 CHUNK_SIZE).2.
Proof. split; vm_compute; reflexivity. Qed.

(** ** The properties at a concrete input *)

Section Interleaving.
Context `{Blake3} `{Postcard} (m : Manifest).

Lemma thread_act_step slot t t' sent : thread_act slot t = Some (t', sent) -> thread_step slot t t' sent.
Proof.
  destruct t as [commands session [|index| |]]; cbn; [destruct commands as [|[]]; [done|..]| |destruct commands as [|[]]|destruct commands as [|[]]];
    try done; try (intros [= <- <-]; constructor).
  assert (forall commands0, (let '(session0, response) := worker_fetch index session in
    Some (mkProviderWorker commands0 session0 (if is_ok response then Idle else Ending), [mkWorkerResult slot index response])) = Some (t', sent) ->
    thread_step slot (mkProviderWorker commands0 session (Fetching index)) t' sent) as Hf.
  { intros commands0. destruct (worker_fetch index session) as [session' response] eqn:E. intros [= <- <-]. by constructor. }
  destruct commands as [|[]]; apply Hf.
Qed.

Lemma act_step who p p' : act m who p = Some p' -> pool_step m p p'.
Proof.
  destruct who as [slot|]; cbn.
  - intros (t & Ht & Hr)%bind_Some. apply bind_Some in Hr as ([t' sent] & Ha & [= <-]).
    eapply step_worker; [done|by apply thread_act_step].
  - destruct (phase p) as [|[|slot rest] a| |o [|slot rest]|o slot rest|o] eqn:Hp; try (intros [= <-]).
    + destruct (is_complete _) eqn:Hc; [by apply step_complete|by apply step_continue].
    + by apply step_assigned.
    + by apply step_assign.
    + destruct (results p) eqn:Hr; [by apply step_timeout|by apply step_received].
    + by apply step_return.
    + by apply step_finish.
    + intros (t & Ht & Hr)%bind_Some. destruct (is_ended t) eqn:He; [|done]. injection Hr as <-. by eapply step_join.
Qed.

(** A sequence of turns is a run. *)
Lemma run_turns_steps turns p p' : run_turns m turns p = Some p' -> nsteps (pool_step m) (length turns) p p'.
Proof.
  revert p. induction turns as [|who turns IH]; intros p; cbn; [intros [= <-]; constructor|].
  intros (p1 & Ha & Hr)%bind_Some. econstructor; [by eapply act_step|by apply IH].
Qed.
End Interleaving.

Import Toy ToyPostcard.

(** Two providers, one chunk: the first answers while the second rests, then both are
    finished and joined. *)
Definition sample_sessions : list Channel := [mkChannel [MChunk sample_chunk] [] []; mkChannel [] [] []].
Definition sample_providers : list (Manifest * PieceAvailability) := [(sample_manifest, availability_all 1)].
Definition sample_turns : list (option Z) :=
  [None; None; None; None; Some 0; Some 0; None; None; None; Some 0; Some 0; None; None; Some 1; Some 1; None; None].

(** The pool of the samples after some turns, evaluated on demand. *)
Definition sample_run (turns : list (option Z)) : option Pool :=
  match (prepare_swarm (sample_manifest, availability_all 1) sample_providers sample_output (mkWorld ∅ [])).2 with
  | Ok d => run_turns sample_manifest turns (start_pool d sample_sessions)
  | Err _ => None
  end.

Lemma threads_refine_loop_witness :
  exists w' s rounds, receive_run (sample_manifest, availability_all 1) sample_providers sample_sessions (Toy.checksum (str "abc")) sample_output
      (mkWorld ∅ []) w' (Ok s)
    /\ receive_swarm (sample_manifest, availability_all 1) sample_providers (Toy.checksum (str "abc")) sample_output rounds (mkWorld ∅ []) = (w', Some (Ok s))
    /\ files w' !! sample_output = Some (str "abc").
Proof.
  destruct (prepare_swarm (sample_manifest, availability_all 1) sample_providers sample_output (mkWorld ∅ [])) as [w1 [d|e]] eqn:Ep;
    [|vm_compute in Ep; discriminate].
  assert (exists p, run_turns sample_manifest sample_turns (start_pool d sample_sessions) = Some p /\ phase p = Returned (Ok tt)
    /\ exists w', finish (resume (job p)) sample_output (Toy.checksum (str "abc")) (world (job p)) = (w', Ok tt)
         /\ files w' !! sample_output = Some (str "abc")) as (p & Hi & Hph & w' & Hf & Ho).
  { vm_compute in Ep. injection Ep as _ <-. eexists. split; [vm_compute; reflexivity|]. split; [reflexivity|].
    eexists. split; [vm_compute; reflexivity|]. vm_compute. reflexivity. }
  assert (receive_run (sample_manifest, availability_all 1) sample_providers sample_sessions (Toy.checksum (str "abc")) sample_output
    (mkWorld ∅ []) w' (Ok (scheduler (job p)))) as Hrun.
  { exact (run_finished _ _ _ _ _ _ w1 d p w' (Ok tt) Ep (rtc_nsteps_2 _ _ _ (run_turns_steps _ _ _ _ Hi)) Hph Hf). }
  destruct (threads_refine_loop (sample_manifest, availability_all 1) sample_providers sample_sessions (Toy.checksum (str "abc")) sample_output
    (mkWorld ∅ []) w' (Ok (scheduler (job p))) eq_refl Hrun) as [rounds Hr].
  exists w', (scheduler (job p)), rounds. split; [exact Hrun|]. split; [exact Hr|exact Ho].
Defined.

Lemma threads_end_witness :
  exists p, sample_run (take 6 sample_turns) = Some p /\ 6 <= step_bound 2 1
    /\ ((exists p', pool_step sample_manifest p p') \/ exists o, phase p = Returned o /\ Forall (fun t => is_ended t = true) (workers p)).
Proof.
  destruct (prepare_swarm (sample_manifest, availability_all 1) sample_providers sample_output (mkWorld ∅ [])) as [w1 [d|e]] eqn:Ep;
    [|vm_compute in Ep; discriminate].
  assert (exists p, run_turns sample_manifest (take 6 sample_turns) (start_pool d sample_sessions) = Some p) as (p & Hi)
    by (vm_compute in Ep; injection Ep as _ <-; eexists; vm_compute; reflexivity).
  exists p. unfold sample_run. rewrite Ep. split; [exact Hi|].
  destruct (threads_end (sample_manifest, availability_all 1) sample_providers sample_sessions sample_output (mkWorld ∅ []) w1 d 6 p
    eq_refl Ep (run_turns_steps _ _ _ _ Hi)) as (Hk & Hp & _).
  split; [exact Hk|exact Hp].
Defined.
