(* ===== verification/Sources.v ===== *)
(** * Sources: one right source per chunk is enough

    The threads of Workers.v with providers of which only some are right: a right provider
    answers every request with the chunk asked for.  The others may send anything or
    nothing.  When every chunk still missing is offered by a right provider and the disk
    works, no interleaving makes the download fail: the loop ends with every chunk, or
    because it was stopped, or because an answer took longer than the timeout. *)
From stdpp Require Import base tactics list numbers option gmap relations.
From Stdlib Require Import ZArith Lia.
From S2P Require Import Prelude Bytes Core Instances Availability Wire Swarm Resume Transfer Download Entry Workers WorkersFacts.
Import stdpp.list.

Local Open Scope Z_scope.

(** ** Results on a working disk *)

Section Calm.
Context `{Blake3} `{Postcard} (m : Manifest) (Hshape : validate_shape m = Ok tt) (Hpos : 0 <= m_length m).

(** The answer to a request for chunk [i]. *)
Definition answers (i : Z) (response : option Chunk) : bool :=
  match response with Some chunk => (c_index chunk =? i) && is_ok (verify_chunk m chunk) | None => false end.

Lemma progress_loop_ok completed bytes chunks :
  Forall (fun c : Z * bool => 0 <= c.1 < len (m_chunks m)) completed -> is_ok (progress_loop m completed bytes chunks) = true.
Proof using Hshape Hpos.
  intros Hc. revert bytes chunks. induction Hc as [|[i []] completed Hi _ IH]; intros bytes chunks; cbn [progress_loop]; [done| |apply IH].
  destruct (chunk_place m i Hshape Hpos Hi) as (Hlen & _ & _ & _ & Hu). cbn in Hi.
  rewrite (proj2 (try_from_Some _ i i)) by lia. cbn [ok_or mbind result_bind]. rewrite Hlen. cbn [map_err mbind result_bind]. apply IH.
Qed.

Lemma enumerate_range {A} (l : list A) : Forall (fun c : Z * A => 0 <= c.1 < len l) (enumerate l).
Proof. apply Forall_forall. intros [i x] Hin. by apply get_enumerate in Hin as [_ ?]. Qed.

(** Reporting succeeds when the record has one mark per chunk. *)
Lemma report_ok n r k d : len (r_completed (record (resume d))) = len (m_chunks m) ->
  exists d', report_verified_progress m n r k d = (d', Ok tt)
    /\ scheduler d' = scheduler d /\ resume d' = resume d /\ world d' = world d /\ pending d' = pending d.
Proof using Hshape Hpos.
  intros Hl. unfold report_verified_progress. pose proof (enumerate_range (r_completed (record (resume d)))) as He. rewrite Hl in He.
  pose proof (progress_loop_ok _ 0 0 He) as Hp. destruct (progress_loop _ _ _ _) as [[bytes chunks]|]; [|done]. eauto 10.
Qed.

(** A verified chunk is written and recorded. *)
Lemma write_calm d chunk w : faults w = [] -> verify_chunk m chunk = Ok tt ->
  exists w' d', write_verified_chunk d m chunk w = (w', (d', Ok tt)) /\ faults w' = []
    /\ r_completed (record d') = set_at (r_completed (record d)) (c_index chunk) true.
Proof using.
  intros Hf Hv. destruct w as [fs fl]. cbn in Hf. subst fl. unfold write_verified_chunk. rewrite Hv. cbn.
  unfold save_state, replace_file, fs_rename, fs_write, primitive, mbind, st_bind. cbn. rewrite lookup_insert_eq. cbn. eauto.
Qed.

(** A result on a working disk: the answer is accepted, anything else excludes the
    provider and ends the loop only when a chunk has lost its last source. *)
Lemma take_calm base n slot i response d :
  sched_inv base (scheduler d) -> get (s_chunks (scheduler d)) i = Some (InFlight slot) ->
  faults (world d) = [] -> len (r_completed (record (resume d))) = len (m_chunks m) ->
  exists d' o, take_result m n slot i response d = (d', o)
    /\ faults (world d') = [] /\ len (r_completed (record (resume d'))) = len (m_chunks m)
    /\ if answers i response then accept (scheduler d) slot i = (scheduler d', Ok tt) /\ o = Ok tt
       else scheduler d' = reject (scheduler d) slot /\ (can_finish (reject (scheduler d) slot) = true -> o = Ok tt).
Proof using Hshape Hpos.
  intros Hs Hi Hf Hl.
  assert (answers i response = false -> exists d' o,
    (let s := reject (scheduler d) slot in
     (_ ← report_verified_progress m n (retries s) (rejected_requests s n);
      if negb (can_finish s) then throw NoHonestProvider else mret tt)
     (with_scheduler s (mkDownload (scheduler d) (resume d) (world d) (set_at (pending d) slot None) (reports d)))) = (d', o)
    /\ faults (world d') = [] /\ len (r_completed (record (resume d'))) = len (m_chunks m)
    /\ scheduler d' = reject (scheduler d) slot /\ (can_finish (reject (scheduler d) slot) = true -> o = Ok tt)) as Hrej.
  { intros _. cbv zeta. set (d1 := with_scheduler _ _).
    destruct (report_ok n (retries (reject (scheduler d) slot)) (rejected_requests (reject (scheduler d) slot) n) d1 Hl) as (d2 & E & Hs2 & Hr2 & Hw2 & _).
    unfold mbind, st_bind. rewrite E. destruct (can_finish _); cbn [negb]; eexists _, _; (split; [reflexivity|]);
      rewrite Hs2, Hr2, Hw2; split_and!; done. }
  unfold take_result. cbn [resume world scheduler pending reports].
  destruct response as [chunk|]; cbn [answers] in *; [|by apply Hrej]. destruct (_ && _) eqn:Ea; [|by apply Hrej].
  apply andb_true_iff in Ea as [<-%Z.eqb_eq Hv]. destruct (verify_chunk m chunk) as [[]|] eqn:Ev; [|done].
  destruct (write_calm (resume d) chunk (world d) Hf Ev) as (w' & rd & -> & Hf' & Hm).
  destruct (accept_cases base _ slot (c_index chunk) Hs) as [(_ & _ & st & _ & _ & ->)|[? _]]; [|done].
  match goal with |- context [report_verified_progress m n ?r ?k ?x] => destruct (report_ok n r k x) as (d2 & E & Hs2 & Hr2 & Hw2 & _) end.
  { cbn. by rewrite Hm, len_set_at. }
  cbn in E |- *. rewrite E. exists d2, (Ok tt). rewrite Hs2, Hr2, Hw2. cbn. rewrite Hm, len_set_at. done.
Qed.
End Calm.

(** ** Right providers *)

Section Supply.
Context `{Blake3} `{Postcard} (m : Manifest) (Hshape : validate_shape m = Ok tt) (Hpos : 0 <= m_length m).
(** The slots of the right providers. *)
Context (right : Z -> bool).

(** A result of a right provider is the answer. *)
Definition right_result (r : WorkerResult) : Prop :=
  right (wr_provider r) = true -> answers m (wr_requested_index r) (ok (wr_response r)) = true.

(** Every chunk that is not complete is offered by a right provider. *)
Definition covered (s : Scheduler) : Prop :=
  forall i c, get (s_chunks s) i = Some c ->
    c = ChunkComplete \/ exists slot st, right slot = true /\ get (s_providers s) slot = Some st /\ contains (availability st) i = true.

Record supplied (base : Z) (p : Pool) : Prop := {
  su_loop : loop_ok base p;
  su_calm : faults (world (job p)) = [];
  su_marks : len (r_completed (record (resume (job p)))) = len (m_chunks m);
  su_chunks : len (s_chunks (scheduler (job p))) = len (m_chunks m);
  su_active : forall slot st, right slot = true -> get (s_providers (scheduler (job p))) slot = Some st -> active st = true;
  su_covered : covered (scheduler (job p))
}.

Definition outcome_fair (s : Scheduler) (o : result DownloadError unit) : Prop :=
  (o = Ok tt /\ is_complete s = true) \/ o = Err FetchStopped \/ o = Err TimedOut.

Definition pool_supplied (base : Z) (p : Pool) : Prop :=
  match phase p with
  | Checking | Waiting => supplied base p
  | Assigning rest a => supplied base p
      /\ (a = false -> forall slot, 0 <= slot < len (workers p) -> slot ∉ rest -> (assign (scheduler (job p)) slot).2 = None)
  | Finishing o _ | Joining o _ _ | Returned o => outcome_fair (scheduler (job p)) o
  end.

Lemma supplied_finishes base s :
  sched_inv base s -> covered s -> (forall slot st, right slot = true -> get (s_providers s) slot = Some st -> active st = true) ->
  can_finish s = true.
Proof.
  intros Hs Hc Ha. unfold can_finish. apply all_true, Forall_forall. intros [i c] Hin. cbn.
  apply get_enumerate in Hin as [Hi Hr]. destruct (Hc i c Hi) as [->|(slot & st & Hright & Hst & Hcont)]; [done|].
  apply orb_true_iff. right. apply Z.gtb_lt. unfold source_count. apply count_pos, Exists_exists. exists st.
  split; [by eapply get_elem|]. pose proof (inv_len _ _ Hs). rewrite (Ha slot st Hright Hst), index_u32_small by lia. exact Hcont.
Qed.

Lemma worker_supplied base ph p slot t t' sent :
  supplied base p -> get (workers p) slot = Some t -> thread_step slot t t' sent ->
  supplied base (mkPool ph (job p) (set_at (workers p) slot t') (results p ++ sent)).
Proof. intros [Hl ? ? ? ? ?] Ht Hstep. split; try done. by eapply worker_loop_ok. Qed.

Lemma supplied_goto base ph p : supplied base p -> supplied base (goto ph p).
Proof. intros []. split; try done. by apply loop_ok_results. Qed.

(** The sources stay when the offers stay and no complete chunk is lost. *)
Lemma covered_mono s s' :
  (forall slot st, get (s_providers s) slot = Some st -> exists st', get (s_providers s') slot = Some st' /\ availability st' = availability st) ->
  (forall j c, get (s_chunks s') j = Some c -> c = ChunkComplete \/ exists c', get (s_chunks s) j = Some c' /\ c' <> ChunkComplete) ->
  covered s -> covered s'.
Proof.
  intros Hp Hc Hcov j c Hj. destruct (Hc j c Hj) as [->|(c' & Hj' & Hne)]; [by left|]. right.
  destruct (Hcov j c' Hj') as [?|(slot & st & Hright & Hst & Hcont)]; [done|].
  destruct (Hp _ _ Hst) as (st' & Hst' & Ha). exists slot, st'. by rewrite Ha.
Qed.

(** One provider changes, not its offer. *)
Lemma offers_set_at (ps : list ProviderState) slot st new :
  get ps slot = Some st -> availability new = availability st ->
  forall q st0, get ps q = Some st0 -> exists st', get (set_at ps slot new) q = Some st' /\ availability st' = availability st0.
Proof.
  intros Hst Ha q st0 Hq. destruct (decide (q = slot)) as [->|Hne].
  - exists new. rewrite (get_set_at_eq _ _ _ _ Hst). by simplify_eq.
  - exists st0. by rewrite (get_set_at_ne _ _ _ _ _ Hst Hne).
Qed.

Lemma assigned_length base s slot s' i :
  sched_inv base s -> len (s_chunks s) = len (m_chunks m) -> assign s slot = (s', Some i) -> is_ok (expected_chunk_length m i) = true.
Proof using Hshape Hpos.
  intros Hs Hlen Ea. destruct (assign_Some _ _ _ _ _ Hs Ea) as [[_ ?]|(st & j & _ & _ & _ & Hj & _ & _ & [= <-] & _)]; [done|].
  apply get_Some_range in Hj. rewrite Hlen in Hj. by rewrite (proj1 (chunk_place m i Hshape Hpos Hj)).
Qed.

(** A request handed out. *)
Lemma assign_to_supplied base p slot rest a :
  phase p = Assigning (slot :: rest) a -> pool_supplied base p -> pool_supplied base (assign_to m slot rest a p).
Proof using Hshape Hpos.
  intros Hph. unfold pool_supplied at 1. rewrite Hph. intros [[Hl Hcalm Hmarks Hchunks Hact Hcov] Hnone].
  pose proof (assign_to_ok m base p slot rest a Hl) as Hok.
  destruct (assign_to_cases m base p slot rest a Hl)
    as [[Ea E]|[(s & i & e & Ea & Ee & _)|(s & st & t & i & bytes & Ea & _ & Hst & Hi & Hs & Hb & Hac & Ht & _ & _ & _ & _ & E)]].
  - rewrite E. split; [by apply supplied_goto|]. intros -> q Hq Hnot. cbn. destruct (decide (q = slot)) as [->|Hne]; [by rewrite Ea|].
    apply Hnone; [done|done|]. by intros [?|?]%elem_of_cons.
  - pose proof (assigned_length _ _ _ _ _ (lo_sched _ _ Hl) Hchunks Ea) as Hlen. by rewrite Ee in Hlen.
  - rewrite E in *. destruct Hok as [[e He]|[Hl' _]]; [done|]. split; [|done]. split; try done; cbn [job scheduler]; rewrite Hs; cbn.
    + by rewrite len_set_at.
    + intros q st' Hright. rewrite (get_set_at _ _ _ _ _ Hst). destruct (Z.eqb_spec q slot) as [->|]; [|by apply Hact].
      by intros [= <-].
    + apply (covered_mono (scheduler (job p))); [by apply (offers_set_at _ _ st)| |done]. intros j c. cbn.
      rewrite (get_set_at _ _ _ _ _ Hi). destruct (Z.eqb_spec j i) as [->|]; intros Hj; [right; by exists Missing|].
      destruct (decide (c = ChunkComplete)); [by left|right; by exists c].
Qed.

Lemma assigned_supplied base p a :
  phase p = Assigning [] a -> pool_supplied base p -> pool_supplied base (after_assignment a p).
Proof.
  intros Hph. unfold pool_supplied at 1. rewrite Hph. intros [Hsup Hnone]. unfold after_assignment.
  destruct (is_complete _) eqn:Hc; [by left|]. destruct (negb _ && negb a) eqn:Ef; [exfalso|by apply supplied_goto].
  apply andb_true_iff in Ef as [Hf Ha]. apply negb_true_iff in Hf, Ha. destruct Hsup as [Hl _ _ _ Hact Hcov].
  pose proof (lo_sched _ _ Hl) as Hs. pose proof (supplied_finishes _ _ Hs Hcov Hact) as Hfin.
  destruct (assign_available _ _ Hs Hc Hf Hfin) as (slot & i & Hi).
  destruct (decide (0 <= slot < len (workers p))) as [Hr|Hr].
  - rewrite (Hnone Ha slot Hr) in Hi; [done|apply not_elem_of_nil].
  - unfold assign in Hi. destruct (get (s_providers (scheduler (job p))) slot) eqn:Hg; [|done].
    apply get_Some_range in Hg. rewrite (lo_providers _ _ Hl) in Hg. lia.
Qed.

(** A result taken: right providers are never excluded. *)
Lemma received_supplied base p r rest :
  supplied base p -> results p = r :: rest -> right_result r -> pool_supplied base (received m r rest p).
Proof using Hshape Hpos.
  intros [Hl Hcalm Hmarks Hchunks Hact Hcov] Hres Hright.
  destruct (head_answers _ _ _ _ Hl Hres) as (t & i & Ht & Hpd & Hidx & Hi & _). pose proof (lo_sched _ _ Hl) as Hs.
  pose proof (received_ok m base p r rest Hl Hres) as Hok. unfold received in *. rewrite Hidx in *. set (slot := wr_provider r) in *.
  destruct (inv_offered _ _ Hs i slot Hi) as (st & Hst & _).
  destruct (take_calm m Hshape Hpos base (len (workers p)) slot i (ok (wr_response r)) (job p) Hs Hi Hcalm Hmarks) as (d' & o & E & Hcalm' & Hmarks' & Hcase).
  rewrite E in *. destruct (answers m i (ok (wr_response r))) eqn:Eans.
  - destruct Hcase as [Hacc ->]. destruct Hok as [[e He]|[_ Hl']]; [done|].
    destruct (accept_cases base _ slot i Hs) as [(_ & _ & st0 & Hst0 & _ & Heq)|[? _]]; [|done].
    rewrite Hst in Hst0. injection Hst0 as <-. rewrite Hacc in Heq. injection Heq as Heq.
    split; try done; cbn [job]; rewrite Heq; cbn.
    + by rewrite len_set_at.
    + intros q st' Hq. rewrite (get_set_at _ _ _ _ _ Hst). destruct (Z.eqb_spec q slot) as [->|]; [|by apply Hact].
      intros [= <-]. cbn. by apply (Hact slot).
    + apply (covered_mono (scheduler (job p))); [by apply (offers_set_at _ _ st)| |done]. intros j c. cbn.
      rewrite (get_set_at _ _ _ _ _ Hi). destruct (Z.eqb_spec j i) as [->|]; intros Hj; [left; by simplify_eq|].
      destruct (decide (c = ChunkComplete)); [by left|right; by exists c].
  - destruct Hcase as [Hrej Ho].
    assert (right slot = false) as Hwrong.
    { destruct (right slot) eqn:Er; [|done]. specialize (Hright Er). rewrite Hidx in Hright. congruence. }
    destruct (reject_cases base _ slot Hs) as [(st0 & Hst0 & Heq)|[? _]]; [|congruence]. rewrite Hst in Hst0. injection Hst0 as <-.
    assert (covered (reject (scheduler (job p)) slot)) as Hcov'.
    { rewrite Heq. apply (covered_mono (scheduler (job p))); [by apply (offers_set_at _ _ st)| |done]. intros j c. cbn. rewrite get_map.
      destruct (get (s_chunks (scheduler (job p))) j) as [c'|]; [|done]. cbn. destruct (held_by slot c') eqn:Eh; intros [= <-].
      - right. exists c'. split; [done|]. apply held_by_true in Eh as ->. done.
      - destruct (decide (c' = ChunkComplete)); [by left|right; by exists c']. }
    assert (forall q st', right q = true -> get (s_providers (reject (scheduler (job p)) slot)) q = Some st' -> active st' = true) as Hact'.
    { intros q st' Hq. rewrite Heq. cbn. rewrite (get_set_at_ne _ _ _ _ _ Hst) by congruence. by apply Hact. }
    pose proof (reject_inv base _ slot Hs) as Hs'. rewrite (Ho (supplied_finishes _ _ Hs' Hcov' Hact')) in *.
    destruct Hok as [[e He]|[_ Hl']]; [done|]. split; cbn [job]; rewrite ?Hrej; try done.
    by rewrite reject_chunks, len_map.
Qed.

Lemma pool_step_supplied base p p' :
  pool_step m p p' -> Forall right_result (results p) -> pool_supplied base p -> pool_supplied base p'.
Proof using Hshape Hpos.
  intros [p0 Hp Hc|p0 Hp Hc|p0 Hp Hc|p0 slot rest a Hp|p0 a Hp|p0 r rest Hp Hr|p0 Hp Hr|p0 o slot rest Hp|p0 o slot rest t Hp Ht He|p0 o Hp|p0 slot t t' sent Ht Hstep] Hright.
  - by left.
  - by right; left.
  - unfold pool_supplied. rewrite Hp. intros Hs. split; [by apply supplied_goto|]. intros _ slot Hslot Hnot. destruct Hnot. by apply elem_slots.
  - by apply assign_to_supplied.
  - by apply assigned_supplied.
  - unfold pool_supplied at 1. rewrite Hp. intros Hs. rewrite Hr in Hright. apply Forall_cons_iff in Hright as [Hright _]. by apply received_supplied.
  - by right; right.
  - unfold pool_supplied. by rewrite Hp.
  - unfold pool_supplied. by rewrite Hp.
  - unfold pool_supplied. by rewrite Hp.
  - unfold pool_supplied. cbn [phase]. destruct (phase p0); try done; try (intros Hs; by eapply worker_supplied).
    intros [Hs Hnone]. split; [by eapply worker_supplied|]. cbn [workers job]. by rewrite len_set_at.
Qed.
End Supply.

(** ** Outcomes *)

Section Outcomes.
Context `{Blake3} `{Postcard}.

(** A step after which the results of right providers are answers. *)
Definition supplied_step (m : Manifest) (right : Z -> bool) (p p' : Pool) : Prop :=
  pool_step m p p' /\ Forall (right_result m right) (results p').

Lemma start_supplied first others sessions output w w1 d right :
  len sessions = len (first :: others) -> prepare_swarm first others output w = (w1, Ok d) ->
  faults (world d) = [] -> covered right (scheduler d) ->
  exists base, pool_supplied first.1 right base (start_pool d sessions).
Proof.
  intros Hlen Hp Hcalm Hcov. destruct (start_ok _ _ _ _ _ _ _ Hp Hlen) as [base Hok]. exists base.
  apply prepare_swarm_job in Hp as (_ & Hs & _). apply new_shape in Hs as [Hn Hs].
  split; cbn [start_pool job]; try done; rewrite Hs; cbn [s_chunks s_providers].
  - by rewrite len_map.
  - intros slot st _. rewrite get_map. destruct (get _ slot); [|done]. by intros [= <-].
Qed.

(** C13: one right source per chunk is enough, once the sessions were prepared (a provider
    with another manifest can end a download before the loop).  When every chunk that is missing is offered
    by a provider that answers its requests and the disk works, then, whatever the other
    providers send and however the threads interleave, the loop of the download returns with every
    chunk complete, unless it was stopped or an answer took longer than the timeout. *)
Theorem right_sources_suffice (first : Manifest * PieceAvailability) (others : list (Manifest * PieceAvailability))
  (sessions : list Channel) (output : list Z) (w w1 : World) (d : Download) (right : Z -> bool) (p : Pool)
  (o : result DownloadError unit) :
  len sessions = len (first :: others) -> 0 <= m_length first.1 ->
  prepare_swarm first others output w = (w1, Ok d) -> faults (world d) = [] -> covered right (scheduler d) ->
  rtc (supplied_step first.1 right) (start_pool d sessions) p -> phase p = Returned o ->
  (o = Ok tt /\ is_complete (scheduler (job p)) = true) \/ o = Err FetchStopped \/ o = Err TimedOut.
Proof.
  intros Hlen Hpos Hp Hcalm Hcov Hrun Hph. destruct (start_supplied _ _ _ _ _ _ _ _ Hlen Hp Hcalm Hcov) as [base Hs].
  apply prepare_swarm_job in Hp as (Hshape & _). assert (Forall (right_result first.1 right) (results (start_pool d sessions))) as Hr by constructor.
  revert Hr Hs. induction Hrun as [p|p1 p2 p3 [H12 Hr2] _ IH]; intros Hr Hs.
  - unfold pool_supplied in Hs. by rewrite Hph in Hs.
  - apply IH; [done|done|]. by eapply pool_step_supplied.
Qed.
End Outcomes.

(** ** The property at a concrete input *)

Section Turns.
Context `{Blake3} `{Postcard} (m : Manifest) (right : Z -> bool).

Definition right_resultb (r : WorkerResult) : bool :=
  negb (right (wr_provider r)) || answers m (wr_requested_index r) (ok (wr_response r)).

(** A sequence of turns in which right providers answer. *)
Fixpoint supplied_turns (turns : list (option Z)) (p : Pool) : option Pool :=
  match turns with
  | [] => Some p
  | who :: turns => p ← act m who p; if all right_resultb (results p) then supplied_turns turns p else None
  end.

Lemma supplied_turns_steps turns p p' : supplied_turns turns p = Some p' -> rtc (supplied_step m right) p p'.
Proof.
  revert p. induction turns as [|who turns IH]; intros p; cbn; [by intros [= <-]|].
  intros (p1 & Ha & Hr)%bind_Some. destruct (all right_resultb (results p1)) eqn:Hall; [|done].
  eapply rtc_l; [split; [by eapply act_step|]|by apply IH]. apply all_true in Hall. eapply Forall_impl; [exact Hall|].
  intros r Hb Hright. unfold right_resultb in Hb. by rewrite Hright in Hb.
Qed.
End Turns.

Import Toy ToyPostcard.

(** The first provider goes away without an answer, the second is right. *)
Definition lost_sessions : list Channel := [mkChannel [] [] []; mkChannel [MChunk sample_chunk] [] []].
Definition second_right (slot : Z) : bool := slot =? 1.
Definition lost_turns : list (option Z) :=
  [None; None; None; None; Some 0; Some 0; None; Some 0; None; None; None; None; Some 1; Some 1; None; None;
   None; None; None; Some 1; Some 1; None; None].

Lemma right_sources_suffice_witness :
  exists d p o, (prepare_swarm (sample_manifest, availability_all 1) sample_providers sample_output (mkWorld ∅ [])).2 = Ok d
    /\ supplied_turns sample_manifest second_right lost_turns (start_pool d lost_sessions) = Some p /\ phase p = Returned o
    /\ is_complete (scheduler (job p)) = true.
Proof.
  destruct (prepare_swarm (sample_manifest, availability_all 1) sample_providers sample_output (mkWorld ∅ [])) as [w1 [d|e]] eqn:Ep;
    [|vm_compute in Ep; discriminate].
  assert (exists p, supplied_turns sample_manifest second_right lost_turns (start_pool d lost_sessions) = Some p /\ phase p = Returned (Ok tt))
    as (p & Hi & Hph) by (vm_compute in Ep; injection Ep as _ <-; eexists; split; [vm_compute; reflexivity|reflexivity]).
  exists d, p, (Ok tt). split; [reflexivity|]. split; [exact Hi|]. split; [exact Hph|].
  destruct (right_sources_suffice (sample_manifest, availability_all 1) sample_providers lost_sessions sample_output (mkWorld ∅ []) w1 d second_right p (Ok tt))
    as [[_ Hc]|[?|?]]; [reflexivity|vm_compute; discriminate|exact Ep| | | |exact Hph|exact Hc|discriminate|discriminate].
  - vm_compute in Ep. injection Ep as _ <-. reflexivity.
  - vm_compute in Ep. injection Ep as _ <-. intros i c Hc. right. apply get_Some_range in Hc. unfold len in Hc. cbn in Hc. assert (i = 0) as -> by lia.
    exists 1, (mkProviderState (availability_all 1) true false 0 0). split; [reflexivity|]. split; vm_compute; reflexivity.
  - exact (supplied_turns_steps _ _ _ _ _ Hi).
Defined.
