(* ===== verification/CliMain.v ===== *)
(** * CliMain: the commands of the program (crates/triptorrent-cli/src/main.rs)

    What each command does with its arguments: the files it touches and what it prints
    ([Process]), the requests it sends, and the operation of the other components it runs.
    The network, the clock and the random source of one run are a [Scene].  A service
    that serves until it is killed is an outcome with the state it starts from; a loop that
    has used up the scene is [Waiting]. *)
From stdpp Require Import base tactics list numbers option gmap.
From Stdlib Require Import ZArith Lia.
Import stdpp.list.
From S2P Require Import Prelude Bytes Text BTree NetAddr Instances Core Json Http Wire Resume NodeConfig NodeStore ApiRecords NodeRuntime NodeApi Frame Relay Overlay OverlayFacts Bootstrap Transfer Download Entry.

Local Open Scope Z_scope.

(** ** Arguments *)

Module TestnetCommand.
Inductive t :=
| Status
| Health (bootstrap : SocketAddr) (relay : option SocketAddr)
| Probe (bootstrap : SocketAddr) (content : ContentId) (output : option (list Z)).
End TestnetCommand.

Module NodeCommand.
Inductive t :=
| Init (config data_dir : list Z) (api_listen : SocketAddr) (bootstrap : option SocketAddr)
| Start (config : list Z) (overrides : ConfigOverrides)
| Status (config : list Z)
| Stop (config : list Z)
| Fetch (config : list Z) (content : ContentId) (no_share : bool)
| Diagnostics (config : list Z).
End NodeCommand.

Module ContentCommand.
Inductive t :=
| Add (config file : list Z) (no_share : bool)
| List (config : list Z)
| Remove (config : list Z) (content : ContentId) (delete_bytes : bool).
End ContentCommand.

Module TransferCommand.
Inductive t :=
| List (config : list Z)
| Show (config : list Z) (id : Z)
| Pause (config : list Z) (id : Z)
| Resume (config : list Z) (id : Z).
End TransferCommand.

Module Command.
Inductive t :=
| Bootstrap (listen : SocketAddr) (lease_ms : Z)
| Relay (listen : SocketAddr) (bootstrap : option SocketAddr) (id : option (list Z)) (advertise : option SocketAddr)
| Id (file : list Z)
| Share (bootstrap relay : option SocketAddr) (route key : option (list Z)) (file : list Z)
    (available : option (list Z)) (upload_limit : option Z)
| Fetch (bootstrap relay : option SocketAddr) (route key : option (list Z)) (content : ContentId) (output : list Z)
    (download_limit : option Z)
| Node (command : NodeCommand.t)
| Content (command : ContentCommand.t)
| Transfer (command : TransferCommand.t)
| Testnet (command : TestnetCommand.t).
End Command.

(** The values of arguments that are left out, as [clap] reads them. *)
Definition default_bootstrap_listen : list Z := str "127.0.0.1:7100".
Definition default_lease_ms : Z := 5000.
Definition default_relay_listen : list Z := str "127.0.0.1:7000".
Definition default_api_listen : list Z := str "127.0.0.1:7331".
Definition default_probe_content : list Z := str "fdd7d693c7ca9bb83ff74f5b900f03eb7f3fbda3ab46043f7938c4473d72e199".

(** ** A run *)

(** What is printed; a document is printed by [serde_json::to_string_pretty]. *)
Inductive Output :=
| Line (text : list Z)
| Document (value : Value).

Record Process := mkProcess { p_disk : World; p_stdout : list Output }.

Inductive CliError :=
| Message (text : list Z)
| OperationFailed (e : EntryError)
| ApiFailed (e : ClientError)
| ControlFailed (e : OverlayError)
(** no connection to the local API, or none until the end of the response *)
| NoAnswer
(** [json!] on a value without a document *)
| Panicked.

(** The thread that keeps a relay registered. *)
Record Heartbeat := mkHeartbeat { hb_relay : RelayAdvertisement; hb_interval : Z }.

Inductive Outcome :=
| Finished
| Waiting
| BootstrapService (service : Bootstrap)
| RelayService (service : Service TcpStream) (heartbeat : option Heartbeat)
| NodeService (server : Server).

Record Scene := mkScene {
  sc_environment : Environment;
  sc_random : option (list Z);
  (** the address a listener got *)
  sc_bind : SocketAddr -> option SocketAddr;
  (** a connection within the time limit *)
  sc_reach : SocketAddr -> bool;
  (** the exchange with the local API: the bytes of the response *)
  sc_exchange : LocalApiConnection -> list Z -> option (list Z);
  sc_database : Database;
  sc_time : Z;
  sc_uptime : Z;
  sc_register_relay : RelayAdvertisement -> result OverlayError Z;
  sc_health : result OverlayError unit;
  sc_temp_dir : list Z;
  sc_process_id : Z;
  (** sharing and fetching (Entry.v) *)
  sc_corrupt : option (list Z);
  sc_keypair : option (list Z);
  sc_register_peer : PeerAdvertisement -> result OverlayError Z;
  sc_turns : list Turn;
  sc_attempts : list Attempt;
  sc_rounds : list Round;
  sc_link : Link
}.

Definition cli : Type -> Type := st Process CliError.

Definition println (text : list Z) : cli unit := fun p => (mkProcess (p_disk p) (p_stdout p ++ [Line text]), Ok tt).
Definition print_json (v : Value) : cli unit := fun p => (mkProcess (p_disk p) (p_stdout p ++ [Document v]), Ok tt).

(** An operation on files. *)
Definition on_disk {E A} (f : E -> CliError) (c : st World E A) : cli A := fun p =>
  let '(w, r) := c (p_disk p) in (mkProcess w (p_stdout p), map_err f r).

(** A loop that may not have ended. *)
Definition ended {A} (o : option (result EntryError A)) : cli (option A) :=
  match o with
  | None => mret None
  | Some r => lift (map_err OperationFailed (Some <$> r))
  end.

Section Commands.
Context `{Blake3} `{Hex} `{Postcard} `{StoreCodec} `{Json} `{Toml}.

(** ** The node *)

Definition load_node_config (sc : Scene) (path : list Z) (o : ConfigOverrides) : cli NodeConfig :=
  on_disk Message (load path (sc_environment sc) o).

Definition api_client (c : NodeConfig) : LocalApiConnection := mkConnection (nc_api_listen c) (nc_api_token c).

(** [LocalApiClient::request_value] *)
Definition request_value (sc : Scene) (conn : LocalApiConnection) (request : list Z * list Z * option Value) : cli Value :=
  let '(m, t, v) := request in
  response ← lift (ok_or (sc_exchange sc conn (request_bytes conn m t v)) NoAnswer);
  lift (map_err ApiFailed (parse_response response)).

(** The common shape of the commands that ask the node. *)
Definition ask (sc : Scene) (path : list Z) (request : list Z * list Z * option Value) : cli Outcome :=
  config ← load_node_config sc path no_overrides;
  value ← request_value sc (api_client config) request;
  _ ← print_json value;
  mret Finished.

(** [run_daemon] up to its loop *)
Definition start_node (sc : Scene) (config : NodeConfig) : cli Outcome := fun p =>
  (p, map_err Message (NodeService <$> start_server config (sc_database sc) (p_disk p) (sc_time sc) (sc_uptime sc))).

Definition run_node (sc : Scene) (command : NodeCommand.t) : cli Outcome :=
  match command with
  | NodeCommand.Init config data_dir api_listen bootstrap =>
      node ← lift (map_err Message (initialized data_dir (sc_random sc)));
      let node := mkNodeConfig (NodeConfig.data_dir node) api_listen bootstrap (download_limit node) (upload_limit node)
                    (max_concurrent_transfers node) (log_level node) (nc_api_token node) in
      _ ← on_disk Message (NodeConfig.create node config);
      _ ← println (str "created node configuration " ++ config);
      mret Finished
  | NodeCommand.Start config overrides =>
      config ← load_node_config sc config overrides;
      start_node sc config
  | NodeCommand.Status config => ask sc config (str "GET", str "/v1/status", None)
  | NodeCommand.Stop config => ask sc config (str "POST", str "/v1/shutdown", Some (Object []))
  | NodeCommand.Fetch config content no_share =>
      ask sc config (str "POST", str "/v1/fetches",
        Some (object [(str "content_id", Text (ContentId_to_string content)); (str "shared", Bool (negb no_share))]))
  | NodeCommand.Diagnostics config => ask sc config (str "GET", str "/v1/diagnostics", None)
  end.

Definition run_content (sc : Scene) (command : ContentCommand.t) : cli Outcome :=
  match command with
  | ContentCommand.Add path file no_share =>
      config ← load_node_config sc path no_overrides;
      value ← lift (map_err (fun _ => Panicked) (path_value file));
      value ← request_value sc (api_client config)
        (str "POST", str "/v1/content", Some (object [(str "path", value); (str "shared", Bool (negb no_share))]));
      _ ← print_json value;
      mret Finished
  | ContentCommand.List config => ask sc config (str "GET", str "/v1/content", None)
  | ContentCommand.Remove config content delete_bytes =>
      ask sc config
        (str "DELETE",
         str "/v1/content/" ++ ContentId_to_string content ++ str "?delete_bytes="
           ++ (if delete_bytes then str "true" else str "false"), None)
  end.

Definition run_transfer (sc : Scene) (command : TransferCommand.t) : cli Outcome :=
  match command with
  | TransferCommand.List config => ask sc config (str "GET", str "/v1/transfers", None)
  | TransferCommand.Show config id => ask sc config (str "GET", str "/v1/transfers/" ++ display_i64 id, None)
  | TransferCommand.Pause config id => ask sc config (call_request (PauseTransfer id))
  | TransferCommand.Resume config id => ask sc config (call_request (ResumeTransfer id))
  end.

(** ** The relay *)

(** How often the relay renews its lease, in milliseconds. *)
Definition heartbeat_interval (lease_ms : Z) : Z := Z.max (lease_ms / 3) 100.

(** A request of the thread to the bootstrap service: it is answered, it arrives and the
    answer is lost, or it never arrives. *)
Inductive Delivery := Answered | Unanswered | Lost.

Definition post (r : Registry) (now_ms : Z) (request : OverlayRequest) (delivery : Delivery)
  : Registry * result OverlayError OverlayResponse :=
  match delivery with
  | Answered => (serve_request r (now_ms, request), Ok (handle_request r now_ms request).2)
  | Unanswered => (serve_request r (now_ms, request), Err ConnectionClosed)
  | Lost => (r, Err ConnectionClosed)
  end.

(** One turn of the loop of the thread, after its sleep: the registry when it ends. *)
Definition beat (hb : Heartbeat) (now_ms : Z) (first second : Delivery) (r : Registry) : Registry :=
  let '(r, response) := post r now_ms (HeartbeatRelay (ra_relay_id (hb_relay hb))) first in
  if is_ok (response ≫= expect_registered) then r
  else (post r now_ms (RegisterRelay (hb_relay hb)) second).1.

Definition run_relay (sc : Scene) (listen : SocketAddr) (bootstrap : option SocketAddr) (id : option (list Z))
  (advertise : option SocketAddr) : cli Outcome :=
  bound_address ← lift (ok_or (sc_bind sc listen) (Message (str "failed to bind relay")));
  heartbeat ← match bootstrap with
    | None => mret None
    | Some bootstrap =>
        let relay_id := default (str "relay-" ++ decimal (sa_port bound_address)) id in
        let relay := mkRelayAdvertisement relay_id (display_socket_addr (default bound_address advertise)) in
        lease_ms ← lift (map_err ControlFailed (sc_register_relay sc relay));
        _ ← println (str "relay " ++ relay_id ++ str " registered with bootstrap " ++ display_socket_addr bootstrap);
        mret (Some (mkHeartbeat relay (heartbeat_interval lease_ms)))
    end;
  _ ← println (str "relay listening on " ++ display_socket_addr bound_address);
  mret (RelayService (Service_new RelayLimits_default) heartbeat).

(** ** Sharing and fetching *)

Definition share_overlay (sc : Scene) (file : list Z) (options : ShareOptions) : cli (option ContentId) := fun p =>
  let '(w, (_, r)) := share_file_via_overlay_with_control file options (sc_corrupt sc) (sc_keypair sc)
    (sc_register_peer sc) (sc_turns sc) (p_disk p) in
  ended r (mkProcess w (p_stdout p)).

Definition fetch_overlay (sc : Scene) (content : ContentId) (output : list Z) : cli (option TransferStats) := fun p =>
  let '(w, _, r) := fetch_file_via_overlay_with_monitor content output (sc_attempts sc) (sc_rounds sc) (p_disk p) in
  ended r (mkProcess w (p_stdout p)).

Definition given {A} (o : option A) : bool := match o with Some _ => true | None => false end.

Definition run_share (sc : Scene) (bootstrap relay : option SocketAddr) (route key : option (list Z)) (file : list Z)
  (available : option (list Z)) (upload_limit : option Z) : cli Outcome :=
  content_id ← on_disk OperationFailed (identify file);
  done ← match bootstrap with
    | Some bootstrap =>
        if given relay || given route || given key
        then throw (Message (str "M4 share does not accept --relay, --route, or --key"))
        else
          _ ← println (str "advertising " ++ ContentId_to_string content_id ++ str " through bootstrap "
                         ++ display_socket_addr bootstrap);
          share_overlay sc file (mkShareOptions available upload_limit)
    | None =>
        if given available || given upload_limit
        then throw (Message (str "manual M1 share does not accept --available or --upload-limit"))
        else
          _ ← lift (ok_or relay (Message (str "manual M1 share requires --relay")));
          route ← lift (ok_or route (Message (str "manual M1 share requires --route")));
          _ ← lift (ok_or key (Message (str "manual M1 share requires --key")));
          _ ← println (str "sharing " ++ ContentId_to_string content_id ++ str "; waiting for receiver on route " ++ route);
          id ← on_disk OperationFailed (share_file file (sc_link sc));
          mret (Some id)
    end;
  match done with
  | None => mret Waiting
  | Some _ => _ ← println (str "transfer complete"); mret Finished
  end.

Definition run_fetch (sc : Scene) (bootstrap relay : option SocketAddr) (route key : option (list Z)) (content : ContentId)
  (output : list Z) (download_limit : option Z) : cli Outcome :=
  done ← match bootstrap with
    | Some _ =>
        if given relay || given route || given key
        then throw (Message (str "M4 fetch does not accept --relay, --route, or --key"))
        else stats ← fetch_overlay sc content output; mret (given stats)
    | None =>
        if given download_limit then throw (Message (str "manual M1 fetch does not accept --download-limit"))
        else
          _ ← lift (ok_or relay (Message (str "manual M1 fetch requires --relay")));
          _ ← lift (ok_or route (Message (str "manual M1 fetch requires --route")));
          _ ← lift (ok_or key (Message (str "manual M1 fetch requires --key")));
          _ ← on_disk OperationFailed (fetch_file (sc_link sc) content output);
          mret true
    end;
  if (done : bool) then
    _ ← println (str "verified " ++ ContentId_to_string content ++ str " and wrote " ++ output);
    mret Finished
  else mret Waiting.

(** ** The test network *)

Definition profile : list (list Z * Value) :=
  [(str "software_version", Text (str "0.0.0")); (str "wire_protocol_version", Number PROTOCOL_VERSION);
   (str "network", Text NETWORK_ID); (str "discovery_profile", Text DISCOVERY_PROFILE);
   (str "transfer_protocol", Text (str "relayed-swarm-v1"))].

(** A [ContentId] as [serde] derives it: the array of its bytes. *)
Definition identifier_value (id : ContentId) : Value := Array (map Number id).

(** [fs::metadata] for the length *)
Definition file_length (path : list Z) : cli Z :=
  bytes ← on_disk (fun _ => Message (str "no metadata")) (fs_read path);
  mret (len bytes).

Definition run_testnet (sc : Scene) (command : TestnetCommand.t) : cli Outcome :=
  match command with
  | TestnetCommand.Status =>
      _ ← print_json (object (profile ++ [(str "public_endpoints_configured", Bool false)]));
      mret Finished
  | TestnetCommand.Health bootstrap relay =>
      _ ← lift (map_err ControlFailed (sc_health sc));
      _ ← match relay with
          | Some relay => if sc_reach sc relay then mret tt
                          else throw (Message (str "relay " ++ display_socket_addr relay ++ str " is unreachable"))
          | None => mret tt
          end;
      _ ← print_json (object [(str "status", Text (str "pass")); (str "network", Text NETWORK_ID);
            (str "wire_protocol_version", Number PROTOCOL_VERSION);
            (str "bootstrap", Text (display_socket_addr bootstrap)); (str "relay", addr_text relay)]);
      mret Finished
  | TestnetCommand.Probe bootstrap content chosen =>
      let output := default (join_path (sc_temp_dir sc)
                               (str "triptorrent-probe-" ++ decimal (sc_process_id sc) ++ str ".bin")) chosen in
      stats ← fetch_overlay sc content output;
      match stats with
      | None => mret Waiting
      | Some _ =>
          bytes ← file_length output;
          _ ← print_json (object ((str "status", Text (str "pass")) :: profile
                ++ [(str "bootstrap", Text (display_socket_addr bootstrap));
                    (str "content_id", identifier_value content); (str "verified_bytes", Number bytes);
                    (str "direct_provider_connection", Bool false)]));
          _ ← if given chosen then mret tt
              else on_disk (fun _ => Message (str "failed to remove probe output")) (fs_remove output);
          mret Finished
      end
  end.

(** ** The program *)

Definition run (sc : Scene) (command : Command.t) : cli Outcome :=
  match command with
  | Command.Bootstrap listen lease_ms =>
      _ ← lift (ok_or (sc_bind sc listen) (Message (str "failed to bind bootstrap")));
      _ ← println (str "TripTorrent Testnet v1 bootstrap listening on " ++ display_socket_addr listen
                     ++ str "; lease=" ++ decimal lease_ms ++ str "ms");
      mret (BootstrapService (serve lease_ms))
  | Command.Relay listen bootstrap id advertise => run_relay sc listen bootstrap id advertise
  | Command.Id file =>
      id ← on_disk OperationFailed (identify file);
      _ ← println (ContentId_to_string id);
      mret Finished
  | Command.Share bootstrap relay route key file available upload_limit =>
      run_share sc bootstrap relay route key file available upload_limit
  | Command.Fetch bootstrap relay route key content output download_limit =>
      run_fetch sc bootstrap relay route key content output download_limit
  | Command.Node command => run_node sc command
  | Command.Content command => run_content sc command
  | Command.Transfer command => run_transfer sc command
  | Command.Testnet command => run_testnet sc command
  end.
End Commands.
