(* ===== verification/CliFacts.v ===== *)
(** * CliFacts: what the commands of the program guarantee

    The lease of a relay under the heartbeats of its thread, the commands that ask the
    node, and the files and the output of the commands that fetch. *)
From stdpp Require Import base tactics list numbers option gmap.
From Stdlib Require Import ZArith Lia.
Import stdpp.list.
From S2P Require Import Prelude Bytes Text BTree NetAddr Instances Core Json Http Wire Resume NodeConfig NodeStore NodeImport ApiRecords NodeRuntime NodeApi NodeClient ClientStatus Relay Overlay OverlayFacts Transfer Download Entry EntryFacts CliMain.

Local Open Scope Z_scope.

(** ** The lease of a relay *)

Section Lease.
Context `{Blake3}.
Implicit Types (r : Registry).

(** The relay is registered until [e]. *)
Definition listed (relay : RelayAdvertisement) (lease e : Z) r : Prop :=
  bt_ok (relays r) /\ lease_ms r = lease /\ bt_get (ra_relay_id relay) (relays r) = Some (mkRelayLease relay e).

(** Registries with the same relays. *)
Definition same_relays r r' : Prop := lease_ms r' = lease_ms r /\ relays r' = relays r.

Lemma same_listed relay lease e r r' : same_relays r r' -> listed relay lease e r -> listed relay lease e r'.
Proof. intros [Hl Hr] (Ho & Hle & Hg). unfold listed. by rewrite Hl, Hr. Qed.

Lemma same_trans r1 r2 r3 : same_relays r1 r2 -> same_relays r2 r3 -> same_relays r1 r3.
Proof. unfold same_relays. intros [-> ->] [-> ->]. done. Qed.

Lemma purge_listed relay lease e now r : now < e -> listed relay lease e r -> listed relay lease e (purge r now).
Proof.
  intros Hn (Ho & Hl & Hg). split_and!; [by apply bt_ok_retain|done|]. apply bt_get_retain_Some; [done|]. split; [done|]. by apply Z.gtb_lt.
Qed.

Lemma queue_assignment_same r now p l prefix : same_relays r (queue_assignment r now p l prefix).1.
Proof. rewrite queue_assignment_cases. cbn zeta. by destruct (_ >=? _). Qed.

Lemma queue_providers_same r now ls ps : same_relays r (queue_providers r now ls ps).1.
Proof.
  revert r. induction ps as [|[i p] ps IH]; intros r; cbn [queue_providers]; [done|]. destruct (get ls _) as [l|]; [|done].
  pose proof (queue_assignment_same r now p l (str "m4")) as Hq. destruct (queue_assignment r now p l (str "m4")) as [r1 a].
  specialize (IH r1). destruct (queue_providers r1 now ls ps) as [r2 out]. by eapply same_trans.
Qed.

Lemma heartbeat_peer_same r now id : same_relays (purge r now) (heartbeat_peer r now id).1.
Proof. unfold heartbeat_peer. by destruct (bt_get id (peers (purge r now))). Qed.

(** A relay is put in the map. *)
Lemma insert_listed relay lease e a e' r : ra_relay_id a <> ra_relay_id relay -> listed relay lease e r ->
  listed relay lease e (set_relays r (bt_insert (ra_relay_id a) (mkRelayLease a e') (relays r))).
Proof.
  intros Hne (Ho & Hl & Hg). split_and!; [by apply bt_ok_insert|done|]. cbn [set_relays relays]. by rewrite bt_get_insert_ne.
Qed.

(** Requests that do not concern the relay. *)
Definition unrelated (id : list Z) (q : OverlayRequest) : Prop :=
  match q with
  | RegisterRelay a => ra_relay_id a <> id
  | HeartbeatRelay id' => id' <> id
  | ReportRelayFailure id' => id' <> id
  | _ => True
  end.

Lemma unrelated_listed relay lease e now r q : now < e -> unrelated (ra_relay_id relay) q ->
  listed relay lease e r -> listed relay lease e (handle_request r now q).1.
Proof.
  intros Hn Hq Hr. pose proof (purge_listed _ _ _ _ _ Hn Hr) as Hp.
  destruct q as [p|id|id|a|id|c|c n|id|]; cbn [handle_request unrelated] in *.
  - assert (listed relay lease e (register_peer r now p).1) by (unfold register_peer; repeat case_match; done).
    by destruct (register_peer r now p) as [? []].
  - pose proof (same_listed _ _ _ _ _ (heartbeat_peer_same r now id) Hp). by destruct (heartbeat_peer r now id) as [? []].
  - pose proof (same_listed _ _ _ _ _ (heartbeat_peer_same r now id) Hp) as Hh. destruct (heartbeat_peer r now id) as [r1 []]; [|done].
    assert (listed relay lease e (poll_peer r1 now id).1); [|by destruct (poll_peer r1 now id)].
    unfold poll_peer. pose proof (same_listed _ _ _ _ _ (heartbeat_peer_same r1 now id) (purge_listed _ _ _ _ _ Hn Hh)) as Hh'.
    destruct (heartbeat_peer r1 now id) as [r2 []]; [|done]. destruct (assignments r2 !! id) as [queue|]; [|done]. by destruct (pop_valid _ _ queue).
  - assert (listed relay lease e (register_relay r now a).1); [|by destruct (register_relay r now a) as [? []]].
    unfold register_relay. destruct (validate_relay_id _); [|done]. case_bool_decide; [done|]. destruct (_ && _); [done|]. by apply insert_listed.
  - assert (listed relay lease e (heartbeat_relay r now id).1); [|by destruct (heartbeat_relay r now id) as [? []]].
    unfold heartbeat_relay. destruct (bt_get id (relays (purge r now))) as [l|]; [|done]. destruct Hp as (Ho & Hl & Hg).
    split_and!; [by apply bt_ok_insert|done|]. cbn [fst set_relays relays]. by rewrite bt_get_insert_ne.
  - assert (listed relay lease e (discover r now c).1); [|by destruct (discover r now c)]. unfold discover.
    destruct (List.find _ _) as [p|]; [|done]. destruct (bt_values _) as [|l ls]; [done|]. eapply same_listed; [apply queue_assignment_same|done].
  - assert (listed relay lease e (discover_providers r now c (Z.min n 16)).1); [|by destruct (discover_providers r now c (Z.min n 16))].
    unfold discover_providers. case_bool_decide; [done|]. eapply same_listed; [apply queue_providers_same|done].
  - destruct Hr as (Ho & Hl & Hg). split_and!; [by apply bt_ok_remove|done|]. cbn [fst report_relay_failure set_assignments set_relays relays].
    by rewrite bt_get_remove_ne.
  - done.
Qed.

Lemma sat_add_exact m a b : a + b <= m -> sat_add m a b = a + b.
Proof. unfold sat_add. lia. Qed.

(** Both requests of the thread renew the lease of a relay that is registered. *)
Lemma heartbeat_renews relay lease e now r : now < e -> now + lease <= U64_MAX -> listed relay lease e r ->
  let '(r', response) := handle_request r now (HeartbeatRelay (ra_relay_id relay)) in
  listed relay lease (now + lease) r' /\ is_ok (expect_registered response) = true.
Proof.
  intros Hn Hm Hr. destruct (purge_listed _ _ _ _ _ Hn Hr) as (Ho & Hl & Hg). cbn [handle_request]. unfold heartbeat_relay. rewrite Hg.
  split; [|done]. split_and!; [by apply bt_ok_insert|done|]. cbn [set_relays relays rl_advertisement]. rewrite bt_get_insert_eq, Hl. by rewrite sat_add_exact.
Qed.

Lemma register_renews relay lease e now r : now < e -> now + lease <= U64_MAX -> listed relay lease e r ->
  validate_relay_id (ra_relay_id relay) = Ok tt -> parse_socket_addr (ra_address relay) <> None ->
  listed relay lease (now + lease) (handle_request r now (RegisterRelay relay)).1.
Proof.
  intros Hn Hm Hr Hv Ha. destruct (purge_listed _ _ _ _ _ Hn Hr) as (Ho & Hl & Hg). cbn [handle_request]. unfold register_relay. rewrite Hv.
  rewrite bool_decide_eq_false_2 by done. rewrite (bt_get_contains _ _ _ _ Hg).
  split_and!; [by apply bt_ok_insert|done|]. cbn [fst set_relays relays]. rewrite bt_get_insert_eq, Hl. by rewrite sat_add_exact.
Qed.

(** What happens at the bootstrap service: a turn of the thread, or another request. *)
Inductive Event :=
| Beat (first second : Delivery)
| Other (request : OverlayRequest).

Definition happens (hb : Heartbeat) r (e : Z * Event) : Registry :=
  match e with
  | (now, Beat first second) => beat hb now first second r
  | (now, Other q) => serve_request r (now, q)
  end.

(** A turn of which a request arrives. *)
Definition arrives (first second : Delivery) : bool :=
  match first, second with Lost, Lost => false | _, _ => true end.

(** Events in which a turn begins within [gap] of the one before, requests of others fall
    between turns, and at most [m] turns in a row are lost. *)
Fixpoint timely (id : list Z) (gap m before missed : Z) (events : list (Z * Event)) : Prop :=
  match events with
  | [] => True
  | (now, e) :: events =>
      before <= now <= before + gap
      /\ match e with
         | Other q => unrelated id q /\ timely id gap m before missed events
         | Beat first second =>
             if arrives first second then timely id gap m now 0 events
             else missed < m /\ timely id gap m now (missed + 1) events
         end
  end.

Lemma serve_listed relay lease e now r q : now < e -> listed relay lease e (handle_request r now q).1 ->
  listed relay lease e (serve_request r (now, q)).
Proof. apply purge_listed. Qed.

Lemma beat_listed hb lease e now first second r : now < e -> 0 < lease -> now + lease <= U64_MAX ->
  validate_relay_id (ra_relay_id (hb_relay hb)) = Ok tt -> parse_socket_addr (ra_address (hb_relay hb)) <> None ->
  listed (hb_relay hb) lease e r ->
  listed (hb_relay hb) lease (if arrives first second then now + lease else e) (beat hb now first second r).
Proof.
  intros Hn Hlease Hm Hv Ha Hr. pose proof (heartbeat_renews _ _ _ _ _ Hn Hm Hr) as Hb.
  assert (forall r' e', now < e' -> listed (hb_relay hb) lease e' r' ->
    listed (hb_relay hb) lease (now + lease) (serve_request r' (now, RegisterRelay (hb_relay hb)))) as Hreg.
  { intros r' e' Hn' Hr'. apply serve_listed; [lia|]. by eapply register_renews. }
  assert (listed (hb_relay hb) lease (now + lease) (serve_request r (now, HeartbeatRelay (ra_relay_id (hb_relay hb))))) as Hserve.
  { apply serve_listed; [lia|]. destruct (handle_request r now _). apply Hb. }
  unfold beat. destruct first; cbn [post].
  - destruct (handle_request r now _) as [r1 response]. destruct Hb as [_ Hok]. cbn [snd mbind result_bind]. rewrite Hok. by destruct second.
  - cbn [mbind result_bind is_ok]. destruct second; cbn [post fst arrives]; try done; (apply (Hreg _ (now + lease)); [lia|done]).
  - cbn [mbind result_bind is_ok]. destruct second; cbn [post fst arrives]; try done; by apply (Hreg r e).
Qed.

(** When the last turn began. *)
Fixpoint last_turn (before : Z) (events : list (Z * Event)) : Z :=
  match events with
  | [] => before
  | (now, Beat _ _) :: events => last_turn now events
  | (_, Other _) :: events => last_turn before events
  end.

Lemma happens_listed hb lease gap m events : 0 < lease -> 0 <= gap -> (m + 1) * gap < lease ->
  validate_relay_id (ra_relay_id (hb_relay hb)) = Ok tt -> parse_socket_addr (ra_address (hb_relay hb)) <> None ->
  Forall (fun e => e.1 + lease <= U64_MAX) events ->
  forall r e before missed, 0 <= missed <= m -> before + lease <= e + missed * gap ->
    timely (ra_relay_id (hb_relay hb)) gap m before missed events -> listed (hb_relay hb) lease e r ->
    exists e', listed (hb_relay hb) lease e' (fold_left (happens hb) events r) /\ last_turn before events + gap < e'.
Proof.
  intros Hlease Hgap Hm Hv Ha Hmax. induction Hmax as [|[now ev] events Hnow Hmax IH]; intros r e before missed Hmi He Ht Hr; cbn [fold_left last_turn].
  { exists e. split; [done|]. nia. }
  cbn [timely fst] in Ht, Hnow. destruct Ht as [Hb Ht]. assert (now < e) as Hlt by nia. destruct ev as [first second|q].
  - pose proof (beat_listed hb lease e now first second r Hlt Hlease Hnow Hv Ha Hr) as Hbeat. destruct (arrives first second).
    + by apply (IH _ (now + lease) now 0); [nia|lia| |].
    + destruct Ht as [Hlm Ht]. by apply (IH _ e now (missed + 1)); [lia|nia| |].
  - destruct Ht as [Hq Ht]. apply (IH _ e before missed); [done|done|done|]. cbn [happens]. apply serve_listed; [done|]. by apply unrelated_listed.
Qed.

(** C21: a relay that runs stays listed.  Registered with a lease, its thread sleeps the
    interval it computes from the lease and takes at most [delay] for its requests; at most
    [m] turns in a row are lost on the network, and [m + 1] intervals with their delays are
    shorter than the lease.  Then whatever other requests the bootstrap service serves, none
    of them about this relay, the relay is registered throughout with the advertised
    address, until after its next turn is due. *)
Theorem relay_stays_listed (relay : RelayAdvertisement) (r r0 : Registry) (lease delay m start : Z) (events : list (Z * Event)) :
  bt_ok (relays r) -> 0 <= m -> 0 <= delay -> start + lease <= U64_MAX ->
  handle_request r start (RegisterRelay relay) = (r0, Wire.Registered lease) ->
  (m + 1) * (heartbeat_interval lease + delay) < lease ->
  timely (ra_relay_id relay) (heartbeat_interval lease + delay) m start 0 events -> Forall (fun e => e.1 + lease <= U64_MAX) events ->
  exists e, bt_get (ra_relay_id relay) (relays (fold_left (happens (mkHeartbeat relay (heartbeat_interval lease))) events r0)) = Some (mkRelayLease relay e)
    /\ last_turn start events + heartbeat_interval lease + delay < e.
Proof.
  intros Ho Hm Hd Hs Hreg Hlt Ht Hmax. assert (100 <= heartbeat_interval lease) as Hi by (unfold heartbeat_interval; lia).
  cbn [handle_request] in Hreg. unfold register_relay in Hreg. destruct (validate_relay_id _) as [[]|] eqn:Hv; [|done].
  case_bool_decide as Ha; [done|]. destruct (_ && _); [done|]. injection Hreg as Hr0 Hlease.
  assert (listed relay lease (start + lease) r0) as Hl.
  { subst r0. split_and!; [by apply bt_ok_insert, bt_ok_retain|done|]. cbn [set_relays relays]. rewrite bt_get_insert_eq. f_equal. f_equal.
    cbn in Hlease. rewrite <- Hlease in Hs |- *. by apply sat_add_exact. }
  destruct (happens_listed (mkHeartbeat relay (heartbeat_interval lease)) lease (heartbeat_interval lease + delay) m events
    ltac:(nia) ltac:(lia) Hlt Hv Ha Hmax r0 (start + lease) start 0 ltac:(lia) ltac:(lia) Ht Hl) as (e & (_ & _ & Hg) & He).
  exists e. split; [exact Hg|lia].
Qed.

(** A lease of a hundred milliseconds or less does not outlive the sleep of the thread. *)
Lemma short_lease_expires (relay : RelayAdvertisement) (r : Registry) (lease start now : Z) :
  lease <= 100 -> listed relay lease (start + lease) r -> start + heartbeat_interval lease <= now ->
  bt_get (ra_relay_id relay) (relays (purge r now)) = None.
Proof.
  intros Hl (Ho & _ & Hg) Hn. assert (100 <= heartbeat_interval lease) as Hi by (unfold heartbeat_interval; lia).
  destruct (bt_get _ (relays (purge r now))) as [l|] eqn:E; [|done]. apply bt_get_retain_Some in E as [E1 E2]; [|done].
  rewrite Hg in E1. injection E1 as <-. apply Z.gtb_lt in E2. cbn in E2. lia.
Qed.
End Lease.

(** ** The commands that ask the node *)

(** The configuration file a command reads and the method of the client it stands for. *)
Definition asks `{Hex} (command : Command.t) : option (list Z * ApiCall) :=
  match command with
  | Command.Node (NodeCommand.Status config) => Some (config, ApiRecords.Status)
  | Command.Node (NodeCommand.Stop config) => Some (config, Shutdown)
  | Command.Node (NodeCommand.Fetch config content no_share) => Some (config, StartFetch (ContentId_to_string content) (negb no_share))
  | Command.Node (NodeCommand.Diagnostics config) => Some (config, Diagnostics)
  | Command.Content (ContentCommand.Add config file no_share) => Some (config, AddContent file (negb no_share))
  | Command.Content (ContentCommand.List config) => Some (config, ApiRecords.Content)
  | Command.Content (ContentCommand.Remove config content delete_bytes) => Some (config, RemoveContent (ContentId_to_string content) delete_bytes)
  | Command.Transfer (TransferCommand.List config) => Some (config, Transfers)
  | Command.Transfer (TransferCommand.Show config id) => Some (config, TransferOf id)
  | Command.Transfer (TransferCommand.Pause config id) => Some (config, PauseTransfer id)
  | Command.Transfer (TransferCommand.Resume config id) => Some (config, ResumeTransfer id)
  | _ => None
  end.

Section Asking.
Context `{Blake3} `{Hex} `{Postcard} `{StoreCodec} `{JsonLaws} `{Toml}.

(** Every such command is the request of its method. *)
Lemma asks_request sc command path call p :
  asks command = Some (path, call) -> call_ok call -> run sc command p = ask sc path (call_request call) p.
Proof.
  destruct command as [| | | | |[]|[]|[]|]; intros [= <- <-] Hok; try reflexivity.
  cbn [run run_content call_ok call_request] in *. unfold ask, path_value. rewrite Hok. cbn [map_err].
  unfold mbind, st_bind, lift. destruct (load_node_config sc config no_overrides p) as [p' [c|e]]; reflexivity.
Qed.

(** The exchange of a request with a daemon over the loopback interface, which leaves the
    daemon in the state [rt'] and gives the client the response. *)
Definition exchanged (sc : Scene) (conn : LocalApiConnection) (call : ApiCall) (rt rt' : NodeRuntime) (answer : NodeApi.reply) : Prop :=
  let '(m, t, v) := call_request call in
  exists frags rest failure remote, is_loopback remote = true /\ Forall filled frags /\ concat frags = request_bytes conn m t v
    /\ NodeApi.handle_connection (mkIncoming (frags ++ rest) failure) remote rt = (rt', answer)
    /\ sc_exchange sc conn (request_bytes conn m t v) = Some (response_bytes answer.1 answer.2).

(** The sizes the daemon accepts. *)
Definition call_fits (conn : LocalApiConnection) (call : ApiCall) : Prop :=
  let '(m, t, v) := call_request call in len t <= API_MAX_TARGET /\ len (request_bytes conn m t v) <= API_MAX_REQUEST.

(** C4: a command that asks the node performs its operation there.  Its configuration file is
    read, and the daemon that holds the same token performs exactly the operation the
    command is named for, with the arguments of the command, and moves to the state that
    operation gives; the command prints the result when it is a success and otherwise ends
    with the status and the message of the daemon, having printed nothing. *)
Theorem command_performs_operation (sc : Scene) (command : Command.t) (path : list Z) (call : ApiCall) (c : NodeConfig)
  (p : Process) (w : World) (rt rt' : NodeRuntime) (answer : NodeApi.reply) :
  asks command = Some (path, call) -> call_ok call -> load path (sc_environment sc) no_overrides (p_disk p) = (w, Ok c) ->
  connection_ok (api_client c) -> nc_api_token c = nc_api_token (config rt) -> call_fits (api_client c) call ->
  exchanged sc (api_client c) call rt rt' answer -> 0 <= answer.1 <= U16_MAX -> value_ok answer.2 ->
  (match operation call rt with
   | (rt1, Ok result) => rt' = rt1 /\ answer = result
   | (rt1, Err error) => rt' = rt1 /\ answer = (400, error_json (str "invalid_operation") error)
   end)
  /\ run sc command p
     = match verdict answer.1 answer.2 with
       | Ok value => (mkProcess w (p_stdout p ++ [Document value]), Ok Finished)
       | Err e => (mkProcess w (p_stdout p), Err (ApiFailed e))
       end.
Proof.
  intros Hc Hok Hl Hconn Htoken Hfits Hex Hs Hv. pose proof (call_served (api_client c) call) as Hserved. unfold call_fits, exchanged in *.
  rewrite (asks_request sc _ _ _ p Hc Hok). unfold ask, request_value. destruct (call_request call) as [[m t] v].
  destruct Hfits as [Hf1 Hf2], Hex as (frags & rest & failure & remote & Hr & Hfr & Hcat & Hh & He). split.
  - specialize (Hserved frags rest failure remote rt Hconn Htoken Hr Hok Hf1 Hf2 Hfr Hcat). rewrite Hh in Hserved.
    destruct (operation call rt) as [rt1 [result|error]]; by injection Hserved.
  - unfold load_node_config, on_disk, mbind, st_bind, lift. rewrite Hl. cbn [map_err]. rewrite He. cbn [ok_or map_err].
    rewrite parse_response_bytes by done. by destruct (verdict answer.1 answer.2).
Qed.
End Asking.

(** ** A new node *)

Section Creation.
Context `{Blake3} `{Hex} `{Postcard} `{StoreCodec} `{Json} `{TomlLaws}.

(** The configuration that [node init] writes is the one the other commands load: the
    chosen directory and addresses, a token of fresh randomness, and a loopback address.
    An existing file is never overwritten. *)
Lemma init_then_load (sc : Scene) (path dir : list Z) (listen : SocketAddr) (bootstrap : option SocketAddr) (p p' : Process) (r : result CliError Outcome) :
  run sc (Command.Node (NodeCommand.Init path dir listen bootstrap)) p = (p', r) ->
  (r = Ok Finished -> files (p_disk p) !! path = None /\ is_loopback (sa_ip listen) = true
     /\ exists random c, sc_random sc = Some random /\ c = mkNodeConfig dir listen bootstrap 0 0 4 (str "info") (hex_encode random)
          /\ files (p_disk p') = <[path := toml_encode c]> (files (p_disk p))
          /\ (faults (p_disk p') = [] -> len (toml_encode c) <= MAX_CONFIG_BYTES -> load path ∅ no_overrides (p_disk p') = (p_disk p', Ok c))).
Proof.
  intros Hr ->. cbn [run run_node] in Hr. apply st_ok_inv in Hr as (p1 & node & [= <- E1] & Hr). apply map_err_Ok in E1.
  unfold initialized in E1. destruct (sc_random sc) as [random|]; [|done]. injection E1 as <-.
  apply st_ok_inv in Hr as (p2 & u & E2 & Hr). apply st_ok_inv in Hr as (p3 & u' & [= <-] & [= <-]).
  unfold on_disk in E2. destruct (NodeConfig.create _ path (p_disk p)) as [w [[]|e]] eqn:Ec; [|done]. injection E2 as <- _.
  destruct (config_roundtrip _ _ _ _ Ec) as (Hs & Hn & Hf & Hload). split_and!; [done|apply Hs|]. eexists random, _. split_and!; [done|reflexivity|exact Hf|].
  intros Hnf Hlen. by destruct (Hload Hnf Hlen).
Qed.
End Creation.

(** ** The commands that fetch *)

Section Fetches.
Context `{Blake3} `{Hex} `{PostcardLaws} `{StoreCodec} `{Json} `{Toml}.

(** The arguments of exactly one of the two modes. *)
Definition mode_chosen (bootstrap relay : option SocketAddr) (route key : option (list Z)) (download_limit : option Z) : bool :=
  if given bootstrap then negb (given relay || given route || given key)
  else given relay && given route && given key && negb (given download_limit).

Lemma fetch_overlay_cases sc content output p p' r :
  Forall (fun a => Forall link_typed (at_links a)) (sc_attempts sc) -> fetch_overlay sc content output p = (p', r) ->
  p_stdout p' = p_stdout p /\ forall stats, r = Ok (Some stats) -> fetched content output (p_disk p').
Proof.
  intros Ht. unfold fetch_overlay, fetch_file_via_overlay_with_monitor. pose proof (fetch_loop_ok FETCH_MAX_DISCOVERY_ATTEMPTS content output (sc_rounds sc) (sc_attempts sc) None (p_disk p) Ht) as Hok.
  destruct (fetch_loop _ content output _ _ None (p_disk p)) as [[w reported] o]. destruct Hok as [[Hgood _] _].
  destruct o as [[stats|e]|]; intros [= <- <-]; split; try done. intros s _. by destruct (Hgood stats eq_refl).
Qed.

(** The fetch command reports only verified content.  Arguments that mix the two modes, or
    that lack one of the manual mode, are refused before anything is read or sent.  When
    the command succeeds, the output holds bytes with the requested identifier, and the line
    that says so is the only one printed; a command that fails or still waits has
    printed nothing. *)
Theorem fetch_command_verified (sc : Scene) (bootstrap relay : option SocketAddr) (route key : option (list Z)) (content : ContentId)
  (output : list Z) (download_limit : option Z) (p : Process) :
  Forall (fun a => Forall link_typed (at_links a)) (sc_attempts sc) ->
  let '(p', r) := run sc (Command.Fetch bootstrap relay route key content output download_limit) p in
  (mode_chosen bootstrap relay route key download_limit = false -> p' = p /\ exists text, r = Err (Message text))
  /\ (r = Ok Finished -> fetched content output (p_disk p')
        /\ p_stdout p' = p_stdout p ++ [Line (str "verified " ++ ContentId_to_string content ++ str " and wrote " ++ output)])
  /\ (r <> Ok Finished -> p_stdout p' = p_stdout p).
Proof.
  intros Ht. cbn [run]. unfold run_fetch, mode_chosen. destruct bootstrap as [b|]; cbn [given negb].
  - destruct (given relay || given route || given key); cbn [negb].
    { unfold throw, mbind, st_bind. split_and!; [|done|done]. intros _. split; [done|]. by eexists. }
    unfold mbind, st_bind, mret, st_ret. destruct (fetch_overlay sc content output p) as [p1 [stats|e]] eqn:E;
      destruct (fetch_overlay_cases _ _ _ _ _ _ Ht E) as [Hout Hgood]; [|done].
    destruct stats as [stats|]; cbn [given println p_disk p_stdout]; split_and!; try done.
    intros _. split; [by apply (Hgood stats)|by rewrite Hout].
  - destruct (given download_limit); cbn [negb andb]; rewrite ?andb_false_r, ?andb_true_r.
    { unfold throw, mbind, st_bind. split_and!; [|done|done]. intros _. split; [done|]. by eexists. }
    destruct relay as [?|], route as [?|], key as [?|]; unfold mbind, st_bind, lift; cbn [ok_or given andb];
      try (split_and!; [|done|done]; intros _; split; [done|]; by eexists).
    unfold on_disk. destruct (fetch_file (sc_link sc) content output (p_disk p)) as [w r] eqn:E. apply manual_fetch_cases in E as [Hok _].
    destruct r as [[]|e]; cbn [map_err println mret st_ret p_disk p_stdout]; split_and!; try done. intros _. split; [by apply Hok|done].
Qed.

(** The probe counts the bytes of verified content, and removes the file it chose itself. *)
Lemma probe_verified (sc : Scene) (bootstrap : SocketAddr) (content : ContentId) (chosen : option (list Z)) (p p' : Process) :
  Forall (fun a => Forall link_typed (at_links a)) (sc_attempts sc) ->
  run sc (Command.Testnet (TestnetCommand.Probe bootstrap content chosen)) p = (p', Ok Finished) ->
  exists data document, blake3_hash data = content /\ p_stdout p' = p_stdout p ++ [Document document]
    /\ field (str "verified_bytes") document = Some (Number (len data))
    /\ forall output, chosen = Some output -> files (p_disk p') !! output = Some data.
Proof.
  intros Ht. cbn [run run_testnet]. set (output := default _ chosen). intros Hr.
  apply st_ok_inv in Hr as (p1 & stats & E & Hr). destruct (fetch_overlay_cases _ _ _ _ _ _ Ht E) as [Hout Hgood].
  destruct stats as [stats|]; [|done]. destruct (Hgood stats eq_refl) as (data & Hd & Hid).
  apply st_ok_inv in Hr as (p2 & n & En & Hr). apply st_ok_inv in Hr as (p3 & u & [= <- _] & Hr).
  apply st_ok_inv in Hr as (p4 & u' & Er & [= <-]).
  assert (n = len data /\ files (p_disk p2) = files (p_disk p1) /\ p_stdout p2 = p_stdout p1) as (-> & Hf & Hout2).
  { unfold file_length in En. apply st_ok_inv in En as (p5 & bytes & En & [= <- <-]). unfold on_disk in En.
    destruct (fs_read output (p_disk p1)) as [w r] eqn:Ef. injection En as <- En. apply map_err_Ok in En. subst r.
    unfold fs_read, primitive in Ef. destruct (faults (p_disk p1)) as [|[k|] rest]; [|done|]; injection Ef as <- Ef; apply ok_or_Ok in Ef;
      rewrite Hd in Ef; by injection Ef as <-. }
  exists data. eexists. split; [done|]. destruct chosen as [o|]; cbn [given] in Er.
  - injection Er as <-. cbn [p_stdout p_disk]. rewrite Hout2, Hout. split_and!; [reflexivity|reflexivity|]. intros ? [= <-]. by rewrite Hf.
  - unfold on_disk in Er. destruct (fs_remove _ _) as [w r]. injection Er as <- _. cbn [p_stdout]. rewrite Hout2, Hout. by split_and!.
Qed.
End Fetches.

(** ** Defaults *)

(** The default addresses are addresses, the one of the local API is loopback, the default
    identifier is one, and with the default lease a relay survives two lost turns. *)
Example defaults_usable :
  parse_socket_addr default_bootstrap_listen = Some (mkSocketAddr (V4 [127; 0; 0; 1]) 0 7100)
  /\ parse_socket_addr default_relay_listen = Some (mkSocketAddr (V4 [127; 0; 0; 1]) 0 7000)
  /\ (is_loopback ∘ sa_ip <$> parse_socket_addr default_api_listen) = Some true
  /\ len default_probe_content = 64 /\ forallb (fun b => bool_decide (is_Some (to_digit 16 b))) default_probe_content = true
  /\ (2 + 1) * heartbeat_interval default_lease_ms < default_lease_ms.
Proof. repeat split; vm_compute; reflexivity. Qed.

(** ** Examples *)

Section Examples.
Import Toy ToyPostcard ToyCodec ToyJson ToyToml.

(** A lease of a second; a discovery, a turn that is lost, the next one. *)
Definition sample_events : list (Z * Event) :=
  [(10, Other (Discover sample_content)); (340, Beat Lost Lost); (680, Beat Unanswered Lost); (700, Other Wire.Health)].

Lemma relay_stays_listed_witness :
  exists e, bt_get (str "relay-a") (relays (fold_left (happens (mkHeartbeat sample_relay (heartbeat_interval 1000))) sample_events
    (handle_request (Registry_new 1000) 0 (RegisterRelay sample_relay)).1)) = Some (mkRelayLease sample_relay e) /\ 680 + 333 + 20 < e.
Proof.
  refine (relay_stays_listed sample_relay (Registry_new 1000) _ 1000 20 1 0 sample_events _ _ _ _ _ _ _ _).
  - apply bt_ok_nil.
  - lia.
  - lia.
  - vm_compute. discriminate.
  - vm_compute. reflexivity.
  - vm_compute. reflexivity.
  - cbn. repeat split; vm_compute; discriminate.
  - repeat constructor; vm_compute; discriminate.
Defined.

(** A run with nothing outside but the local API. *)
Definition sample_daemon : NodeRuntime := new_runtime sample_config sample_store 0 0.
Definition sample_scene (exchange : LocalApiConnection -> list Z -> option (list Z)) (attempts : list Attempt) : Scene :=
  mkScene ∅ None (fun a => Some a) (fun _ => true) exchange (db sample_store) 0 0 (fun _ => Ok 1000) (Ok tt) (str "tmp") 1
    None None (fun _ => Ok 1000) [] attempts sample_rounds Unreachable.

(** The answer of the daemon to one request. *)
Definition sample_answer (bytes : list Z) : NodeRuntime * NodeApi.reply :=
  NodeApi.handle_connection (mkIncoming [bytes] []) (V4 [127; 0; 0; 1]) sample_daemon.
Definition sample_exchange (conn : LocalApiConnection) (bytes : list Z) : option (list Z) :=
  let '(_, (status, value)) := sample_answer bytes in Some (response_bytes status value).

Lemma command_performs_operation_witness :
  exists rt' value,
    operation (PauseTransfer 7) sample_daemon = (rt', Err value)
    /\ exists e, run (sample_scene sample_exchange []) (Command.Transfer (TransferCommand.Pause (str "node.toml") 7))
         (mkProcess sample_created []) = (mkProcess sample_created [], Err (ApiFailed e)).
Proof.
  set (answer := sample_answer (request_bytes (api_client sample_config) (str "POST") (str "/v1/transfers/7/pause") (Some (Object [])))).
  pose proof (command_performs_operation (sample_scene sample_exchange []) (Command.Transfer (TransferCommand.Pause (str "node.toml") 7))
    (str "node.toml") (PauseTransfer 7) sample_config (mkProcess sample_created []) sample_created sample_daemon answer.1 answer.2) as Hc.
  destruct Hc as [Hop Hrun].
  - reflexivity.
  - split; vm_compute; discriminate.
  - vm_compute. reflexivity.
  - split; [|split; [done|vm_compute; reflexivity]]. repeat split; try (vm_compute; congruence). all: repeat constructor; vm_compute; congruence.
  - reflexivity.
  - split; vm_compute; discriminate.
  - unfold exchanged. cbn [call_request].
    exists [request_bytes (api_client sample_config) (str "POST") (str "/v1/transfers/7/pause") (Some (Object []))], [], [], (V4 [127; 0; 0; 1]).
    split_and!; [reflexivity| |apply (app_nil_r (request_bytes _ _ _ _))|vm_compute; reflexivity|vm_compute; reflexivity].
    constructor; [|constructor]. vm_compute. congruence.
  - vm_compute. split; discriminate.
  - assert (answer.2.2 = error_json (str "invalid_operation") (str "unknown transfer")) as -> by (vm_compute; reflexivity).
    apply error_json_ok; vm_compute; reflexivity.
  - clear Hop. assert (exists e, verdict answer.2.1 answer.2.2 = Err e) as [e Ev] by (vm_compute; eexists; reflexivity).
    rewrite Ev in Hrun. eexists _, _. split; [vm_compute; reflexivity|]. exists e. exact Hrun.
Defined.

Lemma fetch_command_verified_witness :
  let '(p', r) := run (sample_scene sample_exchange sample_attempts)
    (Command.Fetch (Some (mkSocketAddr (V4 [127; 0; 0; 1]) 0 7100)) None None None (Toy.checksum (str "abc")) sample_output None)
    (mkProcess (mkWorld ∅ []) []) in
  r = Ok Finished /\ fetched (Toy.checksum (str "abc")) sample_output (p_disk p').
Proof.
  pose proof (fetch_command_verified (sample_scene sample_exchange sample_attempts) (Some (mkSocketAddr (V4 [127; 0; 0; 1]) 0 7100)) None None None
    (Toy.checksum (str "abc")) sample_output None (mkProcess (mkWorld ∅ []) [])) as Hf.
  destruct (run _ _ _) as [p' r] eqn:E. assert (r = Ok Finished) as Hr by (vm_compute in E; by injection E as _ <-).
  split; [exact Hr|]. refine (proj1 (proj1 (proj2 (Hf _)) Hr)). repeat constructor; cbn; lia.
Defined.
End Examples.
