(* ===== verification/UnitTests.v ===== *)
(** * UnitTests: the unit tests of the crates, run on the model

    Every definition here is a test function of the repository, with its name, as a boolean
    that is true when all its assertions hold; the examples evaluate them.  They check the
    definitions of the development against what the authors of the program expect of it.
    The tests run on the instances of Instances.v in place of BLAKE3, so the ones whose
    expected values are digests are left out, and so are those that need sockets. *)
From stdpp Require Import base tactics list numbers option gmap.
From Stdlib Require Import ZArith Lia String.
From S2P Require Import Prelude Bytes Text NetAddr Core Instances Availability Wire Swarm Frame Net Relay Overlay Bencode Magnet Torrent Resume Entry.
Import stdpp.list.

Local Open Scope Z_scope.

(** ** Assertions *)

(** A test keeps a value and stops at the first assertion that fails. *)
Abbreviation test S := (st S unit).

Definition call {S A} (f : S -> S * A) : test S A := fun s => let '(s, a) := f s in (s, Ok a).
Definition change {S} (f : S -> S) : test S unit := fun s => (f s, Ok tt).
Definition look {S A} (f : S -> A) : test S A := fun s => (s, Ok (f s)).
Definition assert {S} (b : bool) : test S unit := if b then mret tt else throw tt.
Definition assert_eq {S A} `{EqDecision A} (a b : A) : test S unit := assert (bool_decide (a = b)).
Definition unwrap {S E A} (r : result E A) : test S A := match r with Ok a => mret a | Err _ => throw tt end.
Definition unwrap_some {S A} (o : option A) : test S A := match o with Some a => mret a | None => throw tt end.

Definition passes {S A} (s : S) (t : test S A) : bool := is_ok (t s).2.

Import Toy.

(** ** crates/triptorrent-swarm *)

Module SwarmTests.
Definition of_indices (n : Z) (l : list Z) : PieceAvailability := from_indices n l.

Definition started (r : result ScheduleError Scheduler) (t : test Scheduler unit) : bool :=
  match r with Ok s => passes s t | Err _ => false end.

Definition scheduler_prefers_rare_chunks_and_avoids_duplicates : bool :=
  started (Scheduler_new 4 [from_indices 4 [0; 1; 2; 3]; from_indices 4 [1; 2; 3]] (replicate 4 false))
    (a ← call (fun s => assign s 0); _ ← assert_eq a (Some 0);
     a ← call (fun s => assign s 1); _ ← assert_eq a (Some 1);
     r ← call (fun s => accept s 0 0); _ ← unwrap r;
     r ← call (fun s => accept s 1 1); _ ← unwrap r;
     a ← call (fun s => assign s 0); _ ← assert_eq a (Some 2);
     a ← call (fun s => assign s 1); assert_eq a (Some 3)).

Definition rejected_work_is_reassigned_to_another_source : bool :=
  started (Scheduler_new 2 [availability_all 2; availability_all 2] (replicate 2 false))
    (a ← call (fun s => assign s 0); _ ← assert_eq a (Some 0);
     _ ← change (fun s => reject s 0);
     a ← call (fun s => assign s 1); _ ← assert_eq a (Some 0);
     n ← look retries; assert_eq n 1).

Definition rate_schedule_is_deterministic : bool :=
  passes (RateSchedule_new 1000)
    (d ← call (fun l => reserve l 0 250); _ ← assert_eq d 0;
     d ← call (fun l => reserve l (100 * 1000000) 250); _ ← assert_eq d (150 * 1000000);
     d ← call (fun l => reserve l (500 * 1000000) 500); assert_eq d 0).

Definition replayed_or_wrong_provider_chunk_cannot_change_verified_state : bool :=
  started (Scheduler_new 1 [availability_all 1; availability_all 1] [false])
    (a ← call (fun s => assign s 0); _ ← assert_eq a (Some 0);
     r ← call (fun s => accept s 1 0); _ ← assert (match r with Err UnexpectedChunk => true | _ => false end);
     c ← look is_complete; _ ← assert (negb c);
     r ← call (fun s => accept s 0 0); _ ← unwrap r;
     c ← look is_complete; _ ← assert c;
     r ← call (fun s => accept s 0 0); _ ← assert (match r with Err UnexpectedChunk => true | _ => false end);
     c ← look is_complete; assert c).

Fixpoint reject_each (providers : list Z) : test Scheduler unit :=
  match providers with
  | [] => mret tt
  | provider :: providers =>
      a ← call (fun s => assign s provider); _ ← assert_eq a (Some 0);
      _ ← change (fun s => reject s provider);
      stats ← look (fun s => provider_stats s provider);
      _ ← assert (match stats with Some state => negb (stats_active state) | None => false end);
      reject_each providers
  end.

Definition hostile_provider_retries_are_bounded_by_provider_count : bool :=
  started (Scheduler_new 1 (replicate 4 (availability_all 1)) [false])
    (_ ← reject_each [0; 1; 2; 3];
     n ← look retries; _ ← assert_eq n 4;
     f ← look can_finish; _ ← assert (negb f);
     a ← call (fun s => assign s 0); assert_eq a None).

Example swarm_tests_pass :
  [scheduler_prefers_rare_chunks_and_avoids_duplicates; rejected_work_is_reassigned_to_another_source;
   rate_schedule_is_deterministic; replayed_or_wrong_provider_chunk_cannot_change_verified_state;
   hostile_provider_retries_are_bounded_by_provider_count] = replicate 5 true.
Proof. vm_compute. reflexivity. Qed.
End SwarmTests.

(** ** crates/triptorrent-core *)

Module CoreTests.
Definition content_ids_are_deterministic : bool :=
  match Manifest_from_bytes (str "repeatable content"), Manifest_from_bytes (str "repeatable content") with
  | Ok (first, _), Ok (second, _) => bool_decide (first = second) && (len (ContentId_to_string (m_content_id first)) =? 64)
  | _, _ => false
  end.

Definition valid_chunks_reconstruct_exact_content : bool :=
  let data := replicate (Z.to_nat (CHUNK_SIZE + 17)) 42 in
  match Manifest_from_bytes data with
  | Ok (manifest, chunks) => bool_decide (reconstruct manifest chunks = Ok data)
  | Err _ => false
  end.

Definition corrupted_chunks_are_rejected : bool :=
  match Manifest_from_bytes (str "integrity matters") with
  | Ok (manifest, mkChunk index id (byte :: data) :: _) =>
      bool_decide (verify_chunk manifest (mkChunk index id (Z.lxor byte 255 :: data)) = Err (InvalidChunk 0))
  | _ => false
  end.

Definition empty_content_round_trips : bool :=
  match Manifest_from_bytes [] with
  | Ok (manifest, chunks) => bool_decide (chunks = []) && bool_decide (reconstruct manifest chunks = Ok [])
  | Err _ => false
  end.

Definition hostile_manifest_shape_is_rejected_before_transfer_allocation : bool :=
  let content_id := ContentId_digest (str "shape") in
  let invalid := mkManifest content_id 1 0 [] in
  let oversized := mkManifest content_id (MAX_CONTENT_LENGTH + 1) CHUNK_SIZE [] in
  bool_decide (validate_shape invalid = Err InvalidChunkSize) && bool_decide (validate_shape oversized = Err ContentTooLarge).

Example core_tests_pass :
  [content_ids_are_deterministic; valid_chunks_reconstruct_exact_content; corrupted_chunks_are_rejected; empty_content_round_trips;
   hostile_manifest_shape_is_rejected_before_transfer_allocation] = replicate 5 true.
Proof. vm_compute. reflexivity. Qed.
End CoreTests.

(** ** crates/triptorrent-protocol *)

Module ProtocolTests.
Definition messages_round_trip : bool :=
  let id := ContentId_digest (str "testnet-v1") in
  all (fun message =>
      match Wire.encode message with Ok bytes => bool_decide (Wire.decode bytes = Ok message) | Err _ => false end)
    [SwarmRequest id; ChunkRequest 7; SwarmComplete].

Definition overlay_round_trip : bool :=
  let key := replicate 32 7 in
  let value := RegisterPeer (mkPeerAdvertisement (PeerId_from_public_key key) key [SwarmTransferV1] [ContentId_digest (str "x")]) in
  match encode_overlay_request value with
  | Ok bytes => bool_decide (decode_overlay_request bytes = Ok value)
  | Err _ => false
  end.

Definition flip (l : list Z) (i mask : Z) : list Z := set_at l i (Z.lxor (default 0 (get l i)) mask).

Definition negotiation_fails_closed : bool :=
  match Wire.encode Complete with
  | Ok value =>
      let version := set_at (set_at value 4 0) 5 2 in
      bool_decide (Wire.decode version = Err (UnsupportedVersion 2))
      && match Wire.decode (flip value 7 1) with Err (WrongNetwork _) => true | _ => false end
      && negb (is_ok (Wire.decode [0; 1]))
  | Err _ => false
  end.

Definition unknown_and_trailing_fail_closed : bool :=
  match Wire.encode Complete with
  | Ok value =>
      bool_decide (Wire.decode (set_at value (len value - 1) 254) = Err (UnknownMessage 254))
      && negb (is_ok (Wire.decode (value ++ [0])))
  | Err _ => false
  end.

Definition availability_is_canonical : bool :=
  let value := from_indices 10 [0; 3; 9] in
  is_valid value && contains value 9 && negb (is_valid (mkAvailability 9 [0; 128])).

Example protocol_tests_pass :
  [messages_round_trip; overlay_round_trip; negotiation_fails_closed; unknown_and_trailing_fail_closed; availability_is_canonical]
  = replicate 5 true.
Proof. vm_compute. reflexivity. Qed.
End ProtocolTests.

(** ** crates/triptorrent-overlay *)

Module OverlayTests.
Definition peer (seed : Z) (content_ids : list ContentId) : PeerAdvertisement :=
  let public_key := replicate 32 seed in
  mkPeerAdvertisement (PeerId_from_public_key public_key) public_key [RelayedTransferV1] content_ids.

Definition relay (relay_id : list Z) (port : Z) : RelayAdvertisement := mkRelayAdvertisement relay_id (str "127.0.0.1:" ++ decimal port).

Definition register_peer (now : Z) (a : PeerAdvertisement) : test Registry (result RegistryError unit) :=
  call (fun r => Overlay.register_peer r now a).
Definition register_relay (now : Z) (a : RelayAdvertisement) : test Registry (result RegistryError unit) :=
  call (fun r => Overlay.register_relay r now a).
Definition discover (now : Z) (c : ContentId) : test Registry (option RouteAssignment) := call (fun r => Overlay.discover r now c).
Definition poll_peer (now : Z) (p : PeerId) : test Registry (option RouteAssignment) := call (fun r => Overlay.poll_peer r now p).
Definition snapshot (now : Z) : test Registry OverlaySnapshot := call (fun r => Overlay.snapshot r now).

Definition peers_relays_and_content_are_registered_and_discovered : bool :=
  let content_id := ContentId_digest (str "discoverable") in
  let provider := peer 1 [content_id] in
  passes (Registry_new 1000)
    (r ← register_peer 0 provider; _ ← unwrap r;
     r ← register_relay 0 (relay (str "relay-a") 7000); _ ← unwrap r;
     s ← snapshot 0;
     _ ← assert_eq [sn_peers s; sn_relays s; sn_content_advertisements s; sn_expired_peers s; sn_expired_relays s; sn_expired_routes s]
           [1; 1; 1; 0; 0; 0];
     o ← discover 0 content_id; receiver_route ← unwrap_some o;
     _ ← assert_eq (Wire.provider_id receiver_route) (pa_peer_id provider);
     _ ← assert_eq (relay_id receiver_route) (str "relay-a");
     o ← poll_peer 0 (pa_peer_id provider); p ← unwrap_some o;
     assert_eq p receiver_route).

Fixpoint poll_each (routes : list RouteAssignment) : test Registry unit :=
  match routes with
  | [] => mret tt
  | route :: routes =>
      o ← poll_peer 0 (Wire.provider_id route); _ ← assert_eq o (Some route);
      poll_each routes
  end.

Definition swarm_provider (seed : Z) (content_id : ContentId) : PeerAdvertisement :=
  let p := peer seed [content_id] in
  mkPeerAdvertisement (pa_peer_id p) (pa_public_key p) (pa_capabilities p ++ [SwarmTransferV1]) (pa_content_ids p).

Definition swarm_discovery_returns_distinct_providers_and_routes : bool :=
  let content_id := ContentId_digest (str "shared swarm content") in
  passes (Registry_new 1000)
    (r ← register_peer 0 (swarm_provider 1 content_id); _ ← unwrap r;
     r ← register_peer 0 (swarm_provider 2 content_id); _ ← unwrap r;
     r ← register_peer 0 (swarm_provider 3 content_id); _ ← unwrap r;
     r ← register_relay 0 (relay (str "relay-a") 7000); _ ← unwrap r;
     r ← register_relay 0 (relay (str "relay-b") 7001); _ ← unwrap r;
     routes ← call (fun r => discover_providers r 0 content_id 8);
     _ ← assert_eq (len routes) 3;
     first ← unwrap_some (get routes 0); second ← unwrap_some (get routes 1);
     _ ← assert (negb (bool_decide (Wire.provider_id first = Wire.provider_id second)));
     _ ← assert_eq (relay_id first) (str "relay-a");
     _ ← assert_eq (relay_id second) (str "relay-b");
     poll_each routes).

Definition stale_peer_and_relay_registrations_expire : bool :=
  let content_id := ContentId_digest (str "expires") in
  passes (Registry_new 100)
    (r ← register_peer 0 (peer 2 [content_id]); _ ← unwrap r;
     r ← register_relay 0 (relay (str "relay-a") 7000); _ ← unwrap r;
     o ← discover 99 content_id; _ ← assert (bool_decide (is_Some o));
     o ← discover 100 content_id; _ ← assert_eq o None;
     s ← snapshot 100; _ ← assert_eq (sn_peers s) 0;
     s ← snapshot 100; assert_eq (sn_relays s) 0).

Definition stale_route_assignments_expire_independently : bool :=
  let content_id := ContentId_digest (str "route expires") in
  let provider := peer 9 [content_id] in
  passes (Registry_new 100)
    (r ← register_peer 0 provider; _ ← unwrap r;
     r ← register_relay 0 (relay (str "relay-a") 7000); _ ← unwrap r;
     o ← discover 0 content_id; _ ← assert (bool_decide (is_Some o));
     b ← call (fun r => heartbeat_peer r 50 (pa_peer_id provider)); _ ← assert b;
     b ← call (fun r => heartbeat_relay r 50 (str "relay-a")); _ ← assert b;
     o ← poll_peer 100 (pa_peer_id provider); _ ← assert_eq o None;
     s ← snapshot 100; _ ← assert_eq (sn_peers s) 1;
     s ← snapshot 100; assert_eq (sn_relays s) 1).

Definition peer_reconnect_restores_content_discovery : bool :=
  let content_id := ContentId_digest (str "reconnect") in
  let provider := peer 3 [content_id] in
  passes (Registry_new 100)
    (r ← register_peer 0 provider; _ ← unwrap r;
     r ← register_relay 0 (relay (str "relay-a") 7000); _ ← unwrap r;
     o ← discover 100 content_id; _ ← assert_eq o None;
     r ← register_peer 101 provider; _ ← unwrap r;
     r ← register_relay 101 (relay (str "relay-a") 7000); _ ← unwrap r;
     o ← discover 101 content_id; assert (bool_decide (is_Some o))).

Definition failed_relay_is_replaced_by_an_alternative : bool :=
  let content_id := ContentId_digest (str "failover") in
  passes (Registry_new 1000)
    (r ← register_peer 0 (peer 4 [content_id]); _ ← unwrap r;
     r ← register_relay 0 (relay (str "relay-a") 7000); _ ← unwrap r;
     r ← register_relay 0 (relay (str "relay-b") 7001); _ ← unwrap r;
     o ← discover 0 content_id; a ← unwrap_some o; _ ← assert_eq (relay_id a) (str "relay-a");
     _ ← change (fun r => report_relay_failure r (str "relay-a"));
     o ← discover 1 content_id; a ← unwrap_some o; assert_eq (relay_id a) (str "relay-b")).

(** [assert!(matches!(r, Err(e)))] *)
Definition fails_with (expected : RegistryError -> bool) (r : result RegistryError unit) : test Registry unit :=
  assert (match r with Err e => expected e | Ok _ => false end).

Definition hostile_registration_and_route_storms_are_bounded : bool :=
  let content := ContentId_digest (str "bounded") in
  let extra := ContentId_digest (str "extra") in
  let spoofed := mkPeerAdvertisement (pa_peer_id (peer 2 [content])) (replicate 32 1) [RelayedTransferV1] [content] in
  let unsupported := mkPeerAdvertisement (pa_peer_id (peer 1 [content])) (replicate 32 1) [] [content] in
  let provider := peer 1 [content] in
  passes (with_limits 1000 (mkRegistryLimits 1 1 2 1))
    (r ← register_peer 0 spoofed; _ ← fails_with (fun e => match e with PeerIdentityMismatch => true | _ => false end) r;
     r ← register_peer 0 (peer 1 []); _ ← fails_with (fun e => match e with NoContent => true | _ => false end) r;
     r ← register_peer 0 unsupported; _ ← fails_with (fun e => match e with UnsupportedPeer => true | _ => false end) r;
     r ← register_relay 0 (relay (str "../relay") 7000); _ ← fails_with (fun e => match e with InvalidRelayId => true | _ => false end) r;
     r ← register_peer 0 (peer 1 [content; content]); _ ← fails_with (fun e => match e with DuplicateContentId => true | _ => false end) r;
     r ← register_peer 0 (peer 1 [content; extra; ContentId_digest (str "third")]);
     _ ← fails_with (fun e => match e with TooManyContentIds => true | _ => false end) r;
     r ← register_peer 0 provider; _ ← unwrap r;
     r ← register_peer 0 (peer 2 [extra]); _ ← fails_with (fun e => match e with PeerLimitReached => true | _ => false end) r;
     r ← register_relay 0 (relay (str "relay-a") 7000); _ ← unwrap r;
     r ← register_relay 0 (relay (str "relay-b") 7001); _ ← fails_with (fun e => match e with RelayLimitReached => true | _ => false end) r;
     o ← discover 0 content; _ ← assert (bool_decide (is_Some o));
     o ← discover 0 content; _ ← assert_eq o None;
     o ← poll_peer 0 (pa_peer_id provider); _ ← assert (bool_decide (is_Some o));
     o ← discover 0 content; assert (bool_decide (is_Some o))).

Fixpoint register_seeds (seeds : list Z) : test Simulation unit :=
  match seeds with
  | [] => mret tt
  | seed :: seeds =>
      r ← call (fun s => sim_register_peer s (peer seed [ContentId_digest [seed - 1]])); _ ← unwrap r;
      register_seeds seeds
  end.

Definition simulation_handles_ten_peers_three_relays_and_churn : bool :=
  let wanted := ContentId_digest [7] in
  passes (Simulation_new 100)
    (_ ← register_seeds [1; 2; 3; 4; 5; 6; 7; 8; 9; 10];
     r ← call (fun s => sim_register_relay s (relay (str "relay-a") 7000)); _ ← unwrap r;
     r ← call (fun s => sim_register_relay s (relay (str "relay-b") 7001)); _ ← unwrap r;
     r ← call (fun s => sim_register_relay s (relay (str "relay-c") 7002)); _ ← unwrap r;
     s ← call sim_snapshot; _ ← assert_eq (sn_peers s) 10;
     s ← call sim_snapshot; _ ← assert_eq (sn_relays s) 3;
     o ← call (fun s => sim_discover s wanted); _ ← assert (bool_decide (is_Some o));
     _ ← change (fun s => sim_fail_relay s (str "relay-a"));
     o ← call (fun s => sim_discover s wanted); a ← unwrap_some o; _ ← assert_eq (relay_id a) (str "relay-b");
     _ ← change (fun s => advance s 100);
     s ← call sim_snapshot; _ ← assert_eq (sn_peers s) 0;
     s ← call sim_snapshot; _ ← assert_eq (sn_relays s) 0;
     r ← call (fun s => sim_register_peer s (peer 8 [wanted])); _ ← unwrap r;
     r ← call (fun s => sim_register_relay s (relay (str "relay-c") 7002)); _ ← unwrap r;
     o ← call (fun s => sim_discover s wanted); assert (bool_decide (is_Some o))).

Example overlay_tests_pass :
  [peers_relays_and_content_are_registered_and_discovered; swarm_discovery_returns_distinct_providers_and_routes;
   stale_peer_and_relay_registrations_expire; stale_route_assignments_expire_independently; peer_reconnect_restores_content_discovery;
   failed_relay_is_replaced_by_an_alternative; hostile_registration_and_route_storms_are_bounded;
   simulation_handles_ten_peers_three_relays_and_churn] = replicate 8 true.
Proof. vm_compute. reflexivity. Qed.
End OverlayTests.

(** ** crates/triptorrent-relay *)

Module RelayTests.
Definition registration (role : Z) (route : list Z) : list Z :=
  REGISTRATION_MAGIC ++ to_be 2 PROTOCOL_VERSION ++ [len NETWORK_ID] ++ NETWORK_ID ++ [role] ++ to_be 2 (len route) ++ route.

Definition malformed_registration_and_oversized_frame_fail_closed : bool :=
  let route := registration 0 (str "route") in
  let wrong_version := set_at route 5 ((PROTOCOL_VERSION mod 256 + 1) mod 256) in
  all (fun frame => negb (is_ok (parse_registration frame)))
    [str "bad"; registration 2 (str "route"); registration 0 (str "../route"); wrong_version; ProtocolTests.flip route 7 1]
  && negb (is_ok (net_read_frame (mkSource (to_be 4 (MAX_FRAME_LENGTH + 1)) None)).2).

Definition register (route : list Z) (role : Role) : test (RelayState unit) (result IoError (option (unit * unit))) :=
  call (fun s => relay_register s 0 route role tt).
Definition set_timeout (s : RelayState unit) : RelayState unit :=
  mkRelayState (Relay.pending s) (completed s)
    (mkRelayLimits (max_pending_routes (Relay.limits s)) (max_active_pairs (Relay.limits s)) (max_registration_connections (Relay.limits s)) 0)
    (Relay.expired_routes s).

(** The clock stands still, so with a timeout of zero every pending route is old. *)
Definition hostile_routes_are_bounded_cleaned_and_not_reused : bool :=
  passes (RelayState_new (mkRelayLimits 1 1 1 1000000000))
    (r ← register (str "squat") Sender; p ← unwrap r; _ ← assert_eq p None;
     r ← register (str "other") Sender; _ ← assert (negb (is_ok r));
     r ← register (str "squat") Sender; _ ← assert (negb (is_ok r));
     r ← register (str "squat") Receiver; p ← unwrap r; _ ← assert (bool_decide (is_Some p));
     r ← register (str "squat") Sender; _ ← assert (negb (is_ok r));
     _ ← change set_timeout;
     r ← register (str "fresh") Sender; p ← unwrap r; _ ← assert_eq p None;
     n ← look (fun s => map_len (Relay.pending s)); _ ← assert_eq n 1;
     r ← register (str "replacement") Sender; p ← unwrap r; _ ← assert_eq p None;
     n ← look (fun s => map_len (Relay.pending s)); _ ← assert_eq n 1;
     n ← look Relay.expired_routes; assert_eq n 1)
  && passes 0
       (b ← call (fun counter => try_acquire counter 1); _ ← assert b;
        b ← call (fun counter => try_acquire counter 1); _ ← assert (negb b);
        _ ← change (fun counter => counter - 1);
        b ← call (fun counter => try_acquire counter 1); assert b).

Example relay_tests_pass :
  [malformed_registration_and_oversized_frame_fail_closed; hostile_routes_are_bounded_cleaned_and_not_reused] = replicate 2 true.
Proof. vm_compute. reflexivity. Qed.
End RelayTests.

(** ** crates/triptorrent-cli *)

Module CliTests.
Import ToyPostcard.

Definition overlay_share_keeps_polling_past_fetch_discovery_limit : bool :=
  let public_key := replicate 32 7 in
  let expected := mkRouteAssignment (PeerId_from_public_key public_key) public_key (str "relay-a") (str "127.0.0.1:7000") (str "test-route") in
  let polls := replicate FETCH_MAX_DISCOVERY_ATTEMPTS (mkPoll true (Ok None)) ++ replicate 10 (mkPoll true (Ok (Some expected))) in
  match poll_until_assignment polls 0 with
  | (Some (Ok assignment), idle) => (idle + 1 =? Z.of_nat FETCH_MAX_DISCOVERY_ATTEMPTS + 1) && bool_decide (assignment = expected)
  | _ => false
  end.

Definition output : list Z := str "output.bin".

(** An operation on files, its error kept as a value. *)
Definition attempt {A} (c : io A) : test World (result ResumeError A) := call c.

Definition resume_rejects_corrupted_validated_chunk : bool :=
  match Manifest_from_bytes (replicate (Z.to_nat (CHUNK_SIZE + 3)) 7) with
  | Ok (manifest, first :: _) =>
      passes (mkWorld ∅ [])
        (r ← attempt (Resume.open output manifest); '(resume, _) ← unwrap r;
         '(_, r) ← call (write_verified_chunk resume manifest first); _ ← unwrap r;
         r ← attempt (write_all_at (append_suffix output (str ".triptorrent-part")) 0 (str "corrupt")); _ ← unwrap r;
         r ← attempt (Resume.open output manifest); assert (negb (is_ok r)))
  | _ => false
  end.

Definition resume_is_bound_to_the_exact_manifest : bool :=
  match Manifest_from_bytes (str "first content"), Manifest_from_bytes (str "second content") with
  | Ok (first, _), Ok (second, _) =>
      passes (mkWorld ∅ [])
        (r ← attempt (Resume.open output first); _ ← unwrap r;
         r ← attempt (Resume.open output second); assert (negb (is_ok r)))
  | _, _ => false
  end.

Definition resume_rejects_impossible_bitmap_and_partial_lengths : bool :=
  match Manifest_from_bytes (replicate (Z.to_nat (CHUNK_SIZE + 1)) 9) with
  | Ok (manifest, _) =>
      let hostile := mkResumeRecord RESUME_VERSION manifest (replicate (S (length (m_chunks manifest))) true) in
      let valid := mkResumeRecord RESUME_VERSION manifest (replicate (length (m_chunks manifest)) false) in
      passes (mkWorld ∅ [])
        (r ← attempt (Resume.open output manifest); '(resume, _) ← unwrap r;
         r ← attempt (fs_write (state_path resume) (encode_record hostile)); _ ← unwrap r;
         r ← attempt (Resume.open output manifest); _ ← assert (negb (is_ok r));
         r ← attempt (fs_write (state_path resume) (encode_record valid)); _ ← unwrap r;
         r ← attempt (Resume.set_len (part_path resume) (m_length manifest - 1)); _ ← unwrap r;
         r ← attempt (Resume.open output manifest); _ ← assert (negb (is_ok r));
         r ← attempt (Resume.set_len (part_path resume) (m_length manifest + 1)); _ ← unwrap r;
         r ← attempt (Resume.open output manifest); assert (negb (is_ok r)))
  | Err _ => false
  end.

Example cli_tests_pass :
  [overlay_share_keeps_polling_past_fetch_discovery_limit; resume_rejects_corrupted_validated_chunk; resume_is_bound_to_the_exact_manifest;
   resume_rejects_impossible_bitmap_and_partial_lengths] = replicate 4 true.
Proof. vm_compute. reflexivity. Qed.
End CliTests.

(** ** crates/triptorrent-interop *)

Module InteropTests.
(** The vectors of test-vectors/m6-bittorrent-interop.json the tests below read. *)
Definition malformed_bencoding_hex : list (list Z) :=
  [str "69303365"; str "692d3065"; str "64313a62313a78313a61313a7965"; str "343a616263"; str "64313a61313a78313a61313a7965"; str "69316565"].
Definition hybrid_metainfo_hex : list Z :=
  str "64343a696e666f64393a66696c6520747265656431313a7061796c6f61642e62696e64303a64363a6c656e6774686933306531313a70696563657320726f6f7433323a5e229d5294bb6227eca51574a9e97189073b289aa5fe188490b34ec3cb32eeb1656565363a6c656e6774686933306531323a6d6574612076657273696f6e693265343a6e616d6531313a7061796c6f61642e62696e31323a7069656365206c656e67746869313633383465363a70696563657332303a09baad66f70c81fc6c1006ee5445547558739f356565".
Definition magnets : list (list Z * Z * Z) :=
  [(str "magnet:?xt=urn:btih:208b088ea7a1fc55c74459446819d8d952197c51&dn=M6%20payload&tr=https%3A%2F%2Ftracker.example%2Fannounce&x.pe=127.0.0.1%3A6881", 1, 0);
   (str "magnet:?xt=urn:btmh:1220ca344924597443e1b027026cef64cbba61e43c0d44ee5c0c4c27e2cec80fe012&dn=M6%20payload&ws=https%3A%2F%2Fseed.example%2Fpayload.bin", 0, 1);
   (str "magnet:?xt=urn:btih:d178b313885d5ec7f4944c5a162faccbf8550cd8&xt=urn:btmh:12201772468ebd823d2726ecef0bc7ffc96ec9d1e3e62939f11f633f97844e6b03ac&tr=https%3A%2F%2Ftracker.example%2Fannounce", 1, 1)].
(** Each input with its normal form, when it is safe. *)
Definition paths : list (list Z * option (list Z)) :=
  [([112; 97; 121; 108; 111; 97; 100; 46; 98; 105; 110], Some [112; 97; 121; 108; 111; 97; 100; 46; 98; 105; 110]);
   ([46; 46], None);
   ([100; 105; 114; 47; 102; 105; 108; 101], None);
   ([97; 92; 98], None);
   ([67; 79; 78; 46; 116; 120; 116], None);
   ([116; 114; 97; 105; 108; 46], None);
   ([101; 769; 46; 116; 120; 116], Some [233; 46; 116; 120; 116])].

(** Composes the one letter of the vectors that has a shorter form. *)
Fixpoint compose (l : list Z) : list Z :=
  match l with
  | 101 :: 769 :: l => 233 :: compose l
  | c :: l => c :: compose l
  | [] => []
  end.
#[local] Instance small_nfc : Nfc := compose.
#[local] Instance toy_sha1 : Sha1 := fun l => take 20 (Toy.checksum l).
#[local] Instance toy_sha256 : Sha256 := Toy.checksum.

(** [is_err], for a parser that returns. *)
Definition refused {E A} (r : option (result E A)) : bool := match r with Some (Err _) => true | _ => false end.

Definition strict_bencoding_rejects_noncanonical_vectors : bool :=
  all (fun encoded => match Toy.decode encoded with Some bytes => refused (parse_bencode bytes) | None => false end) malformed_bencoding_hex.

Definition magnets_preserve_multiple_namespaced_topics_and_hints : bool :=
  all (fun '(uri, btih_count, btmh_count) =>
      match parse_magnet uri with
      | Ok magnet => (len (Magnet.btih magnet) =? btih_count) && (len (Magnet.btmh_sha256 magnet) =? btmh_count)
      | Err _ => false
      end) magnets.

Definition unsafe_paths_are_rejected_and_unicode_is_normalized : bool :=
  all (fun '(input, normalized) =>
      bool_decide (match sanitize_path_component input with Ok name => Some name | Err _ => None end = normalized)) paths.

Definition v2_merkle_root_uses_sixteen_kibibyte_leaves : bool :=
  let payload := replicate (Z.to_nat (V2_BLOCK_SIZE + 1)) 90 in
  let first := sha256_digest (take (Z.to_nat V2_BLOCK_SIZE) payload) in
  let second := sha256_digest (drop (Z.to_nat V2_BLOCK_SIZE) payload) in
  match v2_file_root payload, v2_file_root [] with
  | Some (Ok root), Some (Err EmptyFile) => bool_decide (root = sha256_digest (first ++ second))
  | _, _ => false
  end.

(** The bound on depth, on parameters and on the length of a component. *)
Definition parser_limits_deep_inputs : bool :=
  let n := Z.to_nat (MAX_BENCODE_DEPTH + 1) in
  match parse_bencode (replicate n 108 ++ str "0:" ++ replicate n 101) with Some (Err TooDeep) => true | _ => false end.
Definition parser_limits_magnets_and_components : bool :=
  let huge_magnet := str "magnet:?xt=urn:btih:" ++ replicate 40 48 ++ concat (replicate (Z.to_nat (MAX_MAGNET_PARAMETERS + 1)) (str "&dn=x")) in
  match parse_magnet huge_magnet, sanitize_path_component (replicate (Z.to_nat (MAX_PATH_COMPONENT_BYTES + 1)) 97) with
  | Err Magnet.TooLarge, Err TooLong => true
  | _, _ => false
  end.

Definition adversarial_interop_inputs_remain_metadata_only : bool :=
  all (fun malformed => refused (parse_bencode malformed) && refused (torrent_identity malformed))
    [str "i-0e"; str "i9223372036854775808e"; str "999999999999999999999999:x"; str "d1:ai1e1:ai2ee"; str "d1:bi1e1:ai2ee"; str "l1:a"]
  && all (fun magnet => negb (is_ok (parse_magnet magnet)))
    [str "magnet:?xt=urn%ZZbtih%3Adead"; str "magnet:?xt=urn:btih:00"; str "magnet:?xt=urn:btmh:1220ff"; str "magnet:?xt=%ff"]
  && all (fun path => negb (is_ok (sanitize_path_component path)))
    [str ".."; str "/root"; str "C:"; str "a/b"; [97; 92; 98]; str "NUL.txt"; [120; 0; 121]].

(** [copy_from_slice] of [replacement] over the first occurrence of a needle of its length *)
Fixpoint replace_first (needle replacement l : list Z) : list Z :=
  if starts_with needle l then replacement ++ drop (length needle) l
  else match l with [] => [] | x :: l => x :: replace_first needle replacement l end.

Definition malformed_v2_tree_and_inconsistent_hybrid_are_rejected : bool :=
  match torrent_identity (str "d4:infod9:file treede12:meta versioni2e12:piece lengthi16384eee") with
  | Some (Err (InvalidField field)) => bool_decide (field = "v2 file tree"%string)
  | _ => false
  end
  && match Toy.decode hybrid_metainfo_hex with
     | Some encoded =>
         match torrent_identity (replace_first (str "6:lengthi30e") (str "6:lengthi31e") encoded) with
         | Some (Err (InvalidField field)) => bool_decide (field = "hybrid payload length"%string)
         | _ => false
         end
     | None => false
     end.

Example interop_tests_pass :
  [strict_bencoding_rejects_noncanonical_vectors; magnets_preserve_multiple_namespaced_topics_and_hints;
   unsafe_paths_are_rejected_and_unicode_is_normalized; v2_merkle_root_uses_sixteen_kibibyte_leaves; parser_limits_deep_inputs;
   parser_limits_magnets_and_components; adversarial_interop_inputs_remain_metadata_only;
   malformed_v2_tree_and_inconsistent_hybrid_are_rejected] = replicate 8 true.
Proof. vm_compute. reflexivity. Qed.
End InteropTests.
