(* ===== verification/NodeTests.v ===== *)
(** * NodeTests: the unit tests of the node and of the desktop client, run on the model

    As in UnitTests.v: each definition is a test function of crates/triptorrent-node or
    crates/triptorrent-desktop, true when its assertions hold.  A temporary directory is an
    empty file system; the database a store finds is a value, so reopening passes it on. *)
From stdpp Require Import base tactics list numbers option gmap.
From Stdlib Require Import ZArith Lia.
From S2P Require Import Prelude Bytes Text BTree NetAddr Core Instances Json Resume NodeConfig NodeStore NodeImport ApiRecords ClientStatus Desktop DesktopView UnitTests.
Import stdpp.list.

Local Open Scope Z_scope.

Import Toy ToyPostcard ToyCodec ToyToml.

(** ** crates/triptorrent-node *)

Module StoreTests.
Definition config_precedence_and_loopback_validation : bool :=
  let environment : Environment :=
    {[ str "TRIPTORRENT_DOWNLOAD_LIMIT" := str "200"; str "TRIPTORRENT_API_LISTEN" := str "127.0.0.1:7444" ]} in
  let d := default_config in
  let base := mkNodeConfig (data_dir d) (nc_api_listen d) (bootstrap d) 100 (upload_limit d) (max_concurrent_transfers d) (log_level d) (replicate 64 97) in
  match NodeConfig.merge base environment (mkOverrides None None None (Some 300) None None None) with
  | Ok merged =>
      let unsafe := mkNodeConfig (data_dir merged) (mkSocketAddr (V4 [0; 0; 0; 0]) 0 7331) (bootstrap merged) (download_limit merged)
        (upload_limit merged) (max_concurrent_transfers merged) (log_level merged) (nc_api_token merged) in
      (download_limit merged =? 300) && (sa_port (nc_api_listen merged) =? 7444) && negb (is_ok (validate unsafe))
  | Err _ => false
  end.

Definition data : list Z := str "data".
Definition source : list Z := str "source.bin".

(** A store opened on an empty directory. *)
Definition empty_index : Database := mkDatabase None None [] [] 0.
Definition fresh (files : gmap (list Z) (list Z)) (t : test Store unit) : bool :=
  match open_store data empty_index (mkWorld files []) with
  | (s, Ok _) => passes s t
  | _ => false
  end.

(** An operation of the store, its error kept as a value. *)
Definition run {A} (c : sio A) : test Store (result (list Z) A) := call c.
(** [fs::write] and [fs::remove_file] by the test *)
Definition write (path bytes : list Z) : test Store unit :=
  change (fun s => mkStore (root s) (db s) (mkWorld (<[path := bytes]> (files (disk s))) (faults (disk s)))).
Definition remove (path : list Z) : test Store unit :=
  change (fun s => mkStore (root s) (db s) (mkWorld (delete path (files (disk s))) (faults (disk s)))).
Definition exists_ (path : list Z) : test Store bool := look (fun s => bool_decide (is_Some (files (disk s) !! path))).

Definition store_detects_modified_and_missing_content : bool :=
  fresh {[ source := str "persistent bytes" ]}
    (r ← run (NodeStore.add_content source true 0); first ← unwrap r;
     _ ← write (cr_data_path first) (str "modified");
     r ← run NodeStore.list_content; records ← unwrap r;
     record ← unwrap_some (head records);
     _ ← assert_eq (cr_integrity record) (str "corrupt");
     _ ← assert (negb (cr_shared record));
     _ ← write (str "source-two.bin") (str "second item");
     r ← run (NodeStore.add_content (str "source-two.bin") true 0); second ← unwrap r;
     _ ← remove (cr_data_path second);
     r ← run NodeStore.list_content; records ← unwrap r;
     assert (any (fun record => bool_decide (cr_integrity record = str "missing")) records)).

Definition removing_metadata_preserves_bytes_unless_explicit : bool :=
  fresh {[ source := str "managed bytes" ]}
    (r ← run (NodeStore.add_content source false 0); first ← unwrap r;
     r ← run (NodeStore.remove_content (cr_content_id first) false); _ ← unwrap r;
     b ← exists_ (cr_data_path first); _ ← assert b;
     r ← run (NodeStore.add_content source false 0); second ← unwrap r;
     r ← run (NodeStore.remove_content (cr_content_id second) true); _ ← unwrap r;
     b ← exists_ (cr_data_path second); _ ← assert (negb b);
     b ← exists_ source; assert b).

(** [Store::open] again, on what the store left *)
Definition reopen : test Store (result (list Z) unit) :=
  call (fun s => open_store (root s) (db s) (disk s)).

Definition with_data_path (path : list Z) (row : NodeStore.ContentRow) : NodeStore.ContentRow :=
  mkContentRow (ct_length row) (ct_chunk_count row) path (ct_manifest_path row) (ct_shared row) (ct_complete row) (ct_integrity row) (ct_created_at row).

Definition indexed_path_cannot_escape_managed_storage : bool :=
  fresh {[ source := str "managed bytes" ]}
    (r ← run (NodeStore.add_content source true 0); _ ← unwrap r;
     _ ← change (fun s => mkStore (root s)
           (set_content (map (fun e => (e.1, with_data_path (str "../outside") e.2))) (db s)) (disk s));
     r ← reopen; assert (negb (is_ok r))).

Definition version_one_index_migrates_transfer_progress_fields : bool :=
  match open_store data (mkDatabase (Some 1) (Some []) [] [] 0) (mkWorld ∅ []) with
  | (s, Ok _) =>
      bool_decide (schema (db s) = Some SCHEMA_VERSION)
      && all (fun expected => bool_decide (expected ∈ default [] (columns (db s))))
           [str "verified_chunks"; str "total_chunks"; str "current_rate_bps"; str "provider_count"; str "provider_contributions"; str "network_path"]
  | _ => false
  end.

Definition sentinel : list Z := str "data/sentinel.txt".

Definition corrupt_database_identifiers_cannot_escape_managed_storage : bool :=
  let row := mkContentRow 0 0 (str "content/../sentinel.txt") (str "content/../sentinel.txt") 0 0 (str "ok") 0 in
  fresh ∅
    (_ ← write sentinel (str "must survive");
     _ ← change (fun s => mkStore (root s) (set_content (bt_insert (str "..") row) (db s)) (disk s));
     r ← run (NodeStore.remove_content (str "..") true); _ ← assert (negb (is_ok r));
     f ← look (fun s => files (disk s) !! sentinel); _ ← assert_eq f (Some (str "must survive"));
     r ← run NodeStore.list_content; assert (negb (is_ok r))).

Definition corrupt_transfer_numeric_state_fails_closed : bool :=
  let row := mkTransferRow 1 (ContentId_to_string (ContentId_digest (str "transfer"))) (str "download") (str "running") (-1) 0 0 0 0 0 0 0
    (str "[]") 0 None 0 (str "encrypted_relayed_swarm") 0 0 in
  fresh ∅
    (_ ← change (fun s => mkStore (root s) (set_transfers (fun rows => rows ++ [row]) (db s)) (disk s));
     r ← run NodeStore.list_transfers; assert (negb (is_ok r))).

(** The part of [configuration_debug_output_redacts_token_and_size_is_bounded] on the size. *)
Definition configuration_size_is_bounded : bool :=
  let path := str "oversized.toml" in
  let w := mkWorld {[ path := replicate (Z.to_nat (MAX_CONFIG_BYTES + 1)) 97 ]} [] in
  negb (is_ok (load path ∅ no_overrides w).2).

Example node_tests_pass :
  [config_precedence_and_loopback_validation; store_detects_modified_and_missing_content; removing_metadata_preserves_bytes_unless_explicit;
   indexed_path_cannot_escape_managed_storage; version_one_index_migrates_transfer_progress_fields;
   corrupt_database_identifiers_cannot_escape_managed_storage; corrupt_transfer_numeric_state_fails_closed; configuration_size_is_bounded]
  = replicate 8 true.
Proof. vm_compute. reflexivity. Qed.
End StoreTests.

(** ** crates/triptorrent-desktop *)

Module DesktopTests.
Definition structured_network_status_is_truthful : bool :=
  let status := current_privacy in
  bool_decide (pv_discovery status = str "centralized_m2_derived_testnet_bootstrap")
  && bool_decide (pv_data_path status = str "end_to_end_encrypted_relayed_swarm")
  && negb (pv_direct_peer_connection status)
  && negb (classic_bittorrent_active (pv_compatibility status))
  && negb (m3_private_discovery_implemented (pv_compatibility status))
  && negb (pv_anonymity_guarantee status).

Definition verified_progress_never_exceeds_total : bool :=
  let transfer := mkTransferRecord 1 (replicate 64 97) (str "download") (str "running") 10 12 1 1 0 1 0 0 [] 0 None true
    (str "encrypted_relayed_swarm") in
  progress_fraction transfer =? 10000.

Fixpoint contains_text (needle text : list Z) : bool :=
  starts_with needle text || match text with [] => false | _ :: text => contains_text needle text end.

Definition diagnostics_do_not_include_unmodeled_secrets : bool :=
  let text := diagnostic_text (initial (str "node.toml")) in
  all (fun secret => negb (contains_text secret text)) [str "Bearer"; str "api_token"; str "session key"].

Example desktop_tests_pass :
  [structured_network_status_is_truthful; verified_progress_never_exceeds_total; diagnostics_do_not_include_unmodeled_secrets]
  = replicate 3 true.
Proof. vm_compute. reflexivity. Qed.
End DesktopTests.
