(* ===== verification/Digests.v ===== *)
(** * Digests: SHA-1, SHA-256 and BLAKE3

    The hash functions the program takes from the crates sha1, sha2 and blake3, written
    from their specifications (FIPS 180-4 and the BLAKE3 paper) as instances of the
    classes that stand for them.  The theorems of the development hold for every such
    instance and use none of this; the repository's test vectors, which give digests, are
    evaluated with these (DigestTests.v).  BLAKE3 satisfies the laws the theorems ask of it. *)
From stdpp Require Import base tactics list numbers option.
From Stdlib Require Import ZArith Lia.
From S2P Require Import Prelude Bytes Torrent.
Import stdpp.list.

Local Open Scope Z_scope.

(** ** Words of 32 bits *)

Definition MASK : Z := 0xffffffff.
Definition wadd (a b : Z) : Z := Z.land (a + b) MASK.
Definition wnot (a : Z) : Z := Z.lxor a MASK.
Definition rotr (n a : Z) : Z := Z.lor (Z.shiftr a n) (Z.shiftl (Z.land a (Z.ones n)) (32 - n)).
Definition rotl (n a : Z) : Z := rotr (32 - n) a.
Definition word_at (l : list Z) (i : nat) : Z := nth i l 0.

Definition be_words (l : list Z) : list Z := map from_be (chunks 4 l).
Definition le_words (l : list Z) : list Z := map (fun b => from_be (rev b)) (chunks 4 l).
Definition be_bytes (l : list Z) : list Z := concat (map (to_be 4) l).
Definition le_bytes (l : list Z) : list Z := concat (map (fun w => rev (to_be 4 w)) l).

(** The padding of SHA-1 and SHA-256: a bit 1, zeroes, the length in bits. *)
Definition sha_blocks (l : list Z) : list (list Z) :=
  map be_words (chunks 64 (l ++ [128] ++ replicate (Z.to_nat ((55 - len l) mod 64)) 0 ++ to_be 8 (8 * len l))).

(** [n] further words of a message schedule, the newest first *)
Fixpoint extend (next : list Z -> Z) (n : nat) (w : list Z) : list Z :=
  match n with O => w | S n => extend next n (next w :: w) end.

(** ** SHA-256 *)

Module SHA256.
(** The first [n] primes. *)
Definition prime (n : nat) : bool := forallb (fun d => negb (n mod d =? 0)%nat) (seq 2 (n - 2)).
Definition primes (n : nat) : list Z := map Z.of_nat (take n (List.filter prime (seq 2 320))).

(** The integer cube root, bit by bit from the highest. *)
Definition cube_root (bits : nat) (x : Z) : Z :=
  foldl (fun r b => let c := r + 2 ^ Z.of_nat b in if c * c * c <=? x then c else r) 0 (rev (seq 0 bits)).

(** The constants: the first 32 bits of the fractions of the square roots of the first eight
    primes and of the cube roots of the first sixty-four. *)
Definition IV : list Z := Eval vm_compute in map (fun p => Z.land (Z.sqrt (p * 2 ^ 64)) MASK) (primes 8).
Definition K : list Z := Eval vm_compute in map (fun p => Z.land (cube_root 36 (p * 2 ^ 96)) MASK) (primes 64).

Definition next (w : list Z) : Z :=
  let x := word_at w 14 in
  let y := word_at w 1 in
  wadd (wadd (Z.lxor (rotr 17 y) (Z.lxor (rotr 19 y) (Z.shiftr y 10))) (word_at w 6))
       (wadd (Z.lxor (rotr 7 x) (Z.lxor (rotr 18 x) (Z.shiftr x 3))) (word_at w 15)).

Definition round (v : list Z) (kw : Z * Z) : list Z :=
  match v with
  | [a; b; c; d; e; f; g; h] =>
      let s1 := Z.lxor (rotr 6 e) (Z.lxor (rotr 11 e) (rotr 25 e)) in
      let ch := Z.lxor (Z.land e f) (Z.land (wnot e) g) in
      let t1 := wadd (wadd h s1) (wadd ch (wadd kw.1 kw.2)) in
      let s0 := Z.lxor (rotr 2 a) (Z.lxor (rotr 13 a) (rotr 22 a)) in
      let maj := Z.lxor (Z.land a b) (Z.lxor (Z.land a c) (Z.land b c)) in
      [wadd t1 (wadd s0 maj); a; b; c; wadd d t1; e; f; g]
  | _ => v
  end.

Definition compress (h block : list Z) : list Z :=
  zip_with wadd h (foldl round h (zip K (rev (extend next 48 (rev block))))).

Definition digest (l : list Z) : list Z := be_bytes (foldl compress IV (sha_blocks l)).
End SHA256.

#[export] Instance sha256 : Sha256 := SHA256.digest.

(** ** SHA-1 *)

Module SHA1.
Definition IV : list Z := [0x67452301; 0xefcdab89; 0x98badcfe; 0x10325476; 0xc3d2e1f0].

Definition next (w : list Z) : Z :=
  rotl 1 (Z.lxor (Z.lxor (word_at w 2) (word_at w 7)) (Z.lxor (word_at w 13) (word_at w 15))).

Definition choose (b c d : Z) : Z := Z.lxor (Z.land b c) (Z.land (wnot b) d).
Definition parity (b c d : Z) : Z := Z.lxor b (Z.lxor c d).
Definition majority (b c d : Z) : Z := Z.lxor (Z.land b c) (Z.lxor (Z.land b d) (Z.land c d)).

(** The function and the constant of each of the eighty steps. *)
Definition steps : list ((Z -> Z -> Z -> Z) * Z) :=
  replicate 20 (choose, 0x5a827999) ++ replicate 20 (parity, 0x6ed9eba1)
  ++ replicate 20 (majority, 0x8f1bbcdc) ++ replicate 20 (parity, 0xca62c1d6).

Definition round (v : list Z) (s : ((Z -> Z -> Z -> Z) * Z) * Z) : list Z :=
  match v with
  | [a; b; c; d; e] => [wadd (wadd (rotl 5 a) (s.1.1 b c d)) (wadd e (wadd s.1.2 s.2)); a; rotl 30 b; c; d]
  | _ => v
  end.

Definition compress (h block : list Z) : list Z :=
  zip_with wadd h (foldl round h (zip steps (rev (extend next 64 (rev block))))).

Definition digest (l : list Z) : list Z := be_bytes (foldl compress IV (sha_blocks l)).
End SHA1.

#[export] Instance sha1 : Sha1 := SHA1.digest.

(** ** BLAKE3 *)

Module BLAKE3.
Definition CHUNK_START : Z := 1.
Definition CHUNK_END : Z := 2.
Definition PARENT : Z := 4.
Definition ROOT : Z := 8.
Definition PERMUTATION : list nat := [2; 6; 3; 10; 7; 0; 4; 13; 1; 11; 12; 5; 9; 14; 15; 8]%nat.

(** The quarter round on four words of the state and two of the message. *)
Definition g (v : list Z) (ix : nat * nat * nat * nat) (mx my : Z) : list Z :=
  let '(a, b, c, d) := ix in
  let va := wadd (wadd (word_at v a) (word_at v b)) mx in
  let vd := rotr 16 (Z.lxor (word_at v d) va) in
  let vc := wadd (word_at v c) vd in
  let vb := rotr 12 (Z.lxor (word_at v b) vc) in
  let va := wadd (wadd va vb) my in
  let vd := rotr 8 (Z.lxor vd va) in
  let vc := wadd vc vd in
  let vb := rotr 7 (Z.lxor vb vc) in
  <[a := va]> (<[b := vb]> (<[c := vc]> (<[d := vd]> v))).

(** Columns, then diagonals. *)
Definition indices : list (nat * nat * nat * nat) :=
  [(0, 4, 8, 12); (1, 5, 9, 13); (2, 6, 10, 14); (3, 7, 11, 15);
   (0, 5, 10, 15); (1, 6, 11, 12); (2, 7, 8, 13); (3, 4, 9, 14)]%nat.

Fixpoint mix (v m : list Z) (ix : list (nat * nat * nat * nat)) : list Z :=
  match ix, m with
  | i :: ix, x :: y :: m => mix (g v i x y) m ix
  | _, _ => v
  end.

Fixpoint rounds (n : nat) (v m : list Z) : list Z :=
  match n with
  | O => v
  | S n => rounds n (mix v m indices) (map (word_at m) PERMUTATION)
  end.

(** What remains to be compressed: a chunk's last block or two chaining values. *)
Record node := mkNode {
  cv : list Z;
  block : list Z;
  counter : Z;
  block_len : Z;
  flags : Z
}.

Definition compress (n : node) : list Z :=
  let v := rounds 7 (take 8 (cv n) ++ take 4 SHA256.IV
    ++ [Z.land (counter n) MASK; Z.land (Z.shiftr (counter n) 32) MASK; block_len n; flags n]) (block n) in
  map (fun i => Z.lxor (word_at v i) (word_at v (i + 8))) (seq 0 8).

Definition block_words (l : list Z) : list Z := le_words (l ++ replicate (64 - length l) 0).

(** The blocks of a chunk, all but the last compressed into the chaining value. *)
Fixpoint chunk_node (counter : Z) (cv : list Z) (start : Z) (blocks : list (list Z)) : node :=
  match blocks with
  | [] => mkNode cv (block_words []) counter 0 (Z.lor start CHUNK_END)
  | [b] => mkNode cv (block_words b) counter (len b) (Z.lor start CHUNK_END)
  | b :: blocks => chunk_node counter (compress (mkNode cv (block_words b) counter (len b) start)) 0 blocks
  end.

Definition parent (l r : node) : node := mkNode SHA256.IV (compress l ++ compress r) 0 64 PARENT.

(** A level of the tree: neighbours are joined, an odd last node moves up. *)
Fixpoint level (nodes : list node) : list node :=
  match nodes with
  | l :: r :: nodes => parent l r :: level nodes
  | nodes => nodes
  end.

Fixpoint root (fuel : nat) (nodes : list node) : node :=
  match fuel, nodes with
  | _, [] => chunk_node 0 SHA256.IV CHUNK_START []
  | S fuel, _ :: _ :: _ => root fuel (level nodes)
  | _, n :: _ => n
  end.

Definition digest (l : list Z) : list Z :=
  let nodes := imap (fun i c => chunk_node (Z.of_nat i) SHA256.IV CHUNK_START (chunks 64 c)) (chunks 1024 l) in
  let n := root (length nodes) nodes in
  le_bytes (compress (mkNode (cv n) (block n) (counter n) (block_len n) (Z.lor (flags n) ROOT))).
End BLAKE3.

#[export] Instance blake3 : Blake3 := BLAKE3.digest.

Lemma len_le_bytes l : len (le_bytes l) = 4 * len l.
Proof.
  induction l as [|w l IH]; [done|]. unfold le_bytes in *. cbn [map concat].
  rewrite len_app, IH, len_cons. unfold len at 1. rewrite length_rev, length_to_be. lia.
Qed.

Lemma bytes_ok_le_bytes l : bytes_ok (le_bytes l).
Proof.
  induction l as [|w l IH]; [constructor|]. unfold le_bytes in *. cbn [map concat].
  apply bytes_ok_app. split; [|exact IH]. apply Forall_rev, bytes_ok_to_be.
Qed.

#[export] Instance blake3_laws : Blake3Laws.
Proof.
  split; intros l; unfold blake3_hash, blake3, BLAKE3.digest.
  - rewrite len_le_bytes. reflexivity.
  - apply bytes_ok_le_bytes.
Qed.
