(* ===== verification/Conformance.v ===== *)
(** * Conformance: the Testnet v1 vectors, run on the model

    The test of crates/triptorrent-protocol/tests/testnet_v1_conformance.rs with the vectors of
    test-vectors/m9-testnet-v1.json: the encoders give the checked-in bytes for every
    positive vector, the decoders take them back, and refuse every negative vector, here
    with the error the vector names.  The digests are those of Digests.v. *)
From stdpp Require Import base tactics list numbers option.
From Stdlib Require Import ZArith Lia.
From S2P Require Import Prelude Bytes Text NetAddr Core Instances Availability Wire Frame Relay Torrent Digests.
Import stdpp.list.

Local Open Scope Z_scope.

(** ** The vectors *)

Definition of_hex (text : list Z) : list Z := default [] (Toy.decode text).

(** test-data/m9-canonical.txt, with its length and content identifier *)
Definition payload : list Z := of_hex (str "54726970546f7272656e7420546573746e657420312063616e6f6e6963616c2073796e746865746963207472616e736665722061727469666163742e0a546869732066696c652069732070726f6a6563742d6f776e65642074657374206461746120616e642063617272696573206e6f2074686972642d706172747920636f6e74656e742e0a50726f746f636f6c2076657273696f6e3a20310a4e6574776f726b3a2074726970746f7272656e742d746573746e65742d310a").
Definition artifact_size : Z := 185.
Definition artifact_chunk_size : Z := 32768.
Definition artifact_chunk_count : Z := 1.
Definition suite_protocol_version : Z := 1.
Definition suite_network : list Z := str "triptorrent-testnet-1".
Definition artifact_content_id : list Z := str "fdd7d693c7ca9bb83ff74f5b900f03eb7f3fbda3ab46043f7938c4473d72e199".
Definition artifact_sha256 : list Z := str "8fee8c591bfdc993cf9a2f53e567a5cfe39738e6d70e60caef9b0955178d81c5".

Record Vector := mkVector {
  name : list Z;
  surface : list Z;
  hex : option (list Z);
  expect : list Z;
  sequence : option (list (list Z));
  declared_length : option Z
}.

Definition positive : list Vector :=
  [mkVector (str "swarm-request") (str "application") (Some (str "5454503100011574726970746f7272656e742d746573746e65742d310110fdd7d693c7ca9bb83ff74f5b900f03eb7f3fbda3ab46043f7938c4473d72e199")) (str "accept") None None;
   mkVector (str "swarm-manifest") (str "application") (Some (str "5454503100011574726970746f7272656e742d746573746e65742d310111fdd7d693c7ca9bb83ff74f5b900f03eb7f3fbda3ab46043f7938c4473d72e19900000000000000b90000800000000001fdd7d693c7ca9bb83ff74f5b900f03eb7f3fbda3ab46043f7938c4473d72e199000000010000000101")) (str "accept") None None;
   mkVector (str "chunk-request") (str "application") (Some (str "5454503100011574726970746f7272656e742d746573746e65742d31011200000000")) (str "accept") None None;
   mkVector (str "chunk-response") (str "application") (Some (str "5454503100011574726970746f7272656e742d746573746e65742d31010300000000fdd7d693c7ca9bb83ff74f5b900f03eb7f3fbda3ab46043f7938c4473d72e199000000b954726970546f7272656e7420546573746e657420312063616e6f6e6963616c2073796e746865746963207472616e736665722061727469666163742e0a546869732066696c652069732070726f6a6563742d6f776e65642074657374206461746120616e642063617272696573206e6f2074686972642d706172747920636f6e74656e742e0a50726f746f636f6c2076657273696f6e3a20310a4e6574776f726b3a2074726970746f7272656e742d746573746e65742d310a")) (str "accept") None None;
   mkVector (str "unavailable") (str "application") (Some (str "5454503100011574726970746f7272656e742d746573746e65742d31011300000000")) (str "accept") None None;
   mkVector (str "completion") (str "application") (Some (str "5454503100011574726970746f7272656e742d746573746e65742d310114")) (str "accept") None None;
   mkVector (str "structured-error") (str "application") (Some (str "5454503100011574726970746f7272656e742d746573746e65742d310105000a74657374206572726f72")) (str "accept") None None;
   mkVector (str "peer-registration") (str "overlay_request") (Some (str "5454503100011574726970746f7272656e742d746573746e65742d310201ebaf85b465a09de21b398fb112c1500f2cbe658c42f379e0c0f18d24b819f63707070707070707070707070707070707070707070707070707070707070707070100020001fdd7d693c7ca9bb83ff74f5b900f03eb7f3fbda3ab46043f7938c4473d72e199")) (str "accept") None None;
   mkVector (str "relay-advertisement") (str "overlay_request") (Some (str "5454503100011574726970746f7272656e742d746573746e65742d310204000772656c61792d61000e3132372e302e302e313a37303031")) (str "accept") None None;
   mkVector (str "provider-discovery") (str "overlay_request") (Some (str "5454503100011574726970746f7272656e742d746573746e65742d310207fdd7d693c7ca9bb83ff74f5b900f03eb7f3fbda3ab46043f7938c4473d72e1990001")) (str "accept") None None;
   mkVector (str "route-assignment") (str "overlay_response") (Some (str "5454503100011574726970746f7272656e742d746573746e65742d3103040001ebaf85b465a09de21b398fb112c1500f2cbe658c42f379e0c0f18d24b819f6370707070707070707070707070707070707070707070707070707070707070707000772656c61792d61000e3132372e302e302e313a3730303100086d392d726f757465")) (str "accept") None None;
   mkVector (str "relay-registration") (str "relay_registration") (Some (str "5454523100011574726970746f7272656e742d746573746e65742d310100086d392d726f757465")) (str "accept") None None;
   mkVector (str "bootstrap-health") (str "overlay_request") (Some (str "5454503100011574726970746f7272656e742d746573746e65742d310209")) (str "accept") None None].

Definition negative : list Vector :=
  [mkVector (str "wrong-network") (str "application") (Some (str "5454503100011575726970746f7272656e742d746573746e65742d310114")) (str "wrong_network") None None;
   mkVector (str "unsupported-version") (str "application") (Some (str "5454503100021574726970746f7272656e742d746573746e65742d310114")) (str "unsupported_version") None None;
   mkVector (str "unknown-message") (str "application") (Some (str "5454503100011574726970746f7272656e742d746573746e65742d3101fe")) (str "unknown_message") None None;
   mkVector (str "truncated-frame") (str "application") (Some (str "5454503100011574726970746f7272656e742d746573746e65742d3101")) (str "malformed") None None;
   mkVector (str "trailing-data") (str "application") (Some (str "5454503100011574726970746f7272656e742d746573746e65742d31011400")) (str "malformed") None None;
   mkVector (str "invalid-state-order") (str "state") None (str "invalid_state") (Some [str "chunk_request"]) None;
   mkVector (str "oversized-application-frame") (str "framing") None (str "frame_too_large") None (Some 1048577);
   mkVector (str "unsupported-required-capability") (str "overlay_request") (Some (str "5454503100011574726970746f7272656e742d746573746e65742d310201ebaf85b465a09de21b398fb112c1500f2cbe658c42f379e0c0f18d24b819f63707070707070707070707070707070707070707070707070707070707070707070100030001fdd7d693c7ca9bb83ff74f5b900f03eb7f3fbda3ab46043f7938c4473d72e199")) (str "unsupported_capability") None None].

(** ** The test *)

#[local] Existing Instance Toy.toy_hex.

Definition assignment : RouteAssignment :=
  let key := replicate 32 7 in
  mkRouteAssignment (PeerId_from_public_key key) key (str "relay-a") (str "127.0.0.1:7001") (str "m9-route").

Definition relay_registration (route : list Z) : list Z :=
  str "TTR1" ++ to_be 2 PROTOCOL_VERSION ++ [len NETWORK_ID] ++ NETWORK_ID ++ [1] ++ to_be 2 (len route) ++ route.

Definition encoded_values (manifest : Manifest) (first : Chunk) : list (list Z * result ProtocolError (list Z)) :=
  let key := replicate 32 7 in
  [(str "swarm-request", encode (SwarmRequest (m_content_id manifest)));
   (str "swarm-manifest", encode (SwarmManifest manifest (availability_all 1)));
   (str "chunk-request", encode (ChunkRequest 0));
   (str "chunk-response", encode (MChunk first));
   (str "unavailable", encode (ChunkUnavailable 0));
   (str "completion", encode SwarmComplete);
   (str "structured-error", encode (MError (str "test error")));
   (str "peer-registration", encode_overlay_request (RegisterPeer
      (mkPeerAdvertisement (PeerId_from_public_key key) key [SwarmTransferV1] [m_content_id manifest])));
   (str "relay-advertisement", encode_overlay_request (RegisterRelay (mkRelayAdvertisement (str "relay-a") (str "127.0.0.1:7001"))));
   (str "provider-discovery", encode_overlay_request (DiscoverProviders (m_content_id manifest) 1));
   (str "bootstrap-health", encode_overlay_request Health);
   (str "route-assignment", encode_overlay_response (Routes [assignment]));
   (str "relay-registration", Ok (relay_registration (str "m9-route")))].

(** The bytes of a vector; the test panics when there are none. *)
Definition vector_bytes (v : Vector) : option (list Z) := text ← hex v; Toy.decode text.

(** Each value is encoded to the bytes of the vector of its name. *)
Definition encodings_match (encoded : list (list Z * result ProtocolError (list Z))) : bool :=
  (len encoded =? len positive)
  && all (fun '(n, bytes) =>
       match bytes, List.find (fun v => bool_decide (name v = n)) positive with
       | Ok bytes, Some v => bool_decide (Some (hex_encode bytes) = hex v)
       | _, _ => false
       end) encoded.

(** A positive vector is decoded by the codec of its surface; a registration is compared only. *)
Definition positive_holds (v : Vector) : bool :=
  match vector_bytes v with
  | None => false
  | Some bytes =>
      if bool_decide (surface v = str "application") then is_ok (decode bytes)
      else if bool_decide (surface v = str "overlay_request") then is_ok (decode_overlay_request bytes)
      else if bool_decide (surface v = str "overlay_response") then is_ok (decode_overlay_response bytes)
      else bool_decide (surface v = str "relay_registration")
  end.

Definition negative_holds (v : Vector) : bool :=
  (if bool_decide (surface v = str "application") then
     match vector_bytes v with Some bytes => negb (is_ok (decode bytes)) | None => false end
   else if bool_decide (surface v = str "overlay_request") then
     match vector_bytes v with Some bytes => negb (is_ok (decode_overlay_request bytes)) | None => false end
   else if bool_decide (surface v = str "state") then negb (bool_decide (sequence v ≫= head = Some (str "swarm_request")))
   else if bool_decide (surface v = str "framing") then
     match declared_length v with Some n => n >? MAX_APPLICATION_MESSAGE_BYTES | None => false end
   else true)
  && negb (bool_decide (expect v = str "accept")).

Definition rust_consumes_checked_in_testnet_v1_vectors : bool :=
  (suite_protocol_version =? PROTOCOL_VERSION) && bool_decide (suite_network = NETWORK_ID)
  && (len payload =? artifact_size) && bool_decide (ContentId_to_string (ContentId_digest payload) = artifact_content_id)
  && (artifact_chunk_size =? 32768)
  && match Manifest_from_bytes payload with
     | Ok (manifest, first :: rest) =>
         (len (first :: rest) =? artifact_chunk_count)
         && bool_decide (hex_encode (sha256_digest payload) = artifact_sha256)
         && encodings_match (encoded_values manifest first)
     | _ => false
     end
  && all positive_holds positive && all negative_holds negative.

Example conformance_test_passes : rust_consumes_checked_in_testnet_v1_vectors = true.
Proof. vm_compute. reflexivity. Qed.

(** More than the test asks: the relay parses the registration of the vectors. *)
Example registration_vector_is_parsed :
  (parse_registration <$> (List.find (fun v => bool_decide (surface v = str "relay_registration")) positive ≫= vector_bytes))
  = Some (Ok (str "m9-route", Receiver)).
Proof. vm_compute. reflexivity. Qed.

(** More than the test asks: an encoding a codec refuses is refused with the error the
    vector names. *)
Definition error_name (e : ProtocolError) : list Z :=
  match e with
  | WrongNetwork _ => str "wrong_network"
  | UnsupportedVersion _ => str "unsupported_version"
  | UnknownMessage _ => str "unknown_message"
  | UnsupportedCapability _ => str "unsupported_capability"
  | _ => str "malformed"
  end.

Definition named_error (v : Vector) : bool :=
  match vector_bytes v with
  | None => true
  | Some bytes =>
      let error := if bool_decide (surface v = str "application")
        then match decode bytes with Err e => Some e | Ok _ => None end
        else match decode_overlay_request bytes with Err e => Some e | Ok _ => None end in
      bool_decide (error_name <$> error = Some (expect v))
  end.

Example negative_vectors_name_their_errors : all named_error negative = true.
Proof. vm_compute. reflexivity. Qed.
