(* ===== verification/DigestTests.v ===== *)
(** * DigestTests: the tests that compare digests, run on the model

    The tests of crates/triptorrent-interop that compare identities with the vectors of
    test-vectors/m6-bittorrent-interop.json, the tests of the discovery simulation of
    crates/triptorrent-overlay that fit in a check, and a row of the results that
    docs/M3_DISCOVERY_RESEARCH.md publishes, all with the hash functions of Digests.v. *)
From stdpp Require Import base tactics list numbers option.
From Stdlib Require Import ZArith Lia.
From S2P Require Import Prelude Bytes Text Core Instances Bencode Torrent Digests Research.
Import stdpp.list.

Local Open Scope Z_scope.

#[local] Existing Instance Toy.toy_hex.

(** ** crates/triptorrent-interop *)

Module IdentityTests.
Record TorrentVector := mkTorrentVector {
  name : list Z;
  metainfo_hex : list Z;
  vector_kind : TorrentKind;
  vector_btih : option (list Z);
  vector_btmh_sha256 : option (list Z)
}.

Definition payload_hex : list Z := str "54726970546f7272656e74204d3620766563746f72207061796c6f61640a".
Definition triptorrent_content_id : list Z := str "db5d918a54a029ec640f0c9fcf7d231f39d3cae27c76b58e4271ae02b5fa512d".
Definition torrents : list TorrentVector :=
  [mkTorrentVector (str "v1-single") (str "64343a696e666f64363a6c656e67746869333065343a6e616d6531313a7061796c6f61642e62696e31323a7069656365206c656e67746869313633383465363a70696563657332303a09baad66f70c81fc6c1006ee5445547558739f356565") V1 (Some (str "208b088ea7a1fc55c74459446819d8d952197c51")) None;
   mkTorrentVector (str "v1-same-payload-renamed") (str "64343a696e666f64363a6c656e67746869333065343a6e616d6531313a72656e616d65642e62696e31323a7069656365206c656e67746869313633383465363a70696563657332303a09baad66f70c81fc6c1006ee5445547558739f356565") V1 (Some (str "18cc8becdf4540002f3a998524168549e744f30e")) None;
   mkTorrentVector (str "v2-single") (str "64343a696e666f64393a66696c6520747265656431313a7061796c6f61642e62696e64303a64363a6c656e6774686933306531313a70696563657320726f6f7433323a5e229d5294bb6227eca51574a9e97189073b289aa5fe188490b34ec3cb32eeb165656531323a6d6574612076657273696f6e693265343a6e616d6531313a7061796c6f61642e62696e31323a7069656365206c656e677468693136333834656565") V2 None (Some (str "ca344924597443e1b027026cef64cbba61e43c0d44ee5c0c4c27e2cec80fe012"));
   mkTorrentVector (str "hybrid-single") (str "64343a696e666f64393a66696c6520747265656431313a7061796c6f61642e62696e64303a64363a6c656e6774686933306531313a70696563657320726f6f7433323a5e229d5294bb6227eca51574a9e97189073b289aa5fe188490b34ec3cb32eeb1656565363a6c656e6774686933306531323a6d6574612076657273696f6e693265343a6e616d6531313a7061796c6f61642e62696e31323a7069656365206c656e67746869313633383465363a70696563657332303a09baad66f70c81fc6c1006ee5445547558739f356565") Hybrid (Some (str "d178b313885d5ec7f4944c5a162faccbf8550cd8")) (Some (str "1772468ebd823d2726ecef0bc7ffc96ec9d1e3e62939f11f633f97844e6b03ac"))].

#[local] Instance kind_eq_dec : EqDecision TorrentKind.
Proof. solve_decision. Defined.

Definition v1_v2_and_hybrid_identities_match_vectors : bool :=
  forallb (fun vector =>
    match torrent_identity <$> Toy.decode (metainfo_hex vector) with
    | Some (Some (Ok identity)) =>
        bool_decide (kind identity = vector_kind vector) && bool_decide (btih identity = vector_btih vector)
        && bool_decide (btmh_sha256 identity = vector_btmh_sha256 vector)
    | _ => false
    end) torrents.

Definition same_payload_can_have_distinct_v1_identities : bool :=
  match torrents, Toy.decode payload_hex with
  | first :: renamed :: _, Some payload =>
      negb (bool_decide (vector_btih first = vector_btih renamed))
      && bool_decide (triptorrent_payload_id payload = triptorrent_content_id)
  | _, _ => false
  end.

Example identity_tests_pass :
  [v1_v2_and_hybrid_identities_match_vectors; same_payload_can_have_distinct_v1_identities] = [true; true].
Proof. vm_compute. reflexivity. Qed.

(** More than the tests ask: the Merkle root of the payload is the one the v2 vector names. *)
Example payload_root_is_in_the_v2_vector :
  (v2_file_root <$> Toy.decode payload_hex)
  = Some (Some (Ok (default [] (Toy.decode (str "5e229d5294bb6227eca51574a9e97189073b289aa5fe188490b34ec3cb32eeb1"))))).
Proof. vm_compute. reflexivity. Qed.
End IdentityTests.

(** ** crates/triptorrent-overlay, research *)

Module ResearchTests.
Import ToySort.

Definition SMALL : ResearchScenario := mkScenario (str "small") 100 10 0 0 5 4 3.

Definition blinded_indirect_lookup_reduces_modeled_metadata_linkage : bool :=
  match simulate SMALL VanillaKademlia, simulate SMALL SeparatedMultiStage with
  | Some vanilla, Some separated =>
      let vanilla := rr_metrics vanilla in
      let separated := rr_metrics separated in
      (raw_content_observers vanilla >? 0) && (requester_key_observers vanilla >? 0) && (provider_key_observers vanilla >? 0)
      && (raw_content_observers separated =? 0) && (requester_key_observers separated =? 0) && (provider_key_observers separated =? 0)
  | _, _ => false
  end.

Definition diversity_preserves_replicas_under_a_single_operator_sybil_cluster : bool :=
  let scenario := mkScenario (str "sybil") 100 0 32 1 0 1 10 in
  match simulate scenario VanillaKademlia, simulate scenario SeparatedMultiStage with
  | Some vanilla, Some separated =>
      let vanilla := rr_metrics vanilla in
      let separated := rr_metrics separated in
      (sybil_records vanilla =? K_BUCKET_SIZE) && (sybil_records separated <? K_BUCKET_SIZE) && (successes separated >? successes vanilla)
  | _, _ => false
  end.

Example linkage_test_passes : blinded_indirect_lookup_reduces_modeled_metadata_linkage = true.
Proof. vm_compute. reflexivity. Qed.

Example diversity_test_passes : diversity_preserves_replicas_under_a_single_operator_sybil_cluster = true.
Proof. vm_compute. reflexivity. Qed.

(** The cells of the rendered tables, without the column of eclipsed lookups, which the
    published table does not have. *)
Definition published (c : DiscoveryCandidate) : option (list (list Z)) :=
  r ← simulate (mkScenario (str "clean-100") 100 0 0 0 0 20 5) c;
  Some (take 1 (drop 2 (first_row r)) ++ drop 4 (first_row r) ++ drop 2 (second_row r)).

(** The row of docs/M3_DISCOVERY_RESEARCH.md for [clean-100] and vanilla: success, rounds, key, raw-ID,
    requester and provider observers, same node, colluding, messages, then replicas, Sybil
    replicas, contacts per node, repeated key and repeated requester. *)
Example published_vanilla_row :
  published VanillaKademlia
  = Some [str "100.0%"; str "1.5"; str "4.6"; str "4.6"; str "4.6"; str "10.3"; str "0.0%"; str "0.0%"; str "9.3";
          str "8.0"; str "0.0"; str "35.7"; str "0.0%"; str "0.0%"].
Proof. vm_compute. reflexivity. Qed.
End ResearchTests.
